(* ===== verification/_CoqProject ===== *)
-Q . S2P
Prelude.v
Go.v
Client.v
CommandClient.v
Json.v
RouterTypes.v
Router.v
RouterFacts.v
Management.v
RouterSim.v
ApiV1.v
Conditions.v
BrokerTypes.v
Broker.v
BrokerFacts.v
Names.v
Ports.v
Scheduler.v
Infra.v
Entities.v
Sync.v
HostFacts.v
InfraFacts.v
EntityFacts.v
SyncFacts.v
ConfigFacts.v
SyncAllFacts.v
Safety.v
System.v
Lifecycle.v
Manager.v
Sim.v
PeerProps.v
InfraProps.v
OperatorProps.v
GoStrings.v
FilterExpr.v
FilterFacts.v
StableSort.v
FilterLex.v
FilterLexFacts.v
FilterParse.v
FilterParseFacts.v
FilterGrammar.v
FilterPrint.v
FilterText.v
Cache.v
CacheFacts.v
Access.v
Resolvers.v
KeyFacts.v
QueryFacts.v
ConsoleSim.v
FilterProps.v
ConsoleProps.v
KubeObjects.v
Workloads.v
Reconcile.v
Finalizer.v
ControllerFacts.v
Certs.v
CertFacts.v
AddressController.v
AddressFacts.v
ProjectController.v
ProjectFacts.v
EndpointController.v
EndpointFacts.v
InfraController.v
BrokerController.v
RouterController.v
PodFacts.v
Composition.v
InfraCtlFacts.v
ControllerSim.v
Convergence.v
ControllerProps.v
PodProps.v
Watchers.v
WatcherFacts.v
