(* ===== verification/Prelude.v ===== *)
(** * A verification of the EnMasse operator and of the queries of its console

    EnMasse's operator configures a messaging infrastructure: Qpid Dispatch routers
    that clients connect to and Artemis brokers that store messages. Its core are the
    Go packages under [src/pkg/state], which keep an image of what every router and
    broker is configured with, compare it with the projects, endpoints and addresses
    the tenants ask for, and send management requests that close the gap. The controllers
    under [src/pkg/controller] reconcile the Kubernetes objects of the tenants: they find
    the infrastructure of an object, call the core for it, create the services, routes and
    certificates it needs, write its status and take it down when it is deleted. Beside
    them, the console server under [src/pkg/consolegraphql] keeps address spaces, addresses,
    connections and links in an indexed cache and answers queries with filters, orders
    and pages over what its user may read. This development models the state packages,
    the AMQP client they talk through and the API types they work on, the controllers of
    addresses, endpoints, projects and infrastructures with their finalizers,
    certificates and pods, and the filters, the cache, the watchers that fill it, the access
    control and the queries of the console, and proves what they promise.

    ** The program and its model

    - [src/pkg/amqpcommand/command_client.go], the request-response client. The state
      packages see it through the class [Client.Client]: a request on the state [W] of
      a client and its peer, which returns a response, an error or a crash. The
      implementation itself is the transition system of [CommandClient]: callers,
      request channel, connection loop, correlation of replies.
    - [src/pkg/state/router]: [RouterTypes] has the entity types with their methods,
      encoding and decoding; [Router] the router state with [Initialize],
      [EnsureEntities], [DeleteEntities], [ReadEntities], [Reset], [Shutdown] and the
      management requests.
    - [src/pkg/state/broker]: [BrokerTypes] has the entity types and the management
      messages, whose JSON is modelled by [Json]; [Broker] the broker state.
    - [src/pkg/apis/enmasse/v1]: [ApiV1] has the fields of addresses, endpoints and
      projects that are used; [Conditions] the status conditions, with the slices and
      pointers of Go, because setting a condition depends on their aliasing.
    - [src/pkg/state/infra.go], the client of one infrastructure: [Names] (the names of
      entities), [Ports] (the port pool, with the cells its pointers point to), [Infra]
      (hosts, resynchronization, [DeleteBroker], scheduling, ports), [Entities] (what is
      built for endpoints and addresses), [Sync] (batches and [SyncAll]), [System] (the
      channels of requests, the two workers and the calls of the controllers as a step
      relation) and [Lifecycle] (the lock and the program points of the workers and of
      [Shutdown]).
    - [src/pkg/state/scheduler]: the class and the dummy scheduler of [Scheduler].
    - [src/pkg/state/manager.go]: [Manager].
    - [src/pkg/controller/messagingaddress], [messagingendpoint], [messagingproject] and
      [messaginginfra]: [AddressController], [EndpointController], [ProjectController] and
      [InfraController], each with one definition per step of [Reconcile] and the
      deconstructor of the finalizer. What they share is in [Reconcile]: the calls of the
      API server and of the client as effects, the resource context with [Process], and
      [LookupInfra]. [KubeObjects] has the fields of services, routes, ingresses and
      secrets that are used.
    - [src/pkg/controller/messaginginfra/router] and [broker]: [RouterController] and
      [BrokerController], which make the stateful sets, services and certificates of the
      pods, size the pool of brokers, and answer with the hosts. The infrastructure
      controller calls them; [Composition] runs their programs in place of these calls.
      [Workloads] has the fields of stateful sets, config maps and pods, the helpers of
      [src/pkg/util/install/utils.go] and the table of images of [src/pkg/util/images].
    - [src/pkg/util/finalizer]: [Finalizer].
    - [src/pkg/controller/messaginginfra/cert]: [Certs], over the class [Certs.X509] of
      the functions of [crypto], [encoding/pem] and the key stores.
    - [src/pkg/consolegraphql/filter]: [FilterLex] is the generated lexer of [lex.go] and
      [FilterParse] the generated parser of [parser.go], tables included; [FilterExpr]
      has [support.go], the evaluation of expressions and the ordering of objects. The
      functions of Go's [strings], [unicode/utf8] and [regexp] they use are in
      [GoStrings].
    - [src/pkg/consolegraphql/cache]: [Cache], over the transactions of go-memdb, which
      are the class [Cache.MemDB] with the laws [Cache.MemDBLaws].
    - [src/pkg/consolegraphql/watchers]: [Watchers] has the watchers of the seven kinds of
      resources, which are generated from one template and differ in their types only, and
      the manager that begins and ends them. [create], [update] and the loops of [doWatch]
      are definitions over the kind that is watched; a receiving loop and the rounds of
      [Watch] run for given numbers of turns, and the theorems hold for all of them. The
      handler of agents' events ([handleEvent]) is there too, with its calls of the cache.
    - [src/pkg/consolegraphql/accesscontroller]: [Access]; the API server's reviews are
      a function of what was asked before.
    - [src/pkg/consolegraphql/resolvers]: [Resolvers] has the keys built from filters,
      paging, and the queries for address spaces, addresses, connections and links.

    Definitions carry the names of the code; where one Go function became several
    definitions, each says which part it is. A name that exists in both the router and
    the broker package has a [b] in front of it in the broker's files.

    ** Conventions

    - A call returns an [outcome]: a value, an error or a run-time panic. A stateful call
      is a [prog S A], a function from the state to the new state and the outcome; the
      state survives an error, as it does in Go.
    - What Go leaves open is an oracle of the class [Go.Sched]: the order of map
      iteration, the order in which the goroutines of an [errgroup] complete, and
      [rand.Intn]. Every choice is addressed by a [tick], the path of the call that makes
      it, so that the oracle may answer differently at every occurrence; nothing is
      assumed of it but that it loses and invents nothing. A theorem holds for every
      oracle.
    - Routers and brokers work on distinct states, so that the goroutines of a group are
      run one after the other, in any order. All operations of a client run under its
      lock; [Lifecycle] proves that they exclude each other.
    - Resources are shared between the controllers and the client: the client's maps
      hold locations of a heap, which the owner of a resource may change at any time
      except for its metadata.
    - The [done] channels of requests are a log of answers.
    - A controller is a tree of calls ([Reconcile.io]): a result, a crash, or a call with
      a continuation for each of its answers. Nothing is assumed of the answers: the
      theorems on reconciliations hold for every handler of the calls, hence also when
      objects are changed or calls fail in between. The status conditions of the object
      live in the arrays of [Conditions], so that a stale pointer behaves as in Go, for
      every growth of slices.
    - Two definitions use fuel. The JSON parser of [Json] has twice the length of the
      text and two more: of two nested calls at least one consumes a character. The loop
      of the filter parser has eight turns for each byte of the text and four more
      bytes; [FilterParseFacts] proves that this is enough for every text.
    - Libraries are classes whose laws are their documented behaviour, each with an
      instance that has them: the scheduler, the management node, [sort.SliceStable]
      ([StableSort]), go-memdb and the JSON paths of client-go ([ConsoleSim]), keys
      and certificates ([ControllerSim]). The environment of the process and the file of
      images are the class [Workloads.Process_].

    ** What is proved

    - [RouterFacts], [BrokerFacts], [HostFacts]: well-formedness is preserved by every
      operation; what the operations do to the cache on success and failure; the order of
      the requests they send.
    - [Management], [RouterSim]: the router state refines the router's set of entities:
      under the documented behaviour of the management node, the cache of every reachable
      initialized state has exactly the router's names while the connection holds. An
      in-memory router discharges the assumptions.
    - [InfraFacts], [EntityFacts], [SyncFacts], [ConfigFacts], [SyncAllFacts]: the hosts after an update, the confinement of what is built to the
      tenant, the allocation of ports, the answers to requests and what they mean, and
      what a synchronization establishes.
    - [Safety], [System]: the workers do not crash when the peers answer in
      the documented form; the invariant of all reachable states of the operator; every
      request to the syncer can be answered.
    - [CommandClient]: replies reach the request they belong to, the reconnect count tells
      connections apart, and requests in flight are lost with the connection.
    - [Lifecycle], [Manager], [Conditions]: mutual exclusion, the shutdown and its
      deadlock, one client per infrastructure, live and stale condition pointers.
    - [FilterFacts]: [LIKE] matches what its pattern describes; integers of
      different types compare as numbers; sorting by a list of orders.
    - [FilterLexFacts], [FilterParseFacts]: the lexer moves forward and
      the parser terminates for every text, from checks of the tables.
    - [FilterGrammar]: what the parser accepts is derived by the grammar of [parser.y].
    - [FilterPrint], [FilterText]: every expression the grammar can express is parsed from
      its text, and what is parsed has a boolean value wherever its literals and paths are
      typed.
    - [CacheFacts]: a query of the cache returns the objects with a key prefix
      in order; the operations refine those of a map, all or nothing.
    - [KeyFacts], [QueryFacts]: the key built from a filter loses no object the filter
      matches, so that the queries answer as a scan of the whole cache would.
    - [WatcherFacts]: a watcher makes the resources of its kind in the cache those of its
      last list with the events applied, while the other watchers, the handlers of agents'
      events and the metrics use the same cache, in every interleaving of their calls. The
      one exception are addresses that an agent stores again after their watcher has removed
      or changed them; such a run is a lemma. What an agent tells of a connection is what is
      in the cache of it afterwards. The manager has one watcher for each kind unless a
      creator fails, and then loses the ones it has begun.
    - [ControllerFacts], [AddressFacts], [ProjectFacts], [EndpointFacts], [InfraCtlFacts]:
      for each controller a policy, which says of every call what must have been answered
      before it may be made, and that every reconciliation keeps to it and returns.
    - [Convergence]: reconciliations that are not disturbed make an address [Active] or
      remove its finalizer after a fixed number of rounds.
    - [CertFacts]: what the certificates and authorities that are stored are made of, when
      they are renewed, and which entries of a secret change. [EndpointFacts] also has the
      service of an endpoint.
    - [PodFacts]: the stateful sets settle, a pod is found by its name; the policies of the
      controllers of brokers and routers, the size of the pool, and the hosts; the one panic
      of the routers.
    - [Composition]: a program that keeps to its policy also does so when its calls are run
      as programs, and what was done above can be read off what was done below.
    - [PeerProps], [InfraProps], [OperatorProps], [FilterProps], [ConsoleProps],
      [ControllerProps], [PodProps]: the main properties, numbered C1 to C40 (C27 and C37 are in
      [WatcherFacts], C39 in [CommandClient], C40 in [Convergence]), with runs on the installation of [Sim], the
      console of [ConsoleSim] and the clusters of [ControllerSim] and [PodProps] that show
      their hypotheses can hold.
      C28 and C34 state behaviour the program does not mean to have, as do parts of C29
      and C35 and theorems of [OperatorProps], [CommandClient], [FilterProps],
      [ConsoleProps], [ControllerProps], [EndpointFacts], [PodFacts] and [WatcherFacts]
      without a number.

    ** What is not modelled

    The watches that start reconciliations; the controllers of the console, the IoT and other services, the IoT and
    utility packages, generated clients and the Java parts. Of the console: the HTTP and GraphQL
    server, the connections to the agents and what finds them, the values of metrics, the mutations, which are calls of
    the API server and of agents, and resolvers that only format fields. Of the code that
    is modelled: logging, contexts (no call cancels one), getters, test constructors, backoff
    durations, in the state packages TLS material beyond the identity of a configuration, and the interleaving
    of single requests of different goroutines of one group on one connection. *)
From stdpp Require Import base gmap strings pretty list fin_maps sorting.

(** ** Go errors and outcomes *)

(** The sentinel errors of [pkg/state/errors/errors.go] and of
    [pkg/amqpcommand], the errors of [encoding/json], the errors of
    [pkg/util/errors], the status errors of the API server with the reason
    [NotFound], errors that [errors.Wrap] has wrapped, and all others, such as
    the formatted errors of [fmt.Errorf]. *)
Inductive error :=
  | BrokerInUseError
  | ProjectNotFoundError
  | NotInitializedError
  | NotSyncedError
  | NoEndpointsError
  | NotDeletedError
  | RequestTimeoutError
  | JsonError (msg : string)
  | NotFoundError (kind name namespace : string)
  | NotBoundError (namespace : string)
  | StatusNotFound (msg : string)
  | Wrapped (e : error) (msg : string)
  | Errorf (msg : string).

#[global] Instance error_eq_dec : EqDecision error.
Proof. solve_decision. Defined.

(** [err.Error()]. *)
Fixpoint Error (e : error) : string :=
  match e with
  | BrokerInUseError => "broker in use"
  | ProjectNotFoundError => "project not found"
  | NotInitializedError => "not initialized"
  | NotSyncedError => "not synchronized"
  | NoEndpointsError => "no endpoints"
  | NotDeletedError => "error deleting"
  | RequestTimeoutError => "request timed out"
  | JsonError m => m
  | NotFoundError kind name namespace => kind +:+ " " +:+ name +:+ " in namespace " +:+ namespace +:+ " not found"
  | NotBoundError namespace => "MessagingProject in namespace " +:+ namespace +:+ " not bound to any infrastructure"
  | StatusNotFound m => m
  | Wrapped e m => m +:+ ": " +:+ Error e
  | Errorf m => m
  end.

(** The result of a Go call: a value, a returned error, or a run-time panic
    (nil dereference, failed type assertion, index out of range, write to a
    nil map), which no code of the modelled packages recovers from. *)
Inductive outcome (A : Type) :=
  | Ok (a : A)
  | Err (e : error)
  | Panic.
Arguments Ok {A} a.
Arguments Err {A} e.
Arguments Panic {A}.

#[global] Instance outcome_eq_dec {A} `{EqDecision A} : EqDecision (outcome A).
Proof. solve_decision. Defined.

#[global] Instance outcome_ret : MRet outcome := λ A a, Ok a.
#[global] Instance outcome_bind : MBind outcome := λ A B f m,
  match m with Ok a => f a | Err e => Err e | Panic => Panic end.

(** Code that reads and writes a state [S]: what it wrote before it failed
    stays written. *)
Definition prog (S A : Type) : Type := S → S * outcome A.
#[global] Instance prog_ret S : MRet (prog S) := λ A a s, (s, Ok a).
#[global] Instance prog_bind S : MBind (prog S) := λ A B f m s,
  match m s with
  | (s', Ok a) => f a s'
  | (s', Err e) => (s', Err e)
  | (s', Panic) => (s', Panic)
  end.

(** A value computed without touching the state. *)
Definition lift {S A} (o : outcome A) : prog S A := λ s, (s, o).

(** An assignment to the state. *)
Definition modify {S} (f : S → S) : prog S () := λ s, (f s, Ok ()).

(** ** Tactics *)

(** Case analysis on every [match] of the goal and of the hypotheses, closing
    the branches that contradict an equation. *)
Ltac go_cases :=
  repeat (case_match; simplify_eq/=; try done).

(** Unfold the monad operations and compute. *)
Ltac go_simpl :=
  unfold mret, mbind, outcome_ret, outcome_bind, prog_ret, prog_bind in *; simpl in *.

(** Read the equations that a successful run of a state-passing program gives. *)
Ltac go_inv := go_simpl; go_cases.

Create HintDb go.

(** ** Outcomes *)

Definition panics {A} (o : outcome A) : bool :=
  match o with Panic => true | _ => false end.

(** The error of a call, [nil] when it has none. *)
Definition err_of {A} (o : outcome A) : option error :=
  match o with Err e => Some e | _ => None end.

Lemma outcome_bind_Ok {A B} (m : outcome A) (f : A → outcome B) b :
  (m ≫= f) = Ok b ↔ ∃ a, m = Ok a ∧ f a = Ok b.
Proof. destruct m; go_simpl; naive_solver. Qed.

Lemma prog_bind_Ok {S A B} (m : prog S A) (f : A → prog S B) s s' b :
  (m ≫= f) s = (s', Ok b) ↔ ∃ a s1, m s = (s1, Ok a) ∧ f a s1 = (s', Ok b).
Proof. go_simpl. destruct (m s) as [s1 []]; naive_solver. Qed.

(** A run by its outcome. *)
Lemma run_outcome {S A} (m : prog S A) s o : (m s).2 = o → m s = ((m s).1, o).
Proof. intros <-. by destruct (m s). Qed.

(** Sequencing a call over a list, stopping at the first failure: a Go [for]
    loop whose body returns on error. *)
Fixpoint for_each {S A} (f : A → prog S ()) (l : list A) : prog S () :=
  match l with
  | [] => mret ()
  | a :: l' => f a ≫= λ _, for_each f l'
  end.

(** Mapping a fallible function over a list, stopping at the first failure. *)
Fixpoint map_outcome {A B} (f : A → outcome B) (l : list A) : outcome (list B) :=
  match l with
  | [] => Ok []
  | a :: l' => b ← f a; bs ← map_outcome f l'; mret (b :: bs)
  end.

Lemma map_outcome_Ok {A B} (f : A → outcome B) l bs :
  map_outcome f l = Ok bs ↔ Forall2 (λ a b, f a = Ok b) l bs.
Proof.
  revert bs. induction l as [|a l IH]; intros bs; simpl.
  - split; [by intros [= <-] | by inversion 1].
  - rewrite outcome_bind_Ok. setoid_rewrite outcome_bind_Ok. split.
    + intros (b & Hb & bs' & Hbs & [= <-]). constructor; [done | by apply IH].
    + inversion 1; simplify_eq. exists y. split; [done|]. eexists. split; [|done].
      by apply IH.
Qed.

Lemma map_outcome_elem {A B} (f : A → outcome B) l bs b :
  map_outcome f l = Ok bs → b ∈ bs → ∃ a, a ∈ l ∧ f a = Ok b.
Proof.
  intros H%map_outcome_Ok [i Hi]%list_elem_of_lookup.
  destruct (Forall2_lookup_r _ _ _ _ _ H Hi) as (a & Ha & Hf).
  exists a. split; [by eapply list_elem_of_lookup_2|done].
Qed.

(** An invariant of every step of a loop is an invariant of the loop. *)
Lemma for_each_inv {S A} (P : S → Prop) (f : A → prog S ()) l s :
  P s → (∀ a s, a ∈ l → P s → P (f a s).1) → P (for_each f l s).1.
Proof.
  revert s. induction l as [|a l IH]; intros s Hs Hf; [done|]. simpl. go_simpl.
  pose proof (Hf a s ltac:(set_solver) Hs) as H1.
  destruct (f a s) as [s1 []]; simpl in *; try done.
  apply IH; [done|]. intros. apply Hf; [set_solver|done].
Qed.

(** An invariant of two calls is an invariant of their sequence. *)
Lemma bind_inv {S A B} (P : S → Prop) (m : prog S A) (k : A → prog S B) s :
  P (m s).1 → (∀ a s, P s → P (k a s).1) → P ((m ≫= k) s).1.
Proof. go_simpl. destruct (m s) as [s1 []]; simpl; auto. Qed.

(** ** Strings *)

Lemma append_assoc (s t u : string) : (s +:+ t) +:+ u = s +:+ t +:+ u.
Proof. induction s as [|c s IH]; [done|]. exact (f_equal (String c) IH). Qed.
