(* ===== verification/Go.v ===== *)
(** The parts of the Go runtime and of its standard library the modelled
    packages use: map iteration order and goroutine scheduling as an oracle,
    [errgroup], AMQP values and messages, the [%v] and [%T] verbs of [fmt], and
    the attribute maps of [encoding/json]. *)
From stdpp Require Import base gmap strings pretty list fin_maps sorting.
From S2P Require Import Prelude.

(** ** Iteration order and scheduling *)

(** A point of the execution at which the run time chooses: an iteration over a
    map, the order in which goroutines of a group complete, a random number. *)
Definition tick := list nat.

(** The run time's choices. [perm] reorders the elements of a map iteration or
    the goroutines of a group; nothing is assumed of it but that it loses and
    invents nothing. [intn] is [rand.Intn]. *)
Class Sched := {
  perm : ∀ {A : Type}, tick → list A → list A;
  perm_ok : ∀ {A : Type} t (l : list A), perm t l ≡ₚ l;
  intn : tick → Z → Z;
  intn_ok : ∀ t n, (0 < n)%Z → (0 ≤ intn t n < n)%Z;
}.

Lemma perm_nil `{Sched} {A} t : perm t (@nil A) = [].
Proof. by apply Permutation_nil_r, perm_ok. Qed.

Lemma elem_of_perm `{Sched} {A} t (l : list A) x : x ∈ perm t l ↔ x ∈ l.
Proof. by rewrite perm_ok. Qed.

(** Two concrete run times: the one that keeps every order and the one that
    reverses it. *)
#[refine] Definition sched_id : Sched := {|
  perm A t l := l;
  intn t n := 0%Z;
|}.
Proof.
  - done.
  - intros; lia.
Defined.

#[refine] Definition sched_rev : Sched := {|
  perm A t l := reverse l;
  intn t n := (n - 1)%Z;
|}.
Proof.
  - intros. apply reverse_Permutation.
  - intros; lia.
Defined.

(** [for k, v := range m]. *)
Definition range `{Sched} `{Countable K} {V} (t : tick) (m : gmap K V) : list (K * V) :=
  perm t (map_to_list m).

(** [for k := range m]. *)
Definition range_keys `{Sched} `{Countable K} {V} (t : tick) (m : gmap K V) : list K :=
  (range t m).*1.

(** [for _, v := range m]. *)
Definition range_values `{Sched} `{Countable K} {V} (t : tick) (m : gmap K V) : list V :=
  (range t m).*2.

Section range.
Context `{Sched} `{Countable K} {V : Type}.
Implicit Types m : gmap K V.

Lemma elem_of_range t m k v : (k, v) ∈ range t m ↔ m !! k = Some v.
Proof. unfold range. rewrite perm_ok. apply elem_of_map_to_list. Qed.

Lemma elem_of_range_keys t m k : k ∈ range_keys t m ↔ is_Some (m !! k).
Proof.
  unfold range_keys. rewrite list_elem_of_fmap. split.
  - intros ([k' v] & -> & Hin%elem_of_range). by exists v.
  - intros [v Hv]. exists (k, v). by rewrite elem_of_range.
Qed.

Lemma elem_of_range_values t m v : v ∈ range_values t m ↔ ∃ k, m !! k = Some v.
Proof.
  unfold range_values. rewrite list_elem_of_fmap. split.
  - intros ([k v'] & -> & Hin%elem_of_range). by exists k.
  - intros [k Hk]. exists (k, v). by rewrite elem_of_range.
Qed.

Lemma NoDup_range_keys t m : NoDup (range_keys t m).
Proof. unfold range_keys, range. rewrite perm_ok. apply NoDup_fst_map_to_list. Qed.

Lemma range_nil t m : range t m = [] ↔ m = ∅.
Proof.
  unfold range. split.
  - intros E. apply map_to_list_empty_iff, Permutation_nil_r. by rewrite <-(perm_ok t), E.
  - intros ->. apply Permutation_nil_r. rewrite perm_ok, map_to_list_empty. done.
Qed.

Lemma length_range t m : length (range t m) = size m.
Proof. unfold range. rewrite perm_ok. apply length_map_to_list. Qed.
End range.

(** ** [errgroup] *)

(** [errgroup] keeps the first error. *)
Definition first_err (o : option error) (e : error) : option error :=
  match o with Some _ => o | None => Some e end.

(** The goroutines of a group, in the order in which they complete. Every
    goroutine runs to its end, the results sent on the [completed] channel are
    collected, and the group's error is the first one returned. A panic in a
    goroutine ends the process: [None]. *)
Fixpoint go_each {S A B} (f : A → prog S B) (l : list A)
    (acc : list B * option error) (s : S) : S * option (list B * option error) :=
  match l with
  | [] => (s, Some acc)
  | a :: l' =>
      match f a s with
      | (s', Ok b) => go_each f l' (acc.1 ++ [b], acc.2) s'
      | (s', Err e) =>
          go_each f l' (acc.1, first_err acc.2 e) s'
      | (s', Panic) => (s', None)
      end
  end.

(** [g.Go] for every element of [l], then [g.Wait]. *)
Definition group `{Sched} {S A B} (t : tick) (f : A → prog S B) (l : list A) (s : S)
    : S * option (list B * option error) :=
  go_each f (perm t l) ([], None) s.

(** Rule for a group: an assertion on the part of the goroutines that have
    completed, the values they sent, the recorded error and the state. *)
Lemma go_each_rule {S A B} (f : A → prog S B)
    (P : list A → list B → option error → S → Prop) l :
  ∀ pre acc s s' acc',
  P pre acc.1 acc.2 s →
  (∀ pre' a done e s1, a ∈ l → P pre' done e s1 →
    match f a s1 with
    | (s2, Ok b) => P (pre' ++ [a]) (done ++ [b]) e s2
    | (s2, Err e') =>
        P (pre' ++ [a]) done (first_err e e') s2
    | (s2, Panic) => True
    end) →
  go_each f l acc s = (s', Some acc') →
  P (pre ++ l) acc'.1 acc'.2 s'.
Proof.
  induction l as [|a l IH]; intros pre acc s s' acc' HP Hstep; simpl.
  { intros [= <- <-]. by rewrite app_nil_r. }
  pose proof (Hstep pre a acc.1 acc.2 s ltac:(set_solver) HP) as H1.
  destruct (f a s) as [s1 [b|e|]]; [| |done]; intros Hgo;
    (eapply (IH (pre ++ [a])) in Hgo;
      [by rewrite <-app_assoc in Hgo | done | intros; apply Hstep; set_solver]).
Qed.

(** A group whose goroutines never panic yields a result. *)
Lemma go_each_total {S A B} (f : A → prog S B) (I : S → Prop) l :
  ∀ acc s, I s →
  (∀ a s, a ∈ l → I s → I (f a s).1 ∧ (f a s).2 ≠ Panic) →
  ∃ s' acc', go_each f l acc s = (s', Some acc') ∧ I s'.
Proof.
  induction l as [|a l IH]; intros acc s Hs Hf; simpl; [eauto|].
  destruct (Hf a s ltac:(set_solver) Hs) as [HI Hp].
  destruct (f a s) as [s1 [b|e|]]; [| |done];
    apply IH; eauto; intros; apply Hf; set_solver.
Qed.

(** What every goroutine preserves, the group preserves. *)
Lemma go_each_inv {S A B} (f : A → prog S B) (P : S → Prop) l :
  ∀ acc s, P s → (∀ a s, a ∈ l → P s → P (f a s).1) → P (go_each f l acc s).1.
Proof.
  induction l as [|a l IH]; intros acc s Hs Hf; simpl; [done|].
  pose proof (Hf a s ltac:(set_solver) Hs) as H1.
  destruct (f a s) as [s1 [b|e|]]; [| |done]; apply IH; eauto; intros; apply Hf; set_solver.
Qed.

(** ** AMQP values and messages *)

(** The Go values an AMQP message of these protocols carries. [VOther] is a
    value of any other Go type, by its type name and its printed form. *)
Inductive Value :=
  | VNil
  | VBool (b : bool)
  | VString (s : string)
  | VInt32 (z : Z)
  | VInt64 (z : Z)
  | VInt (z : Z)
  | VList (l : list Value)
  | VMap (m : list (string * Value))
  | VOther (type repr : string).

(** [amqp.Message]; the correlation properties are the command client's own. *)
Record Message := {
  ApplicationProperties : gmap string Value;
  Value_ : Value;
}.

(** [%T]. *)
Definition fmt_T (v : Value) : string :=
  match v with
  | VNil => "<nil>"
  | VBool _ => "bool"
  | VString _ => "string"
  | VInt32 _ => "int32"
  | VInt64 _ => "int64"
  | VInt _ => "int"
  | VList _ => "[]interface {}"
  | VMap _ => "map[string]interface {}"
  | VOther t _ => t
  end.

(** [%d] of a Go integer. *)
Definition fmt_d (z : Z) : string := pretty z.

Definition fmt_bool (b : bool) : string := if b then "true" else "false".

Fixpoint join (sep : string) (l : list string) : string :=
  match l with
  | [] => ""
  | [x] => x
  | x :: l' => x +:+ sep +:+ join sep l'
  end.

(** [%+v]; the keys of a map are printed in order. *)
Fixpoint fmt_v (v : Value) : string :=
  match v with
  | VNil => "<nil>"
  | VBool b => fmt_bool b
  | VString s => s
  | VInt32 z | VInt64 z | VInt z => fmt_d z
  | VList l => "[" +:+ join " " (map fmt_v l) +:+ "]"
  | VMap m =>
      "map[" +:+ join " " (merge_sort (λ a b, String.leb a b)
                             (map (λ kv, kv.1 +:+ ":" +:+ fmt_v kv.2) m)) +:+ "]"
  | VOther _ r => r
  end.

(** Reading a key of a [map[string]interface{}]: [nil] when it is absent. *)
Definition get_key (m : gmap string Value) (k : string) : Value :=
  default VNil (m !! k).
