(* ===== verification/Client.v ===== *)
(** What the router and broker states share: the host of a pod
    ([pkg/state/common/types.go]) and the interface of the AMQP command client
    ([Client] of [pkg/amqpcommand/command_client.go]) they issue management
    requests through. *)
From stdpp Require Import base gmap strings countable list.
From S2P Require Import Prelude Go.

(** A Kubernetes host and the corresponding pod IP. *)
Record Host := {
  Hostname : string;
  Ip : string;
}.

#[global] Instance Host_eq_dec : EqDecision Host.
Proof. solve_decision. Defined.

#[global, refine] Instance Host_countable : Countable Host :=
  inj_countable' (λ h, (Hostname h, Ip h)) (λ p, {| Hostname := p.1; Ip := p.2 |}) _.
Proof. by intros []. Defined.

(** [ConnectorStatus] of [pkg/state/types.go]. *)
Record ConnectorStatus := {
  cs_Router : string;
  cs_Broker : string;
  cs_Connected : bool;
  cs_Message : string;
}.

(** The part of a [tls.Config] that tells two clients apart. The key material is
    the operator's, by its identity. *)
Record TlsConfig := {
  ServerName : string;
  Material : string;
}.

#[global] Instance TlsConfig_eq_dec : EqDecision TlsConfig.
Proof. solve_decision. Defined.

(** The [Client] interface. [W] is the state of a client and of the peer it
    talks to; a request may change it and may fail, a request on a stopped
    client panics in the implementation. [NewCommandClient] is the constructor
    of the implementation. *)
Class Client (W : Type) := {
  NewCommandClient : string → string → string → option TlsConfig → W;
  Start : W → W;
  Stop : W → W;
  ReconnectCount : W → Z;
  RequestWithTimeout : Message → prog W Message;
}.

(** A client that also records the requests it is given. *)
Section LogClient.
Context {W : Type} `{HC : !Client W}.

Definition log_request (m : Message) : prog (W * list Message) Message := λ wl,
  let '(w', o) := RequestWithTimeout m wl.1 in ((w', wl.2 ++ [m]), o).

Definition LogClient : Client (W * list Message) := {|
  NewCommandClient addr cmd resp tls := (NewCommandClient addr cmd resp tls, []);
  Start wl := (Start wl.1, wl.2);
  Stop wl := (Stop wl.1, wl.2);
  ReconnectCount wl := ReconnectCount wl.1;
  RequestWithTimeout := log_request;
|}.
End LogClient.

(** The end of a call that keeps an error variable: [return err]. *)
Definition return_err (e : option error) : outcome () :=
  match e with None => Ok () | Some e => Err e end.

(** [isConnectionError] of the router and broker packages. *)
Definition isConnectionError (e : option error) : bool :=
  match e with Some _ => true | None => false end.

(** [strings.Contains(s, sub)]. *)
Fixpoint Contains (s sub : string) : bool :=
  String.prefix sub s ||
  match s with EmptyString => false | String _ s' => Contains s' sub end.
