(* ===== verification/CommandClient.v ===== *)
(** The AMQP request-response client behind the [Client] interface
    ([pkg/amqpcommand/command_client.go]): the callers of [RequestWithTimeout], the
    channel they hand their requests to, and the goroutine that connects, sends and
    correlates the replies. One event is one step of one of them; between two events
    the peer may do anything. *)
From stdpp Require Import base fin_maps gmap strings relations list.
From S2P Require Import Prelude Go.

Definition maxConcurrentRequests : nat := 10.

(** A message as the receiver hands it over: its properties, of which the correlation id
    when it is a string, or [nil], and the body. *)
Record MessageProperties := {
  mp_CorrelationID : option string;
}.
Record Reply := {
  Properties : option MessageProperties;
  body : Message;
}.
Definition CorrelationID (m : Reply) : option string := Properties m ≫= mp_CorrelationID.

Record commandResponse := {
  responseMessage : option Reply;
  response_err : option error;
}.

(** What a caller of [RequestWithTimeout] gets. *)
Inductive result :=
  | Returned (r : commandResponse)
  | TimedOut.                (* [RequestTimeoutError] *)

(** Where the goroutine is: at the head of the loop of [Start], in [doProcess] before
    the receiver exists, in [drainRequests], in the loop of [doProcess] with its map
    of requests, or gone. When it panics, the process is gone. *)
Inductive phase :=
  | AtLoop
  | Connecting
  | Draining
  | Serving (requests : gmap string nat)
  | Stopped
  | Panicked.

(** A request is known by its number. [buffer] holds what has been sent on a response
    channel, of capacity one, and not yet received; [callers] are the callers that
    wait for a response or for their timeout. [issued] and [assigned] record the
    requests made and the message ids given to them; [attempts] counts the calls of
    [doProcess]. *)
Record CommandClient := {
  request_chan : list nat;
  request_closed : bool;
  stop_closed : bool;
  lastError : option error;
  reconnectCount : Z;
  err : option error;
  pc : phase;
  buffer : gmap nat commandResponse;
  callers : gset nat;
  results : list (nat * result);
  issued : gset nat;
  assigned : gmap string nat;
  attempts : Z;
}.

(** [Start]. *)
Definition start : CommandClient := {|
  request_chan := []; request_closed := false; stop_closed := false;
  lastError := None; reconnectCount := 0; err := None; pc := AtLoop;
  buffer := ∅; callers := ∅; results := []; issued := ∅; assigned := ∅; attempts := 0 |}.

(** ** The callers *)

(** [c.request <- request] of [RequestWithTimeout]: it panics on a closed channel and
    blocks ([None]) on a full one. The timeout runs only afterwards. *)
Definition send_request (r : nat) (c : CommandClient) : option (outcome CommandClient) :=
  if request_closed c then Some Panic
  else if maxConcurrentRequests <=? length (request_chan c) then None
  else Some (Ok {|
    request_chan := request_chan c ++ [r]; request_closed := request_closed c;
    stop_closed := stop_closed c; lastError := lastError c; reconnectCount := reconnectCount c;
    err := err c; pc := pc c; buffer := buffer c; callers := {[ r ]} ∪ callers c;
    results := results c; issued := {[ r ]} ∪ issued c; assigned := assigned c;
    attempts := attempts c |}).

(** A caller leaves the [select] of [RequestWithTimeout]. *)
Definition return_result (r : nat) (res : result) (c : CommandClient) : CommandClient := {|
  request_chan := request_chan c; request_closed := request_closed c;
  stop_closed := stop_closed c; lastError := lastError c; reconnectCount := reconnectCount c;
  err := err c; pc := pc c;
  buffer := match res with Returned _ => delete r (buffer c) | _ => buffer c end;
  callers := callers c ∖ {[ r ]}; results := results c ++ [(r, res)];
  issued := issued c; assigned := assigned c; attempts := attempts c |}.

(** ** The goroutine *)

Definition set_pc (p : phase) (c : CommandClient) : CommandClient := {|
  request_chan := request_chan c; request_closed := request_closed c;
  stop_closed := stop_closed c; lastError := lastError c; reconnectCount := reconnectCount c;
  err := err c; pc := p; buffer := buffer c; callers := callers c;
  results := results c; issued := issued c; assigned := assigned c; attempts := attempts c |}.

(** [doProcess] returns. *)
Definition leave (e : option error) (c : CommandClient) : CommandClient := {|
  request_chan := request_chan c; request_closed := request_closed c;
  stop_closed := stop_closed c; lastError := lastError c; reconnectCount := reconnectCount c;
  err := e; pc := AtLoop; buffer := buffer c; callers := callers c;
  results := results c; issued := issued c; assigned := assigned c; attempts := attempts c |}.

(** One turn of the loop of [Start], up to the call of [doProcess]. *)
Definition loop (c : CommandClient) : CommandClient :=
  if stop_closed c then set_pc Stopped c
  else {|
    request_chan := request_chan c; request_closed := request_closed c;
    stop_closed := stop_closed c;
    lastError := match err c with Some e => Some e | None => lastError c end;
    reconnectCount := match err c with
                      | Some _ => (reconnectCount c + 1)%Z
                      | None => reconnectCount c
                      end;
    err := err c; pc := Connecting; buffer := buffer c; callers := callers c;
    results := results c; issued := issued c; assigned := assigned c;
    attempts := (attempts c + 1)%Z |}.

(** The links are there: pending requests are drained after an error. *)
Definition connected (c : CommandClient) : CommandClient :=
  match lastError c with
  | Some _ => set_pc Draining c
  | None => set_pc (Serving ∅) c
  end.

(** The request at the head of the channel, and the channel without it. *)
Definition set_request_chan (q : list nat) (c : CommandClient) : CommandClient := {|
  request_chan := q; request_closed := request_closed c;
  stop_closed := stop_closed c; lastError := lastError c; reconnectCount := reconnectCount c;
  err := err c; pc := pc c; buffer := buffer c; callers := callers c;
  results := results c; issued := issued c; assigned := assigned c; attempts := attempts c |}.

Definition set_lastError (e : option error) (c : CommandClient) : CommandClient := {|
  request_chan := request_chan c; request_closed := request_closed c;
  stop_closed := stop_closed c; lastError := e; reconnectCount := reconnectCount c;
  err := err c; pc := pc c; buffer := buffer c; callers := callers c;
  results := results c; issued := issued c; assigned := assigned c; attempts := attempts c |}.

(** [req.response <- response]: it blocks while the channel holds a response. *)
Definition respond (r : nat) (resp : commandResponse) (c : CommandClient) : option CommandClient :=
  match buffer c !! r with
  | Some _ => None
  | None => Some {|
      request_chan := request_chan c; request_closed := request_closed c;
      stop_closed := stop_closed c; lastError := lastError c; reconnectCount := reconnectCount c;
      err := err c; pc := pc c; buffer := <[r := resp]> (buffer c); callers := callers c;
      results := results c; issued := issued c; assigned := assigned c; attempts := attempts c |}
  end.

(** One turn of [drainRequests]. *)
Definition drain (c : CommandClient) : option CommandClient :=
  match request_chan c with
  | r :: q =>
      respond r {| responseMessage := None; response_err := lastError c |} (set_request_chan q c)
  | [] =>
      if request_closed c then Some (leave None c)
      else Some (set_pc (Serving ∅) (set_lastError None c))
  end.

Definition assign (msgId : string) (r : nat) (c : CommandClient) : CommandClient := {|
  request_chan := request_chan c; request_closed := request_closed c;
  stop_closed := stop_closed c; lastError := lastError c; reconnectCount := reconnectCount c;
  err := err c; pc := pc c; buffer := buffer c; callers := callers c;
  results := results c; issued := issued c; assigned := <[msgId := r]> (assigned c);
  attempts := attempts c |}.

(** A request is taken and sent, under a new message id; [sent] is the error of
    [sender.Send]. The request stays in the map when it could not be sent. *)
Definition take_request (msgId : string) (sent : option error) (requests : gmap string nat)
    (c : CommandClient) : option CommandClient :=
  match request_chan c with
  | [] => if request_closed c then Some (leave None c) else None
  | r :: q =>
      let c := assign msgId r (set_pc (Serving (<[msgId := r]> requests)) (set_request_chan q c)) in
      match sent with
      | Some e => respond r {| responseMessage := None; response_err := Some e |} c
      | None => Some c
      end
  end.

(** A message is received and accepted: the reply to a request, or ignored; without
    properties it is the end. *)
Definition receive (m : Reply) (requests : gmap string nat) (c : CommandClient)
    : option CommandClient :=
  match Properties m with
  | None => Some (set_pc Panicked c)
  | Some _ =>
      match CorrelationID m ≫= λ key, (λ r, (key, r)) <$> requests !! key with
      | Some (key, r) =>
          respond r {| responseMessage := Some m; response_err := None |}
            (set_pc (Serving (delete key requests)) c)
      | None => Some c
      end
  end.

(** ** Stopping *)

(** The two [close] calls of [Stop]; a second one panics and is not a step. *)
Definition close_request (c : CommandClient) : CommandClient := {|
  request_chan := request_chan c; request_closed := true;
  stop_closed := stop_closed c; lastError := lastError c; reconnectCount := reconnectCount c;
  err := err c; pc := pc c; buffer := buffer c; callers := callers c;
  results := results c; issued := issued c; assigned := assigned c; attempts := attempts c |}.

Definition close_stop (c : CommandClient) : CommandClient := {|
  request_chan := request_chan c; request_closed := request_closed c;
  stop_closed := true; lastError := lastError c; reconnectCount := reconnectCount c;
  err := err c; pc := pc c; buffer := buffer c; callers := callers c;
  results := results c; issued := issued c; assigned := assigned c; attempts := attempts c |}.

(** ** Runs *)

Inductive event :=
  | EvSend (r : nat)                        (* a caller hands over a new request *)
  | EvTimeout (r : nat)                     (* its timeout fires *)
  | EvResult (r : nat)                      (* it receives the response *)
  | EvLoop                                  (* the goroutine calls [doProcess] *)
  | EvConnectFailed (e : error)             (* no connection, session or link *)
  | EvConnected                             (* the links are there *)
  | EvDrain                                 (* one turn of [drainRequests] *)
  | EvTake (msgId : string) (sent : option error)
  | EvReceive (m : Reply)
  | EvReceiveFailed (e : error)             (* [Receive] or [Accept] fails *)
  | EvCloseRequest
  | EvCloseStop.

Definition panicked (c : CommandClient) : bool := match pc c with Panicked => true | _ => false end.

(** One event, where it is possible. Message ids are new: [uuid.New] does not repeat. *)
Definition step (c : CommandClient) (ev : event) : option CommandClient :=
  if panicked c then None else
  match ev, pc c with
  | EvSend r, _ =>
      if bool_decide (r ∈ issued c) then None
      else match send_request r c with Some (Ok c') => Some c' | _ => None end
  | EvTimeout r, _ =>
      if bool_decide (r ∈ callers c) then Some (return_result r TimedOut c) else None
  | EvResult r, _ =>
      if bool_decide (r ∈ callers c)
      then (λ resp, return_result r (Returned resp) c) <$> buffer c !! r else None
  | EvLoop, AtLoop => Some (loop c)
  | EvConnectFailed e, Connecting => Some (leave (Some e) c)
  | EvConnected, Connecting => Some (connected c)
  | EvDrain, Draining => drain c
  | EvTake msgId sent, Serving requests =>
      if bool_decide (assigned c !! msgId = None) then take_request msgId sent requests c else None
  | EvReceive m, Serving requests => receive m requests c
  | EvReceiveFailed e, Serving _ => Some (leave (Some e) c)
  | EvCloseRequest, _ => if request_closed c then None else Some (close_request c)
  | EvCloseStop, _ =>
      if request_closed c && negb (stop_closed c) then Some (close_stop c) else None
  | _, _ => None
  end.

Fixpoint run (evs : list event) (c : CommandClient) : option CommandClient :=
  match evs with
  | [] => Some c
  | ev :: evs' => step c ev ≫= run evs'
  end.

(** ** The invariant *)

(** The requests a message id stands for. *)
Definition inflight (c : CommandClient) : list nat := (map_to_list (assigned c)).*2.

(** The response answers request [r]: it carries the id [r] was sent under. *)
Definition answers (c : CommandClient) (r : nat) (resp : commandResponse) : Prop :=
  ∀ m, responseMessage resp = Some m →
  ∃ id, CorrelationID m = Some id ∧ assigned c !! id = Some r.

(** The number of connection attempts the reconnect count stands for. *)
Definition expected_attempts (c : CommandClient) : Z :=
  (reconnectCount c + match pc c, err c with AtLoop, None => 0 | _, _ => 1 end)%Z.

Record client_ok (c : CommandClient) : Prop := {
  ck_bound : length (request_chan c) ≤ maxConcurrentRequests;
  ck_once : NoDup (request_chan c ++ inflight c);
  ck_issued : ∀ r, r ∈ request_chan c ++ inflight c → r ∈ issued c;
  ck_serving : ∀ reqs, pc c = Serving reqs → reqs ⊆ assigned c;
  ck_buffer : ∀ r resp, buffer c !! r = Some resp → answers c r resp;
  ck_results : ∀ r resp, (r, Returned resp) ∈ results c → answers c r resp;
  ck_stop : stop_closed c = true → request_closed c = true;
  ck_stopped : pc c = Stopped → request_closed c = true;
  ck_attempts : request_closed c = false → attempts c = expected_attempts c;
}.

Lemma start_ok : client_ok start.
Proof.
  split; try done; unfold inflight; simpl; rewrite ?map_to_list_empty; simpl.
  - unfold maxConcurrentRequests. lia.
  - constructor.
  - by intros r ?%not_elem_of_nil.
  - by intros r resp ?%not_elem_of_nil.
Qed.

(** Nothing but the goroutine's place, its errors and counters has changed. *)
Lemma frame_ok c c' :
  request_chan c' = request_chan c → assigned c' = assigned c → issued c' = issued c →
  buffer c' = buffer c → results c' = results c → request_closed c' = request_closed c →
  stop_closed c' = stop_closed c →
  (∀ reqs, pc c' = Serving reqs → reqs ⊆ assigned c) →
  (pc c' = Stopped → request_closed c = true) →
  (request_closed c = false → attempts c' = expected_attempts c') →
  client_ok c → client_ok c'.
Proof.
  intros E1 E2 E3 E4 E5 E6 E7 Hs Hst Ha [H1 H2 H3 H4 H5 H6 H7 H8 H9].
  assert (inflight c' = inflight c) as E8 by (unfold inflight; by rewrite E2).
  split; unfold answers in *; rewrite ?E1, ?E2, ?E3, ?E4, ?E5, ?E6, ?E7, ?E8; done.
Qed.

Lemma respond_ok r resp c c' :
  respond r resp c = Some c' → answers c r resp → client_ok c → client_ok c'.
Proof.
  unfold respond. destruct (buffer c !! r) eqn:Eb; [done|]. intros [= <-] Hr [H1 H2 H3 H4 H5 H6 H7 H8 H9].
  split; try done. intros r' resp' Hb. simpl in Hb.
  destruct (decide (r' = r)) as [->|Hne].
  - rewrite lookup_insert_eq in Hb. by injection Hb as <-.
  - rewrite lookup_insert_ne in Hb by done. by apply H5.
Qed.

Lemma send_request_ok r c c' :
  r ∉ issued c → send_request r c = Some (Ok c') → client_ok c → client_ok c'.
Proof.
  unfold send_request. intros Hr. destruct (request_closed c) eqn:Ec; [done|].
  destruct (maxConcurrentRequests <=? length (request_chan c)) eqn:El; [done|].
  intros [= <-] [H1 H2 H3 H4 H5 H6 H7 H8 H9]. apply Nat.leb_gt in El.
  assert ((request_chan c ++ [r]) ++ inflight c ≡ₚ r :: request_chan c ++ inflight c) as Hp
    by (rewrite <-app_assoc; symmetry; apply Permutation_middle).
  split; try done; simpl; unfold inflight in *; simpl.
  - rewrite length_app. simpl. lia.
  - rewrite Hp. constructor; [|done]. intros Hin. by apply Hr, H3.
  - intros x. rewrite Hp, elem_of_cons, elem_of_union, elem_of_singleton.
    intros [->|?]; [by left|right; auto].
  - intros Hs%H7. congruence.
  - intros Hs%H8. congruence.
  - intros _. by apply H9.
Qed.

Lemma set_request_chan_ok r q c :
  request_chan c = r :: q → client_ok c → client_ok (set_request_chan q c).
Proof.
  intros E [H1 H2 H3 H4 H5 H6 H7 H8 H9]. rewrite E in *. split; try done.
  - simpl in *. lia.
  - by inversion H2.
  - intros x Hx. apply H3. by right.
Qed.

(** Taking a request off the channel gives it its message id. *)
Lemma assign_ok r q id reqs c :
  request_chan c = r :: q → assigned c !! id = None → pc c = Serving reqs → client_ok c →
  client_ok (assign id r (set_pc (Serving (<[id := r]> reqs)) (set_request_chan q c))).
Proof.
  intros E Hid Hpc [H1 H2 H3 H4 H5 H6 H7 H8 H9].
  assert ((map_to_list (<[id := r]> (assigned c))).*2 ≡ₚ r :: inflight c) as Hp
    by (unfold inflight; by rewrite map_to_list_insert).
  assert (q ++ (map_to_list (<[id := r]> (assigned c))).*2 ≡ₚ request_chan c ++ inflight c) as Hall.
  { rewrite Hp, E. simpl. symmetry. apply Permutation_middle. }
  assert (∀ x resp, answers c x resp →
    answers (assign id r (set_pc (Serving (<[id := r]> reqs)) (set_request_chan q c))) x resp) as Hm.
  { intros x resp Hx m Hmm. destruct (Hx m Hmm) as (id' & ? & Ha). exists id'. split; [done|].
    simpl. rewrite lookup_insert_ne; [done|]. congruence. }
  split; try done; unfold inflight; simpl.
  - rewrite E in H1. simpl in H1. lia.
  - by rewrite Hall.
  - intros x. rewrite Hall. apply H3.
  - intros reqs' [= <-]. apply insert_mono. by apply H4.
  - intros x resp Hx. by apply Hm, H5.
  - intros x resp Hx. by apply Hm, H6.
  - intros Hc. rewrite (H9 Hc). unfold expected_attempts. simpl. by rewrite Hpc.
Qed.

Lemma return_result_ok r res c :
  (∀ resp, res = Returned resp → answers c r resp) → client_ok c → client_ok (return_result r res c).
Proof.
  intros Hres [H1 H2 H3 H4 H5 H6 H7 H8 H9]. split; try done; simpl.
  - intros x resp Hx. apply H5. destruct res; [|done]. by apply lookup_delete_Some in Hx as [_ Hx].
  - intros x resp. rewrite elem_of_app, list_elem_of_singleton.
    intros [Hx|[= -> <-]]; [by apply H6|by apply Hres].
Qed.

Lemma leave_ok e reqs c :
  pc c = Serving reqs ∨ pc c = Connecting ∨ pc c = Draining →
  (e = None → request_closed c = true) → client_ok c → client_ok (leave e c).
Proof.
  intros Hpc He Hc. eapply (frame_ok c); try done. intros Hcl.
  change (attempts (leave e c)) with (attempts c).
  rewrite (ck_attempts _ Hc Hcl). unfold expected_attempts. simpl.
  destruct e as [e|]; [|by rewrite He in Hcl]. by destruct Hpc as [->|[->| ->]].
Qed.

Lemma loop_ok c : pc c = AtLoop → client_ok c → client_ok (loop c).
Proof.
  intros Hpc Hc. unfold loop. destruct (stop_closed c) eqn:Es.
  - pose proof (ck_stop _ Hc Es) as Hr. eapply (frame_ok c); try done. by rewrite Hr.
  - eapply (frame_ok c); try done. intros Hcl. simpl. rewrite (ck_attempts _ Hc Hcl).
    unfold expected_attempts. simpl. rewrite Hpc. destruct (err c); lia.
Qed.

(** Moving on inside [doProcess]. *)
Lemma set_pc_ok p c :
  pc c ≠ AtLoop → p ≠ AtLoop → p ≠ Stopped → (∀ reqs, p = Serving reqs → reqs ⊆ assigned c) →
  client_ok c → client_ok (set_pc p c).
Proof.
  intros Hpc Hp Hst Hs Hc. eapply (frame_ok c); try done. intros Hcl.
  change (attempts (set_pc p c)) with (attempts c). rewrite (ck_attempts _ Hc Hcl).
  unfold expected_attempts. simpl. by destruct (pc c), p.
Qed.

Lemma drain_ok c c' : pc c = Draining → drain c = Some c' → client_ok c → client_ok c'.
Proof.
  unfold drain. intros Hpc. destruct (request_chan c) as [|r q] eqn:E.
  - destruct (request_closed c) eqn:Ec; intros [= <-] Hc.
    + by eapply (leave_ok None ∅); [right; right|..].
    + apply (set_pc_ok (Serving ∅) (set_lastError None c)); try done.
      * simpl. by rewrite Hpc.
      * intros reqs [= <-]. apply map_empty_subseteq.
      * destruct Hc. by split.
  - intros Hr Hc. eapply respond_ok; [exact Hr|done|]. by eapply set_request_chan_ok.
Qed.

Lemma take_request_ok id sent reqs c c' :
  pc c = Serving reqs → assigned c !! id = None → take_request id sent reqs c = Some c' →
  client_ok c → client_ok c'.
Proof.
  unfold take_request. intros Hpc Hid. destruct (request_chan c) as [|r q] eqn:E.
  - destruct (request_closed c) eqn:Ec; [|done]. intros [= <-] Hc.
    by eapply (leave_ok None reqs); [left|..].
  - intros Hr Hc. pose proof (assign_ok r q id reqs c E Hid Hpc Hc) as H1.
    destruct sent as [e|]; [|by injection Hr as <-]. by eapply respond_ok; [exact Hr|..].
Qed.

Lemma receive_ok m reqs c c' :
  pc c = Serving reqs → receive m reqs c = Some c' → client_ok c → client_ok c'.
Proof.
  unfold receive. intros Hpc. destruct (Properties m).
  2: { intros [= <-] Hc. apply set_pc_ok; try done. by rewrite Hpc. }
  destruct (CorrelationID m) as [key|] eqn:Ek; simpl; [|by intros [= <-]].
  destruct (reqs !! key) as [r|] eqn:Er; simpl; [|by intros [= <-]]. intros Hr Hc.
  pose proof (ck_serving _ Hc _ Hpc) as Hsub.
  eapply respond_ok; [exact Hr| |].
  - intros m' [= <-]. exists key. split; [done|]. by eapply lookup_weaken.
  - apply set_pc_ok; try done; [by rewrite Hpc|]. intros reqs' [= <-].
    etrans; [apply delete_subseteq|done].
Qed.

Lemma step_ok c ev c' : step c ev = Some c' → client_ok c → client_ok c'.
Proof.
  unfold step. intros Hs Hc. destruct (panicked c); [done|].
  destruct ev as [r|r|r| |e| | |id sent|m|e| |];
    try (destruct (pc c) as [| | |reqs| |] eqn:Hpc; try done; []).
  - case_bool_decide; [done|]. destruct (send_request r c) as [[c1| |]|] eqn:E; [|done..].
    injection Hs as <-. by eapply send_request_ok.
  - case_bool_decide; [|done]. injection Hs as <-. by apply return_result_ok.
  - case_bool_decide; [|done]. destruct (buffer c !! r) as [resp|] eqn:Eb; [|done].
    injection Hs as <-. apply return_result_ok; [|done]. intros resp' [= <-]. by apply (ck_buffer _ Hc).
  - injection Hs as <-. by apply loop_ok.
  - injection Hs as <-. by eapply (leave_ok _ ∅); [right; left|..].
  - injection Hs as <-. unfold connected. destruct (lastError c);
      apply set_pc_ok; try done; try (by rewrite Hpc).
    intros reqs [= <-]. apply map_empty_subseteq.
  - by eapply drain_ok.
  - case_bool_decide; [|done]. by eapply take_request_ok.
  - by eapply receive_ok.
  - injection Hs as <-. by eapply (leave_ok _ reqs); [left|..].
  - destruct (request_closed c) eqn:Ec; [done|]. injection Hs as <-.
    destruct Hc as [H1 H2 H3 H4 H5 H6 H7 H8 H9]. by split.
  - destruct (request_closed c) eqn:Ec; [|done]. destruct (stop_closed c); [done|].
    injection Hs as <-. destruct Hc as [H1 H2 H3 H4 H5 H6 H7 H8 H9].
    by split; try done; simpl; rewrite Ec.
Qed.

Lemma run_ok evs c c' : run evs c = Some c' → client_ok c → client_ok c'.
Proof.
  revert c. induction evs as [|ev evs IH]; intros c; simpl; [by intros [= <-]|].
  destruct (step c ev) as [c1|] eqn:E; [|done]. simpl. intros Hr Hc.
  eapply IH; [exact Hr|]. by eapply step_ok.
Qed.

(** ** Requests in flight when the connection is lost *)

(** Request [r] is nowhere where it could still be answered. *)
Record lost (r : nat) (c : CommandClient) : Prop := {
  lo_issued : r ∈ issued c;
  lo_chan : r ∉ request_chan c;
  lo_requests : ∀ reqs id, pc c = Serving reqs → reqs !! id ≠ Some r;
  lo_buffer : buffer c !! r = None;
  lo_results : ∀ resp, (r, Returned resp) ∉ results c;
}.

Lemma respond_lost r x resp c c' : respond x resp c = Some c' → x ≠ r → lost r c → lost r c'.
Proof.
  unfold respond. destruct (buffer c !! x); [done|]. intros [= <-] Hne [H1 H2 H3 H4 H5].
  split; try done. simpl. by rewrite lookup_insert_ne.
Qed.

Lemma set_request_chan_lost r x q c :
  request_chan c = x :: q → lost r c → x ≠ r ∧ lost r (set_request_chan q c).
Proof.
  intros E [H1 H2 H3 H4 H5]. rewrite E, not_elem_of_cons in H2. destruct H2. split; [congruence|].
  by split.
Qed.

Lemma set_pc_lost r p c :
  (∀ reqs id, p = Serving reqs → reqs !! id ≠ Some r) → lost r c → lost r (set_pc p c).
Proof. intros Hp [H1 H2 H3 H4 H5]. by split. Qed.

Lemma leave_lost r e c : lost r c → lost r (leave e c).
Proof. intros [H1 H2 H3 H4 H5]. by split. Qed.

Lemma return_lost r x res c :
  (∀ resp, res = Returned resp → x ≠ r) → lost r c → lost r (return_result x res c).
Proof.
  intros Hx [H1 H2 H3 H4 H5]. split; try done; simpl.
  - destruct res; [|done]. rewrite lookup_delete. by case_decide.
  - intros resp. rewrite elem_of_app, list_elem_of_singleton. intros [?|[= -> <-]]; [by eapply H5|].
    by eapply Hx.
Qed.

Lemma take_lost r id sent reqs c c' :
  pc c = Serving reqs → take_request id sent reqs c = Some c' → lost r c → lost r c'.
Proof.
  unfold take_request. intros Hpc. destruct (request_chan c) as [|x q] eqn:E.
  - destruct (request_closed c); [|done]. intros [= <-]. apply leave_lost.
  - intros Hr Hl. destruct (set_request_chan_lost r x q c E Hl) as [Hne Hl1].
    assert (lost r (assign id x (set_pc (Serving (<[id := x]> reqs)) (set_request_chan q c)))) as Hl2.
    { destruct Hl1 as [H1 H2 H3 H4 H5]. split; try done. intros reqs' id' [= <-].
      rewrite lookup_insert. case_decide; [congruence|]. by apply (lo_requests _ _ Hl reqs id'). }
    destruct sent as [e|]; [by eapply respond_lost|by injection Hr as <-].
Qed.

Lemma receive_lost r m reqs c c' :
  pc c = Serving reqs → receive m reqs c = Some c' → lost r c → lost r c'.
Proof.
  unfold receive. intros Hpc. destruct (Properties m); [|intros [= <-] Hl; by apply set_pc_lost].
  destruct (CorrelationID m) as [key|]; simpl; [|by intros [= <-]].
  destruct (reqs !! key) as [x|] eqn:Er; simpl; [|by intros [= <-]]. intros Hr Hl.
  pose proof (lo_requests _ _ Hl reqs) as Hreq. eapply respond_lost; [exact Hr| |].
  - intros ->. by apply (Hreq key).
  - apply set_pc_lost; [|done]. intros reqs' id [= <-]. rewrite lookup_delete.
    case_decide; [done|]. by apply Hreq.
Qed.

Lemma step_lost r c ev c' : step c ev = Some c' → lost r c → lost r c'.
Proof.
  unfold step. intros Hs Hl. destruct (panicked c); [done|]. pose proof Hl as [H1 H2 H3 H4 H5].
  destruct ev as [x|x|x| |e| | |id sent|m|e| |];
    try (destruct (pc c) as [| | |reqs| |] eqn:Hpc; try done; []).
  - case_bool_decide as Hx; [done|]. unfold send_request in Hs.
    destruct (request_closed c); [done|]. destruct (_ <=? _); [done|]. injection Hs as <-.
    split; try done; simpl; [set_solver|]. rewrite elem_of_app, list_elem_of_singleton.
    intros [?| ->]; done.
  - case_bool_decide; [|done]. injection Hs as <-. by apply return_lost.
  - case_bool_decide; [|done]. destruct (buffer c !! x) as [resp|] eqn:Eb; [|done].
    injection Hs as <-. apply return_lost; [|done]. intros _ _ ->. congruence.
  - injection Hs as <-. unfold loop. by destruct (stop_closed c); split.
  - injection Hs as <-. by apply leave_lost.
  - injection Hs as <-. unfold connected. destruct (lastError c); apply set_pc_lost; try done.
    intros reqs id [= <-]. by rewrite lookup_empty.
  - unfold drain in Hs. destruct (request_chan c) as [|x q] eqn:E.
    + destruct (request_closed c); injection Hs as <-; [by apply leave_lost|].
      apply set_pc_lost; [|split; simpl; by rewrite ?Hpc, ?E]. intros reqs id [= <-]. by rewrite lookup_empty.
    + destruct (set_request_chan_lost r x q c E Hl) as [Hne Hl1]. by eapply respond_lost.
  - case_bool_decide; [|done]. by eapply take_lost.
  - by eapply receive_lost.
  - injection Hs as <-. by apply leave_lost.
  - destruct (request_closed c); [done|]. injection Hs as <-. by split.
  - destruct (request_closed c && negb (stop_closed c)); [|done]. injection Hs as <-. by split.
Qed.

Lemma run_lost r evs c c' : run evs c = Some c' → lost r c → lost r c'.
Proof.
  revert c. induction evs as [|ev evs IH]; intros c; simpl; [by intros [= <-]|].
  destruct (step c ev) as [c1|] eqn:E; [|done]. simpl. intros Hr Hl.
  eapply IH; [exact Hr|]. by eapply step_lost.
Qed.

(** The message ids in use stand for different requests. *)
Lemma inflight_not_queued c id r : client_ok c → assigned c !! id = Some r → r ∉ request_chan c.
Proof.
  intros Hc Ha Hin. pose proof (ck_once _ Hc) as Hnd. apply NoDup_app in Hnd as (_ & Hd & _).
  apply (Hd r Hin). unfold inflight. apply list_elem_of_fmap. exists (id, r). split; [done|].
  by apply elem_of_map_to_list.
Qed.

Lemma failed_lost c reqs id r e c' :
  client_ok c → pc c = Serving reqs → reqs !! id = Some r → buffer c !! r = None →
  (∀ resp, (r, Returned resp) ∉ results c) → step c (EvReceiveFailed e) = Some c' → lost r c'.
Proof.
  intros Hc Hpc Hr Hb Hres. unfold step, panicked. rewrite Hpc. intros [= <-].
  pose proof (lookup_weaken _ _ _ _ Hr (ck_serving _ Hc _ Hpc)) as Ha.
  split; try done; simpl.
  - apply (ck_issued _ Hc), elem_of_app. right. unfold inflight. apply list_elem_of_fmap.
    exists (id, r). split; [done|]. by apply elem_of_map_to_list.
  - by eapply inflight_not_queued.
Qed.

(** ** Reconnects *)

Lemma step_monotone c ev c' :
  step c ev = Some c' → (reconnectCount c ≤ reconnectCount c')%Z ∧ (attempts c ≤ attempts c')%Z ∧
    (request_closed c = true → request_closed c' = true).
Proof.
  unfold step, send_request, drain, take_request, receive, respond, loop, connected. intros Hs.
  repeat case_match; simplify_option_eq; simpl; split_and!; try done; try lia.
Qed.

Lemma run_monotone evs c c' :
  run evs c = Some c' → (reconnectCount c ≤ reconnectCount c')%Z ∧ (attempts c ≤ attempts c')%Z ∧
    (request_closed c = true → request_closed c' = true).
Proof.
  revert c. induction evs as [|ev evs IH]; intros c; simpl; [by intros [= <-]|].
  destruct (step c ev) as [c1|] eqn:E; [|done]. simpl. intros (H1 & H2 & H3)%IH.
  apply step_monotone in E as (H4 & H5 & H6). split_and!; [lia|lia|auto].
Qed.

(** ** Properties *)

(** A reply without properties, which a peer may send, is the end of the process. *)
Lemma bare_reply_panics c reqs m :
  pc c = Serving reqs → Properties m = None →
  ∃ c', step c (EvReceive m) = Some c' ∧ ∀ ev, step c' ev = None.
Proof. intros Hpc Hm. exists (set_pc Panicked c). unfold step, panicked, receive. by rewrite Hpc, Hm. Qed.

Definition serving (c : CommandClient) : bool :=
  match pc c with Serving _ => true | _ => false end.

(** C39. Correlation: after any run, whatever the peer sends, a message that a caller
    got, or that waits for it, carries the id its own request was sent under, no id
    and no request is used twice, and the channel is within its bound. *)
Theorem replies_correlated evs c :
  run evs start = Some c →
  length (request_chan c) ≤ maxConcurrentRequests ∧
  NoDup (request_chan c ++ inflight c) ∧
  (∀ r resp, buffer c !! r = Some resp ∨ (r, Returned resp) ∈ results c →
     ∀ m, responseMessage resp = Some m →
     ∃ id, CorrelationID m = Some id ∧ assigned c !! id = Some r).
Proof.
  intros Hrun. pose proof (run_ok _ _ _ Hrun start_ok) as [H1 H2 H3 H4 H5 H6 H7 H8 H9].
  split_and!; [done..|]. intros r resp [Hb|Hr]; [by apply H5|by apply H6].
Qed.

Definition some_reply (id : string) : Reply :=
  {| Properties := Some {| mp_CorrelationID := Some id |}; body := {| ApplicationProperties := ∅; Value_ := VNil |} |}.

(** Two requests, answered in the opposite order. *)
Definition served : list event :=
  [EvLoop; EvConnected; EvSend 1; EvSend 2; EvTake "x" None; EvTake "y" None;
   EvReceive (some_reply "y"); EvReceive (some_reply "x"); EvResult 1; EvResult 2].

Definition after (evs : list event) (c : CommandClient) : CommandClient := default c (run evs c).

Lemma replies_correlated_witness :
  ∃ id, CorrelationID (some_reply "x") = Some id ∧ assigned (after served start) !! id = Some 1.
Proof.
  refine (proj2 (proj2 (replies_correlated served (after served start) _)) 1
    {| responseMessage := Some (some_reply "x"); response_err := None |} _ _ _).
  - vm_compute. reflexivity.
  - right. vm_compute. left.
  - reflexivity.
Defined.

(** Reconnects are counted: between two states of a run in which the client serves
    requests and is not being stopped, the reconnect count does not decrease, and it
    is the same exactly when no connection has been made in between. *)
Theorem reconnects_counted evs1 evs2 c1 c2 :
  run evs1 start = Some c1 → run evs2 c1 = Some c2 →
  serving c1 = true → serving c2 = true → request_closed c2 = false →
  (reconnectCount c1 ≤ reconnectCount c2)%Z ∧
  (reconnectCount c1 = reconnectCount c2 ↔ attempts c1 = attempts c2).
Proof.
  intros H1 H2 Hs1 Hs2 Ho2. destruct (run_monotone _ _ _ H2) as (Hle & _ & Hcl).
  split; [done|].
  pose proof (run_ok _ _ _ H1 start_ok) as Hc1. pose proof (run_ok _ _ _ H2 Hc1) as Hc2.
  assert (request_closed c1 = false) as Ho1
    by (destruct (request_closed c1); [by rewrite Hcl in Ho2|done]).
  rewrite (ck_attempts _ Hc1 Ho1), (ck_attempts _ Hc2 Ho2). unfold expected_attempts, serving in *.
  destruct (pc c1), (pc c2); try done. lia.
Qed.

(** The connection is lost and made again. *)
Definition reconnected : list event :=
  [EvReceiveFailed (Errorf "connection lost"); EvLoop; EvConnected; EvDrain].

Lemma reconnects_counted_witness :
  let c1 := after [EvLoop; EvConnected] start in
  (reconnectCount c1 ≤ reconnectCount (after reconnected c1))%Z.
Proof.
  refine (proj1 (reconnects_counted [EvLoop; EvConnected] reconnected _ _ _ _ _ _ _));
    vm_compute; reflexivity.
Defined.

(** Requests in flight are lost with the connection: a request that has been sent
    and not answered when receiving fails is never answered, whatever happens
    afterwards, so its caller waits for the full timeout; only the requests still in
    the channel are answered with the error. *)
Theorem inflight_lost evs c reqs id r e c' evs' c'' :
  run evs start = Some c → pc c = Serving reqs → reqs !! id = Some r → buffer c !! r = None →
  (∀ resp, (r, Returned resp) ∉ results c) → step c (EvReceiveFailed e) = Some c' →
  run evs' c' = Some c'' →
  buffer c'' !! r = None ∧ ∀ resp, (r, Returned resp) ∉ results c''.
Proof.
  intros Hrun Hpc Hr Hb Hres Hstep Hrun'.
  assert (lost r c'') as Hl; [|by split; apply Hl].
  eapply run_lost; [exact Hrun'|]. eapply failed_lost; eauto. by eapply run_ok, start_ok.
Qed.

Definition one_sent : list event := [EvLoop; EvConnected; EvSend 1; EvTake "x" None].
Definition late_reply : list event := [EvLoop; EvConnected; EvDrain; EvReceive (some_reply "x")].

Lemma inflight_lost_witness :
  let c := after one_sent start in
  let c' := after [EvReceiveFailed (Errorf "connection lost")] c in
  buffer (after late_reply c') !! 1 = None.
Proof.
  refine (proj1 (inflight_lost one_sent _ {["x" := 1]} "x" 1 (Errorf "connection lost")
    (after [EvReceiveFailed (Errorf "connection lost")] (after one_sent start)) late_reply _
    _ _ _ _ _ _ _)); try (vm_compute; reflexivity).
  intros resp H. vm_compute in H. inversion H.
Defined.
