(* ===== verification/Json.v ===== *)
(** The part of [encoding/json] the broker package relies on: the compact text
    [json.Marshal] writes and the grammar [json.Unmarshal] reads, on JSON values.
    Bytes above 0x7f belong to valid UTF-8 sequences and are copied. *)
From stdpp Require Import base strings pretty list.
From Stdlib Require Import Ascii.
From S2P Require Import Prelude.
Local Open Scope char_scope.

(** JSON values; a number is kept as its literal. *)
Inductive Json :=
  | JNull
  | JBool (b : bool)
  | JNum (lit : string)
  | JStr (s : string)
  | JArr (l : list Json)
  | JObj (fs : list (string * Json)).

Section Json_ind.
Context (P : Json → Prop).
Context (Hnull : P JNull) (Hbool : ∀ b, P (JBool b)) (Hnum : ∀ l, P (JNum l))
  (Hstr : ∀ s, P (JStr s)) (Harr : ∀ l, Forall P l → P (JArr l))
  (Hobj : ∀ fs, Forall (λ kv, P kv.2) fs → P (JObj fs)).

Fixpoint Json_ind' (j : Json) : P j.
Proof.
  destruct j as [|b|l|s|l|fs]; [done|auto|auto|auto|apply Harr|apply Hobj].
  - induction l; constructor; auto.
  - induction fs; constructor; auto.
Defined.
End Json_ind.

(** ** Writing *)

Definition dquote : ascii := "034".
Definition backslash : ascii := "092".

Definition hex_digit (n : nat) : ascii :=
  ascii_of_nat (if n <? 10 then 48 + n else 87 + n)%nat.

(** [\u00XX]. *)
Definition unicode_escape (c : ascii) : string :=
  let n := nat_of_ascii c in
  String backslash (String "u" (String "0" (String "0"
    (String (hex_digit (n / 16)) (String (hex_digit (n mod 16)) EmptyString))))).

(** One character of a string; [<], [>] and [&] are escaped as [json.Marshal]
    does for HTML. *)
Definition escape (c : ascii) : string :=
  if (c =? dquote) || (c =? backslash) then String backslash (String c EmptyString)
  else if c =? "010" then String backslash (String "n" EmptyString)
  else if c =? "013" then String backslash (String "r" EmptyString)
  else if c =? "009" then String backslash (String "t" EmptyString)
  else if (nat_of_ascii c <? 32)%nat || (c =? "<") || (c =? ">") || (c =? "&")
  then unicode_escape c
  else String c EmptyString.

(** The line separators U+2028 and U+2029, three bytes each, are escaped too. *)
Definition is_separator (a b c : ascii) : bool :=
  (a =? "226") && (b =? "128") && ((c =? "168") || (c =? "169")).

Definition separator_escape (c : ascii) : string :=
  String backslash (String "u" (String "2" (String "0" (String "2"
    (String (if c =? "168" then "8" else "9") EmptyString))))).

Fixpoint escape_all (s : string) : string :=
  match s with
  | String a ((String b (String c s3)) as s1) =>
      if is_separator a b c then separator_escape c +:+ escape_all s3
      else escape a +:+ escape_all s1
  | String a s1 => escape a +:+ escape_all s1
  | EmptyString => EmptyString
  end.

Definition quote (s : string) : string :=
  String dquote (escape_all s +:+ String dquote EmptyString).

(** [json.Marshal]. *)
Fixpoint marshal (j : Json) : string :=
  let fix elems l :=
    match l with
    | [] => EmptyString
    | [x] => marshal x
    | x :: l' => marshal x +:+ String "," (elems l')
    end in
  let fix members (fs : list (string * Json)) :=
    match fs with
    | [] => EmptyString
    | [(k, x)] => quote k +:+ String ":" (marshal x)
    | (k, x) :: fs' => quote k +:+ String ":" (marshal x +:+ String "," (members fs'))
    end in
  match j with
  | JNull => "null"%string
  | JBool b => if b then "true"%string else "false"%string
  | JNum lit => lit
  | JStr s => quote s
  | JArr l => String "[" (elems l +:+ String "]" EmptyString)
  | JObj fs => String "{" (members fs +:+ String "}" EmptyString)
  end.

(** ** Reading *)

Definition is_space (c : ascii) : bool :=
  (c =? " ") || (c =? "009") || (c =? "010") || (c =? "013").

Fixpoint skip_space (s : string) : string :=
  match s with
  | String c s' => if is_space c then skip_space s' else s
  | EmptyString => s
  end.

Definition is_digit (c : ascii) : bool :=
  let n := nat_of_ascii c in (48 <=? n)%nat && (n <=? 57)%nat.

Definition is_number_char (c : ascii) : bool :=
  is_digit c || (c =? "-") || (c =? "+") || (c =? ".") || (c =? "e") || (c =? "E").

Fixpoint all_digits (s : string) : bool :=
  match s with EmptyString => true | String c s' => is_digit c && all_digits s' end.

(** The longest prefix of digits, and the rest. *)
Fixpoint digits (s : string) : string * string :=
  match s with
  | String c s' =>
      if is_digit c then let '(d, r) := digits s' in (String c d, r) else (EmptyString, s)
  | EmptyString => (EmptyString, EmptyString)
  end.

(** The exponent of a number: [[eE][+-]?digits], or nothing. *)
Definition valid_exponent (s : string) : bool :=
  match s with
  | EmptyString => true
  | String c s' =>
      ((c =? "e") || (c =? "E")) &&
      let s'' := match s' with
                 | String d r => if (d =? "+") || (d =? "-") then r else s'
                 | EmptyString => s'
                 end in
      match s'' with EmptyString => false | _ => all_digits s'' end
  end.

(** A JSON number: [-?(0|[1-9]digits)(.digits)?exponent?]. *)
Definition valid_number (s : string) : bool :=
  let s := match s with String c r => if c =? "-" then r else s | EmptyString => s end in
  let '(int, rest) := digits s in
  match int with
  | EmptyString => false
  | String c r => (negb (c =? "0") || match r with EmptyString => true | _ => false end)
  end &&
  match rest with
  | String c r =>
      if c =? "." then
        let '(frac, rest') := digits r in
        match frac with EmptyString => false | _ => valid_exponent rest' end
      else valid_exponent rest
  | EmptyString => true
  end.

(** The longest prefix of characters that occur in numbers, and the rest. *)
Fixpoint number_prefix (s : string) : string * string :=
  match s with
  | String c s' =>
      if is_number_char c then let '(d, r) := number_prefix s' in (String c d, r)
      else (EmptyString, s)
  | EmptyString => (EmptyString, EmptyString)
  end.

Definition hex_value (c : ascii) : option N :=
  let n := nat_of_ascii c in
  if (48 <=? n)%nat && (n <=? 57)%nat then Some (N.of_nat (n - 48))
  else if (97 <=? n)%nat && (n <=? 102)%nat then Some (N.of_nat (n - 87))
  else if (65 <=? n)%nat && (n <=? 70)%nat then Some (N.of_nat (n - 55))
  else None.

Definition hex4 (a b c d : ascii) : option N :=
  match hex_value a, hex_value b, hex_value c, hex_value d with
  | Some a, Some b, Some c, Some d => Some (((a * 16 + b) * 16 + c) * 16 + d)%N
  | _, _, _, _ => None
  end.

Definition byte (n : N) : ascii := ascii_of_N n.

(** The UTF-8 encoding of a code point. *)
Definition utf8 (n : N) : string :=
  if (n <? 128)%N then String (byte n) EmptyString
  else if (n <? 2048)%N then
    String (byte (192 + n / 64)) (String (byte (128 + n mod 64)) EmptyString)
  else if (n <? 65536)%N then
    String (byte (224 + n / 4096)) (String (byte (128 + n / 64 mod 64))
      (String (byte (128 + n mod 64)) EmptyString))
  else
    String (byte (240 + n / 262144)) (String (byte (128 + n / 4096 mod 64))
      (String (byte (128 + n / 64 mod 64)) (String (byte (128 + n mod 64)) EmptyString))).

Definition is_high (n : N) : bool := (55296 <=? n)%N && (n <? 56320)%N.
Definition is_low (n : N) : bool := (56320 <=? n)%N && (n <? 57344)%N.

(** The character after a backslash. *)
Definition unescape (c : ascii) : option ascii :=
  if (c =? dquote) || (c =? backslash) || (c =? "/") then Some c
  else if c =? "b" then Some "008"
  else if c =? "f" then Some "012"
  else if c =? "n" then Some "010"
  else if c =? "r" then Some "013"
  else if c =? "t" then Some "009"
  else None.

Definition prepend (p : string) (r : option (string * string)) : option (string * string) :=
  match r with Some (s, rest) => Some (p +:+ s, rest) | None => None end.

(** The content of a string after its opening quote, and what follows the
    closing quote. A surrogate pair is one code point, a lone surrogate is
    replaced by U+FFFD. *)
Fixpoint parse_chars (s : string) : option (string * string) :=
  match s with
  | EmptyString => None
  | String c s' =>
      if c =? dquote then Some (EmptyString, s')
      else if c =? backslash then
        match s' with
        | EmptyString => None
        | String e s2 =>
            if e =? "u" then
              match s2 with
              | String a (String b (String c2 (String d s3))) =>
                  match hex4 a b c2 d with
                  | None => None
                  | Some n =>
                      if is_high n then
                        match s3 with
                        | String x (String y (String a' (String b' (String c' (String d' s4))))) =>
                            match (if (x =? backslash) && (y =? "u") then hex4 a' b' c' d' else None) with
                            | Some m =>
                                if is_low m
                                then prepend (utf8 (65536 + (n - 55296) * 1024 + (m - 56320))%N)
                                       (parse_chars s4)
                                else prepend (utf8 65533) (parse_chars s3)
                            | None => prepend (utf8 65533) (parse_chars s3)
                            end
                        | _ => prepend (utf8 65533) (parse_chars s3)
                        end
                      else if is_low n then prepend (utf8 65533) (parse_chars s3)
                      else prepend (utf8 n) (parse_chars s3)
                  end
              | _ => None
              end
            else
              match unescape e with
              | Some e' => prepend (String e' EmptyString) (parse_chars s2)
              | None => None
              end
        end
      else if (nat_of_ascii c <? 32)%nat then None
      else prepend (String c EmptyString) (parse_chars s')
  end.

(** [s] after the prefix [p]. *)
Fixpoint strip (p s : string) : option string :=
  match p, s with
  | EmptyString, _ => Some s
  | String a p', String b s' => if a =? b then strip p' s' else None
  | _, EmptyString => None
  end.

(** A value, the elements of an array up to its bracket, and the members of an
    object up to its brace. *)
Fixpoint parse_value (fuel : nat) (s : string) : option (Json * string) :=
  match fuel with
  | O => None
  | S fuel =>
      match skip_space s with
      | EmptyString => None
      | String c r =>
          if c =? "n" then (λ r, (JNull, r)) <$> strip "ull" r
          else if c =? "t" then (λ r, (JBool true, r)) <$> strip "rue" r
          else if c =? "f" then (λ r, (JBool false, r)) <$> strip "alse" r
          else if c =? dquote then (λ p, (JStr p.1, p.2)) <$> parse_chars r
          else if c =? "[" then
            match skip_space r with
            | String d r' =>
                if d =? "]" then Some (JArr [], r')
                else (λ p, (JArr p.1, p.2)) <$> parse_elems fuel r
            | EmptyString => None
            end
          else if c =? "{" then
            match skip_space r with
            | String d r' =>
                if d =? "}" then Some (JObj [], r')
                else (λ p, (JObj p.1, p.2)) <$> parse_members fuel r
            | EmptyString => None
            end
          else
            let '(lit, r') := number_prefix (String c r) in
            if valid_number lit then Some (JNum lit, r') else None
      end
  end
with parse_elems (fuel : nat) (s : string) : option (list Json * string) :=
  match fuel with
  | O => None
  | S fuel =>
      match parse_value fuel s with
      | None => None
      | Some (x, r) =>
          match skip_space r with
          | String c r' =>
              if c =? "," then (λ p, (x :: p.1, p.2)) <$> parse_elems fuel r'
              else if c =? "]" then Some ([x], r')
              else None
          | EmptyString => None
          end
      end
  end
with parse_members (fuel : nat) (s : string) : option (list (string * Json) * string) :=
  match fuel with
  | O => None
  | S fuel =>
      match skip_space s with
      | String q r =>
          if q =? dquote then
            match parse_chars r with
            | None => None
            | Some (k, r) =>
                match skip_space r with
                | String c r' =>
                    if c =? ":" then
                      match parse_value fuel r' with
                      | None => None
                      | Some (x, r) =>
                          match skip_space r with
                          | String d r' =>
                              if d =? "," then (λ p, ((k, x) :: p.1, p.2)) <$> parse_members fuel r'
                              else if d =? "}" then Some ([(k, x)], r')
                              else None
                          | EmptyString => None
                          end
                      end
                    else None
                | EmptyString => None
                end
            end
          else None
      | EmptyString => None
      end
  end.

(** [json.Unmarshal]: one value and nothing after it. Every step of the parser
    that does not consume a character is followed by one that does, so twice the
    length bounds the number of nested calls. *)
Definition unmarshal (s : string) : outcome Json :=
  match parse_value (2 * String.length s + 2) s with
  | Some (j, rest) =>
      match skip_space rest with
      | EmptyString => Ok j
      | String c _ => Err (JsonError "invalid character after top-level value")
      end
  | None => Err (JsonError "invalid JSON")
  end.

Example unmarshal_ex :
  unmarshal (marshal (JArr [JArr [JStr "a<b"; JNum "-12"; JStr ""]; JObj [("k"%string, JBool true); ("l"%string, JNull)]]))
  = Ok (JArr [JArr [JStr "a<b"; JNum "-12"; JStr ""]; JObj [("k"%string, JBool true); ("l"%string, JNull)]]).
Proof. reflexivity. Qed.

(** ** Numbers *)

Fixpoint parse_digits (acc : Z) (s : string) : option Z :=
  match s with
  | EmptyString => Some acc
  | String c s' =>
      if is_digit c
      then parse_digits (acc * 10 + Z.of_nat (Ascii.nat_of_ascii c - 48)) s'
      else None
  end.

Definition minus : Ascii.ascii := Ascii.ascii_of_nat 45.

(** [strconv.ParseInt] of a JSON number. *)
Definition parse_int (s : string) : option Z :=
  match s with
  | String c s' =>
      if Ascii.eqb c minus then Z.opp <$> parse_digits 0 s' else parse_digits 0 s
  | EmptyString => None
  end.
