(* ===== verification/RouterTypes.v ===== *)
(** The entities of the router's management schema ([pkg/state/router/types.go]
    and the methods of [pkg/state/router/router.go] on them): the six entity
    structs, the [RouterEntity] interface, and the codec between an entity and
    the attribute map of a management message. *)
From stdpp Require Import base gmap strings pretty list fin_maps.
From S2P Require Import Prelude Go Json.

(** ** Entity types *)

(** [type RouterEntityType string]. *)
Definition RouterEntityType := string.

Definition RouterAddressEntity : RouterEntityType := "org.apache.qpid.dispatch.router.config.address".
Definition RouterListenerEntity : RouterEntityType := "org.apache.qpid.dispatch.listener".
Definition RouterConnectorEntity : RouterEntityType := "org.apache.qpid.dispatch.connector".
Definition RouterAutoLinkEntity : RouterEntityType := "org.apache.qpid.dispatch.router.config.autoLink".
Definition RouterLinkRouteEntity : RouterEntityType := "org.apache.qpid.dispatch.router.config.linkRoute".
Definition RouterSslProfileEntity : RouterEntityType := "org.apache.qpid.dispatch.sslProfile".

Record NamedEntity := {
  ne_EntityType : RouterEntityType;
  ne_Name : string;
}.

Record RouterConnector := {
  rc_Name : string;
  rc_Host : string;
  rc_Port : string;
  rc_Role : string;
  rc_SslProfile : string;
  rc_SaslMechanisms : string;
  rc_SaslUsername : string;
  rc_SaslPassword : string;
  rc_LinkCapacity : Z;
  rc_IdleTimeoutSeconds : Z;
  rc_VerifyHostname : bool;
  rc_PolicyVhost : string;
  rc_ConnectionStatus : string;
  rc_ConnectionMsg : string;
}.

Record RouterListener := {
  rl_Name : string;
  rl_Host : string;
  rl_Port : string;
  rl_Role : string;
  rl_SslProfile : string;
  rl_SaslMechanisms : string;
  rl_LinkCapacity : Z;
  rl_IdleTimeoutSeconds : Z;
  rl_InitialHandshakeTimeoutSeconds : Z;
  rl_PolicyVhost : string;
  rl_AuthenticatePeer : bool;
  rl_MultiTenant : bool;
  rl_RequireSsl : bool;
  rl_Http : bool;
  rl_Metrics : bool;
  rl_Healthz : bool;
  rl_Websockets : bool;
  rl_HttpRootDir : string;
}.

Record RouterAddress := {
  ra_Name : string;
  ra_Prefix : string;
  ra_Waypoint : bool;
  ra_Distribution : string;
}.

Record RouterAutoLink := {
  al_Name : string;
  al_Address : string;
  al_Direction : string;
  al_Connection : string;
  al_ExternalAddress : string;
}.

Record RouterLinkRoute := {
  lr_Name : string;
  lr_Prefix : string;
  lr_Direction : string;
  lr_Connection : string;
}.

Record RouterSslProfile := {
  sp_Name : string;
  sp_Ciphers : string;
  sp_Protocols : string;
  sp_CaCertFile : string;
  sp_CertFile : string;
  sp_PrivateKeyFile : string;
}.

#[global] Instance NamedEntity_eq_dec : EqDecision NamedEntity.
Proof. solve_decision. Defined.
#[global] Instance RouterConnector_eq_dec : EqDecision RouterConnector.
Proof. solve_decision. Defined.
#[global] Instance RouterListener_eq_dec : EqDecision RouterListener.
Proof. solve_decision. Defined.
#[global] Instance RouterAddress_eq_dec : EqDecision RouterAddress.
Proof. solve_decision. Defined.
#[global] Instance RouterAutoLink_eq_dec : EqDecision RouterAutoLink.
Proof. solve_decision. Defined.
#[global] Instance RouterLinkRoute_eq_dec : EqDecision RouterLinkRoute.
Proof. solve_decision. Defined.
#[global] Instance RouterSslProfile_eq_dec : EqDecision RouterSslProfile.
Proof. solve_decision. Defined.

(** The [RouterEntity] interface, by its implementations. *)
Inductive RouterEntity :=
  | EConnector (e : RouterConnector)
  | EListener (e : RouterListener)
  | EAddress (e : RouterAddress)
  | EAutoLink (e : RouterAutoLink)
  | ELinkRoute (e : RouterLinkRoute)
  | ESslProfile (e : RouterSslProfile)
  | ENamed (e : NamedEntity).

#[global] Instance RouterEntity_eq_dec : EqDecision RouterEntity.
Proof. solve_decision. Defined.

(** [e.Type()]. *)
Definition Type_ (e : RouterEntity) : RouterEntityType :=
  match e with
  | EConnector _ => RouterConnectorEntity
  | EListener _ => RouterListenerEntity
  | EAddress _ => RouterAddressEntity
  | EAutoLink _ => RouterAutoLinkEntity
  | ELinkRoute _ => RouterLinkRouteEntity
  | ESslProfile _ => RouterSslProfileEntity
  | ENamed n => ne_EntityType n
  end.

(** [e.GetName()]. *)
Definition GetName (e : RouterEntity) : string :=
  match e with
  | EConnector c => rc_Name c
  | EListener l => rl_Name l
  | EAddress a => ra_Name a
  | EAutoLink l => al_Name l
  | ELinkRoute l => lr_Name l
  | ESslProfile s => sp_Name s
  | ENamed n => ne_Name n
  end.

(** [e.Order()]: the round of [EnsureEntities] in which the entity is created. *)
Definition Order (e : RouterEntity) : nat :=
  match e with
  | EConnector _ => 1
  | EListener _ => 1
  | EAddress _ => 0
  | EAutoLink _ => 0
  | ELinkRoute _ => 0
  | ESslProfile _ => 0
  | ENamed _ => 0
  end.

(** [RouterConnector.Equals]: the configured attributes, not the link
    capacity nor the connection status. *)
Definition connector_equals (e v : RouterConnector) : bool :=
  bool_decide (rc_Name v = rc_Name e) &&
  bool_decide (rc_Host v = rc_Host e) &&
  bool_decide (rc_Port v = rc_Port e) &&
  bool_decide (rc_Role v = rc_Role e) &&
  bool_decide (rc_SslProfile v = rc_SslProfile e) &&
  bool_decide (rc_SaslMechanisms v = rc_SaslMechanisms e) &&
  bool_decide (rc_SaslUsername v = rc_SaslUsername e) &&
  bool_decide (rc_SaslPassword v = rc_SaslPassword e) &&
  bool_decide (rc_IdleTimeoutSeconds v = rc_IdleTimeoutSeconds e) &&
  bool_decide (rc_VerifyHostname v = rc_VerifyHostname e) &&
  bool_decide (rc_PolicyVhost v = rc_PolicyVhost e).

(** [e.Equals(other)]; [reflect.DeepEqual] compares the dynamic type and every
    field. *)
Definition Equals (e other : RouterEntity) : bool :=
  match e with
  | EConnector c =>
      match other with EConnector v => connector_equals c v | _ => false end
  | ENamed n =>
      match other with
      | ENamed v => bool_decide (ne_Name v = ne_Name n) &&
                    bool_decide (ne_EntityType v = ne_EntityType n)
      | _ => false
      end
  | _ => bool_decide (e = other)
  end.

(** [RouterEntityType.CanUpdate]. *)
Definition CanUpdate (t : RouterEntityType) : bool := false.

(** ** The JSON codec *)

(** [float64(z)] for an integer [z]: rounding to 53 bits, ties to even. *)
Definition float64_round (z : Z) : Z :=
  let a := Z.abs z in
  if (a <=? 2 ^ 53)%Z then z else
  let e := (Z.log2 a - 52)%Z in
  let q := Z.shiftr a e in
  let r := (a - Z.shiftl q e)%Z in
  let h := Z.shiftl 1 (e - 1) in
  let q' := if ((r <? h) || ((r =? h) && Z.even q))%Z then q else (q + 1)%Z in
  (Z.sgn z * Z.shiftl q' e)%Z.

(** [int(f)] for an integral [f]; a value out of range gives the smallest
    integer, as on amd64. *)
Definition float64_to_int (z : Z) : Z :=
  if bool_decide (- 2 ^ 63 ≤ z < 2 ^ 63)%Z then z else (- 2 ^ 63)%Z.

(** Fields of a struct as [encoding/json] writes them: [None] for a field with
    [omitempty] that holds its zero value. Numbers pass through [float64]. *)
Definition fstr (k s : string) : string * option Value := (k, Some (VString s)).
Definition fstr_omit (k s : string) : string * option Value :=
  (k, if bool_decide (s = "") then None else Some (VString s)).
Definition fbool (k : string) (b : bool) : string * option Value := (k, Some (VBool b)).
Definition fint_omit (k : string) (z : Z) : string * option Value :=
  (k, if bool_decide (z = 0%Z) then None else Some (VInt (float64_to_int (float64_round z)))).

Definition obj (fs : list (string * option Value)) : gmap string Value :=
  foldr (λ f, partial_alter (λ _, f.2) f.1) ∅ fs.

(** [entityToMap]: the attribute map of an entity. *)
Definition entityToMap (e : RouterEntity) : gmap string Value :=
  match e with
  | EConnector c => obj [
      fstr "name" (rc_Name c);
      fstr "host" (rc_Host c);
      fstr "port" (rc_Port c);
      fstr_omit "role" (rc_Role c);
      fstr_omit "sslProfile" (rc_SslProfile c);
      fstr_omit "saslMechanisms" (rc_SaslMechanisms c);
      fstr_omit "saslUsername" (rc_SaslUsername c);
      fstr_omit "saslPassword" (rc_SaslPassword c);
      fint_omit "linkCapacity" (rc_LinkCapacity c);
      fint_omit "idleTimeoutSeconds" (rc_IdleTimeoutSeconds c);
      fbool "verifyHostname" (rc_VerifyHostname c);
      fstr_omit "policyVhost" (rc_PolicyVhost c);
      fstr_omit "connectionStatus" (rc_ConnectionStatus c);
      fstr_omit "connectionMsg" (rc_ConnectionMsg c)]
  | EListener l => obj [
      fstr "name" (rl_Name l);
      fstr "host" (rl_Host l);
      fstr "port" (rl_Port l);
      fstr_omit "role" (rl_Role l);
      fstr_omit "sslProfile" (rl_SslProfile l);
      fstr_omit "saslMechanisms" (rl_SaslMechanisms l);
      fint_omit "linkCapacity" (rl_LinkCapacity l);
      fint_omit "idleTimeoutSeconds" (rl_IdleTimeoutSeconds l);
      fint_omit "initialHandshakeTimeoutSeconds" (rl_InitialHandshakeTimeoutSeconds l);
      fstr_omit "policyVhost" (rl_PolicyVhost l);
      fbool "authenticatePeer" (rl_AuthenticatePeer l);
      fbool "multiTenant" (rl_MultiTenant l);
      fbool "requireSsl" (rl_RequireSsl l);
      fbool "http" (rl_Http l);
      fbool "metrics" (rl_Metrics l);
      fbool "healthz" (rl_Healthz l);
      fbool "websockets" (rl_Websockets l);
      fstr_omit "httpRootDir" (rl_HttpRootDir l)]
  | EAddress a => obj [
      fstr "name" (ra_Name a);
      fstr "prefix" (ra_Prefix a);
      fbool "waypoint" (ra_Waypoint a);
      fstr "distribution" (ra_Distribution a)]
  | EAutoLink l => obj [
      fstr "name" (al_Name l);
      fstr "address" (al_Address l);
      fstr "direction" (al_Direction l);
      fstr_omit "connection" (al_Connection l);
      fstr_omit "externalAddress" (al_ExternalAddress l)]
  | ELinkRoute l => obj [
      fstr "name" (lr_Name l);
      fstr "prefix" (lr_Prefix l);
      fstr "direction" (lr_Direction l);
      fstr_omit "connection" (lr_Connection l)]
  | ESslProfile s => obj [
      fstr "name" (sp_Name s);
      fstr_omit "ciphers" (sp_Ciphers s);
      fstr_omit "protocols" (sp_Protocols s);
      fstr_omit "caCertFile" (sp_CaCertFile s);
      fstr_omit "certFile" (sp_CertFile s);
      fstr_omit "privateKeyFile" (sp_PrivateKeyFile s)]
  | ENamed n => obj [
      fstr "EntityType" (ne_EntityType n);
      fstr "Name" (ne_Name n)]
  end.

(** [RouterEntityType.Encode]. *)
Definition Encode (e : RouterEntity) : gmap string Value := entityToMap e.

(** Reading one struct field with [json.Unmarshal]: an absent key or a null
    leaves the zero value, a value of another JSON type is an error. No two attributes
    of the management schema differ in case only, and routers spell them as the tags
    do, so that the matching of keys without regard to case does not come into play. *)
Definition unmarshal_error (k : string) : error :=
  JsonError ("json: cannot unmarshal into Go struct field " +:+ k).

Definition get_string (m : gmap string Value) (k : string) : outcome string :=
  match get_key m k with
  | VNil => Ok ""
  | VString s => Ok s
  | _ => Err (unmarshal_error k)
  end.

Definition get_bool (m : gmap string Value) (k : string) : outcome bool :=
  match get_key m k with
  | VNil => Ok false
  | VBool b => Ok b
  | _ => Err (unmarshal_error k)
  end.

(** The other types whose values [json.Marshal] writes as numbers. *)
Definition number_types : list string :=
  ["int8"; "int16"; "uint"; "uint8"; "uint16"; "uint32"; "uint64"; "float32"; "float64"].

(** An [int] of 64 bits; a number with a fraction or an exponent is an error. *)
Definition get_int (m : gmap string Value) (k : string) : outcome Z :=
  match get_key m k with
  | VNil => Ok 0%Z
  | VInt32 z | VInt64 z | VInt z => Ok z
  | VOther type repr =>
      match (if decide (type ∈ number_types) then parse_int repr else None) with
      | Some z => if bool_decide (- 2 ^ 63 ≤ z < 2 ^ 63)%Z then Ok z else Err (unmarshal_error k)
      | None => Err (unmarshal_error k)
      end
  | _ => Err (unmarshal_error k)
  end.

(** [mapToEntity], at each of the entity structs. *)
Definition decode_connector (m : gmap string Value) : outcome RouterEntity :=
  name ← get_string m "name";
  host ← get_string m "host";
  port ← get_string m "port";
  role ← get_string m "role";
  sslProfile ← get_string m "sslProfile";
  saslMechanisms ← get_string m "saslMechanisms";
  saslUsername ← get_string m "saslUsername";
  saslPassword ← get_string m "saslPassword";
  linkCapacity ← get_int m "linkCapacity";
  idleTimeoutSeconds ← get_int m "idleTimeoutSeconds";
  verifyHostname ← get_bool m "verifyHostname";
  policyVhost ← get_string m "policyVhost";
  connectionStatus ← get_string m "connectionStatus";
  connectionMsg ← get_string m "connectionMsg";
  mret (EConnector (Build_RouterConnector name host port role sslProfile saslMechanisms
    saslUsername saslPassword linkCapacity idleTimeoutSeconds verifyHostname policyVhost
    connectionStatus connectionMsg)).

Definition decode_listener (m : gmap string Value) : outcome RouterEntity :=
  name ← get_string m "name";
  host ← get_string m "host";
  port ← get_string m "port";
  role ← get_string m "role";
  sslProfile ← get_string m "sslProfile";
  saslMechanisms ← get_string m "saslMechanisms";
  linkCapacity ← get_int m "linkCapacity";
  idleTimeoutSeconds ← get_int m "idleTimeoutSeconds";
  initialHandshakeTimeoutSeconds ← get_int m "initialHandshakeTimeoutSeconds";
  policyVhost ← get_string m "policyVhost";
  authenticatePeer ← get_bool m "authenticatePeer";
  multiTenant ← get_bool m "multiTenant";
  requireSsl ← get_bool m "requireSsl";
  http ← get_bool m "http";
  metrics ← get_bool m "metrics";
  healthz ← get_bool m "healthz";
  websockets ← get_bool m "websockets";
  httpRootDir ← get_string m "httpRootDir";
  mret (EListener (Build_RouterListener name host port role sslProfile saslMechanisms
    linkCapacity idleTimeoutSeconds initialHandshakeTimeoutSeconds policyVhost
    authenticatePeer multiTenant requireSsl http metrics healthz websockets httpRootDir)).

Definition decode_address (m : gmap string Value) : outcome RouterEntity :=
  name ← get_string m "name";
  prefix ← get_string m "prefix";
  waypoint ← get_bool m "waypoint";
  distribution ← get_string m "distribution";
  mret (EAddress (Build_RouterAddress name prefix waypoint distribution)).

Definition decode_autoLink (m : gmap string Value) : outcome RouterEntity :=
  name ← get_string m "name";
  address ← get_string m "address";
  direction ← get_string m "direction";
  connection ← get_string m "connection";
  externalAddress ← get_string m "externalAddress";
  mret (EAutoLink (Build_RouterAutoLink name address direction connection externalAddress)).

Definition decode_linkRoute (m : gmap string Value) : outcome RouterEntity :=
  name ← get_string m "name";
  prefix ← get_string m "prefix";
  direction ← get_string m "direction";
  connection ← get_string m "connection";
  mret (ELinkRoute (Build_RouterLinkRoute name prefix direction connection)).

Definition decode_sslProfile (m : gmap string Value) : outcome RouterEntity :=
  name ← get_string m "name";
  ciphers ← get_string m "ciphers";
  protocols ← get_string m "protocols";
  caCertFile ← get_string m "caCertFile";
  certFile ← get_string m "certFile";
  privateKeyFile ← get_string m "privateKeyFile";
  mret (ESslProfile (Build_RouterSslProfile name ciphers protocols caCertFile certFile
    privateKeyFile)).

(** [RouterEntityType.Decode]. *)
Definition Decode (c : RouterEntityType) (data : gmap string Value) : outcome RouterEntity :=
  if bool_decide (c = RouterConnectorEntity) then decode_connector data
  else if bool_decide (c = RouterListenerEntity) then decode_listener data
  else if bool_decide (c = RouterAddressEntity) then decode_address data
  else if bool_decide (c = RouterAutoLinkEntity) then decode_autoLink data
  else if bool_decide (c = RouterLinkRouteEntity) then decode_linkRoute data
  else if bool_decide (c = RouterSslProfileEntity) then decode_sslProfile data
  else Err (Errorf ("unknown entity " +:+ c)).

(** The six types the router state keeps, in the order [Initialize] reads them. *)
Definition entityTypes : list RouterEntityType :=
  [RouterConnectorEntity; RouterListenerEntity; RouterAddressEntity;
   RouterAutoLinkEntity; RouterLinkRouteEntity; RouterSslProfileEntity].

(** ** Properties of the codec *)

(** The field of an object by its key. *)
Fixpoint field (k : string) (fs : list (string * option Value)) : option Value :=
  match fs with
  | [] => None
  | (k', v) :: fs' =>
      if String.eqb k k' then v else field k fs'
  end.

Lemma obj_lookup k fs : obj fs !! k = field k fs.
Proof.
  induction fs as [|[k' v] fs IH]; simpl; [apply lookup_empty|].
  destruct (String.eqb_spec k k') as [->|]; [by rewrite lookup_partial_alter_eq|].
  by rewrite lookup_partial_alter_ne.
Qed.

Lemma float64_exact z : (Z.abs z ≤ 2 ^ 53)%Z → float64_to_int (float64_round z) = z.
Proof.
  intros Hz. unfold float64_round. rewrite (proj2 (Z.leb_le _ _)) by done.
  unfold float64_to_int. case_bool_decide; [done|]. lia.
Qed.

(** The integers of an entity survive the detour through [float64]. *)
Definition ints_exact (e : RouterEntity) : Prop :=
  match e with
  | EConnector c => (Z.abs (rc_LinkCapacity c) ≤ 2 ^ 53)%Z ∧
                    (Z.abs (rc_IdleTimeoutSeconds c) ≤ 2 ^ 53)%Z
  | EListener l => (Z.abs (rl_LinkCapacity l) ≤ 2 ^ 53)%Z ∧
                   (Z.abs (rl_IdleTimeoutSeconds l) ≤ 2 ^ 53)%Z ∧
                   (Z.abs (rl_InitialHandshakeTimeoutSeconds l) ≤ 2 ^ 53)%Z
  | _ => True
  end.

Lemma get_string_obj k fs s :
  field k fs = (fstr_omit k s).2 ∨ field k fs = Some (VString s) →
  get_string (obj fs) k = Ok s.
Proof.
  unfold get_string, get_key. rewrite obj_lookup. simpl.
  intros [-> | ->]; [|done]. by case_bool_decide; simplify_eq/=.
Qed.

Lemma get_bool_obj k fs b : field k fs = Some (VBool b) → get_bool (obj fs) k = Ok b.
Proof. unfold get_bool, get_key. rewrite obj_lookup. by intros ->. Qed.

Lemma get_int_obj k fs z :
  field k fs = (fint_omit k z).2 → (Z.abs z ≤ 2 ^ 53)%Z → get_int (obj fs) k = Ok z.
Proof.
  intros Hf Hz. unfold get_int, get_key. rewrite obj_lookup, Hf. simpl.
  case_bool_decide; simplify_eq/=; [done|]. by rewrite float64_exact.
Qed.

(** Reading every field of an encoded struct back. *)
Ltac decode_fields :=
  repeat (first
    [ erewrite get_string_obj by
        (first [right; reflexivity | left; reflexivity])
    | erewrite get_bool_obj by reflexivity
    | erewrite get_int_obj by (first [reflexivity | simpl; assumption]) ];
    cbn [mbind outcome_bind]).

Lemma Decode_connector m : Decode RouterConnectorEntity m = decode_connector m.
Proof. reflexivity. Qed.
Lemma Decode_listener m : Decode RouterListenerEntity m = decode_listener m.
Proof. reflexivity. Qed.
Lemma Decode_address m : Decode RouterAddressEntity m = decode_address m.
Proof. reflexivity. Qed.
Lemma Decode_autoLink m : Decode RouterAutoLinkEntity m = decode_autoLink m.
Proof. reflexivity. Qed.
Lemma Decode_linkRoute m : Decode RouterLinkRouteEntity m = decode_linkRoute m.
Proof. reflexivity. Qed.
Lemma Decode_sslProfile m : Decode RouterSslProfileEntity m = decode_sslProfile m.
Proof. reflexivity. Qed.

Create HintDb decode.
#[export] Hint Rewrite Decode_connector Decode_listener Decode_address Decode_autoLink
  Decode_linkRoute Decode_sslProfile : decode.

Lemma decode_encode e :
  (∀ n, e ≠ ENamed n) → ints_exact e → Decode (Type_ e) (Encode e) = Ok e.
Proof.
  intros Hn Hi. destruct e as [[]|[]|[]|[]|[]|[]|n]; [..|by destruct (Hn n)];
    simpl in Hi; destruct_and?; unfold Type_, Encode, entityToMap;
    autorewrite with decode;
    unfold decode_connector, decode_listener, decode_address, decode_autoLink,
      decode_linkRoute, decode_sslProfile.
  all: decode_fields; reflexivity.
Qed.
