(* ===== verification/Router.v ===== *)
(** The state the operator keeps of one router ([RouterState] of
    [pkg/state/router/router.go]): a cache of the router's management entities,
    filled by [Initialize] and kept in step by [EnsureEntities] and
    [DeleteEntities]. *)
From stdpp Require Import base gmap strings pretty list fin_maps.
From S2P Require Import Prelude Go Client RouterTypes.

Definition routerCommandAddress : string := "$management".
Definition routerCommandResponseAddress : string := "router_command_response".
Definition maxOrder : nat := 2.

Record RouterState (W : Type) := {
  host : Host;
  port : Z;
  initialized : bool;
  nextResync : Z;
  reconnectCount : Z;
  commandClient : option W;
  entities : gmap RouterEntityType (gmap string RouterEntity);
}.
Arguments Build_RouterState {W}.
Arguments host {W}.
Arguments port {W}.
Arguments initialized {W}.
Arguments nextResync {W}.
Arguments reconnectCount {W}.
Arguments commandClient {W}.
Arguments entities {W}.

Section Setters.
Context {W : Type}.
Implicit Types r : RouterState W.

Definition set_initialized (b : bool) r :=
  Build_RouterState (host r) (port r) b (nextResync r) (reconnectCount r)
    (commandClient r) (entities r).
Definition set_nextResync (t : Z) r :=
  Build_RouterState (host r) (port r) (initialized r) t (reconnectCount r)
    (commandClient r) (entities r).
Definition set_reconnectCount (n : Z) r :=
  Build_RouterState (host r) (port r) (initialized r) (nextResync r) n
    (commandClient r) (entities r).
Definition set_commandClient (c : option W) r :=
  Build_RouterState (host r) (port r) (initialized r) (nextResync r) (reconnectCount r)
    c (entities r).
Definition set_entities (m : gmap RouterEntityType (gmap string RouterEntity)) r :=
  Build_RouterState (host r) (port r) (initialized r) (nextResync r) (reconnectCount r)
    (commandClient r) m.
End Setters.

Section Router.
Context {W : Type} `{HC : !Client W} `{HS : !Sched}.
Implicit Types r : RouterState W.

(** ** Management requests *)

(** [getStatusCode]: the status must be an [int32]. *)
Definition getStatusCode (response : Message) : outcome Z :=
  match get_key (ApplicationProperties response) "statusCode" with
  | VInt32 v => Ok v
  | v => Err (Errorf ("unexpected value with type " +:+ fmt_T v))
  end.

Definition getStatusDescription (response : Message) : Value :=
  get_key (ApplicationProperties response) "statusDescription".

(** [fmt.Errorf("response with status code %d: %+v", code, description)]. *)
Definition status_error (code : Z) (response : Message) : error :=
  Errorf ("response with status code " +:+ fmt_d code +:+ ": " +:+
          fmt_v (getStatusDescription response)).

(** [code < 200 || code >= 300]. *)
Definition status_failed (code : Z) : bool := ((code <? 200) || (300 <=? code))%Z.

(** The four management requests. *)
Definition delete_request (entity : RouterEntityType) (name : string) : Message := {|
  ApplicationProperties := {[ "operation" := VString "DELETE";
                              "type" := VString entity;
                              "name" := VString name ]};
  Value_ := VNil |}.

Definition create_request (entity : RouterEntityType) (name : string)
    (data : gmap string Value) : Message := {|
  ApplicationProperties := {[ "operation" := VString "CREATE";
                              "type" := VString entity;
                              "name" := VString name ]};
  Value_ := VMap (map_to_list data) |}.

Definition read_request (entityType : RouterEntityType) (name : string) : Message := {|
  ApplicationProperties := {[ "operation" := VString "READ";
                              "type" := VString entityType;
                              "name" := VString name ]};
  Value_ := VNil |}.

Definition query_request (entity : RouterEntityType) (attributes : list string) : Message := {|
  ApplicationProperties := {[ "operation" := VString "QUERY";
                              "entityType" := VString entity ]};
  Value_ := VMap [("attributeNames", VList (map VString attributes))] |}.

(** [doRequest]. *)
Definition doRequest (request : Message) : prog W Message := RequestWithTimeout request.

(** [deleteEntity]: an entity that is already gone is not an error. *)
Definition deleteEntity (entity : RouterEntityType) (name : string) : prog W () :=
  response ← doRequest (delete_request entity name);
  code ← lift (getStatusCode response);
  if status_failed code && negb (code =? 404)%Z
  then lift (Err (status_error code response))
  else mret ().

(** [createEntity]. *)
Definition createEntity (entity : RouterEntityType) (name : string)
    (data : gmap string Value) : prog W () :=
  response ← doRequest (create_request entity name data);
  code ← lift (getStatusCode response);
  if status_failed code && negb (code =? 404)%Z
  then lift (Err (status_error code response))
  else mret ().

(** The body of a response as a [map[string]interface{}]. *)
Definition response_map (response : Message) : outcome (gmap string Value) :=
  match Value_ response with
  | VMap v => Ok (list_to_map v)
  | v => Err (Errorf ("unexpected value with type " +:+ fmt_T v))
  end.

(** [readEntity]. *)
Definition readEntity (entityType : RouterEntityType) (name : string) : prog W RouterEntity :=
  response ← doRequest (read_request entityType name);
  code ← lift (getStatusCode response);
  if status_failed code
  then lift (Err (status_error code response))
  else v ← lift (response_map response); lift (Decode entityType v).

(** [queryEntities]. *)
Definition queryEntities (entity : RouterEntityType) (attributes : list string)
    : prog W (gmap string Value) :=
  response ← doRequest (query_request entity attributes);
  code ← lift (getStatusCode response);
  if status_failed code
  then lift (Err (status_error code response))
  else lift (response_map response).

(** One row of [createMapData]: the attribute names against the row's values.
    A name that is not a string, or a row that is too short, panics. *)
Fixpoint row_data (attributeNames : list Value) (r : list Value) (m : gmap string Value)
    : outcome (gmap string Value) :=
  match attributeNames with
  | [] => Ok m
  | VString a :: names =>
      match r with
      | [] => Panic
      | VNil :: r' => row_data names r' m
      | v :: r' => row_data names r' (<[a := v]> m)
      end
  | _ :: _ => Panic
  end.

(** [createMapData]. *)
Definition createMapData (attributeNames : list Value) (results : list Value)
    : outcome (list (gmap string Value)) :=
  map_outcome (λ result,
    match result with VList r => row_data attributeNames r ∅ | _ => Panic end) results.

(** [v.([]interface{})]. *)
Definition assert_list (v : Value) : outcome (list Value) :=
  match v with VList l => Ok l | _ => Panic end.

(** The entities of a query result, by name; of two rows with one name the
    later one stays. *)
Definition index_entities (es : list RouterEntity) : gmap string RouterEntity :=
  foldl (λ m e, <[GetName e := e]> m) ∅ es.

(** [readEntities]. *)
Definition readEntities (entityType : RouterEntityType)
    : prog W (gmap string RouterEntity) :=
  v ← queryEntities entityType [];
  attributeNames ← lift (assert_list (get_key v "attributeNames"));
  results ← lift (assert_list (get_key v "results"));
  data ← lift (createMapData attributeNames results);
  es ← lift (map_outcome (Decode entityType) data);
  mret (index_entities es).

(** ** The router state *)

(** [NewRouterState]. *)
Definition NewRouterState (h : Host) (p : Z) (tlsConfig : option TlsConfig) : RouterState W :=
  let client := Start (NewCommandClient ("amqps://" +:+ Ip h +:+ ":" +:+ fmt_d p)
                         routerCommandAddress routerCommandResponseAddress tlsConfig) in
  {| host := h;
     port := p;
     initialized := false;
     nextResync := 0;
     reconnectCount := ReconnectCount client;
     commandClient := Some client;
     entities := list_to_map ((λ t, (t, ∅)) <$> entityTypes) |}.

(** A call on the command client; on a nil client it panics. *)
Definition with_client {A} (c : prog W A) : prog (RouterState W) A := λ r,
  match commandClient r with
  | None => (r, Panic)
  | Some w => let '(w', o) := c w in (set_commandClient (Some w') r, o)
  end.

(** [r.commandClient.ReconnectCount()]. *)
Definition clientReconnectCount : prog (RouterState W) Z :=
  with_client (λ w, (w, Ok (ReconnectCount w))).

(** One turn of the loop of [Initialize]. *)
Definition load_entities (t : RouterEntityType) : prog (RouterState W) () :=
  list ← with_client (readEntities t);
  modify (λ r, set_entities (<[t := list]> (entities r)) r).

(** The part of [Initialize] for a state that is not initialized. *)
Definition load (next : Z) : prog (RouterState W) () :=
  _ ← modify (set_nextResync next);
  count ← clientReconnectCount;
  _ ← modify (set_reconnectCount count);
  _ ← for_each load_entities entityTypes;
  modify (set_initialized true).

Definition unless_initialized (p : prog (RouterState W) ()) : prog (RouterState W) () := λ r,
  if initialized r then (r, Ok ()) else p r.

(** [Initialize]: read every entity of the router, unless the state is
    initialized and the connection has not been lost since. *)
Definition Initialize (next : Z) : prog (RouterState W) () :=
  count ← clientReconnectCount;
  _ ← modify (λ r, if bool_decide (reconnectCount r = count) then r else set_initialized false r);
  unless_initialized (load next).

(** [Reset]: drop the connection and the claim to know the router's state. *)
Definition Reset r : RouterState W :=
  match commandClient r with
  | Some w =>
      if initialized r
      then set_commandClient (Some (Start (Stop w))) (set_initialized false r)
      else r
  | None => r
  end.

(** [Shutdown]. *)
Definition Shutdown r : RouterState W :=
  match commandClient r with
  | Some w => set_commandClient (Some (Stop w)) r
  | None => r
  end.

(** [r.entities[t][name]]. *)
Definition cached r (t : RouterEntityType) (name : string) : option RouterEntity :=
  entities r !! t ≫= λ m, m !! name.

(** The entities [EnsureEntities] has to create; an existing entity that
    differs is an error. *)
Fixpoint toCreate r (es : list RouterEntity) : outcome (list RouterEntity) :=
  match es with
  | [] => Ok []
  | entity :: es' =>
      match cached r (Type_ entity) (GetName entity) with
      | Some existing =>
          if Equals existing entity then toCreate r es'
          else Err (Errorf ("router entity " +:+ Type_ entity +:+ " " +:+ GetName existing
                            +:+ " was updated - updates are not supported"))
      | None => l ← toCreate r es'; mret (entity :: l)
      end
  end.

(** The goroutine that creates one entity and reports it as completed. *)
Definition create_task (e : RouterEntity) : prog (RouterState W) RouterEntity :=
  with_client (createEntity (Type_ e) (GetName e) (Encode e)) ≫= λ _, mret e.

(** The rounds of [EnsureEntities]: the entities of one order are created
    concurrently, a round starts when the one before it has succeeded. *)
Fixpoint create_rounds (t : tick) (orders : list nat) (es : list RouterEntity)
    (completed : list RouterEntity) r
    : RouterState W * option (list RouterEntity * option error) :=
  match orders with
  | [] => (r, Some (completed, None))
  | order :: orders' =>
      match group (order :: t) create_task (filter (λ e, Order e = order) es) r with
      | (r', None) => (r', None)
      | (r', Some (done, Some e)) => (r', Some (completed ++ done, Some e))
      | (r', Some (done, None)) => create_rounds t orders' es (completed ++ done) r'
      end
  end.

(** [r.entities[entity.Type()][entity.GetName()] = entity]; a write to a nil map
    panics. *)
Definition store_entity (e : RouterEntity) : prog (RouterState W) () := λ r,
  match entities r !! Type_ e with
  | None => (r, Panic)
  | Some m => (set_entities (<[Type_ e := <[GetName e := e]> m]> (entities r)) r, Ok ())
  end.

(** The end of [EnsureEntities] and [DeleteEntities]: reset on an error, record
    what was completed, return the error. *)
Definition finish (err : option error) (record : prog (RouterState W) ())
    : prog (RouterState W) () := λ r,
  let r := if isConnectionError err then Reset r else r in
  match record r with
  | (r, Ok _) => (r, return_err err)
  | (r, o) => (r, o)
  end.

(** [EnsureEntities]. *)
Definition EnsureEntities (t : tick) (es : list RouterEntity) : prog (RouterState W) () := λ r,
  if negb (initialized r) then (r, Err NotInitializedError)
  else match toCreate r es with
  | Err e => (r, Err e)
  | Panic => (r, Panic)
  | Ok todo =>
      match create_rounds t (seq 0 maxOrder) todo [] r with
      | (r, None) => (r, Panic)
      | (r, Some (completed, err)) => finish err (for_each store_entity completed) r
      end
  end.

(** The goroutine that deletes one entity. An HTTP listener cannot be deleted
    (DISPATCH-1646): the error is ignored and the entity is not reported. *)
Definition delete_task (n : RouterEntity) : prog (RouterState W) (option RouterEntity) := λ r,
  match with_client (deleteEntity (Type_ n) (GetName n)) r with
  | (r, Ok _) => (r, Ok (Some n))
  | (r, Err e) =>
      if Contains (Error e) "HTTP listeners cannot be deleted" then (r, Ok None) else (r, Err e)
  | (r, Panic) => (r, Panic)
  end.

(** [delete(r.entities[entity.Type()], entity.GetName())]. *)
Definition forget_entity (e : RouterEntity) : prog (RouterState W) () := λ r,
  (set_entities (alter (delete (GetName e)) (Type_ e) (entities r)) r, Ok ()).

(** [DeleteEntities]. *)
Definition DeleteEntities (t : tick) (names : list RouterEntity) : prog (RouterState W) () := λ r,
  if negb (initialized r) then (r, Err NotInitializedError)
  else match group t delete_task names r with
  | (r, None) => (r, Panic)
  | (r, Some (completed, err)) => finish err (for_each forget_entity (omap id completed)) r
  end.

(** [ReadEntities]: the entities as they are on the router, in the order in
    which the answers arrive. *)
Definition ReadEntities (t : tick) (es : list RouterEntity)
    : prog (RouterState W) (list RouterEntity) := λ r,
  if negb (initialized r) then (r, Err NotInitializedError)
  else match group t (λ e, with_client (readEntity (Type_ e) (GetName e))) es r with
  | (r, None) => (r, Panic)
  | (r, Some (completed, err)) =>
      let r := if isConnectionError err then Reset r else r in
      (r, match err with None => Ok completed | Some e => Err e end)
  end.
End Router.
