(* ===== verification/RouterFacts.v ===== *)
(** Correctness of the router state: what [EnsureEntities], [DeleteEntities] and
    [Initialize] do to the cache on every branch, which requests they issue and
    in which order, and that the cache follows the router. *)
From stdpp Require Import base gmap strings pretty list fin_maps.
From S2P Require Import Prelude Go Client RouterTypes Router.

(** ** Keys of entities *)

Definition key (e : RouterEntity) : RouterEntityType * string := (Type_ e, GetName e).

(** One entity per key: what the callers ask for never contradicts itself. *)
Definition consistent (es : list RouterEntity) : Prop :=
  ∀ e1 e2, e1 ∈ es → e2 ∈ es → key e1 = key e2 → e1 = e2.

(** The attributes of a connector [Equals] looks at. *)
Definition connector_view (c : RouterConnector) :=
  (rc_Name c, rc_Host c, rc_Port c, rc_Role c, rc_SslProfile c, rc_SaslMechanisms c,
   rc_SaslUsername c, rc_SaslPassword c, rc_IdleTimeoutSeconds c, rc_VerifyHostname c,
   rc_PolicyVhost c).

Lemma connector_equals_view c v :
  connector_equals c v = true ↔ connector_view v = connector_view c.
Proof.
  unfold connector_equals, connector_view. rewrite !andb_true_iff, !bool_decide_eq_true.
  split; [intros H; destruct_and! H; congruence|].
  intros [=]. split_and!; done.
Qed.

(** [Equals] is equality of what the entity configures. *)
Definition view (e : RouterEntity) :=
  match e with EConnector c => inl (connector_view c) | _ => inr e end.

Lemma Equals_view e e' : Equals e e' = true ↔ view e = view e'.
Proof.
  destruct e, e'; simpl; rewrite ?connector_equals_view, ?andb_true_iff, ?bool_decide_eq_true;
    try (split; congruence).
  destruct e, e0; simpl. split; [by intros [-> ->]|by intros [= -> ->]].
Qed.

Lemma Equals_refl e : Equals e e = true.
Proof. by apply Equals_view. Qed.

Lemma view_key e e' : view e = view e' → key e = key e'.
Proof.
  unfold view, key. destruct e, e'; simpl; try congruence.
  unfold connector_view. congruence.
Qed.

#[export] Hint Resolve Equals_refl : go.

(** [maxOrder] bounds the order of every entity: each one has its round. *)
Lemma Order_lt e : Order e < maxOrder.
Proof. destruct e; unfold maxOrder; simpl; lia. Qed.

Section RouterFacts.
Context {W : Type} `{HC : !Client W} `{HS : !Sched}.
Implicit Types r : RouterState W.

(** ** Frames *)

(** Only the command client (and what is behind it) differs. *)
Definition only_client r r' : Prop := r' = set_commandClient (commandClient r') r.

Lemma only_client_refl r : only_client r r.
Proof. by destruct r. Qed.

Lemma only_client_trans r1 r2 r3 : only_client r1 r2 → only_client r2 r3 → only_client r1 r3.
Proof. unfold only_client. intros -> ->. done. Qed.

Lemma with_client_frame {A} (c : prog W A) r : only_client r (with_client c r).1.
Proof.
  unfold with_client. destruct (commandClient r) eqn:E; [|by apply only_client_refl].
  by destruct (c w).
Qed.

Lemma create_task_frame e r : only_client r (create_task e r).1.
Proof.
  unfold create_task. go_simpl.
  pose proof (with_client_frame (createEntity (Type_ e) (GetName e) (Encode e)) r) as H.
  by destruct (with_client _ r) as [r' []].
Qed.

Lemma delete_task_frame e r : only_client r (delete_task e r).1.
Proof.
  unfold delete_task.
  pose proof (with_client_frame (deleteEntity (Type_ e) (GetName e)) r) as H.
  destruct (with_client _ r) as [r' []]; simpl in *; try done. by case_match.
Qed.

Lemma group_frame {A B} t (f : A → prog (RouterState W) B) l r :
  (∀ a r, only_client r (f a r).1) → only_client r (group t f l r).1.
Proof.
  intros Hf. unfold group. apply go_each_inv; [apply only_client_refl|].
  intros a r' _ H. eapply only_client_trans; [exact H|apply Hf].
Qed.

Lemma create_rounds_frame t orders es completed r :
  only_client r (create_rounds t orders es completed r).1.
Proof.
  revert completed r. induction orders as [|o os IH]; intros completed r; simpl;
    [apply only_client_refl|].
  pose proof (group_frame (o :: t) create_task (filter (λ e, Order e = o) es) r
    create_task_frame) as H.
  destruct (group _ _ _ r) as [r' [[dn [e|]]|]]; simpl in *; [exact H| |exact H].
  eapply only_client_trans; [exact H|apply IH].
Qed.

Lemma only_client_cached r r' t n : only_client r r' → cached r' t n = cached r t n.
Proof. by intros ->. Qed.

Lemma only_client_initialized r r' : only_client r r' → initialized r' = initialized r.
Proof. by intros ->. Qed.

Lemma only_client_entities r r' : only_client r r' → entities r' = entities r.
Proof. by intros ->. Qed.

(** A management operation touches the client by its one request only. *)
Lemma createEntity_state ty n d w :
  (createEntity ty n d w).1 = (RequestWithTimeout (create_request ty n d) w).1.
Proof.
  unfold createEntity, doRequest, lift. go_simpl.
  destruct (RequestWithTimeout _ w) as [w' [resp| |]]; [|done|done].
  destruct (getStatusCode resp); [|done|done]. by case_match.
Qed.

(** ** What is created *)

Lemma toCreate_spec r es todo :
  toCreate r es = Ok todo →
  (∀ e, e ∈ todo ↔ e ∈ es ∧ cached r (Type_ e) (GetName e) = None) ∧
  (∀ e x, e ∈ es → cached r (Type_ e) (GetName e) = Some x → Equals x e = true).
Proof.
  revert todo. induction es as [|e es IH]; intros todo; simpl.
  { intros [= <-]. set_solver. }
  destruct (cached r (Type_ e) (GetName e)) as [x|] eqn:Ex.
  - destruct (Equals x e) eqn:Eq; [|done]. intros [IH1 IH2]%IH. split.
    + intros e'. rewrite IH1, elem_of_cons. naive_solver.
    + intros e' x' [->|Hin]%elem_of_cons Hx; [congruence|eauto].
  - destruct (toCreate r es) as [l| |] eqn:El; go_simpl; try done. intros [= <-].
    destruct (IH _ eq_refl) as [IH1 IH2]. split.
    + intros e'. rewrite !elem_of_cons, IH1. naive_solver.
    + intros e' x' [->|Hin]%elem_of_cons Hx; [congruence|eauto].
Qed.

(** No conflict, no error: the check of [EnsureEntities] fails exactly when an
    existing entity differs from the one asked for. *)
Lemma toCreate_conflict r es :
  (∃ e x, e ∈ es ∧ cached r (Type_ e) (GetName e) = Some x ∧ Equals x e = false) ↔
  (∃ err, toCreate r es = Err err).
Proof.
  induction es as [|e es IH]; simpl; [set_solver|].
  setoid_rewrite elem_of_cons.
  destruct (cached r (Type_ e) (GetName e)) as [x|] eqn:Ex.
  - destruct (Equals x e) eqn:Eq; [|by naive_solver].
    rewrite <-IH. split; [|naive_solver].
    intros (e' & x' & [->|?] & ? & ?); [congruence|eauto 10].
  - transitivity (∃ err, toCreate r es = Err err).
    + rewrite <-IH. split; [|naive_solver].
      intros (e' & x' & [->|?] & ? & ?); [congruence|eauto 10].
    + go_simpl. destruct (toCreate r es); naive_solver.
Qed.

Lemma toCreate_no_panic r es : toCreate r es ≠ Panic.
Proof.
  induction es as [|e es IH]; simpl; [done|]. go_simpl. repeat case_match; done.
Qed.

Lemma create_task_ok e r r' b : create_task e r = (r', Ok b) → b = e.
Proof. unfold create_task. go_simpl. destruct (with_client _ r) as [? []]; naive_solver. Qed.

(** Without an error a group of creations completes exactly its entities. *)
Lemma group_create t es r r' done :
  group t create_task es r = (r', Some (done, None)) → done ≡ₚ es.
Proof.
  intros H.
  enough (done = perm t es) as ->. { apply perm_ok. }
  eapply (go_each_rule create_task (λ pre done err _, err = None → done = pre) (perm t es)
    [] ([], None)) in H; simpl in *; auto.
  intros pre a dn err s _ IH.
  destruct (create_task a s) as [s' [b|e|]] eqn:E; simpl; auto.
  - intros ->. apply create_task_ok in E as ->. by rewrite IH.
  - by destruct err.
Qed.

(** With or without an error only what was asked for completes. *)
Lemma group_create_sub t es r r' done err :
  group t create_task es r = (r', Some (done, err)) → done ⊆ es.
Proof.
  intros H. rewrite <-(perm_ok t es).
  eapply (go_each_rule create_task (λ pre done err _, done ⊆ pre) (perm t es)
    [] ([], None)) in H; simpl in *; auto.
  intros pre a dn err' s _ IH.
  destruct (create_task a s) as [s' [b|e|]] eqn:E; simpl; auto; [|set_solver].
  apply create_task_ok in E as ->. set_solver.
Qed.

Lemma create_rounds_ok t orders es completed r r' done :
  create_rounds t orders es completed r = (r', Some (done, None)) →
  ∀ e, e ∈ done ↔ e ∈ completed ∨ (e ∈ es ∧ Order e ∈ orders).
Proof.
  revert completed r. induction orders as [|o os IH]; intros completed r; simpl.
  { intros [= <- <-]. set_solver. }
  destruct (group _ _ _ r) as [r1 [[dn [err|]]|]] eqn:Hg; try done.
  intros H e. rewrite (IH _ _ H e), elem_of_app.
  apply group_create in Hg. rewrite Hg, list_elem_of_filter, elem_of_cons. naive_solver.
Qed.

Lemma create_rounds_sub t orders es completed r r' done err :
  create_rounds t orders es completed r = (r', Some (done, err)) → done ⊆ completed ++ es.
Proof.
  revert completed r. induction orders as [|o os IH]; intros completed r; simpl.
  { intros [= <- <- <-]. set_solver. }
  destruct (group _ _ _ r) as [r1 [[dn [e|]]|]] eqn:Hg; try done;
    apply group_create_sub in Hg.
  - intros [= <- <- <-]. intros x. rewrite !elem_of_app.
    specialize (Hg x). rewrite list_elem_of_filter in Hg. naive_solver.
  - intros H%IH x Hx%H. rewrite !elem_of_app in *.
    specialize (Hg x). rewrite list_elem_of_filter in Hg. naive_solver.
Qed.

(** ** Recording completions *)

(** The maps of all six types exist: no write of [EnsureEntities] hits a nil map. *)
Definition has_types r : Prop := ∀ t, t ∈ entityTypes → is_Some (entities r !! t).

Lemma cached_set_entities r m t n :
  cached (set_entities m r) t n = m !! t ≫= λ x, x !! n.
Proof. done. Qed.

Lemma store_entity_spec e r r' o :
  store_entity e r = (r', o) →
  match o with
  | Ok _ =>
      (∀ t n, cached r' t n = if bool_decide (key e = (t, n)) then Some e else cached r t n) ∧
      (has_types r → has_types r') ∧
      r' = set_entities (entities r') r
  | Err _ => False
  | Panic => r' = r ∧ entities r !! Type_ e = None
  end.
Proof.
  unfold store_entity. destruct (entities r !! Type_ e) as [m|] eqn:Em; [|by intros [= <- <-]].
  intros [= <- <-]. split_and!; [|..|done].
  - intros t n. rewrite cached_set_entities. unfold key, cached.
    case_bool_decide as Hk; simplify_eq/=.
    + rewrite lookup_insert_eq. simpl. by rewrite lookup_insert_eq.
    + destruct (decide (Type_ e = t)) as [<-|Ht]; [|by rewrite lookup_insert_ne].
      rewrite lookup_insert_eq, Em. simpl. rewrite lookup_insert_ne; naive_solver.
  - intros H t Ht%H. simpl. rewrite lookup_insert. case_decide; eauto.
Qed.

(** Recording a list of entities: each of them is cached afterwards, up to a
    later one with its key, and nothing else changes. *)
Lemma store_all_spec l r r' :
  for_each store_entity l r = (r', Ok ()) →
  (∀ e, e ∈ l → ∃ e', e' ∈ l ∧ key e' = key e ∧ cached r' (Type_ e) (GetName e) = Some e') ∧
  (∀ t n, (∀ e, e ∈ l → key e ≠ (t, n)) → cached r' t n = cached r t n) ∧
  (has_types r → has_types r') ∧
  r' = set_entities (entities r') r.
Proof.
  revert r. induction l as [|e l IH]; intros r; simpl; go_simpl.
  { intros [= <-]. split_and!; [by intros e He%not_elem_of_nil|done|done|by destruct r]. }
  destruct (store_entity e r) as [r1 o1] eqn:E1. apply store_entity_spec in E1.
  destruct o1 as [[]| |]; try done. destruct E1 as (Hc & Ht & Hr).
  intros (IH1 & IH2 & IH3 & IH4)%IH. split_and!.
  - intros e0 [->|Hin]%elem_of_cons.
    + destruct (decide (Exists (λ x, key x = key e) l)) as [Hex|Hnex].
      * apply list.Exists_exists in Hex as (x & Hx & Hk).
        destruct (IH1 x Hx) as (e' & ? & ? & Hc').
        exists e'. split_and!; [rewrite elem_of_cons; auto|congruence|].
        assert (Type_ x = Type_ e ∧ GetName x = GetName e) as [<- <-];
          [by unfold key in Hk; simplify_eq|done].
      * exists e. split_and!; [rewrite elem_of_cons; auto|done|]. rewrite IH2, Hc.
        { by rewrite bool_decide_eq_true_2. }
        intros x Hx Hk. apply Hnex, list.Exists_exists. eauto.
    + destruct (IH1 e0 Hin) as (e' & ? & ? & ?). exists e'. rewrite elem_of_cons; auto.
  - intros t n Hno. rewrite IH2, Hc by (intros x Hx; apply Hno; rewrite elem_of_cons; auto).
    rewrite bool_decide_eq_false_2; [done|]. apply Hno. rewrite elem_of_cons; auto.
  - auto.
  - rewrite IH4, Hr. done.
Qed.

(** With the six maps in place, recording entities of those types never panics. *)
Lemma store_all_total l r :
  has_types r → (∀ e, e ∈ l → Type_ e ∈ entityTypes) →
  ∃ r', for_each store_entity l r = (r', Ok ()).
Proof.
  revert r. induction l as [|e l IH]; intros r Hr Hl; simpl; go_simpl; [eauto|].
  destruct (store_entity e r) as [r1 o1] eqn:E1. apply store_entity_spec in E1.
  destruct (Hr (Type_ e)) as [m Hm]; [by apply Hl; rewrite elem_of_cons; auto|].
  destruct o1 as [[]| |]; [|done|naive_solver]. destruct E1 as (_ & Ht & _).
  apply IH; [auto|]. intros. apply Hl. rewrite elem_of_cons; auto.
Qed.

Lemma forget_entity_cached e r t n :
  cached (forget_entity e r).1 t n =
  if bool_decide (key e = (t, n)) then None else cached r t n.
Proof.
  unfold forget_entity, key, cached. simpl. rewrite lookup_alter.
  case_decide as Ht; case_bool_decide as Hk; simplify_eq; try done;
    destruct (entities r !! _); simpl; try done; [apply lookup_delete_eq|].
  apply lookup_delete_ne. congruence.
Qed.

Lemma forget_all_spec l r :
  ∃ r', for_each forget_entity l r = (r', Ok ()) ∧
  (∀ t n, (t, n) ∈ key <$> l → cached r' t n = None) ∧
  (∀ t n, (t, n) ∉ key <$> l → cached r' t n = cached r t n) ∧
  (∀ t, is_Some (entities r' !! t) ↔ is_Some (entities r !! t)) ∧
  r' = set_entities (entities r') r.
Proof.
  revert r. induction l as [|e l IH]; intros r; cbn [for_each]; go_simpl.
  { exists r. split_and!; [done|by intros ?? ?%not_elem_of_nil|done|done|by destruct r]. }
  destruct (IH (forget_entity e r).1) as (r' & Hrun & Hin & Hout & Ht & Hr).
  exists r'. simpl in Hrun. split_and!; [done|..].
  - intros t n [Hk|Hl]%elem_of_cons; [|auto].
    destruct (decide ((t, n) ∈ key <$> l)); [auto|]. rewrite Hout by done.
    rewrite forget_entity_cached, bool_decide_eq_true_2; done.
  - intros t n Hno. apply not_elem_of_cons in Hno. destruct Hno.
    rewrite Hout by done. rewrite forget_entity_cached, bool_decide_eq_false_2; done.
  - intros t. rewrite Ht. simpl. rewrite lookup_alter. case_decide; [|done]. subst.
    by rewrite fmap_is_Some.
  - by rewrite Hr.
Qed.

(** ** Well-formed router states *)

(** The client exists, the six maps exist, and every entity is cached under its
    own type and name. *)
Record wf r : Prop := {
  wf_client : is_Some (commandClient r);
  wf_types : has_types r;
  wf_keyed : ∀ t n e, cached r t n = Some e → key e = (t, n);
}.

Lemma only_client_wf r r' :
  only_client r r' → is_Some (commandClient r') → wf r → wf r'.
Proof.
  intros Hf Hc [_ Ht Hk]. split; [done| |].
  - intros t. rewrite (only_client_entities _ _ Hf). apply Ht.
  - intros t n e. rewrite (only_client_cached _ _ _ _ Hf). apply Hk.
Qed.

Lemma with_client_some {A} (c : prog W A) r :
  is_Some (commandClient r) → is_Some (commandClient (with_client c r).1).
Proof. unfold with_client. intros [w Hw]. rewrite Hw. by destruct (c w). Qed.

Lemma with_client_wf {A} (c : prog W A) r : wf r → wf (with_client c r).1.
Proof.
  intros Hr. eapply only_client_wf; [apply with_client_frame| |done].
  apply with_client_some, Hr.
Qed.

Lemma create_task_wf e r : wf r → wf (create_task e r).1.
Proof.
  intros Hr. unfold create_task. go_simpl.
  pose proof (with_client_wf (createEntity (Type_ e) (GetName e) (Encode e)) r Hr).
  by destruct (with_client _ r) as [r' []].
Qed.

Lemma delete_task_wf e r : wf r → wf (delete_task e r).1.
Proof.
  intros Hr. unfold delete_task.
  pose proof (with_client_wf (deleteEntity (Type_ e) (GetName e)) r Hr).
  destruct (with_client _ r) as [r' []]; simpl in *; try done. by case_match.
Qed.

Lemma group_wf {A B} t (f : A → prog (RouterState W) B) l r :
  (∀ a r, wf r → wf (f a r).1) → wf r → wf (group t f l r).1.
Proof. intros Hf Hr. unfold group. apply go_each_inv; auto. Qed.

Lemma create_rounds_wf t orders es completed r :
  wf r → wf (create_rounds t orders es completed r).1.
Proof.
  revert completed r. induction orders as [|o os IH]; intros completed r Hr; simpl; [done|].
  pose proof (group_wf (o :: t) create_task (filter (λ e, Order e = o) es) r create_task_wf Hr).
  destruct (group _ _ _ r) as [r' [[dn [e|]]|]]; simpl in *; auto.
Qed.

Lemma Reset_wf r : wf r → wf (Reset r).
Proof.
  unfold Reset. intros [[w Hw] Ht Hk]. rewrite Hw.
  destruct (initialized r); split; done.
Qed.

Lemma store_entity_wf e r : wf r → wf (store_entity e r).1.
Proof.
  intros Hr. destruct (store_entity e r) as [r' o] eqn:E. apply store_entity_spec in E.
  destruct o; simpl; [|done|by destruct E as [-> _]]. destruct E as (Hc & Ht & Heq).
  destruct Hr as [Hw Hty Hk]. split; [by rewrite Heq|auto|].
  intros t n x. rewrite Hc. case_bool_decide; [congruence|apply Hk].
Qed.

Lemma forget_entity_wf e r : wf r → wf (forget_entity e r).1.
Proof.
  intros [Hw Hty Hk]. split; [done| |].
  - intros t Ht%Hty. simpl. rewrite lookup_alter. case_decide; [|done]. subst.
    by rewrite fmap_is_Some.
  - intros t n x. rewrite forget_entity_cached. case_bool_decide; [done|apply Hk].
Qed.

Lemma finish_wf err record r :
  (∀ r, wf r → wf (record r).1) → wf r → wf (finish err record r).1.
Proof.
  intros Hrec Hr. unfold finish.
  assert (wf (if isConnectionError err then Reset r else r)) as H1.
  { case_match; [by apply Reset_wf|done]. }
  apply Hrec in H1. by destruct (record _) as [r' []].
Qed.

Lemma Ensure_wf t es r : wf r → wf (EnsureEntities t es r).1.
Proof.
  intros Hr. unfold EnsureEntities. case_match; [done|]. case_match; try done.
  pose proof (create_rounds_wf t (seq 0 maxOrder) a [] r Hr).
  destruct (create_rounds _ _ _ _ r) as [r' [[c err]|]]; [|done].
  apply finish_wf; [|done]. intros r1 Hr1. apply for_each_inv; [done|].
  intros. by apply store_entity_wf.
Qed.

Lemma Delete_wf t es r : wf r → wf (DeleteEntities t es r).1.
Proof.
  intros Hr. unfold DeleteEntities. case_match; [done|].
  pose proof (group_wf t delete_task es r delete_task_wf Hr).
  destruct (group _ _ _ r) as [r' [[c err]|]]; [|done].
  apply finish_wf; [|done]. intros r1 Hr1. apply for_each_inv; [done|].
  intros. by apply forget_entity_wf.
Qed.

Lemma Read_wf t es r : wf r → wf (ReadEntities t es r).1.
Proof.
  intros Hr. unfold ReadEntities. case_match; [done|].
  pose proof (group_wf t (λ e, with_client (readEntity (Type_ e) (GetName e))) es r
    (λ e r, with_client_wf _ r) Hr).
  destruct (group _ _ _ r) as [r' [[c err]|]]; [|done]. simpl.
  case_match; [by apply Reset_wf|done].
Qed.

(** ** Reading the router *)

Lemma Decode_type c m e : Decode c m = Ok e → Type_ e = c.
Proof.
  unfold Decode. repeat (case_bool_decide; [subst|]); [..|done];
    intros He; repeat (apply outcome_bind_Ok in He as (? & _ & He)); by injection He as <-.
Qed.

Lemma index_entities_app es e :
  index_entities (es ++ [e]) = <[GetName e := e]> (index_entities es).
Proof. unfold index_entities. by rewrite foldl_app. Qed.

Lemma index_entities_keyed es n e :
  index_entities es !! n = Some e → GetName e = n ∧ e ∈ es.
Proof.
  induction es as [|x es IH] using rev_ind;
    [by unfold index_entities; simpl; rewrite lookup_empty|].
  rewrite index_entities_app, elem_of_app, list_elem_of_singleton.
  rewrite lookup_insert. case_decide; naive_solver.
Qed.

Lemma index_entities_elem es e : e ∈ es → is_Some (index_entities es !! GetName e).
Proof.
  induction es as [|x es IH] using rev_ind; [by intros ?%not_elem_of_nil|].
  rewrite index_entities_app, elem_of_app, list_elem_of_singleton, lookup_insert.
  intros [He| ->]; [|by rewrite decide_True]. case_decide; eauto.
Qed.

Lemma readEntities_keyed t w w' m n e :
  readEntities t w = (w', Ok m) → m !! n = Some e → key e = (t, n).
Proof.
  unfold readEntities. intros H.
  repeat (apply prog_bind_Ok in H as (? & ? & ? & H)).
  unfold lift, mret, prog_ret in *. simplify_eq.
  intros [Hn He]%index_entities_keyed.
  match goal with Hd : map_outcome _ _ = Ok _ |- _ =>
    destruct (map_outcome_elem _ _ _ _ Hd He) as (d & _ & Hty%Decode_type) end.
  unfold key. by subst.
Qed.

Lemma load_entities_wf t r : wf r → wf (load_entities t r).1.
Proof.
  intros Hr. unfold load_entities, modify. go_simpl.
  pose proof (with_client_wf (readEntities t) r Hr) as H1.
  destruct (with_client _ r) as [r1 [m|e|]] eqn:E; simpl in *; try done.
  assert (∀ n e, m !! n = Some e → key e = (t, n)) as Hm.
  { unfold with_client in E. destruct (commandClient r); [|done].
    destruct (readEntities t w) as [w' o] eqn:Ew. simplify_eq.
    intros n e. by eapply readEntities_keyed. }
  destruct H1 as [Hw Hty Hk]. split; [done| |].
  - intros t' Ht'%Hty. simpl. rewrite lookup_insert. case_decide; eauto.
  - intros t' n e. rewrite cached_set_entities, lookup_insert. case_decide; simplify_eq/=; auto.
Qed.

Lemma set_initialized_wf b r : wf r → wf (set_initialized b r).
Proof. by intros []. Qed.

(** The connection is not lost between two readings of its count. *)
Lemma Initialize_eq next r :
  Initialize next r =
    match commandClient r with
    | Some w =>
        let r := if bool_decide (reconnectCount r = ReconnectCount w) then r else set_initialized false r in
        if initialized r then (r, Ok ())
        else
          let r := set_reconnectCount (ReconnectCount w) (set_nextResync next r) in
          match for_each load_entities entityTypes r with
          | (r, Ok _) => (set_initialized true r, Ok ())
          | (r, o) => (r, o)
          end
    | None => (r, Panic)
    end.
Proof.
  unfold Initialize, load. generalize (for_each load_entities entityTypes). intros loop.
  unfold unless_initialized, clientReconnectCount, with_client, modify. go_simpl.
  destruct r as [h p ini nr rc [w|] es]; [|done]. cbn. destruct (bool_decide _), ini; cbn; try done.
  all: by destruct (loop _) as [? []].
Qed.

Lemma Initialize_wf next r : wf r → wf (Initialize next r).1.
Proof.
  intros Hr. rewrite Initialize_eq.
  destruct (commandClient r) as [w|] eqn:Ew; [|done]. cbn zeta iota.
  set (r1 := if bool_decide _ then _ else _).
  assert (wf r1) as Hr1.
  { unfold r1. case_bool_decide; try apply set_initialized_wf;
      destruct Hr as [_ Hty Hk]; by split. }
  clearbody r1. case_match; [done|].
  set (r2 := set_reconnectCount _ _).
  assert (wf r2) as Hr2 by (by destruct Hr1).
  clearbody r2. pose proof (for_each_inv wf load_entities entityTypes r2 Hr2
    (λ t r _, load_entities_wf t r)) as H2.
  destruct (for_each _ _ r2) as [r3 []]; [|done|done].
  by apply set_initialized_wf.
Qed.

Lemma New_wf h p tls : wf (NewRouterState h p tls).
Proof.
  split; [done| |].
  - intros t Ht. apply elem_of_dom. unfold NewRouterState. cbn [entities].
    rewrite dom_list_to_map_L. apply elem_of_list_to_set, list_elem_of_fmap.
    exists (t, ∅). split; [done|]. apply list_elem_of_fmap. by exists t.
  - intros t n e. unfold cached, NewRouterState. cbn [entities].
    destruct (list_to_map _ !! t) as [m|] eqn:E; [|done]. simpl.
    apply elem_of_list_to_map_2, list_elem_of_fmap in E as (t' & [= -> ->] & _).
    by rewrite lookup_empty.
Qed.

(** ** [EnsureEntities] and [DeleteEntities] on each branch *)

Lemma finish_ok err record r r' :
  finish err record r = (r', Ok ()) → err = None ∧ record r = (r', Ok ()).
Proof.
  unfold finish, isConnectionError. destruct err as [e|]; simpl.
  - destruct (record _) as [r1 [[]| |]]; simpl; naive_solver.
  - destruct (record r) as [r1 [[]| |]]; simpl; naive_solver.
Qed.

(** Whatever is asked for, a success leaves an entity under each of the keys: one
    that was there and equal, or one of those asked for. *)
Lemma Ensure_present t es r r' :
  EnsureEntities t es r = (r', Ok ()) →
  initialized r = true ∧ initialized r' = true ∧
  (∀ e, e ∈ es → ∃ x, cached r' (Type_ e) (GetName e) = Some x ∧
     (Equals x e = true ∨ (x ∈ es ∧ key x = key e))) ∧
  (∀ ty n, cached r ty n ≠ None ∨ (∀ e, e ∈ es → key e ≠ (ty, n)) →
     cached r' ty n = cached r ty n).
Proof.
  unfold EnsureEntities. destruct (initialized r) eqn:Hi; cbn [negb]; [|done].
  destruct (toCreate r es) as [todo| |] eqn:Htodo; [|done|done].
  pose proof (create_rounds_frame t (seq 0 maxOrder) todo [] r) as Hf.
  destruct (create_rounds _ _ _ _ r) as [r1 [[dn err]|]] eqn:Hr; [|done].
  intros [-> Hst]%finish_ok. simpl in Hf.
  apply toCreate_spec in Htodo as [Htodo Heq].
  pose proof (create_rounds_ok _ _ _ _ _ _ _ Hr) as Hdone.
  assert (∀ e, e ∈ dn ↔ e ∈ todo) as Hdt.
  { intros e. rewrite Hdone, elem_of_nil, elem_of_seq. pose proof (Order_lt e).
    split; [by intros [[]|[? _]]|]. intros. right. split; [done|lia]. }
  apply store_all_spec in Hst as (H1 & H2 & _ & Hr').
  split_and!; [done|by rewrite Hr', Hf| |].
  - intros e He. destruct (cached r (Type_ e) (GetName e)) as [x|] eqn:Ex.
    + exists x. split; [|left; by eapply Heq]. rewrite H2.
      { by rewrite (only_client_cached _ _ _ _ Hf). }
      intros e' [_ He']%Hdt%Htodo Hk. unfold key in Hk. simplify_eq. congruence.
    + destruct (H1 e) as (e' & He' & Hk & Hc'); [by apply Hdt, Htodo|].
      exists e'. split; [done|]. apply Hdt, Htodo in He' as [He' _]. auto.
  - intros ty n Hor. rewrite H2; [by rewrite (only_client_cached _ _ _ _ Hf)|].
    intros e [He Hno]%Hdt%Htodo Hk. destruct Hor as [Hor|Hor]; [|by eapply Hor].
    apply Hor. unfold key in Hk. by simplify_eq.
Qed.

Lemma Ensure_spec t es r r' :
  consistent es →
  EnsureEntities t es r = (r', Ok ()) →
  initialized r = true ∧ initialized r' = true ∧
  (∀ e, e ∈ es → ∃ x, cached r' (Type_ e) (GetName e) = Some x ∧ Equals x e = true) ∧
  (∀ ty n, cached r ty n ≠ None ∨ (∀ e, e ∈ es → key e ≠ (ty, n)) →
     cached r' ty n = cached r ty n).
Proof.
  intros Hcons (Hi & Hi' & Hes & Hk)%Ensure_present. split_and!; try done.
  intros e He. destruct (Hes e He) as (x & Hx & [?|[? Hkey]]); [by exists x|].
  exists x. split; [done|]. rewrite (Hcons x e); auto with go.
Qed.

Lemma Ensure_cached t es r :
  initialized r = true →
  (∀ e, e ∈ es → ∃ x, cached r (Type_ e) (GetName e) = Some x ∧ Equals x e = true) →
  EnsureEntities t es r = (r, Ok ()).
Proof.
  intros Hi Hes. unfold EnsureEntities. rewrite Hi. cbn [negb].
  destruct (toCreate r es) as [todo| |] eqn:Htodo.
  - apply toCreate_spec in Htodo as [Htodo _].
    destruct todo as [|e todo].
    + simpl. unfold group. by rewrite !filter_nil, !perm_nil.
    + destruct (proj1 (Htodo e)) as [He Hno]; [rewrite elem_of_cons; auto|].
      destruct (Hes e He) as (x & Hx & _). congruence.
  - destruct (proj2 (toCreate_conflict r es) (ex_intro _ _ Htodo)) as (e' & x & He & Hx & Hf).
    destruct (Hes e' He) as (x' & Hx' & Ht). congruence.
  - by apply toCreate_no_panic in Htodo.
Qed.

Lemma Reset_initialized r : is_Some (commandClient r) → initialized (Reset r) = false.
Proof. unfold Reset. intros [w ->]. by destruct (initialized r) eqn:E. Qed.

Lemma for_each_store_initialized l r :
  initialized (for_each store_entity l r).1 = initialized r.
Proof.
  apply (for_each_inv (λ r', initialized r' = initialized r)); [done|].
  intros e r' _ <-. destruct (store_entity e r') as [r1 o] eqn:E.
  apply store_entity_spec in E. destruct o; [|done|by destruct E as [-> _]].
  by destruct E as (_ & _ & ->).
Qed.

Lemma finish_err err record r r' e :
  (∀ r, is_Some (commandClient r) → initialized (record r).1 = initialized r) →
  (∀ r r' e, record r ≠ (r', Err e)) →
  is_Some (commandClient r) →
  finish err record r = (r', Err e) → err = Some e ∧ initialized r' = false.
Proof.
  intros Hrec Hne Hc. unfold finish, isConnectionError. destruct err as [e'|]; simpl.
  - pose proof (Hrec (Reset r)) as Hi.
    assert (is_Some (commandClient (Reset r))) as HR.
    { unfold Reset. destruct Hc as [w Hw]. rewrite Hw. by case_match. }
    specialize (Hi HR).
    destruct (record (Reset r)) as [r1 [[]| |]] eqn:E; simpl in *; [|by apply Hne in E|done].
    intros [= <- <-]. split; [done|]. rewrite Hi. by apply Reset_initialized.
  - destruct (record r) as [r1 [[]| |]] eqn:E; simpl; [done|by apply Hne in E|done].
Qed.

Lemma for_each_store_no_err l r r' e : for_each store_entity l r ≠ (r', Err e).
Proof.
  revert r. induction l as [|x l IH]; intros r; simpl; go_simpl; [done|].
  destruct (store_entity x r) as [r1 o] eqn:E. apply store_entity_spec in E.
  destruct o as [[]| |]; [apply IH|done|done].
Qed.

Lemma Ensure_failed t es r r' e :
  wf r → EnsureEntities t es r = (r', Err e) → r' = r ∨ initialized r' = false.
Proof.
  intros Hwf. unfold EnsureEntities. destruct (initialized r) eqn:Hi; cbn [negb];
    [|intros [= <- _]; by left].
  destruct (toCreate r es) as [todo| |] eqn:Htodo; [|intros [= <- _]; by left|done].
  pose proof (create_rounds_wf t (seq 0 maxOrder) todo [] r Hwf) as Hw1.
  destruct (create_rounds _ _ _ _ r) as [r1 [[dn err]|]] eqn:Hr; [|done].
  intros [_ ?]%finish_err; [by right| | |apply Hw1].
  - intros r2 _. apply for_each_store_initialized.
  - intros. apply for_each_store_no_err.
Qed.

(** The refusal that [DeleteEntities] ignores. *)
Definition http_refusal (e : error) : bool :=
  Contains (Error e) "HTTP listeners cannot be deleted".

Lemma delete_task_cases e r r' o :
  delete_task e r = (r', o) →
  match o with
  | Ok (Some e') => e' = e
  | Ok None => ∃ w w' err, deleteEntity (Type_ e) (GetName e) w = (w', Err err) ∧
                           http_refusal err = true
  | Err err => http_refusal err = false
  | Panic => True
  end.
Proof.
  unfold delete_task, with_client. destruct (commandClient r) as [w|]; [|by intros [= <- <-]].
  destruct (deleteEntity _ _ w) as [w' [[]|err|]] eqn:E; try by intros [= <- <-].
  destruct (Contains _ _) eqn:Ec; intros [= <- <-]; [|done]. eauto 10.
Qed.

(** What a group of deletions reports: entities that were asked for, and all of
    them when no deletion failed or was refused. *)
Lemma group_delete t ns r r' dn err :
  group t delete_task ns r = (r', Some (dn, err)) →
  (∀ e, Some e ∈ dn → e ∈ ns) ∧
  (err = None → ∀ e, e ∈ ns → Some e ∈ dn ∨
    ∃ w w' err, deleteEntity (Type_ e) (GetName e) w = (w', Err err) ∧ http_refusal err = true).
Proof.
  intros H. setoid_rewrite <-(elem_of_perm t ns).
  eapply (go_each_rule delete_task (λ pre dn err _,
    (∀ e, Some e ∈ dn → e ∈ pre) ∧
    (err = None → ∀ e, e ∈ pre → Some e ∈ dn ∨
      ∃ w w' err, deleteEntity (Type_ e) (GetName e) w = (w', Err err) ∧ http_refusal err = true))
    (perm t ns) [] ([], None)) in H; simpl in *; [done| |].
  { split; [by intros e ?%not_elem_of_nil|by intros _ e ?%not_elem_of_nil]. }
  intros pre a dn' err' s _ [IH1 IH2].
  destruct (delete_task a s) as [s' o] eqn:E. apply delete_task_cases in E.
  destruct o as [[e'|]|e|]; [subst e'| | |done]; split; setoid_rewrite elem_of_app;
    setoid_rewrite list_elem_of_singleton.
  - intros e [He|[= ->]]; auto.
  - intros -> e [He| ->]; [|by auto]. destruct (IH2 eq_refl e He); auto.
  - intros e [He|?]; [auto|done].
  - intros -> e [He| ->]; [|by auto]. destruct (IH2 eq_refl e He); auto.
  - intros e' He. auto.
  - by destruct err'.
Qed.

Lemma Delete_spec t ns r r' :
  DeleteEntities t ns r = (r', Ok ()) →
  initialized r = true ∧ initialized r' = true ∧
  (∀ ty n, (ty, n) ∉ key <$> ns → cached r' ty n = cached r ty n) ∧
  (∀ e, e ∈ ns → cached r' (Type_ e) (GetName e) = None ∨
     ∃ w w' err, deleteEntity (Type_ e) (GetName e) w = (w', Err err) ∧ http_refusal err = true).
Proof.
  unfold DeleteEntities. destruct (initialized r) eqn:Hi; cbn [negb]; [|done].
  pose proof (group_frame t delete_task ns r delete_task_frame) as Hf.
  destruct (group t delete_task ns r) as [r1 [[dn err]|]] eqn:Hg; [|done].
  intros [-> Hst]%finish_ok. simpl in Hf. apply group_delete in Hg as [Hsub Hall].
  destruct (forget_all_spec (omap id dn) r1) as (r2 & Hrun & Hin & Hout & _ & Hr2).
  rewrite Hrun in Hst. injection Hst as ->.
  assert (∀ e, Some e ∈ dn → e ∈ omap id dn) as Hom.
  { intros e He. apply list_elem_of_omap. by exists (Some e). }
  split_and!; [done|by rewrite Hr2, Hf| |].
  - intros ty n Hno. rewrite Hout; [by rewrite (only_client_cached _ _ _ _ Hf)|].
    intros (e & Hk & He)%list_elem_of_fmap. apply Hno, list_elem_of_fmap. exists e.
    split; [done|]. apply Hsub. apply list_elem_of_omap in He as (x & Hx & Hid).
    destruct x; simplify_eq/=. done.
  - intros e He. destruct (Hall eq_refl e He) as [Hd|Hd]; [left|by right].
    apply Hin. apply list_elem_of_fmap. exists e. auto.
Qed.
End RouterFacts.

(** ** The requests of [EnsureEntities] and their order *)

Section Requests.
Context {W : Type} `{HC : !Client W} `{HS : !Sched}.
#[local] Existing Instance LogClient.
Implicit Types r : RouterState (W * list Message).

(** The request that creates an entity. *)
Definition create_of (e : RouterEntity) : Message :=
  create_request (Type_ e) (GetName e) (Encode e).

Lemma create_task_log e r w log :
  commandClient r = Some (w, log) →
  ∃ w', commandClient (create_task e r).1 = Some (w', log ++ [create_of e]).
Proof.
  intros Hc. unfold create_task, with_client. go_simpl. rewrite Hc.
  pose proof (createEntity_state (Type_ e) (GetName e) (Encode e) (w, log)) as Hst.
  simpl in Hst. unfold log_request in Hst. simpl in Hst.
  destruct (RequestWithTimeout _ w) as [w' o].
  destruct (createEntity _ _ _ (w, log)) as [wl [| |]]; simpl in *; subst wl; by eexists.
Qed.

Lemma go_each_log l acc r w log :
  commandClient r = Some (w, log) →
  ∃ w' k, commandClient (go_each create_task l acc r).1 = Some (w', log ++ (create_of <$> k)) ∧
          k `prefix_of` l.
Proof.
  revert acc r w log. induction l as [|e l IH]; intros acc r w log Hc; simpl.
  { exists w, []. rewrite app_nil_r. split; [done|apply prefix_nil]. }
  destruct (create_task_log e r w log Hc) as [w1 H1].
  destruct (create_task e r) as [r1 [b|err|]]; simpl in *;
    [destruct (IH (acc.1 ++ [b], acc.2) _ _ _ H1) as (w2 & k & H2 & Hp)
    |destruct (IH (acc.1, first_err acc.2 err) _ _ _ H1) as (w2 & k & H2 & Hp)
    |exists w1, [e]; split; [done|by apply prefix_cons, prefix_nil]];
    exists w2, (e :: k); (split; [|by apply prefix_cons]); by rewrite <-app_assoc in H2.
Qed.

Lemma group_log t es r w log :
  commandClient r = Some (w, log) →
  ∃ w' k, commandClient (group t create_task es r).1 = Some (w', log ++ (create_of <$> k)) ∧
          k ⊆ es.
Proof.
  intros Hc. destruct (go_each_log (perm t es) ([], None) r w log Hc) as (w' & k & H & [k' Hp]).
  exists w', k. split; [exact H|]. rewrite <-(perm_ok t es), Hp. intros x. rewrite elem_of_app. auto.
Qed.

Lemma create_rounds_log t es r w log :
  commandClient r = Some (w, log) →
  ∃ w' l0 l1,
    commandClient (create_rounds t (seq 0 maxOrder) es [] r).1
      = Some (w', log ++ (create_of <$> (l0 ++ l1))) ∧
    l0 ⊆ filter (λ e, Order e = 0) es ∧ l1 ⊆ filter (λ e, Order e = 1) es.
Proof.
  intros Hc. simpl.
  destruct (group_log (0 :: t) (filter (λ e, Order e = 0) es) r w log Hc) as (w1 & l0 & H0 & Hs0).
  destruct (group (0 :: t) _ _ r) as [r1 [[d0 [e|]]|]]; simpl in *.
  1,3: exists w1, l0, []; rewrite app_nil_r; split_and!; [done|done|apply list_subseteq_nil].
  destruct (group_log (1 :: t) (filter (λ e, Order e = 1) es) r1 _ _ H0) as (w2 & l1 & H1 & Hs1).
  exists w2, l0, l1. split_and!; [|done|done].
  rewrite fmap_app, app_assoc.
  by destruct (group (1 :: t) _ _ r1) as [r2 [[d1 [e|]]|]]; simpl in *.
Qed.

Lemma finish_store_log err l r w log :
  commandClient r = Some (w, log) →
  ∃ w', commandClient (finish err (for_each store_entity l) r).1 = Some (w', log).
Proof.
  intros Hc. unfold finish.
  assert (∃ w', commandClient (if isConnectionError err then Reset r else r) = Some (w', log))
    as [w' Hw].
  { case_match; [|eauto]. unfold Reset. rewrite Hc. case_match; simpl; eauto. }
  exists w'. rewrite <-Hw.
  transitivity (commandClient (for_each store_entity l
    (if isConnectionError err then Reset r else r)).1);
    [by destruct (for_each _ _ _) as [? []]|].
  apply (for_each_inv (λ r', commandClient r' = commandClient _)); [done|].
  intros e r1 _ <-. destruct (store_entity e r1) as [r2 o] eqn:E.
  apply store_entity_spec in E. destruct o; [|done|by destruct E as [-> _]].
  by destruct E as (_ & _ & ->).
Qed.

Lemma Ensure_requests t es r w log :
  commandClient r = Some (w, log) →
  ∃ w' l0 l1,
    commandClient (EnsureEntities t es r).1 = Some (w', log ++ (create_of <$> (l0 ++ l1))) ∧
    (∀ e, e ∈ l0 → Order e = 0) ∧ (∀ e, e ∈ l1 → Order e = 1) ∧
    (∀ e, e ∈ l0 ++ l1 → e ∈ es ∧ cached r (Type_ e) (GetName e) = None).
Proof.
  intros Hc.
  assert (∃ w' l0 l1, commandClient r = Some (w', log ++ (create_of <$> (l0 ++ l1))) ∧
    (∀ e, e ∈ l0 → Order e = 0) ∧ (∀ e, e ∈ l1 → Order e = 1) ∧
    (∀ e, e ∈ l0 ++ l1 → e ∈ es ∧ cached r (Type_ e) (GetName e) = None)) as Hnone.
  { exists w, [], []. simpl. rewrite app_nil_r. split_and!; [done|..]; by intros e ?%not_elem_of_nil. }
  unfold EnsureEntities. destruct (initialized r); cbn [negb]; [|exact Hnone].
  destruct (toCreate r es) as [todo| |] eqn:Htodo; [|exact Hnone..].
  apply toCreate_spec in Htodo as [Htodo _].
  destruct (create_rounds_log t todo r w log Hc) as (w1 & l0 & l1 & H1 & Hs0 & Hs1).
  assert (∀ e, e ∈ l0 → Order e = 0 ∧ e ∈ todo) as H0'.
  { by intros e [? ?]%Hs0%list_elem_of_filter. }
  assert (∀ e, e ∈ l1 → Order e = 1 ∧ e ∈ todo) as H1'.
  { by intros e [? ?]%Hs1%list_elem_of_filter. }
  assert (∀ e, e ∈ l0 ++ l1 → e ∈ es ∧ cached r (Type_ e) (GetName e) = None) as Hall.
  { intros e. rewrite <-Htodo, elem_of_app. naive_solver. }
  destruct (create_rounds _ _ _ _ r) as [r1 [[dn err]|]]; cbn [fst] in *.
  - destruct (finish_store_log err dn r1 _ _ H1) as [w2 H2]. exists w2, l0, l1. naive_solver.
  - exists w1, l0, l1. naive_solver.
Qed.
End Requests.
