(* ===== verification/Management.v ===== *)
(** The router's side of the management protocol, as the operator relies on it
    (AMQP management: QUERY, CREATE, READ and DELETE of named entities), and the
    refinement between the router and the operator's cache of it: whenever the
    router state claims to be initialized, it knows exactly the entities the
    router has. *)
From stdpp Require Import base gmap strings pretty list fin_maps.
From S2P Require Import Prelude Go Client RouterTypes Router RouterFacts.

(** ** Query results *)

(** A query result: the attribute names, and one row per entity with [nil] where
    the entity has no value. *)
Definition table (attrs : list string) (ms : list (gmap string Value)) : Value :=
  VMap [("attributeNames", VList (VString <$> attrs));
        ("results", VList ((λ m, VList (get_key m <$> attrs)) <$> ms))].

(** The attributes of [m] are among [attrs], and none of them is [nil]. *)
Definition fits (attrs : list string) (m : gmap string Value) : Prop :=
  ∀ k v, m !! k = Some v → k ∈ attrs ∧ v ≠ VNil.

Lemma row_data_spec attrs m acc :
  (∀ k v, m !! k = Some v → v ≠ VNil) →
  ∃ m', row_data (VString <$> attrs) (get_key m <$> attrs) acc = Ok m' ∧
        (∀ k v, k ∈ attrs → m !! k = Some v → m' !! k = Some v) ∧
        (∀ k, k ∉ attrs ∨ m !! k = None → m' !! k = acc !! k).
Proof.
  revert acc. induction attrs as [|a attrs IH]; intros acc Hnil; simpl.
  { exists acc. split_and!; [done|by intros k v ?%not_elem_of_nil|done]. }
  setoid_rewrite elem_of_cons.
  destruct (m !! a) as [v|] eqn:Ea.
  - assert (get_key m a = v) as -> by (unfold get_key; by rewrite Ea).
    destruct (IH (<[a := v]> acc) Hnil) as (m' & Hrow & Hin & Hout). exists m'. split_and!.
    + pose proof (Hnil a v Ea). by destruct v.
    + intros k v' Hk Hv. destruct (decide (k ∈ attrs)) as [|Hno]; [auto|].
      destruct Hk as [->|]; [|done]. rewrite Hout, lookup_insert_eq by auto. congruence.
    + intros k Hk. destruct (decide (k = a)) as [->|Hne].
      { destruct Hk as [Hk|]; [destruct Hk; auto|congruence]. }
      rewrite Hout, lookup_insert_ne; naive_solver.
  - assert (get_key m a = VNil) as -> by (unfold get_key; by rewrite Ea).
    destruct (IH acc Hnil) as (m' & Hrow & Hin & Hout). exists m'. split_and!; [done|..].
    + intros k v' [->|Hk] Hv; [congruence|auto].
    + intros k Hk. apply Hout. naive_solver.
Qed.

(** [createMapData] reads a query result back. *)
Lemma createMapData_table attrs ms :
  Forall (fits attrs) ms →
  createMapData (VString <$> attrs) ((λ m, VList (get_key m <$> attrs)) <$> ms) = Ok ms.
Proof.
  intros Hms. apply map_outcome_Ok, Forall2_fmap_l, Forall_Forall2_diag.
  eapply Forall_impl; [exact Hms|]. intros m Hm. simpl.
  destruct (row_data_spec attrs m ∅) as (m' & -> & Hin & Hout); [intros k v Hk; apply (Hm k v Hk)|].
  f_equal. apply map_eq. intros k. destruct (m !! k) as [v|] eqn:Ek.
  - apply Hin; [by apply (Hm k v)|done].
  - rewrite Hout by auto. apply lookup_empty.
Qed.

(** Decoding keeps the name. *)
Lemma Decode_name c m e : Decode c m = Ok e → get_string m "name" = Ok (GetName e).
Proof.
  unfold Decode. repeat (case_bool_decide; [subst|]); [..|done];
    intros He; apply outcome_bind_Ok in He as (name & Hn & He); rewrite Hn;
    repeat (apply outcome_bind_Ok in He as (? & _ & He)); by injection He as <-.
Qed.

(** ** The management node *)

(** What an answer says: the request was carried out, or it was turned down. *)
Definition accepted (resp : Message) : Prop :=
  ∃ code, getStatusCode resp = Ok code ∧ status_failed code = false.

Section Node.
Context {W : Type} `{HC : !Client W}.

(** The entities of the peer, with their attributes, by type and name. *)
Class Node := remote : W → RouterEntityType → gmap string (gmap string Value).

(** The documented behaviour of client and node, as far as an answer tells. Of a
    request that is not answered nothing is assumed, nor of one during which the
    connection was lost: the client counts its reconnects. *)
Class NodeLaws `{!Node} : Prop := {
  node_start w : remote (Start w) = remote w;
  node_stop w : remote (Stop w) = remote w;
  node_named w ty n m : remote w ty !! n = Some m → m !! "name" = Some (VString n);
  node_mono m w w' o :
    RequestWithTimeout m w = (w', o) → (ReconnectCount w ≤ ReconnectCount w')%Z;
  node_query w ty w' resp :
    RequestWithTimeout (query_request ty []) w = (w', Ok resp) →
    ReconnectCount w' = ReconnectCount w → accepted resp →
    ∃ attrs ms, Value_ resp = table attrs ms ∧ Forall (fits attrs) ms ∧
      ms ≡ₚ (map_to_list (remote w ty)).*2 ∧ remote w' = remote w;
  node_create w ty n d w' resp :
    RequestWithTimeout (create_request ty n d) w = (w', Ok resp) →
    ReconnectCount w' = ReconnectCount w →
    getStatusCode resp ≠ Ok 404%Z ∧
    (accepted resp → ∀ ty' n', is_Some (remote w' ty' !! n') ↔
       (ty', n') = (ty, n) ∨ is_Some (remote w ty' !! n'));
  node_delete w ty n w' resp :
    RequestWithTimeout (delete_request ty n) w = (w', Ok resp) →
    ReconnectCount w' = ReconnectCount w →
    (accepted resp ∨ getStatusCode resp = Ok 404%Z → ∀ ty' n', is_Some (remote w' ty' !! n') ↔
       (ty', n') ≠ (ty, n) ∧ is_Some (remote w ty' !! n')) ∧
    (¬ accepted resp → remote w' = remote w);
  node_delete_lost w ty n w' e :
    RequestWithTimeout (delete_request ty n) w = (w', Err e) → http_refusal e = false;
  node_read w ty n w' resp :
    RequestWithTimeout (read_request ty n) w = (w', Ok resp) →
    ReconnectCount w' = ReconnectCount w → remote w' = remote w;
}.
End Node.
Arguments Node : clear implicits.

(** ** The cache refines the node *)

Section Coherence.
Context {W : Type} `{HC : !Client W} `{HS : !Sched} `{HN : !Node W} `{HL : !NodeLaws}.
Implicit Types r : RouterState W.

(** The entities of type [ty] that the cache and the node know. *)
Definition agree (ty : RouterEntityType) (w : W) r : Prop :=
  ∀ n, is_Some (cached r ty n) ↔ is_Some (remote w ty !! n).

(** An initialized router state knows exactly the entities of the node, as long
    as the connection it was read over has not been lost. *)
Definition coherent r : Prop :=
  ∀ w, commandClient r = Some w → initialized r = true →
  (reconnectCount r ≤ ReconnectCount w)%Z ∧
  (reconnectCount r = ReconnectCount w → ∀ ty, ty ∈ entityTypes → agree ty w r).

(** [w'] comes after [w], and if the connection held, [P] is true. *)
Definition held (w w' : W) (P : Prop) : Prop :=
  (ReconnectCount w ≤ ReconnectCount w')%Z ∧ (ReconnectCount w' = ReconnectCount w → P).

Lemma held_refl w (P : Prop) : P → held w w P.
Proof. by split. Qed.

Lemma held_trans w1 w2 w3 (P Q R : Prop) :
  held w1 w2 P → held w2 w3 Q → (P → Q → R) → held w1 w3 R.
Proof.
  intros [H1 HP] [H2 HQ] HR. split; [lia|]. intros. apply HR; [apply HP|apply HQ]; lia.
Qed.

Lemma createEntity_ok ty n d w w' :
  createEntity ty n d w = (w', Ok ()) →
  held w w' (∀ ty' n', is_Some (remote w' ty' !! n') ↔
    (ty', n') = (ty, n) ∨ is_Some (remote w ty' !! n')).
Proof.
  unfold createEntity, doRequest, lift. intros H.
  apply prog_bind_Ok in H as (resp & w1 & Hreq & H).
  apply prog_bind_Ok in H as (code & w2 & [= <- Hcode] & H).
  destruct (status_failed code && negb (code =? 404)%Z) eqn:Ef; [done|]. injection H as <-.
  split; [by eapply node_mono|]. intros Hcount.
  apply node_create in Hreq as [H404 Hacc]; [|done].
  apply Hacc. exists code. split; [done|].
  apply andb_false_iff in Ef as [|Ef]; [done|].
  apply negb_false_iff, Z.eqb_eq in Ef. congruence.
Qed.

Lemma deleteEntity_cases ty n w w' o :
  deleteEntity ty n w = (w', o) →
  match o with
  | Ok _ => held w w' (∀ ty' n', is_Some (remote w' ty' !! n') ↔
              (ty', n') ≠ (ty, n) ∧ is_Some (remote w ty' !! n'))
  | Err e => http_refusal e = true → held w w' (remote w' = remote w)
  | Panic => True
  end.
Proof.
  unfold deleteEntity, doRequest, lift. go_simpl.
  destruct (RequestWithTimeout _ w) as [w1 [resp|e|]] eqn:Hreq.
  - pose proof (node_mono _ _ _ _ Hreq) as Hm.
    pose proof (node_delete _ _ _ _ _ Hreq) as Hd.
    destruct (getStatusCode resp) as [code|e|] eqn:Hcode; intros Ho.
    + destruct (status_failed code && negb (code =? 404)%Z) eqn:Ef; simplify_eq.
      * intros _. split; [done|]. intros [_ Hkeep]%Hd. apply Hkeep.
        intros (c & Hc & Hf). rewrite Hcode in Hc. simplify_eq. by rewrite Hf in Ef.
      * split; [done|]. intros [Hdel _]%Hd. apply Hdel.
        apply andb_false_iff in Ef as [Ef|Ef]; [left; by exists code|right].
        apply negb_false_iff, Z.eqb_eq in Ef. congruence.
    + simplify_eq. intros _. split; [done|]. intros [_ Hkeep]%Hd. apply Hkeep.
      intros (c & Hc & _). congruence.
    + by simplify_eq.
  - intros [= <- <-]. apply node_delete_lost in Hreq. congruence.
  - by intros [= <- <-].
Qed.

Lemma readEntity_ok ty n w w' e :
  readEntity ty n w = (w', Ok e) → held w w' (remote w' = remote w).
Proof.
  unfold readEntity, doRequest, lift. intros H.
  apply prog_bind_Ok in H as (resp & w1 & Hreq & H).
  apply prog_bind_Ok in H as (code & w2 & [= <- Hcode] & H).
  assert (w' = w1) as ->.
  { destruct (status_failed code); [done|].
    by apply prog_bind_Ok in H as (v & w3 & [= <- _] & [= <- _]). }
  split; [by eapply node_mono|]. by eapply node_read.
Qed.

(** What [readEntities] answers is what the node has, by name. *)
Lemma readEntities_ok ty w w' m :
  readEntities ty w = (w', Ok m) →
  held w w' (remote w' = remote w ∧ ∀ n, is_Some (m !! n) ↔ is_Some (remote w ty !! n)).
Proof.
  unfold readEntities, queryEntities, doRequest, lift. intros H.
  apply prog_bind_Ok in H as (v & w1 & Hq & H).
  apply prog_bind_Ok in Hq as (resp & w2 & Hreq & Hq).
  apply prog_bind_Ok in Hq as (code & w3 & [= <- Hcode] & Hq).
  destruct (status_failed code) eqn:Hf; [done|]. injection Hq as <- Hv.
  apply prog_bind_Ok in H as (names & w4 & [= <- Hnames] & H).
  apply prog_bind_Ok in H as (rows & w5 & [= <- Hrows] & H).
  apply prog_bind_Ok in H as (data & w6 & [= <- Hdata] & H).
  apply prog_bind_Ok in H as (es & w7 & [= <- Hes] & H). injection H as <- <-.
  split; [by eapply node_mono|]. intros Hcount.
  destruct (node_query _ _ _ _ Hreq Hcount) as (attrs & ms & Hval & Hfit & Hms & Hrem);
    [by exists code|].
  unfold response_map in Hv. rewrite Hval in Hv. injection Hv as <-.
  injection Hnames as <-. injection Hrows as <-.
  assert (Ok data = Ok ms) as [= ->] by (rewrite <-Hdata; by apply createMapData_table).
  split; [done|]. intros n. split.
  - intros [e [Hn He]%index_entities_keyed].
    destruct (map_outcome_elem _ _ _ _ Hes He) as (d & Hd & Hdec).
    rewrite Hms in Hd. apply list_elem_of_fmap in Hd as ([k d'] & -> & Hkd).
    apply elem_of_map_to_list in Hkd. simpl in *.
    pose proof (node_named _ _ _ _ Hkd) as Hname. apply Decode_name in Hdec.
    unfold get_string, get_key in Hdec. rewrite Hname in Hdec. simpl in Hdec.
    assert (k = n) as -> by congruence. by eexists.
  - intros [d Hd].
    assert (d ∈ ms) as Hin.
    { rewrite Hms. apply list_elem_of_fmap. exists (n, d). by rewrite elem_of_map_to_list. }
    apply map_outcome_Ok in Hes.
    apply list_elem_of_lookup in Hin as [i Hi].
    destruct (Forall2_lookup_l _ _ _ _ _ Hes Hi) as (e & He & Hdec).
    apply Decode_name in Hdec. pose proof (node_named _ _ _ _ Hd) as Hname.
    unfold get_string, get_key in Hdec. rewrite Hname in Hdec. simpl in Hdec.
    injection Hdec as ->. apply index_entities_elem. by eapply list_elem_of_lookup_2.
Qed.

(** A group without error leaves the client in a state that [P] relates to the
    one it found, when every goroutine that reports a value does. *)
Lemma group_held {A B} t (f : A → prog (RouterState W) B) (P : W → list B → W → Prop) l r w r' dn :
  (∀ w, P w [] w) →
  (∀ a r w r' b w0 dn, commandClient r = Some w → f a r = (r', Ok b) →
    ∃ w', commandClient r' = Some w' ∧ held w w' (P w0 dn w → P w0 (dn ++ [b]) w')) →
  commandClient r = Some w →
  group t f l r = (r', Some (dn, None)) →
  ∃ w', commandClient r' = Some w' ∧ held w w' (P w dn w').
Proof.
  intros Hnil Hf Hc H.
  eapply (go_each_rule f (λ _ dn err r', err = None → ∃ w',
    commandClient r' = Some w' ∧ held w w' (P w dn w')) (perm t l) [] ([], None)) in H;
    [exact H| | |done].
  { intros _. exists w. split; [done|]. by apply held_refl. }
  intros pre a dn' err s _ IH.
  destruct (f a s) as [s' [b|e'|]] eqn:E; [| |done].
  - intros ->. destruct (IH eq_refl) as (w1 & Hw1 & Hh1).
    destruct (Hf a s w1 s' b w dn' Hw1 E) as (w2 & Hw2 & Hh2).
    exists w2. split; [done|]. eapply held_trans; [exact Hh1|exact Hh2|]. auto.
  - by destruct err.
Qed.

Lemma group_create_remote t es r w r' dn :
  commandClient r = Some w →
  group t create_task es r = (r', Some (dn, None)) →
  ∃ w', commandClient r' = Some w' ∧ held w w' (∀ ty n,
    is_Some (remote w' ty !! n) ↔ is_Some (remote w ty !! n) ∨ (ty, n) ∈ key <$> dn).
Proof.
  apply (group_held t create_task (λ w dn w', ∀ ty n,
    is_Some (remote w' ty !! n) ↔ is_Some (remote w ty !! n) ∨ (ty, n) ∈ key <$> dn)).
  { intros w1 ty n. simpl. rewrite elem_of_nil. tauto. }
  intros e s w1 s' b w0 dn' Hw1. unfold create_task, with_client. go_simpl. rewrite Hw1.
  destruct (createEntity _ _ _ w1) as [w2 [[]| |]] eqn:E; [|done|done]. intros [= <- <-].
  exists w2. split; [done|]. apply createEntity_ok in E as [Hm E]. split; [done|].
  intros Hcount Hrem ty n. rewrite E, Hrem, fmap_app, elem_of_app by done. simpl.
  rewrite list_elem_of_singleton. unfold key. tauto.
Qed.

Lemma create_rounds_remote t orders es c r w r' dn :
  commandClient r = Some w →
  create_rounds t orders es c r = (r', Some (dn, None)) →
  ∃ w' add, dn = c ++ add ∧ commandClient r' = Some w' ∧ held w w' (∀ ty n,
    is_Some (remote w' ty !! n) ↔ is_Some (remote w ty !! n) ∨ (ty, n) ∈ key <$> add).
Proof.
  revert c r w. induction orders as [|o os IH]; intros c r w Hc; simpl.
  { intros [= <- <-]. exists w, []. rewrite app_nil_r. split_and!; [done..|].
    apply held_refl. intros. simpl. rewrite elem_of_nil. tauto. }
  destruct (group _ _ _ r) as [r1 [[d1 [e|]]|]] eqn:Hg; try done.
  destruct (group_create_remote _ _ _ _ _ _ Hc Hg) as (w1 & Hw1 & H1).
  intros H. destruct (IH _ _ _ Hw1 H) as (w2 & add & -> & Hw2 & H2).
  exists w2, (d1 ++ add). split_and!; [by rewrite app_assoc|done|].
  eapply held_trans; [exact H1|exact H2|]. intros Hr1 Hr2 ty n.
  rewrite Hr2, Hr1, fmap_app, elem_of_app. tauto.
Qed.

(** The end of an operation that succeeds: the count of reconnects stays, and the
    cache changes the way the node did. *)
Lemma coherent_step r w r' w' (P : Prop) :
  commandClient r = Some w → commandClient r' = Some w' →
  initialized r = true → reconnectCount r' = reconnectCount r →
  held w w' P → (P → (∀ ty, ty ∈ entityTypes → agree ty w r) →
                 ∀ ty, ty ∈ entityTypes → agree ty w' r') →
  coherent r → coherent r'.
Proof.
  intros Hw Hw' Hi Hcnt [Hm HP] Hag Hco w1 Hw1 _.
  assert (w1 = w') as -> by congruence. destruct (Hco w Hw Hi) as [Hle Hco'].
  split; [lia|]. intros Heq. apply Hag; [apply HP; lia|]. apply Hco'. lia.
Qed.

Lemma Ensure_coherent t es r r' o :
  wf r → EnsureEntities t es r = (r', o) → o ≠ Panic → coherent r → coherent r'.
Proof.
  intros Hwf Hrun Hnp Hco. destruct o as [[]|e|]; [| |done].
  2: { destruct (Ensure_failed _ _ _ _ _ Hwf Hrun) as [->|Hni]; [done|].
       intros w _ Hi. congruence. }
  unfold EnsureEntities in Hrun. destruct (initialized r) eqn:Hi; cbn [negb] in Hrun; [|done].
  destruct (toCreate r es) as [todo| |] eqn:Htodo; [|done|done].
  pose proof (create_rounds_frame t (seq 0 maxOrder) todo [] r) as Hf.
  destruct (create_rounds _ _ _ _ r) as [r1 [[dn err]|]] eqn:Hr; [|done]. simpl in Hf.
  apply finish_ok in Hrun as [-> Hst].
  destruct (wf_client _ Hwf) as [w Hw].
  destruct (create_rounds_remote _ _ _ _ _ _ _ _ Hw Hr) as (w1 & add & -> & Hw1 & Hrem).
  apply store_all_spec in Hst as (Hin & Hout & _ & Hr').
  eapply coherent_step; [exact Hw| |done| |exact Hrem| |done]; [by rewrite Hr'|by rewrite Hr', Hf|].
  clear Hrem. intros Hrem Hag ty Hty n.
  rewrite Hrem, <-(Hag ty Hty n), <-(only_client_cached _ _ _ _ Hf).
  destruct (decide ((ty, n) ∈ key <$> add)) as [He|Hno].
  - apply list_elem_of_fmap in He as (e & Hk & He). unfold key in Hk. simplify_eq.
    destruct (Hin e He) as (e' & _ & _ & ->). split; [|eauto].
    intros _. right. apply list_elem_of_fmap. by exists e.
  - rewrite Hout; [tauto|]. intros e He Hk. apply Hno, list_elem_of_fmap. by exists e.
Qed.

Lemma group_delete_remote t ns r w r' dn :
  commandClient r = Some w →
  group t delete_task ns r = (r', Some (dn, None)) →
  ∃ w', commandClient r' = Some w' ∧ held w w' (∀ ty n,
    is_Some (remote w' ty !! n) ↔
    is_Some (remote w ty !! n) ∧ (ty, n) ∉ key <$> omap id dn).
Proof.
  apply (group_held t delete_task (λ w dn w', ∀ ty n,
    is_Some (remote w' ty !! n) ↔ is_Some (remote w ty !! n) ∧ (ty, n) ∉ key <$> omap id dn)).
  { intros w1 ty n. simpl. rewrite elem_of_nil. tauto. }
  intros e s w1 s' b w0 dn' Hw1. unfold delete_task, with_client. rewrite Hw1.
  destruct (deleteEntity _ _ w1) as [w2 o2] eqn:Ed. apply deleteEntity_cases in Ed.
  destruct o2 as [[]|e'|]; [| |done].
  - intros [= <- <-]. exists w2. split; [done|]. destruct Ed as [Hm Ed]. split; [done|].
    intros Hcount Hrem ty n.
    rewrite Ed, Hrem, omap_app, fmap_app, elem_of_app by done. simpl.
    rewrite list_elem_of_singleton. unfold key. tauto.
  - destruct (Contains _ _) eqn:Ec; [|done]. intros [= <- <-].
    exists w2. split; [done|]. destruct (Ed Ec) as [Hm Ed']. split; [done|].
    intros Hcount Hrem ty n. rewrite Ed' by done.
    rewrite Hrem, omap_app. simpl. by rewrite app_nil_r.
Qed.

Lemma Delete_coherent t ns r r' o :
  wf r → DeleteEntities t ns r = (r', o) → o ≠ Panic → coherent r → coherent r'.
Proof.
  intros Hwf. unfold DeleteEntities.
  destruct (initialized r) eqn:Hi; cbn [negb]; [|by intros [= <- <-]].
  pose proof (group_frame t delete_task ns r delete_task_frame) as Hf.
  pose proof (group_wf t delete_task ns r delete_task_wf Hwf) as Hwf1.
  destruct (group t delete_task ns r) as [r1 [[dn err]|]] eqn:Hg; [|by intros [= <- <-]].
  simpl in Hf, Hwf1.
  destruct (forget_all_spec (omap id dn)
    (if isConnectionError err then Reset r1 else r1)) as (r2 & Hfg & Hin & Hout & _ & Hr2).
  unfold finish. rewrite Hfg. destruct err as [e|]; simpl in *; intros [= <- <-] _.
  { intros _ w _ Hini. rewrite Hr2 in Hini. simpl in Hini.
    rewrite Reset_initialized in Hini; [done|apply Hwf1]. }
  destruct (wf_client _ Hwf) as [w Hw].
  destruct (group_delete_remote _ _ _ _ _ _ Hw Hg) as (w1 & Hw1 & Hrem).
  eapply (coherent_step r w r2 w1 _ Hw); [by rewrite Hr2|done|by rewrite Hr2, Hf|exact Hrem|].
  clear Hrem. intros Hrem Hag ty Hty n.
  rewrite Hrem, <-(Hag ty Hty n), <-(only_client_cached _ _ _ _ Hf).
  destruct (decide ((ty, n) ∈ key <$> omap id dn)) as [He|Hno].
  - rewrite Hin by done. split; [by intros []|tauto].
  - rewrite Hout by done. tauto.
Qed.

Lemma Read_coherent t es r r' o :
  wf r → ReadEntities t es r = (r', o) → o ≠ Panic → coherent r → coherent r'.
Proof.
  intros Hwf. unfold ReadEntities.
  destruct (initialized r) eqn:Hi; cbn [negb]; [|by intros [= <- <-]].
  set (f := λ e, with_client (readEntity (Type_ e) (GetName e))).
  pose proof (group_frame t f es r (λ e r, with_client_frame _ r)) as Hf.
  pose proof (group_wf t f es r (λ e r, with_client_wf _ r) Hwf) as Hwf1.
  destruct (group t f es r) as [r1 [[dn [err|]]|]] eqn:Hg; [| |by intros [= <- <-]];
    simpl in Hf, Hwf1; intros [= <- <-] _; simpl.
  { intros _ w _ Hini. rewrite Reset_initialized in Hini; [done|apply Hwf1]. }
  destruct (wf_client _ Hwf) as [w Hw].
  destruct (group_held t f (λ w _ w', remote w' = remote w) es r w r1 dn)
    as (w1 & Hw1 & Hrem); [done| |done|done|].
  - intros e s w1 s' b w0 dn' Hw1. unfold f, with_client. rewrite Hw1.
    destruct (readEntity _ _ w1) as [w2 o2] eqn:E. intros [= <- ->].
    exists w2. split; [done|]. apply readEntity_ok in E as [Hm E]. split; [done|].
    intros ? <-. by apply E.
  - eapply (coherent_step r w r1 w1 _ Hw Hw1); [done|by rewrite Hf|exact Hrem|].
    clear Hrem. intros Hrem Hag ty Hty n. rewrite Hrem, <-(Hag ty Hty n).
    by rewrite (only_client_cached _ _ _ _ Hf).
Qed.

(** Reading one type brings the cache in step with the node for that type. *)
Lemma load_entities_ok ty r w r' :
  commandClient r = Some w → load_entities ty r = (r', Ok ()) →
  reconnectCount r' = reconnectCount r ∧ initialized r' = initialized r ∧
  ∃ w', commandClient r' = Some w' ∧ held w w' (remote w' = remote w ∧
    ∀ ty', ty' = ty ∨ agree ty' w r → agree ty' w r').
Proof.
  intros Hw. unfold load_entities, with_client, modify. go_simpl. rewrite Hw.
  destruct (readEntities ty w) as [w1 [m| |]] eqn:E; [|done|done]. intros [= <-].
  simpl. split_and!; [done|done|]. exists w1. split; [done|].
  apply readEntities_ok in E as [Hm E]. split; [done|].
  intros [Hrem Hag]%E. split; [done|]. intros ty' Hor n.
  rewrite cached_set_entities, lookup_insert. case_decide as Hd.
  - subst ty'. simpl. apply Hag.
  - destruct Hor as [->|Hor]; [done|]. apply Hor.
Qed.

Lemma load_all_ok l r w r' :
  commandClient r = Some w → for_each load_entities l r = (r', Ok ()) →
  reconnectCount r' = reconnectCount r ∧ initialized r' = initialized r ∧
  ∃ w', commandClient r' = Some w' ∧ held w w' (remote w' = remote w ∧
    ∀ ty', ty' ∈ l ∨ agree ty' w r → agree ty' w r').
Proof.
  revert r w. induction l as [|ty l IH]; intros r w Hw; simpl.
  { intros [= <-]. split_and!; [done..|]. exists w. split; [done|]. apply held_refl.
    split; [done|]. intros ty' [?%not_elem_of_nil|?]; done. }
  intros ([] & r1 & H1 & H2)%prog_bind_Ok.
  destruct (load_entities_ok ty r w r1 Hw H1) as (Hc1 & Hi1 & w1 & Hw1 & Hh1).
  destruct (IH r1 w1 Hw1 H2) as (Hc2 & Hi2 & w2 & Hw2 & Hh2).
  split_and!; [congruence..|]. exists w2. split; [done|].
  eapply held_trans; [exact Hh1|exact Hh2|]. intros [Hr1 Ha1] [Hr2 Ha2].
  split; [congruence|]. intros ty' Hor n. unfold agree in *. rewrite Hr1 in Ha2.
  apply Ha2. rewrite elem_of_cons in Hor.
  destruct Hor as [[->|Hl]|Hag]; [right|by left|right]; apply Ha1; auto.
Qed.

Lemma Initialize_coherent next r r' o :
  wf r → Initialize next r = (r', o) → o ≠ Panic → coherent r → coherent r'.
Proof.
  intros Hwf. rewrite Initialize_eq.
  destruct (wf_client _ Hwf) as [w Hw]. rewrite Hw. cbn zeta iota.
  set (r1 := if bool_decide _ then _ else _).
  assert (commandClient r1 = Some w ∧ (initialized r1 = true → coherent r → coherent r1))
    as [Hw1 Hr1].
  { unfold r1. case_bool_decide; by split. }
  clearbody r1. destruct (initialized r1) eqn:Hi1; [by intros [= <- <-] _; auto|].
  set (r2 := set_reconnectCount _ _). intros Hrun Hnp _.
  pose proof (load_all_ok entityTypes r2 w) as Hload.
  assert (∀ r3 o3, for_each load_entities entityTypes r2 = (r3, o3) → initialized r3 = false)
    as Hini.
  { intros r3 o3 E. replace r3 with (for_each load_entities entityTypes r2).1 by (by rewrite E).
    apply (for_each_inv (λ r, initialized r = false)); [done|].
    intros ty r4 _ H4. unfold load_entities, modify. go_simpl.
    pose proof (with_client_frame (readEntities ty) r4) as Hf%only_client_initialized.
    destruct (with_client _ r4) as [r5 []]; simpl in *; congruence. }
  destruct (for_each load_entities entityTypes r2) as [r3 [[]|e|]] eqn:E; [|..|by simplify_eq].
  - injection Hrun as <- <-. destruct (Hload r3 Hw1 eq_refl) as (Hc & _ & w3 & Hw3 & [Hm Hh]).
    intros w' Hw' _. simpl in *. assert (w' = w3) as -> by congruence.
    rewrite Hc. simpl. split; [done|]. intros Heq ty Hty n.
    destruct (Hh (eq_sym Heq)) as [Hrem Hag]. rewrite Hrem. apply (Hag ty). auto.
  - injection Hrun as <- <-. intros w' _ Hi. rewrite (Hini r3 (Err e)) in Hi; done.
Qed.

Lemma Reset_coherent r : wf r → coherent (Reset r).
Proof. intros Hwf w _ Hi. rewrite Reset_initialized in Hi; [done|apply Hwf]. Qed.

(** ** Every reachable router state *)

(** The operations of the operator on a router state, and what the world does to
    it: the connection is lost and regained, and the router may have been
    restarted in between. *)
Inductive step : RouterState W → RouterState W → Prop :=
  | step_initialize next r r' o :
      Initialize next r = (r', o) → o ≠ Panic → step r r'
  | step_ensure t es r r' o :
      EnsureEntities t es r = (r', o) → o ≠ Panic → step r r'
  | step_delete t ns r r' o :
      DeleteEntities t ns r = (r', o) → o ≠ Panic → step r r'
  | step_read t es r r' o :
      ReadEntities t es r = (r', o) → o ≠ Panic → step r r'
  | step_reset r : step r (Reset r)
  | step_reconnect r w w' :
      commandClient r = Some w → (ReconnectCount w < ReconnectCount w')%Z →
      step r (set_commandClient (Some w') r).

Lemma step_inv r r' : step r r' → wf r ∧ coherent r → wf r' ∧ coherent r'.
Proof.
  destruct 1 as [next r r' o H Hn|t es r r' o H Hn|t ns r r' o H Hn|t es r r' o H Hn|r|r w w' Hw Hlt];
    intros [Hwf Hco]; split.
  - pose proof (Initialize_wf next r Hwf) as Hw. by rewrite H in Hw.
  - by eapply Initialize_coherent.
  - pose proof (Ensure_wf t es r Hwf) as Hw. by rewrite H in Hw.
  - by eapply Ensure_coherent.
  - pose proof (Delete_wf t ns r Hwf) as Hw. by rewrite H in Hw.
  - by eapply Delete_coherent.
  - pose proof (Read_wf t es r Hwf) as Hw. by rewrite H in Hw.
  - by eapply Read_coherent.
  - by apply Reset_wf.
  - by apply Reset_coherent.
  - destruct Hwf. by split.
  - intros w1 [= <-] Hi. simpl in *. destruct (Hco w Hw Hi). split; lia.
Qed.

Lemma reachable_inv h p tls r :
  rtc step (NewRouterState h p tls) r → wf r ∧ coherent r.
Proof.
  intros H. remember (NewRouterState h p tls) as r0 eqn:Hr0.
  assert (wf r0 ∧ coherent r0) as H0.
  { subst. split; [apply New_wf|]. by intros w _ Hi. }
  clear Hr0. induction H as [|r1 r2 r3 H1 _ IH]; [done|]. apply IH. by eapply step_inv.
Qed.
End Coherence.
