(* ===== verification/RouterSim.v ===== *)
(** An executable management node: a router that keeps its entities in memory
    and answers the four management requests. It discharges the laws the
    refinement of [Management] assumes, and the concrete runs of the development
    are run against it. *)
From stdpp Require Import base gmap strings pretty list fin_maps.
From S2P Require Import Prelude Go Client RouterTypes Router RouterFacts Management.

(** The router behind a client: its entities, and the reconnects the client has
    counted. *)
Record MemRouter := {
  mem : gmap RouterEntityType (gmap string (gmap string Value));
  count : Z;
}.

Definition is_nil (v : Value) : bool := match v with VNil => true | _ => false end.

(** The attributes of an entity: its name, and the values that are set. *)
Definition attributes (n : string) (m : gmap string Value) : gmap string Value :=
  <["name" := VString n]> (filter (λ kv, is_nil kv.2 = false) m).

Definition entities_of (w : MemRouter) (ty : RouterEntityType)
    : gmap string (gmap string Value) :=
  map_imap (λ n m, Some (attributes n m)) (default ∅ (mem w !! ty)).

Definition reply (code : Z) (body : Value) : Message := {|
  ApplicationProperties := {[ "statusCode" := VInt32 code ]};
  Value_ := body |}.

Definition string_of (v : Value) : string := match v with VString s => s | _ => "" end.

(** Every attribute name that occurs. *)
Definition attribute_names (ms : list (gmap string Value)) : list string :=
  elements (⋃ ((λ m : gmap string Value, dom m) <$> ms) : gset string).

Definition put (ty : RouterEntityType) (n : string) (m : gmap string Value) (w : MemRouter) :=
  {| mem := <[ty := <[n := m]> (default ∅ (mem w !! ty))]> (mem w); count := count w |}.

Definition remove (ty : RouterEntityType) (n : string) (w : MemRouter) :=
  {| mem := alter (delete n) ty (mem w); count := count w |}.

Definition serve (req : Message) : prog MemRouter Message := λ w,
  let props := ApplicationProperties req in
  let op := string_of (get_key props "operation") in
  let ty := string_of (get_key props "type") in
  let n := string_of (get_key props "name") in
  if bool_decide (op = "QUERY") then
    let ms := (map_to_list (entities_of w (string_of (get_key props "entityType")))).*2 in
    (w, Ok (reply 200 (table (attribute_names ms) ms)))
  else if bool_decide (op = "CREATE") then
    match entities_of w ty !! n with
    | Some _ => (w, Ok (reply 400 (VString "duplicate value for unique attribute 'name'")))
    | None =>
        let m := match Value_ req with VMap l => list_to_map l | _ => ∅ end in
        (put ty n m w, Ok (reply 201 (VMap (map_to_list m))))
    end
  else if bool_decide (op = "READ") then
    match entities_of w ty !! n with
    | Some m => (w, Ok (reply 200 (VMap (map_to_list m))))
    | None => (w, Ok (reply 404 VNil))
    end
  else
    match entities_of w ty !! n with
    | Some _ => (remove ty n w, Ok (reply 204 VNil))
    | None => (w, Ok (reply 404 VNil))
    end.

#[global] Instance MemClient : Client MemRouter := {|
  NewCommandClient _ _ _ _ := {| mem := ∅; count := 0 |};
  Start w := {| mem := mem w; count := 0 |};
  Stop w := w;
  ReconnectCount := count;
  RequestWithTimeout := serve;
|}.

#[global] Instance MemNode : Node MemRouter := entities_of.

Lemma entities_of_lookup w ty n :
  entities_of w ty !! n = attributes n <$> (default ∅ (mem w !! ty) !! n).
Proof. unfold entities_of. rewrite map_lookup_imap. by destruct (_ !! n). Qed.

Lemma attributes_fits n m k v : attributes n m !! k = Some v → v ≠ VNil.
Proof.
  unfold attributes. rewrite lookup_insert. case_decide; [by intros [= <-]|].
  intros [_ Hn]%map_lookup_filter_Some. by destruct v.
Qed.

Lemma attribute_names_fits (ms : list (gmap string Value)) :
  Forall (λ m : gmap string Value, ∀ k v, m !! k = Some v → v ≠ VNil) ms →
  Forall (fits (attribute_names ms)) ms.
Proof.
  intros Hms. apply Forall_forall. intros m Hm k v Hk. split.
  - unfold attribute_names. apply elem_of_elements, elem_of_union_list.
    exists (dom m). split; [apply list_elem_of_fmap; eauto|]. apply elem_of_dom. eauto.
  - rewrite Forall_forall in Hms. by eapply Hms.
Qed.

Lemma put_spec ty n m w ty' n' :
  is_Some (entities_of (put ty n m w) ty' !! n') ↔
  (ty', n') = (ty, n) ∨ is_Some (entities_of w ty' !! n').
Proof.
  rewrite !entities_of_lookup, !fmap_is_Some. simpl. rewrite lookup_insert. case_decide as Ht.
  - subst ty'. simpl. rewrite lookup_insert. case_decide as Hn.
    + subst n'. split; [by left|by eexists].
    + split; [by right|]. intros [[=]|?]; [congruence|done].
  - split; [by right|]. intros [[=]|?]; [congruence|done].
Qed.

Lemma remove_spec ty n w ty' n' :
  is_Some (entities_of (remove ty n w) ty' !! n') ↔
  (ty', n') ≠ (ty, n) ∧ is_Some (entities_of w ty' !! n').
Proof.
  rewrite !entities_of_lookup, !fmap_is_Some. simpl. rewrite lookup_alter. case_decide as Ht.
  - subst ty'. destruct (mem w !! ty) as [x|]; simpl.
    + rewrite lookup_delete. case_decide as Hn.
      * subst n'. split; [by intros []|]. by intros [[] _].
      * split; [intros; split; [congruence|done]|by intros []].
    + rewrite lookup_empty. split; [by intros []|by intros [_ []]].
  - split; [intros; split; [congruence|done]|by intros []].
Qed.

Lemma serve_create ty n d w :
  serve (create_request ty n d) w =
  match entities_of w ty !! n with
  | Some _ => (w, Ok (reply 400 (VString "duplicate value for unique attribute 'name'")))
  | None => (put ty n (list_to_map (map_to_list d)) w,
             Ok (reply 201 (VMap (map_to_list (list_to_map (map_to_list d) : gmap string Value)))))
  end.
Proof. reflexivity. Qed.

Lemma serve_delete ty n w :
  serve (delete_request ty n) w =
  match entities_of w ty !! n with
  | Some _ => (remove ty n w, Ok (reply 204 VNil))
  | None => (w, Ok (reply 404 VNil))
  end.
Proof. reflexivity. Qed.

Lemma serve_read ty n w : (serve (read_request ty n) w).1 = w.
Proof.
  change (serve (read_request ty n) w) with
    match entities_of w ty !! n with
    | Some m => (w, Ok (reply 200 (VMap (map_to_list m))))
    | None => (w, Ok (reply 404 VNil))
    end.
  by destruct (entities_of w ty !! n).
Qed.

Lemma getStatusCode_reply code body : getStatusCode (reply code body) = Ok code.
Proof. reflexivity. Qed.

#[global] Instance MemLaws : NodeLaws (W := MemRouter).
Proof.
  split.
  - done.
  - done.
  - intros w ty n m. unfold remote, MemNode. rewrite entities_of_lookup.
    destruct (_ !! n); [|done]. intros [= <-]. apply lookup_insert_eq.
  - intros m w w' o. simpl. unfold serve. repeat case_match; intros; simplify_eq/=; lia.
  - intros w ty w' resp Hreq _ _. injection Hreq as <- <-. simpl.
    eexists _, _. split_and!; [done| |done|done]. apply attribute_names_fits, Forall_forall.
    intros m Hm. apply list_elem_of_fmap in Hm as ([k m'] & -> & Hk%elem_of_map_to_list).
    simpl in *. rewrite entities_of_lookup in Hk. destruct (_ !! k); [|done].
    injection Hk as <-. by apply attributes_fits.
  - intros w ty n d w' resp Hreq _. simpl in Hreq. rewrite serve_create in Hreq.
    destruct (entities_of w ty !! n); injection Hreq as <- <-;
      (split; [by rewrite getStatusCode_reply|]).
    + intros (c & Hc & Hf). rewrite getStatusCode_reply in Hc. by simplify_eq.
    + intros _ ty' n'. apply put_spec.
  - intros w ty n w' resp Hreq _. simpl in Hreq. rewrite serve_delete in Hreq.
    destruct (entities_of w ty !! n) eqn:E; injection Hreq as <- <-; split.
    + intros _ ty' n'. apply remove_spec.
    + intros []. by exists 204%Z.
    + intros _ ty' n'. split; [|by intros []]. intros [x Hx]. split; [|by exists x].
      intros [= -> ->]. unfold remote, MemNode in Hx. congruence.
    + done.
  - intros w ty n w' e Hreq. simpl in Hreq. rewrite serve_delete in Hreq.
    by destruct (entities_of w ty !! n).
  - intros w ty n w' resp Hreq _. pose proof (serve_read ty n w) as H. simpl in Hreq.
    by rewrite Hreq in H; simpl in H; subst.
Qed.
