(* ===== verification/ApiV1.v ===== *)
(** The API objects the operator reconciles ([pkg/apis/enmasse/v1]): projects,
    endpoints and addresses, with the methods of their [funcs_*.go] files that
    read them. Of the object metadata the name and the namespace are kept.
    Pointers to optional parts are options. *)
From stdpp Require Import base gmap strings list.
From S2P Require Import Prelude.

(** [metav1.ObjectMeta], as far as the modelled code reads it. *)
Record ObjectMeta := {
  Name : string;
  Namespace : string;
}.

#[global] Instance ObjectMeta_eq_dec : EqDecision ObjectMeta.
Proof. solve_decision. Defined.

(** The condition structs of the four kinds differ in the name of the type
    only. Times are in nanoseconds. *)
Record Condition := {
  c_Type : string;
  c_Status : string;
  c_LastTransitionTime : Z;
  c_Reason : string;
  c_Message : string;
}.

#[global] Instance Condition_eq_dec : EqDecision Condition.
Proof. solve_decision. Defined.

Record MessagingInfrastructureReference := {
  ref_Name : string;
  ref_Namespace : string;
}.

#[global] Instance MessagingInfrastructureReference_eq_dec : EqDecision MessagingInfrastructureReference.
Proof. solve_decision. Defined.

(** ** Addresses *)

Record MessagingAddressSpecQueue := {
  DeadLetterAddress : string;
  ExpiryAddress : string;
}.

#[global] Instance MessagingAddressSpecQueue_eq_dec : EqDecision MessagingAddressSpecQueue.
Proof. solve_decision. Defined.

Record MessagingAddressSpecSubscription := {
  Topic_ : string;
}.

#[global] Instance MessagingAddressSpecSubscription_eq_dec : EqDecision MessagingAddressSpecSubscription.
Proof. solve_decision. Defined.

Record MessagingAddressSpec := {
  Address : option string;
  Anycast : option ();
  Multicast : option ();
  Queue : option MessagingAddressSpecQueue;
  Topic : option ();
  Subscription : option MessagingAddressSpecSubscription;
  DeadLetter : option ();
}.

#[global] Instance MessagingAddressSpec_eq_dec : EqDecision MessagingAddressSpec.
Proof. solve_decision. Defined.

Definition MessagingAddressBrokerScheduled : string := "Scheduled".
Definition MessagingAddressBrokerActive : string := "Active".

Record MessagingAddressBroker := {
  ab_State : string;
  ab_Host : string;
}.

#[global] Instance MessagingAddressBroker_eq_dec : EqDecision MessagingAddressBroker.
Proof. solve_decision. Defined.

Record MessagingAddressStatus := {
  as_Phase : string;
  as_Message : string;
  as_Conditions : list Condition;
  as_Brokers : list MessagingAddressBroker;
  as_Type : string;
}.

#[global] Instance MessagingAddressStatus_eq_dec : EqDecision MessagingAddressStatus.
Proof. solve_decision. Defined.

Record MessagingAddress := {
  a_meta : ObjectMeta;
  a_Spec : MessagingAddressSpec;
  a_Status : MessagingAddressStatus;
}.

#[global] Instance MessagingAddress_eq_dec : EqDecision MessagingAddress.
Proof. solve_decision. Defined.

(** [GetAddress]: the address defaults to the name of the resource. *)
Definition GetAddress (m : MessagingAddress) : string :=
  match Address (a_Spec m) with
  | Some a => a
  | None => Name (a_meta m)
  end.

Definition set_Brokers (bs : list MessagingAddressBroker) (m : MessagingAddress) :=
  {| a_meta := a_meta m;
     a_Spec := a_Spec m;
     a_Status := {| as_Phase := as_Phase (a_Status m);
                    as_Message := as_Message (a_Status m);
                    as_Conditions := as_Conditions (a_Status m);
                    as_Brokers := bs;
                    as_Type := as_Type (a_Status m) |} |}.

(** ** Endpoints *)

(** [MessagingEndpointProtocol]. *)
Definition MessagingProtocolAMQP : string := "AMQP".
Definition MessagingProtocolAMQPS : string := "AMQPS".
Definition MessagingProtocolAMQPWS : string := "AMQP-WS".
Definition MessagingProtocolAMQPWSS : string := "AMQP-WSS".

Definition MessagingEndpointConfiguring : string := "Configuring".
Definition MessagingEndpointActive : string := "Active".
Definition MessagingEndpointTerminating : string := "Terminating".

(** [routev1.TLSTerminationEdge]. *)
Definition TLSTerminationEdge : string := "edge".

Record InputValue := {
  iv_Value : string;
  iv_FromSecret : option (string * string);
}.

#[global] Instance InputValue_eq_dec : EqDecision InputValue.
Proof. solve_decision. Defined.

Record MessagingEndpointSpecTls := {
  Protocols : option string;
  Ciphers : option string;
  Selfsigned : option ();
  Openshift : option ();
  External : option (InputValue * InputValue);
}.

#[global] Instance MessagingEndpointSpecTls_eq_dec : EqDecision MessagingEndpointSpecTls.
Proof. solve_decision. Defined.

Record MessagingEndpointSpecRoute := {
  TlsTermination : option string;
}.

#[global] Instance MessagingEndpointSpecRoute_eq_dec : EqDecision MessagingEndpointSpecRoute.
Proof. solve_decision. Defined.

Record MessagingEndpointSpec := {
  Tls : option MessagingEndpointSpecTls;
  Annotations : gmap string string;
  es_Protocols : list string;
  es_Host : option string;
  Cluster : option ();
  Ingress : option ();
  Route : option MessagingEndpointSpecRoute;
  NodePort : option ();
  LoadBalancer : option ();
}.

#[global] Instance MessagingEndpointSpec_eq_dec : EqDecision MessagingEndpointSpec.
Proof. solve_decision. Defined.

Record MessagingEndpointPort := {
  p_Name : string;
  p_Protocol : string;
  p_Port : Z;
}.

#[global] Instance MessagingEndpointPort_eq_dec : EqDecision MessagingEndpointPort.
Proof. solve_decision. Defined.

Record MessagingEndpointStatusTls := {
  CertificateValidity : option (Z * Z);
  CaCertificate : string;
}.

#[global] Instance MessagingEndpointStatusTls_eq_dec : EqDecision MessagingEndpointStatusTls.
Proof. solve_decision. Defined.

Record MessagingEndpointStatus := {
  es_Phase : string;
  es_Type : string;
  es_Message : string;
  es_Conditions : list Condition;
  es_StatusHost : string;
  es_Ports : list MessagingEndpointPort;
  es_Tls : option MessagingEndpointStatusTls;
  es_InternalPorts : list MessagingEndpointPort;
}.

#[global] Instance MessagingEndpointStatus_eq_dec : EqDecision MessagingEndpointStatus.
Proof. solve_decision. Defined.

Record MessagingEndpoint := {
  e_meta : ObjectMeta;
  e_Spec : MessagingEndpointSpec;
  e_Status : MessagingEndpointStatus;
}.

#[global] Instance MessagingEndpoint_eq_dec : EqDecision MessagingEndpoint.
Proof. solve_decision. Defined.

(** [IsEdgeTerminated]. *)
Definition IsEdgeTerminated (e : MessagingEndpoint) : bool :=
  match Tls (e_Spec e) with
  | Some _ => false
  | None =>
      match Ingress (e_Spec e) with
      | Some _ => true
      | None =>
          match Route (e_Spec e) with
          | None => false
          | Some r =>
              match TlsTermination r with
              | None => true
              | Some t => bool_decide (t = TLSTerminationEdge)
              end
          end
      end
  end.

Definition InternalPorts (e : MessagingEndpoint) : list MessagingEndpointPort :=
  es_InternalPorts (e_Status e).

Definition set_InternalPorts (ps : list MessagingEndpointPort) (e : MessagingEndpoint) :=
  {| e_meta := e_meta e;
     e_Spec := e_Spec e;
     e_Status := {| es_Phase := es_Phase (e_Status e);
                    es_Type := es_Type (e_Status e);
                    es_Message := es_Message (e_Status e);
                    es_Conditions := es_Conditions (e_Status e);
                    es_StatusHost := es_StatusHost (e_Status e);
                    es_Ports := es_Ports (e_Status e);
                    es_Tls := es_Tls (e_Status e);
                    es_InternalPorts := ps |} |}.

(** ** Infrastructures *)

Definition MessagingInfrastructurePending : string := "Pending".
Definition MessagingInfrastructureConfiguring : string := "Configuring".
Definition MessagingInfrastructureActive : string := "Active".
Definition MessagingInfrastructureTerminating : string := "Terminating".

(** The routers and brokers are known by their hosts. *)
Record MessagingInfrastructureStatus := {
  is_Phase : string;
  is_Message : string;
  is_Conditions : list Condition;
  is_Routers : list string;
  is_Brokers : list string;
}.

#[global] Instance MessagingInfrastructureStatus_eq_dec : EqDecision MessagingInfrastructureStatus.
Proof. solve_decision. Defined.

Record ImageOverride := {
  io_Name : string;
  io_PullPolicy : string;
}.

#[global] Instance ImageOverride_eq_dec : EqDecision ImageOverride.
Proof. solve_decision. Defined.

(** A scaling strategy is a static number of pods, or an empty one. *)
Record MessagingInfrastructureSpecRouter := {
  sr_Image : option ImageOverride;
  sr_ScalingStrategy : option (option Z);
}.

#[global] Instance MessagingInfrastructureSpecRouter_eq_dec : EqDecision MessagingInfrastructureSpecRouter.
Proof. solve_decision. Defined.

Record MessagingInfrastructureSpecBroker := {
  sb_InitImage : option ImageOverride;
  sb_Image : option ImageOverride;
  sb_ScalingStrategy : option (option Z);
}.

#[global] Instance MessagingInfrastructureSpecBroker_eq_dec : EqDecision MessagingInfrastructureSpecBroker.
Proof. solve_decision. Defined.

(** Of the specification: the namespaces the selector names, when there is one, and what is
    asked of routers and brokers. *)
Record MessagingInfrastructure := {
  i_meta : ObjectMeta;
  i_NamespaceSelector : option (list string);
  i_Router : MessagingInfrastructureSpecRouter;
  i_Broker : MessagingInfrastructureSpecBroker;
  i_Status : MessagingInfrastructureStatus;
}.

#[global] Instance MessagingInfrastructure_eq_dec : EqDecision MessagingInfrastructure.
Proof. solve_decision. Defined.

(** ** Projects *)

Record MessagingProjectSpec := {
  ps_MessagingInfrastructureRef : option MessagingInfrastructureReference;
  ps_Capabilities : list string;
}.

#[global] Instance MessagingProjectSpec_eq_dec : EqDecision MessagingProjectSpec.
Proof. solve_decision. Defined.

Record MessagingProjectStatus := {
  ps_Phase : string;
  ps_Message : string;
  ps_StatusInfrastructureRef : MessagingInfrastructureReference;
  ps_Conditions : list Condition;
  ps_StatusCapabilities : list string;
  ps_Broker : option MessagingAddressBroker;
}.

#[global] Instance MessagingProjectStatus_eq_dec : EqDecision MessagingProjectStatus.
Proof. solve_decision. Defined.

Record MessagingProject := {
  p_meta : ObjectMeta;
  p_Spec : MessagingProjectSpec;
  p_Status : MessagingProjectStatus;
}.

#[global] Instance MessagingProject_eq_dec : EqDecision MessagingProject.
Proof. solve_decision. Defined.

(** [IsBound]. *)
Definition IsBound (t : MessagingProject) : bool :=
  negb (bool_decide (ref_Name (ps_StatusInfrastructureRef (p_Status t)) = "")) &&
  negb (bool_decide (ref_Namespace (ps_StatusInfrastructureRef (p_Status t)) = "")).

Definition set_Broker (b : option MessagingAddressBroker) (p : MessagingProject) :=
  {| p_meta := p_meta p;
     p_Spec := p_Spec p;
     p_Status := {| ps_Phase := ps_Phase (p_Status p);
                    ps_Message := ps_Message (p_Status p);
                    ps_StatusInfrastructureRef := ps_StatusInfrastructureRef (p_Status p);
                    ps_Conditions := ps_Conditions (p_Status p);
                    ps_StatusCapabilities := ps_StatusCapabilities (p_Status p);
                    ps_Broker := b |} |}.
