(* ===== verification/Conditions.v ===== *)
(** Status conditions ([GetMessaging*Condition] and [SetStatus] of the
    [funcs_*.go] files of [pkg/apis/enmasse/v1]). The getters return a pointer
    into the backing array of the [Conditions] slice, and append to the slice
    when the condition is missing: slices, their backing arrays and the pointers
    into them are modelled as Go has them. *)
From stdpp Require Import base gmap strings list.
From S2P Require Import Prelude ApiV1.

(** [corev1.ConditionStatus]. *)
Definition ConditionTrue : string := "True".
Definition ConditionFalse : string := "False".
Definition ConditionUnknown : string := "Unknown".

(** The store of backing arrays. The length of an array is the capacity of the
    slices on it; cells that no slice covers yet hold a zero value. *)
Notation Arrays := (list (list Condition)).

(** A slice from the start of its array: [None] is the nil slice. *)
Notation Slice := (option (nat * nat)).

(** A pointer to one cell of an array. *)
Notation Pointer := (nat * nat)%type.

Definition zero_condition : Condition := Build_Condition "" "" 0 "" "".

Definition load (h : Arrays) (p : Pointer) : option Condition := h !! p.1 ≫= λ a, a !! p.2.

Definition store (p : Pointer) (c : Condition) (h : Arrays) : Arrays :=
  alter (<[p.2 := c]>) p.1 h.

Definition contents (h : Arrays) (s : Slice) : list Condition :=
  match s with
  | None => []
  | Some (a, n) => take n (default [] (h !! a))
  end.

Section Append.
(** [grow n]: the capacity of the array the runtime allocates for a slice of
    [n] elements that has to hold one more. *)
Context (grow : nat → nat).

(** [append(s, c)]: in place while there is capacity, else in a new array. *)
Definition append (h : Arrays) (s : Slice) (c : Condition) : Arrays * Slice :=
  match s with
  | Some (a, n) =>
      if bool_decide (n < length (default [] (h !! a)))
      then (store (a, n) c h, Some (a, S n))
      else (h ++ [contents h s ++ c :: replicate (grow n - S n) zero_condition],
            Some (length h, S n))
  | None => (h ++ [c :: replicate (grow 0 - 1) zero_condition], Some (length h, 1))
  end.

(** The index of the condition of type [t]. *)
Definition find_condition (t : string) (cs : list Condition) : option nat :=
  fst <$> list_find (λ c, c_Type c = t) cs.

(** [GetMessagingAddressCondition] and its three siblings. *)
Definition GetCondition (now : Z) (t : string) (hs : Arrays * Slice)
    : (Arrays * Slice) * Pointer :=
  let '(h, s) := hs in
  match find_condition t (contents h s), s with
  | Some i, Some (a, _) => (hs, (a, i))
  | _, _ =>
      let mc := Build_Condition t ConditionUnknown now "" "" in
      let '(h', s') := append h s mc in
      match s' with
      | Some (a, n) => ((h', s'), (a, n - 1))
      | None => ((h', s'), (0, 0))
      end
  end.

(** [SetStatus] on a condition: the transition time changes with the status only. *)
Definition set_status (now : Z) (status reason message : string) (c : Condition) : Condition :=
  {| c_Type := c_Type c;
     c_Status := if bool_decide (c_Status c = status) then c_Status c else status;
     c_LastTransitionTime := if bool_decide (c_Status c = status)
                             then c_LastTransitionTime c else now;
     c_Reason := reason;
     c_Message := message |}.

(** [SetStatus] through a pointer. *)
Definition SetStatus (now : Z) (status reason message : string) (p : Pointer) (h : Arrays)
    : Arrays :=
  match load h p with
  | Some c => store p (set_status now status reason message c) h
  | None => h
  end.
End Append.

(** ** Conditions through a pointer *)

(** The slice is on an existing array that is large enough. *)
Definition valid_slice (h : Arrays) (s : Slice) : Prop :=
  match s with
  | None => True
  | Some (a, n) => ∃ arr, h !! a = Some arr ∧ n ≤ length arr
  end.

(** At most one condition of each type. *)
Definition unique_types (cs : list Condition) : Prop := NoDup (c_Type <$> cs).

Section ConditionFacts.
Context (grow : nat → nat) (Hgrow : ∀ n, n < grow n).

Lemma find_condition_Some t cs i :
  find_condition t cs = Some i →
  ∃ c, cs !! i = Some c ∧ c_Type c = t.
Proof.
  unfold find_condition. destruct (list_find _ cs) as [[j c]|] eqn:E; [|done].
  intros [= <-]. apply list_find_Some in E as (? & ? & _). eauto.
Qed.

Lemma find_condition_None t cs :
  find_condition t cs = None → t ∉ c_Type <$> cs.
Proof.
  unfold find_condition. destruct (list_find _ cs) as [[j c]|] eqn:E; [done|]. intros _.
  apply list_find_None in E. intros (c & -> & Hc)%list_elem_of_fmap.
  rewrite Forall_forall in E. by apply (E c).
Qed.

Lemma store_lookup p c h arr :
  h !! p.1 = Some arr → store p c h !! p.1 = Some (<[p.2 := c]> arr).
Proof. intros H. unfold store. by rewrite list_lookup_alter_eq, H. Qed.

Lemma append_spec h s c :
  valid_slice h s →
  let hs' := append grow h s c in
  contents hs'.1 hs'.2 = contents h s ++ [c] ∧ valid_slice hs'.1 hs'.2 ∧
  ∃ a, hs'.2 = Some (a, S (length (contents h s))).
Proof.
  destruct s as [[a n]|]; cbn [append valid_slice].
  - intros (arr & Ha & Hn). unfold contents at 2 3 4. rewrite Ha. cbn [default].
    assert (length (take n arr) = n) as Hlen by (rewrite length_take; lia).
    case_bool_decide as Hlt; simpl in Hlt; cbn [fst snd contents valid_slice].
    + pose proof (store_lookup (a, n) c h arr Ha) as Hst. simpl in Hst. rewrite Hst.
      split_and!.
      * simpl. rewrite (take_S_r _ _ c) by (by apply list_lookup_insert_eq).
        by rewrite take_insert_ge.
      * eexists. split; [done|]. rewrite length_insert. lia.
      * exists a. simpl. by rewrite Ha; simpl; rewrite Hlen.
    + rewrite !lookup_app_r, Nat.sub_diag by done. rewrite Ha. simpl. split_and!.
      * rewrite (take_app_ge _ _ (S n)) by lia. rewrite Hlen.
        by replace (S n - n) with 1 by lia.
      * eexists. split; [done|]. rewrite length_app. simpl. lia.
      * exists (length h). simpl. by rewrite Hlen.
  - intros _. cbn. rewrite lookup_app_r, Nat.sub_diag by done. simpl. split_and!; [done| |eauto].
    eexists. split; [done|]. simpl. lia.
Qed.

(** A pointer into the slice. *)
Definition live (s : Slice) (p : Pointer) : Prop :=
  ∃ n, s = Some (p.1, n) ∧ p.2 < n.

Lemma live_load h s p : live s p → load h p = contents h s !! p.2.
Proof.
  intros (n & -> & Hp). destruct p as [a i]. unfold load, contents. simpl in *.
  destruct (h !! a) as [arr|]; simpl; [by rewrite lookup_take_lt|by rewrite take_nil].
Qed.

Lemma GetCondition_spec now t h s hs' p :
  valid_slice h s →
  GetCondition grow now t (h, s) = (hs', p) →
  valid_slice hs'.1 hs'.2 ∧ live hs'.2 p ∧
  (∃ c, load hs'.1 p = Some c ∧ c_Type c = t) ∧
  (contents hs'.1 hs'.2 = contents h s ∨
   t ∉ c_Type <$> contents h s ∧
   contents hs'.1 hs'.2 = contents h s ++ [Build_Condition t ConditionUnknown now "" ""]).
Proof.
  intros Hv. unfold GetCondition. set (mc := Build_Condition _ _ _ _ _).
  assert (∀ o, find_condition t (contents h s) = o → (o = None ∨ s = None) →
    (let '(h', s') := append grow h s mc in
     match s' with Some (a, n) => ((h', s'), (a, n - 1)) | None => ((h', s'), (0, 0)) end)
      = (hs', p) → valid_slice hs'.1 hs'.2 ∧ live hs'.2 p ∧
    (∃ c, load hs'.1 p = Some c ∧ c_Type c = t) ∧
    (contents hs'.1 hs'.2 = contents h s ∨
     t ∉ c_Type <$> contents h s ∧ contents hs'.1 hs'.2 = contents h s ++ [mc])) as Happ.
  { intros o Ho Hor. destruct (append_spec h s mc Hv) as (Hc & Hv' & a & Ha).
    destruct (append grow h s mc) as [h' s'] eqn:E. simpl in *. subst s'. intros [= <- <-].
    simpl. assert (live (Some (a, S (length (contents h s)))) (a, length (contents h s) - 0))
      as Hl by (eexists; split; [done|simpl; lia]).
    split_and!; [done|done| |right; split; [|done]].
    - exists mc. rewrite (live_load _ _ _ Hl), Hc. simpl.
      rewrite Nat.sub_0_r, lookup_app_r, Nat.sub_diag by done. done.
    - destruct Hor as [->| ->]; [by apply find_condition_None|]. by apply not_elem_of_nil. }
  destruct (find_condition t (contents h s)) as [i|] eqn:Ef; [|by apply (Happ None); auto].
  destruct s as [[a n]|]; [|by apply (Happ (Some i)); auto].
  intros [= <- <-]. simpl. apply find_condition_Some in Ef as (c & Hc & Ht).
  assert (live (Some (a, n)) (a, i)) as Hl.
  { exists n. split; [done|]. apply lookup_lt_Some in Hc. simpl in Hc. rewrite length_take in Hc.
    simpl. lia. }
  split_and!; [done|done| |by left]. exists c. by rewrite (live_load h _ _ Hl).
Qed.

(** Setting a condition through a live pointer changes that condition and no
    other. *)
Lemma SetStatus_live now st re me p h s c :
  live s p → load h p = Some c →
  contents (SetStatus now st re me p h) s =
  <[p.2 := set_status now st re me c]> (contents h s).
Proof.
  intros (n & -> & Hp) Hc. unfold SetStatus. rewrite Hc. unfold load in Hc.
  destruct (h !! p.1) as [arr|] eqn:Ha; [|done]. cbn [contents].
  rewrite (store_lookup _ _ _ _ Ha), Ha. simpl. by rewrite take_insert_lt.
Qed.

(** A pointer into an array the slice has left is stale: setting a condition
    through it does not reach the status. *)
Lemma SetStatus_stale now st re me p h a n :
  p.1 ≠ a → contents (SetStatus now st re me p h) (Some (a, n)) = contents h (Some (a, n)).
Proof.
  intros Hne. unfold SetStatus. destruct (load h p); [|done].
  unfold contents, store. by rewrite list_lookup_alter_ne.
Qed.

(** A full slice is moved by [append]: pointers into it become stale. *)
Lemma append_full h a n c arr :
  h !! a = Some arr → length arr = n →
  ∃ a' n', (append grow h (Some (a, n)) c).2 = Some (a', n') ∧ a' ≠ a.
Proof.
  intros Ha Hn. simpl. rewrite Ha. simpl. rewrite bool_decide_eq_false_2 by lia.
  eexists _, _. split; [done|]. apply lookup_lt_Some in Ha. lia.
Qed.

(** Asking for a condition that is not there yet, on a full slice, makes every
    earlier pointer stale. *)
Lemma GetCondition_stale now t h a n arr p st re me :
  h !! a = Some arr → length arr = n → t ∉ c_Type <$> contents h (Some (a, n)) → p.1 = a →
  let hs := (GetCondition grow now t (h, Some (a, n))).1 in
  contents (SetStatus now st re me p hs.1) hs.2 = contents hs.1 hs.2.
Proof.
  intros Ha Hn Ht Hp. unfold GetCondition.
  destruct (find_condition t (contents h (Some (a, n)))) as [i|] eqn:Ef.
  { apply find_condition_Some in Ef as (c & Hc & Hct). destruct Ht. rewrite <-Hct.
    by eapply list_elem_of_fmap_2, list_elem_of_lookup_2. }
  destruct (append_full h a n (Build_Condition t ConditionUnknown now "" "") arr Ha Hn)
    as (a' & n' & E & Hne).
  destruct (append grow h (Some (a, n)) _) as [h' s'] eqn:Eh. simpl in E. subst s'. simpl.
  apply SetStatus_stale. congruence.
Qed.
End ConditionFacts.
