(* ===== verification/BrokerTypes.v ===== *)
(** The entities of a broker ([pkg/state/broker/types.go] and the methods of
    [pkg/state/broker/broker.go] on them): queues, addresses, diverts and address
    settings, and the management messages that create and delete them. *)
From stdpp Require Import base gmap strings pretty list fin_maps.
From Stdlib Require Ascii.
From S2P Require Import Prelude Go Client Json.

(** [type BrokerEntityType string]. *)
Definition BrokerEntityType := string.

Definition BrokerQueueEntity : BrokerEntityType := "queue".
Definition BrokerAddressEntity : BrokerEntityType := "address".
Definition BrokerDivertEntity : BrokerEntityType := "divert".
Definition BrokerAddressSettingEntity : BrokerEntityType := "address-setting".

Definition AddressFullPolicyDrop : string := "DROP".
Definition AddressFullPolicyPage : string := "PAGE".
Definition AddressFullPolicyFail : string := "FAIL".
Definition AddressFullPolicyBlock : string := "BLOCK".

Definition SlowConsumerPolicyKill : string := "KILL".
Definition SlowConsumerPolicyNotify : string := "NOTIFY".

Definition RoutingTypeAnycast : string := "ANYCAST".
Definition RoutingTypeMulticast : string := "MULTICAST".
Definition RoutingTypePass : string := "PASS".
Definition RoutingTypeStrip : string := "STRIP".

Record BrokerQueue := {
  q_Name : string;
  q_Address : string;
  q_RoutingType : string;
  q_MaxConsumers : Z;
  q_Durable : bool;
  q_AutoCreateAddress : bool;
  q_PurgeOnNoConsumers : bool;
}.

Record BrokerAddress := {
  ba_Name : string;
  ba_RoutingType : string;
}.

Record BrokerDivert := {
  d_Name : string;
  d_RoutingName : string;
  d_Address : string;
  d_ForwardingAddress : string;
  d_Exclusive : bool;
  d_FilterString : string;
  d_TransformerClassName : string;
}.

(** The multiplier is a [float64], kept as the text JSON writes it as. *)
Record BrokerAddressSetting := {
  s_Name : string;
  s_DeadLetterAddress : string;
  s_ExpiryAddress : string;
  s_ExpiryDelay : Z;
  s_LastValueQueue : bool;
  s_DeliveryAttempts : Z;
  s_MaxSizeBytes : Z;
  s_PageSizeBytes : Z;
  s_PageMaxCacheSize : Z;
  s_RedeliveryDelay : Z;
  s_RedeliveryMultiplier : string;
  s_MaxRedeliveryDelay : Z;
  s_RedistributionDelay : Z;
  s_SendToDLAOnNoRoute : bool;
  s_AddressFullMessagePolicy : string;
  s_SlowConsumerThreshold : Z;
  s_SlowConsumerCheckPeriod : Z;
  s_SlowConsumerPolicy : string;
  s_AutoCreateJmsQueues : bool;
  s_AutoDeleteJmsQueues : bool;
  s_AutoCreateJmsTopics : bool;
  s_AutoDeleteJmsTopics : bool;
  s_AutoCreateQueues : bool;
  s_AutoDeleteQueues : bool;
  s_AutoCreateAddresses : bool;
  s_AutoDeleteAddresses : bool;
}.

(** The [BrokerEntity] interface, by its implementations. *)
Inductive BrokerEntity :=
  | BQueue (q : BrokerQueue)
  | BAddress (a : BrokerAddress)
  | BDivert (d : BrokerDivert)
  | BAddressSetting (s : BrokerAddressSetting).

(** [b.Type()]. *)
Definition bType (b : BrokerEntity) : BrokerEntityType :=
  match b with
  | BQueue _ => BrokerQueueEntity
  | BAddress _ => BrokerAddressEntity
  | BDivert _ => BrokerDivertEntity
  | BAddressSetting _ => BrokerAddressSettingEntity
  end.

(** [b.GetName()]. *)
Definition bGetName (b : BrokerEntity) : string :=
  match b with
  | BQueue q => q_Name q
  | BAddress a => ba_Name a
  | BDivert d => d_Name d
  | BAddressSetting s => s_Name s
  end.

(** [b.Order()]: a queue is created after, and deleted before, the rest. *)
Definition bOrder (b : BrokerEntity) : nat :=
  match b with
  | BQueue _ => 1
  | BAddress _ => 0
  | BDivert _ => 0
  | BAddressSetting _ => 0
  end.

(** [b.Equals(other)]: entities are the same if they have the same type and name. *)
Definition bEquals (b other : BrokerEntity) : bool :=
  match b with
  | BAddressSetting s =>
      bool_decide (bType b = bType other) && bool_decide (s_Name s = bGetName other)
  | _ => bool_decide (bType b = bType other) && bool_decide (bGetName b = bGetName other)
  end.

(** ** Management messages *)

Definition brokerCommandAddress : string := "activemq.management".
Definition brokerCommandResponseAddress : string := "activemq.management_broker_command_response".

(** [newManagementMessage]: the parameters travel as one JSON array. *)
Definition newManagementMessage (resource operation attribute : string) (parameters : list Json)
    : Message :=
  let props : gmap string Value := {[ "_AMQ_ResourceName" := VString resource ]} in
  let props := if bool_decide (operation = "") then props
               else <["_AMQ_OperationName" := VString operation]> props in
  let props := if bool_decide (attribute = "") then props
               else <["_AMQ_Attribute" := VString attribute]> props in
  {| ApplicationProperties := props;
     Value_ := VString (match parameters with
                        | [] => "[]"
                        | _ => marshal (JArr parameters)
                        end) |}.

(** [success]: the type assertion panics on a property that is not a boolean. *)
Definition success (response : Message) : outcome bool :=
  match ApplicationProperties response !! "_AMQ_OperationSucceeded" with
  | None => Ok false
  | Some (VBool b) => Ok b
  | Some _ => Panic
  end.

Definition JInt (z : Z) : Json := JNum (fmt_d z).

(** [json.Marshal] of a [BrokerQueue]. *)
Definition queue_json (b : BrokerQueue) : Json := JObj [
  ("name", JStr (q_Name b));
  ("address", JStr (q_Address b));
  ("routing-type", JStr (q_RoutingType b));
  ("max-consumers", JInt (q_MaxConsumers b));
  ("durable", JBool (q_Durable b));
  ("auto-create-address", JBool (q_AutoCreateAddress b));
  ("purge-on-no-consumers", JBool (q_PurgeOnNoConsumers b))].

(** The operation and the parameters of the four [Create] methods. *)
Definition create_operation (b : BrokerEntity) : string * list Json :=
  match b with
  | BQueue q => ("createQueue", [JStr (marshal (queue_json q))])
  | BAddress a => ("createAddress", [JStr (ba_Name a); JStr (ba_RoutingType a)])
  | BDivert d =>
      ("createDivert", [JStr (d_Name d); JStr (d_RoutingName d); JStr (d_Address d);
                        JStr (d_ForwardingAddress d); JBool (d_Exclusive d);
                        JStr (d_FilterString d); JNull])
  | BAddressSetting s =>
      ("addAddressSettings",
        [JStr (s_Name s);
         JStr (s_DeadLetterAddress s);
         JStr (s_ExpiryAddress s);
         JInt (s_ExpiryDelay s);
         JBool (s_LastValueQueue s);
         JInt (s_DeliveryAttempts s);
         JInt (s_MaxSizeBytes s);
         JInt (s_PageSizeBytes s);
         JInt (s_PageMaxCacheSize s);
         JInt (s_RedeliveryDelay s);
         JNum (s_RedeliveryMultiplier s);
         JInt (s_MaxRedeliveryDelay s);
         JInt (s_RedistributionDelay s);
         JBool (s_SendToDLAOnNoRoute s);
         JStr (s_AddressFullMessagePolicy s);
         JInt (s_SlowConsumerThreshold s);
         JInt (s_SlowConsumerCheckPeriod s);
         JStr (s_SlowConsumerPolicy s);
         JBool (s_AutoCreateJmsQueues s);
         JBool (s_AutoDeleteJmsQueues s);
         JBool (s_AutoCreateJmsTopics s);
         JBool (s_AutoDeleteJmsTopics s);
         JBool (s_AutoCreateQueues s);
         JBool (s_AutoDeleteQueues s);
         JBool (s_AutoCreateAddresses s);
         JBool (s_AutoDeleteAddresses s)])
  end.

(** The operation and the parameters of the four [Delete] methods. *)
Definition delete_operation (b : BrokerEntity) : string * list Json :=
  match b with
  | BQueue q => ("destroyQueue", [JStr (q_Name q); JBool true])
  | BAddress a => ("deleteAddress", [JStr (ba_Name a); JBool true])
  | BDivert d => ("destroyDivert", [JStr (d_Name d)])
  | BAddressSetting s => ("removeAddressSettings", [JStr (s_Name s)])
  end.

(** How an entity is called in error messages. *)
Definition kind_name (b : BrokerEntity) : string :=
  match b with
  | BQueue _ => "queue"
  | BAddress _ => "address"
  | BDivert _ => "divert"
  | BAddressSetting _ => "address setting"
  end.

Definition delete_verb (b : BrokerEntity) : string :=
  match b with
  | BQueue _ => "deleting"
  | BAddress _ => "deleting"
  | BDivert _ => "destroying"
  | BAddressSetting _ => "removing"
  end.

Definition create_message (b : BrokerEntity) : Message :=
  newManagementMessage "broker" (create_operation b).1 "" (create_operation b).2.

Definition delete_message (b : BrokerEntity) : Message :=
  newManagementMessage "broker" (delete_operation b).1 "" (delete_operation b).2.

Section Operations.
Context {W : Type} `{HC : !Client W}.

(** [doRequest]. *)
Definition bDoRequest (request : Message) : prog W Message := RequestWithTimeout request.

(** [b.Create(client)]. *)
Definition Create (b : BrokerEntity) : prog W () :=
  response ← bDoRequest (create_message b);
  ok ← lift (success response);
  if ok : bool then mret ()
  else lift (Err (Errorf ("error creating " +:+ kind_name b +:+ " " +:+ bGetName b +:+ ": "
                          +:+ fmt_v (Value_ response)))).

(** [b.Delete(client)]. *)
Definition Delete (b : BrokerEntity) : prog W () :=
  response ← bDoRequest (delete_message b);
  ok ← lift (success response);
  if ok : bool then mret ()
  else lift (Err (Errorf ("error " +:+ delete_verb b +:+ " " +:+ kind_name b +:+ " "
                          +:+ bGetName b +:+ ": " +:+ fmt_v (Value_ response)))).
End Operations.

(** ** Reading answers *)

Definition type_error : error := JsonError "json: cannot unmarshal".

(** A JSON value into a [string]; a null leaves the zero value. *)
Definition json_string (zero : string) (j : Json) : outcome string :=
  match j with
  | JStr s => Ok s
  | JNull => Ok zero
  | _ => Err type_error
  end.

Definition json_bool (zero : bool) (j : Json) : outcome bool :=
  match j with
  | JBool b => Ok b
  | JNull => Ok zero
  | _ => Err type_error
  end.

Definition json_float (zero : string) (j : Json) : outcome string :=
  match j with
  | JNum lit => Ok lit
  | JNull => Ok zero
  | _ => Err type_error
  end.

(** A JSON number into an integer of [w] bits. *)
Definition json_int (w : Z) (zero : Z) (j : Json) : outcome Z :=
  match j with
  | JNum lit =>
      match parse_int lit with
      | Some z => if bool_decide (- 2 ^ (w - 1) ≤ z < 2 ^ (w - 1))%Z then Ok z else Err type_error
      | None => Err type_error
      end
  | JNull => Ok zero
  | _ => Err type_error
  end.

(** Into a slice. *)
Definition json_slice {A} (f : Json → outcome A) (j : Json) : outcome (list A) :=
  match j with
  | JArr l => map_outcome f l
  | JNull => Ok []
  | _ => Err type_error
  end.

(** Into a [[]string] and a [[][]string]. *)
Definition json_strings : Json → outcome (list string) := json_slice (json_string "").
Definition json_strings2 : Json → outcome (list (list string)) := json_slice json_strings.

Definition lower (c : Ascii.ascii) : Ascii.ascii :=
  let n := Ascii.nat_of_ascii c in
  if (65 <=? n) && (n <=? 90) then Ascii.ascii_of_nat (n + 32) else c.

Fixpoint to_lower (s : string) : string :=
  match s with EmptyString => EmptyString | String c s' => String (lower c) (to_lower s') end.

(** A struct field from an object: keys match without regard to case, and a later
    key overrides an earlier one. *)
Definition json_field {A} (conv : A → Json → outcome A) (zero : A) (k : string)
    (fs : list (string * Json)) : outcome A :=
  foldl (λ acc kv, a ← acc;
           if bool_decide (to_lower kv.1 = to_lower k) then conv a kv.2 else Ok a)
    (Ok zero) fs.

(** [json.Unmarshal] into a [BrokerAddressSetting]. *)
Definition decode_setting (j : Json) : outcome BrokerAddressSetting :=
  match j with
  | JObj fs =>
      let str := λ k, json_field json_string "" k fs in
      let bool := λ k, json_field json_bool false k fs in
      let int64 := λ k, json_field (json_int 64) 0%Z k fs in
      let int32 := λ k, json_field (json_int 32) 0%Z k fs in
      name ← str "name";
      dla ← str "DLA";
      expiryAddress ← str "expiryAddress";
      expiryDelay ← int64 "expiryDelay";
      lastValueQueue ← bool "lastValueQueue";
      deliveryAttempts ← int32 "deliveryAttempts";
      maxSizeBytes ← int64 "maxSizeBytes";
      pageSizeBytes ← int32 "pageSizeBytes";
      pageMaxCacheSize ← int32 "pageMaxCacheSize";
      redeliveryDelay ← int64 "redeliveryDelay";
      redeliveryMultiplier ← json_field json_float "0" "redeliveryMultiplier" fs;
      maxRedeliveryDelay ← int64 "maxRedeliveryDelay";
      redistributionDelay ← int64 "redistributionDelay";
      sendToDLAOnNoRoute ← bool "sendToDLAOnNoRoute";
      addressFullMessagePolicy ← str "addressFullMessagePolicy";
      slowConsumerThreshold ← int64 "slowConsumerThreshold";
      slowConsumerCheckPeriod ← int64 "slowConsumerCheckPeriod";
      slowConsumerPolicy ← str "slowConsumerPolicy";
      autoCreateJmsQueues ← bool "autoCreateJmsQueues";
      autoDeleteJmsQueues ← bool "autoDeleteJmsQueues";
      autoCreateJmsTopics ← bool "autoCreateJmsTopics";
      autoDeleteJmsTopics ← bool "autoDeleteJmsTopics";
      autoCreateQueues ← bool "autoCreateQueues";
      autoDeleteQueues ← bool "autoDeleteQueues";
      autoCreateAddresses ← bool "autoCreateAddresses";
      autoDeleteAddresses ← bool "autoDeleteAddresses";
      Ok (Build_BrokerAddressSetting name dla expiryAddress expiryDelay lastValueQueue
        deliveryAttempts maxSizeBytes pageSizeBytes pageMaxCacheSize redeliveryDelay
        redeliveryMultiplier maxRedeliveryDelay redistributionDelay sendToDLAOnNoRoute
        addressFullMessagePolicy slowConsumerThreshold slowConsumerCheckPeriod
        slowConsumerPolicy autoCreateJmsQueues autoDeleteJmsQueues autoCreateJmsTopics
        autoDeleteJmsTopics autoCreateQueues autoDeleteQueues autoCreateAddresses
        autoDeleteAddresses)
  | JNull => Ok (Build_BrokerAddressSetting "" "" "" 0 false 0 0 0 0 0 "0" 0 0 false "" 0 0 ""
                   false false false false false false false false)
  | _ => Err type_error
  end.

(** [setting.Name = name]. *)
Definition set_s_Name (n : string) (s : BrokerAddressSetting) : BrokerAddressSetting :=
  let 'Build_BrokerAddressSetting _ a b c d e f g h i j k l m o p q r t u v w x y z z' := s in
  Build_BrokerAddressSetting n a b c d e f g h i j k l m o p q r t u v w x y z z'.
