(* ===== verification/Broker.v ===== *)
(** The state the operator keeps of one broker ([BrokerState] of
    [pkg/state/broker/broker.go]): a cache of the broker's queues, addresses,
    diverts and address settings, filled by [Initialize] and kept in step by
    [EnsureEntities] and [DeleteEntities]. *)
From stdpp Require Import base gmap strings pretty list fin_maps.
From S2P Require Import Prelude Go Client Json BrokerTypes.

Definition bMaxOrder : nat := 2.

Record BrokerState (W : Type) := {
  b_host : Host;
  b_port : Z;
  b_nextResync : Z;
  b_initialized : bool;
  b_commandClient : option W;
  b_entities : gmap BrokerEntityType (gmap string BrokerEntity);
  b_reconnectCount : Z;
}.
Arguments Build_BrokerState {W}.
Arguments b_host {W}.
Arguments b_port {W}.
Arguments b_nextResync {W}.
Arguments b_initialized {W}.
Arguments b_commandClient {W}.
Arguments b_entities {W}.
Arguments b_reconnectCount {W}.

Section Setters.
Context {W : Type}.
Implicit Types b : BrokerState W.

Definition set_b_initialized (i : bool) b :=
  Build_BrokerState (b_host b) (b_port b) (b_nextResync b) i (b_commandClient b)
    (b_entities b) (b_reconnectCount b).
Definition set_b_nextResync (t : Z) b :=
  Build_BrokerState (b_host b) (b_port b) t (b_initialized b) (b_commandClient b)
    (b_entities b) (b_reconnectCount b).
Definition set_b_reconnectCount (n : Z) b :=
  Build_BrokerState (b_host b) (b_port b) (b_nextResync b) (b_initialized b) (b_commandClient b)
    (b_entities b) n.
Definition set_b_commandClient (c : option W) b :=
  Build_BrokerState (b_host b) (b_port b) (b_nextResync b) (b_initialized b) c
    (b_entities b) (b_reconnectCount b).
Definition set_b_entities (m : gmap BrokerEntityType (gmap string BrokerEntity)) b :=
  Build_BrokerState (b_host b) (b_port b) (b_nextResync b) (b_initialized b) (b_commandClient b)
    m (b_reconnectCount b).
End Setters.

(** The types [Initialize] reads, in its order: the queues come before the
    address settings, which are read per queue. *)
Definition bEntityTypes : list BrokerEntityType :=
  [BrokerQueueEntity; BrokerAddressEntity; BrokerDivertEntity; BrokerAddressSettingEntity].

Section Broker.
Context {W : Type} `{HC : !Client W} `{HS : !Sched}.
Implicit Types b : BrokerState W.

(** [NewBrokerState]. *)
Definition NewBrokerState (h : Host) (p : Z) (tlsConfig : option TlsConfig) : BrokerState W :=
  let client := Start (NewCommandClient ("amqps://" +:+ Ip h +:+ ":" +:+ fmt_d p)
                         brokerCommandAddress brokerCommandResponseAddress tlsConfig) in
  {| b_host := h;
     b_port := p;
     b_nextResync := 0;
     b_initialized := false;
     b_commandClient := Some client;
     b_entities := ∅;
     b_reconnectCount := ReconnectCount client |}.

(** A call on the command client; on a nil client it panics. *)
Definition b_with_client {A} (c : prog W A) : prog (BrokerState W) A := λ b,
  match b_commandClient b with
  | None => (b, Panic)
  | Some w => let '(w', o) := c w in (set_b_commandClient (Some w') b, o)
  end.

(** A management request whose answer must be a JSON text. *)
Definition request_json (what : string) (message : Message) : prog W Json :=
  result ← bDoRequest message;
  ok ← lift (success result);
  if ok : bool then
    match Value_ result with
    | VString text => lift (unmarshal text)
    | v => lift (Err (Errorf ("unexpected value with type " +:+ fmt_T v)))
    end
  else lift (Err (Errorf ("error reading " +:+ what +:+ ": " +:+ fmt_v (Value_ result)))).

(** The entities of a list of lists of names. *)
Definition named_entities (mk : string → BrokerEntity) (names : list (list string))
    : gmap string BrokerEntity :=
  foldl (λ m n, <[n := mk n]> m) ∅ (concat names).

Definition read_names (what operation : string) (mk : string → BrokerEntity)
    : prog W (gmap string BrokerEntity) :=
  j ← request_json what (newManagementMessage "broker" operation "" []);
  names ← lift (json_strings2 j);
  mret (named_entities mk names).

(** The entity of a name that was read: the other fields are left zero. *)
Definition queue_named (n : string) : BrokerEntity :=
  BQueue (Build_BrokerQueue n "" "" 0 false false false).
Definition address_named (n : string) : BrokerEntity := BAddress (Build_BrokerAddress n "").
Definition divert_named (n : string) : BrokerEntity :=
  BDivert (Build_BrokerDivert n "" "" "" false "" "").

(** The address settings of one queue: of the answers for one name the last one
    stays. *)
Definition read_setting (name : string) : prog W (list BrokerEntity) :=
  j ← request_json "address setting"
        (newManagementMessage "broker" "getAddressSettingsAsJSON" "" [JStr name]);
  entry ← lift (json_strings j);
  lift (map_outcome (λ e, j ← unmarshal e; s ← decode_setting j;
                          mret (BAddressSetting (set_s_Name name s))) entry).

Fixpoint read_settings (names : list string) (m : gmap string BrokerEntity)
    : prog W (gmap string BrokerEntity) :=
  match names with
  | [] => mret m
  | name :: names' =>
      ss ← read_setting name;
      read_settings names' (foldl (λ m s, <[name := s]> m) m ss)
  end.

(** [readEntities]; the address settings are read for every cached queue. *)
Definition bReadEntities (t : tick) (queues : gmap string BrokerEntity) (ty : BrokerEntityType)
    : prog W (gmap string BrokerEntity) :=
  if bool_decide (ty = BrokerQueueEntity) then read_names "queues" "getQueueNames" queue_named
  else if bool_decide (ty = BrokerAddressEntity)
  then read_names "addresses" "getAddressNames" address_named
  else if bool_decide (ty = BrokerDivertEntity)
  then read_names "diverts" "getDivertNames" divert_named
  else if bool_decide (ty = BrokerAddressSettingEntity)
  then read_settings (range_keys t queues) ∅
  else lift (Err (Errorf ("Unsupported entity type " +:+ ty))).

(** One turn of the loop of [Initialize]. *)
Definition b_load_entities (t : tick) (ty : BrokerEntityType) : prog (BrokerState W) () := λ b,
  let queues := default ∅ (b_entities b !! BrokerQueueEntity) in
  match b_with_client (bReadEntities t queues ty) b with
  | (b, Ok list) => (set_b_entities (<[ty := list]> (b_entities b)) b, Ok ())
  | (b, Err e) => (b, Err e)
  | (b, Panic) => (b, Panic)
  end.

(** [b.commandClient.ReconnectCount()]. *)
Definition b_clientReconnectCount : prog (BrokerState W) Z := b_with_client (λ w, (w, Ok (ReconnectCount w))).

(** The part of [Initialize] for a state that is not initialized. *)
Definition b_load (t : tick) (next : Z) : prog (BrokerState W) () :=
  _ ← modify (set_b_nextResync next);
  count ← b_clientReconnectCount;
  _ ← modify (set_b_reconnectCount count);
  _ ← for_each (b_load_entities t) bEntityTypes;
  modify (set_b_initialized true).

Definition b_unless_initialized (p : prog (BrokerState W) ()) : prog (BrokerState W) () := λ b,
  if b_initialized b then (b, Ok ()) else p b.

(** [Initialize]. *)
Definition bInitialize (t : tick) (next : Z) : prog (BrokerState W) () :=
  count ← b_clientReconnectCount;
  _ ← modify (λ b, if bool_decide (b_reconnectCount b = count) then b else set_b_initialized false b);
  b_unless_initialized (b_load t next).

(** [Reset]. *)
Definition bReset b : BrokerState W :=
  match b_commandClient b with
  | Some w =>
      if b_initialized b
      then set_b_commandClient (Some (Start (Stop w))) (set_b_initialized false b)
      else b
  | None => b
  end.

(** [Shutdown]. *)
Definition bShutdown b : BrokerState W :=
  match b_commandClient b with
  | Some w => set_b_commandClient (Some (Stop w)) b
  | None => b
  end.

(** [b.entities[t][name]]. *)
Definition b_cached b (t : BrokerEntityType) (name : string) : option BrokerEntity :=
  b_entities b !! t ≫= λ m, m !! name.

(** The entities [EnsureEntities] has to create. *)
Fixpoint bToCreate b (es : list BrokerEntity) : outcome (list BrokerEntity) :=
  match es with
  | [] => Ok []
  | entity :: es' =>
      match b_cached b (bType entity) (bGetName entity) with
      | Some existing =>
          if bEquals existing entity then bToCreate b es'
          else Err (Errorf ("broker entity " +:+ bType entity +:+ " " +:+ bGetName existing
                            +:+ " was updated - updates are not supported"))
      | None => l ← bToCreate b es'; mret (entity :: l)
      end
  end.

(** The goroutines of a round, which report the entity they are done with. *)
Definition b_create_task (e : BrokerEntity) : prog (BrokerState W) BrokerEntity :=
  b_with_client (Create e) ≫= λ _, mret e.

Definition b_delete_task (e : BrokerEntity) : prog (BrokerState W) BrokerEntity :=
  b_with_client (Delete e) ≫= λ _, mret e.

(** The rounds of [EnsureEntities] and [DeleteEntities]: in each of the given
    orders, the entities of that order that [todo] selects, concurrently; a round
    starts when the one before it has succeeded. *)
Fixpoint b_rounds (task : BrokerEntity → prog (BrokerState W) BrokerEntity)
    (todo : BrokerState W → BrokerEntity → bool) (t : tick) (orders : list nat)
    (es : list BrokerEntity) (completed : list BrokerEntity) b
    : BrokerState W * option (list BrokerEntity * option error) :=
  match orders with
  | [] => (b, Some (completed, None))
  | order :: orders' =>
      match group (order :: t) task
              (filter (λ e, bOrder e = order ∧ todo b e = true) es) b with
      | (b', None) => (b', None)
      | (b', Some (done, Some e)) => (b', Some (completed ++ done, Some e))
      | (b', Some (done, None)) => b_rounds task todo t orders' es (completed ++ done) b'
      end
  end.

(** [b.entities[entity.Type()][entity.GetName()] = entity]. *)
Definition b_store_entity (e : BrokerEntity) : prog (BrokerState W) () := λ b,
  match b_entities b !! bType e with
  | None => (b, Panic)
  | Some m => (set_b_entities (<[bType e := <[bGetName e := e]> m]> (b_entities b)) b, Ok ())
  end.

(** [delete(b.entities[entity.Type()], entity.GetName())]. *)
Definition b_forget_entity (e : BrokerEntity) : prog (BrokerState W) () := λ b,
  (set_b_entities (alter (delete (bGetName e)) (bType e) (b_entities b)) b, Ok ()).

(** The end of [EnsureEntities] and [DeleteEntities]. *)
Definition b_finish (err : option error) (record : prog (BrokerState W) ())
    : prog (BrokerState W) () := λ b,
  let b := if isConnectionError err then bReset b else b in
  match record b with
  | (b, Ok _) => (b, return_err err)
  | (b, o) => (b, o)
  end.

Definition is_cached b (e : BrokerEntity) : bool :=
  match b_cached b (bType e) (bGetName e) with Some _ => true | None => false end.

(** [EnsureEntities]. *)
Definition bEnsureEntities (t : tick) (es : list BrokerEntity) : prog (BrokerState W) () := λ b,
  if negb (b_initialized b) then (b, Err NotInitializedError)
  else match bToCreate b es with
  | Err e => (b, Err e)
  | Panic => (b, Panic)
  | Ok todo =>
      match b_rounds b_create_task (λ b e, negb (is_cached b e)) t (seq 0 bMaxOrder) todo [] b with
      | (b, None) => (b, Panic)
      | (b, Some (completed, err)) => b_finish err (for_each b_store_entity completed) b
      end
  end.

(** [DeleteEntities]: from the highest order down, what is cached. *)
Definition bDeleteEntities (t : tick) (es : list BrokerEntity) : prog (BrokerState W) () := λ b,
  if negb (b_initialized b) then (b, Err NotInitializedError)
  else match b_rounds b_delete_task is_cached t (reverse (seq 0 bMaxOrder)) es [] b with
  | (b, None) => (b, Panic)
  | (b, Some (completed, err)) => b_finish err (for_each b_forget_entity completed) b
  end.
End Broker.
