(* ===== verification/BrokerFacts.v ===== *)
(** Correctness of the broker state: what [EnsureEntities] and [DeleteEntities]
    do to the cache on every branch, and the order of their requests: queues are
    created after the addresses they hang on, and deleted before them. *)
From stdpp Require Import base gmap strings pretty list fin_maps.
From S2P Require Import Prelude Go Client Json BrokerTypes Broker.

Definition bkey (e : BrokerEntity) : BrokerEntityType * string := (bType e, bGetName e).

(** Broker entities are compared by type and name. *)
Lemma bEquals_key b o : bEquals b o = true ↔ bkey b = bkey o.
Proof.
  unfold bkey. transitivity (bType b = bType o ∧ bGetName b = bGetName o).
  - destruct b; simpl; by rewrite andb_true_iff, !bool_decide_eq_true.
  - split; [by intros [-> ->]|by intros [= -> ->]].
Qed.

Lemma bOrder_lt e : bOrder e < bMaxOrder.
Proof. destruct e; unfold bMaxOrder; simpl; lia. Qed.

Lemma bType_in e : bType e ∈ bEntityTypes.
Proof.
  unfold bEntityTypes. rewrite !elem_of_cons. destruct e; simpl; auto.
Qed.

Section BrokerFacts.
Context {W : Type} `{HC : !Client W} `{HS : !Sched}.
Implicit Types b : BrokerState W.

(** ** Frames *)

Definition b_only_client b b' : Prop := b' = set_b_commandClient (b_commandClient b') b.

Lemma b_only_client_refl b : b_only_client b b.
Proof. by destruct b. Qed.

Lemma b_only_client_trans b1 b2 b3 :
  b_only_client b1 b2 → b_only_client b2 b3 → b_only_client b1 b3.
Proof. unfold b_only_client. intros -> ->. done. Qed.

Lemma b_with_client_frame {A} (c : prog W A) b : b_only_client b (b_with_client c b).1.
Proof.
  unfold b_with_client. destruct (b_commandClient b) eqn:E; [|by apply b_only_client_refl].
  by destruct (c w).
Qed.

Lemma b_with_client_some {A} (c : prog W A) b :
  is_Some (b_commandClient b) → is_Some (b_commandClient (b_with_client c b).1).
Proof. unfold b_with_client. intros [w Hw]. rewrite Hw. by destruct (c w). Qed.

(** A task of [EnsureEntities] or [DeleteEntities]: it talks to the client and
    reports the entity it was given. *)
Definition is_task (task : BrokerEntity → prog (BrokerState W) BrokerEntity) : Prop :=
  ∃ c : BrokerEntity → prog W (), ∀ e b, task e b = (b_with_client (c e) ≫= λ _, mret e) b.

Lemma b_create_is_task : is_task b_create_task.
Proof. by exists Create. Qed.
Lemma b_delete_is_task : is_task b_delete_task.
Proof. by exists Delete. Qed.

Lemma task_spec task e b :
  is_task task →
  b_only_client b (task e b).1 ∧
  (is_Some (b_commandClient b) → is_Some (b_commandClient (task e b).1)) ∧
  (∀ x, (task e b).2 = Ok x → x = e).
Proof.
  intros [c Hc]. rewrite Hc. go_simpl.
  pose proof (b_with_client_frame (c e) b) as Hf.
  pose proof (b_with_client_some (c e) b) as Hs.
  destruct (b_with_client _ b) as [b' []]; simpl in *; naive_solver.
Qed.

Section Rounds.
Context (task : BrokerEntity → prog (BrokerState W) BrokerEntity) (Htask : is_task task).

Lemma b_group_frame t l b :
  b_only_client b (group t task l b).1 ∧
  (is_Some (b_commandClient b) → is_Some (b_commandClient (group t task l b).1)).
Proof.
  unfold group. apply (go_each_inv task (λ b', b_only_client b b' ∧
    (is_Some (b_commandClient b) → is_Some (b_commandClient b')))).
  { split; [apply b_only_client_refl|done]. }
  intros e b' _ [H1 H2]. destruct (task_spec task e b' Htask) as (H3 & H4 & _).
  split; [by eapply b_only_client_trans|auto].
Qed.

(** A group without error reports exactly its entities, any group only those. *)
Lemma b_group_done t l b b' dn err :
  group t task l b = (b', Some (dn, err)) →
  (∀ e, e ∈ dn → e ∈ l) ∧ (err = None → ∀ e, e ∈ l → e ∈ dn).
Proof.
  intros H. setoid_rewrite <-(elem_of_perm t l).
  eapply (go_each_rule task (λ pre dn err _,
    (∀ e, e ∈ dn → e ∈ pre) ∧ (err = None → ∀ e, e ∈ pre → e ∈ dn)) (perm t l) [] ([], None))
    in H; simpl in *; [done|split; [|intros _]; by intros e ?%not_elem_of_nil|].
  intros pre a dn' err' s _ [IH1 IH2].
  destruct (task_spec task a s Htask) as (_ & _ & Hok).
  destruct (task a s) as [s' [x|e|]]; simpl in *; [|split|done];
    setoid_rewrite elem_of_app; setoid_rewrite list_elem_of_singleton.
  - rewrite (Hok x eq_refl). split; [intros e [He|He]; auto|].
    intros -> e [He|He]; [left; auto|by right].
  - intros e' He. left; auto.
  - by destruct err'.
Qed.

Context (todo : BrokerState W → BrokerEntity → bool).
Context (Htodo : ∀ b b' e, b_only_client b b' → todo b' e = todo b e).

Lemma b_rounds_spec t orders es c b b' dn err :
  b_rounds task todo t orders es c b = (b', Some (dn, err)) →
  (∀ e, e ∈ dn → e ∈ c ∨ (e ∈ es ∧ bOrder e ∈ orders ∧ todo b e = true)) ∧
  (err = None → ∀ e, e ∈ c ∨ (e ∈ es ∧ bOrder e ∈ orders ∧ todo b e = true) → e ∈ dn).
Proof.
  revert c b. induction orders as [|o os IH]; intros c b; simpl.
  { intros [= <- <- <-]. split; [by auto|]. intros _ e [?|(_ & ?%not_elem_of_nil & _)]; done. }
  destruct (b_group_frame (o :: t) (filter (λ e, bOrder e = o ∧ todo b e = true) es) b) as [Hf _].
  destruct (group _ _ _ b) as [b1 [[d1 err1]|]] eqn:Hg; [|done]. simpl in Hf.
  apply b_group_done in Hg as [Hsub Hall].
  setoid_rewrite list_elem_of_filter in Hsub. setoid_rewrite list_elem_of_filter in Hall.
  setoid_rewrite elem_of_cons.
  destruct err1 as [e1|].
  - intros [= <- <- <-]. split; [|done]. intros e [He|He]%elem_of_app; [by left|].
    right. destruct (Hsub e He) as [[-> ?] ?]. auto.
  - intros [IH1 IH2]%IH. setoid_rewrite elem_of_app in IH1. setoid_rewrite elem_of_app in IH2.
    assert (∀ e, todo b1 e = todo b e) as Ht1 by (intros; by apply Htodo).
    setoid_rewrite Ht1 in IH1. setoid_rewrite Ht1 in IH2. split.
    + intros e [[He|He]|(He & Ho & Ht)]%IH1; [by left| |right; auto].
      right. destruct (Hsub e He) as [[-> ?] ?]. auto.
    + intros He e Hor. apply IH2; [done|]. destruct Hor as [?|(? & [Ho|Ho] & ?)]; auto 8.
Qed.

Lemma b_rounds_frame t orders es c b :
  b_only_client b (b_rounds task todo t orders es c b).1 ∧
  (is_Some (b_commandClient b) →
   is_Some (b_commandClient (b_rounds task todo t orders es c b).1)).
Proof.
  revert c b. induction orders as [|o os IH]; intros c b; simpl;
    [split; [apply b_only_client_refl|done]|].
  destruct (b_group_frame (o :: t) (filter (λ e, bOrder e = o ∧ todo b e = true) es) b)
    as [Hf Hs].
  destruct (group _ _ _ b) as [b1 [[d1 [e1|]]|]]; simpl in *; [done| |done].
  destruct (IH (c ++ d1) b1) as [Hf1 Hs1]. split; [by eapply b_only_client_trans|auto].
Qed.
End Rounds.

(** ** The cache *)

(** The maps of the four types exist and every entity is cached under its key. *)
Record b_wf b : Prop := {
  b_wf_client : is_Some (b_commandClient b);
  b_wf_types : b_initialized b = true → ∀ t, t ∈ bEntityTypes → is_Some (b_entities b !! t);
  b_wf_keyed : ∀ t n e, b_cached b t n = Some e → bkey e = (t, n);
}.

Lemma b_only_client_cached b b' t n : b_only_client b b' → b_cached b' t n = b_cached b t n.
Proof. by intros ->. Qed.

Lemma is_cached_spec b e : is_cached b e = true ↔ is_Some (b_cached b (bType e) (bGetName e)).
Proof. unfold is_cached. destruct (b_cached _ _ _); split; done. Qed.

Lemma is_cached_frame b b' e : b_only_client b b' → is_cached b' e = is_cached b e.
Proof. by intros ->. Qed.

(** On a well-formed cache nothing conflicts: what is missing is created. *)
Lemma bToCreate_spec b es :
  b_wf b →
  bToCreate b es = Ok (filter (λ e, is_cached b e = false) es).
Proof.
  intros Hwf. induction es as [|e es IH]; [done|]. cbn [bToCreate].
  rewrite filter_cons. pose proof (is_cached_spec b e) as Hc.
  destruct (b_cached b (bType e) (bGetName e)) as [x|] eqn:E.
  - rewrite decide_False by (rewrite (proj2 Hc); done).
    rewrite (proj2 (bEquals_key x e)); [done|]. by apply (b_wf_keyed _ Hwf) in E.
  - rewrite decide_True; [by rewrite IH|].
    destruct (is_cached b e); [|done]. by destruct (proj1 Hc).
Qed.

Lemma b_store_entity_spec e b m :
  b_entities b !! bType e = Some m →
  ∃ b', b_store_entity e b = (b', Ok ()) ∧
    (∀ t n, b_cached b' t n = if bool_decide (bkey e = (t, n)) then Some e else b_cached b t n) ∧
    (∀ t, is_Some (b_entities b !! t) → is_Some (b_entities b' !! t)) ∧
    b' = set_b_entities (b_entities b') b.
Proof.
  intros Hm. unfold b_store_entity. rewrite Hm. eexists. split_and!; [done|..|done].
  - intros t n. unfold b_cached, bkey. simpl. rewrite lookup_insert. case_decide as Ht.
    + subst t. simpl. rewrite lookup_insert, Hm. simpl.
      case_decide; case_bool_decide; try done; congruence.
    + rewrite bool_decide_eq_false_2 by congruence. done.
  - intros t Ht. simpl. rewrite lookup_insert. case_decide; eauto.
Qed.

Lemma b_store_all_spec l b :
  (∀ t, t ∈ bEntityTypes → is_Some (b_entities b !! t)) →
  ∃ b', for_each b_store_entity l b = (b', Ok ()) ∧
    (∀ e, e ∈ l → ∃ x, b_cached b' (bType e) (bGetName e) = Some x ∧ bkey x = bkey e) ∧
    (∀ t n, (t, n) ∉ bkey <$> l → b_cached b' t n = b_cached b t n) ∧
    b' = set_b_entities (b_entities b') b.
Proof.
  revert b. induction l as [|e l IH]; intros b Ht; simpl; go_simpl.
  { exists b. split_and!; [done|by intros e ?%not_elem_of_nil|done|by destruct b]. }
  destruct (Ht _ (bType_in e)) as [m Hm].
  destruct (b_store_entity_spec e b m Hm) as (b1 & -> & Hc & Ht1 & Hb1).
  destruct (IH b1) as (b' & Hrun & Hin & Hout & Hb'); [auto|].
  exists b'. split_and!; [done|..|by rewrite Hb', Hb1].
  - intros x [->|Hx]%elem_of_cons; [|by apply Hin].
    destruct (decide (bkey e ∈ bkey <$> l)) as [(y & Hk & Hy)%list_elem_of_fmap|Hno].
    + destruct (Hin y Hy) as (z & Hz & Hkz). exists z. rewrite Hk. split; [|done].
      unfold bkey in Hk. by simplify_eq; rewrite H, H0.
    + exists e. rewrite Hout by done. rewrite Hc, bool_decide_eq_true_2; done.
  - intros t n Hno. apply not_elem_of_cons in Hno as [Hne Hno].
    rewrite Hout, Hc by done. by rewrite bool_decide_eq_false_2.
Qed.

Lemma b_forget_all_spec l b :
  ∃ b', for_each b_forget_entity l b = (b', Ok ()) ∧
    (∀ t n, (t, n) ∈ bkey <$> l → b_cached b' t n = None) ∧
    (∀ t n, (t, n) ∉ bkey <$> l → b_cached b' t n = b_cached b t n) ∧
    (∀ t, is_Some (b_entities b' !! t) ↔ is_Some (b_entities b !! t)) ∧
    b' = set_b_entities (b_entities b') b.
Proof.
  revert b. induction l as [|e l IH]; intros b; cbn [for_each]; go_simpl.
  { exists b. split_and!; [done|by intros ?? ?%not_elem_of_nil|done|done|by destruct b]. }
  set (b1 := set_b_entities (alter (delete (bGetName e)) (bType e) (b_entities b)) b).
  assert (∀ t n, b_cached b1 t n = if bool_decide (bkey e = (t, n)) then None else b_cached b t n)
    as Hc.
  { intros t n. unfold b_cached, bkey. simpl. rewrite lookup_alter.
    case_decide as Ht; case_bool_decide as Hk; simplify_eq; try done;
      destruct (b_entities b !! _); simpl; try done; [apply lookup_delete_eq|].
    apply lookup_delete_ne. congruence. }
  destruct (IH b1) as (b' & Hrun & Hin & Hout & Ht & Hb').
  exists b'. split_and!; [done|..|by rewrite Hb'].
  - intros t n [Hk|Hl]%elem_of_cons; [|auto].
    destruct (decide ((t, n) ∈ bkey <$> l)); [auto|]. rewrite Hout by done.
    rewrite Hc, bool_decide_eq_true_2; done.
  - intros t n Hno. apply not_elem_of_cons in Hno as [Hne Hno].
    rewrite Hout, Hc by done. by rewrite bool_decide_eq_false_2.
  - intros t. rewrite Ht. simpl. rewrite lookup_alter. case_decide; [|done]. subst.
    by rewrite fmap_is_Some.
Qed.

Lemma bReset_spec b :
  is_Some (b_commandClient b) →
  b_initialized (bReset b) = false ∧ b_entities (bReset b) = b_entities b ∧
  is_Some (b_commandClient (bReset b)).
Proof.
  unfold bReset. intros [w Hw]. rewrite Hw.
  destruct (b_initialized b) eqn:E; simpl; rewrite ?Hw; auto.
Qed.

(** ** Invariant *)

Lemma b_only_client_wf b b' :
  b_only_client b b' → is_Some (b_commandClient b') → b_wf b → b_wf b'.
Proof. intros Hf Hc [_ Ht Hk]. rewrite Hf. split; [by rewrite Hf in Hc|done|done]. Qed.

Lemma bReset_wf b : b_wf b → b_wf (bReset b).
Proof.
  intros Hwf. destruct (bReset_spec b (b_wf_client _ Hwf)) as (Hi & He & Hc).
  split; [done|congruence|]. intros t n e. unfold b_cached. rewrite He. apply (b_wf_keyed _ Hwf).
Qed.

Lemma b_store_entity_wf e b : b_wf b → b_wf (b_store_entity e b).1.
Proof.
  intros Hwf. destruct (b_entities b !! bType e) as [m|] eqn:Hm;
    [|unfold b_store_entity; by rewrite Hm].
  destruct (b_store_entity_spec e b m Hm) as (b' & -> & Hc & Ht & Hb'). simpl.
  destruct Hwf as [Hw Hty Hk]. split.
  - by rewrite Hb'.
  - intros Hi t Hin. apply Ht, Hty; [|done]. by rewrite Hb' in Hi.
  - intros t n x. rewrite Hc. case_bool_decide; [congruence|apply Hk].
Qed.

Lemma b_forget_entity_wf e b : b_wf b → b_wf (b_forget_entity e b).1.
Proof.
  intros [Hw Hty Hk].
  destruct (b_forget_all_spec [e] b) as (b' & Hrun & Hin & Hout & Ht & Hb').
  cbn in Hrun. go_simpl. injection Hrun as Hrun. cbn. rewrite Hrun. split.
  - by rewrite Hb'.
  - intros Hi t Hty'. apply Ht, Hty; [|done]. by rewrite Hb' in Hi.
  - intros t n x. destruct (decide ((t, n) ∈ bkey <$> [e])).
    + by rewrite Hin.
    + rewrite Hout by done. apply Hk.
Qed.

Lemma b_finish_wf err record b :
  (∀ b, b_wf b → b_wf (record b).1) → b_wf b → b_wf (b_finish err record b).1.
Proof.
  intros Hrec Hb. unfold b_finish.
  assert (b_wf (if isConnectionError err then bReset b else b)) as H1.
  { case_match; [by apply bReset_wf|done]. }
  apply Hrec in H1. by destruct (record _) as [b' []].
Qed.

Lemma b_rounds_wf task todo t orders es c b :
  is_task task → b_wf b → b_wf (b_rounds task todo t orders es c b).1.
Proof.
  intros Htask Hwf. destruct (b_rounds_frame task Htask todo t orders es c b) as [Hf Hs].
  eapply b_only_client_wf; [exact Hf|apply Hs, Hwf|done].
Qed.

Lemma bEnsure_wf t es b : b_wf b → b_wf (bEnsureEntities t es b).1.
Proof.
  intros Hb. unfold bEnsureEntities. case_match; [done|]. rewrite bToCreate_spec by done.
  pose proof (b_rounds_wf b_create_task (λ b e, negb (is_cached b e)) t (seq 0 bMaxOrder)
    (filter (λ e, is_cached b e = false) es) [] b b_create_is_task Hb).
  destruct (b_rounds _ _ _ _ _ _ b) as [b' [[c err]|]]; [|done].
  apply b_finish_wf; [|done]. intros b1 Hb1. apply for_each_inv; [done|].
  intros. by apply b_store_entity_wf.
Qed.

Lemma bDelete_wf t es b : b_wf b → b_wf (bDeleteEntities t es b).1.
Proof.
  intros Hb. unfold bDeleteEntities. case_match; [done|].
  pose proof (b_rounds_wf b_delete_task is_cached t (reverse (seq 0 bMaxOrder)) es [] b
    b_delete_is_task Hb).
  destruct (b_rounds _ _ _ _ _ _ b) as [b' [[c err]|]]; [|done].
  apply b_finish_wf; [|done]. intros b1 Hb1. apply for_each_inv; [done|].
  intros. by apply b_forget_entity_wf.
Qed.

(** ** [EnsureEntities] and [DeleteEntities] on each branch *)

Lemma b_finish_ok err record b b' :
  b_finish err record b = (b', Ok ()) → err = None ∧ record b = (b', Ok ()).
Proof.
  unfold b_finish, isConnectionError. destruct err as [e|]; simpl.
  - destruct (record _) as [b1 [[]| |]]; simpl; naive_solver.
  - destruct (record b) as [b1 [[]| |]]; simpl; naive_solver.
Qed.

Lemma bOrder_up e : bOrder e ∈ seq 0 bMaxOrder.
Proof. apply elem_of_seq. pose proof (bOrder_lt e). lia. Qed.

Lemma bOrder_down e : bOrder e ∈ reverse (seq 0 bMaxOrder).
Proof. rewrite elem_of_reverse. apply bOrder_up. Qed.

Lemma bEnsure_spec t es b b' :
  b_wf b → bEnsureEntities t es b = (b', Ok ()) →
  b_initialized b = true ∧ b_initialized b' = true ∧
  (∀ e, e ∈ es → is_Some (b_cached b' (bType e) (bGetName e))) ∧
  (∀ ty n, is_Some (b_cached b ty n) ∨ (ty, n) ∉ bkey <$> es →
     b_cached b' ty n = b_cached b ty n).
Proof.
  intros Hwf. unfold bEnsureEntities. destruct (b_initialized b) eqn:Hi; cbn [negb]; [|done].
  rewrite bToCreate_spec by done. set (todo := filter _ es).
  destruct (b_rounds_frame b_create_task b_create_is_task (λ b e, negb (is_cached b e)) t
    (seq 0 bMaxOrder) todo [] b) as [Hf _].
  destruct (b_rounds _ _ _ _ _ _ b) as [b1 [[dn err]|]] eqn:Hr; [|done]. simpl in Hf.
  intros [-> Hst]%b_finish_ok.
  apply b_rounds_spec in Hr as [Hsub Hall]; [|apply b_create_is_task|
    intros b2 b3 e Hbb; by rewrite (is_cached_frame b2 b3 e Hbb)].
  assert (∀ e, e ∈ dn ↔ e ∈ es ∧ is_cached b e = false) as Hdn.
  { intros e. split.
    - intros [?%not_elem_of_nil|(He & _ & _)]%Hsub; [done|].
      by apply list_elem_of_filter in He as [? ?].
    - intros [He Hc]. apply Hall; [done|]. right. rewrite Hc. split_and!; [|apply bOrder_up|done].
      by apply list_elem_of_filter. }
  destruct (b_store_all_spec dn b1) as (b2 & Hrun & Hin & Hout & Hb2).
  { intros ty Hty. rewrite Hf. by apply (b_wf_types _ Hwf). }
  rewrite Hrun in Hst. injection Hst as ->.
  split_and!; [done|by rewrite Hb2, Hf|..].
  - intros e He. destruct (is_cached b e) eqn:Ec.
    + destruct (decide ((bType e, bGetName e) ∈ bkey <$> dn))
        as [(x & Hk & Hx)%list_elem_of_fmap|Hno].
      * unfold bkey in Hk. injection Hk as -> ->. destruct (Hin x Hx) as (y & -> & _). done.
      * rewrite Hout, (b_only_client_cached _ _ _ _ Hf) by done. by apply is_cached_spec.
    + destruct (Hin e) as (y & -> & _); [by apply Hdn|done].
  - intros ty n Hor. rewrite Hout; [by rewrite (b_only_client_cached _ _ _ _ Hf)|].
    intros (x & Hk & [Hx Hc]%Hdn)%list_elem_of_fmap. destruct Hor as [Hor|Hor].
    + unfold bkey in Hk. injection Hk as -> ->. apply is_cached_spec in Hor. congruence.
    + apply Hor, list_elem_of_fmap. eauto.
Qed.

Lemma bDelete_spec t es b b' :
  b_wf b → bDeleteEntities t es b = (b', Ok ()) →
  b_initialized b = true ∧ b_initialized b' = true ∧
  (∀ e, e ∈ es → b_cached b' (bType e) (bGetName e) = None) ∧
  (∀ ty n, (ty, n) ∉ bkey <$> es → b_cached b' ty n = b_cached b ty n).
Proof.
  intros Hwf. unfold bDeleteEntities. destruct (b_initialized b) eqn:Hi; cbn [negb]; [|done].
  destruct (b_rounds_frame b_delete_task b_delete_is_task is_cached t
    (reverse (seq 0 bMaxOrder)) es [] b) as [Hf _].
  destruct (b_rounds _ _ _ _ _ _ b) as [b1 [[dn err]|]] eqn:Hr; [|done]. simpl in Hf.
  intros [-> Hst]%b_finish_ok.
  apply b_rounds_spec in Hr as [Hsub Hall]; [|apply b_delete_is_task|
    intros ?? e ?; by apply is_cached_frame].
  destruct (b_forget_all_spec dn b1) as (b2 & Hrun & Hin & Hout & _ & Hb2).
  rewrite Hrun in Hst. injection Hst as ->.
  split_and!; [done|by rewrite Hb2, Hf|..].
  - intros e He. destruct (is_cached b e) eqn:Ec.
    + apply Hin, list_elem_of_fmap. exists e. split; [done|].
      apply Hall; [done|]. right. split_and!; [done|apply bOrder_down|done].
    + destruct (decide ((bType e, bGetName e) ∈ bkey <$> dn)) as [|Hno]; [by apply Hin|].
      rewrite Hout, (b_only_client_cached _ _ _ _ Hf) by done.
      unfold is_cached in Ec. by destruct (b_cached b _ _).
  - intros ty n Hno. rewrite Hout; [by rewrite (b_only_client_cached _ _ _ _ Hf)|].
    intros (x & Hk & Hx)%list_elem_of_fmap. apply Hno, list_elem_of_fmap.
    destruct (Hsub x Hx) as [?%not_elem_of_nil|(? & _)]; [done|]. eauto.
Qed.

(** A failed call leaves the state as it was or gives up the claim to know the
    broker. *)
Lemma b_finish_err err record b b' e :
  (∀ b, b_initialized (record b).1 = b_initialized b) →
  (∀ b b' e, record b ≠ (b', Err e)) →
  is_Some (b_commandClient b) →
  b_finish err record b = (b', Err e) → err = Some e ∧ b_initialized b' = false.
Proof.
  intros Hrec Hne Hc. unfold b_finish, isConnectionError. destruct err as [e'|]; simpl.
  - pose proof (Hrec (bReset b)) as Hi. destruct (bReset_spec b Hc) as (HR & _ & _).
    destruct (record (bReset b)) as [b1 [[]| |]] eqn:E; simpl in *; [|by apply Hne in E|done].
    intros [= <- <-]. split; [done|congruence].
  - destruct (record b) as [b1 [[]| |]] eqn:E; simpl; [done|by apply Hne in E|done].
Qed.

Lemma b_store_initialized l b :
  b_initialized (for_each b_store_entity l b).1 = b_initialized b.
Proof.
  apply (for_each_inv (λ b', b_initialized b' = b_initialized b)); [done|].
  intros e b' _ <-. unfold b_store_entity. by case_match.
Qed.

Lemma b_store_no_err l b b' e : for_each b_store_entity l b ≠ (b', Err e).
Proof.
  revert b. induction l as [|x l IH]; intros b; simpl; go_simpl; [done|].
  unfold b_store_entity at 1. destruct (b_entities b !! bType x); [apply IH|done].
Qed.

Lemma bEnsure_failed t es b b' e :
  b_wf b → bEnsureEntities t es b = (b', Err e) → b' = b ∨ b_initialized b' = false.
Proof.
  intros Hwf. unfold bEnsureEntities. destruct (b_initialized b) eqn:Hi; cbn [negb];
    [|intros [= <- _]; by left].
  rewrite bToCreate_spec by done.
  pose proof (b_rounds_wf b_create_task (λ b e, negb (is_cached b e)) t (seq 0 bMaxOrder)
    (filter (λ e, is_cached b e = false) es) [] b b_create_is_task Hwf) as Hw1.
  destruct (b_rounds _ _ _ _ _ _ b) as [b1 [[dn err]|]]; [|done].
  intros [_ ?]%b_finish_err; [by right| | |apply Hw1].
  - intros b2. apply b_store_initialized.
  - intros. apply b_store_no_err.
Qed.
End BrokerFacts.

(** ** The requests and their order *)

Section Requests.
Context {W : Type} `{HC : !Client W} `{HS : !Sched}.
#[local] Existing Instance LogClient.
Implicit Types b : BrokerState (W * list Message).

(** A task that issues the one request [msg e]. *)
Definition sends (task : BrokerEntity → prog (BrokerState (W * list Message)) BrokerEntity)
    (msg : BrokerEntity → Message) : Prop :=
  ∀ e b w log, b_commandClient b = Some (w, log) →
  ∃ w', b_commandClient (task e b).1 = Some (w', log ++ [msg e]).

Lemma operation_log (msg : Message) (k : Message → prog (W * list Message) ()) w log :
  (∀ m s, (k m s).1 = s) →
  ∃ w', ((bDoRequest msg ≫= k) (w, log)).1 = (w', log ++ [msg]).
Proof.
  intros Hk. go_simpl. unfold bDoRequest, RequestWithTimeout, log_request. simpl.
  destruct (RequestWithTimeout msg w) as [w' [resp| |]]; simpl; rewrite ?Hk; eauto.
Qed.

Lemma task_sends (c : BrokerEntity → prog (W * list Message) ()) (msg : BrokerEntity → Message) :
  (∀ e w log, ∃ w', (c e (w, log)).1 = (w', log ++ [msg e])) →
  sends (λ e, b_with_client (c e) ≫= λ _, mret e) msg.
Proof.
  intros Hc e b w log Hw. unfold b_with_client. go_simpl. rewrite Hw.
  destruct (Hc e w log) as [w' Hw']. exists w'.
  destruct (c e (w, log)) as [wl []]; simpl in *; by subst.
Qed.

Lemma create_sends : sends b_create_task create_message.
Proof.
  apply (task_sends Create). intros e w log. apply operation_log. intros m s.
  unfold lift. go_simpl. destruct (success m) as [[]| |]; done.
Qed.

Lemma delete_sends : sends b_delete_task delete_message.
Proof.
  apply (task_sends Delete). intros e w log. apply operation_log. intros m s.
  unfold lift. go_simpl. destruct (success m) as [[]| |]; done.
Qed.

Section Task.
Context (task : BrokerEntity → prog (BrokerState (W * list Message)) BrokerEntity)
  (msg : BrokerEntity → Message) (Hsends : sends task msg).

Lemma b_go_each_log l acc b w log :
  b_commandClient b = Some (w, log) →
  ∃ w' k, b_commandClient (go_each task l acc b).1 = Some (w', log ++ (msg <$> k)) ∧ k ⊆ l.
Proof.
  revert acc b w log. induction l as [|e l IH]; intros acc b w log Hc; simpl.
  { exists w, []. rewrite app_nil_r. split; [done|apply list_subseteq_nil]. }
  destruct (Hsends e b w log Hc) as [w1 H1].
  destruct (task e b) as [b1 [x|err|]]; simpl in *;
    [destruct (IH (acc.1 ++ [x], acc.2) _ _ _ H1) as (w2 & k & H2 & Hp)
    |destruct (IH (acc.1, first_err acc.2 err) _ _ _ H1) as (w2 & k & H2 & Hp)
    |exists w1, [e]; split; [done|by apply list_subseteq_skip, list_subseteq_nil]];
    exists w2, (e :: k); (split; [|by apply list_subseteq_skip]); by rewrite <-app_assoc in H2.
Qed.

Lemma b_group_log t l b w log :
  b_commandClient b = Some (w, log) →
  ∃ w' k, b_commandClient (group t task l b).1 = Some (w', log ++ (msg <$> k)) ∧ k ⊆ l.
Proof.
  intros Hc. destruct (b_go_each_log (perm t l) ([], None) b w log Hc) as (w' & k & H & Hk).
  exists w', k. split; [exact H|]. by rewrite <-(perm_ok t l).
Qed.

(** Two rounds: what the first one sends comes before what the second sends. *)
Lemma b_rounds_log todo t o1 o2 es b w log :
  b_commandClient b = Some (w, log) →
  ∃ w' l1 l2,
    b_commandClient (b_rounds task todo t [o1; o2] es [] b).1
      = Some (w', log ++ (msg <$> (l1 ++ l2))) ∧
    (∀ e, e ∈ l1 → bOrder e = o1 ∧ e ∈ es) ∧ (∀ e, e ∈ l2 → bOrder e = o2 ∧ e ∈ es).
Proof.
  intros Hc. simpl.
  destruct (b_group_log (o1 :: t) (filter (λ e, bOrder e = o1 ∧ todo b e = true) es) b w log Hc)
    as (w1 & l1 & H1 & Hs1).
  assert (∀ e, e ∈ l1 → bOrder e = o1 ∧ e ∈ es) as Hl1.
  { by intros e [[? _] ?]%Hs1%list_elem_of_filter. }
  destruct (group (o1 :: t) _ _ b) as [b1 [[d1 [e|]]|]]; simpl in *.
  1,3: exists w1, l1, []; rewrite app_nil_r; split_and!; [done|done|by intros ? ?%not_elem_of_nil].
  destruct (b_group_log (o2 :: t) (filter (λ e, bOrder e = o2 ∧ todo b1 e = true) es) b1 _ _ H1)
    as (w2 & l2 & H2 & Hs2).
  exists w2, l1, l2. rewrite fmap_app, app_assoc. split_and!; [|done|].
  - by destruct (group (o2 :: t) _ _ b1) as [b2 [[d2 [e|]]|]]; simpl in *.
  - by intros e [[? _] ?]%Hs2%list_elem_of_filter.
Qed.
End Task.

Lemma b_finish_log err record b w log :
  (∀ b, b_commandClient (record b).1 = b_commandClient b) →
  b_commandClient b = Some (w, log) →
  ∃ w', b_commandClient (b_finish err record b).1 = Some (w', log).
Proof.
  intros Hrec Hc. unfold b_finish.
  assert (∃ w', b_commandClient (if isConnectionError err then bReset b else b) = Some (w', log))
    as [w' Hw].
  { destruct (isConnectionError err); [|by exists w]. unfold bReset. rewrite Hc.
    destruct (b_initialized b); simpl; rewrite ?Hc; eauto. }
  exists w'. rewrite <-Hrec in Hw. cbv zeta.
  destruct (record (if isConnectionError err then _ else _)) as [? []]; exact Hw.
Qed.

Lemma forget_all_client l b :
  b_commandClient (for_each b_forget_entity l b).1 = b_commandClient b.
Proof. by apply (for_each_inv (λ b', b_commandClient b' = b_commandClient b)). Qed.

Lemma store_all_client l b :
  b_commandClient (for_each b_store_entity l b).1 = b_commandClient b.
Proof.
  apply (for_each_inv (λ b', b_commandClient b' = b_commandClient b)); [done|].
  intros e b' _ <-. unfold b_store_entity. by destruct (b_entities b' !! bType e).
Qed.

Lemma bDelete_requests t es b w log :
  b_commandClient b = Some (w, log) →
  ∃ w' l1 l0,
    b_commandClient (bDeleteEntities t es b).1 = Some (w', log ++ (delete_message <$> (l1 ++ l0))) ∧
    (∀ e, e ∈ l1 → bOrder e = 1 ∧ e ∈ es) ∧ (∀ e, e ∈ l0 → bOrder e = 0 ∧ e ∈ es).
Proof.
  intros Hc. unfold bDeleteEntities. case_match.
  { exists w, [], []. simpl. rewrite app_nil_r. split_and!; [done|..]; by intros ? ?%not_elem_of_nil. }
  destruct (b_rounds_log b_delete_task delete_message delete_sends is_cached t 1 0 es b w log Hc)
    as (w1 & l1 & l0 & H1 & Hs1 & Hs0).
  change (reverse (seq 0 bMaxOrder)) with [1; 0].
  destruct (b_rounds _ _ _ _ _ _ b) as [b1 [[dn err]|]]; simpl in H1.
  - destruct (b_finish_log err (for_each b_forget_entity dn) b1 _ _ (forget_all_client dn) H1) as [w2 H2].
    by exists w2, l1, l0.
  - by exists w1, l1, l0.
Qed.

Lemma bEnsure_requests t es b w log :
  b_wf b → b_commandClient b = Some (w, log) →
  ∃ w' l0 l1,
    b_commandClient (bEnsureEntities t es b).1 = Some (w', log ++ (create_message <$> (l0 ++ l1))) ∧
    (∀ e, e ∈ l0 → bOrder e = 0) ∧ (∀ e, e ∈ l1 → bOrder e = 1) ∧
    (∀ e, e ∈ l0 ++ l1 → e ∈ es ∧ b_cached b (bType e) (bGetName e) = None).
Proof.
  intros Hwf Hc. unfold bEnsureEntities. case_match.
  { exists w, [], []. simpl. rewrite app_nil_r. split_and!; [done|..]; by intros ? ?%not_elem_of_nil. }
  rewrite bToCreate_spec by done. set (todo := filter _ es).
  destruct (b_rounds_log b_create_task create_message create_sends
    (λ b e, negb (is_cached b e)) t 0 1 todo b w log Hc) as (w1 & l0 & l1 & H1 & Hs0 & Hs1).
  change (seq 0 bMaxOrder) with [0; 1].
  assert (∀ e, e ∈ l0 ++ l1 → e ∈ es ∧ b_cached b (bType e) (bGetName e) = None) as Hall.
  { intros e He. assert (e ∈ todo) as Ht
      by (apply elem_of_app in He as [He|He]; [apply Hs0 in He|apply Hs1 in He]; by destruct He).
    apply list_elem_of_filter in Ht as [Hcd ?]. split; [done|].
    unfold is_cached in Hcd. by destruct (b_cached b _ _). }
  destruct (b_rounds _ _ _ _ _ _ b) as [b1 [[dn err]|]]; simpl in H1.
  - destruct (b_finish_log err (for_each b_store_entity dn) b1 _ _ (store_all_client dn) H1) as [w2 H2].
    exists w2, l0, l1. split_and!; [done| |..|done]; [apply Hs0|apply Hs1].
  - exists w1, l0, l1. split_and!; [done| |..|done]; [apply Hs0|apply Hs1].
Qed.
End Requests.
