(* ===== verification/Names.v ===== *)
(** The names [pkg/state/infra.go] derives for the entities it configures, and
    when two of them can coincide. *)
From stdpp Require Import base strings list.
From Stdlib Require Ascii.
From S2P Require Import Prelude Go ApiV1.

(** ** The names *)

Definition autoLinkName (projectId : string) (address : MessagingAddress)
    (host direction : string) : string :=
  "autoLink-" +:+ projectId +:+ "-" +:+ Name (a_meta address) +:+ "-" +:+ host +:+ "-" +:+ direction.

Definition globalLinkRouteName (projectId host direction : string) : string :=
  "linkRoute-" +:+ projectId +:+ "-" +:+ host +:+ "-" +:+ direction.

Definition linkRouteName (projectId : string) (address : MessagingAddress)
    (host direction : string) : string :=
  "linkRoute-" +:+ projectId +:+ "-" +:+ Name (a_meta address) +:+ "-" +:+ host +:+ "-" +:+ direction.

Definition addressName (projectId : string) (address : MessagingAddress) : string :=
  "address-" +:+ projectId +:+ "-" +:+ Name (a_meta address).

Definition qualifiedAddress (projectId address : string) : string :=
  projectId +:+ "/" +:+ address.

(** [connectorName], on the hostname and the port of the broker. *)
Definition connectorName (hostname : string) (port : Z) : string :=
  "connector-" +:+ hostname +:+ "-" +:+ fmt_d port.

Definition portName (endpoint : MessagingEndpoint) (protocol : string) : string :=
  Namespace (e_meta endpoint) +:+ "-" +:+ Name (e_meta endpoint) +:+ "-" +:+ protocol.

Definition listenerName (portName : string) : string := "listener-" +:+ portName.

Definition sslProfileName (portName : string) : string := "sslProfile-" +:+ portName.

(** ** When they coincide *)

(** The character [c] does not occur in [s]. *)
Fixpoint lacks (c : Ascii.ascii) (s : string) : bool :=
  match s with
  | EmptyString => true
  | String a s' => negb (Ascii.eqb a c) && lacks c s'
  end.

(** Two texts cut at the first [c] agree before and after it. *)
Lemma split_inj c s1 s2 t1 t2 :
  lacks c s1 = true → lacks c s2 = true →
  s1 +:+ String c t1 = s2 +:+ String c t2 → s1 = s2 ∧ t1 = t2.
Proof.
  revert s2. induction s1 as [|a s1 IH]; intros [|b s2] H1 H2 E; simplify_eq/=.
  - done.
  - by rewrite Ascii.eqb_refl in H2.
  - by rewrite Ascii.eqb_refl in H1.
  - apply andb_prop in H1 as [_ H1], H2 as [_ H2].
    by destruct (IH s2 H1 H2) as [-> ->].
Qed.

Lemma app_inj_l (s t1 t2 : string) : s +:+ t1 = s +:+ t2 → t1 = t2.
Proof. induction s as [|a s IH]; simpl; [done|]. intros [= E]. auto. Qed.

Definition slash : Ascii.ascii := Ascii.ascii_of_nat 47.
Definition dash : Ascii.ascii := Ascii.ascii_of_nat 45.

(** A host name has no slash, so the address a client sees determines the
    project and the address within it. *)
Lemma qualifiedAddress_inj p1 a1 p2 a2 :
  lacks slash p1 = true → lacks slash p2 = true →
  qualifiedAddress p1 a1 = qualifiedAddress p2 a2 → p1 = p2 ∧ a1 = a2.
Proof. apply split_inj. Qed.

(** Within one project the name of the resource determines the router's name
    for it. *)
Lemma addressName_inj p a1 a2 :
  addressName p a1 = addressName p a2 → Name (a_meta a1) = Name (a_meta a2).
Proof. unfold addressName. by intros H%app_inj_l%app_inj_l%app_inj_l. Qed.

(** The protocol of one endpoint determines the name of the port. *)
Lemma portName_protocol e p1 p2 : portName e p1 = portName e p2 → p1 = p2.
Proof. unfold portName. by intros H%app_inj_l%app_inj_l%app_inj_l%app_inj_l. Qed.

(** Names without a dash are told apart. *)
Lemma portName_inj e1 e2 p1 p2 :
  lacks dash (Namespace (e_meta e1)) = true → lacks dash (Namespace (e_meta e2)) = true →
  lacks dash (Name (e_meta e1)) = true → lacks dash (Name (e_meta e2)) = true →
  portName e1 p1 = portName e2 p2 → e_meta e1 = e_meta e2 ∧ p1 = p2.
Proof.
  intros Hn1 Hn2 Hm1 Hm2 E.
  destruct (split_inj dash _ _ _ _ Hn1 Hn2 E) as [En E2].
  destruct (split_inj dash _ _ _ _ Hm1 Hm2 E2) as [Em ->].
  destruct (e_meta e1), (e_meta e2); by simplify_eq/=.
Qed.
