(* ===== verification/Ports.v ===== *)
(** The allocation of router ports to endpoints ([initPorts], [allocatePort] and
    [freePort] of [pkg/state/infra.go]). The pool maps a port to a pointer to the
    name it is bound to, so the variables pointed to are modelled as cells: the
    loop of [initPorts] stores the address of its loop variable, one variable for
    all ports of an endpoint. *)
From stdpp Require Import base gmap strings list fin_maps.
From S2P Require Import Prelude Go ApiV1.

Record Ports := {
  pool : gmap Z (option nat);
  cells : list string;
}.

(** The first and one past the last port of the pool. *)
Definition firstPort : Z := 40000.
Definition endPort : Z := 40100.

(** The pool of [NewInfra]: every port is free. *)
Definition newPorts : Ports :=
  {| pool := list_to_map ((λ p, (p, None)) <$> seqZ firstPort (endPort - firstPort));
     cells := [] |}.

(** [*binding]. *)
Definition deref (p : Ports) (l : nat) : string := default EmptyString (cells p !! l).

(** The name a port is bound to, if it is bound. *)
Definition bound (p : Ports) (port : Z) : option string :=
  pool p !! port ≫= λ binding, deref p <$> binding.

(** [i.ports[port] = &name], [name] a fresh variable. *)
Definition bind_port (port : Z) (name : string) (p : Ports) : Ports :=
  {| pool := <[port := Some (length (cells p))]> (pool p);
     cells := cells p ++ [name] |}.

(** [allocatePort]: the port already bound to the name, else a free one. *)
Definition allocatePort `{Sched} (t : tick) (name : string) : prog Ports Z := λ p,
  match find (λ kb : Z * option nat,
          match kb.2 with Some l => bool_decide (deref p l = name) | None => false end)
        (range (0 :: t) (pool p)) with
  | Some (port, _) => (p, Ok port)
  | None =>
      match find (λ kb : Z * option nat, negb (bool_decide (is_Some kb.2)))
            (range (1 :: t) (pool p)) with
      | Some (port, _) => (bind_port port name p, Ok port)
      | None => (p, Err (Errorf "no ports available"))
      end
  end.

(** [freePort]. *)
Definition freePort (port : Z) (p : Ports) : Ports :=
  {| pool := <[port := None]> (pool p); cells := cells p |}.

(** One turn of the inner loop of [initPorts], the loop variable at [l]. *)
Definition init_port (l : nat) (p : Ports) (port : MessagingEndpointPort) : Ports :=
  {| pool := <[p_Port port := Some l]> (pool p);
     cells := <[l := p_Name port]> (cells p) |}.

(** The inner loop, which declares one variable for all its turns. *)
Definition init_endpoint (p : Ports) (internalPorts : list MessagingEndpointPort) : Ports :=
  foldl (init_port (length (cells p)))
    {| pool := pool p; cells := cells p ++ [EmptyString] |} internalPorts.

(** [initPorts], given the internal ports of the endpoints in the order of the
    iteration. *)
Definition initPorts (endpoints : list (list MessagingEndpointPort)) (p : Ports) : Ports :=
  foldl init_endpoint p endpoints.

(** ** The invariant: every binding points to a cell *)

Definition ports_wf (p : Ports) : Prop :=
  ∀ port l, pool p !! port = Some (Some l) → l < length (cells p).

(** No two ports are bound to one name. *)
Definition ports_inj (p : Ports) : Prop :=
  ∀ port1 port2 name, bound p port1 = Some name → bound p port2 = Some name → port1 = port2.

Lemma newPorts_pool port b : pool newPorts !! port = Some b → b = None.
Proof.
  unfold newPorts, pool. generalize (seqZ firstPort (endPort - firstPort)). intros l E.
  by apply elem_of_list_to_map_2, list_elem_of_fmap in E as (? & [= -> ->] & _).
Qed.

Lemma newPorts_free port : bound newPorts port = None.
Proof.
  unfold bound. destruct (pool newPorts !! port) as [b|] eqn:E; [|done].
  by apply newPorts_pool in E as ->.
Qed.

Lemma newPorts_wf : ports_wf newPorts.
Proof. by intros port l E%newPorts_pool. Qed.

Lemma newPorts_inj : ports_inj newPorts.
Proof. intros p1 p2 n. by rewrite newPorts_free. Qed.

Lemma bind_port_wf port name p : ports_wf p → ports_wf (bind_port port name p).
Proof.
  intros Hwf q l. simpl. rewrite length_app. simpl.
  rewrite lookup_insert_Some. intros [[_ [= <-]]|[_ Hq]]; [lia|]. apply Hwf in Hq. lia.
Qed.

Lemma bound_bind_port port name p q :
  ports_wf p →
  bound (bind_port port name p) q = if decide (q = port) then Some name else bound p q.
Proof.
  intros Hwf. unfold bound, deref. simpl. destruct (decide (q = port)) as [->|Hne].
  - rewrite lookup_insert_eq. simpl. by rewrite lookup_app_r, Nat.sub_diag by done.
  - rewrite lookup_insert_ne by done. destruct (pool p !! q) as [[l|]|] eqn:E; simpl; try done.
    by rewrite lookup_app_l by by eapply Hwf.
Qed.

Lemma freePort_wf port p : ports_wf p → ports_wf (freePort port p).
Proof. intros Hwf q l. simpl. rewrite lookup_insert_Some. intros [[_ ?]|[_ ?]]; [done|eauto]. Qed.

Lemma bound_freePort port p q :
  bound (freePort port p) q = if decide (q = port) then None else bound p q.
Proof.
  unfold bound, deref. simpl. destruct (decide (q = port)) as [->|].
  - by rewrite lookup_insert_eq.
  - by rewrite lookup_insert_ne.
Qed.

Lemma freePort_inj port p : ports_inj p → ports_inj (freePort port p).
Proof.
  intros Hi p1 p2 n. rewrite !bound_freePort. repeat case_decide; try done. apply Hi.
Qed.

(** ** [allocatePort] *)

Section Allocate.
Context `{HS : !Sched}.

Lemma allocate_known t name p :
  match find (λ kb : Z * option nat,
          match kb.2 with Some l => bool_decide (deref p l = name) | None => false end)
        (range t (pool p)) with
  | Some (port, _) => bound p port = Some name
  | None => ∀ port, bound p port ≠ Some name
  end.
Proof.
  destruct (find _ _) as [[port b]|] eqn:E.
  - apply find_some in E as [Hin Hb]. apply list_elem_of_In, elem_of_range in Hin.
    unfold bound. rewrite Hin. simpl in *. destruct b as [l|]; [|done].
    apply bool_decide_eq_true in Hb. simpl. by rewrite Hb.
  - intros port Hb. unfold bound in Hb. destruct (pool p !! port) as [[l|]|] eqn:Hp; try done.
    apply elem_of_range with (t := t), list_elem_of_In in Hp.
    pose proof (find_none _ _ E _ Hp) as Hn. simpl in *. by apply bool_decide_eq_false in Hn; simplify_eq.
Qed.

Lemma allocate_free t p :
  match find (λ kb : Z * option nat, negb (bool_decide (is_Some kb.2))) (range t (pool p)) with
  | Some (port, _) => pool p !! port = Some None
  | None => ∀ port, pool p !! port ≠ Some None
  end.
Proof.
  destruct (find _ _) as [[port b]|] eqn:E.
  - apply find_some in E as [Hin Hb]. apply list_elem_of_In, elem_of_range in Hin.
    simpl in *. apply negb_true_iff, bool_decide_eq_false in Hb.
    destruct b; [by destruct Hb|done].
  - intros port Hp. apply elem_of_range with (t := t), list_elem_of_In in Hp.
    pose proof (find_none _ _ E _ Hp) as Hn. by apply negb_false_iff, bool_decide_eq_true in Hn as [].
Qed.

(** Every branch of [allocatePort]. *)
Lemma allocatePort_spec t name p :
  match allocatePort t name p with
  | (p', Ok port) =>
      (p' = p ∧ bound p port = Some name) ∨
      (p' = bind_port port name p ∧ pool p !! port = Some None ∧ ∀ q, bound p q ≠ Some name)
  | (p', Err e) =>
      p' = p ∧ e = Errorf "no ports available" ∧
      (∀ q, bound p q ≠ Some name) ∧ (∀ q, pool p !! q ≠ Some None)
  | (_, Panic) => False
  end.
Proof.
  unfold allocatePort. pose proof (allocate_known (0 :: t) name p) as Hk.
  destruct (find _ (range (0 :: t) _)) as [[port b]|]; [by left|].
  pose proof (allocate_free (1 :: t) p) as Hf.
  destruct (find _ (range (1 :: t) _)) as [[port b]|]; [by right|done].
Qed.

Lemma allocatePort_ok t name p p' port :
  ports_wf p → allocatePort t name p = (p', Ok port) →
  ports_wf p' ∧ bound p' port = Some name ∧
  (∀ q m, bound p q = Some m → bound p' q = Some m) ∧
  (∀ q m, bound p' q = Some m → bound p q = Some m ∨ (q = port ∧ m = name)) ∧
  (∀ m, bound p port = Some m → m = name).
Proof.
  intros Hwf E. pose proof (allocatePort_spec t name p) as H. rewrite E in H.
  destruct H as [[-> Hb]|(-> & Hp & Hn)].
  { split_and!; [done..|eauto|eauto|congruence]. }
  assert (bound p port = None) as Hb by (unfold bound; by rewrite Hp).
  split_and!; [by apply bind_port_wf|..|by rewrite Hb]; intros; rewrite bound_bind_port in * by done;
    repeat case_decide; simplify_eq; auto.
Qed.

Lemma allocatePort_inj t name p p' port :
  ports_wf p → ports_inj p → allocatePort t name p = (p', Ok port) → ports_inj p'.
Proof.
  intros Hwf Hi E. pose proof (allocatePort_spec t name p) as H. rewrite E in H.
  destruct H as [[-> _]|(-> & Hp & Hn)]; [done|].
  intros q1 q2 m. rewrite !bound_bind_port by done.
  repeat case_decide; subst; try done; intros; simplify_eq; [by edestruct Hn..|eauto].
Qed.
End Allocate.

(** ** [initPorts] *)

Lemma init_port_fold l ps : ∀ p,
  l < length (cells p) → ports_wf p →
  let p' := foldl (init_port l) p ps in
  ports_wf p' ∧ length (cells p') = length (cells p) ∧
  (∀ l', l' ≠ l → cells p' !! l' = cells p !! l') ∧
  cells p' !! l = match last ps with Some q => Some (p_Name q) | None => cells p !! l end ∧
  (∀ port, pool p' !! port = if decide (port ∈ p_Port <$> ps) then Some (Some l) else pool p !! port).
Proof.
  induction ps as [|q ps IH] using rev_ind; intros p Hl Hwf; cbv zeta.
  { split_and!; try done. }
  rewrite foldl_snoc, last_snoc. destruct (IH p Hl Hwf) as (Hwf' & Hlen & Hcs & _ & Hp).
  set (p1 := foldl (init_port l) p ps) in *. cbn [init_port cells pool]. split_and!.
  - intros port l'. unfold init_port. simpl. rewrite length_insert, lookup_insert_Some.
    intros [[_ [= <-]]|[_ H]]; [lia|eauto].
  - by rewrite length_insert.
  - intros l' Hne. rewrite list_lookup_insert_ne by done. auto.
  - apply list_lookup_insert_eq. lia.
  - intros port. rewrite fmap_app. destruct (decide (port = p_Port q)) as [->|Hne].
    + rewrite lookup_insert_eq, decide_True; [done|]. rewrite elem_of_app. right. by left.
    + rewrite lookup_insert_ne, Hp by done. apply decide_ext. rewrite elem_of_app. simpl.
      rewrite list_elem_of_singleton. tauto.
Qed.

(** After the loop over one endpoint all its ports are bound to the name of the
    last of them; the other bindings are as before. *)
Lemma bound_init_endpoint p ps port :
  ports_wf p →
  ports_wf (init_endpoint p ps) ∧
  bound (init_endpoint p ps) port =
    if decide (port ∈ p_Port <$> ps) then p_Name <$> last ps else bound p port.
Proof.
  intros Hwf. unfold init_endpoint. set (p0 := {| pool := pool p; cells := cells p ++ [EmptyString] |}).
  assert (ports_wf p0) as Hwf0.
  { intros q l Hq%Hwf. simpl. rewrite length_app. simpl. lia. }
  destruct (init_port_fold (length (cells p)) ps p0) as (Hw & Hlen & Hcs & Hl & Hp);
    [simpl; rewrite length_app; simpl; lia|done|].
  split; [done|]. unfold bound, deref. rewrite Hp. destruct (decide _) as [Hin|Hin].
  - simpl. rewrite Hl. destruct (last ps) eqn:E; [done|]. apply last_None in E as ->.
    by apply not_elem_of_nil in Hin.
  - subst p0. simpl in *. destruct (pool p !! port) as [[l|]|] eqn:E; simpl; try done.
    pose proof (Hwf _ _ E). rewrite Hcs by lia. by rewrite lookup_app_l by done.
Qed.

Lemma initPorts_wf es p : ports_wf p → ports_wf (initPorts es p).
Proof.
  revert p. induction es as [|ps es IH]; intros p Hwf; [done|].
  apply IH. by apply (bound_init_endpoint p ps 0).
Qed.

(** Every internal port of every endpoint is taken, by a name of an endpoint
    that has the port. *)
Lemma initPorts_bound es p port :
  ports_wf p →
  (port ∈ p_Port <$> concat es →
   ∃ ps q, ps ∈ es ∧ port ∈ p_Port <$> ps ∧ last ps = Some q ∧
           bound (initPorts es p) port = Some (p_Name q)) ∧
  (port ∉ p_Port <$> concat es → bound (initPorts es p) port = bound p port).
Proof.
  induction es as [|ps es IH] using rev_ind; intros Hwf.
  { split; [by intros ?%not_elem_of_nil|done]. }
  destruct (IH Hwf) as [IH1 IH2]. unfold initPorts in *. rewrite foldl_snoc, concat_app, fmap_app.
  simpl. rewrite app_nil_r.
  destruct (bound_init_endpoint (foldl init_endpoint p es) ps port (initPorts_wf es p Hwf)) as [_ ->].
  setoid_rewrite elem_of_app. destruct (decide (port ∈ p_Port <$> ps)) as [Hin|Hin]; split.
  - intros _. destruct (last ps) as [q|] eqn:E.
    + exists ps, q. split_and!; [right; by left|done..].
    + apply last_None in E as ->. by apply not_elem_of_nil in Hin.
  - tauto.
  - intros [H|H]; [|done]. destruct (IH1 H) as (ps' & q & ? & ? & ? & ->). exists ps', q. auto.
  - intros H. apply IH2. tauto.
Qed.
