(* ===== verification/Scheduler.v ===== *)
(** The placement of projects and addresses on brokers
    ([pkg/state/scheduler]): the [Scheduler] interface with what its clients rely
    on, and the [dummyScheduler] that implements it. A call assigns to the status
    of the resource it is given, so it returns the resource with its error. *)
From stdpp Require Import base gmap strings list.
From S2P Require Import Prelude Go Client ApiV1 Broker.

Class Scheduler (W : Type) := {
  sched_project : MessagingProject → list (BrokerState W) → MessagingProject * outcome ();
  sched_address : MessagingAddress → list (BrokerState W) → MessagingAddress * outcome ();
}.

Section Dummy.
Context {W : Type}.
Implicit Types brokers : list (BrokerState W).

Definition scheduled_on (b : BrokerState W) : MessagingAddressBroker :=
  {| ab_State := MessagingAddressBrokerScheduled; ab_Host := Hostname (b_host b) |}.

Definition dummy_ScheduleProject (project : MessagingProject) brokers
    : MessagingProject * outcome () :=
  match brokers with
  | broker :: _ => (set_Broker (Some (scheduled_on broker)) project, Ok ())
  | [] => (project, Err (Errorf "no brokers available"))
  end.

Definition dummy_ScheduleAddress (address : MessagingAddress) brokers
    : MessagingAddress * outcome () :=
  match brokers with
  | broker :: _ =>
      (set_Brokers (as_Brokers (a_Status address) ++ [scheduled_on broker]) address, Ok ())
  | [] => (address, Err (Errorf "no brokers available"))
  end.

(** [NewDummyScheduler]. *)
#[global] Instance dummyScheduler : Scheduler W := {|
  sched_project := dummy_ScheduleProject;
  sched_address := dummy_ScheduleAddress;
|}.
End Dummy.

(** What the clients of a scheduler rely on: a resource is placed on one of the
    brokers offered, which are all it is placed on anew; nothing but the
    placement changes; a failed call changes nothing. *)
Class SchedulerLaws (W : Type) `{!Scheduler W} := {
  sched_project_ok : ∀ p brokers p',
    sched_project p brokers = (p', Ok ()) →
    ∃ b, b ∈ brokers ∧ p' = set_Broker (Some (scheduled_on b)) p;
  sched_address_ok : ∀ a brokers a',
    sched_address a brokers = (a', Ok ()) →
    ∃ bs, bs ⊆ brokers ∧ bs ≠ [] ∧
      a' = set_Brokers (as_Brokers (a_Status a) ++ (scheduled_on <$> bs)) a;
  sched_project_err : ∀ p brokers,
    (sched_project p brokers).2 ≠ Ok () → (sched_project p brokers).1 = p;
  sched_address_err : ∀ a brokers,
    (sched_address a brokers).2 ≠ Ok () → (sched_address a brokers).1 = a;
}.

#[global] Instance dummySchedulerLaws W : SchedulerLaws W.
Proof.
  split.
  - intros p [|b bs] p'; [done|]. intros [= <-]. exists b. split; [by left|done].
  - intros a [|b bs] a'; [done|]. intros [= <-]. exists [b].
    split_and!; [|done..]. by apply list_subseteq_skip, list_subseteq_nil.
  - by intros p [|b bs].
  - by intros a [|b bs].
Qed.
