(* ===== verification/Infra.v ===== *)
(** The infrastructure client ([infraClient] of [pkg/state/infra.go]): the routers
    and brokers it knows, the ports it has given out and the projects, endpoints
    and addresses it has configured; the functions that keep the hosts up to date
    and that schedule and allocate.

    The client keeps pointers to the resources, which it shares with the
    controllers that handed them in: the resources live in a heap, the maps of the
    client hold locations. The methods below hold the client's lock from beginning
    to end, so each is one transition of the client's state. *)
From stdpp Require Import base gmap strings pretty list fin_maps countable functions.
From S2P Require Import Prelude Go Client RouterTypes Router ApiV1 BrokerTypes Broker.
From S2P Require Import Names Ports Scheduler.

(** ** The state *)

Record resourceKey := {
  k_Name : string;
  k_Namespace : string;
}.

#[global] Instance resourceKey_eq_dec : EqDecision resourceKey.
Proof. solve_decision. Defined.

#[global, refine] Instance resourceKey_countable : Countable resourceKey :=
  inj_countable' (λ k, (k_Name k, k_Namespace k))
    (λ p, {| k_Name := p.1; k_Namespace := p.2 |}) _.
Proof. by intros []. Defined.

(** The location of a resource. *)
Notation loc := nat.

(** The resources, by kind and location. *)
Record Heap := {
  address_at : loc → MessagingAddress;
  endpoint_at : loc → MessagingEndpoint;
  project_at : loc → MessagingProject;
}.

(** The resource of a request, a [metav1.Object]: one of the three kinds, or an
    object of another type. *)
Inductive resource :=
  | RAddress (l : loc)
  | REndpoint (l : loc)
  | RProject (l : loc)
  | ROther (type : string) (meta : ObjectMeta).

(** A request; its [done] channel, which takes one value, is known by a number. *)
Record request := {
  done_chan : nat;
  req_resource : resource;
}.

(** [infraClient]. [clock] is the time the clock shows, in nanoseconds; [replies]
    are the values sent on the [done] channels, in their order. The two request
    channels and the goroutines that serve them are part of the system built on
    top of this state. *)
Record infraClient (W : Type) := {
  routers : gmap Host (RouterState W);
  brokers : gmap Host (BrokerState W);
  hostMap : gmap string Host;
  i_initialized : bool;
  tlsConfig : option TlsConfig;
  ports : Ports;
  addresses : gmap resourceKey loc;
  endpoints : gmap resourceKey loc;
  projects : gmap resourceKey loc;
  routerStateFactory : Host → Z → option TlsConfig → RouterState W;
  brokerStateFactory : Host → Z → option TlsConfig → BrokerState W;
  clock : Z;
  resyncInterval : Z;
  heap : Heap;
  replies : list (nat * option error);
}.
Arguments Build_infraClient {W}.
Arguments routers {W}.
Arguments brokers {W}.
Arguments hostMap {W}.
Arguments i_initialized {W}.
Arguments tlsConfig {W}.
Arguments ports {W}.
Arguments addresses {W}.
Arguments endpoints {W}.
Arguments projects {W}.
Arguments routerStateFactory {W}.
Arguments brokerStateFactory {W}.
Arguments clock {W}.
Arguments resyncInterval {W}.
Arguments heap {W}.
Arguments replies {W}.

Section Setters.
Context {W : Type}.
Implicit Types i : infraClient W.

Definition set_routers (x : gmap Host (RouterState W)) i :=
  Build_infraClient x (brokers i) (hostMap i) (i_initialized i) (tlsConfig i) (ports i)
    (addresses i) (endpoints i) (projects i) (routerStateFactory i) (brokerStateFactory i)
    (clock i) (resyncInterval i) (heap i) (replies i).
Definition set_brokers (x : gmap Host (BrokerState W)) i :=
  Build_infraClient (routers i) x (hostMap i) (i_initialized i) (tlsConfig i) (ports i)
    (addresses i) (endpoints i) (projects i) (routerStateFactory i) (brokerStateFactory i)
    (clock i) (resyncInterval i) (heap i) (replies i).
Definition set_hostMap (x : gmap string Host) i :=
  Build_infraClient (routers i) (brokers i) x (i_initialized i) (tlsConfig i) (ports i)
    (addresses i) (endpoints i) (projects i) (routerStateFactory i) (brokerStateFactory i)
    (clock i) (resyncInterval i) (heap i) (replies i).
Definition set_i_initialized (x : bool) i :=
  Build_infraClient (routers i) (brokers i) (hostMap i) x (tlsConfig i) (ports i) (addresses i)
    (endpoints i) (projects i) (routerStateFactory i) (brokerStateFactory i) (clock i)
    (resyncInterval i) (heap i) (replies i).
Definition set_tlsConfig (x : option TlsConfig) i :=
  Build_infraClient (routers i) (brokers i) (hostMap i) (i_initialized i) x (ports i)
    (addresses i) (endpoints i) (projects i) (routerStateFactory i) (brokerStateFactory i)
    (clock i) (resyncInterval i) (heap i) (replies i).
Definition set_ports (x : Ports) i :=
  Build_infraClient (routers i) (brokers i) (hostMap i) (i_initialized i) (tlsConfig i) x
    (addresses i) (endpoints i) (projects i) (routerStateFactory i) (brokerStateFactory i)
    (clock i) (resyncInterval i) (heap i) (replies i).
Definition set_addresses (x : gmap resourceKey loc) i :=
  Build_infraClient (routers i) (brokers i) (hostMap i) (i_initialized i) (tlsConfig i)
    (ports i) x (endpoints i) (projects i) (routerStateFactory i) (brokerStateFactory i)
    (clock i) (resyncInterval i) (heap i) (replies i).
Definition set_endpoints (x : gmap resourceKey loc) i :=
  Build_infraClient (routers i) (brokers i) (hostMap i) (i_initialized i) (tlsConfig i)
    (ports i) (addresses i) x (projects i) (routerStateFactory i) (brokerStateFactory i)
    (clock i) (resyncInterval i) (heap i) (replies i).
Definition set_projects (x : gmap resourceKey loc) i :=
  Build_infraClient (routers i) (brokers i) (hostMap i) (i_initialized i) (tlsConfig i)
    (ports i) (addresses i) (endpoints i) x (routerStateFactory i) (brokerStateFactory i)
    (clock i) (resyncInterval i) (heap i) (replies i).
Definition set_clock (x : Z) i :=
  Build_infraClient (routers i) (brokers i) (hostMap i) (i_initialized i) (tlsConfig i)
    (ports i) (addresses i) (endpoints i) (projects i) (routerStateFactory i)
    (brokerStateFactory i) x (resyncInterval i) (heap i) (replies i).
Definition set_heap (x : Heap) i :=
  Build_infraClient (routers i) (brokers i) (hostMap i) (i_initialized i) (tlsConfig i)
    (ports i) (addresses i) (endpoints i) (projects i) (routerStateFactory i)
    (brokerStateFactory i) (clock i) (resyncInterval i) x (replies i).
Definition set_replies (x : list (nat * option error)) i :=
  Build_infraClient (routers i) (brokers i) (hostMap i) (i_initialized i) (tlsConfig i)
    (ports i) (addresses i) (endpoints i) (projects i) (routerStateFactory i)
    (brokerStateFactory i) (clock i) (resyncInterval i) (heap i) x.
End Setters.

(** ** Calls on all routers or all brokers *)

Section Apply.
Context `{HS : !Sched} {S B : Type}.

(** [return fn(r)], [r] the state of one host. *)
Definition on_host (fn : nat → prog S B) (task : nat * Host) : prog (gmap Host S) B := λ m,
  match m !! task.2 with
  | None => (m, Panic)
  | Some s => let '(s', o) := fn task.1 s in (<[task.2 := s']> m, o)
  end.

(** [applyRouters] and [applyBrokers]: a group with one goroutine per host. The
    goroutines work on distinct states. [fn] is given the number of the goroutine,
    which tells apart the choices the run time makes in them. *)
Definition apply_hosts (t : tick) (fn : nat → prog S B) : prog (gmap Host S) (list B) := λ m,
  match group (0 :: t) (on_host fn) (imap (λ n h, (n, h)) (range_keys (1 :: t) m)) m with
  | (m', None) => (m', Panic)
  | (m', Some (bs, None)) => (m', Ok bs)
  | (m', Some (_, Some e)) => (m', Err e)
  end.
End Apply.

Section Infra.
Context {W : Type} `{HC : !Client W} `{HS : !Sched}.
Implicit Types i : infraClient W.

Definition applyRouters {B} (t : tick) (fn : nat → prog (RouterState W) B)
    : prog (infraClient W) (list B) := λ i,
  let '(m, o) := apply_hosts t fn (routers i) in (set_routers m i, o).

Definition applyBrokers {B} (t : tick) (fn : nat → prog (BrokerState W) B)
    : prog (infraClient W) (list B) := λ i,
  let '(m, o) := apply_hosts t fn (brokers i) in (set_brokers m i, o).

(** ** The client *)

Definition second : Z := 1000000000.

(** [NewInfra]. The heap and the time are the environment's. *)
Definition NewInfra (routerFactory : Host → Z → option TlsConfig → RouterState W)
    (brokerFactory : Host → Z → option TlsConfig → BrokerState W) (h : Heap) (now : Z)
    : infraClient W :=
  {| routers := ∅; brokers := ∅; hostMap := ∅;
     i_initialized := false; tlsConfig := None;
     ports := newPorts;
     addresses := ∅; endpoints := ∅; projects := ∅;
     routerStateFactory := routerFactory; brokerStateFactory := brokerFactory;
     clock := now; resyncInterval := 1800 * second;
     heap := h; replies := [] |}.

(** [randomResync]. *)
Definition randomResync (t : tick) i (now : Z) : Z :=
  let min := 10%Z in
  let max := 30%Z in
  (now + resyncInterval i + (intn t (max - min) + min) * second)%Z.

(** [checkResync]: the states whose time has come are reset. *)
Definition checkResync i : infraClient W :=
  let i := set_routers ((λ r, if bool_decide (nextResync r < clock i)%Z then Reset r else r)
                          <$> routers i) i in
  set_brokers ((λ b, if bool_decide (b_nextResync b < clock i)%Z then bReset b else b)
                 <$> brokers i) i.

(** [initialize]. *)
Definition initialize (t : tick) : prog (infraClient W) () := λ i,
  let now := clock i in
  (_ ← applyRouters (0 :: t) (λ n, Initialize (randomResync (n :: 1 :: t) i now));
   _ ← applyBrokers (2 :: t) (λ n, bInitialize (n :: 4 :: t) (randomResync (n :: 3 :: t) i now));
   mret ()) i.

(** ** The hosts *)

(** The hosts asked for, by name; of two hosts with one name the later counts. *)
Definition wanted (hosts : list Host) : gmap string Host :=
  foldl (λ m host, <[Hostname host := host]> m) ∅ hosts.

(** One turn of the loop over the known hosts, on [toAdd] and [toRemove]. *)
Definition sort_host (st : gmap string Host * gmap string Host) (host : Host)
    : gmap string Host * gmap string Host :=
  match st.1 !! Hostname host with
  | None => (st.1, <[Hostname host := host]> st.2)
  | Some entry =>
      if bool_decide (Ip entry = Ip host)
      then (delete (Hostname host) st.1, st.2)
      else (st.1, <[Hostname host := host]> st.2)
  end.

(** The TLS configuration of the client for one host. *)
Definition hostTlsConfig i (host : Host) : option TlsConfig :=
  (λ c, {| ServerName := Hostname host; Material := Material c |}) <$> tlsConfig i.

Definition remove_router (entry : string * Host) : prog (infraClient W) () := λ i,
  match routers i !! entry.2 with
  | None => (i, Panic)
  | Some r =>
      let i := set_routers (<[entry.2 := Shutdown r]> (routers i)) i in
      let i := set_hostMap (delete entry.1 (hostMap i)) i in
      (set_routers (delete entry.2 (routers i)) i, Ok ())
  end.

Definition add_router (entry : string * Host) : prog (infraClient W) () := λ i,
  let routerState := routerStateFactory i entry.2 55671 (hostTlsConfig i entry.2) in
  let i := set_routers (<[entry.2 := routerState]> (routers i)) i in
  (set_hostMap (<[entry.1 := entry.2]> (hostMap i)) i, Ok ()).

(** [updateRouters]. *)
Definition updateRouters (t : tick) (hosts : list Host) : prog (infraClient W) () := λ i,
  let '(toAdd, toRemove) := foldl sort_host (wanted hosts, ∅) (range_keys (0 :: t) (routers i)) in
  (_ ← for_each remove_router (range (1 :: t) toRemove);
   for_each add_router (range (2 :: t) toAdd)) i.

(** The removal of one broker. The connectors of the routers to it go first,
    unless it comes back under another address. *)
Definition remove_broker (t : tick) (toAdd : gmap string Host) (removeRouterConnectors : bool)
    (entry : string * Host) : prog (infraClient W) () := λ i,
  match brokers i !! entry.2 with
  | None => (i, Panic)
  | Some b =>
      let connector := ENamed {| ne_EntityType := RouterConnectorEntity;
                                 ne_Name := connectorName (Hostname (b_host b)) (b_port b) |} in
      (_ ← (if negb (bool_decide (is_Some (toAdd !! entry.1))) && removeRouterConnectors
            then applyRouters (0 :: t) (λ n, DeleteEntities (n :: 1 :: t) [connector])
            else mret []);
       _ ← modify (λ i, set_brokers (<[entry.2 := bShutdown b]> (brokers i)) i);
       _ ← modify (λ i, set_hostMap (delete entry.1 (hostMap i)) i);
       modify (λ i, set_brokers (delete entry.2 (brokers i)) i)) i
  end.

Definition add_broker (entry : string * Host) : prog (infraClient W) () := λ i,
  let brokerState := brokerStateFactory i entry.2 5671 (hostTlsConfig i entry.2) in
  let i := set_brokers (<[entry.2 := brokerState]> (brokers i)) i in
  (set_hostMap (<[entry.1 := entry.2]> (hostMap i)) i, Ok ()).

(** [updateBrokers]. *)
Definition updateBrokers (t : tick) (hosts : list Host) (removeRouterConnectors : bool)
    : prog (infraClient W) () := λ i,
  let '(toAdd, toRemove) := foldl sort_host (wanted hosts, ∅) (range_keys (0 :: t) (brokers i)) in
  (_ ← for_each (λ ne : nat * (string * Host),
         remove_broker (ne.1 :: 3 :: t) toAdd removeRouterConnectors ne.2)
         (imap (λ n e, (n, e)) (range (1 :: t) toRemove));
   for_each add_broker (range (2 :: t) toAdd)) i.

(** ** Brokers in use *)

(** A project is placed on the host. *)
Definition project_uses (host : string) (p : MessagingProject) : bool :=
  match ps_Broker (p_Status p) with
  | Some b => bool_decide (ab_Host b = host)
  | None => false
  end.

(** An address is placed on the host. *)
Definition address_uses (host : string) (a : MessagingAddress) : bool :=
  existsb (λ b, bool_decide (ab_Host b = host)) (as_Brokers (a_Status a)).

(** [DeleteBroker]. *)
Definition DeleteBroker (t : tick) (host : string) : prog (infraClient W) () := λ i,
  let states := range_values (0 :: t) (brokers i) in
  let newBrokers :=
    b_host <$> filter (λ b, Hostname (b_host b) ≠ host) states in
  if negb (existsb (λ b, bool_decide (Hostname (b_host b) = host)) states) then (i, Ok ())
  else if existsb (λ l, project_uses host (project_at (heap i) l)) (range_values (1 :: t) (projects i))
  then (i, Err BrokerInUseError)
  else if existsb (λ l, address_uses host (address_at (heap i) l)) (range_values (2 :: t) (addresses i))
  then (i, Err BrokerInUseError)
  else updateBrokers (3 :: t) newBrokers false i.

(** ** Scheduling *)

Definition update_address (l : loc) (a : MessagingAddress) i : infraClient W :=
  set_heap {| address_at := <[l := a]> (address_at (heap i));
              endpoint_at := endpoint_at (heap i);
              project_at := project_at (heap i) |} i.
Definition update_endpoint (l : loc) (e : MessagingEndpoint) i : infraClient W :=
  set_heap {| address_at := address_at (heap i);
              endpoint_at := <[l := e]> (endpoint_at (heap i));
              project_at := project_at (heap i) |} i.
Definition update_project (l : loc) (p : MessagingProject) i : infraClient W :=
  set_heap {| address_at := address_at (heap i);
              endpoint_at := endpoint_at (heap i);
              project_at := <[l := p]> (project_at (heap i)) |} i.

(** The key of a namespace's project. *)
Definition default_project (namespace : string) : resourceKey :=
  {| k_Name := "default"; k_Namespace := namespace |}.

Section Scheduling.
Context `{HD : !Scheduler W}.

(** [ScheduleProject]. *)
Definition ScheduleProject (t : tick) (l : loc) : prog (infraClient W) () := λ i,
  if negb (i_initialized i) then (i, Err NotInitializedError)
  else
    let '(p, o) := sched_project (project_at (heap i) l) (range_values t (brokers i)) in
    (update_project l p i, o).

(** [ScheduleAddress]: on the broker of the project, if it has one. *)
Definition ScheduleAddress (t : tick) (l : loc) : prog (infraClient W) () := λ i,
  if negb (i_initialized i) then (i, Err NotInitializedError)
  else
    let address := address_at (heap i) l in
    match projects i !! default_project (Namespace (a_meta address)) with
    | None => (i, Err ProjectNotFoundError)
    | Some pl =>
        match ps_Broker (p_Status (project_at (heap i) pl)) with
        | Some b => (update_address l (set_Brokers [b] address) i, Ok ())
        | None =>
            let '(a, o) := sched_address address (range_values t (brokers i)) in
            (update_address l a i, o)
        end
    end.
End Scheduling.

(** ** Ports *)

(** One turn of the loop of [AllocatePorts], on the endpoint at [l]. *)
Definition allocate_protocol (t : tick) (l : loc) (protocol : string)
    : prog (infraClient W) () := λ i,
  let endpoint := endpoint_at (heap i) l in
  let name := portName endpoint protocol in
  if existsb (λ p, bool_decide (p_Name p = name)) (InternalPorts endpoint) then (i, Ok ())
  else match allocatePort t name (ports i) with
  | (p, Ok port) =>
      (update_endpoint l
         (set_InternalPorts (InternalPorts endpoint ++
            [{| p_Name := name; p_Protocol := protocol; p_Port := port |}]) endpoint)
         (set_ports p i), Ok ())
  | (p, Err e) => (set_ports p i, Err e)
  | (p, Panic) => (set_ports p i, Panic)
  end.

(** [AllocatePorts]. *)
Definition AllocatePorts (t : tick) (l : loc) (protocols : list string)
    : prog (infraClient W) () := λ i,
  if negb (i_initialized i) then (i, Err NotInitializedError)
  else for_each (λ np : nat * string, allocate_protocol (np.1 :: t) l np.2)
         (imap (λ n p, (n, p)) protocols) i.

(** An HTTP listener, which the router cannot delete. *)
Definition keeps_port (p : MessagingEndpointPort) : bool :=
  bool_decide (p_Protocol p = MessagingProtocolAMQPWS) ||
  bool_decide (p_Protocol p = MessagingProtocolAMQPWSS).

(** [freePortsInternal]. *)
Definition freePortsInternal (l : loc) i : infraClient W :=
  if negb (i_initialized i) then i
  else
    let endpoint := endpoint_at (heap i) l in
    let freed := filter (λ p, keeps_port p = false) (InternalPorts endpoint) in
    let kept := filter (λ p, keeps_port p = true) (InternalPorts endpoint) in
    update_endpoint l (set_InternalPorts kept endpoint)
      (set_ports (foldl (λ ps p, freePort (p_Port p) ps) (ports i) freed) i).

(** [FreePorts]. *)
Definition FreePorts (l : loc) i : infraClient W := freePortsInternal l i.
End Infra.
