(* ===== verification/Entities.v ===== *)
(** What has to exist on the routers and the brokers for an endpoint, a project
    or an address (the [build*Entities] functions of [pkg/state/infra.go]). *)
From stdpp Require Import base gmap strings pretty list fin_maps.
From S2P Require Import Prelude Go Client RouterTypes Router ApiV1 BrokerTypes Broker.
From S2P Require Import Names Ports Scheduler Infra.

(** ** Default values *)

Definition new_connector (name host port : string) : RouterConnector :=
  {| rc_Name := name; rc_Host := host; rc_Port := port; rc_Role := "route-container";
     rc_SslProfile := "infra_tls"; rc_SaslMechanisms := "EXTERNAL";
     rc_SaslUsername := ""; rc_SaslPassword := ""; rc_LinkCapacity := 0;
     rc_IdleTimeoutSeconds := 16; rc_VerifyHostname := true; rc_PolicyVhost := "";
     rc_ConnectionStatus := ""; rc_ConnectionMsg := "" |}.

Definition new_queue (name address routingType : string) (maxConsumers : Z)
    (durable autoCreateAddress : bool) : BrokerQueue :=
  {| q_Name := name; q_Address := address; q_RoutingType := routingType;
     q_MaxConsumers := maxConsumers; q_Durable := durable;
     q_AutoCreateAddress := autoCreateAddress; q_PurgeOnNoConsumers := false |}.

(** [createDefaultAddressSettings]; the multiplier [1.0] is written as [1]. *)
Definition createDefaultAddressSettings (address : string) : BrokerAddressSetting :=
  {| s_Name := address; s_DeadLetterAddress := ""; s_ExpiryAddress := "";
     s_ExpiryDelay := -1; s_LastValueQueue := false; s_DeliveryAttempts := 10;
     s_MaxSizeBytes := -1; s_PageSizeBytes := 10485760; s_PageMaxCacheSize := 5;
     s_RedeliveryDelay := 0; s_RedeliveryMultiplier := "1"; s_MaxRedeliveryDelay := 10000;
     s_RedistributionDelay := -1; s_SendToDLAOnNoRoute := false;
     s_AddressFullMessagePolicy := AddressFullPolicyFail;
     s_SlowConsumerThreshold := -1; s_SlowConsumerCheckPeriod := -1;
     s_SlowConsumerPolicy := SlowConsumerPolicyKill;
     s_AutoCreateJmsQueues := false; s_AutoDeleteJmsQueues := false;
     s_AutoCreateJmsTopics := false; s_AutoDeleteJmsTopics := false;
     s_AutoCreateQueues := false; s_AutoDeleteQueues := false;
     s_AutoCreateAddresses := false; s_AutoDeleteAddresses := false |}.

Definition set_setting_addresses (dead expiry : string) (s : BrokerAddressSetting) :=
  {| s_Name := s_Name s; s_DeadLetterAddress := dead; s_ExpiryAddress := expiry;
     s_ExpiryDelay := s_ExpiryDelay s; s_LastValueQueue := s_LastValueQueue s;
     s_DeliveryAttempts := s_DeliveryAttempts s; s_MaxSizeBytes := s_MaxSizeBytes s;
     s_PageSizeBytes := s_PageSizeBytes s; s_PageMaxCacheSize := s_PageMaxCacheSize s;
     s_RedeliveryDelay := s_RedeliveryDelay s;
     s_RedeliveryMultiplier := s_RedeliveryMultiplier s;
     s_MaxRedeliveryDelay := s_MaxRedeliveryDelay s;
     s_RedistributionDelay := s_RedistributionDelay s;
     s_SendToDLAOnNoRoute := s_SendToDLAOnNoRoute s;
     s_AddressFullMessagePolicy := s_AddressFullMessagePolicy s;
     s_SlowConsumerThreshold := s_SlowConsumerThreshold s;
     s_SlowConsumerCheckPeriod := s_SlowConsumerCheckPeriod s;
     s_SlowConsumerPolicy := s_SlowConsumerPolicy s;
     s_AutoCreateJmsQueues := s_AutoCreateJmsQueues s;
     s_AutoDeleteJmsQueues := s_AutoDeleteJmsQueues s;
     s_AutoCreateJmsTopics := s_AutoCreateJmsTopics s;
     s_AutoDeleteJmsTopics := s_AutoDeleteJmsTopics s;
     s_AutoCreateQueues := s_AutoCreateQueues s; s_AutoDeleteQueues := s_AutoDeleteQueues s;
     s_AutoCreateAddresses := s_AutoCreateAddresses s;
     s_AutoDeleteAddresses := s_AutoDeleteAddresses s |}.

(** [isEndpointActive]. *)
Definition isEndpointActive (endpoint : MessagingEndpoint) : bool :=
  bool_decide (es_Phase (e_Status endpoint) = MessagingEndpointActive) &&
  negb (bool_decide (es_StatusHost (e_Status endpoint) = "")).

(** ** Endpoints *)

Definition certFile (suffix : string) (endpoint : MessagingEndpoint) : string :=
  "/etc/enmasse-project-certs/" +:+ Namespace (e_meta endpoint) +:+ "."
    +:+ Name (e_meta endpoint) +:+ suffix.

(** The TLS profile of a port, for the protocols the router terminates itself. *)
Definition port_sslProfile (endpoint : MessagingEndpoint) (p : MessagingEndpointPort)
    : option RouterSslProfile :=
  if bool_decide (p_Protocol p = MessagingProtocolAMQPS) ||
     (bool_decide (p_Protocol p = MessagingProtocolAMQPWSS) && negb (IsEdgeTerminated endpoint))
  then Some
    {| sp_Name := sslProfileName (p_Name p);
       sp_Ciphers := default "" (Tls (e_Spec endpoint) ≫= Ciphers);
       sp_Protocols := default "" (Tls (e_Spec endpoint) ≫= Protocols);
       sp_CaCertFile := "";
       sp_CertFile := certFile ".crt" endpoint;
       sp_PrivateKeyFile := certFile ".key" endpoint |}
  else None.

Definition is_websocket (p : MessagingEndpointPort) : bool :=
  bool_decide (p_Protocol p = MessagingProtocolAMQPWS) ||
  bool_decide (p_Protocol p = MessagingProtocolAMQPWSS).

Definition port_listener (profile : option RouterSslProfile) (p : MessagingEndpointPort)
    : RouterListener :=
  let websockets := is_websocket p in
  {| rl_Name := listenerName (p_Name p); rl_Host := "0.0.0.0"; rl_Port := fmt_d (p_Port p);
     rl_Role := "normal";
     rl_SslProfile := match profile with Some s => sp_Name s | None => "" end;
     rl_SaslMechanisms := ""; rl_LinkCapacity := 0; rl_IdleTimeoutSeconds := 16;
     rl_InitialHandshakeTimeoutSeconds := 0; rl_PolicyVhost := "";
     rl_AuthenticatePeer := false; rl_MultiTenant := true;
     rl_RequireSsl := match profile with Some _ => negb websockets | None => false end;
     rl_Http := websockets; rl_Metrics := false; rl_Healthz := false;
     rl_Websockets := websockets; rl_HttpRootDir := "" |}.

Definition port_entities (endpoint : MessagingEndpoint) (p : MessagingEndpointPort)
    : list RouterEntity :=
  match port_sslProfile endpoint p with
  | Some s => [ESslProfile s; EListener (port_listener (Some s) p)]
  | None => [EListener (port_listener None p)]
  end.

(** [buildRouterEndpointEntities]. *)
Definition buildRouterEndpointEntities (endpoint : MessagingEndpoint)
    : outcome (list RouterEntity) :=
  Ok (concat (port_entities endpoint <$> InternalPorts endpoint)).

(** [buildRouterProjectEntities]. *)
Definition buildRouterProjectEntities (project : MessagingProject)
    : outcome (list RouterEntity) := Ok [].

(** ** Addresses *)

Definition mk_address (name prefix distribution : string) (waypoint : bool) : RouterEntity :=
  EAddress {| ra_Name := name; ra_Prefix := prefix; ra_Waypoint := waypoint;
              ra_Distribution := distribution |}.

Definition mk_autoLink (name address direction connection external : string) : RouterEntity :=
  EAutoLink {| al_Name := name; al_Address := address; al_Direction := direction;
               al_Connection := connection; al_ExternalAddress := external |}.

Definition mk_linkRoute (name prefix direction connection : string) : RouterEntity :=
  ELinkRoute {| lr_Name := name; lr_Prefix := prefix; lr_Direction := direction;
                lr_Connection := connection |}.

Section Entities.
Context {W : Type} `{HS : !Sched}.
Implicit Types i : infraClient W.

(** [i.hostMap[name]]: the zero host when the name is unknown. *)
Definition host_of i (name : string) : Host :=
  default {| Hostname := ""; Ip := "" |} (hostMap i !! name).

(** [i.brokers[i.hostMap[name]]]. *)
Definition find_broker i (name : string) : option (BrokerState W) := brokers i !! host_of i name.

Definition connector_of (b : BrokerState W) : string :=
  connectorName (Hostname (b_host b)) (b_port b).

(** The loop over the brokers of an address; it fails on a broker the client does
    not know. *)
Definition on_brokers i (what projectId : string) (address : MessagingAddress)
    (f : MessagingAddressBroker → BrokerState W → list RouterEntity)
    : outcome (list RouterEntity) :=
  ls ← map_outcome (λ broker,
    match find_broker i (ab_Host broker) with
    | None => Err (Errorf ("unable to configure address " +:+ what +:+ " (project " +:+ projectId
                           +:+ " address " +:+ GetAddress address +:+ ") for unknown broker "
                           +:+ ab_Host broker))
    | Some b => Ok (f broker b)
    end) (as_Brokers (a_Status address));
  mret (concat ls).

(** The link routes of a transactional project: all its addresses go to one
    broker through them. *)
Definition global_linkRoutes i (projectId : string) (broker : MessagingAddressBroker)
    : outcome (list RouterEntity) :=
  let host := host_of i (ab_Host broker) in
  match brokers i !! host with
  | None => Err (Errorf ("unable to configure transactional linkroute (project " +:+ projectId
                         +:+ ") for unknown broker " +:+ ab_Host broker))
  | Some b =>
      Ok [mk_linkRoute (globalLinkRouteName projectId (Hostname host) "out") projectId "out"
            (connector_of b);
          mk_linkRoute (globalLinkRouteName projectId (Hostname host) "in") projectId "in"
            (connector_of b)]
  end.

(** The entities of an address whose project has no broker of its own. *)
Definition router_address_entities (t : tick) i (projectId : string) (address : MessagingAddress)
    : outcome (list RouterEntity) :=
  let name := addressName projectId address in
  let fullAddress := qualifiedAddress projectId (GetAddress address) in
  let spec := a_Spec address in
  match Anycast spec, Multicast spec, Queue spec, DeadLetter spec, Topic spec, Subscription spec with
  | Some _, _, _, _, _, _ => Ok [mk_address name fullAddress "balanced" false]
  | None, Some _, _, _, _, _ => Ok [mk_address name fullAddress "multicast" false]
  | None, None, Some _, _, _, _ =>
      links ← on_brokers i "autoLink" projectId address (λ broker b,
        [mk_autoLink (autoLinkName projectId address (ab_Host broker) "in") fullAddress "in"
           (connector_of b) fullAddress;
         mk_autoLink (autoLinkName projectId address (ab_Host broker) "out") fullAddress "out"
           (connector_of b) fullAddress]);
      mret (mk_address name fullAddress "balanced" true :: links)
  | None, None, None, Some _, _, _ =>
      Ok (mk_address name fullAddress "balanced" true ::
          ((λ b, mk_autoLink (autoLinkName projectId address (Hostname (b_host b)) "in")
                   fullAddress "in" (connector_of b) fullAddress)
             <$> range_values t (brokers i)))
  | None, None, None, None, Some _, _ =>
      routes ← on_brokers i "linkRoute" projectId address (λ broker b,
        [mk_linkRoute (linkRouteName projectId address (ab_Host broker) "out") fullAddress "out"
           (connector_of b);
         mk_linkRoute (linkRouteName projectId address (ab_Host broker) "in") fullAddress "in"
           (connector_of b)]);
      mret (mk_address name fullAddress "balanced" true :: routes)
  | None, None, None, None, None, Some sub =>
      links ← on_brokers i "autoLink" projectId address (λ broker b,
        [mk_autoLink (autoLinkName projectId address (Hostname (b_host b)) "in") fullAddress "in"
           (connector_of b)
           (qualifiedAddress projectId (Topic_ sub) +:+ "::" +:+ fullAddress)]);
      mret (mk_address name fullAddress "balanced" true :: links)
  | None, None, None, None, None, None => Ok []
  end.

(** [i.projects[resourceKey{"default", namespace}]]. *)
Definition project_of i (namespace : string) : option MessagingProject :=
  project_at (heap i) <$> projects i !! default_project namespace.

(** [buildRouterAddressEntities]. The project is dereferenced without a check. *)
Definition buildRouterAddressEntities (t : tick) i (endpoint : MessagingEndpoint)
    (address : MessagingAddress) : outcome (list RouterEntity) :=
  if negb (isEndpointActive endpoint) then Err (Errorf "inactive endpoint")
  else
    let projectId := es_StatusHost (e_Status endpoint) in
    match project_of i (Namespace (a_meta address)) with
    | None => Panic
    | Some project =>
        match ps_Broker (p_Status project) with
        | Some broker => global_linkRoutes i projectId broker
        | None => router_address_entities t i projectId address
        end
    end.

(** [brokerEntities[host] = append(brokerEntities[host], entities...)]. *)
Definition add_entities (host : Host) (es : list BrokerEntity)
    (m : gmap Host (list BrokerEntity)) : gmap Host (list BrokerEntity) :=
  <[host := default [] (m !! host) ++ es]> m.

(** One turn of the loop over the brokers of an address. *)
Definition add_on_broker i (what projectId : string) (address : MessagingAddress)
    (es : list BrokerEntity) (broker : MessagingAddressBroker)
    : prog (gmap Host (list BrokerEntity)) () := λ m,
  match find_broker i (ab_Host broker) with
  | None => (m, Err (Errorf ("unable to configure " +:+ what +:+ " (project " +:+ projectId
                             +:+ " address " +:+ GetAddress address +:+ ") for unknown broker "
                             +:+ ab_Host broker)))
  | Some _ => (add_entities (host_of i (ab_Host broker)) es m, Ok ())
  end.

(** The loop; on an error the entities are dropped. *)
Definition add_on_brokers i (what projectId : string) (address : MessagingAddress)
    (es : list BrokerEntity) (bs : list MessagingAddressBroker)
    (m : gmap Host (list BrokerEntity)) : outcome (gmap Host (list BrokerEntity)) :=
  match for_each (add_on_broker i what projectId address es) bs m with
  | (m', Ok _) => Ok m'
  | (_, Err e) => Err e
  | (_, Panic) => Panic
  end.

(** The settings of a queue. *)
Definition queue_settings (projectId fullAddress : string) (q : MessagingAddressSpecQueue)
    : BrokerAddressSetting :=
  set_setting_addresses
    (if bool_decide (DeadLetterAddress q = "") then ""
     else qualifiedAddress projectId (DeadLetterAddress q))
    (if bool_decide (ExpiryAddress q = "") then ""
     else qualifiedAddress projectId (ExpiryAddress q))
    (createDefaultAddressSettings fullAddress).

(** [buildBrokerAddressEntities]. *)
Definition buildBrokerAddressEntities (t : tick) i (endpoint : MessagingEndpoint)
    (address : MessagingAddress) : outcome (gmap Host (list BrokerEntity)) :=
  if negb (isEndpointActive endpoint) then Err (Errorf "inactive endpoint")
  else
    let projectId := es_StatusHost (e_Status endpoint) in
    let fullAddress := qualifiedAddress projectId (GetAddress address) in
    let spec := a_Spec address in
    let bs := as_Brokers (a_Status address) in
    let anycast_queue :=
      [BAddress {| ba_Name := fullAddress; ba_RoutingType := RoutingTypeAnycast |};
       BQueue (new_queue fullAddress fullAddress RoutingTypeAnycast (-1) true false)] in
    match Queue spec, DeadLetter spec, Topic spec, Subscription spec with
    | Some q, _, _, _ =>
        add_on_brokers i "queue" projectId address
          (anycast_queue ++ [BAddressSetting (queue_settings projectId fullAddress q)]) bs ∅
    | None, Some _, _, _ =>
        Ok (foldl (λ m b, add_entities (b_host b) anycast_queue m) ∅ (range_values t (brokers i)))
    | None, None, Some _, _ =>
        add_on_brokers i "topic" projectId address
          [BAddress {| ba_Name := fullAddress; ba_RoutingType := RoutingTypeMulticast |}] bs ∅
    | None, None, None, Some sub =>
        add_on_brokers i "subscription" projectId address
          [BQueue (new_queue fullAddress (qualifiedAddress projectId (Topic_ sub))
                     RoutingTypeMulticast 1 true false)] bs ∅
    | None, None, None, None => Ok ∅
    end.
End Entities.
