(* ===== verification/Sync.v ===== *)
(** The synchronization of the configuration ([SyncAll], [doSync] and [doDelete] of
    [pkg/state/infra.go]). *)
From stdpp Require Import base gmap strings pretty list fin_maps functions.
From S2P Require Import Prelude Go Client RouterTypes Router ApiV1 BrokerTypes Broker.
From S2P Require Import Names Ports Scheduler Infra Entities.

(** What a batch has to create or delete. *)
Record Built := {
  router_entities : list RouterEntity;
  broker_entities : gmap Host (list BrokerEntity);
}.

Definition add_router_entities (es : list RouterEntity) (b : Built) : Built :=
  {| router_entities := router_entities b ++ es; broker_entities := broker_entities b |}.

(** The loop that adds the broker entities of one address to those of the batch. *)
Definition merge_entities `{Sched} (t : tick) (result : gmap Host (list BrokerEntity))
    (b : Built) : Built :=
  {| router_entities := router_entities b;
     broker_entities :=
       foldl (λ m he, add_entities he.1 he.2 m) (broker_entities b) (range t result) |}.

Section Sync.
Context {W : Type} `{HC : !Client W} `{HS : !Sched}.
Implicit Types i : infraClient W.

(** ** Requests *)

(** [req.done <- err]. *)
Definition answer (r : request) (e : option error) : prog (infraClient W) () :=
  modify (λ i, set_replies (replies i ++ [(done_chan r, e)]) i).

(** The metadata of a resource. *)
Definition resource_meta (h : Heap) (r : resource) : ObjectMeta :=
  match r with
  | RAddress l => a_meta (address_at h l)
  | REndpoint l => e_meta (endpoint_at h l)
  | RProject l => p_meta (project_at h l)
  | ROther _ m => m
  end.

Definition meta_key (m : ObjectMeta) : resourceKey :=
  {| k_Name := Name m; k_Namespace := Namespace m |}.

Definition request_key i (r : request) : resourceKey :=
  meta_key (resource_meta (heap i) (req_resource r)).

(** [getActiveEndpoints]: by namespace. *)
Definition getActiveEndpoints (t : tick) i : gmap string (list MessagingEndpoint) :=
  foldl (λ m l,
    let endpoint := endpoint_at (heap i) l in
    let namespace := Namespace (e_meta endpoint) in
    if isEndpointActive endpoint
    then <[namespace := default [] (m !! namespace) ++ [endpoint]]> m
    else m) ∅ (range_values t (endpoints i)).

(** One turn of the loop over the endpoints of an address. *)
Definition build_address (t : tick) i (address : MessagingAddress)
    (endpoint : MessagingEndpoint) : prog Built () :=
  resultRouter ← lift (buildRouterAddressEntities (0 :: t) i endpoint address);
  resultBroker ← lift (buildBrokerAddressEntities (1 :: t) i endpoint address);
  modify (λ b, merge_entities (2 :: t) resultBroker (add_router_entities resultRouter b)).

(** The entities of one request. *)
Definition build_request (t : tick) i (activeEndpoints : gmap string (list MessagingEndpoint))
    (r : request) : prog Built () :=
  match req_resource r with
  | RAddress l =>
      let address := address_at (heap i) l in
      match activeEndpoints !! Namespace (a_meta address) with
      | None => lift (Err NoEndpointsError)
      | Some es =>
          for_each (λ ne : nat * MessagingEndpoint, build_address (ne.1 :: t) i address ne.2)
            (imap (λ n e, (n, e)) es)
      end
  | REndpoint l =>
      result ← lift (buildRouterEndpointEntities (endpoint_at (heap i) l));
      modify (add_router_entities result)
  | RProject l =>
      result ← lift (buildRouterProjectEntities (project_at (heap i) l));
      modify (add_router_entities result)
  | ROther type _ => lift (Err (Errorf ("unknown resource type " +:+ type)))
  end.

(** The loop of [buildEntities]: a request that fails is answered at once, what it
    had added stays added. *)
Fixpoint build_requests (t : tick) (activeEndpoints : gmap string (list MessagingEndpoint))
    (requests : list request) (acc : Built) : prog (infraClient W) (list request * Built) :=
  match requests with
  | [] => mret ([], acc)
  | r :: rs => λ i,
      match build_request (length rs :: t) i activeEndpoints r acc with
      | (acc', Ok _) =>
          (res ← build_requests t activeEndpoints rs acc'; mret (r :: res.1, res.2)) i
      | (acc', Err e) =>
          (_ ← answer r (Some e); build_requests t activeEndpoints rs acc') i
      | (_, Panic) => (i, Panic)
      end
  end.

(** [buildEntities]. *)
Definition buildEntities (t : tick) (requests : list request)
    : prog (infraClient W) (list request * Built) := λ i,
  build_requests (1 :: t) (getActiveEndpoints (0 :: t) i) requests
    {| router_entities := [];
       broker_entities := list_to_map ((λ b, (b_host b, [])) <$> range_values (2 :: t) (brokers i)) |}
    i.

(** ** The routers and brokers *)

(** [syncEntities]: the brokers first. *)
Definition syncEntities (t : tick) (b : Built) : prog (infraClient W) () :=
  _ ← (if bool_decide (broker_entities b = ∅) then mret []
       else applyBrokers (0 :: t) (λ n broker,
         match default [] (broker_entities b !! b_host broker) with
         | [] => (broker, Ok ())
         | es => bEnsureEntities (n :: 1 :: t) es broker
         end));
  _ ← (if bool_decide (router_entities b = []) then mret []
       else applyRouters (2 :: t) (λ n, EnsureEntities (n :: 3 :: t) (router_entities b)));
  mret ().

(** [deleteEntities]: the routers first. *)
Definition deleteEntities (t : tick) (b : Built) : prog (infraClient W) () :=
  _ ← applyRouters (0 :: t) (λ n, DeleteEntities (n :: 1 :: t) (router_entities b));
  _ ← applyBrokers (2 :: t) (λ n broker,
        bDeleteEntities (n :: 3 :: t) (default [] (broker_entities b !! b_host broker)) broker);
  mret ().

(** ** Batches *)

(** The first loop of [doSync] and [doDelete]: the requests that pass the check,
    the others are answered. *)
Fixpoint validate (check : infraClient W → request → option error) (requests : list request)
    : prog (infraClient W) (list request) :=
  match requests with
  | [] => mret []
  | r :: rs => λ i,
      match check i r with
      | Some e => (_ ← answer r (Some e); validate check rs) i
      | None => (valid ← validate check rs; mret (r :: valid)) i
      end
  end.

(** An address or endpoint needs the project of its namespace. *)
Definition check_sync i (r : request) : option error :=
  let m := resource_meta (heap i) (req_resource r) in
  match req_resource r with
  | RAddress _ | REndpoint _ =>
      match projects i !! default_project (Namespace m) with
      | Some _ => None
      | None => Some (Errorf ("project not synced for " +:+ Namespace m +:+ "/" +:+ Name m))
      end
  | _ => None
  end.

(** A project or endpoint must not be deleted while its namespace has addresses. *)
Definition check_delete i (r : request) : option error :=
  let m := resource_meta (heap i) (req_resource r) in
  match req_resource r with
  | RProject _ | REndpoint _ =>
      if existsb (λ k, bool_decide (Namespace m = k_Namespace k)) ((map_to_list (addresses i)).*1)
      then Some (Errorf "resource still in use by addresses")
      else None
  | _ => None
  end.

Definition unknown_resource (r : request) : option error :=
  match req_resource r with
  | ROther type _ => Some (Errorf ("unknown resource type " +:+ type))
  | _ => None
  end.

(** The last loop of [doSync]: record the resource unless the batch failed. *)
Definition finish_sync (err : option error) (r : request) : prog (infraClient W) () := λ i,
  let key := request_key i r in
  let record (f : infraClient W → infraClient W) :=
    answer r err (match err with None => f i | Some _ => i end) in
  match req_resource r with
  | RAddress l => record (λ i, set_addresses (<[key := l]> (addresses i)) i)
  | REndpoint l => record (λ i, set_endpoints (<[key := l]> (endpoints i)) i)
  | RProject l => record (λ i, set_projects (<[key := l]> (projects i)) i)
  | ROther _ _ => answer r (unknown_resource r) i
  end.

(** The last loop of [doDelete]. *)
Definition finish_delete (err : option error) (r : request) : prog (infraClient W) () := λ i,
  let key := request_key i r in
  let record (f : infraClient W → infraClient W) :=
    answer r err (match err with None => f i | Some _ => i end) in
  match req_resource r with
  | RAddress l => record (λ i, set_addresses (delete key (addresses i)) i)
  | REndpoint l =>
      record (λ i, let i := freePortsInternal l i in set_endpoints (delete key (endpoints i)) i)
  | RProject l => record (λ i, set_projects (delete key (projects i)) i)
  | ROther _ _ => answer r (unknown_resource r) i
  end.

(** Apply the entities, then answer the requests they were built for. *)
Definition apply_built (apply : prog (infraClient W) ())
    (finish : option error → request → prog (infraClient W) ())
    (built : list request) : prog (infraClient W) () := λ i,
  match apply i with
  | (i, Panic) => (i, Panic)
  | (i, o) => for_each (finish (err_of o)) built i
  end.

(** What [doSync] and [doDelete] have in common, on the requests collected. *)
Definition do_batch (t : tick) (check : infraClient W → request → option error)
    (apply : tick → Built → prog (infraClient W) ())
    (finish : option error → request → prog (infraClient W) ())
    (requests : list request) : prog (infraClient W) () := λ i,
  match requests with
  | [] => (i, Ok ())
  | _ =>
      if negb (i_initialized i) then for_each (λ r, answer r (Some NotInitializedError)) requests i
      else
        (valid ← validate check requests;
         built ← buildEntities (0 :: t) valid;
         apply_built (apply (1 :: t) built.2) finish built.1) i
  end.

(** [doSync], on the requests collected. *)
Definition doSync (t : tick) (toSync : list request) : prog (infraClient W) () :=
  do_batch t check_sync syncEntities finish_sync toSync.

(** [doDelete], on the requests collected. *)
Definition doDelete (t : tick) (toDelete : list request) : prog (infraClient W) () :=
  do_batch t check_delete deleteEntities finish_delete toDelete.

(** ** Everything *)

(** One turn of the outer loop of [syncConfiguration]. *)
Definition build_endpoint (t : tick) i (endpoint : MessagingEndpoint) : prog Built () :=
  if isEndpointActive endpoint then
    _ ← for_each (λ nl : nat * loc,
          let address := address_at (heap i) nl.2 in
          if bool_decide (Namespace (e_meta endpoint) = Namespace (a_meta address))
          then build_address (nl.1 :: 0 :: t) i address endpoint
          else mret ())
        (imap (λ n l, (n, l)) (range_values (1 :: t) (addresses i)));
    e ← lift (buildRouterEndpointEntities endpoint);
    modify (add_router_entities e)
  else mret ().

Definition build_configuration (t : tick) i : prog Built () :=
  for_each (λ nl : nat * loc, build_endpoint (nl.1 :: 1 :: t) i (endpoint_at (heap i) nl.2))
    (imap (λ n l, (n, l)) (range_values (2 :: t) (endpoints i))).

(** [syncConfiguration]. *)
Definition syncConfiguration (t : tick) : prog (infraClient W) () := λ i,
  let i := set_ports (initPorts
             ((λ l, InternalPorts (endpoint_at (heap i) l)) <$> range_values (0 :: t) (endpoints i))
             (ports i)) i in
  match build_configuration (1 :: t) i {| router_entities := []; broker_entities := ∅ |} with
  | (b, Ok _) => syncEntities (2 :: t) b i
  | (_, Err e) => (i, Err e)
  | (_, Panic) => (i, Panic)
  end.

(** [connectorToStatus], with the type assertion of its caller. *)
Definition connectorToStatus (host : string) (e : RouterEntity) : outcome ConnectorStatus :=
  match e with
  | EConnector c =>
      Ok {| cs_Router := host; cs_Broker := rc_Host c;
            cs_Connected := bool_decide (rc_ConnectionStatus c = "SUCCESS");
            cs_Message := rc_ConnectionMsg c |}
  | _ => Panic
  end.

(** The connectors every router should have. *)
Definition broker_connectors (t : tick) i : list RouterEntity :=
  (λ b, EConnector (new_connector (connector_of b) (Hostname (b_host b)) (fmt_d (b_port b))))
    <$> range_values t (brokers i).

(** The loop that sends the statuses. *)
Definition send_statuses (readConnectors : list RouterEntity)
    : prog (RouterState W) (list ConnectorStatus) := λ r,
  (r, map_outcome (connectorToStatus (Hostname (host r))) readConnectors).

(** Connect one router to the brokers and read the state of the connections. *)
Definition connect_router (t : tick) (connectors : list RouterEntity)
    : prog (RouterState W) (list ConnectorStatus) :=
  _ ← EnsureEntities (0 :: t) connectors;
  readConnectors ← ReadEntities (1 :: t) connectors;
  send_statuses readConnectors.

Definition readinessQueue : BrokerQueue :=
  new_queue "readiness" "readiness" RoutingTypeAnycast 1 false true.

Definition readinessListener : RouterListener :=
  {| rl_Name := "readiness"; rl_Host := "127.0.0.1"; rl_Port := "7779"; rl_Role := "normal";
     rl_SslProfile := ""; rl_SaslMechanisms := ""; rl_LinkCapacity := 0;
     rl_IdleTimeoutSeconds := 16; rl_InitialHandshakeTimeoutSeconds := 0; rl_PolicyVhost := "";
     rl_AuthenticatePeer := false; rl_MultiTenant := false; rl_RequireSsl := false;
     rl_Http := true; rl_Metrics := true; rl_Healthz := true; rl_Websockets := false;
     rl_HttpRootDir := "" |}.

(** A value read off the state. *)
Definition gets {A} (f : infraClient W → A) : prog (infraClient W) A := λ i, (i, Ok (f i)).

(** [SyncAll]. The statuses arrive through a channel, in any order. *)
Definition SyncAll (t : tick) (routerHosts brokerHosts : list Host) (tls : option TlsConfig)
    : prog (infraClient W) (list ConnectorStatus) :=
  _ ← modify (set_tlsConfig tls);
  _ ← updateRouters (0 :: t) routerHosts;
  _ ← updateBrokers (1 :: t) brokerHosts true;
  _ ← modify (λ i, if i_initialized i then checkResync i else i);
  _ ← initialize (2 :: t);
  _ ← syncConfiguration (3 :: t);
  connectors ← gets (broker_connectors (4 :: t));
  connectorStatuses ← applyRouters (5 :: t) (λ n, connect_router (n :: 6 :: t) connectors);
  _ ← applyBrokers (7 :: t) (λ n, bEnsureEntities (n :: 8 :: t) [BQueue readinessQueue]);
  _ ← applyRouters (9 :: t) (λ n, EnsureEntities (n :: 10 :: t) [EListener readinessListener]);
  _ ← modify (set_i_initialized true);
  mret (perm (11 :: t) (concat connectorStatuses)).
End Sync.
