(* ===== verification/HostFacts.v ===== *)
(** What a pass over the routers and brokers relies on: no operation changes the
    host of the state it works on, a successful initialization leaves the state
    initialized, and reading a broker gives a well-formed cache. *)
From stdpp Require Import base gmap strings list fin_maps.
From S2P Require Import Prelude Go Client RouterTypes Router RouterFacts Json.
From S2P Require Import BrokerTypes Broker BrokerFacts.

(** ** Routers *)

Section Routers.
Context {W : Type} `{HC : !Client W} `{HS : !Sched}.
Implicit Types r : RouterState W.

Definition address_of r : Host * Z := (host r, port r).

Lemma only_client_address r r' : only_client r r' → address_of r' = address_of r.
Proof. by intros ->. Qed.

Lemma Reset_address r : address_of (Reset r) = address_of r.
Proof. unfold Reset. by destruct (commandClient r), (initialized r). Qed.

Lemma finish_address err record r :
  (∀ r, address_of (record r).1 = address_of r) →
  address_of (finish err record r).1 = address_of r.
Proof.
  intros Hrec. unfold finish. cbv zeta.
  pose proof (Hrec (if isConnectionError err then Reset r else r)) as H1.
  assert (address_of (if isConnectionError err then Reset r else r) = address_of r) as H2
    by (destruct (isConnectionError err); [apply Reset_address|done]).
  rewrite H2 in H1. destruct (record (if isConnectionError err then _ else _)) as [? []]; exact H1.
Qed.

Lemma store_all_address l r : address_of (for_each store_entity l r).1 = address_of r.
Proof.
  apply (for_each_inv (λ r', address_of r' = address_of r)); [done|].
  intros e r' _ <-. unfold store_entity. by case_match.
Qed.

Lemma forget_all_address l r : address_of (for_each forget_entity l r).1 = address_of r.
Proof. by apply (for_each_inv (λ r', address_of r' = address_of r)). Qed.

Lemma Ensure_address t es r : address_of (EnsureEntities t es r).1 = address_of r.
Proof.
  unfold EnsureEntities. case_match; [done|]. destruct (toCreate r es) as [todo| |]; [|done..].
  pose proof (create_rounds_frame t (seq 0 maxOrder) todo [] r) as H1%only_client_address.
  destruct (create_rounds _ _ _ _ r) as [r1 [[dn err]|]]; [|done]. rewrite <-H1.
  apply finish_address. intros. apply store_all_address.
Qed.

Lemma Delete_address t es r : address_of (DeleteEntities t es r).1 = address_of r.
Proof.
  unfold DeleteEntities. case_match; [done|].
  pose proof (group_frame t delete_task es r delete_task_frame) as H1%only_client_address.
  destruct (group _ _ _ r) as [r1 [[dn err]|]]; [|done]. rewrite <-H1.
  apply finish_address. intros. apply forget_all_address.
Qed.

Lemma Read_address t es r : address_of (ReadEntities t es r).1 = address_of r.
Proof.
  unfold ReadEntities. case_match; [done|].
  pose proof (group_frame t (λ e, with_client (readEntity (Type_ e) (GetName e))) es r
    (λ e, with_client_frame _)) as H1%only_client_address.
  destruct (group _ _ _ r) as [r1 [[dn err]|]]; [|done]. rewrite <-H1. simpl.
  case_match; [apply Reset_address|done].
Qed.

Lemma load_entities_address ty r : address_of (load_entities ty r).1 = address_of r.
Proof.
  unfold load_entities. go_simpl.
  pose proof (with_client_frame (readEntities ty) r) as H1%only_client_address.
  by destruct (with_client _ r) as [r1 []].
Qed.

Lemma Initialize_address next r : address_of (Initialize next r).1 = address_of r.
Proof.
  rewrite Initialize_eq. destruct (commandClient r) as [w|]; [|done]. cbn zeta iota.
  set (r1 := if bool_decide _ then _ else _).
  assert (address_of r1 = address_of r) as <- by (unfold r1; by case_bool_decide).
  clearbody r1. case_match; [done|].
  set (r2 := set_reconnectCount _ _).
  pose proof (for_each_inv (λ r', address_of r' = address_of r2) load_entities entityTypes r2
    eq_refl (λ t r _ H, eq_trans (load_entities_address t r) H)) as H2.
  by destruct (for_each _ _ r2) as [r3 []].
Qed.

Lemma Initialize_initialized next r r' :
  Initialize next r = (r', Ok ()) → initialized r' = true.
Proof.
  rewrite Initialize_eq. destruct (commandClient r) as [w|]; [|done].
  cbv zeta. set (r2 := if bool_decide _ then _ else _). clearbody r2.
  destruct (initialized r2) eqn:E; [by intros [= <-]|].
  destruct (for_each _ _ _) as [r3 []]; [by intros [= <-]|done..].
Qed.

(** Only errors are lost: a successful read answers for every entity. *)
Lemma Read_length t es r r' l :
  ReadEntities t es r = (r', Ok l) →
  initialized r = true ∧ initialized r' = true ∧ length l = length es ∧
  (∀ ty n, cached r' ty n = cached r ty n).
Proof.
  unfold ReadEntities. destruct (initialized r) eqn:Hi; cbn [negb]; [|done].
  pose proof (group_frame t (λ e, with_client (readEntity (Type_ e) (GetName e))) es r
    (λ e, with_client_frame _)) as Hf.
  destruct (group _ _ _ r) as [r1 [[dn [e|]]|]] eqn:Hg; simpl in *; [done| |done].
  intros [= <- <-]. rewrite (only_client_initialized _ _ Hf).
  do 2 (split; [done|]). split; [|intros; by apply only_client_cached].
  pose proof (go_each_rule (λ e, with_client (readEntity (Type_ e) (GetName e)))
    (λ pre dn err _, err = None → length dn = length pre) (perm t es) [] ([], None) r r1 (dn, None))
    as Hl.
  simpl in Hl. rewrite Hl; [by rewrite perm_ok|done| |exact Hg|done].
  intros pre e dn' err r2 _ IH. destruct (with_client _ r2) as [r3 [x|e'|]]; [| |done].
  - intros ->. by rewrite !length_app, IH.
  - by destruct err.
Qed.
End Routers.

(** ** Brokers *)

Section Brokers.
Context {W : Type} `{HC : !Client W} `{HS : !Sched}.
Implicit Types b : BrokerState W.

Definition b_address_of b : Host * Z := (b_host b, b_port b).

Lemma b_only_client_address b b' : b_only_client b b' → b_address_of b' = b_address_of b.
Proof. by intros ->. Qed.

Lemma bReset_address b : b_address_of (bReset b) = b_address_of b.
Proof. unfold bReset. by destruct (b_commandClient b), (b_initialized b). Qed.

Lemma b_finish_address err record b :
  (∀ b, b_address_of (record b).1 = b_address_of b) →
  b_address_of (b_finish err record b).1 = b_address_of b.
Proof.
  intros Hrec. unfold b_finish. cbv zeta.
  pose proof (Hrec (if isConnectionError err then bReset b else b)) as H1.
  assert (b_address_of (if isConnectionError err then bReset b else b) = b_address_of b) as H2
    by (destruct (isConnectionError err); [apply bReset_address|done]).
  rewrite H2 in H1. destruct (record (if isConnectionError err then _ else _)) as [? []]; exact H1.
Qed.

Lemma bEnsure_address t es b : b_address_of (bEnsureEntities t es b).1 = b_address_of b.
Proof.
  unfold bEnsureEntities. case_match; [done|]. destruct (bToCreate b es) as [todo| |]; [|done..].
  destruct (b_rounds_frame b_create_task b_create_is_task (λ b e, negb (is_cached b e)) t
    (seq 0 bMaxOrder) todo [] b) as [H1%b_only_client_address _].
  destruct (b_rounds _ _ _ _ _ _ b) as [b1 [[dn err]|]]; [|done]. rewrite <-H1.
  apply b_finish_address. intros b2.
  apply (for_each_inv (λ b', b_address_of b' = b_address_of b2)); [done|].
  intros e b' _ <-. unfold b_store_entity. by case_match.
Qed.

Lemma bDelete_address t es b : b_address_of (bDeleteEntities t es b).1 = b_address_of b.
Proof.
  unfold bDeleteEntities. case_match; [done|].
  destruct (b_rounds_frame b_delete_task b_delete_is_task is_cached t
    (reverse (seq 0 bMaxOrder)) es [] b) as [H1%b_only_client_address _].
  destruct (b_rounds _ _ _ _ _ _ b) as [b1 [[dn err]|]]; [|done]. rewrite <-H1.
  apply b_finish_address. intros b2.
  by apply (for_each_inv (λ b', b_address_of b' = b_address_of b2)).
Qed.

Lemma b_load_address t ty b : b_address_of (b_load_entities t ty b).1 = b_address_of b.
Proof.
  unfold b_load_entities.
  pose proof (b_with_client_frame
    (bReadEntities t (default ∅ (b_entities b !! BrokerQueueEntity)) ty) b)
    as H1%b_only_client_address.
  by destruct (b_with_client _ b) as [b1 []].
Qed.

(** The connection is not lost between two readings of its count. *)
Lemma bInitialize_eq t next b :
  bInitialize t next b =
    match b_commandClient b with
    | Some w =>
        let b := if bool_decide (b_reconnectCount b = ReconnectCount w) then b else set_b_initialized false b in
        if b_initialized b then (b, Ok ())
        else
          let b := set_b_reconnectCount (ReconnectCount w) (set_b_nextResync next b) in
          match for_each (b_load_entities t) bEntityTypes b with
          | (b, Ok _) => (set_b_initialized true b, Ok ())
          | (b, o) => (b, o)
          end
    | None => (b, Panic)
    end.
Proof.
  unfold bInitialize, b_load. generalize (for_each (b_load_entities t) bEntityTypes). intros loop.
  unfold b_unless_initialized, b_clientReconnectCount, b_with_client, modify. go_simpl.
  destruct b as [h p nr ini [w|] es rc]; [|done]. cbn. destruct (bool_decide _), ini; cbn; try done.
  all: by destruct (loop _) as [? []].
Qed.

Lemma bInitialize_address t next b : b_address_of (bInitialize t next b).1 = b_address_of b.
Proof.
  rewrite bInitialize_eq. destruct (b_commandClient b) as [w|]; [|done]. cbn zeta iota.
  set (b1 := if bool_decide _ then _ else _).
  assert (b_address_of b1 = b_address_of b) as <- by (unfold b1; by case_bool_decide).
  clearbody b1. case_match; [done|].
  set (b2 := set_b_reconnectCount _ _).
  pose proof (for_each_inv (λ b', b_address_of b' = b_address_of b2) (b_load_entities t)
    bEntityTypes b2 eq_refl (λ ty b _ H, eq_trans (b_load_address t ty b) H)) as H2.
  by destruct (for_each _ _ b2) as [b3 []].
Qed.

Lemma bInitialize_initialized t next b b' :
  bInitialize t next b = (b', Ok ()) → b_initialized b' = true.
Proof.
  rewrite bInitialize_eq. destruct (b_commandClient b) as [w|]; [|done].
  cbv zeta. set (b2 := if bool_decide _ then _ else _). clearbody b2.
  destruct (b_initialized b2) eqn:E; [by intros [= <-]|].
  destruct (for_each _ _ _) as [b3 []]; [by intros [= <-]|done..].
Qed.

(** *** Reading a broker *)

(** A map whose entities of type [ty] are under their names. *)
Definition b_keyed (ty : BrokerEntityType) (m : gmap string BrokerEntity) : Prop :=
  ∀ n e, m !! n = Some e → bkey e = (ty, n).

Lemma b_keyed_fold {A} ty (name : A → string) (mk : A → BrokerEntity) l m :
  (∀ a, a ∈ l → bkey (mk a) = (ty, name a)) → b_keyed ty m →
  b_keyed ty (foldl (λ m a, <[name a := mk a]> m) m l).
Proof.
  revert m. induction l as [|a l IH]; intros m Hl Hm; [done|]. simpl. apply IH.
  { intros x Hx. apply Hl. by right. }
  intros n e. rewrite lookup_insert_Some. intros [[<- <-]|[_ ?]]; [apply Hl; by left|by apply Hm].
Qed.

Lemma read_names_keyed what op mk ty w w' m :
  (∀ n, bkey (mk n) = (ty, n)) →
  read_names what op mk w = (w', Ok m) → b_keyed ty m.
Proof.
  intros Hmk (j & w1 & _ & H)%prog_bind_Ok. apply prog_bind_Ok in H as (ns & w2 & _ & [= _ <-]).
  unfold named_entities. by apply (b_keyed_fold ty (λ n, n) mk).
Qed.

Lemma read_setting_keyed n w w' ss s :
  read_setting n w = (w', Ok ss) → s ∈ ss → bkey s = (BrokerAddressSettingEntity, n).
Proof.
  intros (j & w1 & _ & H)%prog_bind_Ok. apply prog_bind_Ok in H as (es & w2 & _ & H).
  injection H as _ H. intros Hin. destruct (map_outcome_elem _ _ _ _ H Hin) as (e & _ & He).
  apply outcome_bind_Ok in He as (j' & _ & He). apply outcome_bind_Ok in He as (s' & _ & [= <-]).
  by destruct s'.
Qed.

Lemma read_settings_keyed ns m w w' m' :
  b_keyed BrokerAddressSettingEntity m →
  read_settings ns m w = (w', Ok m') → b_keyed BrokerAddressSettingEntity m'.
Proof.
  revert m w. induction ns as [|n ns IH]; intros m w Hm; simpl; [by intros [= _ <-]|].
  intros (ss & w1 & Hs & H)%prog_bind_Ok. eapply IH; [|exact H].
  apply (b_keyed_fold _ (λ _, n) (λ s, s)); [|done]. intros s. by eapply read_setting_keyed.
Qed.

Lemma bReadEntities_keyed t q ty w w' m : bReadEntities t q ty w = (w', Ok m) → b_keyed ty m.
Proof.
  unfold bReadEntities. repeat (case_bool_decide; subst); intros Hr.
  1-3: by eapply read_names_keyed; [|exact Hr].
  - by eapply read_settings_keyed; [|exact Hr].
  - done.
Qed.

(** The cache is keyed, whatever the claim to be initialized. *)
Definition b_cache_ok b : Prop :=
  is_Some (b_commandClient b) ∧ ∀ t n e, b_cached b t n = Some e → bkey e = (t, n).

Lemma b_load_cache t ty b :
  b_cache_ok b →
  b_cache_ok (b_load_entities t ty b).1 ∧
  b_initialized (b_load_entities t ty b).1 = b_initialized b ∧
  ((b_load_entities t ty b).2 = Ok () → ∀ ty', ty' = ty ∨ is_Some (b_entities b !! ty') →
     is_Some (b_entities (b_load_entities t ty b).1 !! ty')).
Proof.
  intros [[w Hw] Hk]. unfold b_load_entities, b_with_client. rewrite Hw.
  destruct (bReadEntities _ _ ty w) as [w' [m| |]] eqn:E; simpl; [|by split..].
  split_and!; [split; [done|]|done|].
  - intros ty' n e. unfold b_cached. simpl. destruct (decide (ty' = ty)) as [->|Hne].
    + rewrite lookup_insert_eq. simpl. by apply (bReadEntities_keyed _ _ _ _ _ _ E).
    + rewrite lookup_insert_ne by done. apply Hk.
  - intros _ ty' [->|H]; [by rewrite lookup_insert_eq|].
    destruct (decide (ty' = ty)) as [->|]; [by rewrite lookup_insert_eq|by rewrite lookup_insert_ne].
Qed.

Lemma b_load_all t tys b :
  b_cache_ok b →
  b_cache_ok (for_each (b_load_entities t) tys b).1 ∧
  b_initialized (for_each (b_load_entities t) tys b).1 = b_initialized b ∧
  ((for_each (b_load_entities t) tys b).2 = Ok () → ∀ ty', ty' ∈ tys ∨ is_Some (b_entities b !! ty') →
     is_Some (b_entities (for_each (b_load_entities t) tys b).1 !! ty')).
Proof.
  revert b. induction tys as [|ty tys IH]; intros b Hb.
  { split_and!; [done..|]. by intros _ ty' [?%not_elem_of_nil|?]. }
  simpl. unfold mbind, prog_bind. destruct (b_load_cache t ty b Hb) as (H1 & H2 & H3).
  destruct (b_load_entities t ty b) as [b1 [[]| |]]; simpl in *; [|by split_and!..].
  destruct (IH b1 H1) as (I1 & I2 & I3). split_and!; [done|by rewrite I2|].
  intros Hok ty' Hty. apply I3; [done|]. rewrite elem_of_cons in Hty.
  destruct Hty as [[?|?]|?]; [right; auto|by left|right; auto].
Qed.

Lemma bInitialize_wf t next b : b_wf b → b_wf (bInitialize t next b).1.
Proof.
  intros Hb. rewrite bInitialize_eq. destruct (b_wf_client _ Hb) as [w Hw]. rewrite Hw.
  cbn zeta iota. set (b1 := if bool_decide _ then _ else _).
  assert (b_wf b1) as Hb1 by (unfold b1; case_bool_decide; by destruct Hb).
  clearbody b1. destruct (b_initialized b1) eqn:Hi; [done|].
  set (b2 := set_b_reconnectCount _ _).
  assert (b_cache_ok b2) as Hb2 by (split; by destruct Hb1).
  destruct (b_load_all t bEntityTypes b2 Hb2) as ([Hc Hk] & Hi2 & Hall).
  destruct (for_each _ _ b2) as [b3 [[]| |]]; simpl in *.
  - split; [done| |done]. intros _ ty Hty. simpl. auto.
  - split; [done| |done]. congruence.
  - split; [done| |done]. congruence.
Qed.

Lemma bNew_wf h p tls : b_wf (NewBrokerState h p tls).
Proof. by split. Qed.
End Brokers.
