(* ===== verification/InfraFacts.v ===== *)
(** Facts about the infrastructure client: calls on all routers or brokers, the
    bookkeeping of hosts, brokers in use, scheduling and port allocation. *)
From stdpp Require Import base functions fin_maps gmap strings list.
From S2P Require Import Prelude Go Client RouterTypes Router RouterFacts ApiV1.
From S2P Require Import BrokerTypes Broker BrokerFacts HostFacts Names Ports Scheduler.
From S2P Require Import Infra.

(** ** Calls on all hosts *)

Section Apply.
Context `{HS : !Sched} {S B : Type}.
Implicit Types (fn : nat → prog S B) (m : gmap Host S).

Lemma on_host_some fn x m s :
  m !! x.2 = Some s → on_host fn x m = (<[x.2 := (fn x.1 s).1]> m, (fn x.1 s).2).
Proof. unfold on_host. intros ->. by destruct (fn x.1 s). Qed.

(** What the tasks [l] make of [m]. *)
Definition hosts_run fn (l : list (nat * Host)) m m' : Prop :=
  (∀ n h s, (n, h) ∈ l → m !! h = Some s → m' !! h = Some (fn n s).1) ∧
  (∀ h, h ∉ l.*2 → m' !! h = m !! h).

(** A task of [l] has an outcome of which [P] holds. *)
Definition hosts_some fn (l : list (nat * Host)) m (P : outcome B → Prop) : Prop :=
  ∃ n h s, h ∈ l.*2 ∧ m !! h = Some s ∧ P (fn n s).2.

(** The values the tasks of [l] return. *)
Definition hosts_values fn (l : list (nat * Host)) m (bs : list B) : Prop :=
  Forall2 (λ x b, ∃ s, m !! x.2 = Some s ∧ (fn x.1 s).2 = Ok b) l bs.

Section Step.
Context (fn : nat → prog S B) (n : nat) (h : Host) (s : S) (l : list (nat * Host))
  (m : gmap Host S) (Hh : h ∉ l.*2) (Hs : m !! h = Some s).
Let m1 := <[h := (fn n s).1]> m.

Lemma step_lookup h' : h' ∈ l.*2 → m1 !! h' = m !! h'.
Proof. intros Hin. apply lookup_insert_ne. by intros ->. Qed.

Lemma hosts_run_step m' : hosts_run fn l m1 m' → hosts_run fn ((n, h) :: l) m m'.
Proof.
  intros [Hin Hout]. split.
  - intros n' h' s'. rewrite elem_of_cons. intros [[= -> ->]|Hx] Hs'.
    + rewrite Hout by done. unfold m1. rewrite lookup_insert_eq. by simplify_eq.
    + apply Hin; [done|]. rewrite step_lookup; [done|].
      apply list_elem_of_fmap. by exists (n', h').
  - intros h'. simpl. rewrite not_elem_of_cons. intros [Hne Hx]. rewrite Hout by done.
    by apply lookup_insert_ne.
Qed.

Lemma hosts_some_step P : hosts_some fn l m1 P → hosts_some fn ((n, h) :: l) m P.
Proof.
  intros (n' & h' & s' & Hin & Hs' & HP). rewrite step_lookup in Hs' by done.
  exists n', h', s'. split; [by right|done].
Qed.

Lemma hosts_values_step b bs :
  (fn n s).2 = Ok b → hosts_values fn l m1 bs → hosts_values fn ((n, h) :: l) m (b :: bs).
Proof.
  intros Hb Hv. constructor; [by exists s|]. apply Forall2_same_length_lookup in Hv as [Hlen Hv].
  apply Forall2_same_length_lookup. split; [done|]. intros k x b' Hx Hb'.
  destruct (Hv k x b' Hx Hb') as (s' & Hs' & ?). exists s'. split; [|done]. rewrite <-Hs'. symmetry.
  by apply step_lookup, list_elem_of_fmap_2, (list_elem_of_lookup_2 _ k).
Qed.
End Step.

(** The goroutines of a group work on distinct hosts. *)
Lemma go_each_hosts fn l : ∀ acc m,
  NoDup l.*2 → (∀ x, x ∈ l → is_Some (m !! x.2)) →
  match go_each (on_host fn) l acc m with
  | (m', Some (bs, err)) =>
      hosts_run fn l m m' ∧
      (err = None → acc.2 = None ∧ ∃ bs', bs = acc.1 ++ bs' ∧ hosts_values fn l m bs') ∧
      (∀ e, err = Some e → acc.2 = Some e ∨ hosts_some fn l m (λ o, o = Err e))
  | (m', None) => hosts_some fn l m (λ o, o = Panic)
  end.
Proof.
  induction l as [|[n h] l IH]; intros acc m Hnd Hl.
  { simpl. destruct acc as [bs err]. split_and!; [split; [by intros ??? ?%not_elem_of_nil|done]| |auto].
    intros ->. split; [done|]. exists []. rewrite app_nil_r. split; [done|constructor]. }
  simpl in Hnd. pose proof (NoDup_cons_1_1 _ _ Hnd) as Hh. apply NoDup_cons_1_2 in Hnd.
  destruct (Hl (n, h)) as [s Hs]; [by left|]. simpl in Hs. simpl.
  rewrite (on_host_some fn (n, h) m s) by done. simpl.
  assert (∀ x, x ∈ l → is_Some (<[h := (fn n s).1]> m !! x.2)) as Hl'.
  { intros x Hx. rewrite (step_lookup fn n h s l) by (done || by apply list_elem_of_fmap_2).
    apply Hl. by right. }
  destruct (fn n s).2 as [b|e|] eqn:Ef; [..|by exists n, h, s; split; [left|]].
  - specialize (IH (acc.1 ++ [b], acc.2) _ Hnd Hl').
    destruct (go_each _ _ _ _) as [m' [[bs err]|]]; [|by eapply hosts_some_step].
    destruct IH as (Hr & Hok & Herr). split_and!; [by eapply hosts_run_step| |].
    + intros He. destruct (Hok He) as (? & bs' & -> & Hv). split; [done|].
      exists (b :: bs'). simpl. rewrite <-app_assoc. split; [done|]. by eapply hosts_values_step.
    + intros e He. destruct (Herr e He) as [?|?]; [by left|right]. by eapply hosts_some_step.
  - specialize (IH (acc.1, first_err acc.2 e) _ Hnd Hl').
    destruct (go_each _ _ _ _) as [m' [[bs err]|]]; [|by eapply hosts_some_step].
    destruct IH as (Hr & Hok & Herr). split_and!; [by eapply hosts_run_step| |].
    + intros He. destruct (Hok He) as [Hf _]. simpl in Hf. by destruct acc.2.
    + intros e' He. destruct (Herr e' He) as [Hf|?]; [|right; by eapply hosts_some_step].
      simpl in Hf. destruct acc.2; simplify_eq/=; [by left|right]. exists n, h, s. split; [by left|done].
Qed.

Lemma snd_imap (l : list Host) : (imap (λ n h, (n, h)) l).*2 = l.
Proof. rewrite fmap_imap. rewrite (imap_const (λ h : Host, h)). apply list_fmap_id. Qed.

(** Every branch of a call on all hosts. *)
Lemma apply_hosts_spec t fn m :
  match apply_hosts t fn m with
  | (m', Ok bs) =>
      (∀ h s, m !! h = Some s → ∃ n b, (fn n s).2 = Ok b ∧ b ∈ bs ∧ m' !! h = Some (fn n s).1) ∧
      (∀ h, m !! h = None → m' !! h = None) ∧
      (∀ b, b ∈ bs → ∃ n h s, m !! h = Some s ∧ (fn n s).2 = Ok b) ∧
      length bs = size m
  | (_, Err e) => ∃ n h s, m !! h = Some s ∧ (fn n s).2 = Err e
  | (_, Panic) => ∃ n h s, m !! h = Some s ∧ (fn n s).2 = Panic
  end.
Proof.
  unfold apply_hosts, group. set (l := imap (λ n h, (n, h)) (range_keys (1 :: t) m)).
  assert (perm (0 :: t) l ≡ₚ l) as Hp by apply perm_ok.
  assert (∀ h, h ∈ (perm (0 :: t) l).*2 ↔ is_Some (m !! h)) as Hin.
  { intros h. rewrite Hp. unfold l. rewrite snd_imap. apply elem_of_range_keys. }
  pose proof (go_each_hosts fn (perm (0 :: t) l) ([], None) m) as H. ospecialize (H _ _).
  { rewrite Hp. unfold l. rewrite snd_imap. apply NoDup_range_keys. }
  { intros x Hx. by apply Hin, list_elem_of_fmap_2. }
  destruct (go_each _ _ _ _) as [m' [[bs [e|]]|]].
  - destruct H as (_ & _ & H). destruct (H e) as [?|(n & h & s & _ & ? & ?)]; [done..|eauto].
  - destruct H as ([Hr Hout] & H & _). destruct H as (_ & bs' & -> & Hv); [done|]. simpl.
    assert (length bs' = size m) as Hlen.
    { rewrite <-(Forall2_length _ _ _ Hv), Hp. unfold l. rewrite length_imap.
      unfold range_keys. rewrite length_fmap. apply length_range. }
    split_and!; [..|done].
    + intros h s Hs. destruct (proj1 (list_elem_of_lookup _ _) (proj2 (Hin h) (ex_intro _ s Hs))) as [i Hi].
      rewrite list_lookup_fmap, fmap_Some in Hi. destruct Hi as ([n h'] & Hi & ->). simpl in Hs.
      destruct (Forall2_lookup_l _ _ _ _ _ Hv Hi) as (b & Hb & s' & Hs' & Ho). simplify_eq/=.
      exists n, b. split_and!; [done|by eapply list_elem_of_lookup_2|].
      apply Hr; [by eapply list_elem_of_lookup_2|done].
    + intros h Hh. rewrite Hout; [done|]. rewrite Hin, Hh. by intros [].
    + intros b [i Hi]%list_elem_of_lookup.
      destruct (Forall2_lookup_r _ _ _ _ _ Hv Hi) as ([n h] & _ & s & Hs & Ho). by exists n, h, s.
  - destruct H as (n & h & s & _ & ? & ?). eauto.
Qed.

(** A state after a successful call is the result of the call. *)
Lemma apply_hosts_lookup t fn m m' bs h s' :
  apply_hosts t fn m = (m', Ok bs) → m' !! h = Some s' →
  ∃ n s b, m !! h = Some s ∧ fn n s = (s', Ok b) ∧ b ∈ bs.
Proof.
  intros E Hh. pose proof (apply_hosts_spec t fn m) as Hs. rewrite E in Hs.
  destruct Hs as (Hs & Hn & _). destruct (m !! h) as [s|] eqn:Es; [|by rewrite (Hn _ Es) in Hh].
  destruct (Hs h s Es) as (n & b & Hok & Hb & Hm). exists n, s, b. split_and!; [done| |done].
  rewrite Hm in Hh. injection Hh as <-. by rewrite <-Hok, <-surjective_pairing.
Qed.

(** What every call preserves holds of every host afterwards, also when the group
    fails. *)
Lemma apply_hosts_inv (P : Host → S → Prop) t fn m :
  (∀ n h s, P h s → P h (fn n s).1) → map_Forall P m → map_Forall P (apply_hosts t fn m).1.
Proof.
  intros Hfn Hm. unfold apply_hosts, group.
  pose proof (go_each_inv (on_host fn) (map_Forall P)
    (perm (0 :: t) (imap (λ n h, (n, h)) (range_keys (1 :: t) m))) ([], None) m Hm) as H.
  ospecialize (H _).
  { intros [n h] m1 _ H1. unfold on_host. simpl. destruct (m1 !! h) as [s|] eqn:E; [|done].
    pose proof (Hfn n h s (H1 _ _ E)) as H2. destruct (fn n s). simpl. by apply map_Forall_insert_2. }
  by destruct (go_each _ _ _ _) as [m' [[bs [e|]]|]].
Qed.

Lemma apply_hosts_dom t fn m h : is_Some ((apply_hosts t fn m).1 !! h) ↔ is_Some (m !! h).
Proof.
  unfold apply_hosts, group.
  pose proof (go_each_inv (on_host fn) (λ m', is_Some (m' !! h) ↔ is_Some (m !! h))
    (perm (0 :: t) (imap (λ n h, (n, h)) (range_keys (1 :: t) m))) ([], None) m) as H.
  ospecialize (H _ _); [done| |by destruct (go_each _ _ _ _) as [m' [[bs [e|]]|]]].
  intros [n h'] m1 _ <-. unfold on_host. simpl. destruct (m1 !! h') as [s|] eqn:E; [|done].
  destruct (fn n s). simpl. destruct (decide (h = h')) as [->|].
  - rewrite lookup_insert_eq, E. by split.
  - by rewrite lookup_insert_ne.
Qed.
End Apply.

Section Calls.
Context {W : Type} `{HC : !Client W} `{HS : !Sched} {B : Type}.
Implicit Types i : infraClient W.

Lemma applyRouters_Ok t (fn : nat → prog (RouterState W) B) i i' bs :
  applyRouters t fn i = (i', Ok bs) →
  i' = set_routers (routers i') i ∧
  (∀ h, is_Some (routers i' !! h) ↔ is_Some (routers i !! h)) ∧
  ∀ h r', routers i' !! h = Some r' →
    ∃ n r b, routers i !! h = Some r ∧ fn n r = (r', Ok b) ∧ b ∈ bs.
Proof.
  unfold applyRouters. pose proof (apply_hosts_dom t fn (routers i)) as Hd.
  destruct (apply_hosts t fn (routers i)) as [m o] eqn:E. intros [= <- ->].
  split_and!; [done..|]. intros h r'. by apply (apply_hosts_lookup t fn _ _ _ _ _ E).
Qed.

Lemma applyBrokers_Ok t (fn : nat → prog (BrokerState W) B) i i' bs :
  applyBrokers t fn i = (i', Ok bs) →
  i' = set_brokers (brokers i') i ∧
  (∀ h, is_Some (brokers i' !! h) ↔ is_Some (brokers i !! h)) ∧
  ∀ h r', brokers i' !! h = Some r' →
    ∃ n r b, brokers i !! h = Some r ∧ fn n r = (r', Ok b) ∧ b ∈ bs.
Proof.
  unfold applyBrokers. pose proof (apply_hosts_dom t fn (brokers i)) as Hd.
  destruct (apply_hosts t fn (brokers i)) as [m o] eqn:E. intros [= <- ->].
  split_and!; [done..|]. intros h r'. by apply (apply_hosts_lookup t fn _ _ _ _ _ E).
Qed.
End Calls.

(** ** The bookkeeping of hosts *)

Lemma wanted_name hosts n h : wanted hosts !! n = Some h → Hostname h = n ∧ h ∈ hosts.
Proof.
  unfold wanted. induction hosts as [|x hosts IH] using rev_ind; [done|].
  rewrite foldl_snoc, lookup_insert_Some, elem_of_app. intros [[<- <-]|[_ H]].
  - split; [done|right]. by left.
  - destruct (IH H). auto.
Qed.

Lemma wanted_some hosts h : h ∈ hosts → is_Some (wanted hosts !! Hostname h).
Proof.
  unfold wanted. induction hosts as [|x hosts IH] using rev_ind; [by intros ?%not_elem_of_nil|].
  rewrite foldl_snoc, elem_of_app, list_elem_of_singleton.
  intros [H| ->]; [|by rewrite lookup_insert_eq]. apply lookup_insert_is_Some'. auto.
Qed.

(** Of hosts with distinct names each is wanted. *)
Lemma wanted_unique hosts h :
  (∀ h', h' ∈ hosts → Hostname h' = Hostname h → h' = h) → h ∈ hosts →
  wanted hosts !! Hostname h = Some h.
Proof.
  intros Hu Hin. destruct (wanted_some hosts h Hin) as [h' Hh'].
  destruct (wanted_name _ _ _ Hh') as [Hn Hin']. by rewrite Hh', (Hu h').
Qed.

Lemma sort_host_eq A R k :
  (∀ h, A !! Hostname k = Some h → Hostname h = Hostname k) →
  sort_host (A, R) k =
    if decide (A !! Hostname k = Some k) then (delete (Hostname k) A, R)
    else (A, <[Hostname k := k]> R).
Proof.
  intros HA. unfold sort_host. simpl. destruct (A !! Hostname k) as [[n ip]|] eqn:E; [|done].
  pose proof (HA _ eq_refl) as Hn. destruct k as [n' ip']. simpl in *. subst.
  case_bool_decide as Hip; case_decide; try done; [by subst|congruence].
Qed.

(** The hosts to add and the hosts to remove. *)
Lemma sort_hosts_spec hosts known toAdd toRemove :
  (∀ h1 h2, h1 ∈ known → h2 ∈ known → Hostname h1 = Hostname h2 → h1 = h2) → NoDup known →
  foldl sort_host (wanted hosts, ∅) known = (toAdd, toRemove) →
  (∀ n h, toAdd !! n = Some h ↔ wanted hosts !! n = Some h ∧ h ∉ known) ∧
  (∀ n h, toRemove !! n = Some h ↔ h ∈ known ∧ Hostname h = n ∧ wanted hosts !! n ≠ Some h).
Proof.
  revert toAdd toRemove. induction known as [|k known IH] using rev_ind; intros toAdd toRemove Hu Hnd.
  { intros [= <- <-]. split; intros n h.
    - split; [intros; split; [done|apply not_elem_of_nil]|tauto].
    - rewrite lookup_empty. split; [done|]. by intros [?%not_elem_of_nil _]. }
  rewrite foldl_snoc. apply NoDup_app in Hnd as (Hnd & Hk & _).
  destruct (foldl sort_host _ known) as [A R]. destruct (IH A R) as [HA HR]; [|done..|clear IH].
  { intros h1 h2 ? ?. apply Hu; rewrite elem_of_app; auto. }
  assert (k ∉ known) as Hkn. { intros Hin. apply (Hk k Hin). by left. }
  assert (∀ h, h ∈ known → Hostname h ≠ Hostname k) as Hne.
  { intros h Hh En. assert (h = k) as ->; [|done].
    apply Hu; [apply elem_of_app; by left|apply elem_of_app; right; by left|done]. }
  assert (A !! Hostname k = Some k ↔ wanted hosts !! Hostname k = Some k) as HAk.
  { rewrite HA. tauto. }
  rewrite sort_host_eq by (intros h [[] _]%HA%(λ H, conj (wanted_name _ _ _ (proj1 H)) H); done).
  setoid_rewrite elem_of_app. setoid_rewrite list_elem_of_singleton.
  destruct (decide _) as [Hw%HAk|Hw]; [|rewrite HAk in Hw]; intros [= <- <-]; split; intros n h.
  - rewrite lookup_delete_Some, HA. split; [intros (Hn & ? & ?)|intros [Hwn Hno]].
    + split; [done|]. intros [?| ->]; [done|]. apply Hn. by eapply wanted_name.
    + split; [|tauto]. intros <-. rewrite Hw in Hwn. injection Hwn as <-. tauto.
  - rewrite HR. split; [tauto|]. intros ([?| ->] & <- & ?); [tauto|done].
  - rewrite HA. split; [|tauto]. intros [Hwn Hno]. split; [done|]. intros [?| ->]; [done|].
    apply Hw. by destruct (wanted_name _ _ _ Hwn) as [-> _].
  - rewrite lookup_insert_Some, HR. split.
    + intros [[<- <-]|(Hn & ? & ? & ?)]; auto.
    + intros ([Hin| ->] & <- & Hwn); [right|by left]. split; [|done]. intros E. by apply (Hne h).
Qed.

Section Index.
Context {S : Type} (new : Host → S).
Implicit Types (m : gmap Host S) (hm : gmap string Host).

(** The index of the hosts by name knows every host of [m]. *)
Definition indexed m hm : Prop := ∀ h, is_Some (m !! h) → hm !! Hostname h = Some h.

Lemma indexed_unique m hm h1 h2 :
  indexed m hm → is_Some (m !! h1) → is_Some (m !! h2) → Hostname h1 = Hostname h2 → h1 = h2.
Proof. intros Hi H1%Hi H2%Hi E. rewrite E in H1. congruence. Qed.

(** Removing and adding entries, on the states and the index. *)
Definition remove_entry (st : gmap Host S * gmap string Host) (e : string * Host) :=
  (delete e.2 st.1, delete e.1 st.2).
Definition add_entry (st : gmap Host S * gmap string Host) (e : string * Host) :=
  (<[e.2 := new e.2]> st.1, <[e.1 := e.2]> st.2).

Lemma remove_entries l st :
  (∀ h, (foldl remove_entry st l).1 !! h = if decide (h ∈ l.*2) then None else st.1 !! h) ∧
  (∀ n, (foldl remove_entry st l).2 !! n = if decide (n ∈ l.*1) then None else st.2 !! n).
Proof.
  induction l as [|e l [IH1 IH2]] using rev_ind; [done|]. rewrite foldl_snoc, !fmap_app.
  split; [intros h|intros n]; simpl.
  - destruct (decide (h = e.2)) as [->|Hne].
    + rewrite lookup_delete_eq, decide_True; [done|]. rewrite elem_of_app. right. by left.
    + rewrite lookup_delete_ne, IH1 by done. apply decide_ext.
      rewrite elem_of_app, list_elem_of_singleton. tauto.
  - destruct (decide (n = e.1)) as [->|Hne].
    + rewrite lookup_delete_eq, decide_True; [done|]. rewrite elem_of_app. right. by left.
    + rewrite lookup_delete_ne, IH2 by done. apply decide_ext.
      rewrite elem_of_app, list_elem_of_singleton. tauto.
Qed.

Lemma add_entries l st :
  NoDup l.*1 →
  (∀ h, (foldl add_entry st l).1 !! h = if decide (h ∈ l.*2) then Some (new h) else st.1 !! h) ∧
  (∀ n h, (n, h) ∈ l → (foldl add_entry st l).2 !! n = Some h) ∧
  (∀ n, n ∉ l.*1 → (foldl add_entry st l).2 !! n = st.2 !! n).
Proof.
  induction l as [|e l IH] using rev_ind; intros Hnd.
  { split_and!; [done|by intros ?? ?%not_elem_of_nil|done]. }
  rewrite fmap_app in Hnd. apply NoDup_app in Hnd as (Hnd & Hno & _).
  destruct (IH Hnd) as (IH1 & IH2 & IH3). rewrite foldl_snoc, !fmap_app.
  split_and!; [intros h|intros n h|intros n]; simpl.
  - destruct (decide (h = e.2)) as [->|Hne].
    + rewrite lookup_insert_eq, decide_True; [done|]. rewrite elem_of_app. right. by left.
    + rewrite lookup_insert_ne, IH1 by done. apply decide_ext.
      rewrite elem_of_app, list_elem_of_singleton. tauto.
  - rewrite elem_of_app, list_elem_of_singleton. intros [Hin| <-]; [|by rewrite lookup_insert_eq].
    assert (n ∈ l.*1) as Hn by (apply list_elem_of_fmap; by exists (n, h)).
    rewrite lookup_insert_ne; [auto|]. intros <-. apply (Hno _ Hn). by left.
  - rewrite not_elem_of_app, list_elem_of_singleton. intros [? ?].
    rewrite lookup_insert_ne by done. auto.
Qed.

(** The states after an update: the ones of the hosts asked for, the known ones
    unchanged. *)
Definition updated (hosts : list Host) m h : option S :=
  if decide (wanted hosts !! Hostname h = Some h) then Some (default (new h) (m !! h)) else None.

(** What the sorting of the hosts says of the two maps. *)
Definition sorted (hosts : list Host) m (toAdd toRemove : gmap string Host) : Prop :=
  (∀ n h, toAdd !! n = Some h ↔ wanted hosts !! n = Some h ∧ m !! h = None) ∧
  (∀ n h, toRemove !! n = Some h ↔ is_Some (m !! h) ∧ Hostname h = n ∧ wanted hosts !! n ≠ Some h).

Context `{HS : !Sched}.

Lemma sort_sorted hosts t m hm toAdd toRemove :
  indexed m hm →
  foldl sort_host (wanted hosts, ∅) (range_keys t m) = (toAdd, toRemove) →
  sorted hosts m toAdd toRemove.
Proof.
  intros Hi Hsort. destruct (sort_hosts_spec _ _ _ _ (λ h1 h2 H1 H2,
    indexed_unique m hm h1 h2 Hi (proj1 (elem_of_range_keys _ _ _) H1)
      (proj1 (elem_of_range_keys _ _ _) H2)) (NoDup_range_keys t m) Hsort) as [HA HR].
  setoid_rewrite elem_of_range_keys in HA. setoid_rewrite elem_of_range_keys in HR.
  setoid_rewrite <-eq_None_not_Some in HA. done.
Qed.

Lemma removed_known hosts m toAdd toRemove t e :
  sorted hosts m toAdd toRemove → e ∈ range t toRemove →
  Hostname e.2 = e.1 ∧ is_Some (m !! e.2).
Proof. destruct e as [n h]. intros [_ HR] (? & ? & _)%elem_of_range%HR. done. Qed.

Lemma removed_NoDup hosts m t toAdd toRemove :
  sorted hosts m toAdd toRemove → NoDup (range t toRemove).*2.
Proof.
  intros Hs. apply (NoDup_fmap_1 Hostname).
  replace (Hostname <$> (range t toRemove).*2) with (range_keys t toRemove);
    [apply NoDup_range_keys|].
  unfold range_keys. rewrite <-list_fmap_compose. apply list_fmap_ext.
  intros k e He%list_elem_of_lookup_2. symmetry. by eapply removed_known.
Qed.

Section Update.
Context (hosts : list Host) (m : gmap Host S) (hm toAdd toRemove : gmap string Host)
  (t2 t3 : tick) (Hi : indexed m hm) (Hs : sorted hosts m toAdd toRemove).
Let st := foldl add_entry (foldl remove_entry (m, hm) (range t2 toRemove)) (range t3 toAdd).

Lemma to_add h : h ∈ (range t3 toAdd).*2 ↔ wanted hosts !! Hostname h = Some h ∧ m !! h = None.
Proof.
  change ((range t3 toAdd).*2) with (range_values t3 toAdd).
  rewrite elem_of_range_values. setoid_rewrite (proj1 Hs). split; [|eauto].
  intros (n & Hw & Hn). by destruct (wanted_name _ _ _ Hw) as [-> _].
Qed.

Lemma to_remove h :
  h ∈ (range t2 toRemove).*2 ↔ is_Some (m !! h) ∧ wanted hosts !! Hostname h ≠ Some h.
Proof.
  change ((range t2 toRemove).*2) with (range_values t2 toRemove).
  rewrite elem_of_range_values. setoid_rewrite (proj2 Hs). split; [by intros (n & ? & <- & ?)|].
  intros [? ?]. by exists (Hostname h).
Qed.

Lemma update_lookup h : st.1 !! h = updated hosts m h.
Proof.
  unfold st. destruct (add_entries (range t3 toAdd)
    (foldl remove_entry (m, hm) (range t2 toRemove)) (NoDup_range_keys t3 toAdd)) as [-> _].
  destruct (remove_entries (range t2 toRemove) (m, hm)) as [-> _]. unfold updated. simpl.
  destruct (decide (h ∈ (range t3 toAdd).*2)) as [[Hw Hm]%to_add|Hna].
  { by rewrite decide_True, Hm by done. }
  rewrite to_add in Hna. destruct (decide (h ∈ (range t2 toRemove).*2)) as [[Hm Hw]%to_remove|Hnr].
  { by rewrite decide_False. }
  rewrite to_remove in Hnr. destruct (m !! h) as [s|] eqn:E; simpl in *.
  - rewrite decide_True; [done|]. destruct (decide (wanted hosts !! Hostname h = Some h)); [done|].
    by destruct Hnr.
  - rewrite decide_False; [done|]. intros ?. by apply Hna.
Qed.

(** An entry of the index that neither map has is kept. *)
Lemma update_kept n : toAdd !! n = None → toRemove !! n = None → st.2 !! n = hm !! n.
Proof.
  intros Ha Hr. unfold st. destruct (add_entries (range t3 toAdd)
    (foldl remove_entry (m, hm) (range t2 toRemove)) (NoDup_range_keys t3 toAdd)) as (_ & _ & ->).
  - destruct (remove_entries (range t2 toRemove) (m, hm)) as [_ ->]. simpl.
    rewrite decide_False; [done|]. change ((range t2 toRemove).*1) with (range_keys t2 toRemove).
    rewrite elem_of_range_keys, Hr. by intros [].
  - change ((range t3 toAdd).*1) with (range_keys t3 toAdd).
    rewrite elem_of_range_keys, Ha. by intros [].
Qed.

Lemma update_indexed : indexed st.1 st.2.
Proof.
  intros h. rewrite update_lookup. unfold updated. destruct (decide _) as [Hw|]; [|by intros []].
  intros _. destruct (m !! h) as [s|] eqn:E.
  - rewrite update_kept; [apply Hi; by rewrite E|..]; apply eq_None_not_Some.
    + intros [h' [Hw' Hm]%(proj1 Hs)]. rewrite Hw in Hw'. injection Hw' as <-. congruence.
    + intros [h' (Hh' & Hn & Hw')%(proj2 Hs)]. apply Hw'.
      by rewrite (indexed_unique m hm h' h Hi Hh' ltac:(by rewrite E) Hn).
  - destruct (add_entries (range t3 toAdd) (foldl remove_entry (m, hm) (range t2 toRemove))
      (NoDup_range_keys t3 toAdd)) as (_ & Ha & _). apply Ha, elem_of_range. by apply (proj1 Hs).
Qed.

Lemma update_other n :
  wanted hosts !! n = None → (∀ h, is_Some (m !! h) → Hostname h ≠ n) → st.2 !! n = hm !! n.
Proof.
  intros Hw Hno. apply update_kept; apply eq_None_not_Some.
  - intros [h [Hw' _]%(proj1 Hs)]. congruence.
  - intros [h (Hh & Hn & _)%(proj2 Hs)]. by apply (Hno h).
Qed.
End Update.

(** Removing some of the hosts leaves the others indexed. *)
Lemma remove_indexed l m hm :
  indexed m hm → (∀ e, e ∈ l → Hostname e.2 = e.1 ∧ is_Some (m !! e.2)) →
  indexed (foldl remove_entry (m, hm) l).1 (foldl remove_entry (m, hm) l).2.
Proof.
  intros Hi Hl h. destruct (remove_entries l (m, hm)) as [Hr1 Hr2]. rewrite Hr1, Hr2. simpl.
  destruct (decide (h ∈ l.*2)) as [|Hno]; [by intros []|]. intros Hm.
  rewrite decide_False; [auto|]. intros (e & Hn & He)%list_elem_of_fmap.
  destruct (Hl e He) as [Hn' Hm']. apply Hno, list_elem_of_fmap. exists e. split; [|done].
  apply (indexed_unique m hm); [done..|congruence].
Qed.

Lemma removed_partial hosts m hm toAdd toRemove t k :
  indexed m hm → sorted hosts m toAdd toRemove → k ⊆ range t toRemove →
  let st := foldl remove_entry (m, hm) k in
  indexed st.1 st.2 ∧
  (∀ n, wanted hosts !! n = None → (∀ h, is_Some (m !! h) → Hostname h ≠ n) → st.2 !! n = hm !! n) ∧
  (∀ h, st.1 !! h = m !! h ∨ (st.1 !! h = None ∧ wanted hosts !! Hostname h ≠ Some h)).
Proof.
  intros Hi Hs Hk st. destruct (remove_entries k (m, hm)) as [H1 H2].
  fold st in H1, H2. split_and!.
  - apply remove_indexed; [done|]. intros x Hx%Hk. by eapply removed_known.
  - intros n Hw Hno. rewrite H2, decide_False; [done|].
    intros (x & -> & Hx%Hk)%list_elem_of_fmap.
    destruct (removed_known _ _ _ _ _ _ Hs Hx) as [En Hm]. by apply (Hno x.2).
  - intros h. rewrite H1. destruct (decide (h ∈ k.*2)) as [(x & -> & Hx%Hk)%list_elem_of_fmap|];
      [right|by left].
    destruct x as [n x]. by apply elem_of_range, (proj2 Hs) in Hx as (? & <- & ?).
Qed.
End Index.

Lemma indexed_sub {S T} (m : gmap Host S) (m' : gmap Host T) hm hm' :
  (∀ h, is_Some (m' !! h) → is_Some (m !! h) ∧ hm' !! Hostname h = hm !! Hostname h) →
  indexed m hm → indexed m' hm'.
Proof. intros Hs Hi h [Hm ->]%Hs. by apply Hi. Qed.

Section Hosts.
Context {W : Type} `{HC : !Client W} `{HS : !Sched}.
Implicit Types i : infraClient W.

Definition set_router_hosts (st : gmap Host (RouterState W) * gmap string Host) i :=
  set_hostMap st.2 (set_routers st.1 i).
Definition set_broker_hosts (st : gmap Host (BrokerState W) * gmap string Host) i :=
  set_hostMap st.2 (set_brokers st.1 i).

Definition new_router i (h : Host) : RouterState W :=
  routerStateFactory i h 55671 (hostTlsConfig i h).
Definition new_broker i (h : Host) : BrokerState W :=
  brokerStateFactory i h 5671 (hostTlsConfig i h).

Lemma remove_routers_eq l i :
  NoDup l.*2 → (∀ e, e ∈ l → is_Some (routers i !! e.2)) →
  for_each remove_router l i =
    (set_router_hosts (foldl remove_entry (routers i, hostMap i) l) i, Ok ()).
Proof.
  revert i. induction l as [|e l IH]; intros i Hnd Hl; [by destruct i|].
  pose proof (NoDup_cons_1_1 _ _ Hnd) as He. apply NoDup_cons_1_2 in Hnd.
  destruct (Hl e) as [r Hr]; [by left|]. simpl. unfold mbind, prog_bind, remove_router at 1.
  rewrite Hr. cbv zeta iota. rewrite IH; [|done|].
  - by cbn; rewrite delete_insert_eq.
  - intros x Hx. cbn. rewrite lookup_delete_ne, lookup_insert_ne; [apply Hl; by right|..];
      intros E; apply He, list_elem_of_fmap; by exists x.
Qed.

Lemma add_routers_eq l i :
  for_each add_router l i =
    (set_router_hosts (foldl (add_entry (new_router i)) (routers i, hostMap i) l) i, Ok ()).
Proof.
  revert i. induction l as [|e l IH]; intros i; [by destruct i|].
  simpl. unfold mbind, prog_bind, add_router at 1. by rewrite IH.
Qed.

(** The routers after an update. *)
Lemma updateRouters_spec t hosts i :
  indexed (routers i) (hostMap i) →
  ∃ rs hm, updateRouters t hosts i = (set_hostMap hm (set_routers rs i), Ok ()) ∧
    (∀ h, rs !! h = updated (new_router i) hosts (routers i) h) ∧ indexed rs hm ∧
    (∀ n, wanted hosts !! n = None → (∀ h, is_Some (routers i !! h) → Hostname h ≠ n) →
       hm !! n = hostMap i !! n).
Proof.
  intros Hi. unfold updateRouters.
  destruct (foldl sort_host _ _) as [toAdd toRemove] eqn:E.
  pose proof (sort_sorted _ _ _ _ _ _ Hi E) as Hs.
  unfold mbind, prog_bind. rewrite remove_routers_eq.
  - rewrite add_routers_eq. cbn -[range]. rewrite <-surjective_pairing. eexists _, _.
    split; [reflexivity|].
    split_and!; [intros h; by apply update_lookup|by eapply update_indexed|].
    intros n. by eapply update_other.
  - apply (removed_NoDup hosts (routers i) _ toAdd). done.
  - intros e He. by eapply removed_known.
Qed.

(** The routers have run deletions, whatever their outcome. *)
Definition deletions (rs rs' : gmap Host (RouterState W)) : Prop :=
  (∀ h, is_Some (rs' !! h) ↔ is_Some (rs !! h)) ∧
  ∀ P : Host → RouterState W → Prop,
    (∀ t es h r, P h r → P h (DeleteEntities t es r).1) → map_Forall P rs → map_Forall P rs'.

Lemma deletions_refl rs : deletions rs rs.
Proof. by split. Qed.

Lemma deletions_trans rs1 rs2 rs3 : deletions rs1 rs2 → deletions rs2 rs3 → deletions rs1 rs3.
Proof. intros [H1 P1] [H2 P2]. split; [intros h; by rewrite H2|eauto]. Qed.

Lemma deletions_apply t (fn : nat → tick) es i :
  deletions (routers i) (routers (applyRouters t (λ n, DeleteEntities (fn n) es) i).1).
Proof.
  unfold applyRouters.
  pose proof (apply_hosts_dom t (λ n, DeleteEntities (fn n) es) (routers i)) as Hd.
  pose proof (λ P, apply_hosts_inv P t (λ n, DeleteEntities (fn n) es) (routers i)) as HP.
  destruct (apply_hosts _ _ _) as [m o]. split; [done|]. intros P Hdel. apply HP. auto.
Qed.

Lemma remove_broker_eq t toAdd flag e i b :
  brokers i !! e.2 = Some b →
  ∃ rs o, deletions (routers i) rs ∧ (flag = false → rs = routers i ∧ o = Ok ()) ∧
    remove_broker t toAdd flag e i =
      (match o with
       | Ok _ => set_broker_hosts (remove_entry (brokers i, hostMap i) e) (set_routers rs i)
       | _ => set_routers rs i
       end, o).
Proof.
  intros Hb. unfold remove_broker. rewrite Hb. cbv zeta. unfold mbind, prog_bind.
  destruct (negb _ && flag) eqn:E.
  - pose proof (deletions_apply (0 :: t) (λ n, n :: 1 :: t) [ENamed
      {| ne_EntityType := RouterConnectorEntity;
         ne_Name := connectorName (Hostname (b_host b)) (b_port b) |}] i) as Hd.
    unfold applyRouters in *. destruct (apply_hosts _ _ _) as [rs o]. cbn in Hd.
    exists rs, (match o with Ok _ => Ok () | Err e => Err e | Panic => Panic end).
    split; [done|]. split; [intros ->; by rewrite andb_false_r in E|].
    destruct o; cbn; [|done..]. unfold set_broker_hosts, modify. cbn. by rewrite delete_insert_eq.
  - exists (routers i), (Ok ()). split; [apply deletions_refl|]. split; [done|].
    unfold set_broker_hosts, modify, mret, prog_ret. cbn. by rewrite delete_insert_eq; destruct i.
Qed.

(** The removals up to the first that fails. *)
Lemma remove_brokers_eq toAdd flag (tk : nat → tick) l i :
  NoDup l.*2.*2 → (∀ e, e ∈ l → is_Some (brokers i !! e.2.2)) →
  ∃ rs k o, deletions (routers i) rs ∧ (flag = false → rs = routers i ∧ o = Ok ()) ∧
    (o = Ok () → k = l.*2) ∧ k ⊆ l.*2 ∧
    for_each (λ ne, remove_broker (tk ne.1) toAdd flag ne.2) l i =
      (set_broker_hosts (foldl remove_entry (brokers i, hostMap i) k) (set_routers rs i), o).
Proof.
  revert i. induction l as [|e l IH]; intros i Hnd Hl.
  { exists (routers i), [], (Ok ()). split_and!;
    [apply deletions_refl|done|done|apply list_subseteq_nil|by destruct i]. }
  simpl in Hnd. pose proof (NoDup_cons_1_1 _ _ Hnd) as He. apply NoDup_cons_1_2 in Hnd.
  destruct (Hl e) as [b Hb]; [by left|].
  destruct (remove_broker_eq (tk e.1) toAdd flag e.2 i b Hb) as (rs & o & Hd & Hf & E).
  cbn [for_each fmap list_fmap]. unfold mbind at 1, prog_bind. rewrite E. destruct o as [[]|err|]; [|
    exists rs, [], (Err err)|exists rs, [], Panic]; [|by (split_and!;
      [done|intros H; by destruct (Hf H)|done|apply list_subseteq_nil|destruct i])..].
  destruct (IH (set_broker_hosts (remove_entry (brokers i, hostMap i) e.2) (set_routers rs i)))
    as (rs' & k & o' & Hd' & Hf' & Hk & Hsub & E'); [exact Hnd| |].
  2: { exists rs', (e.2 :: k), o'. cbn in Hd', Hf'. split_and!.
    - by eapply deletions_trans.
    - intros H. destruct (Hf H) as [-> _]. auto.
    - by intros ->%Hk.
    - by apply list_subseteq_skip.
    - rewrite E'. done. }
  intros x Hx. cbn. rewrite lookup_delete_ne; [apply Hl; by right|].
  intros Eh. apply He. rewrite Eh. apply list_elem_of_fmap_2. by apply list_elem_of_fmap_2.
Qed.

Lemma add_brokers_eq l i :
  for_each add_broker l i =
    (set_broker_hosts (foldl (add_entry (new_broker i)) (brokers i, hostMap i) l) i, Ok ()).
Proof.
  revert i. induction l as [|e l IH]; intros i; [by destruct i|].
  simpl. unfold mbind, prog_bind, add_broker at 1. by rewrite IH.
Qed.

(** The brokers after an update: on success the ones asked for; on failure some of
    the ones to remove are still there and none was added. *)
Lemma updateBrokers_spec t hosts flag i :
  indexed (brokers i) (hostMap i) →
  ∃ rs bs hm o, updateBrokers t hosts flag i = (set_broker_hosts (bs, hm) (set_routers rs i), o) ∧
    deletions (routers i) rs ∧ (flag = false → rs = routers i ∧ o = Ok ()) ∧ indexed bs hm ∧
    (∀ n, wanted hosts !! n = None → (∀ h, is_Some (brokers i !! h) → Hostname h ≠ n) →
       hm !! n = hostMap i !! n) ∧
    (if decide (o = Ok ())
     then ∀ h, bs !! h = updated (new_broker i) hosts (brokers i) h
     else ∀ h, (bs !! h = brokers i !! h) ∨ (bs !! h = None ∧ wanted hosts !! Hostname h ≠ Some h)).
Proof.
  intros Hi. unfold updateBrokers.
  destruct (foldl sort_host _ _) as [toAdd toRemove] eqn:E.
  pose proof (sort_sorted _ _ _ _ _ _ Hi E) as Hs.
  set (l := imap (λ n e, (n, e)) (range (1 :: t) toRemove)).
  assert (l.*2 = range (1 :: t) toRemove) as Hl.
  { unfold l. rewrite fmap_imap, (imap_const (λ h, h)). apply list_fmap_id. }
  destruct (remove_brokers_eq toAdd flag (λ n, n :: 3 :: t) l i)
    as (rs & k & o & Hd & Hf & Hk & Hsub & Hrun).
  { rewrite Hl. by apply (removed_NoDup hosts (brokers i) _ toAdd). }
  { intros e He. eapply removed_known; [exact Hs|]. rewrite <-Hl. by apply list_elem_of_fmap_2. }
  unfold mbind, prog_bind. rewrite Hrun. rewrite Hl in Hk, Hsub. destruct o as [[]|e|].
  1: { rewrite Hk by done. rewrite add_brokers_eq. cbn -[range].
    rewrite <-surjective_pairing. eexists rs, _, _, (Ok ()). split; [reflexivity|].
    split_and!; [done|done|by eapply update_indexed|intros n; by eapply update_other|].
    rewrite decide_True by done. intros h. by apply update_lookup. }
  all: destruct (removed_partial (new_broker i) _ _ _ _ _ _ _ Hi Hs Hsub) as (H1 & H2 & H3);
    eexists rs, _, _, _; (split; [by rewrite (surjective_pairing (foldl _ _ k))|]);
    rewrite decide_False by done; by split_and!.
Qed.
End Hosts.

(** ** The invariant of the hosts *)

Section HostsInv.
Context {W : Type} `{HC : !Client W} `{HS : !Sched}.
Implicit Types i : infraClient W.

(** Routers and brokers never share a host name; [isRouter] tells them apart. *)
Context (isRouter : string → bool).

Record hosts_ok i : Prop := {
  ho_routers : map_Forall (λ h r, host r = h ∧ wf r ∧ isRouter (Hostname h) = true) (routers i);
  ho_brokers : map_Forall (λ h b, b_host b = h ∧ b_wf b ∧ isRouter (Hostname h) = false) (brokers i);
  ho_rindex : indexed (routers i) (hostMap i);
  ho_bindex : indexed (brokers i) (hostMap i);
  ho_rfactory : ∀ h p tls, host (routerStateFactory i h p tls) = h ∧ wf (routerStateFactory i h p tls);
  ho_bfactory : ∀ h p tls,
    b_host (brokerStateFactory i h p tls) = h ∧ b_wf (brokerStateFactory i h p tls);
}.

Lemma NewInfra_hosts_ok h now : hosts_ok (NewInfra NewRouterState NewBrokerState h now).
Proof.
  split; cbn.
  - by intros ?? ?%lookup_empty_Some.
  - by intros ?? ?%lookup_empty_Some.
  - intros ?. rewrite lookup_empty. by intros [].
  - intros ?. rewrite lookup_empty. by intros [].
  - intros. split; [done|apply New_wf].
  - intros. split; [done|apply bNew_wf].
Qed.

(** Only the states of the hosts matter. *)
Lemma hosts_ok_frame i i' :
  routers i' = routers i → brokers i' = brokers i → hostMap i' = hostMap i →
  routerStateFactory i' = routerStateFactory i → brokerStateFactory i' = brokerStateFactory i →
  hosts_ok i → hosts_ok i'.
Proof. intros Hr Hb Hh Hrf Hbf []. split; by rewrite ?Hr, ?Hb, ?Hh, ?Hrf, ?Hbf. Qed.

Lemma wanted_hosts (P : string → Prop) hosts n :
  (∀ h, h ∈ hosts → P (Hostname h)) → ¬ P n → wanted hosts !! n = None.
Proof.
  intros HP Hn. destruct (wanted hosts !! n) as [h|] eqn:E; [|done].
  apply wanted_name in E as [<- Hin]. by destruct Hn; apply HP.
Qed.

Lemma set_routers_ok rs i :
  hosts_ok i → (∀ h, is_Some (rs !! h) → is_Some (routers i !! h)) →
  map_Forall (λ h r, host r = h ∧ wf r ∧ isRouter (Hostname h) = true) rs →
  hosts_ok (set_routers rs i).
Proof.
  intros [] Hdom Hrs. split; cbn; try done. intros h Hh. apply ho_rindex0. auto.
Qed.

Lemma set_brokers_ok bs i :
  hosts_ok i → (∀ h, is_Some (bs !! h) → is_Some (brokers i !! h)) →
  map_Forall (λ h b, b_host b = h ∧ b_wf b ∧ isRouter (Hostname h) = false) bs →
  hosts_ok (set_brokers bs i).
Proof.
  intros [] Hdom Hbs. split; cbn; try done. intros h Hh. apply ho_bindex0. auto.
Qed.

Lemma updateRouters_ok t hosts i :
  hosts_ok i → (∀ h, h ∈ hosts → isRouter (Hostname h) = true) →
  hosts_ok (updateRouters t hosts i).1.
Proof.
  intros Hi Hh. destruct (updateRouters_spec t hosts i (ho_rindex _ Hi))
    as (rs & hm & -> & Hrs & Hix & Hkeep). destruct Hi as [Hr Hb Hri Hbi Hrf Hbf].
  split; cbn; try done.
  - intros h r. rewrite Hrs. unfold updated. destruct (decide _) as [Hw|]; [|done].
    apply wanted_name in Hw as [_ Hin%Hh]. intros [= <-].
    destruct (routers i !! h) as [r|] eqn:E; simpl; [by apply Hr|].
    unfold new_router. destruct (Hrf h 55671%Z (hostTlsConfig i h)). auto.
  - intros h [b Hb']. destruct (Hb h b Hb') as (_ & _ & Hf). rewrite Hkeep; [by apply Hbi|..].
    + apply (wanted_hosts (λ n, isRouter n = true)); [done|]. by rewrite Hf.
    + intros h' [r Hr'] E. destruct (Hr h' r Hr') as (_ & _ & Ht). congruence.
Qed.

Lemma deletions_hosts rs i : hosts_ok i → deletions (routers i) rs → hosts_ok (set_routers rs i).
Proof.
  intros Hi [Hd HP]. apply set_routers_ok; [done|intros h; by rewrite Hd|].
  apply HP; [|apply Hi]. intros t es h r (Hh & Hw & Hn). split_and!; [|by apply Delete_wf|done].
  pose proof (Delete_address t es r) as E. unfold address_of in E. congruence.
Qed.

Lemma updateBrokers_ok t hosts flag i :
  hosts_ok i → (∀ h, h ∈ hosts → isRouter (Hostname h) = false) →
  hosts_ok (updateBrokers t hosts flag i).1.
Proof.
  intros Hi Hh. destruct (updateBrokers_spec t hosts flag i (ho_bindex _ Hi))
    as (rs & bs & hm & o & -> & Hd & _ & Hix & Hkeep & Hbs).
  pose proof (deletions_hosts rs i Hi Hd) as [Hr Hb Hri Hbi Hrf Hbf]. cbn in *.
  split; cbn; try done.
  - intros h b Eb. destruct (decide (o = Ok ())).
    + rewrite Hbs in Eb. unfold updated in Eb. destruct (decide _) as [Hw|]; [|done].
      apply wanted_name in Hw as [_ Hin%Hh]. injection Eb as <-.
      destruct (brokers i !! h) as [b|] eqn:E; simpl; [by apply Hb|].
      unfold new_broker. destruct (Hbf h 5671%Z (hostTlsConfig i h)). auto.
    + destruct (Hbs h) as [E|[E _]]; rewrite E in Eb; [by apply Hb|done].
  - intros h [r Hr']. destruct (Hr h r Hr') as (_ & _ & Ht). rewrite Hkeep; [by apply Hri|..].
    + apply (wanted_hosts (λ n, isRouter n = false)); [done|]. by rewrite Ht.
    + intros h' [b Hb'] E. destruct (Hb h' b Hb') as (_ & _ & Hf). congruence.
Qed.

(** A call on all routers, or on all brokers, that keeps each of them. *)
Lemma applyRouters_ok {B} t (fn : nat → prog (RouterState W) B) i :
  (∀ n r, wf r → wf (fn n r).1 ∧ host (fn n r).1 = host r) →
  hosts_ok i → hosts_ok (applyRouters t fn i).1.
Proof.
  intros Hfn Hi. unfold applyRouters.
  pose proof (apply_hosts_inv _ t fn (routers i) (λ n h r H, conj
    (eq_trans (proj2 (Hfn n r (proj1 (proj2 H)))) (proj1 H))
    (conj (proj1 (Hfn n r (proj1 (proj2 H)))) (proj2 (proj2 H)))) (ho_routers _ Hi)) as HP.
  pose proof (apply_hosts_dom t fn (routers i)) as Hd.
  destruct (apply_hosts t fn (routers i)). apply set_routers_ok; [done|intros; by apply Hd|done].
Qed.

Lemma applyBrokers_ok {B} t (fn : nat → prog (BrokerState W) B) i :
  (∀ n b, b_wf b → b_wf (fn n b).1 ∧ b_host (fn n b).1 = b_host b) →
  hosts_ok i → hosts_ok (applyBrokers t fn i).1.
Proof.
  intros Hfn Hi. unfold applyBrokers.
  pose proof (apply_hosts_inv _ t fn (brokers i) (λ n h r H, conj
    (eq_trans (proj2 (Hfn n r (proj1 (proj2 H)))) (proj1 H))
    (conj (proj1 (Hfn n r (proj1 (proj2 H)))) (proj2 (proj2 H)))) (ho_brokers _ Hi)) as HP.
  pose proof (apply_hosts_dom t fn (brokers i)) as Hd.
  destruct (apply_hosts t fn (brokers i)). apply set_brokers_ok; [done|intros; by apply Hd|done].
Qed.

(** ** Brokers in use *)

Definition broker_used (host : string) i : bool :=
  existsb (λ l, project_uses host (project_at (heap i) l)) ((map_to_list (projects i)).*2) ||
  existsb (λ l, address_uses host (address_at (heap i) l)) ((map_to_list (addresses i)).*2).

Lemma existsb_range {A} (f : A → bool) `{Countable K} t (m : gmap K A) :
  existsb f (range_values t m) = existsb f ((map_to_list m).*2).
Proof.
  apply eq_true_iff_eq. rewrite !existsb_exists. unfold range_values, range.
  setoid_rewrite <-list_elem_of_In. by setoid_rewrite (perm_ok t (map_to_list m)).
Qed.

(** Every branch of [DeleteBroker]: an unknown host is none of its business, a
    broker in use stays, any other broker goes and nothing else changes. *)
Lemma DeleteBroker_spec t name i :
  hosts_ok i →
  ((∀ h, is_Some (brokers i !! h) → Hostname h ≠ name) → DeleteBroker t name i = (i, Ok ())) ∧
  ((∃ h, is_Some (brokers i !! h) ∧ Hostname h = name) → broker_used name i = true →
     DeleteBroker t name i = (i, Err BrokerInUseError)) ∧
  ((∃ h, is_Some (brokers i !! h) ∧ Hostname h = name) → broker_used name i = false →
     ∃ bs hm, DeleteBroker t name i = (set_hostMap hm (set_brokers bs i), Ok ()) ∧
       ∀ h, bs !! h = if decide (Hostname h = name) then None else brokers i !! h).
Proof.
  intros Hi. unfold DeleteBroker. rewrite !existsb_range. unfold broker_used. cbv zeta.
  set (known := existsb _ ((map_to_list (brokers i)).*2)).
  assert (known = true ↔ ∃ h, is_Some (brokers i !! h) ∧ Hostname h = name) as Hknown.
  { unfold known. rewrite <-(existsb_range _ (0 :: t)), existsb_exists.
    setoid_rewrite <-list_elem_of_In. setoid_rewrite elem_of_range_values.
    setoid_rewrite bool_decide_eq_true. split.
    - intros (b & [h Hb] & Hn). exists h. destruct (ho_brokers _ Hi _ _ Hb) as [<- _]. eauto.
    - intros (h & [b Hb] & Hn). exists b. destruct (ho_brokers _ Hi _ _ Hb) as [-> _]. eauto. }
  split_and!.
  - intros Hno. assert (known = false) as ->; [|done]. apply not_true_is_false.
    rewrite Hknown. intros (h & Hh & Hn). by apply (Hno h).
  - intros ->%Hknown Hu. cbn [negb].
    destruct (existsb _ ((map_to_list (projects i)).*2)); [done|]. cbn in Hu. by rewrite Hu.
  - intros ->%Hknown [-> ->]%orb_false_elim. simpl.
    set (hosts := b_host <$> _).
    destruct (updateBrokers_spec (3 :: t) hosts false i (ho_bindex _ Hi))
      as (rs & bs & hm & o & -> & _ & Hf & _ & _ & Hbs). destruct (Hf eq_refl) as [-> ->].
    exists bs, hm. split; [by destruct i|]. rewrite decide_True in Hbs by done.
    assert (∀ h, h ∈ hosts ↔ is_Some (brokers i !! h) ∧ Hostname h ≠ name) as Hin.
    { intros h. unfold hosts. rewrite list_elem_of_fmap. setoid_rewrite list_elem_of_filter.
      setoid_rewrite elem_of_range_values. split.
      - intros (b & -> & Hn & [h' Hb]). destruct (ho_brokers _ Hi _ _ Hb) as [E _].
        rewrite E in *. eauto.
      - intros [[b Hb] Hn]. exists b. destruct (ho_brokers _ Hi _ _ Hb) as [E _]. rewrite E. eauto. }
    intros h. rewrite Hbs. unfold updated. destruct (decide (Hostname h = name)) as [Hn|Hn].
    + rewrite decide_False; [done|]. by intros [_ [_ ?]%Hin]%wanted_name.
    + destruct (brokers i !! h) as [b|] eqn:E.
      * rewrite decide_True; [done|]. apply wanted_unique; [|apply Hin; rewrite E; eauto].
        intros h' [Hh' _]%Hin En. eapply (indexed_unique (brokers i)); [apply Hi|done| |done].
        by rewrite E.
      * rewrite decide_False; [done|]. intros [_ [[? ?] _]%Hin]%wanted_name. congruence.
Qed.
End HostsInv.
