(* ===== verification/EntityFacts.v ===== *)
(** What the entities built for endpoints and addresses are good for: they are
    built whenever the placement of the address is known, they stay within the
    project, and a listener comes with the TLS profile it names. The allocation of ports to
    the protocols of an endpoint. *)
From stdpp Require Import base functions fin_maps gmap strings list.
From S2P Require Import Prelude Go Client RouterTypes Router RouterFacts ApiV1 BrokerTypes Broker BrokerFacts Names Ports.
From S2P Require Import Scheduler Infra Entities HostFacts InfraFacts.

(** ** Endpoints *)

Lemma endpoint_entities_elem e es x :
  buildRouterEndpointEntities e = Ok es →
  (x ∈ es ↔ ∃ p, p ∈ InternalPorts e ∧ x ∈ port_entities e p).
Proof.
  intros [= <-]. rewrite list_elem_of_In, in_concat. setoid_rewrite <-list_elem_of_In.
  setoid_rewrite list_elem_of_fmap. split; [intros (l & (p & -> & ?) & ?); eauto|].
  intros (p & ? & ?). eauto.
Qed.

(** Every port of the endpoint has its listener. *)
Lemma endpoint_listener e es p :
  buildRouterEndpointEntities e = Ok es → p ∈ InternalPorts e →
  EListener (port_listener (port_sslProfile e p) p) ∈ es.
Proof.
  intros He Hp. apply (endpoint_entities_elem e es _ He). exists p. split; [done|].
  unfold port_entities. destruct (port_sslProfile e p); [right|]; by left.
Qed.

(** A listener's TLS profile is created with it, and in an earlier round. *)
Lemma endpoint_profile e es l :
  buildRouterEndpointEntities e = Ok es → EListener l ∈ es → rl_SslProfile l ≠ "" →
  ∃ s, ESslProfile s ∈ es ∧ sp_Name s = rl_SslProfile l ∧ Order (ESslProfile s) < Order (EListener l).
Proof.
  intros He. pose proof (endpoint_entities_elem e es) as Hes. rewrite !Hes by done.
  intros (p & Hp & Hx) Hn. unfold port_entities in Hx.
  destruct (port_sslProfile e p) as [s|] eqn:Es.
  - exists s. rewrite Hes by done. rewrite !elem_of_cons in Hx.
    destruct Hx as [?|[[= ->]|?%not_elem_of_nil]]; try done. split_and!; [|done|unfold Order; lia].
    exists p. split; [done|]. unfold port_entities. rewrite Es. by left.
  - apply list_elem_of_singleton in Hx as [= ->]. done.
Qed.

(** Which listeners have TLS: those of AMQPS, and of secure websockets unless the
    ingress terminates TLS; websockets never require it (DISPATCH-1040). *)
Lemma listener_tls e p :
  let l := port_listener (port_sslProfile e p) p in
  (rl_SslProfile l ≠ "" ↔ p_Protocol p = MessagingProtocolAMQPS ∨
     (p_Protocol p = MessagingProtocolAMQPWSS ∧ IsEdgeTerminated e = false)) ∧
  (rl_RequireSsl l = true ↔ p_Protocol p = MessagingProtocolAMQPS) ∧
  (rl_Http l = true ↔ p_Protocol p = MessagingProtocolAMQPWS ∨
     p_Protocol p = MessagingProtocolAMQPWSS).
Proof.
  unfold port_listener, port_sslProfile, is_websocket, MessagingProtocolAMQPS,
    MessagingProtocolAMQPWS, MessagingProtocolAMQPWSS. cbv zeta. cbn [rl_SslProfile rl_RequireSsl rl_Http].
  destruct (decide (p_Protocol p = "AMQPS")) as [E1|E1];
    [rewrite E1; cbn; split_and!; split; try done; intuition congruence|].
  rewrite (bool_decide_eq_false_2 _ E1). cbn [orb].
  destruct (decide (p_Protocol p = "AMQP-WSS")) as [E2|E2].
  - rewrite E2. destruct (IsEdgeTerminated e); cbn; split_and!; split; try done; intuition congruence.
  - rewrite (bool_decide_eq_false_2 _ E2). cbn. rewrite orb_false_r, bool_decide_eq_true.
    split_and!; split; try done; intuition congruence.
Qed.

(** ** Addresses *)

Section Addresses.
Context {W : Type} `{HC : !Client W} `{HS : !Sched}.
Implicit Types i : infraClient W.

(** The brokers an address is placed on are known. *)
Definition placed i (a : MessagingAddress) : Prop :=
  ∀ b, b ∈ as_Brokers (a_Status a) → is_Some (find_broker i (ab_Host b)).

Lemma find_broker_known isRouter i h b :
  hosts_ok isRouter i → brokers i !! h = Some b → find_broker i (Hostname h) = Some b.
Proof.
  intros Hi Hb. unfold find_broker, host_of.
  by rewrite (ho_bindex _ _ Hi h) by by rewrite Hb.
Qed.

Lemma on_brokers_ok i what pid a f :
  placed i a →
  ∃ es, on_brokers i what pid a f = Ok es ∧
    ∀ x, x ∈ es ↔ ∃ mb b, mb ∈ as_Brokers (a_Status a) ∧
      find_broker i (ab_Host mb) = Some b ∧ x ∈ f mb b.
Proof.
  unfold placed, on_brokers. induction (as_Brokers (a_Status a)) as [|mb bs IH]; intros Hp.
  - exists []. split; [done|]. intros x. split; [by intros ?%not_elem_of_nil|].
    by intros (? & ? & ?%not_elem_of_nil & _).
  - destruct (Hp mb) as [b Hb]; [by left|]. destruct IH as (es & He & Hes).
    { intros x Hx. apply Hp. by right. }
    apply outcome_bind_Ok in He as (ls & Hls & [= <-]). exists (f mb b ++ concat ls).
    cbn. rewrite Hb. go_simpl. rewrite Hls. split; [done|]. intros x.
    rewrite elem_of_app, Hes. setoid_rewrite elem_of_cons. split.
    + intros [?|(mb' & b' & ? & ? & ?)]; eauto 8.
    + intros (mb' & b' & [->|?] & ? & ?); [left; by simplify_eq|eauto 8].
Qed.

Lemma on_brokers_err i what pid a f mb :
  mb ∈ as_Brokers (a_Status a) → find_broker i (ab_Host mb) = None →
  ∃ e, on_brokers i what pid a f = Err e.
Proof.
  unfold on_brokers. induction (as_Brokers (a_Status a)) as [|mb' bs IH];
    [by intros ?%not_elem_of_nil|]. rewrite elem_of_cons. intros Hin Hn. cbn. go_simpl.
  destruct (find_broker i (ab_Host mb')) as [b|] eqn:Eb; [|eauto].
  destruct Hin as [<-|Hin]; [congruence|]. destruct (IH Hin Hn) as [e He].
  destruct (map_outcome _ bs); eauto; done.
Qed.

(** Everything configured for an address is within the project: the address is
    qualified by it, and links go to connectors of known brokers. *)
Definition confined i (pid : string) (a : MessagingAddress) (e : RouterEntity) : Prop :=
  let full := qualifiedAddress pid (GetAddress a) in
  let known c := ∃ b, (∃ h, brokers i !! h = Some b) ∧ c = connector_of b in
  match e with
  | EAddress ra => ra_Prefix ra = full ∧ ra_Name ra = addressName pid a
  | EAutoLink l => al_Address l = full ∧ known (al_Connection l)
  | ELinkRoute l => (lr_Prefix l = full ∨ lr_Prefix l = pid) ∧ known (lr_Connection l)
  | _ => False
  end.

Lemma find_broker_some i n b : find_broker i n = Some b → ∃ h, brokers i !! h = Some b.
Proof. unfold find_broker. eauto. Qed.

(** The kinds whose messages live on brokers the scheduler chose. *)
Definition scheduled_kind (a : MessagingAddress) : bool :=
  let s := a_Spec a in
  match Anycast s, Multicast s, Queue s, DeadLetter s, Topic s, Subscription s with
  | Some _, _, _, _, _, _ | None, Some _, _, _, _, _ => false
  | None, None, Some _, _, _, _ => true
  | None, None, None, Some _, _, _ => false
  | None, None, None, None, Some _, _ | None, None, None, None, None, Some _ => true
  | None, None, None, None, None, None => false
  end.

Lemma router_address_entities_ok t i pid a :
  placed i a →
  ∃ es, router_address_entities t i pid a = Ok es ∧ ∀ e, e ∈ es → confined i pid a e.
Proof.
  intros Hp. unfold router_address_entities. cbv zeta.
  assert (∀ what f d, (∀ mb b x, find_broker i (ab_Host mb) = Some b → x ∈ f mb b → confined i pid a x) →
    ∃ es, (links ← on_brokers i what pid a f; mret (mk_address (addressName pid a)
      (qualifiedAddress pid (GetAddress a)) d true :: links)) = Ok es ∧
      ∀ e, e ∈ es → confined i pid a e) as Hloop.
  { intros what f d Hf. destruct (on_brokers_ok i what pid a f Hp) as (es & -> & Hes).
    eexists. split; [done|]. intros e. rewrite elem_of_cons.
    intros [->|(mb & b & _ & ? & ?)%Hes]; [done|eauto]. }
  repeat case_match; try (eexists; split; [done|]; intros e ->%list_elem_of_singleton; done).
  - apply Hloop. intros mb b x Hb%find_broker_some. rewrite !elem_of_cons.
    intros [->|[->|?%not_elem_of_nil]]; [split; eauto..|done].
  - eexists. split; [done|]. intros e. rewrite elem_of_cons, list_elem_of_fmap.
    intros [->|(b & -> & Hb%elem_of_range_values)]; [done|split; eauto].
  - apply Hloop. intros mb b x Hb%find_broker_some. rewrite !elem_of_cons.
    intros [->|[->|?%not_elem_of_nil]]; [split; eauto..|done].
  - apply Hloop. intros mb b x Hb%find_broker_some ->%list_elem_of_singleton. split; eauto.
  - eexists. split; [done|]. by intros e ?%not_elem_of_nil.
Qed.

(** Building succeeds when the project exists and the placement is known. *)
Lemma buildRouterAddress_ok t i e a p :
  isEndpointActive e = true → project_of i (Namespace (a_meta a)) = Some p →
  match ps_Broker (p_Status p) with
  | Some b => is_Some (find_broker i (ab_Host b))
  | None => placed i a
  end →
  ∃ es, buildRouterAddressEntities t i e a = Ok es ∧
    ∀ x, x ∈ es → confined i (es_StatusHost (e_Status e)) a x.
Proof.
  intros He Hp Hb. unfold buildRouterAddressEntities. rewrite He, Hp. cbn [negb].
  destruct (ps_Broker (p_Status p)) as [mb|]; [|by apply router_address_entities_ok].
  unfold global_linkRoutes. destruct Hb as [b Hb]. unfold find_broker in Hb. rewrite Hb.
  eexists. split; [done|]. intros x. rewrite !elem_of_cons.
  intros [->|[->|?%not_elem_of_nil]]; [split; eauto..|done].
Qed.

(** Whatever is built for an address is confined to its project. *)
Lemma on_brokers_elem i what pid a (f : MessagingAddressBroker → BrokerState W → list RouterEntity)
    es e :
  on_brokers i what pid a f = Ok es → e ∈ es →
  ∃ mb b, find_broker i (ab_Host mb) = Some b ∧ e ∈ f mb b.
Proof.
  unfold on_brokers. intros (ls & Hls & [= <-])%outcome_bind_Ok He.
  rewrite list_elem_of_In, in_concat in He. destruct He as (l & Hl%list_elem_of_In & He%list_elem_of_In).
  destruct (map_outcome_elem _ _ _ _ Hls Hl) as (mb & _ & Hmb).
  destruct (find_broker i (ab_Host mb)) as [b|] eqn:Eb; [|done]. injection Hmb as <-. eauto.
Qed.

Lemma on_brokers_confined i what pid a f d es e :
  (∀ mb b x, (∃ h, brokers i !! h = Some b) → x ∈ f mb b → confined i pid a x) → confined i pid a d →
  (links ← on_brokers i what pid a f; mret (d :: links)) = Ok es → e ∈ es → confined i pid a e.
Proof.
  intros Hf Hd (links & Hl & [= <-])%outcome_bind_Ok. rewrite elem_of_cons.
  intros [->|He]; [done|].
  destruct (on_brokers_elem _ _ _ _ _ _ _ Hl He) as (mb & b & Hb%find_broker_some & Hx). eauto.
Qed.

Lemma buildRouterAddress_confined t i e a es x :
  buildRouterAddressEntities t i e a = Ok es → x ∈ es → confined i (es_StatusHost (e_Status e)) a x.
Proof.
  unfold buildRouterAddressEntities. destruct (isEndpointActive e); cbn [negb]; [|done].
  destruct (project_of i _) as [p|]; [|done]. destruct (ps_Broker (p_Status p)) as [mb|].
  { unfold global_linkRoutes. destruct (brokers i !! _) eqn:Eb; [|done]. intros [= <-].
    rewrite !elem_of_cons. intros [->|[->|?%not_elem_of_nil]]; [split; eauto..|done]. }
  unfold router_address_entities. cbv zeta.
  repeat case_match; try (by intros [= <-] ->%list_elem_of_singleton);
    try (apply on_brokers_confined; [|done]; intros mb b y Hb; rewrite ?elem_of_cons;
         intros; destruct_or?; subst; [split; eauto..|by exfalso; eapply not_elem_of_nil]).
  - intros [= <-]. rewrite elem_of_cons, list_elem_of_fmap.
    intros [->|(b & -> & Hb%elem_of_range_values)]; [done|split; eauto].
  - intros [= <-] ?%not_elem_of_nil. done.
Qed.

(** Without its project, or on an unknown broker, nothing is built. *)
Lemma buildRouterAddress_no_project t i e a :
  isEndpointActive e = true → project_of i (Namespace (a_meta a)) = None →
  buildRouterAddressEntities t i e a = Panic.
Proof. intros He Hp. unfold buildRouterAddressEntities. by rewrite He, Hp. Qed.

Lemma buildRouterAddress_unknown t i e a p mb :
  isEndpointActive e = true → project_of i (Namespace (a_meta a)) = Some p →
  ps_Broker (p_Status p) = None → scheduled_kind a = true →
  mb ∈ as_Brokers (a_Status a) → find_broker i (ab_Host mb) = None →
  ∃ err, buildRouterAddressEntities t i e a = Err err.
Proof.
  intros He Hp Hb Hk Hin Hn. unfold buildRouterAddressEntities. rewrite He, Hp, Hb. cbn [negb].
  unfold router_address_entities, scheduled_kind in *. cbv zeta.
  repeat case_match; try done;
    match goal with |- context [on_brokers i ?w ?pid a ?f] =>
      destruct (on_brokers_err i w pid a f mb Hin Hn) as [err ->] end; by exists err.
Qed.

(** No branch but the missing project panics. *)
Lemma buildRouterAddress_panic t i e a :
  buildRouterAddressEntities t i e a = Panic →
  isEndpointActive e = true ∧ project_of i (Namespace (a_meta a)) = None.
Proof.
  assert (∀ what pid f, on_brokers i what pid a f ≠ Panic) as Hon.
  { intros what pid f. unfold on_brokers. induction (as_Brokers _) as [|mb bs IH]; [done|].
    cbn. go_simpl. destruct (find_broker _ _); [|done]. by destruct (map_outcome _ bs). }
  unfold buildRouterAddressEntities. destruct (isEndpointActive e); [|done]. cbn [negb].
  destruct (project_of i _) as [p|]; [|done]. intros Hpan. exfalso. revert Hpan.
  destruct (ps_Broker (p_Status p)) as [mb|].
  { unfold global_linkRoutes. by case_match. }
  unfold router_address_entities. cbv zeta. repeat case_match; try done;
    match goal with |- context [on_brokers i ?w ?pid a ?f] => specialize (Hon w pid f) end;
    by destruct (on_brokers _ _ _ _ _).
Qed.
End Addresses.

(** The address a router entity of an address is about. *)
Definition router_target (e : RouterEntity) : option string :=
  match e with
  | EAddress a => Some (ra_Prefix a)
  | EAutoLink l => Some (al_Address l)
  | ELinkRoute l => Some (lr_Prefix l)
  | _ => None
  end.

Lemma lacks_app c s1 s2 : lacks c (s1 +:+ s2) = lacks c s1 && lacks c s2.
Proof. induction s1 as [|x s1 IH]; simpl; [done|]. by rewrite IH, andb_assoc. Qed.

(** Two projects whose identifiers have no slash never configure the same address. *)
Lemma confined_apart {W} (i1 i2 : infraClient W) pid1 pid2 a1 a2 x1 x2 :
  lacks slash pid1 = true → lacks slash pid2 = true → pid1 ≠ pid2 →
  confined i1 pid1 a1 x1 → confined i2 pid2 a2 x2 → router_target x1 ≠ router_target x2.
Proof.
  intros H1 H2 Hne Hc1 Hc2.
  assert (∀ i pid a x, @confined W i pid a x →
    router_target x = Some pid ∨ router_target x = Some (qualifiedAddress pid (GetAddress a))) as Ht.
  { intros i pid a []; simpl; try done; intros Hc; destruct_and?; destruct_or?;
      ((left; congruence) || (right; congruence)). }
  assert (∀ pid a, lacks slash (qualifiedAddress pid a) = false) as Hs.
  { intros pid a. unfold qualifiedAddress. rewrite !lacks_app. by rewrite andb_false_r. }
  destruct (Ht _ _ _ _ Hc1) as [-> | ->], (Ht _ _ _ _ Hc2) as [-> | ->]; intros [= He].
  - done.
  - rewrite He, Hs in H1. done.
  - rewrite <-He, Hs in H2. done.
  - apply qualifiedAddress_inj in He as [? _]; done.
Qed.

Section BrokerEntities.
Context {W : Type} `{HC : !Client W} `{HS : !Sched}.
Implicit Types i : infraClient W.

(** The broker entities of an address carry its qualified name. *)
Definition b_confined (pid : string) (a : MessagingAddress) (e : BrokerEntity) : Prop :=
  bGetName e = qualifiedAddress pid (GetAddress a).

(** A map of entities for known brokers, all satisfying [P]. *)
Definition b_targets i (P : BrokerEntity → Prop) (m : gmap Host (list BrokerEntity)) : Prop :=
  ∀ h es, m !! h = Some es → is_Some (brokers i !! h) ∧ Forall P es.

Lemma add_entities_targets i P h es m :
  is_Some (brokers i !! h) → Forall P es → b_targets i P m → b_targets i P (add_entities h es m).
Proof.
  intros Hh He Hm h' es'. unfold add_entities. rewrite lookup_insert_Some.
  intros [[<- <-]|[_ ?]]; [|by apply Hm]. split; [done|]. apply Forall_app. split; [|done].
  destruct (m !! h) as [l|] eqn:E; [by apply (Hm _ _ E)|by constructor].
Qed.

Lemma add_all_targets i P es (l : list (BrokerState W)) : ∀ m,
  Forall P es → (∀ b, b ∈ l → is_Some (brokers i !! b_host b)) → b_targets i P m →
  b_targets i P (foldl (λ m b, add_entities (b_host b) es m) m l).
Proof.
  induction l as [|b l IH]; intros m He Hl Hm; [done|]. cbn. apply IH; [done| |].
  - intros b' Hb'. apply Hl. by right.
  - apply add_entities_targets; [apply Hl; by left|done..].
Qed.

Lemma add_on_brokers_ok i what pid a es P bs : ∀ m,
  (∀ b, b ∈ bs → is_Some (find_broker i (ab_Host b))) → Forall P es → b_targets i P m →
  ∃ m', add_on_brokers i what pid a es bs m = Ok m' ∧ b_targets i P m' ∧
    (∀ h, is_Some (m !! h) → is_Some (m' !! h)) ∧
    (∀ b, b ∈ bs → is_Some (m' !! host_of i (ab_Host b))).
Proof.
  induction bs as [|b bs IH]; intros m Hbs He Hm.
  { exists m. split_and!; try done. by intros ? ?%not_elem_of_nil. }
  destruct (Hbs b) as [x Hx]; [by left|]. unfold add_on_brokers. cbn [for_each].
  unfold mbind, prog_bind, add_on_broker at 1. rewrite Hx.
  destruct (IH (add_entities (host_of i (ab_Host b)) es m)) as (m' & E & Ht & Hk & Hin).
  - intros b' Hb'. apply Hbs. by right.
  - done.
  - apply add_entities_targets; [|done..]. by exists x.
  - exists m'. split_and!; [exact E|done|..].
    + intros h Hh. apply Hk. unfold add_entities. apply lookup_insert_is_Some'. auto.
    + intros b' [->|Hb']%elem_of_cons; [|auto]. apply Hk. unfold add_entities.
      by rewrite lookup_insert_eq.
Qed.

Lemma add_on_brokers_no_panic i what pid a es bs m : add_on_brokers i what pid a es bs m ≠ Panic.
Proof.
  revert m. induction bs as [|b bs IH]; intros m; [done|]. unfold add_on_brokers. cbn [for_each].
  unfold mbind, prog_bind, add_on_broker at 1. destruct (find_broker _ _); [apply IH|done].
Qed.

Lemma buildBrokerAddress_no_panic t i e a : buildBrokerAddressEntities t i e a ≠ Panic.
Proof.
  unfold buildBrokerAddressEntities. case_match; [done|].
  repeat case_match; try done; apply add_on_brokers_no_panic.
Qed.

(** On a known placement the broker entities are built, for known brokers only and
    under the qualified name of the address. *)
Lemma buildBrokerAddress_ok isRouter t i e a :
  hosts_ok isRouter i → isEndpointActive e = true → placed i a →
  ∃ m, buildBrokerAddressEntities t i e a = Ok m ∧
    b_targets i (b_confined (es_StatusHost (e_Status e)) a) m.
Proof.
  intros Hi He Hp. unfold buildBrokerAddressEntities. rewrite He. cbn [negb]. cbv zeta.
  set (pid := es_StatusHost (e_Status e)).
  assert (∀ what es, Forall (b_confined pid a) es →
    ∃ m, add_on_brokers i what pid a es (as_Brokers (a_Status a)) ∅ = Ok m ∧
      b_targets i (b_confined pid a) m) as Hloop.
  { intros what es Hes. destruct (add_on_brokers_ok i what pid a es (b_confined pid a)
      (as_Brokers (a_Status a)) ∅ Hp Hes) as (m & ? & ? & _); [|by exists m].
    by intros h l ?%lookup_empty_Some. }
  repeat case_match; try (apply Hloop; by repeat constructor).
  - eexists. split; [done|]. apply add_all_targets; [by repeat constructor| |].
    + intros b [h Hb]%elem_of_range_values. destruct (ho_brokers _ _ Hi _ _ Hb) as [-> _]. eauto.
    + by intros ?? ?%lookup_empty_Some.
  - eexists. split; [done|]. by intros ?? ?%lookup_empty_Some.
Qed.
End BrokerEntities.

(** ** Placement *)

Section Placement.
Context {W : Type} `{HC : !Client W} `{HS : !Sched} `{HD : !Scheduler W} `{HL : !SchedulerLaws W}.
Context (isRouter : string → bool).
Implicit Types i : infraClient W.

Lemma scheduled_known i t b :
  hosts_ok isRouter i → b ∈ range_values t (brokers i) →
  is_Some (find_broker i (ab_Host (scheduled_on b))).
Proof.
  intros Hi [h Hb]%elem_of_range_values. destruct (ho_brokers _ _ Hi _ _ Hb) as [Hh _].
  exists b. cbn. rewrite Hh. by eapply find_broker_known.
Qed.

(** Scheduling keeps a known placement known, and places an unplaced address. *)
Lemma ScheduleAddress_placed t l i i' :
  hosts_ok isRouter i →
  (∀ k pl b, projects i !! k = Some pl → ps_Broker (p_Status (project_at (heap i) pl)) = Some b →
     is_Some (find_broker i (ab_Host b))) →
  placed i (address_at (heap i) l) →
  ScheduleAddress t l i = (i', Ok ()) →
  placed i' (address_at (heap i') l) ∧ as_Brokers (a_Status (address_at (heap i') l)) ≠ [] ∧
  a_meta (address_at (heap i') l) = a_meta (address_at (heap i) l) ∧
  (∀ l', l' ≠ l → address_at (heap i') l' = address_at (heap i) l').
Proof.
  intros Hi Hproj Hp. unfold ScheduleAddress. destruct (i_initialized i); [|done]. cbn [negb].
  cbv zeta. destruct (projects i !! _) as [pl|] eqn:Epl; [|done].
  destruct (ps_Broker _) as [b|] eqn:Eb.
  - intros [= <-]. cbn. rewrite fn_lookup_insert. split_and!; [|done|done|].
    + intros b' ->%list_elem_of_singleton. by eapply Hproj.
    + intros l' Hl'. by apply fn_lookup_insert_ne.
  - destruct (sched_address _ _) as [a o] eqn:Es. intros [= <- ->].
    destruct (sched_address_ok _ _ _ Es) as (bs & Hbs & Hne & ->).
    cbn. rewrite fn_lookup_insert. cbn. split_and!; [| |done|].
    + intros b' [Hb'|(b & -> & Hb%Hbs)%list_elem_of_fmap]%elem_of_app; [by apply Hp|].
      by eapply (scheduled_known i).
    + destruct bs; [done|]. intros [_ ?]%app_eq_nil. done.
    + intros l' Hl'. by apply fn_lookup_insert_ne.
Qed.

(** A project is placed on a known broker. *)
Lemma ScheduleProject_placed t l i i' :
  hosts_ok isRouter i → ScheduleProject t l i = (i', Ok ()) →
  ∃ b, ps_Broker (p_Status (project_at (heap i') l)) = Some b ∧
    is_Some (find_broker i' (ab_Host b)) ∧ ab_State b = MessagingAddressBrokerScheduled.
Proof.
  intros Hi. unfold ScheduleProject. destruct (i_initialized i); [|done]. cbn [negb].
  destruct (sched_project _ _) as [p o] eqn:Es. intros [= <- ->].
  destruct (sched_project_ok _ _ _ Es) as (b & Hb & ->). exists (scheduled_on b).
  cbn. rewrite fn_lookup_insert. split_and!; [done| |done]. by eapply (scheduled_known i).
Qed.

Lemma ScheduleAddress_frame t l i :
  ∃ a, (ScheduleAddress t l i).1 = i ∨ (ScheduleAddress t l i).1 = update_address l a i.
Proof.
  unfold ScheduleAddress. destruct (i_initialized i); cbn [negb]; [|exists (address_at (heap i) l); by left].
  destruct (projects i !! _) as [pl|]; [|exists (address_at (heap i) l); by left].
  destruct (ps_Broker _); [eexists; by right|]. destruct (sched_address _ _). eexists. by right.
Qed.

(** An address that has been scheduled can be configured for every active endpoint. *)
Lemma scheduled_builds t t1 t2 l i i' e pl :
  hosts_ok isRouter i →
  (∀ k pl b, projects i !! k = Some pl → ps_Broker (p_Status (project_at (heap i) pl)) = Some b →
     is_Some (find_broker i (ab_Host b))) →
  placed i (address_at (heap i) l) →
  projects i !! default_project (Namespace (a_meta (address_at (heap i) l))) = Some pl →
  isEndpointActive e = true → ScheduleAddress t l i = (i', Ok ()) →
  let pid := es_StatusHost (e_Status e) in
  let a := address_at (heap i') l in
  (∃ es, buildRouterAddressEntities t1 i' e a = Ok es ∧ ∀ x, x ∈ es → confined i' pid a x) ∧
  (∃ m, buildBrokerAddressEntities t2 i' e a = Ok m ∧ b_targets i' (b_confined pid a) m).
Proof.
  intros Hi Hpr Hpl Hproj He Hrun.
  destruct (ScheduleAddress_placed t l i i' Hi Hpr Hpl Hrun) as (Hp & _ & Hm & _).
  destruct (ScheduleAddress_frame t l i) as [a0 Hf]. rewrite Hrun in Hf. simpl in Hf.
  assert (hosts_ok isRouter i') as Hi'
    by (destruct Hf as [->| ->]; [done|by eapply hosts_ok_frame; [..|exact Hi]]).
  assert (project_of i' (Namespace (a_meta (address_at (heap i') l))) =
    Some (project_at (heap i) pl)) as Hproj'
    by (rewrite Hm; unfold project_of; destruct Hf as [->| ->]; cbn; by rewrite Hproj).
  split; [|by apply (buildBrokerAddress_ok isRouter)].
  eapply buildRouterAddress_ok; [done|exact Hproj'|].
  destruct (ps_Broker _) as [b|] eqn:Eb; [|done]. destruct (Hpr _ _ _ Hproj Eb) as [x Hx].
  exists x. by destruct Hf as [->| ->].
Qed.
End Placement.

Section Alloc.
Context {W : Type} `{HC : !Client W} `{HS : !Sched}.
Implicit Types i : infraClient W.

Notation internal i l := (InternalPorts (endpoint_at (heap i) l)).

(** What allocation does to the endpoint at [l]: it appends ports for some of the
    protocols, each bound to its name and taken from nobody. *)
Record allocated (l : loc) (protocols : list string) i i' : Prop := {
  al_wf : ports_wf (ports i');
  al_inj : ports_inj (ports i) → ports_inj (ports i');
  al_meta : ∀ l', e_meta (endpoint_at (heap i') l') = e_meta (endpoint_at (heap i) l');
  al_others : ∀ l', l' ≠ l → endpoint_at (heap i') l' = endpoint_at (heap i) l';
  al_prefix : internal i l `prefix_of` internal i' l;
  al_kept : ∀ q m, bound (ports i) q = Some m → bound (ports i') q = Some m;
  al_new : ∀ p, p ∈ internal i' l → p ∉ internal i l →
    ∃ protocol, protocol ∈ protocols ∧ p_Protocol p = protocol ∧
      p_Name p = portName (endpoint_at (heap i) l) protocol ∧
      bound (ports i') (p_Port p) = Some (p_Name p) ∧
      (∀ m, bound (ports i) (p_Port p) = Some m → m = p_Name p);
}.

Lemma portName_meta e e' protocol : e_meta e' = e_meta e → portName e' protocol = portName e protocol.
Proof. unfold portName. by intros ->. Qed.

Lemma allocated_refl l i : ports_wf (ports i) → allocated l [] i i.
Proof. intros Hwf. split; try done. Qed.

Lemma allocated_trans l ps1 ps2 i1 i2 i3 :
  allocated l ps1 i1 i2 → allocated l ps2 i2 i3 → allocated l (ps1 ++ ps2) i1 i3.
Proof.
  intros [Hw1 Hi1 Hm1 Ho1 Hp1 Hk1 Hn1] [Hw2 Hi2 Hm2 Ho2 Hp2 Hk2 Hn2]. split.
  - done.
  - auto.
  - intros l'. by rewrite Hm2.
  - intros l' Hl'. by rewrite Ho2, Ho1.
  - by etrans.
  - auto.
  - intros p Hp Hno. destruct (decide (p ∈ internal i2 l)) as [Hin|Hin].
    + destruct (Hn1 p Hin Hno) as (q & Hq & ? & ? & ? & ?). exists q.
      rewrite elem_of_app. split_and!; auto.
    + destruct (Hn2 p Hp Hin) as (q & Hq & ? & Hname & ? & ?). exists q.
      rewrite elem_of_app. rewrite (portName_meta (endpoint_at (heap i1) l)) in Hname by done.
      split_and!; auto.
Qed.

Definition has_port (l : loc) (protocol : string) i : Prop :=
  ∃ p, p ∈ internal i l ∧ p_Name p = portName (endpoint_at (heap i) l) protocol.

Lemma has_port_spec l protocol i :
  existsb (λ p, bool_decide (p_Name p = portName (endpoint_at (heap i) l) protocol)) (internal i l)
    = true ↔ has_port l protocol i.
Proof.
  rewrite existsb_exists. setoid_rewrite <-list_elem_of_In. by setoid_rewrite bool_decide_eq_true.
Qed.

Lemma has_port_mono l protocol ps i i' : allocated l ps i i' → has_port l protocol i → has_port l protocol i'.
Proof.
  intros Ha (p & Hp & Hn). exists p. rewrite (portName_meta (endpoint_at (heap i) l)) by apply Ha.
  split; [|done]. destruct (al_prefix _ _ _ _ Ha) as [k ->]. rewrite elem_of_app. by left.
Qed.

(** One protocol. *)
Lemma allocate_protocol_spec t l protocol i :
  ports_wf (ports i) →
  match allocate_protocol t l protocol i with
  | (i', Ok _) => allocated l [protocol] i i' ∧ has_port l protocol i'
  | (i', Err e) =>
      i' = i ∧ e = Errorf "no ports available" ∧ ¬ has_port l protocol i ∧
      ∀ q, pool (ports i) !! q ≠ Some None
  | (_, Panic) => False
  end.
Proof.
  intros Hwf. unfold allocate_protocol. cbv zeta. destruct (existsb _ _) eqn:E.
  { apply has_port_spec in E. split; [|done]. split; try done. }
  assert (¬ has_port l protocol i) as Hno by (rewrite <-has_port_spec; congruence).
  pose proof (allocatePort_spec t (portName (endpoint_at (heap i) l) protocol) (ports i)) as Hs.
  destruct (allocatePort _ _ _) as [p [port|e|]] eqn:Ea; [| |done].
  2: { destruct Hs as (-> & -> & _ & ?). split_and!; [by destruct i|done..]. }
  clear Hs. destruct (allocatePort_ok _ _ _ _ _ Hwf Ea) as (Hw & Hb & Hk & _ & Hu).
  split.
  - split; cbn.
    + done.
    + intros Hinj. exact (allocatePort_inj _ _ _ _ _ Hwf Hinj Ea).
    + intros l'. destruct (decide (l' = l)) as [->|]; [by rewrite fn_lookup_insert|].
      by rewrite fn_lookup_insert_ne.
    + intros l' Hl'. by apply fn_lookup_insert_ne.
    + rewrite fn_lookup_insert. by apply prefix_app_r.
    + done.
    + rewrite fn_lookup_insert. cbn. intros q. rewrite elem_of_app, list_elem_of_singleton.
      intros [?| ->]; [done|]. intros _. exists protocol. split_and!; try done. by left.
  - eexists. cbn. rewrite fn_lookup_insert. cbn. rewrite elem_of_app. split; [right; by left|].
    cbn. by apply portName_meta.
Qed.

Lemma allocated_sub l ps ps' i i' : ps ⊆ ps' → allocated l ps i i' → allocated l ps' i i'.
Proof.
  intros Hsub []. split; try done. intros p Hp Hno.
  destruct (al_new0 p Hp Hno) as (q & Hq%Hsub & ?). by exists q.
Qed.

(** A sequence of protocols. *)
Lemma allocate_all t l tasks i :
  ports_wf (ports i) →
  match for_each (λ np : nat * string, allocate_protocol (np.1 :: t) l np.2) tasks i with
  | (i', Ok _) =>
      allocated l tasks.*2 i i' ∧ ∀ protocol, protocol ∈ tasks.*2 → has_port l protocol i'
  | (i', Err e) =>
      allocated l tasks.*2 i i' ∧ e = Errorf "no ports available" ∧
      ∀ q, pool (ports i') !! q ≠ Some None
  | (_, Panic) => False
  end.
Proof.
  revert i. induction tasks as [|[n protocol] tasks IH]; intros i Hwf.
  { split; [by apply allocated_refl|by intros ? ?%not_elem_of_nil]. }
  cbn [for_each]. unfold mbind, prog_bind. cbn [fst snd].
  pose proof (allocate_protocol_spec (n :: t) l protocol i Hwf) as H1.
  destruct (allocate_protocol _ _ _ i) as [i1 [[]|e|]]; [| |done].
  2: { destruct H1 as (-> & -> & _ & ?). split_and!; [|done..].
    eapply allocated_sub; [apply list_subseteq_nil|by apply allocated_refl]. }
  destruct H1 as [Ha Hp]. specialize (IH i1 (al_wf _ _ _ _ Ha)).
  destruct (for_each _ tasks i1) as [i2 [[]|e|]]; [| |done].
  - destruct IH as [Ha' Hps]. split; [by apply (allocated_trans l [protocol] _ i i1)|].
    cbn. intros q [->|Hq]%elem_of_cons; [by eapply has_port_mono|by apply Hps].
  - destruct IH as (Ha' & -> & ?). split_and!; [|done..].
    by apply (allocated_trans l [protocol] _ i i1).
Qed.

(** [AllocatePorts] on every branch. *)
Lemma AllocatePorts_spec t l protocols i :
  ports_wf (ports i) →
  match AllocatePorts t l protocols i with
  | (i', Ok _) =>
      i_initialized i = true ∧ allocated l protocols i i' ∧
      ∀ protocol, protocol ∈ protocols → has_port l protocol i'
  | (i', Err e) =>
      (i_initialized i = false ∧ i' = i ∧ e = NotInitializedError) ∨
      (allocated l protocols i i' ∧ e = Errorf "no ports available" ∧
       ∀ q, pool (ports i') !! q ≠ Some None)
  | (_, Panic) => False
  end.
Proof.
  intros Hwf. unfold AllocatePorts. destruct (i_initialized i); cbn [negb]; [|by left].
  pose proof (allocate_all t l (imap (λ n p, (n, p)) protocols) i Hwf) as H.
  assert ((imap (λ n p, (n, p)) protocols).*2 = protocols) as E.
  { rewrite fmap_imap, (imap_const (λ h, h)). apply list_fmap_id. }
  rewrite E in H. destruct (for_each _ _ i) as [i' [[]|e|]]; [done|by right|done].
Qed.

(** Asking again gives the same ports. *)
Lemma AllocatePorts_again t l protocols i :
  i_initialized i = true → (∀ protocol, protocol ∈ protocols → has_port l protocol i) →
  AllocatePorts t l protocols i = (i, Ok ()).
Proof.
  intros Hi Hp. unfold AllocatePorts. rewrite Hi. cbn [negb].
  assert (∀ tasks, (∀ np : nat * string, np ∈ tasks → np.2 ∈ protocols) →
    for_each (λ np : nat * string, allocate_protocol (np.1 :: t) l np.2) tasks i = (i, Ok ())) as H.
  { induction tasks as [|np tasks IH]; intros Ht; [done|]. cbn [for_each]. unfold mbind, prog_bind.
    unfold allocate_protocol at 1. cbv zeta.
    rewrite (proj2 (has_port_spec _ _ _)) by (apply Hp, Ht; by left).
    apply IH. intros x Hx. apply Ht. by right. }
  apply H. intros np (k & p & -> & Hk)%elem_of_lookup_imap_1. by eapply list_elem_of_lookup_2.
Qed.

(** ** Freeing *)

Lemma bound_free_all ps pts q :
  bound (foldl (λ ps p, freePort (p_Port p) ps) pts ps) q =
    if decide (q ∈ p_Port <$> ps) then None else bound pts q.
Proof.
  induction ps as [|p ps IH] using rev_ind; [done|]. rewrite foldl_snoc, bound_freePort, IH, fmap_app.
  destruct (decide (q = p_Port p)) as [->|Hne].
  - rewrite decide_True; [done|]. apply elem_of_app. right. by left.
  - apply decide_ext. rewrite elem_of_app. cbn. rewrite list_elem_of_singleton. tauto.
Qed.

(** The ports of the endpoint go back to the pool, except those of HTTP listeners,
    which the endpoint keeps; no other port changes. *)
Lemma FreePorts_spec l i :
  i_initialized i = true →
  let i' := FreePorts l i in
  internal i' l = filter (λ p, keeps_port p = true) (internal i l) ∧
  (∀ q, bound (ports i') q =
     if decide (q ∈ p_Port <$> filter (λ p, keeps_port p = false) (internal i l))
     then None else bound (ports i) q) ∧
  (∀ l', l' ≠ l → endpoint_at (heap i') l' = endpoint_at (heap i) l').
Proof.
  intros Hi. unfold FreePorts, freePortsInternal. rewrite Hi. cbn. split_and!.
  - by rewrite fn_lookup_insert.
  - intros q. apply bound_free_all.
  - intros l' Hl'. by apply fn_lookup_insert_ne.
Qed.

Lemma freePortsInternal_wf l i : ports_wf (ports i) → ports_wf (ports (freePortsInternal l i)).
Proof.
  intros Hwf. unfold freePortsInternal. destruct (i_initialized i); [|done]. cbn.
  induction (filter _ _) as [|p ps IH] using rev_ind; [done|].
  rewrite foldl_snoc. by apply freePort_wf.
Qed.
End Alloc.
