(* ===== verification/SyncFacts.v ===== *)
(** Facts about the batches of requests: every request is answered once, the
    resources known to the client stay consistent, and a request is answered
    without an error only when the routers and brokers have its configuration. *)
From stdpp Require Import base functions fin_maps gmap strings list.
From S2P Require Import Prelude Go Client RouterTypes Router RouterFacts ApiV1.
From S2P Require Import BrokerTypes Broker BrokerFacts HostFacts Names Ports Scheduler.
From S2P Require Import Infra InfraFacts Entities EntityFacts Sync.

Section Batches.
Context {W : Type} `{HC : !Client W} `{HS : !Sched}.
Implicit Types i : infraClient W.

(** ** Answers *)

(** The client has sent [rs] on the channels of the requests. *)
Definition answered (rs : list (nat * option error)) i i' : Prop := replies i' = replies i ++ rs.

Lemma answered_trans rs1 rs2 i1 i2 i3 :
  answered rs1 i1 i2 → answered rs2 i2 i3 → answered (rs1 ++ rs2) i1 i3.
Proof. unfold answered. intros -> ->. by rewrite app_assoc. Qed.

(** The checks do not look at the answers. *)
Definition ignores_replies {A} (f : infraClient W → A) : Prop := ∀ x i, f (set_replies x i) = f i.

Definition rejections (check : infraClient W → request → option error) i (requests : list request)
    : list (nat * option error) :=
  omap (λ r, (λ e, (done_chan r, Some e)) <$> check i r) requests.

Lemma validate_eq check requests i :
  ignores_replies check →
  validate check requests i =
    (set_replies (replies i ++ rejections check i requests) i,
     Ok (filter (λ r, check i r = None) requests)).
Proof.
  unfold ignores_replies. intros Hc. revert i. induction requests as [|r rs IH]; intros i.
  { cbn. rewrite app_nil_r. by destruct i. }
  cbn [validate rejections omap list_omap]. rewrite filter_cons.
  destruct (check i r) as [e|] eqn:E; cbn [fmap option_fmap option_map].
  - rewrite decide_False by done. go_simpl. rewrite IH. cbn. unfold rejections.
    rewrite !Hc, <-app_assoc. done.
  - rewrite decide_True by done. go_simpl. rewrite IH. done.
Qed.

Lemma rejections_perm check i requests :
  (rejections check i requests).*1 ++ (done_chan <$> filter (λ r, check i r = None) requests)
    ≡ₚ done_chan <$> requests.
Proof.
  induction requests as [|r rs IH]; [done|]. unfold rejections in *. rewrite filter_cons.
  cbn [omap list_omap]. destruct (check i r) as [e|]; cbn [fmap option_fmap option_map].
  - rewrite decide_False by done. cbn. by rewrite IH.
  - rewrite decide_True by done. cbn. by rewrite <-Permutation_middle, IH.
Qed.

(** ** Building *)

Lemma build_request_replies t act r x i acc :
  build_request t (set_replies x i) act r acc = build_request t i act r acc.
Proof. done. Qed.

(** The requests whose entities were built, and the answers to the others. *)
Lemma build_requests_spec t act requests acc i :
  match build_requests t act requests acc i with
  | (i', Ok (built, b)) =>
      ∃ rs, i' = set_replies (replies i ++ rs) i ∧ built `sublist_of` requests ∧
        rs.*1 ++ (done_chan <$> built) ≡ₚ done_chan <$> requests ∧ Forall (λ x, x.2 ≠ None) rs
  | (i', Err _) => False
  | (i', Panic) =>
      ∃ r t' acc', r ∈ requests ∧ (build_request t' i act r acc').2 = Panic
  end.
Proof.
  revert acc i. induction requests as [|r rs IH]; intros acc i; cbn [build_requests].
  { cbn. exists []. rewrite app_nil_r. split_and!; try done. by destruct i. }
  destruct (build_request (length rs :: t) i act r acc) as [acc' [[]|e|]] eqn:E.
  - unfold mbind, prog_bind. specialize (IH acc' i).
    destruct (build_requests t act rs acc' i) as [i' [[built b]|e|]]; [|done|].
    + destruct IH as (xs & -> & Hsub & Hp & Hf). exists xs. split_and!; try done.
      * by apply sublist_skip.
      * cbn. by rewrite <-Permutation_middle, Hp.
    + destruct IH as (r' & t' & a' & ? & ?). exists r', t', a'. split; [by right|done].
  - unfold mbind, prog_bind, answer, modify. specialize (IH acc' (set_replies (replies i ++ [(done_chan r, Some e)]) i)).
    destruct (build_requests t act rs acc' _) as [i' [[built b]|e'|]]; [|done|].
    + destruct IH as (xs & -> & Hsub & Hp & Hf). exists ((done_chan r, Some e) :: xs). split_and!.
      * cbn. by rewrite <-app_assoc.
      * by apply sublist_cons.
      * cbn. by rewrite Hp.
      * by constructor.
    + destruct IH as (r' & t' & a' & ? & ?). exists r', t', a'. split; [by right|done].
  - exists r, (length rs :: t), acc. split; [by left|by rewrite E].
Qed.

(** ** The end of a batch *)

(** The answer a request gets at the end of a batch. *)
Definition final_answer (err : option error) (r : request) : nat * option error :=
  (done_chan r, match req_resource r with ROther _ _ => unknown_resource r | _ => err end).

Definition answers_last (finish : option error → request → prog (infraClient W) ()) : Prop :=
  ∀ err r i, ∃ i', finish err r i = (i', Ok ()) ∧ answered [final_answer err r] i i'.

Lemma finish_sync_answers : answers_last finish_sync.
Proof.
  intros err r i. unfold finish_sync, answered, final_answer.
  destruct (req_resource r); cbn; eexists; (split; [done|]); by destruct err.
Qed.

Lemma freePortsInternal_replies l i : replies (freePortsInternal l i) = replies i.
Proof. unfold freePortsInternal. by destruct (i_initialized i). Qed.

Lemma finish_delete_answers : answers_last finish_delete.
Proof.
  intros err r i. unfold finish_delete, answered, final_answer.
  destruct (req_resource r); cbn; eexists; (split; [done|]); destruct err; try done.
  cbn. by rewrite freePortsInternal_replies.
Qed.

Lemma finish_all finish err built i :
  answers_last finish →
  ∃ i', for_each (finish err) built i = (i', Ok ()) ∧ answered (final_answer err <$> built) i i'.
Proof.
  intros Hfin. revert i. induction built as [|r rs IH]; intros i.
  { exists i. split; [done|]. unfold answered. by rewrite app_nil_r. }
  destruct (Hfin err r i) as (i1 & E1 & H1). destruct (IH i1) as (i2 & E2 & H2).
  exists i2. cbn [for_each]. unfold mbind, prog_bind. rewrite E1. split; [done|].
  by apply (answered_trans [_] _ i i1).
Qed.

(** ** The routers and brokers *)

(** Only the states of the routers and brokers differ. *)
Definition hosts_only i i' : Prop := i' = set_brokers (brokers i') (set_routers (routers i') i).

Lemma hosts_only_refl i : hosts_only i i.
Proof. by destruct i. Qed.

Lemma hosts_only_trans i1 i2 i3 : hosts_only i1 i2 → hosts_only i2 i3 → hosts_only i1 i3.
Proof. unfold hosts_only. intros -> ->. done. Qed.

Lemma applyRouters_hosts {B} t (fn : nat → prog (RouterState W) B) i :
  hosts_only i (applyRouters t fn i).1.
Proof. unfold applyRouters. by destruct (apply_hosts _ _ _). Qed.

Lemma applyBrokers_hosts {B} t (fn : nat → prog (BrokerState W) B) i :
  hosts_only i (applyBrokers t fn i).1.
Proof. unfold applyBrokers. by destruct (apply_hosts _ _ _). Qed.

Lemma bind_hosts {A B} (p : prog (infraClient W) A) (k : A → prog (infraClient W) B) i :
  hosts_only i (p i).1 → (∀ a i, hosts_only i (k a i).1) → hosts_only i ((p ≫= k) i).1.
Proof.
  intros Hp Hk. unfold mbind, prog_bind. destruct (p i) as [i1 [a| |]]; cbn in *; try done.
  eapply hosts_only_trans; [exact Hp|apply Hk].
Qed.

Lemma mret_hosts {A} (a : A) i : hosts_only i (mret (M := prog (infraClient W)) a i).1.
Proof. apply hosts_only_refl. Qed.

Lemma syncEntities_hosts t b i : hosts_only i (syncEntities t b i).1.
Proof.
  unfold syncEntities. apply bind_hosts.
  { case_bool_decide; [apply mret_hosts|apply applyBrokers_hosts]. }
  intros _ i1. apply bind_hosts; [|intros; apply mret_hosts].
  case_bool_decide; [apply mret_hosts|apply applyRouters_hosts].
Qed.

Lemma deleteEntities_hosts t b i : hosts_only i (deleteEntities t b i).1.
Proof.
  unfold deleteEntities. apply bind_hosts; [apply applyRouters_hosts|]. intros _ i1.
  apply bind_hosts; [apply applyBrokers_hosts|]. intros. apply mret_hosts.
Qed.

Lemma ignores_check_sync : ignores_replies (check_sync (W := W)).
Proof. done. Qed.

Lemma ignores_check_delete : ignores_replies (check_delete (W := W)).
Proof. done. Qed.

(** ** The run of a batch *)

Lemma refuse_frame e requests i :
  ∃ rs, for_each (λ r, answer r (Some e)) requests i = (set_replies rs i, Ok ()).
Proof.
  revert i. induction requests as [|r rs IH]; intros i.
  { exists (replies i). by destruct i. }
  destruct (IH (set_replies (replies i ++ [(done_chan r, Some e)]) i)) as [xs E]. by exists xs.
Qed.

Lemma refuse_all e requests i :
  ∃ i' rs, for_each (λ r, answer r (Some e)) requests i = (i', Ok ()) ∧ answered rs i i' ∧
    rs.*1 ≡ₚ done_chan <$> requests.
Proof.
  revert i. induction requests as [|r rs IH]; intros i.
  { exists i, []. split; [done|]. split; [|done]. unfold answered. by rewrite app_nil_r. }
  destruct (IH (set_replies (replies i ++ [(done_chan r, Some e)]) i)) as (i' & xs & E & Ha & Hp).
  exists i', ((done_chan r, Some e) :: xs). split; [exact E|].
  split; [|cbn; by rewrite Hp]. unfold answered in *. rewrite Ha. cbn. by rewrite <-app_assoc.
Qed.

Section Run.
Context (t : tick) (check : infraClient W → request → option error)
  (apply : tick → Built → prog (infraClient W) ())
  (finish : option error → request → prog (infraClient W) ())
  (Hcheck : ignores_replies check) (Happly : ∀ t b i, hosts_only i (apply t b i).1)
  (Hfinish : answers_last finish).

(** The stages of a batch, once the client is initialized. *)
Lemma do_batch_run requests i i' o :
  requests ≠ [] → i_initialized i = true →
  do_batch t check apply finish requests i = (i', o) → o ≠ Panic →
  ∃ rs built b i2 o2,
    buildEntities (0 :: t) (filter (λ r, check i r = None) requests)
      (set_replies (replies i ++ rejections check i requests) i)
      = (set_replies (replies i ++ rs) i, Ok (built, b)) ∧
    built `sublist_of` filter (λ r, check i r = None) requests ∧
    rs.*1 ++ (done_chan <$> built) ≡ₚ done_chan <$> requests ∧
    Forall (λ x, x.2 ≠ None) rs ∧
    apply (1 :: t) b (set_replies (replies i ++ rs) i) = (i2, o2) ∧ o2 ≠ Panic ∧
    hosts_only (set_replies (replies i ++ rs) i) i2 ∧
    for_each (finish (err_of o2)) built i2 = (i', Ok ()) ∧ o = Ok () ∧
    replies i' = replies i ++ rs ++ (final_answer (err_of o2) <$> built).
Proof.
  intros Hne Hi. unfold do_batch. destruct requests as [|r0 rs0]; [done|]. clear Hne.
  set (requests := r0 :: rs0). clearbody requests. clear r0 rs0. rewrite Hi. cbn [negb].
  unfold mbind, prog_bind. rewrite validate_eq by done.
  set (valid := filter _ requests). set (i0 := set_replies _ i).
  pose proof (build_requests_spec (1 :: 0 :: t) (getActiveEndpoints (0 :: 0 :: t) i0) valid
    {| router_entities := [];
       broker_entities := list_to_map ((λ b, (b_host b, [])) <$> range_values (2 :: 0 :: t) (brokers i0)) |}
    i0) as Hb.
  fold (buildEntities (0 :: t) valid i0) in Hb.
  destruct (buildEntities (0 :: t) valid i0) as [i1 [[built b]|e|]]; [|done|by intros [= _ <-]].
  destruct Hb as (xs & -> & Hsub & Hp & Hf). unfold apply_built. cbn [snd fst].
  set (i1 := set_replies (replies i0 ++ xs) i0). pose proof (Happly (1 :: t) b i1) as Hh.
  destruct (apply (1 :: t) b i1) as [i2 o2] eqn:Ea. cbn in Hh.
  destruct (finish_all finish (err_of o2) built i2 Hfinish) as (i3 & E3 & H3).
  intros Hrun Ho. exists (rejections check i requests ++ xs), built, b, i2, o2.
  assert (set_replies (replies i ++ rejections check i requests ++ xs) i = i1) as ->.
  { unfold i1, i0. cbn. by rewrite app_assoc. }
  assert (o2 ≠ Panic ∧ i3 = i' ∧ o = Ok ()) as (Ho2 & -> & ->).
  { destruct o2 as [[]|e|]; [..|by injection Hrun as <- <-];
      cbn [err_of] in E3, Hrun; rewrite E3 in Hrun; by injection Hrun as <- <-. }
  split_and!; try done.
  - rewrite fmap_app, <-app_assoc, Hp. apply rejections_perm.
  - apply Forall_app. split; [|done]. apply Forall_forall. intros x (r & _ & Hx)%list_elem_of_omap.
    destruct (check i r); [by injection Hx as <-|done].
  - unfold answered in H3. rewrite H3, Hh. unfold i1, i0. cbn. by rewrite <-!app_assoc.
Qed.

(** What the answers, the application and the end of a batch preserve, the batch
    preserves. *)
Lemma do_batch_inv (P : infraClient W → Prop) requests i :
  (∀ x i, P i → P (set_replies x i)) → (∀ t b i, P i → P (apply t b i).1) →
  (∀ err r i, P i → P (finish err r i).1) → P i → P (do_batch t check apply finish requests i).1.
Proof.
  intros HP Ha Hf Hi. unfold do_batch. destruct requests as [|r0 rs0]; [done|].
  destruct (i_initialized i); cbn [negb].
  - apply bind_inv; [rewrite validate_eq by done; by apply HP|]. intros valid i1 H1.
    apply bind_inv.
    + unfold buildEntities. match goal with |- P (build_requests ?t ?a ?l ?acc _).1 =>
        generalize a, acc; intros act acc0; revert acc0 end.
      clear Hi. revert i1 H1. induction valid as [|r rs IH]; intros i1 H1 acc; [done|].
      cbn [build_requests]. destruct (build_request _ _ _ _ _) as [acc' [[]|e|]]; [| |done].
      * apply bind_inv; [by apply IH|done].
      * apply bind_inv; [by apply HP|]. intros _ i2 H2. by apply IH.
    + intros built i2 H2. unfold apply_built. pose proof (Ha (1 :: t) built.2 i2 H2) as H3.
      destruct (apply (1 :: t) built.2 i2) as [i3 [[]|e|]]; cbn in *; try done;
        (apply for_each_inv; [done|auto]).
  - apply for_each_inv; [done|]. intros r i1 _ H1. by apply HP.
Qed.

(** A batch ends: every request is answered, exactly once; or the process dies. *)
Lemma do_batch_answers requests i :
  match do_batch t check apply finish requests i with
  | (i', Ok _) => ∃ rs, answered rs i i' ∧ rs.*1 ≡ₚ done_chan <$> requests
  | (_, Err _) => False
  | (_, Panic) => True
  end.
Proof.
  destruct (do_batch t check apply finish requests i) as [i' o] eqn:E.
  destruct (decide (requests = [])) as [->|Hne].
  { injection E as <- <-. exists []. split; [|done]. unfold answered. by rewrite app_nil_r. }
  destruct (i_initialized i) eqn:Hi.
  - destruct (decide (o = Panic)) as [->|Ho]; [done|].
    destruct (do_batch_run _ _ _ _ Hne Hi E Ho)
      as (rs & built & b & i2 & o2 & _ & _ & Hp & _ & _ & _ & _ & _ & -> & Hr).
    exists (rs ++ (final_answer (err_of o2) <$> built)). split; [done|].
    rewrite fmap_app, <-list_fmap_compose, (list_fmap_ext _ done_chan built) by done. done.
  - unfold do_batch in E. rewrite Hi in E. destruct requests; [done|]. cbn [negb] in E.
    destruct (refuse_all NotInitializedError (r :: requests) i) as (i3 & rs & E3 & ? & ?).
    rewrite E3 in E. injection E as <- <-. by exists rs.
Qed.
End Run.
End Batches.

(** ** The resources the client knows *)

Section Keys.
Context {W : Type} `{HC : !Client W} `{HS : !Sched}.
Implicit Types i : infraClient W.

(** Resources are known by their own name, and the namespace of an address has its
    project. *)
Record keys_ok i : Prop := {
  ko_address : ∀ k l, addresses i !! k = Some l → meta_key (a_meta (address_at (heap i) l)) = k;
  ko_endpoint : ∀ k l, endpoints i !! k = Some l → meta_key (e_meta (endpoint_at (heap i) l)) = k;
  ko_project : ∀ k l, projects i !! k = Some l → meta_key (p_meta (project_at (heap i) l)) = k;
  ko_owner : ∀ k, is_Some (addresses i !! k) → is_Some (projects i !! default_project (k_Namespace k));
}.

(** Nothing of a resource but its status changes. *)
Definition same_meta (h h' : Heap) : Prop :=
  (∀ l, a_meta (address_at h' l) = a_meta (address_at h l)) ∧
  (∀ l, e_meta (endpoint_at h' l) = e_meta (endpoint_at h l)) ∧
  (∀ l, p_meta (project_at h' l) = p_meta (project_at h l)).

Lemma keys_ok_frame i i' :
  addresses i' = addresses i → endpoints i' = endpoints i → projects i' = projects i →
  same_meta (heap i) (heap i') → keys_ok i → keys_ok i'.
Proof.
  intros Ha He Hp (Hma & Hme & Hmp) [H1 H2 H3 H4].
  split; rewrite ?Ha, ?He, ?Hp; try done; intros k l.
  - rewrite Hma. apply H1.
  - rewrite Hme. apply H2.
  - rewrite Hmp. apply H3.
Qed.

Lemma keys_ok_hosts i i' : hosts_only i i' → keys_ok i → keys_ok i'.
Proof. intros ->. by apply keys_ok_frame. Qed.

Lemma keys_ok_replies x i : keys_ok i → keys_ok (set_replies x i).
Proof. by apply keys_ok_frame. Qed.

Lemma NewInfra_keys rf bf h now : keys_ok (NewInfra (W := W) rf bf h now).
Proof. split; cbn; [by intros ?? ?%lookup_empty_Some..|]. intros k. rewrite lookup_empty. by intros []. Qed.

(** An address waiting to be recorded has its project. *)
Definition has_project i (r : request) : Prop :=
  ∀ l, req_resource r = RAddress l →
    is_Some (projects i !! default_project (Namespace (a_meta (address_at (heap i) l)))).

Lemma finish_sync_keys err r i :
  keys_ok i → has_project i r →
  keys_ok (finish_sync err r i).1 ∧ ∀ r', has_project i r' → has_project (finish_sync err r i).1 r'.
Proof.
  intros Hi Hr. unfold finish_sync. destruct err as [e|].
  { destruct (req_resource r); cbn; (split; [by apply keys_ok_replies|done]). }
  destruct Hi as [H1 H2 H3 H4]. unfold request_key.
  destruct (req_resource r) as [l|l|l|] eqn:E; cbn; (split; [split; cbn|]); try done;
    try (intros k l'; rewrite lookup_insert_Some; intros [[<- <-]|[_ ?]]; [done|auto]).
  - intros k. rewrite lookup_insert_is_Some'. intros [<-|?]; [by apply Hr|auto].
  - intros k Hk. apply lookup_insert_is_Some'. auto.
  - intros r' Hr' l' Hl'. apply lookup_insert_is_Some'. right. by apply Hr'.
Qed.

Lemma finish_sync_all_keys err built i :
  keys_ok i → (∀ r, r ∈ built → has_project i r) → keys_ok (for_each (finish_sync err) built i).1.
Proof.
  revert i. induction built as [|r rs IH]; intros i Hi Hr; [done|]. cbn [for_each].
  destruct (finish_sync_keys err r i Hi ltac:(apply Hr; by left)) as [Hi' Hk].
  unfold mbind, prog_bind. destruct (finish_sync err r i) as [i1 [[]| |]]; try done.
  apply IH; [done|]. intros r' Hr'. apply Hk, Hr. by right.
Qed.

(** [doSync] keeps the invariant. *)
Lemma doSync_keys t requests i i' :
  keys_ok i → doSync t requests i = (i', Ok ()) → keys_ok i'.
Proof.
  intros Hi E. unfold doSync in E. destruct (decide (requests = [])) as [->|Hne].
  { by injection E as <-. }
  destruct (i_initialized i) eqn:Hini.
  - destruct (do_batch_run t check_sync syncEntities finish_sync ignores_check_sync
      syncEntities_hosts finish_sync_answers _ _ _ _ Hne Hini E)
      as (rs & built & b & i2 & o2 & _ & Hsub & _ & _ & _ & _ & Hh & Hfin & _ & _); [done|].
    replace i' with (for_each (finish_sync (err_of o2)) built i2).1 by by rewrite Hfin.
    apply finish_sync_all_keys.
    + apply (keys_ok_hosts _ _ Hh). by apply keys_ok_replies.
    + intros r Hr%(sublist_subseteq _ _ Hsub). apply list_elem_of_filter in Hr as [Hc _].
      intros l Hl. rewrite Hh. cbn. unfold check_sync in Hc. rewrite Hl in Hc. cbn in Hc.
      destruct (projects i !! _); [by eexists|done].
  - unfold do_batch in E. rewrite Hini in E. destruct requests; [done|]. cbn [negb] in E.
    destruct (refuse_frame NotInitializedError (r :: requests) i) as [rs E'].
    rewrite E' in E. injection E as <-. by apply keys_ok_replies.
Qed.

(** A project waiting to be deleted has no address. *)
Definition no_address i (r : request) : Prop :=
  ∀ l, req_resource r = RProject l →
    ∀ k, is_Some (addresses i !! k) → k_Namespace k ≠ Namespace (p_meta (project_at (heap i) l)).

Lemma check_delete_spec i r : check_delete i r = None → no_address i r.
Proof.
  unfold check_delete. intros Hc l Hl k [a Ha] En. rewrite Hl in Hc. cbn in Hc.
  destruct (existsb _ _) eqn:E; [done|]. apply not_true_iff_false in E. apply E, existsb_exists.
  exists k. split; [|by apply bool_decide_eq_true].
  apply list_elem_of_In, list_elem_of_fmap. exists (k, a). split; [done|].
  by apply elem_of_map_to_list.
Qed.

Lemma same_meta_free l i : same_meta (heap i) (heap (freePortsInternal l i)).
Proof.
  unfold freePortsInternal. destruct (i_initialized i); [|done]. cbn. split_and!; try done.
  cbn. intros l'. destruct (decide (l' = l)) as [->|]; [by rewrite fn_lookup_insert|].
  by rewrite fn_lookup_insert_ne.
Qed.

Lemma freePorts_resources l i :
  addresses (freePortsInternal l i) = addresses i ∧ endpoints (freePortsInternal l i) = endpoints i ∧
  projects (freePortsInternal l i) = projects i.
Proof. unfold freePortsInternal. by destruct (i_initialized i). Qed.

Lemma finish_delete_keys err r i :
  keys_ok i → no_address i r →
  keys_ok (finish_delete err r i).1 ∧ ∀ r', no_address i r' → no_address (finish_delete err r i).1 r'.
Proof.
  intros Hi Hr. unfold finish_delete. destruct err as [e|].
  { destruct (req_resource r); cbn; (split; [by apply keys_ok_replies|done]). }
  destruct Hi as [H1 H2 H3 H4]. unfold request_key.
  destruct (req_resource r) as [l|l|l|] eqn:E.
  - cbn. split; [split; cbn|]; try done.
    + intros k l' [_ ?]%lookup_delete_Some. auto.
    + intros k [l' [_ ?]%lookup_delete_Some]. eauto.
    + intros r' Hr' l' Hl' k [a Ha]. cbn in Ha. apply lookup_delete_Some in Ha as [_ Ha].
      apply (Hr' l' Hl'). by exists a.
  - destruct (freePorts_resources l i) as (Ea & Ee & Ep).
    destruct (same_meta_free l i) as (Ma & Me & Mp). cbn.
    split; [split; cbn|]; rewrite ?Ea, ?Ee, ?Ep; try done.
    + intros k l'. rewrite Ma. apply H1.
    + intros k l' [_ ?]%lookup_delete_Some. rewrite Me. auto.
    + intros k l'. rewrite Mp. apply H3.
    + intros r' Hr' l' Hl' k. cbn. rewrite Ea, Mp. by apply Hr'.
  - cbn. split; [split; cbn|]; try done.
    + intros k l' [_ ?]%lookup_delete_Some. auto.
    + intros k Hk. destruct (H4 k Hk) as [pl Hpl]. exists pl. apply lookup_delete_Some.
      split; [|done]. unfold meta_key, default_project. intros [= _ En].
      by apply (Hr l E k Hk).
  - cbn. split; [by apply keys_ok_replies|done].
Qed.

Lemma finish_delete_all_keys err built i :
  keys_ok i → (∀ r, r ∈ built → no_address i r) → keys_ok (for_each (finish_delete err) built i).1.
Proof.
  revert i. induction built as [|r rs IH]; intros i Hi Hr; [done|]. cbn [for_each].
  destruct (finish_delete_keys err r i Hi ltac:(apply Hr; by left)) as [Hi' Hk].
  unfold mbind, prog_bind. destruct (finish_delete err r i) as [i1 [[]| |]]; try done.
  apply IH; [done|]. intros r' Hr'. apply Hk, Hr. by right.
Qed.

(** [doDelete] keeps the invariant. *)
Lemma doDelete_keys t requests i i' :
  keys_ok i → doDelete t requests i = (i', Ok ()) → keys_ok i'.
Proof.
  intros Hi E. unfold doDelete in E. destruct (decide (requests = [])) as [->|Hne].
  { by injection E as <-. }
  destruct (i_initialized i) eqn:Hini.
  - destruct (do_batch_run t check_delete deleteEntities finish_delete ignores_check_delete
      deleteEntities_hosts finish_delete_answers _ _ _ _ Hne Hini E)
      as (rs & built & b & i2 & o2 & _ & Hsub & _ & _ & _ & _ & Hh & Hfin & _ & _); [done|].
    replace i' with (for_each (finish_delete (err_of o2)) built i2).1 by by rewrite Hfin.
    apply finish_delete_all_keys.
    + apply (keys_ok_hosts _ _ Hh). by apply keys_ok_replies.
    + intros r Hr%(sublist_subseteq _ _ Hsub). apply list_elem_of_filter in Hr as [Hc _].
      rewrite Hh. exact (check_delete_spec i r Hc).
  - unfold do_batch in E. rewrite Hini in E. destruct requests; [done|]. cbn [negb] in E.
    destruct (refuse_frame NotInitializedError (r :: requests) i) as [rs E'].
    rewrite E' in E. injection E as <-. by apply keys_ok_replies.
Qed.
End Keys.
