(* ===== verification/ConfigFacts.v ===== *)
(** From answers to configuration: what is true of the routers and brokers when a
    request was answered without an error, and after [SyncAll]. *)
From stdpp Require Import base functions fin_maps gmap strings list.
From S2P Require Import Prelude Go Client RouterTypes Router RouterFacts ApiV1.
From S2P Require Import BrokerTypes Broker BrokerFacts HostFacts Names Ports Scheduler.
From S2P Require Import Infra InfraFacts Entities EntityFacts Sync SyncFacts.

(** ** Collecting entities *)

(** [b'] has what [b] has. *)
Definition built_le (b b' : Built) : Prop :=
  router_entities b ⊆ router_entities b' ∧
  ∀ h, default [] (broker_entities b !! h) ⊆ default [] (broker_entities b' !! h).

#[global] Instance built_le_preorder : PreOrder built_le.
Proof.
  split; [by split|]. intros b1 b2 b3 [H1 H2] [H3 H4].
  split; [by etrans|]. intros h. etrans; [apply H2|apply H4].
Qed.

Lemma add_router_le es b :
  built_le b (add_router_entities es b) ∧ es ⊆ router_entities (add_router_entities es b).
Proof. split; [split; [|done]|]; cbn; intros x Hx; apply elem_of_app; auto. Qed.

Lemma add_entities_le h es m h' :
  default [] (m !! h') ⊆ default [] (add_entities h es m !! h') ∧
  (h' = h → es ⊆ default [] (add_entities h es m !! h')).
Proof.
  unfold add_entities. destruct (decide (h = h')) as [->|Hne].
  - rewrite lookup_insert_eq. cbn. split; [|intros _]; intros x Hx; apply elem_of_app; auto.
  - rewrite lookup_insert_ne by done. split; [done|congruence].
Qed.

Lemma merge_le `{Sched} t result b :
  built_le b (merge_entities t result b) ∧
  ∀ h es, result !! h = Some es → es ⊆ default [] (broker_entities (merge_entities t result b) !! h).
Proof.
  cut (∀ (l : list (Host * list BrokerEntity)) m h,
    default [] (m !! h) ⊆ default [] (foldl (λ m he, add_entities he.1 he.2 m) m l !! h) ∧
    ∀ es, (h, es) ∈ l → es ⊆ default [] (foldl (λ m he, add_entities he.1 he.2 m) m l !! h)).
  { intros Hf. split; [split; [done|]|].
    - intros h. cbn. exact (proj1 (Hf _ _ h)).
    - intros h es Hh. cbn. apply (proj2 (Hf _ _ h)). by apply elem_of_range. }
  induction l as [|[h1 es1] l IH]; intros m h; cbn.
  { split; [done|]. by intros es ?%not_elem_of_nil. }
  destruct (IH (add_entities h1 es1 m) h) as [IH1 IH2].
  destruct (add_entities_le h1 es1 m h) as [H1 H2]. split; [by etrans|].
  intros es [[= -> ->]|Hin]%elem_of_cons; [|auto]. etrans; [by apply H2|done].
Qed.

Section Config.
Context {W : Type} `{HC : !Client W} `{HS : !Sched}.
Implicit Types i : infraClient W.

(** The entities of the address on the endpoint, in [b]. *)
Definition in_built i (a : MessagingAddress) (e : MessagingEndpoint) (b : Built) : Prop :=
  ∃ t1 t2 es m, buildRouterAddressEntities t1 i e a = Ok es ∧
    buildBrokerAddressEntities t2 i e a = Ok m ∧ es ⊆ router_entities b ∧
    ∀ h l, m !! h = Some l → l ⊆ default [] (broker_entities b !! h).

Lemma in_built_le i a e b b' : built_le b b' → in_built i a e b → in_built i a e b'.
Proof.
  intros [Hr Hb] (t1 & t2 & es & m & ? & ? & He & Hm). exists t1, t2, es, m.
  split_and!; [done..|by etrans|]. intros h l Hl. etrans; [by eapply Hm|done].
Qed.

Lemma build_address_spec t i a e b :
  built_le b (build_address t i a e b).1 ∧
  ((build_address t i a e b).2 = Ok () → in_built i a e (build_address t i a e b).1) ∧
  ((build_address t i a e b).2 = Panic →
     isEndpointActive e = true ∧ project_of i (Namespace (a_meta a)) = None).
Proof.
  unfold build_address, lift, mbind, prog_bind, modify.
  destruct (buildRouterAddressEntities (0 :: t) i e a) as [es| |] eqn:E1; cbn;
    [|done|split_and!; [done|done|by eauto using buildRouterAddress_panic]].
  destruct (buildBrokerAddressEntities (1 :: t) i e a) as [m| |] eqn:E2; cbn;
    [|done|by apply buildBrokerAddress_no_panic in E2].
  destruct (add_router_le es b) as [Hle1 Hin]. destruct (merge_le (2 :: t) m (add_router_entities es b))
    as [Hle2 Hm]. split_and!; [by etrans| |done]. intros _. exists (0 :: t), (1 :: t), es, m.
  do 2 (split; [done|]). split; [etrans; [exact Hin|apply Hle2]|done].
Qed.

(** A loop that only adds. *)
Lemma for_each_built {A} (f : A → prog Built ()) l b :
  (∀ a b, built_le b (f a b).1) →
  built_le b (for_each f l b).1 ∧
  ((for_each f l b).2 = Ok () → ∀ a, a ∈ l → ∃ b1, (f a b1).2 = Ok () ∧
     built_le (f a b1).1 (for_each f l b).1) ∧
  ((for_each f l b).2 = Panic → ∃ a b1, a ∈ l ∧ (f a b1).2 = Panic).
Proof.
  intros Hf. revert b. induction l as [|a l IH]; intros b.
  { cbn. split_and!; try done. by intros _ a ?%not_elem_of_nil. }
  cbn [for_each]. unfold mbind, prog_bind. pose proof (Hf a b) as H1.
  destruct (f a b) as [b1 [[]| |]] eqn:E; cbn in *.
  - destruct (IH b1) as (I1 & I2 & I3). split_and!; [by etrans| |].
    + intros Hok a' [->|Ha']%elem_of_cons; [|by apply I2]. exists b. by rewrite E.
    + intros (a' & b2 & ? & ?)%I3. exists a', b2. split; [by right|done].
  - done.
  - split_and!; [done..|]. intros _. exists a, b. rewrite E. split; [by left|done].
Qed.

(** ** Active endpoints *)

Definition active_in i (ns : string) (e : MessagingEndpoint) : Prop :=
  isEndpointActive e = true ∧ Namespace (e_meta e) = ns ∧
  ∃ k l, endpoints i !! k = Some l ∧ e = endpoint_at (heap i) l.

Lemma getActiveEndpoints_spec t i ns e :
  e ∈ default [] (getActiveEndpoints t i !! ns) ↔ active_in i ns e.
Proof.
  unfold getActiveEndpoints, active_in.
  transitivity (isEndpointActive e = true ∧ Namespace (e_meta e) = ns ∧
    ∃ l, l ∈ range_values t (endpoints i) ∧ e = endpoint_at (heap i) l).
  2: { setoid_rewrite elem_of_range_values. split; intros (? & ? & H); (split_and!; [done..|]).
    - destruct H as (l & [k ?] & ?). eauto.
    - destruct H as (k & l & ? & ?). eauto. }
  induction (range_values t (endpoints i)) as [|l ls IH] using rev_ind.
  { cbn. split; [by intros ?%not_elem_of_nil|]. by intros (_ & _ & l & ?%not_elem_of_nil & _). }
  rewrite foldl_snoc. setoid_rewrite elem_of_app. setoid_rewrite list_elem_of_singleton.
  set (m := foldl _ ∅ ls) in *. set (e1 := endpoint_at (heap i) l).
  assert (e ∈ default [] ((if isEndpointActive e1 then
     <[Namespace (e_meta e1) := default [] (m !! Namespace (e_meta e1)) ++ [e1]]> m else m) !! ns) ↔
     e ∈ default [] (m !! ns) ∨
     (isEndpointActive e1 = true ∧ Namespace (e_meta e1) = ns ∧ e = e1)) as ->.
  { destruct (isEndpointActive e1); [|naive_solver].
    destruct (decide (Namespace (e_meta e1) = ns)) as [->|Hne].
    - rewrite lookup_insert_eq. cbn. rewrite elem_of_app, list_elem_of_singleton. naive_solver.
    - rewrite lookup_insert_ne by done. naive_solver. }
  rewrite IH. split.
  - intros [(? & ? & l' & ? & ?)|(? & ? & ->)]; split_and!; eauto.
  - intros (? & ? & l' & [?| ->] & ->); [left|right]; eauto.
Qed.

(** ** The entities of a batch *)

Lemma build_request_le t i act r b : built_le b (build_request t i act r b).1.
Proof.
  unfold build_request. destruct (req_resource r) as [l|l|l|]; [|apply add_router_le..|done].
  case_match; [|done]. apply for_each_built. intros ne b1. apply build_address_spec.
Qed.

Lemma build_request_address t i act r l b :
  req_resource r = RAddress l →
  (build_request t i act r b).2 = Ok () →
  ∀ e, e ∈ default [] (act !! Namespace (a_meta (address_at (heap i) l))) →
  in_built i (address_at (heap i) l) e (build_request t i act r b).1.
Proof.
  intros Hr. unfold build_request. rewrite Hr. destruct (act !! _) as [es|]; [|done]. cbn.
  set (f := λ ne : nat * MessagingEndpoint, build_address (ne.1 :: t) i (address_at (heap i) l) ne.2).
  destruct (for_each_built f (imap (λ n e, (n, e)) es) b) as (_ & H & _).
  { intros ne b1. apply build_address_spec. }
  intros Hok e [n Hn]%list_elem_of_lookup.
  destruct (H Hok (n, e)) as (b1 & Ho & Hle).
  { apply (list_elem_of_lookup_2 _ n). by rewrite list_lookup_imap, Hn. }
  eapply in_built_le; [exact Hle|]. by apply build_address_spec.
Qed.

Lemma build_requests_built t act requests acc i i' built b :
  build_requests t act requests acc i = (i', Ok (built, b)) →
  built_le acc b ∧
  ∀ r, r ∈ built → ∃ t' acc', (build_request t' i act r acc').2 = Ok () ∧
    built_le (build_request t' i act r acc').1 b.
Proof.
  revert acc i i' built. induction requests as [|r rs IH]; intros acc i i' built; cbn [build_requests].
  { intros [= <- <- <-]. split; [done|]. by intros r ?%not_elem_of_nil. }
  pose proof (build_request_le (length rs :: t) i act r acc) as Hle.
  destruct (build_request (length rs :: t) i act r acc) as [acc1 [[]|e|]] eqn:E; [| |done]; cbn in Hle.
  - intros ([built1 b1] & i1 & E1 & E2)%prog_bind_Ok. cbn in E2. injection E2 as <- <- <-.
    destruct (IH _ _ _ _ E1) as [H1 H2]. split; [by etrans|].
    intros r' [->|Hr']%elem_of_cons; [|by apply H2].
    exists (length rs :: t), acc. rewrite E. done.
  - intros ([] & i1 & E1 & E2)%prog_bind_Ok. injection E1 as <-.
    destruct (IH _ _ _ _ E2) as [H1 H2]. split; [by etrans|]. done.
Qed.

(** ** The entities on the hosts *)

(** The router has an entity for [e]: one equal to it or, if [es] asks for two under
    one name, one of those. *)
Definition router_has (es : list RouterEntity) (r : RouterState W) (e : RouterEntity) : Prop :=
  ∃ x, cached r (Type_ e) (GetName e) = Some x ∧ (Equals x e = true ∨ (x ∈ es ∧ key x = key e)).

Definition broker_has (b : BrokerState W) (e : BrokerEntity) : Prop :=
  is_Some (b_cached b (bType e) (bGetName e)).

Lemma router_has_equal es r e : consistent es → e ∈ es → router_has es r e →
  ∃ x, cached r (Type_ e) (GetName e) = Some x ∧ Equals x e = true.
Proof.
  intros Hc He (x & Hx & [?|[? Hk]]); exists x; [done|]. split; [done|].
  rewrite (Hc x e); auto with go.
Qed.

(** A successful [syncEntities] leaves every entity on every host. *)
Lemma syncEntities_ok isRouter t b i i' :
  hosts_ok isRouter i → syncEntities t b i = (i', Ok ()) →
  (∀ h r, routers i' !! h = Some r → ∀ e, e ∈ router_entities b → router_has (router_entities b) r e) ∧
  (∀ h x, brokers i' !! h = Some x → ∀ e, e ∈ default [] (broker_entities b !! h) → broker_has x e).
Proof.
  intros Hi. unfold syncEntities. intros (bs & i1 & E1 & E2)%prog_bind_Ok.
  apply prog_bind_Ok in E2 as (rs & i2 & E2 & [= <-]).
  assert (routers i1 = routers i ∧ ∀ h x, brokers i1 !! h = Some x →
    ∀ e, e ∈ default [] (broker_entities b !! h) → broker_has x e) as [Hr1 Hb1].
  { clear E2. case_bool_decide as Hb; [|clear Hb].
    - assert (i1 = i) as -> by by injection E1. split; [done|]. intros h x _ e. rewrite Hb, lookup_empty.
      by intros ?%not_elem_of_nil.
    - apply applyBrokers_Ok in E1 as (-> & _ & Hb). split; [done|]. intros h x Hx e He.
      destruct (Hb h x Hx) as (n & s & [] & Hs & Ee & _).
      destruct (ho_brokers _ _ Hi _ _ Hs) as (Hh & Hw & _). rewrite Hh in Ee.
      destruct (default [] (broker_entities b !! h)) as [|e0 es0]; [by apply not_elem_of_nil in He|].
      by apply (bEnsure_spec _ _ _ _ Hw Ee). }
  clear E1. case_bool_decide as Hb; [|clear Hb].
  - assert (i2 = i1) as -> by by injection E2. split; [|done]. intros h r _ e. rewrite Hb. by intros ?%not_elem_of_nil.
  - apply applyRouters_Ok in E2 as (E2 & _ & Hr). split; [|rewrite E2; done]. intros h x Hx e He.
    destruct (Hr h x Hx) as (n & s & [] & Hs & Ee & _). by apply (Ensure_present _ _ _ _ Ee).
Qed.
End Config.

(** ** What an answer means *)

Section Answers.
Context {W : Type} `{HC : !Client W} `{HS : !Sched}.
Context (isRouter : string → bool).
Implicit Types i : infraClient W.

Lemma finish_sync_frame err r i :
  routers (finish_sync err r i).1 = routers i ∧ brokers (finish_sync err r i).1 = brokers i ∧
  heap (finish_sync err r i).1 = heap i ∧ (finish_sync err r i).2 = Ok ().
Proof. unfold finish_sync. by destruct (req_resource r), err. Qed.

Lemma finish_sync_all_frame err l i :
  routers (for_each (finish_sync err) l i).1 = routers i ∧
  brokers (for_each (finish_sync err) l i).1 = brokers i ∧
  heap (for_each (finish_sync err) l i).1 = heap i.
Proof.
  revert i. induction l as [|r l IH]; intros i; [done|]. cbn [for_each]. unfold mbind, prog_bind.
  destruct (finish_sync_frame err r i) as (H1 & H2 & H3 & H4).
  destruct (finish_sync err r i) as [i1 o]. cbn in *. subst o.
  destruct (IH i1) as (-> & -> & ->). done.
Qed.

(** The resource of a request is known to the client. *)
Definition recorded i (r : request) : Prop :=
  match req_resource r with
  | RAddress _ => is_Some (addresses i !! request_key i r)
  | REndpoint _ => is_Some (endpoints i !! request_key i r)
  | RProject _ => is_Some (projects i !! request_key i r)
  | ROther _ _ => False
  end.

Definition no_other (r : request) : Prop :=
  match req_resource r with ROther _ _ => False | _ => True end.

Lemma finish_sync_records r r' i :
  (no_other r → recorded (finish_sync None r i).1 r) ∧
  (recorded i r' → recorded (finish_sync None r i).1 r').
Proof.
  unfold no_other, recorded, finish_sync, request_key. split.
  - destruct (req_resource r); intros Hr; cbn; [by rewrite lookup_insert_eq..|done].
  - destruct (req_resource r), (req_resource r'); cbn; intros ?;
      try done; apply lookup_insert_is_Some'; auto.
Qed.

Lemma finish_sync_all_records l i r :
  Forall no_other l → (r ∈ l ∨ recorded i r) → recorded (for_each (finish_sync None) l i).1 r.
Proof.
  revert i. induction l as [|r1 l IH]; intros i Hl Hr.
  { destruct Hr as [?%not_elem_of_nil|?]; done. }
  apply list.Forall_cons in Hl as [H1 Hl]. cbn [for_each]. unfold mbind, prog_bind.
  destruct (finish_sync_frame None r1 i) as (_ & _ & _ & Hok).
  destruct (finish_sync_records r1 r i) as [Ha Hb].
  destruct (finish_sync None r1 i) as [i1 o]. cbn in *. subst o. apply IH; [done|].
  rewrite elem_of_cons in Hr. destruct Hr as [[->|?]|?]; auto.
Qed.

(** A request of an unknown type is never built. *)
Lemma built_no_other t act r i acc : (build_request t i act r acc).2 = Ok () → no_other r.
Proof. unfold build_request, no_other. by destruct (req_resource r). Qed.

(** The entities of an address are on every router and broker. *)
Definition address_configured i i' (es : list RouterEntity) (a : MessagingAddress)
    (e : MessagingEndpoint) : Prop :=
  ∃ t1 t2 res m, buildRouterAddressEntities t1 i e a = Ok res ∧
    buildBrokerAddressEntities t2 i e a = Ok m ∧ res ⊆ es ∧
    (∀ h r, routers i' !! h = Some r → ∀ x, x ∈ res → router_has es r x) ∧
    (∀ h b, brokers i' !! h = Some b → ∀ x, x ∈ default [] (m !! h) → broker_has b x).

Lemma in_built_configured i i' a e b :
  in_built i a e b →
  (∀ h r, routers i' !! h = Some r → ∀ x, x ∈ router_entities b → router_has (router_entities b) r x) →
  (∀ h x, brokers i' !! h = Some x → ∀ y, y ∈ default [] (broker_entities b !! h) → broker_has x y) →
  address_configured i i' (router_entities b) a e.
Proof.
  intros (t1 & t2 & res & m & H1 & H2 & Hres & Hm) Hr Hb. exists t1, t2, res, m.
  split_and!; [done..|by eauto|]. intros h x Hx y Hy. apply (Hb h x Hx).
  destruct (m !! h) as [l|] eqn:E; [by apply (Hm h l E)|by apply not_elem_of_nil in Hy].
Qed.

Lemma NoDup_fmap_inj {A B} (f : A → B) l x y :
  NoDup (f <$> l) → x ∈ l → y ∈ l → f x = f y → x = y.
Proof.
  intros Hnd [a Ha]%list_elem_of_lookup [b Hb]%list_elem_of_lookup E.
  assert (a = b) as ->; [|congruence].
  eapply NoDup_lookup; [exact Hnd|by rewrite list_lookup_fmap, Ha|].
  by rewrite list_lookup_fmap, Hb, E.
Qed.

(** A nil answer comes from the end of a batch that could be applied. *)
Lemma nil_answer requests built rs o r :
  NoDup (done_chan <$> requests) → built ⊆ requests → Forall no_other built →
  Forall (λ x : nat * option error, x.2 ≠ None) rs → o ≠ Panic →
  r ∈ requests → (done_chan r, None) ∈ rs ++ (final_answer (err_of o) <$> built) →
  r ∈ built ∧ o = @Ok () ().
Proof.
  intros Hnd Hsub Hno Herr Ho Hreq [Hin|(r' & E & Hr')%list_elem_of_fmap]%elem_of_app.
  { rewrite Forall_forall in Herr. by apply Herr in Hin. }
  unfold final_answer in E. injection E as Ed Ee.
  assert (r = r') as -> by (eapply NoDup_fmap_inj; eauto).
  rewrite Forall_forall in Hno. pose proof (Hno r' Hr') as Hn. unfold no_other in Hn.
  split; [done|]. destruct (req_resource r'); [by destruct o as [[]| |]..|done].
Qed.

(** A batch that could not be applied records nothing. *)
Lemma finish_sync_all_err e l i :
  addresses (for_each (finish_sync (Some e)) l i).1 = addresses i ∧
  endpoints (for_each (finish_sync (Some e)) l i).1 = endpoints i ∧
  projects (for_each (finish_sync (Some e)) l i).1 = projects i.
Proof.
  apply (for_each_inv (λ i', addresses i' = addresses i ∧ endpoints i' = endpoints i ∧
    projects i' = projects i)); [done|].
  intros r i' _ (<- & <- & <-). unfold finish_sync. by destruct (req_resource r).
Qed.

(** What [doSync] promises of a batch: the answers, what they mean when they are
    not an error, and that the resources stay as they are when they are. *)
Lemma doSync_spec t requests i i' :
  hosts_ok isRouter i → i_initialized i = true → NoDup (done_chan <$> requests) →
  doSync t requests i = (i', Ok ()) →
  ∃ rs es, replies i' = replies i ++ rs ∧ heap i' = heap i ∧
    (∀ r, r ∈ requests → (done_chan r, None) ∈ rs → recorded i' r ∧
       ∀ l, req_resource r = RAddress l → ∀ e,
         active_in i (Namespace (a_meta (address_at (heap i) l))) e →
         address_configured i i' es (address_at (heap i) l) e) ∧
    ((∀ r, r ∈ requests → (done_chan r, None) ∉ rs) →
       addresses i' = addresses i ∧ endpoints i' = endpoints i ∧ projects i' = projects i).
Proof.
  intros Hi Hini Hnd E. unfold doSync in E. destruct (decide (requests = [])) as [->|Hne].
  { injection E as <-. exists [], []. rewrite app_nil_r. split_and!; try done.
    by intros r ?%not_elem_of_nil. }
  destruct (do_batch_run t check_sync syncEntities finish_sync ignores_check_sync
    syncEntities_hosts finish_sync_answers _ _ _ _ Hne Hini E)
    as (rs & built & b & i2 & o2 & Hbuild & Hsub & Hperm & Herr & Happ & Ho2 & Hh & Hfin & _ & Hrep);
    [done|].
  set (i1 := set_replies (replies i ++ rs) i) in *.
  pose proof (finish_sync_all_frame (err_of o2) built i2) as (Hr & Hb & Hheap).
  rewrite Hfin in Hr, Hb, Hheap. cbn in Hr, Hb, Hheap.
  exists (rs ++ (final_answer (err_of o2) <$> built)), (router_entities b).
  split; [done|]. split; [by rewrite Hheap, Hh|]. unfold buildEntities in Hbuild.
  destruct (build_requests_built _ _ _ _ _ _ _ _ Hbuild) as [_ Hin].
  assert (Forall no_other built) as Hno.
  { apply Forall_forall. intros r (t' & acc & Hok & _)%Hin. by eapply built_no_other. }
  assert (built ⊆ requests) as Hsub'.
  { intros r Hr'%(sublist_subseteq _ _ Hsub). by apply list_elem_of_filter in Hr' as [_ ?]. }
  pose proof (λ r, nil_answer requests built rs o2 r Hnd Hsub' Hno Herr Ho2) as Hnil. split.
  - intros r Hreq Hans. destruct (Hnil r Hreq Hans) as [Hrb ->]. cbn [err_of] in *.
    destruct (syncEntities_ok isRouter _ _ _ _ (hosts_ok_frame isRouter i i1 eq_refl eq_refl eq_refl
      eq_refl eq_refl Hi) Happ) as [Hrs Hbs].
    split.
    + pose proof (finish_sync_all_records built i2 r Hno (or_introl Hrb)) as H. by rewrite Hfin in H.
    + intros l Hl e Hact. destruct (Hin r Hrb) as (t' & acc & Hok & Hle).
      apply (in_built_configured i i' _ e b); [|rewrite Hr; done|rewrite Hb; done].
      eapply in_built_le; [exact Hle|].
      apply (build_request_address t' i (getActiveEndpoints (0 :: 0 :: t) i) r l acc); [done|done|].
      by apply getActiveEndpoints_spec.
  - intros Hnone. pose proof (f_equal fst Hfin) as Hi'. cbn in Hi'. rewrite <-Hi'.
    destruct o2 as [[]|e|]; [|cbn [err_of]; destruct (finish_sync_all_err e built i2) as (-> & -> & ->);
      by rewrite Hh|done].
    destruct built as [|r0 built]; [by cbn; rewrite Hh|]. exfalso.
    apply (Hnone r0); [apply Hsub'; by left|]. apply elem_of_app. right.
    rewrite fmap_cons. apply elem_of_cons. left.
    apply list.Forall_cons in Hno as [Hno _]. unfold final_answer, no_other in *.
    by destruct (req_resource r0).
Qed.
End Answers.
