(* ===== verification/SyncAllFacts.v ===== *)
(** What [SyncAll] establishes, and that the invariants survive it whatever its
    outcome. *)
From stdpp Require Import base functions fin_maps gmap strings list.
From S2P Require Import Prelude Go Client RouterTypes Router RouterFacts ApiV1.
From S2P Require Import BrokerTypes Broker BrokerFacts HostFacts Names Ports Scheduler.
From S2P Require Import Infra InfraFacts Entities EntityFacts Sync SyncFacts.
From S2P Require Import ConfigFacts.

Section SyncAll.
Context {W : Type} `{HC : !Client W} `{HS : !Sched}.
Context (isRouter : string → bool).
Implicit Types i : infraClient W.

(** ** The invariant of the hosts *)

Lemma Ensure_keeps t es n (r : RouterState W) :
  wf r → wf (EnsureEntities (n :: t) es r).1 ∧ host (EnsureEntities (n :: t) es r).1 = host r.
Proof.
  intros Hr. split; [by apply Ensure_wf|].
  pose proof (Ensure_address (n :: t) es r) as E. unfold address_of in E. congruence.
Qed.

Lemma bEnsure_keeps t es (b : BrokerState W) :
  b_wf b → b_wf (bEnsureEntities t es b).1 ∧ b_host (bEnsureEntities t es b).1 = b_host b.
Proof.
  intros Hb. split; [by apply bEnsure_wf|].
  pose proof (bEnsure_address t es b) as E. unfold b_address_of in E. congruence.
Qed.

Lemma checkResync_ok i : hosts_ok isRouter i → hosts_ok isRouter (checkResync i).
Proof.
  intros Hi. unfold checkResync. apply set_brokers_ok; [apply set_routers_ok; [done|..]|..]; cbn.
  - intros h. by rewrite lookup_fmap, fmap_is_Some.
  - intros h r. rewrite lookup_fmap_Some. intros (r0 & <- & H0).
    destruct (ho_routers _ _ Hi _ _ H0) as (Hh & Hw & Hn). case_bool_decide; [|done].
    pose proof (Reset_address r0) as E. unfold address_of in E.
    split_and!; [congruence|by apply Reset_wf|done].
  - intros h. by rewrite lookup_fmap, fmap_is_Some.
  - intros h b. rewrite lookup_fmap_Some. intros (b0 & <- & H0).
    destruct (ho_brokers _ _ Hi _ _ H0) as (Hh & Hw & Hn). case_bool_decide; [|done].
    pose proof (bReset_address b0) as E. unfold b_address_of in E.
    split_and!; [congruence|by apply bReset_wf|done].
Qed.

Lemma initialize_ok t i : hosts_ok isRouter i → hosts_ok isRouter (initialize t i).1.
Proof.
  intros Hi. unfold initialize. cbv zeta. apply bind_inv.
  - apply applyRouters_ok; [|done]. intros n r Hr. split; [by apply Initialize_wf|].
    pose proof (Initialize_address (randomResync (n :: 1 :: t) i (clock i)) r) as E.
    unfold address_of in E. congruence.
  - intros _ i1 H1. apply bind_inv; [|done]. apply applyBrokers_ok; [|done].
    intros n b Hb. split; [by apply bInitialize_wf|].
    pose proof (bInitialize_address (n :: 4 :: t) (randomResync (n :: 3 :: t) i (clock i)) b) as E.
    unfold b_address_of in E. congruence.
Qed.

Lemma syncEntities_keeps t b i : hosts_ok isRouter i → hosts_ok isRouter (syncEntities t b i).1.
Proof.
  intros Hi. unfold syncEntities. apply bind_inv.
  - case_bool_decide; [done|]. apply applyBrokers_ok; [|done]. intros n x Hx.
    case_match; [done|by apply bEnsure_keeps].
  - intros _ i1 H1. apply bind_inv; [|done]. case_bool_decide; [done|].
    apply applyRouters_ok; [|done]. intros n r Hr. by apply Ensure_keeps.
Qed.

Lemma deleteEntities_keeps t b i : hosts_ok isRouter i → hosts_ok isRouter (deleteEntities t b i).1.
Proof.
  intros Hi. unfold deleteEntities. apply bind_inv.
  - apply applyRouters_ok; [|done]. intros n r Hr. split; [by apply Delete_wf|].
    pose proof (Delete_address (n :: 1 :: t) (router_entities b) r) as E. unfold address_of in E.
    congruence.
  - intros _ i1 H1. apply bind_inv; [|done]. apply applyBrokers_ok; [|done].
    intros n x Hx. split; [by apply bDelete_wf|].
    pose proof (bDelete_address (n :: 3 :: t) (default [] (broker_entities b !! b_host x)) x) as E.
    unfold b_address_of in E. congruence.
Qed.

Lemma syncConfiguration_keeps t i :
  hosts_ok isRouter i → hosts_ok isRouter (syncConfiguration t i).1.
Proof.
  intros Hi. unfold syncConfiguration. cbv zeta. set (i1 := set_ports _ i).
  assert (hosts_ok isRouter i1) by by apply (hosts_ok_frame isRouter i).
  destruct (build_configuration _ i1 _) as [b [[]| |]]; [|done..]. by apply syncEntities_keeps.
Qed.

Lemma connect_router_keeps t cs (r : RouterState W) :
  wf r → wf (connect_router t cs r).1 ∧ host (connect_router t cs r).1 = host r.
Proof.
  intros Hr. unfold connect_router.
  apply (bind_inv (λ r', wf r' ∧ host r' = host r)); [by apply Ensure_keeps|].
  intros _ r1 [H1 E1]. apply (bind_inv (λ r', wf r' ∧ host r' = host r)); [|done].
  split; [by apply Read_wf|]. pose proof (Read_address (1 :: t) cs r1) as E. unfold address_of in E.
  congruence.
Qed.

(** The invariant survives [SyncAll], whatever its outcome. *)
Lemma SyncAll_hosts t rh bh tls i :
  hosts_ok isRouter i →
  (∀ h, h ∈ rh → isRouter (Hostname h) = true) → (∀ h, h ∈ bh → isRouter (Hostname h) = false) →
  hosts_ok isRouter (SyncAll t rh bh tls i).1.
Proof.
  intros Hi Hrh Hbh. unfold SyncAll.
  apply bind_inv; [by apply (hosts_ok_frame isRouter i)|intros _ i1 H1].
  apply bind_inv; [by apply updateRouters_ok|intros _ i2 H2].
  apply bind_inv; [by apply updateBrokers_ok|intros _ i3 H3].
  apply bind_inv; [cbn; case_match; [by apply checkResync_ok|done]|intros _ i4 H4].
  apply bind_inv; [by apply initialize_ok|intros _ i5 H5].
  apply bind_inv; [by apply syncConfiguration_keeps|intros _ i6 H6].
  apply bind_inv; [done|intros cs i7 H7].
  apply bind_inv; [apply applyRouters_ok; [intros n r; apply connect_router_keeps|done]|intros sts i8 H8].
  apply bind_inv; [apply applyBrokers_ok; [intros n r; apply bEnsure_keeps|done]|intros _ i9 H9].
  apply bind_inv; [apply applyRouters_ok; [intros n r; apply Ensure_keeps|done]|intros _ i10 H10].
  apply bind_inv; [by apply (hosts_ok_frame isRouter i10)|done].
Qed.

(** ** The resources *)

(** The resources and the ports are as before, up to what [initPorts] binds. *)
Record resources_kept i i' : Prop := {
  rk_addresses : addresses i' = addresses i;
  rk_endpoints : endpoints i' = endpoints i;
  rk_projects : projects i' = projects i;
  rk_heap : heap i' = heap i;
  rk_replies : replies i' = replies i;
  rk_ports : ports_wf (ports i) → ports_wf (ports i');
}.

#[global] Instance resources_kept_preorder : PreOrder resources_kept.
Proof.
  split; [by split|]. intros i1 i2 i3 [] []. split; try congruence. auto.
Qed.

Lemma hosts_only_kept i i' : hosts_only i i' → resources_kept i i'.
Proof. by intros ->. Qed.

Lemma bind_kept {A B} (p : prog (infraClient W) A) (k : A → prog (infraClient W) B) i :
  resources_kept i (p i).1 → (∀ a i, resources_kept i (k a i).1) → resources_kept i ((p ≫= k) i).1.
Proof.
  intros Hp Hk. apply (bind_inv (resources_kept i)); [done|]. intros a i1 H1.
  etrans; [exact H1|apply Hk].
Qed.

Lemma for_each_kept {A} (f : A → prog (infraClient W) ()) l i :
  (∀ a i, resources_kept i (f a i).1) → resources_kept i (for_each f l i).1.
Proof.
  intros Hf. apply (for_each_inv (resources_kept i)); [done|]. intros a i1 _ H1.
  etrans; [exact H1|apply Hf].
Qed.

Lemma updateRouters_kept t hosts i : resources_kept i (updateRouters t hosts i).1.
Proof.
  unfold updateRouters. destruct (foldl sort_host _ _) as [toAdd toRemove].
  apply bind_kept; [|intros _ i1]; apply for_each_kept; intros e i2; [|by split].
  unfold remove_router. by case_match.
Qed.

Lemma updateBrokers_kept t hosts flag i : resources_kept i (updateBrokers t hosts flag i).1.
Proof.
  unfold updateBrokers. destruct (foldl sort_host _ _) as [toAdd toRemove].
  apply bind_kept; [|intros _ i1; apply for_each_kept; intros e i2; by split].
  apply for_each_kept. intros e i1. unfold remove_broker. case_match; [|done].
  apply bind_kept; [|intros _ i2; by split].
  case_match; [apply hosts_only_kept, applyRouters_hosts|done].
Qed.

Lemma syncConfiguration_kept t i : resources_kept i (syncConfiguration t i).1.
Proof.
  unfold syncConfiguration. cbv zeta. set (i1 := set_ports _ i).
  assert (resources_kept i i1) as H1. { split; try done. cbn. apply initPorts_wf. }
  destruct (build_configuration _ i1 _) as [b [[]| |]]; [|done..].
  etrans; [exact H1|]. apply hosts_only_kept, syncEntities_hosts.
Qed.

Lemma initialize_kept t i : resources_kept i (initialize t i).1.
Proof.
  unfold initialize. cbv zeta. apply bind_kept; [apply hosts_only_kept, applyRouters_hosts|].
  intros _ i1. apply bind_kept; [apply hosts_only_kept, applyBrokers_hosts|done].
Qed.

Lemma SyncAll_kept t rh bh tls i : resources_kept i (SyncAll t rh bh tls i).1.
Proof.
  unfold SyncAll.
  apply bind_kept; [by split|intros _ i1].
  apply bind_kept; [apply updateRouters_kept|intros _ i2].
  apply bind_kept; [apply updateBrokers_kept|intros _ i3].
  apply bind_kept; [cbn; by case_match|intros _ i4].
  apply bind_kept; [apply initialize_kept|intros _ i5].
  apply bind_kept; [apply syncConfiguration_kept|intros _ i6].
  apply bind_kept; [done|intros cs i7].
  apply bind_kept; [apply hosts_only_kept, applyRouters_hosts|intros sts i8].
  apply bind_kept; [apply hosts_only_kept, applyBrokers_hosts|intros _ i9].
  apply bind_kept; [apply hosts_only_kept, applyRouters_hosts|intros _ i10].
  apply bind_kept; [by split|done].
Qed.

Lemma resources_kept_keys i i' : resources_kept i i' → keys_ok i → keys_ok i'.
Proof. intros []. apply keys_ok_frame; try done. by rewrite rk_heap0. Qed.

(** ** Success *)

(** The same hosts are known. *)
Definition same_hosts i i' : Prop :=
  (∀ h, is_Some (routers i' !! h) ↔ is_Some (routers i !! h)) ∧
  (∀ h, is_Some (brokers i' !! h) ↔ is_Some (brokers i !! h)).

#[global] Instance same_hosts_preorder : PreOrder same_hosts.
Proof.
  split; [by split|]. intros i1 i2 i3 [H1 H2] [H3 H4].
  split; intros h; [by rewrite H3|by rewrite H4].
Qed.

Lemma applyRouters_same {B} t (fn : nat → prog (RouterState W) B) i :
  same_hosts i (applyRouters t fn i).1.
Proof.
  unfold applyRouters. pose proof (apply_hosts_dom t fn (routers i)) as Hd.
  by destruct (apply_hosts t fn (routers i)).
Qed.

Lemma applyBrokers_same {B} t (fn : nat → prog (BrokerState W) B) i :
  same_hosts i (applyBrokers t fn i).1.
Proof.
  unfold applyBrokers. pose proof (apply_hosts_dom t fn (brokers i)) as Hd.
  by destruct (apply_hosts t fn (brokers i)).
Qed.

Lemma bind_same {A B} (p : prog (infraClient W) A) (k : A → prog (infraClient W) B) i :
  same_hosts i (p i).1 → (∀ a i, same_hosts i (k a i).1) → same_hosts i ((p ≫= k) i).1.
Proof.
  intros Hp Hk. apply (bind_inv (same_hosts i)); [done|]. intros a i1 H1.
  etrans; [exact H1|apply Hk].
Qed.

Lemma initialize_same t i : same_hosts i (initialize t i).1.
Proof.
  unfold initialize. cbv zeta. apply bind_same; [apply applyRouters_same|]. intros _ i1.
  apply bind_same; [apply applyBrokers_same|done].
Qed.

Lemma syncConfiguration_same t i : same_hosts i (syncConfiguration t i).1.
Proof.
  unfold syncConfiguration. cbv zeta. set (i1 := set_ports _ i).
  destruct (build_configuration _ i1 _) as [b [[]| |]]; [|done..].
  change (same_hosts i1 (syncEntities (2 :: t) b i1).1). unfold syncEntities.
  apply bind_same; [case_bool_decide; [done|apply applyBrokers_same]|]. intros _ i2.
  apply bind_same; [case_bool_decide; [done|apply applyRouters_same]|done].
Qed.

Lemma checkResync_same i : same_hosts i (checkResync i).
Proof. split; intros h; cbn; by rewrite lookup_fmap, fmap_is_Some. Qed.

(** The hosts after the two updates. *)
Lemma update_hosts t rh bh i1 i2 i3 :
  hosts_ok isRouter i1 → (∀ h, h ∈ rh → isRouter (Hostname h) = true) →
  updateRouters (0 :: t) rh i1 = (i2, Ok ()) → updateBrokers (1 :: t) bh true i2 = (i3, Ok ()) →
  (∀ h, is_Some (routers i3 !! h) ↔ wanted rh !! Hostname h = Some h) ∧
  (∀ h, is_Some (brokers i3 !! h) ↔ wanted bh !! Hostname h = Some h).
Proof.
  intros Hi Hrh E1 E2.
  pose proof (updateRouters_ok isRouter (0 :: t) rh i1 Hi Hrh) as H2. rewrite E1 in H2. cbn in H2.
  destruct (updateRouters_spec (0 :: t) rh i1 (ho_rindex _ _ Hi)) as (rs & hm & E & Hrs & _).
  rewrite E in E1. injection E1 as <-.
  destruct (updateBrokers_spec (1 :: t) bh true _ (ho_bindex _ _ H2))
    as (rs' & bs & hm' & o & E' & [Hd _] & _ & _ & _ & Hbs).
  rewrite E' in E2. injection E2 as <- ->. rewrite decide_True in Hbs by done. cbn in *. split.
  - intros h. rewrite Hd, Hrs. unfold updated. destruct (decide _); [by split|].
    split; [by intros []|done].
  - intros h. rewrite Hbs. unfold updated. destruct (decide _); [by split|].
    split; [by intros []|done].
Qed.

(** A router that was connected: the connectors are there and each was reported. *)
Lemma connect_router_Ok t cs (r r' : RouterState W) sts :
  connect_router t cs r = (r', Ok sts) →
  initialized r' = true ∧ length sts = length cs ∧
  (∀ e, e ∈ cs → is_Some (cached r' (Type_ e) (GetName e))).
Proof.
  unfold connect_router. intros ([] & r1 & E1 & E2)%prog_bind_Ok.
  apply prog_bind_Ok in E2 as (l & r2 & E2 & [= <- E3]).
  destruct (Ensure_present _ _ _ _ E1) as (_ & _ & He & _).
  destruct (Read_length _ _ _ _ _ E2) as (_ & Hi & Hl & Hc).
  apply map_outcome_Ok, Forall2_length in E3. split_and!; [done|lia|].
  intros e (x & Hx & _)%He. rewrite Hc. by exists x.
Qed.

Lemma length_concat_const {A} (ls : list (list A)) n :
  (∀ l, l ∈ ls → length l = n) → length (concat ls) = length ls * n.
Proof.
  induction ls as [|l ls IH]; intros Hl; [done|]. cbn. rewrite length_app, Hl by by left.
  rewrite IH; [done|]. intros l' Hl'. apply Hl. by right.
Qed.

Lemma size_dom_eq {A B} (m1 : gmap Host A) (m2 : gmap Host B) :
  (∀ h, is_Some (m1 !! h) ↔ is_Some (m2 !! h)) → size m1 = size m2.
Proof.
  intros Hd. rewrite <-!size_dom. f_equal. apply set_eq. intros h. by rewrite !elem_of_dom.
Qed.

(** The end of [SyncAll]: connect, then open the readiness probes. *)
Lemma connect_all t i6 i8 i9 i10 sts x y :
  applyRouters (5 :: t) (λ n, connect_router (n :: 6 :: t) (broker_connectors (4 :: t) i6)) i6
    = (i8, Ok sts) →
  applyBrokers (7 :: t) (λ n, bEnsureEntities (n :: 8 :: t) [BQueue readinessQueue]) i8 = (i9, Ok x) →
  applyRouters (9 :: t) (λ n, EnsureEntities (n :: 10 :: t) [EListener readinessListener]) i9
    = (i10, Ok y) →
  hosts_ok isRouter i8 →
  same_hosts i6 i10 ∧ length (concat sts) = size (routers i10) * size (brokers i10) ∧
  (∀ h r, routers i10 !! h = Some r →
     initialized r = true ∧ is_Some (cached r RouterListenerEntity "readiness") ∧
     ∀ h' b, brokers i10 !! h' = Some b → is_Some (cached r RouterConnectorEntity (connector_of b))) ∧
  (∀ h b, brokers i10 !! h = Some b →
     b_initialized b = true ∧ is_Some (b_cached b BrokerQueueEntity "readiness")).
Proof.
  intros E1 E2 E3 H8.
  assert (length sts = size (routers i6) ∧
    ∀ l, l ∈ sts → length l = size (brokers i6)) as [Hn Hl].
  { unfold applyRouters in E1. pose proof (apply_hosts_spec (5 :: t)
      (λ n, connect_router (n :: 6 :: t) (broker_connectors (4 :: t) i6)) (routers i6)) as Hs.
    destruct (apply_hosts _ _ _) as [m o]. injection E1 as _ ->.
    destruct Hs as (_ & _ & Hv & ->). split; [done|]. intros l (n & h & r & _ & Hok)%Hv.
    destruct (connect_router _ _ r) as [r' o] eqn:Ec. cbn in Hok. subst o.
    apply connect_router_Ok in Ec as (_ & -> & _). unfold broker_connectors.
    rewrite length_fmap. unfold range_values. by rewrite length_fmap, length_range. }
  apply applyRouters_Ok in E1 as (E1 & Hd1 & Hr1). apply applyBrokers_Ok in E2 as (E2 & Hd2 & Hb2).
  apply applyRouters_Ok in E3 as (E3 & Hd3 & Hr3).
  rewrite E2 in Hd3, Hr3. rewrite E1 in Hd2, Hb2. cbn in Hd2, Hb2, Hd3, Hr3.
  assert (brokers i10 = brokers i9) as Eb by by rewrite E3.
  split; [split; intros h; [by rewrite Hd3, Hd1|by rewrite Eb, Hd2]|]. split_and!.
  - rewrite (length_concat_const _ _ Hl), Hn. f_equal; apply size_dom_eq; intros h.
    + by rewrite Hd3, Hd1.
    + by rewrite Eb, Hd2.
  - intros h r Hr. destruct (Hr3 h r Hr) as (n & r1 & [] & H1 & Ee & _).
    destruct (Hr1 h r1 H1) as (n0 & r0 & s & _ & Ec & _).
    destruct (Ensure_present _ _ _ _ Ee) as (_ & Hi & Hes & Hk).
    split; [done|]. split.
    + destruct (Hes (EListener readinessListener)) as (x0 & Hx & _); [by left|]. by exists x0.
    + intros h' b Hb. rewrite Eb in Hb. destruct (Hb2 h' b Hb) as (n1 & b1 & [] & Hb1 & Ebb & _).
      pose proof (bEnsure_address (n1 :: 8 :: t) [BQueue readinessQueue] b1) as Ea. rewrite Ebb in Ea.
      unfold b_address_of in Ea. cbn in Ea. injection Ea as Ea1 Ea2.
      destruct (connect_router_Ok _ _ _ _ _ Ec) as (_ & _ & Hc).
      set (e := EConnector (new_connector (connector_of b1) (Hostname (b_host b1)) (fmt_d (b_port b1)))).
      assert (e ∈ broker_connectors (4 :: t) i6) as He.
      { apply list_elem_of_fmap. exists b1. split; [done|]. apply elem_of_range_values. by exists h'. }
      destruct (Hc e He) as [c Hcc]. exists c. unfold connector_of. rewrite Ea1, Ea2.
      rewrite Hk; [exact Hcc|]. left.
      intros Hno. pose proof (eq_trans (eq_sym Hcc) Hno). done.
  - intros h b Hb. rewrite Eb in Hb. destruct (Hb2 h b Hb) as (n & b0 & [] & Hb0 & Ee & _).
    assert (brokers i8 !! h = Some b0) as Hb8 by by rewrite E1.
    destruct (ho_brokers _ _ H8 _ _ Hb8) as (_ & Hw & _).
    destruct (bEnsure_spec _ _ _ _ Hw Ee) as (_ & Hi & Hes & _). split; [done|].
    apply (Hes (BQueue readinessQueue)). by left.
Qed.

(** What a successful [SyncAll] establishes. *)
Lemma SyncAll_spec t rh bh tls i i' sts :
  hosts_ok isRouter i →
  (∀ h, h ∈ rh → isRouter (Hostname h) = true) → (∀ h, h ∈ bh → isRouter (Hostname h) = false) →
  SyncAll t rh bh tls i = (i', Ok sts) →
  i_initialized i' = true ∧ length sts = size (routers i') * size (brokers i') ∧
  (∀ h, is_Some (routers i' !! h) ↔ wanted rh !! Hostname h = Some h) ∧
  (∀ h, is_Some (brokers i' !! h) ↔ wanted bh !! Hostname h = Some h) ∧
  (∀ h r, routers i' !! h = Some r →
     initialized r = true ∧ is_Some (cached r RouterListenerEntity "readiness") ∧
     ∀ h' b, brokers i' !! h' = Some b → is_Some (cached r RouterConnectorEntity (connector_of b))) ∧
  (∀ h b, brokers i' !! h = Some b →
     b_initialized b = true ∧ is_Some (b_cached b BrokerQueueEntity "readiness")).
Proof.
  intros Hi Hrh Hbh. unfold SyncAll.
  intros ([] & i1 & E1 & E)%prog_bind_Ok. injection E1 as <-.
  apply prog_bind_Ok in E as ([] & i2 & E2 & E). apply prog_bind_Ok in E as ([] & i3 & E3 & E).
  apply prog_bind_Ok in E as ([] & i4 & E4 & E). apply prog_bind_Ok in E as ([] & i5 & E5 & E).
  apply prog_bind_Ok in E as ([] & i6 & E6 & E). apply prog_bind_Ok in E as (cs & i7 & E7 & E).
  injection E7 as <- <-.
  apply prog_bind_Ok in E as (ss & i8 & E8 & E). apply prog_bind_Ok in E as (x & i9 & E9 & E).
  apply prog_bind_Ok in E as (y & i10 & E10 & E). apply prog_bind_Ok in E as ([] & i11 & E11 & E).
  injection E11 as <-. injection E as <- <-.
  assert (hosts_ok isRouter (set_tlsConfig tls i)) as H1 by by apply (hosts_ok_frame isRouter i).
  destruct (update_hosts _ _ _ _ _ _ H1 Hrh E2 E3) as [Hr3 Hb3].
  pose proof (updateRouters_ok isRouter (0 :: t) rh _ H1 Hrh) as H2. rewrite E2 in H2.
  pose proof (updateBrokers_ok isRouter (1 :: t) bh true i2 H2 Hbh) as H3. rewrite E3 in H3.
  assert (hosts_ok isRouter i4 ∧ same_hosts i3 i4) as [H4 S4].
  { injection E4 as <-. case_match; [split; [by apply checkResync_ok|apply checkResync_same]|done]. }
  pose proof (initialize_ok (2 :: t) i4 H4) as H5. pose proof (initialize_same (2 :: t) i4) as S5.
  rewrite E5 in H5, S5. pose proof (syncConfiguration_keeps (3 :: t) i5 H5) as H6.
  pose proof (syncConfiguration_same (3 :: t) i5) as S6. rewrite E6 in H6, S6. cbn in H6, S6.
  pose proof (applyRouters_ok isRouter (5 :: t) (λ n, connect_router (n :: 6 :: t)
    (broker_connectors (4 :: t) i6)) i6 (λ n r, connect_router_keeps _ _ r) H6) as H8.
  rewrite E8 in H8. cbn in H8.
  destruct (connect_all _ _ _ _ _ _ _ _ E8 E9 E10 H8) as (S10 & Hlen & Hr & Hb).
  assert (same_hosts i3 i10) as [S7 S8] by (etrans; [exact S4|]; etrans; [exact S5|]; by etrans).
  cbn. split_and!; try done.
  - by rewrite perm_ok.
  - intros h. by rewrite S7, Hr3.
  - intros h. by rewrite S8, Hb3.
Qed.

(** ** Building the configuration never panics *)

Lemma build_configuration_no_panic t i b : keys_ok i → (build_configuration t i b).2 ≠ Panic.
Proof.
  intros Hk Hp. unfold build_configuration in Hp.
  assert (∀ nl b, built_le b (build_endpoint (nl.1 :: 1 :: t) i (endpoint_at (heap i) nl.2) b).1 ∧
    (build_endpoint (nl.1 :: 1 :: t) i (endpoint_at (heap i) nl.2) b).2 ≠ Panic) as He.
  { intros nl b0. unfold build_endpoint. destruct (isEndpointActive _) eqn:Ea; [|done].
    set (f := λ nl0 : nat * loc, _). assert (∀ x b, built_le b (f x b).1) as Hf.
    { intros x b1. unfold f. case_bool_decide; [|done]. apply build_address_spec. }
    destruct (for_each_built f (imap (λ n l, (n, l)) (range_values (1 :: nl.1 :: 1 :: t) (addresses i)))
      b0 Hf) as (Hle & _ & Hpan).
    unfold mbind, prog_bind. destruct (for_each f _ b0) as [b1 [[]|e|]]; cbn in *.
    - split; [|done]. etrans; [exact Hle|]. apply add_router_le.
    - done.
    - split; [done|]. intros _. destruct (Hpan eq_refl) as (x & b2 & Hx & Hfx).
      apply elem_of_lookup_imap_1 in Hx as (n & l & -> & Hl).
      apply list_elem_of_lookup_2, elem_of_range_values in Hl as [k Hl].
      unfold f in Hfx. cbn in Hfx. case_bool_decide; [|done].
      apply build_address_spec in Hfx as [_ Hno]. unfold project_of in Hno.
      pose proof (ko_address _ Hk _ _ Hl) as Hkey. apply fmap_None in Hno.
      destruct (ko_owner _ Hk k) as [p Hp']; [by exists l|]. rewrite <-Hkey in Hp'. cbn in Hp'.
      congruence. }
  apply (for_each_built _ _ b (λ nl b, proj1 (He nl b))) in Hp as (nl & b1 & _ & Hp).
  by apply He in Hp.
Qed.
End SyncAll.
