(* ===== verification/Safety.v ===== *)
(** The workers do not crash: when the peers answer requests in the documented
    form, no type assertion, nil dereference or write to a nil map of [doSync] or
    [doDelete] fails, so every batch is carried out and answered. *)
From stdpp Require Import base functions fin_maps gmap strings list.
From S2P Require Import Prelude Go Client RouterTypes Router RouterFacts ApiV1.
From S2P Require Import BrokerTypes Broker BrokerFacts Names Ports Scheduler Infra.
From S2P Require Import Entities Sync HostFacts InfraFacts EntityFacts SyncFacts.
From S2P Require Import ConfigFacts SyncAllFacts.

(** What the code relies on: a request returns a response or an error, and where a
    response carries the broker's success flag, the flag is a boolean. *)
Class SafeClient (W : Type) `{!Client W} : Prop := {
  safe_request m (w : W) : (RequestWithTimeout m w).2 ≠ Panic;
  safe_success m (w w' : W) resp :
    RequestWithTimeout m w = (w', Ok resp) → success resp ≠ Panic;
}.

(** A sequence of calls that do not panic. *)
Lemma bind_no_panic {S A B} (m : prog S A) (k : A → prog S B) s :
  (m s).2 ≠ Panic → (∀ a s', m s = (s', Ok a) → (k a s').2 ≠ Panic) → ((m ≫= k) s).2 ≠ Panic.
Proof. go_simpl. destruct (m s) as [s1 []]; simpl; auto. Qed.

Section Safety.
Context {W : Type} `{HC : !Client W} `{HS : !Sched} `{HF : !SafeClient W}.
Implicit Types (r : RouterState W) (b : BrokerState W) (i : infraClient W).

(** ** Routers *)

Lemma management_safe (req : Message) (good : Z → bool) (w : W) :
  ((response ← doRequest req;
    code ← lift (getStatusCode response);
    if good code then lift (Err (status_error code response)) else mret ()) w).2 ≠ Panic.
Proof.
  unfold doRequest, lift. apply bind_no_panic; [apply safe_request|]. intros resp w' _.
  apply bind_no_panic; [|intros code w'' _; by destruct (good code)].
  unfold getStatusCode. simpl. by destruct (get_key _ _).
Qed.

Lemma with_client_safe {A} (c : prog W A) r :
  (∀ w, (c w).2 ≠ Panic) → is_Some (commandClient r) → (with_client c r).2 ≠ Panic.
Proof.
  intros Hc [w Hw]. unfold with_client. rewrite Hw. specialize (Hc w). by destruct (c w).
Qed.

Lemma create_task_safe e r : is_Some (commandClient r) → (create_task e r).2 ≠ Panic.
Proof.
  intros Hr. apply bind_no_panic; [|done]. apply with_client_safe; [|done].
  intros w. apply (management_safe _ (λ code, status_failed code && negb (code =? 404)%Z)).
Qed.

Lemma delete_task_safe e r : is_Some (commandClient r) → (delete_task e r).2 ≠ Panic.
Proof.
  intros Hr. unfold delete_task.
  assert ((with_client (deleteEntity (Type_ e) (GetName e)) r).2 ≠ Panic) as Hd.
  { apply with_client_safe; [|done]. intros w.
    apply (management_safe _ (λ code, status_failed code && negb (code =? 404)%Z)). }
  destruct (with_client _ r) as [r' [[]|err|]]; simpl in *; [done| |done]. by destruct (Contains _ _).
Qed.

(** A group of goroutines that neither lose the client nor panic has a result. *)
Lemma group_safe {S A B} (I : S → Prop) t (f : A → prog S B) l s :
  (∀ a s, I s → I (f a s).1 ∧ (f a s).2 ≠ Panic) → I s →
  ∃ s' res, group t f l s = (s', Some res) ∧ I s'.
Proof.
  intros Hf Hs. unfold group.
  destruct (go_each_total f I (perm t l) ([], None) s Hs) as (s' & res & H1 & H2); eauto.
Qed.

Lemma create_rounds_safe t orders es c r :
  wf r → ∃ r' res, create_rounds t orders es c r = (r', Some res) ∧ wf r'.
Proof.
  revert c r. induction orders as [|o os IH]; intros c r Hr; simpl; [eauto|].
  destruct (group_safe wf (o :: t) create_task (filter (λ e, Order e = o) es) r)
    as (r' & [dn [err|]] & -> & Hr'); [|done|eauto|auto].
  intros e r0 H0. split; [by apply create_task_wf|by apply create_task_safe, wf_client].
Qed.

Lemma finish_safe err record r :
  (∀ r, wf r → (record r).2 ≠ Panic) → wf r → (finish err record r).2 ≠ Panic.
Proof.
  intros Hrec Hr. unfold finish.
  set (r1 := if isConnectionError err then Reset r else r).
  assert (wf r1) as H1 by (unfold r1; case_match; [by apply Reset_wf|done]).
  specialize (Hrec r1 H1). destruct (record r1) as [r2 [[]| |]]; simpl in *; [|done|done].
  by destruct err.
Qed.

Lemma Ensure_safe t es r :
  wf r → (∀ e, e ∈ es → Type_ e ∈ entityTypes) → (EnsureEntities t es r).2 ≠ Panic.
Proof.
  intros Hr Hes. unfold EnsureEntities. destruct (initialized r); cbn [negb]; [|done].
  destruct (toCreate r es) as [todo| |] eqn:Htodo; [|done|by apply toCreate_no_panic in Htodo].
  apply toCreate_spec in Htodo as [Htodo _].
  destruct (create_rounds_safe t (seq 0 maxOrder) todo [] r Hr) as (r' & [dn err] & Hrun & Hr').
  rewrite Hrun. apply create_rounds_sub in Hrun. apply finish_safe; [|done].
  intros r2 H2. destruct (store_all_total dn r2) as (r3 & ->); [apply H2| |done].
  intros e He%Hrun. by apply Hes, Htodo.
Qed.

Lemma Delete_safe t ns r : wf r → (DeleteEntities t ns r).2 ≠ Panic.
Proof.
  intros Hr. unfold DeleteEntities. destruct (initialized r); cbn [negb]; [|done].
  destruct (group_safe wf t delete_task ns r) as (r' & [dn err] & -> & Hr'); [|done|].
  { intros e r0 H0. split; [by apply delete_task_wf|by apply delete_task_safe, wf_client]. }
  apply finish_safe; [|done]. intros r2 _.
  by destruct (forget_all_spec (omap id dn) r2) as (r3 & -> & _).
Qed.

(** ** Brokers *)

Lemma b_operation_safe (msg : BrokerEntity → Message) (err : Message → error) e w :
  ((response ← bDoRequest (msg e);
    ok ← lift (success response);
    if ok : bool then mret () else lift (Err (err response))) w).2 ≠ Panic.
Proof.
  unfold bDoRequest, lift. apply bind_no_panic; [apply safe_request|]. intros resp w' Hreq.
  apply bind_no_panic; [by eapply safe_success|]. intros [] w'' _; done.
Qed.

(** A task that does not panic where the client exists. *)
Definition safe_task (task : BrokerEntity → prog (BrokerState W) BrokerEntity) : Prop :=
  is_task task ∧ ∀ e b, is_Some (b_commandClient b) → (task e b).2 ≠ Panic.

Lemma safe_task_intro (c : BrokerEntity → prog W ()) :
  (∀ e w, (c e w).2 ≠ Panic) → safe_task (λ e, b_with_client (c e) ≫= λ _, mret e).
Proof.
  intros Hc. split; [by exists c|]. intros e b [w Hw]. apply bind_no_panic; [|done].
  unfold b_with_client. rewrite Hw. specialize (Hc e w). by destruct (c e w).
Qed.

Lemma create_safe : safe_task b_create_task.
Proof. apply safe_task_intro. intros e w. by apply (b_operation_safe create_message). Qed.

Lemma delete_safe : safe_task b_delete_task.
Proof. apply safe_task_intro. intros e w. by apply (b_operation_safe delete_message). Qed.

Lemma b_rounds_safe task todo t orders es c b :
  safe_task task → is_Some (b_commandClient b) →
  ∃ b' res, b_rounds task todo t orders es c b = (b', Some res).
Proof.
  intros [Ht Hs]. revert c b. induction orders as [|o os IH]; intros c b Hb; simpl; [eauto|].
  destruct (group_safe (λ b, is_Some (b_commandClient b)) (o :: t) task
    (filter (λ e, bOrder e = o ∧ todo b e = true) es) b) as (b' & [dn [err|]] & -> & Hb');
    [|done|eauto|auto].
  intros e b0 H0. split; [by apply (task_spec task e b0)|auto].
Qed.

Lemma bEnsure_safe t es b : b_wf b → (bEnsureEntities t es b).2 ≠ Panic.
Proof.
  intros Hb. unfold bEnsureEntities. destruct (b_initialized b) eqn:Hi; cbn [negb]; [|done].
  rewrite bToCreate_spec by done. set (todo := filter _ es).
  destruct (b_rounds_safe b_create_task (λ b e, negb (is_cached b e)) t (seq 0 bMaxOrder) todo [] b)
    as (b1 & [dn err] & Hrun); [apply create_safe|apply Hb|].
  destruct (b_rounds_frame b_create_task b_create_is_task (λ b e, negb (is_cached b e)) t
    (seq 0 bMaxOrder) todo [] b) as [Hf _].
  rewrite Hrun in *. simpl in Hf. unfold b_finish.
  set (b2 := if isConnectionError err then bReset b1 else b1).
  destruct (b_store_all_spec dn b2) as (b3 & -> & _); [|by destruct err].
  intros ty Hty. assert (b_entities b2 = b_entities b) as ->; [|by apply Hb].
  transitivity (b_entities b1); [|by rewrite Hf]. unfold b2. case_match; [|done].
  unfold bReset. by repeat case_match.
Qed.

Lemma bDelete_safe t es b : b_wf b → (bDeleteEntities t es b).2 ≠ Panic.
Proof.
  intros Hb. unfold bDeleteEntities. destruct (b_initialized b) eqn:Hi; cbn [negb]; [|done].
  destruct (b_rounds_safe b_delete_task is_cached t (reverse (seq 0 bMaxOrder)) es [] b)
    as (b1 & [dn err] & ->); [apply delete_safe|apply Hb|].
  unfold b_finish. destruct (b_forget_all_spec dn (if isConnectionError err then bReset b1 else b1))
    as (b2 & -> & _). by destruct err.
Qed.

End Safety.

(** ** What is built *)

Section Built.
Context {W : Type} `{HC : !Client W} `{HS : !Sched}.
Implicit Types i : infraClient W.

(** The router entities of a batch have one of the types the router states know. *)
Definition typed (b : Built) : Prop := ∀ e, e ∈ router_entities b → Type_ e ∈ entityTypes.

Lemma typed_add es b :
  (∀ e, e ∈ es → Type_ e ∈ entityTypes) → typed b → typed (add_router_entities es b).
Proof. intros Hes Hb e. simpl. rewrite elem_of_app. intros [?|?]; auto. Qed.

(** Address entities are addresses, auto links and link routes. *)
Lemma confined_typed i pid a e : confined i pid a e → Type_ e ∈ entityTypes.
Proof.
  destruct e; simpl; try done; intros _; unfold entityTypes; rewrite !elem_of_cons; auto 10.
Qed.

Lemma build_address_typed t i a e b : typed b → typed (build_address t i a e b).1.
Proof.
  intros Hb. unfold build_address, lift, modify.
  go_simpl. destruct (buildRouterAddressEntities _ i e a) as [es| |] eqn:Hes; [|done|done].
  destruct (buildBrokerAddressEntities _ i e a); [|done|done]. simpl.
  apply (typed_add es b); [|done]. intros x Hx.
  by eapply confined_typed, buildRouterAddress_confined.
Qed.

Lemma endpoint_entities_typed e es x :
  buildRouterEndpointEntities e = Ok es → x ∈ es → Type_ x ∈ entityTypes.
Proof.
  intros Hes (p & _ & Hx)%(endpoint_entities_elem e es x Hes). revert Hx.
  unfold port_entities. destruct (port_sslProfile e p); rewrite !elem_of_cons;
    intros; destruct_or?; subst; try (by exfalso; eapply not_elem_of_nil);
    unfold entityTypes; rewrite !elem_of_cons; auto 10.
Qed.

Lemma build_request_typed t i act r b : typed b → typed (build_request t i act r b).1.
Proof.
  intros Hb. unfold build_request. destruct (req_resource r) as [l|l|l|type m]; [| | |done].
  - destruct (act !! _) as [es|]; [|done]. apply for_each_inv; [done|].
    intros ne b' _. apply build_address_typed.
  - apply typed_add; [|done]. intros x. by apply (endpoint_entities_typed (endpoint_at (heap i) l)).
  - apply typed_add; [|done]. by intros e ?%not_elem_of_nil.
Qed.

Lemma build_requests_typed t act l acc i i' built b :
  typed acc → build_requests t act l acc i = (i', Ok (built, b)) → typed b.
Proof.
  revert acc i i' built b.
  induction l as [|r l IH]; intros acc i i' built b Hacc; cbn [build_requests].
  { intros H. by injection H as _ _ <-. }
  pose proof (build_request_typed (length l :: t) i act r acc Hacc) as H1.
  destruct (build_request _ i act r acc) as [acc' [[]|e|]]; [| |done].
  - intros ([built' b'] & i1 & Hb & Heq)%prog_bind_Ok. injection Heq as _ _ <-. by eapply IH.
  - intros ([] & i1 & _ & Hb)%prog_bind_Ok. by eapply IH.
Qed.
End Built.

(** ** Batches *)

Section Batches.
Context {W : Type} `{HC : !Client W} `{HS : !Sched} `{HF : !SafeClient W}.
Context (isRouter : string → bool).
Implicit Types i : infraClient W.

Lemma apply_hosts_safe {S B} t (fn : nat → prog S B) m :
  (∀ n h s, m !! h = Some s → (fn n s).2 ≠ Panic) → (apply_hosts t fn m).2 ≠ Panic.
Proof.
  intros Hfn. pose proof (apply_hosts_spec t fn m) as H.
  destruct (apply_hosts t fn m) as [m' []]; [done|done|]. destruct H as (n & h & s & Hs & Hp).
  by destruct (Hfn n h s).
Qed.

Lemma applyRouters_safe {B} t (fn : nat → prog (RouterState W) B) i :
  hosts_ok isRouter i → (∀ n r, wf r → (fn n r).2 ≠ Panic) → (applyRouters t fn i).2 ≠ Panic.
Proof.
  intros Hi Hfn. unfold applyRouters. pose proof (apply_hosts_safe t fn (routers i)) as H.
  destruct (apply_hosts t fn (routers i)). apply H. intros n h r Hr.
  apply Hfn. by apply (ho_routers _ _ Hi) in Hr as (_ & ? & _).
Qed.

Lemma applyBrokers_safe {B} t (fn : nat → prog (BrokerState W) B) i :
  hosts_ok isRouter i → (∀ n b, b_wf b → (fn n b).2 ≠ Panic) → (applyBrokers t fn i).2 ≠ Panic.
Proof.
  intros Hi Hfn. unfold applyBrokers. pose proof (apply_hosts_safe t fn (brokers i)) as H.
  destruct (apply_hosts t fn (brokers i)). apply H. intros n h b Hb.
  apply Hfn. by apply (ho_brokers _ _ Hi) in Hb as (_ & ? & _).
Qed.

Lemma syncEntities_safe t b i : hosts_ok isRouter i → typed b → (syncEntities t b i).2 ≠ Panic.
Proof.
  intros Hi Hb. unfold syncEntities. set (f := λ n broker, _).
  assert (∀ n x, b_wf x → (f n x).2 ≠ Panic ∧ b_wf (f n x).1 ∧ b_host (f n x).1 = b_host x) as Hf.
  { intros n x Hx. unfold f. case_match; [done|]. split; [by apply bEnsure_safe|by apply bEnsure_keeps]. }
  apply bind_no_panic.
  { case_bool_decide; [done|]. apply applyBrokers_safe; [done|]. intros; by apply Hf. }
  intros ? i1 H1. assert (hosts_ok isRouter i1) as Hi1.
  { revert H1. case_bool_decide; [by intros [= <-]|]. intros H1.
    replace i1 with (applyBrokers (0 :: t) f i).1 by by rewrite H1.
    apply applyBrokers_ok; [|done]. intros n x Hx. by destruct (Hf n x Hx). }
  clear H1. apply bind_no_panic; [|done]. case_bool_decide; [done|].
  apply applyRouters_safe; [done|]. intros n r Hr. by apply Ensure_safe.
Qed.

Lemma deleteEntities_safe t b i : hosts_ok isRouter i → (deleteEntities t b i).2 ≠ Panic.
Proof.
  intros Hi. unfold deleteEntities. apply bind_no_panic.
  { apply applyRouters_safe; [done|]. intros n r Hr. by apply Delete_safe. }
  intros ? i1 H1. apply bind_no_panic; [|done]. apply applyBrokers_safe; [|intros; by apply bDelete_safe].
  replace i1 with (applyRouters (0 :: t) (λ n, DeleteEntities (n :: 1 :: t) (router_entities b)) i).1
    by by rewrite H1.
  apply applyRouters_ok; [|done]. intros n r Hr. split; [by apply Delete_wf|].
  pose proof (Delete_address (n :: 1 :: t) (router_entities b) r) as E. unfold address_of in E.
  congruence.
Qed.

Section Total.
Context (t : tick) (check : infraClient W → request → option error)
  (apply : tick → Built → prog (infraClient W) ())
  (finish : option error → request → prog (infraClient W) ())
  (Hcheck : ignores_replies check) (Hfinish : answers_last finish)
  (Happly : ∀ t b i, hosts_ok isRouter i → typed b → (apply t b i).2 ≠ Panic).

Lemma do_batch_total requests i :
  hosts_ok isRouter i →
  (∀ r t act acc, r ∈ requests → check i r = None → (build_request t i act r acc).2 ≠ Panic) →
  ∃ i', do_batch t check apply finish requests i = (i', Ok ()).
Proof.
  intros Hi Hbuild. unfold do_batch. destruct requests as [|r0 rs0]; [by exists i|].
  set (requests := r0 :: rs0) in *. clearbody requests. clear r0 rs0.
  destruct (i_initialized i); cbn [negb].
  2: { destruct (refuse_all NotInitializedError requests i) as (i' & rs & ? & _). by exists i'. }
  unfold mbind, prog_bind. rewrite validate_eq by done.
  set (valid := filter _ requests). set (i0 := set_replies _ i).
  set (acc := {| router_entities := [];
    broker_entities := list_to_map ((λ b, (b_host b, [])) <$> range_values (2 :: 0 :: t) (brokers i0)) |}).
  pose proof (build_requests_spec (1 :: 0 :: t) (getActiveEndpoints (0 :: 0 :: t) i0) valid acc i0) as Hb.
  pose proof (build_requests_typed (1 :: 0 :: t) (getActiveEndpoints (0 :: 0 :: t) i0) valid acc i0) as Ht.
  change (build_requests _ _ _ _ _) with (buildEntities (0 :: t) valid i0) in Hb, Ht.
  destruct (buildEntities (0 :: t) valid i0) as [i1 [[built b]|e|]]; [|done|].
  2: { destruct Hb as (r & t' & acc' & Hr & Hp). apply list_elem_of_filter in Hr as [Hc Hr].
       unfold i0 in Hp. rewrite build_request_replies in Hp. by apply Hbuild in Hp. }
  destruct Hb as (xs & -> & _). unfold apply_built. cbn [snd fst].
  set (i1 := set_replies (replies i0 ++ xs) i0).
  specialize (Happly (1 :: t) b i1). destruct (apply (1 :: t) b i1) as [i2 o].
  destruct (finish_all finish (err_of o) built i2 Hfinish) as (i3 & E & _).
  destruct o; [by exists i3|by exists i3|]. exfalso. apply Happly; [| |done].
  - by eapply hosts_ok_frame; [..|exact Hi].
  - eapply Ht; [|done]. by intros e ?%not_elem_of_nil.
Qed.
End Total.

(** Building for a request panics only when an address has no project. *)
Lemma build_request_panic t i act r acc :
  (build_request t i act r acc).2 = Panic →
  ∃ l, req_resource r = RAddress l ∧ project_of i (Namespace (a_meta (address_at (heap i) l))) = None.
Proof.
  unfold build_request. destruct (req_resource r) as [l|l|l|type m]; [|done|done|done].
  destruct (act !! _) as [es|]; [|done]. intros Hp. exists l. split; [done|].
  apply for_each_built in Hp as (ne & b1 & _ & Hp); [by apply build_address_spec in Hp as [_ ?]|].
  intros ne b. apply build_address_spec.
Qed.

(** [doSync] always returns: an address without project is refused up front. *)
Lemma doSync_total t requests i :
  hosts_ok isRouter i → ∃ i', doSync t requests i = (i', Ok ()).
Proof.
  intros Hi. apply do_batch_total; [done|apply finish_sync_answers|apply syncEntities_safe|done|].
  intros r t' act acc _ Hc (l & Hl & Hp)%build_request_panic. unfold check_sync in Hc.
  rewrite Hl in Hc. simpl in Hc. unfold project_of in Hp. by destruct (projects i !! _).
Qed.

(** [doDelete] returns when the addresses to delete have their project; it does
    not check. *)
Lemma doDelete_total t requests i :
  hosts_ok isRouter i → (∀ r, r ∈ requests → has_project i r) →
  ∃ i', doDelete t requests i = (i', Ok ()).
Proof.
  intros Hi Hr. apply do_batch_total; [done|apply finish_delete_answers| |done|].
  { intros. by apply deleteEntities_safe. }
  intros r t' act acc Hin _ (l & Hl & Hp)%build_request_panic.
  destruct (Hr r Hin l Hl) as [pl Hpl]. unfold project_of in Hp. by rewrite Hpl in Hp.
Qed.

(** [doDelete] crashes on an address whose project is not recorded while its
    namespace has an active endpoint. *)
Lemma doDelete_crashes t r l i e :
  i_initialized i = true → req_resource r = RAddress l →
  projects i !! default_project (Namespace (a_meta (address_at (heap i) l))) = None →
  active_in i (Namespace (a_meta (address_at (heap i) l))) e →
  (doDelete t [r] i).2 = Panic.
Proof.
  intros Hi Hr Hp He. set (ns := Namespace (a_meta (address_at (heap i) l))) in *.
  unfold doDelete, do_batch. rewrite Hi. cbn [negb]. unfold mbind, prog_bind.
  rewrite validate_eq by done.
  assert (check_delete i r = None) as Hc by (unfold check_delete; by rewrite Hr).
  rewrite filter_cons_True, filter_nil by done. unfold rejections. simpl. rewrite Hc. simpl.
  rewrite app_nil_r. unfold buildEntities. cbn [build_requests].
  set (i0 := set_replies (replies i) i). set (acc := {| router_entities := [] |}).
  assert ((build_request (length (@nil request) :: 1 :: 0 :: t) i0 (getActiveEndpoints (0 :: 0 :: t) i0)
    r acc).2 = Panic) as Hb; [|by destruct (build_request _ i0 _ r acc) as [? [| |]]].
  unfold build_request. rewrite Hr. change (heap i0) with (heap i). fold ns.
  pose proof (getActiveEndpoints_spec (0 :: 0 :: t) i0 ns) as Hact.
  destruct (getActiveEndpoints (0 :: 0 :: t) i0 !! ns) as [es|].
  2: { by apply Hact, not_elem_of_nil in He. }
  destruct es as [|e0 es]; [by apply Hact, not_elem_of_nil in He|].
  assert (isEndpointActive e0 = true) as Ha by (apply (Hact e0); by left).
  cbn [imap for_each]. unfold mbind, prog_bind, build_address, lift, mbind, prog_bind.
  rewrite (buildRouterAddress_no_project _ i0 e0); [done..|]. unfold project_of.
  change (projects i0 !! _) with (projects i !! default_project ns). by rewrite Hp.
Qed.
End Batches.
