(* ===== verification/System.v ===== *)
(** The system around the client of [pkg/state/infra.go]: the two request channels,
    the goroutines that collect requests from them into batches, and the
    controllers that call the client and own the resources it points to. Each
    method holds the client's lock, so the system moves in steps, one per locked
    region, per send on a channel and per receive from it. The syncer makes progress: from
    every reachable state, taking the requests off the channel and running the batches
    answers all of them, whatever the peers reply, as long as they reply in the documented
    form. *)
From stdpp Require Import base functions fin_maps gmap strings list relations.
From S2P Require Import Prelude Go Client RouterTypes Router RouterFacts ApiV1 BrokerTypes Broker BrokerFacts Names Ports.
From S2P Require Import Scheduler Infra Entities Sync HostFacts InfraFacts EntityFacts SyncFacts ConfigFacts.
From S2P Require Import SyncAllFacts Safety.

Definition syncBufferSize : nat := 100.
Definition maxBatchSize : nat := 50.

(** A channel with its capacity and the batch its goroutine has collected. *)
Record Worker := {
  queue : list request;
  batch : list request;
}.

(** The non-blocking send of [requestSync] and of the [Delete*] methods: refused
    when the channel is full. *)
Definition send (r : request) (w : Worker) : option Worker :=
  if syncBufferSize <=? length (queue w) then None
  else Some {| queue := queue w ++ [r]; batch := batch w |}.

(** The receive of [collectRequests]. *)
Definition receive (w : Worker) : option Worker :=
  match queue w with
  | [] => None
  | r :: q => Some {| queue := q; batch := batch w ++ [r] |}
  end.

(** [len(requests) >= maxBatchSize]: the batch is returned. *)
Definition full (w : Worker) : bool := maxBatchSize <=? length (batch w).

Definition take_batch (w : Worker) : Worker := {| queue := queue w; batch := [] |}.

Record System (W : Type) := {
  infra : infraClient W;
  syncer : Worker;
  deleter : Worker;
  issued : list nat;
}.
Arguments Build_System {W}.
Arguments infra {W}.
Arguments syncer {W}.
Arguments deleter {W}.
Arguments issued {W}.

Section System.
Context {W : Type} `{HC : !Client W} `{HS : !Sched} `{HD : !Scheduler W} `{HL : !SchedulerLaws W}.
Implicit Types s : System W.

Definition set_infra (i : infraClient W) s : System W :=
  Build_System i (syncer s) (deleter s) (issued s).

(** [requestSync]: hand the request to the syncer, or fail at once. *)
Definition requestSync (r : request) s : System W * option error :=
  match send r (syncer s) with
  | Some w => (Build_System (infra s) w (deleter s) (issued s ++ [done_chan r]), None)
  | None => (s, Some NotSyncedError)
  end.

(** [DeleteAddress], [DeleteEndpoint] and [DeleteProject]. *)
Definition requestDelete (r : request) s : System W * option error :=
  match send r (deleter s) with
  | Some w => (Build_System (infra s) (syncer s) w (issued s ++ [done_chan r]), None)
  | None => (s, Some NotDeletedError)
  end.

(** [NewInfra] and [Start]. *)
Definition new_system (h : Heap) (now : Z) : System W :=
  Build_System (NewInfra NewRouterState NewBrokerState h now)
    (Build_Worker [] []) (Build_Worker [] []) [].

(** Routers and brokers have different names. *)
Context (isRouter : string → bool).

(** The steps. A step that would panic ends the process and is not one of them. *)
Inductive sys_step : System W → System W → Prop :=
  | step_sync_request r s :
      done_chan r ∉ issued s → sys_step s (requestSync r s).1
  | step_delete_request r s :
      done_chan r ∉ issued s → sys_step s (requestDelete r s).1
  | step_sync_receive s w :
      full (syncer s) = false → receive (syncer s) = Some w →
      sys_step s (Build_System (infra s) w (deleter s) (issued s))
  | step_delete_receive s w :
      full (deleter s) = false → receive (deleter s) = Some w →
      sys_step s (Build_System (infra s) (syncer s) w (issued s))
  | step_doSync t s i :
      doSync t (batch (syncer s)) (infra s) = (i, Ok ()) →
      sys_step s (Build_System i (take_batch (syncer s)) (deleter s) (issued s))
  | step_doDelete t s i :
      doDelete t (batch (deleter s)) (infra s) = (i, Ok ()) →
      sys_step s (Build_System i (syncer s) (take_batch (deleter s)) (issued s))
  | step_SyncAll t rh bh tls s i o :
      (∀ h, h ∈ rh → isRouter (Hostname h) = true) → (∀ h, h ∈ bh → isRouter (Hostname h) = false) →
      SyncAll t rh bh tls (infra s) = (i, o) → o ≠ Panic → sys_step s (set_infra i s)
  | step_DeleteBroker t name s : sys_step s (set_infra (DeleteBroker t name (infra s)).1 s)
  | step_ScheduleProject t l s : sys_step s (set_infra (ScheduleProject t l (infra s)).1 s)
  | step_ScheduleAddress t l s : sys_step s (set_infra (ScheduleAddress t l (infra s)).1 s)
  | step_AllocatePorts t l ps s : sys_step s (set_infra (AllocatePorts t l ps (infra s)).1 s)
  | step_FreePorts l s : sys_step s (set_infra (FreePorts l (infra s)) s)
  | step_owner h s :
      same_meta (heap (infra s)) h → sys_step s (set_infra (set_heap h (infra s)) s)
  | step_clock now s : sys_step s (set_infra (set_clock now (infra s)) s).

(** ** The invariant *)

(** The requests that wait for their answer. *)
Definition waiting s : list nat :=
  done_chan <$> (queue (syncer s) ++ batch (syncer s) ++ queue (deleter s) ++ batch (deleter s)).

Record sys_ok s : Prop := {
  so_hosts : hosts_ok isRouter (infra s);
  so_keys : keys_ok (infra s);
  so_ports : ports_wf (ports (infra s));
  so_sync : length (queue (syncer s)) ≤ syncBufferSize ∧ length (batch (syncer s)) ≤ maxBatchSize;
  so_delete : length (queue (deleter s)) ≤ syncBufferSize ∧ length (batch (deleter s)) ≤ maxBatchSize;
  so_nodup : NoDup (issued s);
  so_once : issued s ≡ₚ waiting s ++ (replies (infra s)).*1;
}.

Lemma new_system_ok h now : sys_ok (new_system h now).
Proof.
  split; [apply NewInfra_hosts_ok|apply NewInfra_keys|apply newPorts_wf|cbn; lia..|constructor|done].
Qed.

(** A step of the client that answers nothing. *)
Lemma set_infra_ok s i :
  sys_ok s → hosts_ok isRouter i → keys_ok i → ports_wf (ports i) → replies i = replies (infra s) →
  sys_ok (set_infra i s).
Proof. intros [] Hh Hk Hp Hr. split; cbn; try done. by rewrite Hr. Qed.

Lemma finish_sync_hosts err r (i : infraClient W) :
  hosts_ok isRouter i → hosts_ok isRouter (finish_sync err r i).1.
Proof. apply hosts_ok_frame; unfold finish_sync; by destruct (req_resource r), err. Qed.

Lemma finish_delete_hosts err r (i : infraClient W) :
  hosts_ok isRouter i → hosts_ok isRouter (finish_delete err r i).1.
Proof.
  apply hosts_ok_frame; unfold finish_delete, freePortsInternal;
    by destruct (req_resource r), err, (i_initialized i).
Qed.

Lemma doSync_ok t l (i : infraClient W) :
  hosts_ok isRouter i → ports_wf (ports i) →
  hosts_ok isRouter (doSync t l i).1 ∧ ports_wf (ports (doSync t l i).1).
Proof.
  intros Hh Hp. unfold doSync. split.
  - apply do_batch_inv; [apply ignores_check_sync|..|done].
    + intros x i1. by apply hosts_ok_frame.
    + intros. by apply syncEntities_keeps.
    + intros. by apply finish_sync_hosts.
  - apply (do_batch_inv _ _ _ _ ignores_check_sync (λ i, ports_wf (ports i))); [done|..|done].
    + intros t1 b i1 H1. by rewrite (syncEntities_hosts t1 b i1).
    + intros err r i1 H1. unfold finish_sync. by destruct (req_resource r), err.
Qed.

Lemma doDelete_ok t l (i : infraClient W) :
  hosts_ok isRouter i → ports_wf (ports i) →
  hosts_ok isRouter (doDelete t l i).1 ∧ ports_wf (ports (doDelete t l i).1).
Proof.
  intros Hh Hp. unfold doDelete. split.
  - apply do_batch_inv; [apply ignores_check_delete|..|done].
    + intros x i1. by apply hosts_ok_frame.
    + intros. by apply deleteEntities_keeps.
    + intros. by apply finish_delete_hosts.
  - apply (do_batch_inv _ _ _ _ ignores_check_delete (λ i, ports_wf (ports i))); [done|..|done].
    + intros t1 b i1 H1. by rewrite (deleteEntities_hosts t1 b i1).
    + intros err r i1 H1. unfold finish_delete.
      destruct (req_resource r), err; try done. cbn. by apply freePortsInternal_wf.
Qed.

(** The methods that only change statuses, ports or hosts. *)
Lemma DeleteBroker_kept t name (i : infraClient W) :
  hosts_ok isRouter i →
  hosts_ok isRouter (DeleteBroker t name i).1 ∧ resources_kept i (DeleteBroker t name i).1.
Proof.
  intros Hi. unfold DeleteBroker. repeat (case_match; [done|]). split.
  - apply updateBrokers_ok; [done|]. intros h (b & -> & Hb)%list_elem_of_fmap.
    apply list_elem_of_filter in Hb as [_ [h Hb]%elem_of_range_values].
    by destruct (ho_brokers _ _ Hi _ _ Hb) as (-> & _ & ?).
  - apply updateBrokers_kept.
Qed.

Lemma update_heap_ok s h :
  sys_ok s → same_meta (heap (infra s)) h → sys_ok (set_infra (set_heap h (infra s)) s).
Proof.
  intros Hs Hm. apply set_infra_ok; [done| | |apply Hs|done].
  - apply (hosts_ok_frame _ (infra s)); try done. apply Hs.
  - apply (keys_ok_frame (infra s)); try done. apply Hs.
Qed.

Lemma same_meta_address h l a :
  a_meta a = a_meta (address_at h l) →
  same_meta h (Build_Heap (<[l := a]> (address_at h)) (endpoint_at h) (project_at h)).
Proof.
  intros Ha. split_and!; try done. cbn. intros l'. destruct (decide (l' = l)) as [->|].
  - by rewrite fn_lookup_insert.
  - by rewrite fn_lookup_insert_ne.
Qed.

Lemma same_meta_project h l p :
  p_meta p = p_meta (project_at h l) →
  same_meta h (Build_Heap (address_at h) (endpoint_at h) (<[l := p]> (project_at h))).
Proof.
  intros Hp. split_and!; try done. cbn. intros l'. destruct (decide (l' = l)) as [->|].
  - by rewrite fn_lookup_insert.
  - by rewrite fn_lookup_insert_ne.
Qed.

Lemma sched_address_meta a (bs : list (BrokerState W)) : a_meta (sched_address a bs).1 = a_meta a.
Proof.
  destruct (decide ((sched_address a bs).2 = Ok ())) as [E|E].
  - destruct (sched_address a bs) as [a' o] eqn:Es. cbn in E. subst o.
    by destruct (sched_address_ok _ _ _ Es) as (l & _ & _ & ->).
  - by rewrite sched_address_err.
Qed.

Lemma sched_project_meta p (bs : list (BrokerState W)) : p_meta (sched_project p bs).1 = p_meta p.
Proof.
  destruct (decide ((sched_project p bs).2 = Ok ())) as [E|E].
  - destruct (sched_project p bs) as [p' o] eqn:Es. cbn in E. subst o.
    by destruct (sched_project_ok _ _ _ Es) as (b & _ & ->).
  - by rewrite sched_project_err.
Qed.

Lemma Schedule_ok t l s :
  sys_ok s →
  sys_ok (set_infra (ScheduleProject t l (infra s)).1 s) ∧
  sys_ok (set_infra (ScheduleAddress t l (infra s)).1 s).
Proof.
  intros Hs. assert (sys_ok (set_infra (infra s) s)) as H0 by by destruct s.
  unfold ScheduleProject, ScheduleAddress. destruct (i_initialized (infra s)); [|done]. cbn [negb]. split.
  - pose proof (sched_project_meta (project_at (heap (infra s)) l) (range_values t (brokers (infra s)))) as E.
    destruct (sched_project _ _) as [p o]. apply update_heap_ok; [done|]. by apply same_meta_project.
  - cbv zeta. destruct (projects _ !! _) as [pl|]; [|done]. destruct (ps_Broker _) as [b|].
    { apply update_heap_ok; [done|]. by apply same_meta_address. }
    pose proof (sched_address_meta (address_at (heap (infra s)) l) (range_values t (brokers (infra s)))) as E.
    destruct (sched_address _ _) as [a o]. apply update_heap_ok; [done|]. by apply same_meta_address.
Qed.

Lemma AllocatePorts_frame t l ps (i : infraClient W) :
  ∃ p e, (AllocatePorts t l ps i).1 = set_ports p (set_heap
    (Build_Heap (address_at (heap i)) e (project_at (heap i))) i).
Proof.
  assert (∃ p e, i = set_ports p (set_heap
    (Build_Heap (address_at (heap i)) e (project_at (heap i))) i)) as H0.
  { exists (ports i), (endpoint_at (heap i)). by destruct i as [?????????????[] ?]. }
  unfold AllocatePorts. case_match; [done|].
  apply (for_each_inv (λ i', ∃ p e, i' = set_ports p (set_heap
    (Build_Heap (address_at (heap i)) e (project_at (heap i))) i))); [done|].
  intros np i' _ (p & e & ->). unfold allocate_protocol. cbv zeta. case_match; [eauto|].
  destruct (allocatePort _ _ _) as [p' []]; eauto.
Qed.

(** ** Every step keeps the invariant *)

(** Two lists of request numbers with the same parts. *)
Ltac solve_ids :=
  rewrite ?fmap_app; cbn [fmap list_fmap]; apply (Permutation_count_occ Nat.eq_dec); intros ?;
  rewrite ?count_occ_app, ?count_occ_nil; lia.

Lemma send_spec r w w' :
  send r w = Some w' → queue w' = queue w ++ [r] ∧ batch w' = batch w ∧
  length (queue w') ≤ syncBufferSize.
Proof.
  unfold send. destruct (syncBufferSize <=? length (queue w)) eqn:E; [done|]. intros [= <-]. cbn.
  apply Nat.leb_gt in E. split_and!; [done..|]. rewrite length_app. cbn. lia.
Qed.

Lemma receive_spec w w' :
  full w = false → receive w = Some w' →
  ∃ r, queue w = r :: queue w' ∧ batch w' = batch w ++ [r] ∧ length (batch w') ≤ maxBatchSize.
Proof.
  unfold full, receive. intros E%Nat.leb_gt. destruct (queue w) as [|r q]; [done|]. intros [= <-].
  exists r. cbn. split_and!; [done..|]. rewrite length_app. cbn. lia.
Qed.

Lemma requestSync_ok r s : done_chan r ∉ issued s → sys_ok s → sys_ok (requestSync r s).1.
Proof.
  intros Hf Hs. unfold requestSync. destruct (send r (syncer s)) as [w|] eqn:E; [|done].
  apply send_spec in E as (Hq & Hb & Hl). destruct Hs as [? ? ? [_ Hbl] ? Hnd Ho].
  split; cbn; try done; [by rewrite Hb|..].
  - apply NoDup_app. split_and!; [done| |apply NoDup_singleton].
    by intros x Hx ->%list_elem_of_singleton.
  - unfold waiting in *. cbn. rewrite Ho, Hq, Hb. solve_ids.
Qed.

Lemma requestDelete_ok r s : done_chan r ∉ issued s → sys_ok s → sys_ok (requestDelete r s).1.
Proof.
  intros Hf Hs. unfold requestDelete. destruct (send r (deleter s)) as [w|] eqn:E; [|done].
  apply send_spec in E as (Hq & Hb & Hl). destruct Hs as [? ? ? ? [_ Hbl] Hnd Ho].
  split; cbn; try done; [by rewrite Hb|..].
  - apply NoDup_app. split_and!; [done| |apply NoDup_singleton].
    by intros x Hx ->%list_elem_of_singleton.
  - unfold waiting in *. cbn. rewrite Ho, Hq, Hb. solve_ids.
Qed.

Lemma sync_receive_ok s w :
  full (syncer s) = false → receive (syncer s) = Some w → sys_ok s →
  sys_ok (Build_System (infra s) w (deleter s) (issued s)).
Proof.
  intros Hf E Hs. destruct (receive_spec _ _ Hf E) as (r & Hq & Hb & Hl).
  destruct Hs as [? ? ? [Hql _] ? Hnd Ho]. split; cbn; try done.
  - rewrite Hq in Hql. cbn in Hql. lia.
  - unfold waiting in *. cbn. rewrite Ho, Hq, Hb.
    change (r :: queue w) with ([r] ++ queue w). solve_ids.
Qed.

Lemma delete_receive_ok s w :
  full (deleter s) = false → receive (deleter s) = Some w → sys_ok s →
  sys_ok (Build_System (infra s) (syncer s) w (issued s)).
Proof.
  intros Hf E Hs. destruct (receive_spec _ _ Hf E) as (r & Hq & Hb & Hl).
  destruct Hs as [? ? ? ? [Hql _] Hnd Ho]. split; cbn; try done.
  - rewrite Hq in Hql. cbn in Hql. lia.
  - unfold waiting in *. cbn. rewrite Ho, Hq, Hb.
    change (r :: queue w) with ([r] ++ queue w). solve_ids.
Qed.

Lemma step_doSync_ok t s i :
  doSync t (batch (syncer s)) (infra s) = (i, Ok ()) → sys_ok s →
  sys_ok (Build_System i (take_batch (syncer s)) (deleter s) (issued s)).
Proof.
  intros E [Hh Hk Hp [Hq _] Hd Hnd Ho].
  destruct (doSync_ok t (batch (syncer s)) (infra s) Hh Hp) as [Hh' Hp'].
  pose proof (do_batch_answers t check_sync syncEntities finish_sync ignores_check_sync
    syncEntities_hosts finish_sync_answers (batch (syncer s)) (infra s)) as Ha.
  fold (doSync t (batch (syncer s)) (infra s)) in Ha. rewrite E in Ha, Hh', Hp'.
  destruct Ha as (rs & Hrs & Hperm). split; cbn; try done.
  - by apply (doSync_keys t (batch (syncer s)) (infra s)).
  - split; [done|lia].
  - unfold waiting in *. cbn. rewrite Ho, Hrs, (fmap_app fst), Hperm. solve_ids.
Qed.

Lemma step_doDelete_ok t s i :
  doDelete t (batch (deleter s)) (infra s) = (i, Ok ()) → sys_ok s →
  sys_ok (Build_System i (syncer s) (take_batch (deleter s)) (issued s)).
Proof.
  intros E [Hh Hk Hp Hq [Hd _] Hnd Ho].
  destruct (doDelete_ok t (batch (deleter s)) (infra s) Hh Hp) as [Hh' Hp'].
  pose proof (do_batch_answers t check_delete deleteEntities finish_delete ignores_check_delete
    deleteEntities_hosts finish_delete_answers (batch (deleter s)) (infra s)) as Ha.
  fold (doDelete t (batch (deleter s)) (infra s)) in Ha. rewrite E in Ha, Hh', Hp'.
  destruct Ha as (rs & Hrs & Hperm). split; cbn; try done.
  - by apply (doDelete_keys t (batch (deleter s)) (infra s)).
  - split; [done|lia].
  - unfold waiting in *. cbn. rewrite Ho, Hrs, (fmap_app fst), Hperm. solve_ids.
Qed.

Lemma kept_ok s i :
  sys_ok s → hosts_ok isRouter i → resources_kept (infra s) i → sys_ok (set_infra i s).
Proof.
  intros Hs Hh Hk. apply set_infra_ok; [done|done| |apply Hk, Hs|apply Hk].
  apply (resources_kept_keys _ _ Hk), Hs.
Qed.

Lemma AllocatePorts_ok t l ps s : sys_ok s → sys_ok (set_infra (AllocatePorts t l ps (infra s)).1 s).
Proof.
  intros Hs. destruct (AllocatePorts_frame t l ps (infra s)) as (p & e & E).
  pose proof (AllocatePorts_spec t l ps (infra s) (so_ports _ Hs)) as Hspec.
  assert (ports_wf (ports (AllocatePorts t l ps (infra s)).1) ∧ ∀ l',
    e_meta (endpoint_at (heap (AllocatePorts t l ps (infra s)).1) l')
      = e_meta (endpoint_at (heap (infra s)) l')) as [Hwf Hmeta].
  { destruct (AllocatePorts t l ps (infra s)) as [i' [[]|err|]]; cbn; [| |done].
    - destruct Hspec as (_ & [] & _). done.
    - destruct Hspec as [(_ & -> & _)|([] & _)]; [|done]. split; [apply Hs|done]. }
  rewrite E in *. apply set_infra_ok; [done| | |done|done].
  - apply (hosts_ok_frame _ (infra s)); try done. apply Hs.
  - apply (keys_ok_frame (infra s)); try done. apply Hs.
Qed.

Lemma FreePorts_ok l s : sys_ok s → sys_ok (set_infra (FreePorts l (infra s)) s).
Proof.
  intros Hs. destruct (freePorts_resources l (infra s)) as (Ea & Ee & Ep).
  apply set_infra_ok; [done| | |apply freePortsInternal_wf, Hs|apply freePortsInternal_replies].
  - apply (hosts_ok_frame _ (infra s)); try apply Hs;
      unfold FreePorts, freePortsInternal; by destruct (i_initialized (infra s)).
  - apply (keys_ok_frame (infra s)); [done..|apply same_meta_free|apply Hs].
Qed.

Lemma sys_step_ok s s' : sys_step s s' → sys_ok s → sys_ok s'.
Proof.
  intros Hstep Hs. destruct Hstep.
  - by apply requestSync_ok.
  - by apply requestDelete_ok.
  - by eapply sync_receive_ok.
  - by eapply delete_receive_ok.
  - by eapply step_doSync_ok.
  - by eapply step_doDelete_ok.
  - pose proof (SyncAll_hosts isRouter t rh bh tls (infra s) (so_hosts _ Hs)) as Hh.
    pose proof (SyncAll_kept t rh bh tls (infra s)) as Hk. rewrite H1 in Hh, Hk.
    apply kept_ok; [done|by apply Hh|done].
  - destruct (DeleteBroker_kept t name (infra s) (so_hosts _ Hs)). by apply kept_ok.
  - by apply Schedule_ok.
  - by apply Schedule_ok.
  - by apply AllocatePorts_ok.
  - by apply FreePorts_ok.
  - by apply update_heap_ok.
  - apply kept_ok; [done| |by split]. apply (hosts_ok_frame _ (infra s)); try done. apply Hs.
Qed.

(** Every state the system reaches satisfies the invariant. *)
Lemma sys_reachable_ok h now s : rtc sys_step (new_system h now) s → sys_ok s.
Proof.
  intros Hr. assert (∀ s0, rtc sys_step s0 s → sys_ok s0 → sys_ok s) as H.
  { intros s0. induction 1 as [|s1 s2 s3 Hstep _ IH]; [done|]. intros Hs. by eapply IH, sys_step_ok. }
  apply (H _ Hr), new_system_ok.
Qed.
End System.

Section Progress.
Context {W : Type} `{HC : !Client W} `{HS : !Sched} `{HF : !SafeClient W}.
Context `{HD : !Scheduler W} `{HL : !SchedulerLaws W}.
Context (isRouter : string → bool).
Implicit Types s : System W.

(** Nothing but the syncer's requests and the client has changed. *)
Definition syncs s s' : Prop :=
  rtc (sys_step isRouter) s s' ∧ deleter s' = deleter s ∧ issued s' = issued s.

Lemma syncs_trans s1 s2 s3 : syncs s1 s2 → syncs s2 s3 → syncs s1 s3.
Proof. intros (H1 & H2 & H3) (H4 & H5 & H6). split_and!; [by etrans|congruence..]. Qed.

Lemma run_batch s :
  sys_ok isRouter s →
  ∃ s', syncs s s' ∧ queue (syncer s') = queue (syncer s) ∧ batch (syncer s') = [].
Proof.
  intros Hs. destruct (doSync_total isRouter [] (batch (syncer s)) (infra s)) as [i Hi]; [apply Hs|].
  eexists. split_and!; [|..]; [split_and!; [by eapply rtc_once, step_doSync|done..]|done..].
Qed.

Lemma drain n : ∀ s,
  sys_ok isRouter s → length (queue (syncer s)) = n →
  ∃ s', syncs s s' ∧ sys_ok isRouter s' ∧ queue (syncer s') = [] ∧ batch (syncer s') = [].
Proof.
  induction n as [|n IH]; intros s Hs Hn;
    destruct (run_batch s Hs) as (s1 & H1 & Hq & Hb);
    assert (sys_ok isRouter s1) as Hs1
      by (eapply (rtc_ind_l (λ x, sys_ok isRouter x → sys_ok isRouter s1)); [done| |apply H1|done];
          intros x y Hxy _ IHx Hx; apply IHx; by eapply sys_step_ok).
  { exists s1. split_and!; [done|done|rewrite Hq; by destruct (queue (syncer s))|done]. }
  rewrite <-Hq in Hn. destruct (queue (syncer s1)) as [|r q] eqn:Eq; [done|].
  assert (full (syncer s1) = false) as Hfull by (unfold full; by rewrite Hb).
  assert (receive (syncer s1) = Some {| queue := q; batch := [r] |}) as Hrecv
    by (unfold receive; by rewrite Eq, Hb).
  pose proof (step_sync_receive isRouter s1 _ Hfull Hrecv) as Hstep.
  destruct (IH (Build_System (infra s1) {| queue := q; batch := [r] |} (deleter s1) (issued s1)))
    as (s2 & H2 & Hs2 & Hq2 & Hb2); [by eapply sys_step_ok|by injection Hn|].
  exists s2. split_and!; [|done..]. eapply syncs_trans; [exact H1|].
  eapply syncs_trans; [|exact H2]. split_and!; [by apply rtc_once|done|done].
Qed.

(** Every request handed to the syncer can be answered. *)
Lemma syncer_answers s :
  sys_ok isRouter s →
  ∃ s', rtc (sys_step isRouter) s s' ∧
    ∀ r, r ∈ queue (syncer s) ++ batch (syncer s) → done_chan r ∈ (replies (infra s')).*1.
Proof.
  intros Hs. destruct (drain _ s Hs eq_refl) as (s' & (Hrtc & Hd & Hiss) & Hs' & Hq & Hb).
  exists s'. split; [done|]. intros r Hr. apply (list_elem_of_fmap_2 done_chan) in Hr.
  pose proof (so_nodup _ _ Hs) as Hnd. pose proof (so_once _ _ Hs) as Honce.
  pose proof (so_once _ _ Hs') as Honce'. unfold waiting in *.
  rewrite Hq, Hb, Hd, Hiss in Honce'. simpl in Honce'.
  rewrite (assoc_L (++) (queue (syncer s))), fmap_app, <-(assoc_L (++)) in Honce.
  assert (done_chan r ∈ issued s) as Hin by (rewrite Honce, elem_of_app; by left).
  rewrite Honce', elem_of_app in Hin. destruct Hin as [Hin|Hin]; [|done]. exfalso.
  rewrite Honce in Hnd. apply NoDup_app in Hnd as (_ & Hdis & _).
  apply (Hdis (done_chan r)); [done|]. rewrite elem_of_app. by left.
Qed.
End Progress.
