(* ===== verification/Lifecycle.v ===== *)
(** The goroutines of a client ([Start] of [pkg/state/infra.go]) and their end
    ([Shutdown]): the client's lock, the unbuffered channels [syncerStop],
    [syncerStopped], [deleterStop] and [deleterStopped], and where each goroutine
    stands. [Shutdown] takes the lock and keeps it while it waits for the
    goroutines, which need the lock to finish a batch. *)
From stdpp Require Import base list relations.
From S2P Require Import Prelude Go.

(** Where the loop of [Start] stands. *)
Inductive worker_pc :=
  | AtSelect                (* the head of the loop *)
  | Collecting (n : nat)    (* in [collectRequests], with [n] requests *)
  | WantsLock (n : nat)     (* at [i.lock.Lock()], with [n] requests *)
  | Working                 (* between [Lock] and [Unlock] *)
  | Stopping                (* at [i.syncerStopped <- true] *)
  | Stopped.                (* returned *)

(** Where [Shutdown] stands. *)
Inductive shutdown_pc :=
  | NotCalled
  | AtLock
  | SendSyncerStop
  | AwaitSyncer
  | SendDeleterStop
  | AwaitDeleter
  | Closing
  | Returned.

(** The holder of the lock: a worker, [Shutdown], or another method. *)
Inductive holder := BySyncer | ByDeleter | ByShutdown | ByMethod.

Record Threads := {
  lock : option holder;
  sync_pc : worker_pc;
  delete_pc : worker_pc;
  stop_pc : shutdown_pc;
}.

Definition set_sync (l : option holder) (pc : worker_pc) (s : Threads) : Threads :=
  Build_Threads l pc (delete_pc s) (stop_pc s).
Definition set_delete (l : option holder) (pc : worker_pc) (s : Threads) : Threads :=
  Build_Threads l (sync_pc s) pc (stop_pc s).
Definition set_stop (l : option holder) (pc : shutdown_pc) (s : Threads) : Threads :=
  Build_Threads l (sync_pc s) (delete_pc s) pc.

(** The steps one worker takes on its own: [stop_ready] says that [Shutdown] is
    sending on its stop channel, which the [select] then prefers to the default
    case. *)
Inductive worker_step (me : holder) (stop_ready : bool)
    : option holder * worker_pc → option holder * worker_pc → Prop :=
  | w_default l : stop_ready = false → worker_step me stop_ready (l, AtSelect) (l, Collecting 0)
  | w_receive l n : worker_step me stop_ready (l, Collecting n) (l, Collecting (S n))
  | w_empty l : worker_step me stop_ready (l, Collecting 0) (l, AtSelect)
  | w_collected l n : worker_step me stop_ready (l, Collecting (S n)) (l, WantsLock (S n))
  | w_lock n : worker_step me stop_ready (None, WantsLock n) (Some me, Working)
  | w_unlock : worker_step me stop_ready (Some me, Working) (None, AtSelect).

Definition sends_sync (s : Threads) : bool :=
  match stop_pc s with SendSyncerStop => true | _ => false end.
Definition sends_delete (s : Threads) : bool :=
  match stop_pc s with SendDeleterStop => true | _ => false end.

Inductive thread_step : Threads → Threads → Prop :=
  | t_sync s l pc :
      worker_step BySyncer (sends_sync s) (lock s, sync_pc s) (l, pc) →
      thread_step s (set_sync l pc s)
  | t_delete s l pc :
      worker_step ByDeleter (sends_delete s) (lock s, delete_pc s) (l, pc) →
      thread_step s (set_delete l pc s)
  | t_method_lock s : lock s = None → thread_step s (set_stop (Some ByMethod) (stop_pc s) s)
  | t_method_unlock s : lock s = Some ByMethod → thread_step s (set_stop None (stop_pc s) s)
  | t_shutdown s : stop_pc s = NotCalled → thread_step s (set_stop (lock s) AtLock s)
  | t_shutdown_lock s :
      stop_pc s = AtLock → lock s = None → thread_step s (set_stop (Some ByShutdown) SendSyncerStop s)
  | t_sync_stop s :
      stop_pc s = SendSyncerStop → sync_pc s = AtSelect →
      thread_step s (Build_Threads (lock s) Stopping (delete_pc s) AwaitSyncer)
  | t_sync_stopped s :
      stop_pc s = AwaitSyncer → sync_pc s = Stopping →
      thread_step s (Build_Threads (lock s) Stopped (delete_pc s) SendDeleterStop)
  | t_delete_stop s :
      stop_pc s = SendDeleterStop → delete_pc s = AtSelect →
      thread_step s (Build_Threads (lock s) (sync_pc s) Stopping AwaitDeleter)
  | t_delete_stopped s :
      stop_pc s = AwaitDeleter → delete_pc s = Stopping →
      thread_step s (Build_Threads (lock s) (sync_pc s) Stopped Closing)
  | t_return s : stop_pc s = Closing → thread_step s (set_stop None Returned s).

(** [Start]. *)
Definition started : Threads := Build_Threads None AtSelect AtSelect NotCalled.

(** ** The lock *)

(** Who is inside a locked region holds the lock. *)
Record lock_ok (s : Threads) : Prop := {
  lk_sync : sync_pc s = Working ↔ lock s = Some BySyncer;
  lk_delete : delete_pc s = Working ↔ lock s = Some ByDeleter;
  lk_stop : (stop_pc s ∈ [SendSyncerStop; AwaitSyncer; SendDeleterStop; AwaitDeleter; Closing])
    ↔ lock s = Some ByShutdown;
}.

Definition locked_stop (pc : shutdown_pc) : bool :=
  match pc with NotCalled | AtLock | Returned => false | _ => true end.

Lemma locked_stop_spec pc :
  pc ∈ [SendSyncerStop; AwaitSyncer; SendDeleterStop; AwaitDeleter; Closing] ↔ locked_stop pc = true.
Proof.
  rewrite !elem_of_cons. split; [by intros [->|[->|[->|[->|[->|?%not_elem_of_nil]]]]]|].
  destruct pc; (done || intros _; tauto).
Qed.

(** The locked regions exclude each other, in every state the goroutines reach. *)
Lemma thread_step_lock s s' : thread_step s s' → lock_ok s → lock_ok s'.
Proof.
  intros Hstep [Hs Hd Ht]. rewrite locked_stop_spec in Ht.
  destruct Hstep as [s l pc Hw|s l pc Hw|s Hl|s Hl|s Hp|s Hp Hl|s Hp Hq|s Hp Hq|s Hp Hq|s Hp Hq|s Hp].
  1-2: destruct s as [lk sp dp tp]; cbn in *; inversion Hw; subst; (split; cbn; [..|rewrite locked_stop_spec]);
    intuition congruence.
  all: destruct s as [lk sp dp tp]; cbn in *; subst; (split; cbn; [..|rewrite locked_stop_spec]);
    cbn in *; intuition congruence.
Qed.

Lemma reachable_lock s : rtc thread_step started s → lock_ok s.
Proof.
  intros Hr. assert (∀ s0, rtc thread_step s0 s → lock_ok s0 → lock_ok s) as H.
  { intros s0. induction 1 as [|s1 s2 s3 Hstep _ IH]; [done|]. intros Hs. by eapply IH, thread_step_lock. }
  apply (H _ Hr). split; [done..|]. rewrite locked_stop_spec. done.
Qed.

(** ** A shutdown that never ends *)

(** [Shutdown] waits for the syncer, which has a batch and waits for the lock. *)
Definition stuck (s : Threads) : Prop :=
  lock s = Some ByShutdown ∧ stop_pc s = SendSyncerStop ∧ ∃ n, sync_pc s = WantsLock n.

Lemma stuck_step s s' : stuck s → thread_step s s' → stuck s'.
Proof.
  intros (Hl & Ht & n & Hs) Hstep.
  destruct Hstep as [s l pc Hw|s l pc Hw|s Hl'|s Hl'|s Hp|s Hp Hl'|s Hp Hq|s Hp Hq|s Hp Hq|s Hp Hq|s Hp];
    try congruence.
  - rewrite Hl, Hs in Hw. inversion Hw.
  - rewrite Hl in Hw. inversion Hw; subst; by repeat split; eauto.
Qed.

(** From there [Shutdown] never returns, whatever the goroutines do. *)
Lemma stuck_forever s s' : stuck s → rtc thread_step s s' → stop_pc s' ≠ Returned.
Proof.
  intros Hs Hr. assert (stuck s') as (_ & -> & _); [|done].
  induction Hr as [|s1 s2 s3 Hstep _ IH]; [done|]. by eapply IH, stuck_step.
Qed.

(** One request in the syncer's hands is enough to get there. *)
Lemma stuck_reachable : ∃ s, rtc thread_step started s ∧ stuck s.
Proof.
  exists (Build_Threads (Some ByShutdown) (WantsLock 1) AtSelect SendSyncerStop). split.
  - eapply rtc_l; [apply (t_sync started None (Collecting 0)); by constructor|].
    eapply rtc_l; [apply (t_sync _ None (Collecting 1)), w_receive|].
    eapply rtc_l; [apply (t_sync _ None (WantsLock 1)), w_collected|].
    eapply rtc_l; [by apply t_shutdown|]. eapply rtc_l; [by apply t_shutdown_lock|]. apply rtc_refl.
  - repeat split; eauto.
Qed.

(** ** A shutdown that ends *)

(** The workers have no batch: no request is being handled. *)
Definition idle (pc : worker_pc) : Prop := pc = AtSelect ∨ pc = Collecting 0.

(** An idle worker can come back to its [select]. *)
Lemma sync_returns s : idle (sync_pc s) → rtc thread_step s (set_sync (lock s) AtSelect s).
Proof.
  intros [E|E].
  - destruct s. cbn in E. subst. apply rtc_refl.
  - eapply rtc_l; [|apply rtc_refl]. apply t_sync. rewrite E. apply w_empty.
Qed.

Lemma delete_returns s : idle (delete_pc s) → rtc thread_step s (set_delete (lock s) AtSelect s).
Proof.
  intros [E|E].
  - destruct s. cbn in E. subst. apply rtc_refl.
  - eapply rtc_l; [|apply rtc_refl]. apply t_delete. rewrite E. apply w_empty.
Qed.

(** While no request is being handled, [Shutdown] can be called and returns, and
    then the goroutines have stopped and the lock is free. *)
Lemma idle_shutdown s :
  idle (sync_pc s) → idle (delete_pc s) → lock s = None → stop_pc s = NotCalled →
  rtc thread_step s (Build_Threads None Stopped Stopped Returned).
Proof.
  intros Hs Hd Hl Ht. etrans; [by apply sync_returns|]. etrans; [by apply delete_returns|].
  rewrite Hl. cbn. destruct s as [lk sp dp tp]. cbn in *. subst.
  eapply rtc_l; [by apply t_shutdown|]. eapply rtc_l; [by apply t_shutdown_lock|].
  eapply rtc_l; [by apply t_sync_stop|]. eapply rtc_l; [by apply t_sync_stopped|].
  eapply rtc_l; [by apply t_delete_stop|]. eapply rtc_l; [by apply t_delete_stopped|].
  eapply rtc_l; [by apply t_return|]. apply rtc_refl.
Qed.
