(* ===== verification/Manager.v ===== *)
(** The clients the operator shares ([pkg/state/manager.go]): one client per
    messaging infrastructure, created and started on first use. A client is known
    by a handle, its state is in the store. *)
From stdpp Require Import base functions fin_maps gmap strings list.
From S2P Require Import Prelude Go Client RouterTypes Router ApiV1 BrokerTypes Broker.
From S2P Require Import Names Ports Scheduler Infra Sync System.

Section Manager.
Context {W : Type} `{HC : !Client W} `{HS : !Sched}.

(** [clientKey] is [resourceKey]. *)
Record manager := {
  clients : gmap resourceKey nat;
  store : list (System W);
  resync : Z;
}.

(** [NewClientManager]. *)
Definition NewClientManager : manager :=
  {| clients := ∅; store := []; resync := 300 * second |}.

Definition client_key (infra : ObjectMeta) : resourceKey :=
  {| k_Name := Name infra; k_Namespace := Namespace infra |}.

(** [GetClient]. The heap and the time are the environment's. *)
Definition GetClient (h : Heap) (now : Z) (infra : ObjectMeta) (m : manager) : manager * nat :=
  match clients m !! client_key infra with
  | Some c => (m, c)
  | None =>
      ({| clients := <[client_key infra := length (store m)]> (clients m);
          store := store m ++ [new_system h now];
          resync := resync m |}, length (store m))
  end.

(** The end of [Shutdown], once the goroutines have stopped: every connection is
    closed. *)
Definition shutdown_hosts (s : System W) : System W :=
  set_infra (set_brokers (bShutdown <$> brokers (infra s))
               (set_routers (Shutdown <$> routers (infra s)) (infra s))) s.

(** [DeleteClient]. *)
Definition DeleteClient (infra : ObjectMeta) (m : manager) : manager :=
  match clients m !! client_key infra with
  | None => m
  | Some c =>
      {| clients := delete (client_key infra) (clients m);
         store := alter shutdown_hosts c (store m);
         resync := resync m |}
  end.

(** ** One client per infrastructure *)

(** Handles are of clients in the store, and of one infrastructure each. *)
Record manager_ok (m : manager) : Prop := {
  mo_store : ∀ k c, clients m !! k = Some c → c < length (store m);
  mo_inj : ∀ k1 k2 c, clients m !! k1 = Some c → clients m !! k2 = Some c → k1 = k2;
}.

Lemma NewClientManager_ok : manager_ok NewClientManager.
Proof. split; cbn; [by intros ?? ?%lookup_empty_Some|by intros ??? ?%lookup_empty_Some]. Qed.

Lemma GetClient_ok h now infra m : manager_ok m → manager_ok (GetClient h now infra m).1.
Proof.
  intros [H1 H2]. unfold GetClient. destruct (clients m !! client_key infra) as [c|] eqn:E; [done|].
  split; cbn.
  - intros k c. rewrite length_app, lookup_insert_Some. cbn. intros [[_ <-]|[_ Hc%H1]]; lia.
  - intros k1 k2 c. rewrite !lookup_insert_Some.
    intros [[<- <-]|[? Hc1]] [[<- E2]|[? Hc2]]; try done; [..|eauto].
    + apply H1 in Hc2. lia.
    + apply H1 in Hc1. lia.
Qed.

Lemma DeleteClient_ok infra m : manager_ok m → manager_ok (DeleteClient infra m).
Proof.
  intros [H1 H2]. unfold DeleteClient. destruct (clients m !! client_key infra) as [c|] eqn:E; [|done].
  split; cbn.
  - intros k c' [_ Hc]%lookup_delete_Some. rewrite length_alter. eauto.
  - intros k1 k2 c' [_ Hc1]%lookup_delete_Some [_ Hc2]%lookup_delete_Some. eauto.
Qed.

(** The operations of the manager. *)
Inductive manager_op :=
  | OpGet (h : Heap) (now : Z) (infra : ObjectMeta)
  | OpDelete (infra : ObjectMeta).

Definition run_op (m : manager) (op : manager_op) : manager :=
  match op with
  | OpGet h now infra => (GetClient h now infra m).1
  | OpDelete infra => DeleteClient infra m
  end.

Definition deletes (k : resourceKey) (op : manager_op) : Prop :=
  match op with OpDelete infra => client_key infra = k | _ => False end.

Lemma run_ops_ok ops m : manager_ok m → manager_ok (foldl run_op m ops).
Proof.
  revert m. induction ops as [|op ops IH]; intros m Hm; [done|]. cbn. apply IH.
  destruct op; [by apply GetClient_ok|by apply DeleteClient_ok].
Qed.

(** A client, once given out, is given out again until its infrastructure is
    deleted. *)
Lemma client_kept ops m k c :
  clients m !! k = Some c → Forall (λ op, ¬ deletes k op) ops →
  clients (foldl run_op m ops) !! k = Some c.
Proof.
  revert m. induction ops as [|op ops IH]; intros m Hc Hops; [done|].
  apply list.Forall_cons in Hops as [Hop Hops]. cbn. apply IH; [|done]. clear IH Hops.
  destruct op as [h now infra|infra]; cbn.
  - unfold GetClient. destruct (clients m !! client_key infra) as [c'|] eqn:E; [done|]. cbn.
    rewrite lookup_insert_ne; [done|]. intros <-. congruence.
  - unfold DeleteClient. destruct (clients m !! client_key infra) as [c'|] eqn:E; [|done]. cbn.
    by rewrite lookup_delete_ne.
Qed.

Lemma GetClient_known h now infra m :
  clients (GetClient h now infra m).1 !! client_key infra = Some (GetClient h now infra m).2.
Proof.
  unfold GetClient. destruct (clients m !! client_key infra) eqn:E; [done|]. cbn.
  by rewrite lookup_insert_eq.
Qed.

(** A client that is created is new and started. *)
Lemma GetClient_new h now infra m :
  clients m !! client_key infra = None →
  store (GetClient h now infra m).1 !! (GetClient h now infra m).2 = Some (new_system h now) ∧
  ∀ c, c < length (store m) → store (GetClient h now infra m).1 !! c = store m !! c.
Proof.
  intros E. unfold GetClient. rewrite E. cbn. split.
  - by rewrite lookup_app_r, Nat.sub_diag.
  - intros c Hc. by rewrite lookup_app_l.
Qed.

(** Deleting the client of one infrastructure closes its connections and leaves the
    other clients alone. *)
Lemma DeleteClient_others infra m k c :
  manager_ok m → clients m !! k = Some c → k ≠ client_key infra →
  clients (DeleteClient infra m) !! k = Some c ∧
  store (DeleteClient infra m) !! c = store m !! c.
Proof.
  intros [_ Hinj] Hk Hne. unfold DeleteClient.
  destruct (clients m !! client_key infra) as [c'|] eqn:E; [|done]. cbn.
  rewrite lookup_delete_ne, list_lookup_alter_ne by (done || intros ->; by apply Hne, (Hinj _ _ c)). done.
Qed.
End Manager.
