(* ===== verification/Sim.v ===== *)
(** A small installation to run the client on: in-memory routers, brokers that
    accept every operation and have nothing to list, and a namespace with its
    project, an endpoint and a queue. *)
From stdpp Require Import base functions fin_maps gmap strings list.
From S2P Require Import Prelude Go Client RouterTypes Router RouterSim ApiV1.
From S2P Require Import BrokerTypes Broker Names Ports Scheduler Infra Entities Sync.
From S2P Require Import Safety System.

(** A broker's answer: the operation succeeded, the list asked for is empty. *)
Definition broker_reply : Message := {|
  ApplicationProperties := {[ "_AMQ_OperationSucceeded" := VBool true ]};
  Value_ := VString "[[]]" |}.

(** A peer of either kind: a management message for a broker names a resource. *)
Definition sim_serve (req : Message) : prog MemRouter Message :=
  match ApplicationProperties req !! "_AMQ_ResourceName" with
  | Some _ => mret broker_reply
  | None => serve req
  end.

Definition SimClient : Client MemRouter := {|
  NewCommandClient _ _ _ _ := {| mem := ∅; count := 0 |};
  Start w := {| mem := mem w; count := 0 |};
  Stop w := w;
  ReconnectCount := count;
  RequestWithTimeout := sim_serve;
|}.

(** ** The installation *)

Definition router_host : Host := {| Hostname := "router-0"; Ip := "10.0.0.1" |}.
Definition broker_host : Host := {| Hostname := "broker-0"; Ip := "10.0.0.2" |}.

Definition sim_isRouter (n : string) : bool := String.prefix "router" n.

Definition sim_project (broker : option MessagingAddressBroker) : MessagingProject := {|
  p_meta := {| Name := "default"; Namespace := "ns" |};
  p_Spec := {| ps_MessagingInfrastructureRef := None; ps_Capabilities := [] |};
  p_Status := {| ps_Phase := "Active"; ps_Message := "";
                 ps_StatusInfrastructureRef := {| ref_Name := "infra"; ref_Namespace := "ns" |};
                 ps_Conditions := []; ps_StatusCapabilities := []; ps_Broker := broker |} |}.

Definition sim_endpoint (ports : list MessagingEndpointPort) : MessagingEndpoint := {|
  e_meta := {| Name := "ep"; Namespace := "ns" |};
  e_Spec := {| Tls := None; Annotations := ∅; es_Protocols := [MessagingProtocolAMQP];
               es_Host := None; Cluster := Some (); Ingress := None; Route := None;
               NodePort := None; LoadBalancer := None |};
  e_Status := {| es_Phase := MessagingEndpointActive; es_Type := "Cluster"; es_Message := "";
                 es_Conditions := []; es_StatusHost := "ep.ns"; es_Ports := []; es_Tls := None;
                 es_InternalPorts := ports |} |}.

Definition sim_queue (name : string) (brokers : list MessagingAddressBroker) : MessagingAddress := {|
  a_meta := {| Name := name; Namespace := "ns" |};
  a_Spec := {| Address := None; Anycast := None; Multicast := None;
               Queue := Some {| DeadLetterAddress := ""; ExpiryAddress := "" |};
               Topic := None; Subscription := None; DeadLetter := None |};
  a_Status := {| as_Phase := "Configuring"; as_Message := ""; as_Conditions := [];
                 as_Brokers := brokers; as_Type := "queue" |} |}.

Definition on_broker : MessagingAddressBroker :=
  {| ab_State := MessagingAddressBrokerScheduled; ab_Host := "broker-0" |}.

Definition amqp_port : MessagingEndpointPort :=
  {| p_Name := "ns-ep-AMQP"; p_Protocol := MessagingProtocolAMQP; p_Port := 40000 |}.

(** Two queues, at locations 0 and 1; one endpoint; the project, transactional or
    not. *)
Definition sim_heap (transactional : bool) : Heap := {|
  address_at l := sim_queue (if bool_decide (l = 0) then "q0" else "q1") [on_broker];
  endpoint_at _ := sim_endpoint [amqp_port];
  project_at _ := sim_project (if transactional then Some on_broker else None) |}.

Definition sim_infra (transactional : bool) : infraClient MemRouter :=
  NewInfra (@NewRouterState _ SimClient) (@NewBrokerState _ SimClient) (sim_heap transactional) 0.

(** The client connected to one router and one broker. *)
Definition sim_synced (transactional : bool) : infraClient MemRouter :=
  (@SyncAll _ SimClient sched_id [] [router_host] [broker_host] None (sim_infra transactional)).1.

(** Then the project and the endpoint are synchronized. *)
Definition sim_ready (transactional : bool) : infraClient MemRouter :=
  (@doSync _ SimClient sched_id [1] [{| done_chan := 1; req_resource := REndpoint 0 |}]
    (@doSync _ SimClient sched_id [0] [{| done_chan := 0; req_resource := RProject 0 |}]
      (sim_synced transactional)).1).1.

Example sim_synced_initialized : i_initialized (sim_synced false) = true.
Proof. vm_compute. reflexivity. Qed.

Example sim_ready_replies : replies (sim_ready false) = [(0, None); (1, None)].
Proof. vm_compute. reflexivity. Qed.

(** The installation answers in the documented form. *)
Lemma sim_serve_safe m w : (sim_serve m w).2 ≠ Panic.
Proof. unfold sim_serve, serve. by repeat case_match. Qed.

Lemma sim_serve_success m w w' resp : sim_serve m w = (w', Ok resp) → success resp ≠ Panic.
Proof.
  unfold sim_serve, serve. repeat case_match; intros Hr; injection Hr as _ <-; done.
Qed.

Lemma SimSafe : @SafeClient MemRouter SimClient.
Proof. exact (@Build_SafeClient _ SimClient sim_serve_safe sim_serve_success). Qed.
