(* ===== verification/PeerProps.v ===== *)
(** The properties of the router and broker states, each with a run on the
    in-memory router or installation. *)
From stdpp Require Import base functions fin_maps gmap strings relations list.
From S2P Require Import Prelude Go Client RouterTypes Router RouterFacts Management.
From S2P Require Import RouterSim BrokerTypes Broker BrokerFacts HostFacts Sim.

#[local] Existing Instance sched_id.

(** ** Runs *)

(** A router state that has read a fresh in-memory router. *)
Definition sim_router : RouterState MemRouter :=
  (Initialize 0 (NewRouterState router_host 55671 None)).1.

Definition sim_address : RouterEntity := EAddress
  {| ra_Name := "a"; ra_Prefix := "p/a"; ra_Distribution := "balanced"; ra_Waypoint := false |}.
Definition sim_listener : RouterEntity := EListener
  {| rl_Name := "l"; rl_Host := "0.0.0.0"; rl_Port := "40000"; rl_Role := "normal";
     rl_SslProfile := "s"; rl_SaslMechanisms := "ANONYMOUS"; rl_LinkCapacity := 250;
     rl_IdleTimeoutSeconds := 16; rl_InitialHandshakeTimeoutSeconds := 0; rl_PolicyVhost := "";
     rl_AuthenticatePeer := false; rl_MultiTenant := true; rl_RequireSsl := true;
     rl_Http := false; rl_Metrics := false; rl_Healthz := false; rl_Websockets := false;
     rl_HttpRootDir := "" |}.
Definition sim_entities : list RouterEntity := [sim_listener; sim_address].

Definition sim_broker : BrokerState MemRouter :=
  (@bInitialize _ SimClient sched_id [] 0 (@NewBrokerState _ SimClient broker_host 5671 None)).1.

Definition sim_broker_entities : list BrokerEntity :=
  [BQueue {| q_Name := "p/a"; q_Address := "p/a"; q_RoutingType := RoutingTypeAnycast;
             q_MaxConsumers := -1; q_Durable := true; q_AutoCreateAddress := false;
             q_PurgeOnNoConsumers := false |};
   BAddress {| ba_Name := "p/a"; ba_RoutingType := RoutingTypeAnycast |}].

(** The same with a record of the requests sent. *)
Definition MemLog : Client (MemRouter * list Message) := @LogClient _ MemClient.
Definition SimLog : Client (MemRouter * list Message) := @LogClient _ SimClient.

Definition sim_log_router : RouterState (MemRouter * list Message) :=
  (@Initialize _ MemLog 0 (@NewRouterState _ MemLog router_host 55671 None)).1.
Definition sim_log : list Message :=
  match commandClient sim_log_router with Some (_, log) => log | None => [] end.

Definition sim_log_broker : BrokerState (MemRouter * list Message) :=
  (@bEnsureEntities _ SimLog sched_id [] sim_broker_entities
    (@bInitialize _ SimLog sched_id [] 0 (@NewBrokerState _ SimLog broker_host 5671 None)).1).1.
Definition sim_broker_log : list Message :=
  match b_commandClient sim_log_broker with Some (_, log) => log | None => [] end.

(** ** Routers *)

(** C3. Refinement: in every state a router state can reach by its operations, by
    lost connections and by changes of the router between two connections, an
    initialized state has in its cache exactly the names of the entities of the
    router, for each of the six types, as long as the connection it was read over
    has not been lost. *)
Theorem router_coherent {W} `{HC : !Client W} `{HS : !Sched} `{HN : !Node W} `{HL : !NodeLaws} h p tls
    (r : RouterState W) :
  rtc step (NewRouterState h p tls) r →
  wf r ∧ ∀ w, commandClient r = Some w → initialized r = true →
    (reconnectCount r ≤ ReconnectCount w)%Z ∧
    (reconnectCount r = ReconnectCount w → ∀ ty, ty ∈ entityTypes →
       ∀ n, is_Some (cached r ty n) ↔ is_Some (remote w ty !! n)).
Proof. apply reachable_inv. Qed.

Lemma router_coherent_witness : wf (EnsureEntities [] sim_entities sim_router).1.
Proof.
  apply (router_coherent router_host 55671 None).
  eapply rtc_l; [|eapply rtc_once].
  - eapply (step_initialize 0 _ sim_router (Ok ())); [|done].
    apply (run_outcome (Initialize 0)). vm_compute. reflexivity.
  - eapply (step_ensure [] sim_entities _ _ (Ok ())); [|done].
    apply (run_outcome (EnsureEntities [] sim_entities)). vm_compute. reflexivity.
Defined.

(** C8. A successful [EnsureEntities] on a list without contradictions leaves every
    entity asked for in the cache, equal in the fields the program compares, and
    changes no other entity. *)
Theorem router_ensure {W} `{HC : !Client W} `{HS : !Sched} t es (r r' : RouterState W) :
  consistent es → EnsureEntities t es r = (r', Ok ()) →
  initialized r = true ∧ initialized r' = true ∧
  (∀ e, e ∈ es → ∃ x, cached r' (Type_ e) (GetName e) = Some x ∧ Equals x e = true) ∧
  (∀ ty n, cached r ty n ≠ None ∨ (∀ e, e ∈ es → key e ≠ (ty, n)) →
     cached r' ty n = cached r ty n).
Proof. apply Ensure_spec. Qed.

Lemma router_ensure_witness : initialized (EnsureEntities [] sim_entities sim_router).1 = true.
Proof.
  refine (proj1 (proj2 (router_ensure [] sim_entities sim_router _ _
    (run_outcome (EnsureEntities [] sim_entities) sim_router (Ok ()) _)))).
  - intros e e' He He' Hk. unfold sim_entities in *. rewrite !elem_of_cons, elem_of_nil in He, He'.
    destruct He as [->|[->|[]]], He' as [->|[->|[]]]; done.
  - vm_compute. reflexivity.
Defined.

(** Idempotence: when every entity asked for is cached and equal, a second
    [EnsureEntities] succeeds, sends nothing and changes nothing. *)
Theorem router_ensure_again {W} `{HC : !Client W} `{HS : !Sched} t es (r : RouterState W) :
  initialized r = true →
  (∀ e, e ∈ es → ∃ x, cached r (Type_ e) (GetName e) = Some x ∧ Equals x e = true) →
  EnsureEntities t es r = (r, Ok ()).
Proof. apply Ensure_cached. Qed.

Lemma router_ensure_again_witness :
  let r := (EnsureEntities [] sim_entities sim_router).1 in
  EnsureEntities [1] sim_entities r = (r, Ok ()).
Proof.
  apply (router_ensure_again [1] sim_entities).
  - vm_compute. reflexivity.
  - intros e He. exists e. unfold sim_entities in He. rewrite !elem_of_cons, elem_of_nil in He.
    destruct He as [->|[->|[]]]; split; vm_compute; reflexivity.
Defined.

(** C10. Order of the requests: on whatever branch it returns, [EnsureEntities] has
    sent CREATE requests only, for entities that are asked for and not cached; all
    entities of order 0 (addresses, connectors, SSL profiles) come before those of
    order 1 (listeners, auto links, link routes), which refer to them by name. *)
Theorem router_ensure_order {W} `{HC : !Client W} `{HS : !Sched} t es
    (r : RouterState (W * list Message)) w log :
  commandClient r = Some (w, log) →
  ∃ w' l0 l1,
    commandClient (@EnsureEntities _ LogClient HS t es r).1 =
      Some (w', log ++ (create_of <$> (l0 ++ l1))) ∧
    (∀ e, e ∈ l0 → Order e = 0) ∧ (∀ e, e ∈ l1 → Order e = 1) ∧
    (∀ e, e ∈ l0 ++ l1 → e ∈ es ∧ cached r (Type_ e) (GetName e) = None).
Proof. apply Ensure_requests. Qed.

Lemma router_ensure_order_witness :
  ∃ w l0 l1, commandClient (@EnsureEntities _ MemLog sched_id [] sim_entities sim_log_router).1
    = Some (w, sim_log ++ (create_of <$> (l0 ++ l1))).
Proof.
  destruct (@router_ensure_order _ MemClient sched_id [] sim_entities sim_log_router
    {| mem := ∅; count := 0 |} sim_log) as (w & l0 & l1 & H & _).
  - vm_compute. reflexivity.
  - by exists w, l0, l1.
Defined.

(** C11. Failure: when [EnsureEntities] returns an error, either nothing was changed
    (the state was not initialized, or an entity would have to be updated) or the
    state is marked uninitialized, so that the next [Initialize] reads it afresh. *)
Theorem router_failure_resets {W} `{HC : !Client W} `{HS : !Sched} t es (r r' : RouterState W) e :
  wf r → EnsureEntities t es r = (r', Err e) → r' = r ∨ initialized r' = false.
Proof. apply Ensure_failed. Qed.

Lemma router_failure_resets_witness :
  let r := NewRouterState (W := MemRouter) router_host 55671 None in
  (EnsureEntities [] sim_entities r).1 = r ∨
  initialized (EnsureEntities [] sim_entities r).1 = false.
Proof.
  apply (router_failure_resets [] sim_entities (NewRouterState router_host 55671 None) _
    NotInitializedError); [apply New_wf|reflexivity].
Defined.

(** A successful [DeleteEntities] removes every entity it is given from the
    cache, except those whose deletion the router refused with the message the
    program ignores, and no other entity. *)
Theorem router_delete {W} `{HC : !Client W} `{HS : !Sched} t ns (r r' : RouterState W) :
  DeleteEntities t ns r = (r', Ok ()) →
  initialized r = true ∧ initialized r' = true ∧
  (∀ ty n, (ty, n) ∉ key <$> ns → cached r' ty n = cached r ty n) ∧
  (∀ e, e ∈ ns → cached r' (Type_ e) (GetName e) = None ∨
     ∃ w w' err, deleteEntity (Type_ e) (GetName e) w = (w', Err err) ∧ http_refusal err = true).
Proof. apply Delete_spec. Qed.

Lemma router_delete_witness :
  initialized (DeleteEntities [1] [sim_address] (EnsureEntities [] sim_entities sim_router).1).1 = true.
Proof.
  refine (proj1 (proj2 (router_delete [1] [sim_address] (EnsureEntities [] sim_entities sim_router).1 _
    (run_outcome (DeleteEntities [1] [sim_address]) _ (Ok ()) _)))).
  vm_compute. reflexivity.
Defined.

(** Round trip: an entity of one of the six types is read back from its
    management attributes as it was written, provided its integers are exact as
    64-bit floating point numbers, through which the decoder takes them. *)
Theorem router_encode_decode e :
  (∀ n, e ≠ ENamed n) → ints_exact e → Decode (Type_ e) (Encode e) = Ok e.
Proof. apply decode_encode. Qed.

Lemma router_encode_decode_witness : Decode (Type_ sim_listener) (Encode sim_listener) = Ok sim_listener.
Proof. apply (router_encode_decode sim_listener); [done|]. simpl. lia. Defined.

(** ** Brokers *)

(** C14. A successful [EnsureEntities] of a broker leaves every entity asked for in
    the cache and changes no other one. *)
Theorem broker_ensure {W} `{HC : !Client W} `{HS : !Sched} t es (b b' : BrokerState W) :
  b_wf b → bEnsureEntities t es b = (b', Ok ()) →
  b_initialized b = true ∧ b_initialized b' = true ∧
  (∀ e, e ∈ es → is_Some (b_cached b' (bType e) (bGetName e))) ∧
  (∀ ty n, is_Some (b_cached b ty n) ∨ (ty, n) ∉ bkey <$> es →
     b_cached b' ty n = b_cached b ty n).
Proof. apply bEnsure_spec. Qed.

Lemma broker_ensure_witness :
  b_initialized (@bEnsureEntities _ SimClient sched_id [] sim_broker_entities sim_broker).1 = true.
Proof.
  refine (proj1 (proj2 (@broker_ensure _ SimClient sched_id [] sim_broker_entities sim_broker _ _
    (run_outcome (@bEnsureEntities _ SimClient sched_id [] sim_broker_entities) _ (Ok ()) _)))).
  - apply bInitialize_wf, bNew_wf.
  - vm_compute. reflexivity.
Defined.

(** Order of the deletions: on whatever branch it returns, [DeleteEntities] of a
    broker has sent DELETE operations only, for entities it was given, those of order
    1 (queues) before those of order 0 (addresses, diverts, settings). *)
Theorem broker_delete_order {W} `{HC : !Client W} `{HS : !Sched} t es
    (b : BrokerState (W * list Message)) w log :
  b_commandClient b = Some (w, log) →
  ∃ w' l1 l0,
    b_commandClient (@bDeleteEntities _ LogClient HS t es b).1 =
      Some (w', log ++ (delete_message <$> (l1 ++ l0))) ∧
    (∀ e, e ∈ l1 → bOrder e = 1 ∧ e ∈ es) ∧ (∀ e, e ∈ l0 → bOrder e = 0 ∧ e ∈ es).
Proof. apply bDelete_requests. Qed.

Lemma broker_delete_order_witness :
  ∃ w l1 l0, b_commandClient (@bDeleteEntities _ SimLog sched_id [] sim_broker_entities sim_log_broker).1
    = Some (w, sim_broker_log ++ (delete_message <$> (l1 ++ l0))).
Proof.
  destruct (@broker_delete_order _ SimClient sched_id [] sim_broker_entities sim_log_broker
    {| mem := ∅; count := 0 |} sim_broker_log) as (w & l1 & l0 & H & _).
  - vm_compute. reflexivity.
  - by exists w, l1, l0.
Defined.
