(* ===== verification/InfraProps.v ===== *)
(** The properties of the infrastructure client: what a synchronization
    establishes, what every reachable state satisfies, and that requests are
    answered. The runs are on the installation of [Sim]. *)
From stdpp Require Import base functions fin_maps gmap strings relations list.
From S2P Require Import Prelude Go Client RouterTypes Router RouterFacts RouterSim.
From S2P Require Import ApiV1 BrokerTypes Broker BrokerFacts Names Ports Scheduler.
From S2P Require Import Infra Entities Sync InfraFacts EntityFacts SyncFacts.
From S2P Require Import ConfigFacts SyncAllFacts Safety System Sim.

(** ** Runs *)

#[local] Existing Instance sched_id.
#[local] Existing Instance SimClient | 0.
#[local] Existing Instance SimSafe.

Definition address_request (n : nat) (l : loc) : request :=
  {| done_chan := n; req_resource := RAddress l |}.

Lemma sim_isRouter_hosts :
  (∀ h, h ∈ [router_host] → sim_isRouter (Hostname h) = true) ∧
  (∀ h, h ∈ [broker_host] → sim_isRouter (Hostname h) = false).
Proof. split; by intros h ->%list_elem_of_singleton. Qed.

Lemma sim_synced_hosts tr : hosts_ok sim_isRouter (sim_synced tr).
Proof.
  exact (SyncAll_hosts sim_isRouter [] [router_host] [broker_host] None (sim_infra tr)
    (NewInfra_hosts_ok _ _ _) (proj1 sim_isRouter_hosts) (proj2 sim_isRouter_hosts)).
Qed.

Lemma sim_synced_ports tr : ports_wf (ports (sim_synced tr)).
Proof.
  exact (rk_ports _ _ (SyncAll_kept [] [router_host] [broker_host] None (sim_infra tr)) newPorts_wf).
Qed.

Lemma sim_ready_hosts tr : hosts_ok sim_isRouter (sim_ready tr) ∧ ports_wf (ports (sim_ready tr)).
Proof.
  destruct (doSync_ok sim_isRouter [0] [{| done_chan := 0; req_resource := RProject 0 |}]
    (sim_synced tr) (sim_synced_hosts tr) (sim_synced_ports tr)) as [H1 H2].
  exact (doSync_ok sim_isRouter [1] [{| done_chan := 1; req_resource := REndpoint 0 |}] _ H1 H2).
Qed.

Lemma sim_ready_heap : heap (sim_ready false) = sim_heap false.
Proof. vm_compute. reflexivity. Qed.

Definition project_request : request := {| done_chan := 0; req_resource := RProject 0 |}.

(** A system whose client is connected, with one request in the syncer's channel. *)
Definition sim_requested (tr : bool) : System MemRouter :=
  (requestSync project_request (set_infra (sim_synced tr) (new_system (sim_heap tr) 0))).1.

Lemma sim_requested_reachable tr :
  rtc (sys_step sim_isRouter) (new_system (sim_heap tr) 0) (sim_requested tr).
Proof.
  eapply rtc_l; [|eapply rtc_once, step_sync_request; apply not_elem_of_nil].
  apply (step_SyncAll sim_isRouter [] [router_host] [broker_host] None (new_system (sim_heap tr) 0) _
    (SyncAll [] [router_host] [broker_host] None (sim_infra tr)).2);
    [apply sim_isRouter_hosts..| |destruct tr; vm_compute; discriminate].
  exact (surjective_pairing (SyncAll [] [router_host] [broker_host] None (sim_infra tr))).
Qed.

(** ** The system *)

(** C1. Invariant of the running operator: after any sequence of requests, batches,
    synchronizations, broker deletions, schedulings, port allocations and changes of
    the resources by their owners, the routers and brokers are indexed by host name
    and in well-formed states, every resource is recorded under its own key, every
    recorded address has its project, the channels and batches are within their
    bounds, and every request issued is either waiting in exactly one place or has
    been answered exactly once. *)
Theorem system_invariant {W} `{HC : !Client W} `{HS : !Sched} `{HD : !Scheduler W}
    `{HL : !SchedulerLaws W} isRouter h now (s : System W) :
  rtc (sys_step isRouter) (new_system h now) s → sys_ok isRouter s.
Proof. apply sys_reachable_ok. Qed.

Lemma system_invariant_witness : sys_ok sim_isRouter (sim_requested false).
Proof. apply (system_invariant sim_isRouter _ _ _ (sim_requested_reachable false)). Defined.

(** C2. Progress: from every reachable state there are steps of the syncer alone
    after which every request that was in its channel or batch has been answered,
    when the peers reply in the documented form. *)
Theorem syncer_progress {W} `{HC : !Client W} `{HS : !Sched} `{HF : !SafeClient W}
    `{HD : !Scheduler W} `{HL : !SchedulerLaws W} isRouter h now (s : System W) :
  rtc (sys_step isRouter) (new_system h now) s →
  ∃ s', rtc (sys_step isRouter) s s' ∧
    ∀ r, r ∈ queue (syncer s) ++ batch (syncer s) → done_chan r ∈ (replies (infra s')).*1.
Proof. intros Hs. by eapply syncer_answers, sys_reachable_ok. Qed.

Lemma syncer_progress_witness :
  ∃ s', rtc (sys_step sim_isRouter) (sim_requested false) s' ∧
    ∀ r, r ∈ [project_request] → done_chan r ∈ (replies (infra s')).*1.
Proof. apply (syncer_progress sim_isRouter _ _ _ (sim_requested_reachable false)). Defined.

(** C6. Every batch of [doSync] and of [doDelete] answers each of its requests exactly
    once, on every branch on which it returns; it never returns an error itself. *)
Theorem batch_answered_once {W} `{HC : !Client W} `{HS : !Sched} t requests (i : infraClient W) :
  match doSync t requests i with
  | (i', Ok _) => ∃ rs, replies i' = replies i ++ rs ∧ rs.*1 ≡ₚ done_chan <$> requests
  | (_, Err _) => False
  | (_, Panic) => True
  end ∧
  match doDelete t requests i with
  | (i', Ok _) => ∃ rs, replies i' = replies i ++ rs ∧ rs.*1 ≡ₚ done_chan <$> requests
  | (_, Err _) => False
  | (_, Panic) => True
  end.
Proof.
  split; apply do_batch_answers; try done; auto using syncEntities_hosts, deleteEntities_hosts,
    finish_sync_answers, finish_delete_answers.
Qed.

(** C7. The workers do not crash: when the peers reply in the documented form,
    [doSync] returns for every batch, and [doDelete] for every batch whose addresses
    have the project of their namespace recorded. *)
Theorem workers_return {W} `{HC : !Client W} `{HS : !Sched} `{HF : !SafeClient W} isRouter t requests
    (i : infraClient W) :
  hosts_ok isRouter i →
  (∃ i', doSync t requests i = (i', Ok ())) ∧
  ((∀ r, r ∈ requests → has_project i r) → ∃ i', doDelete t requests i = (i', Ok ())).
Proof. intros Hi. split; [by eapply doSync_total|intros; by eapply doDelete_total]. Qed.

Lemma workers_return_witness : ∃ i', doSync [2] [address_request 2 0] (sim_ready false) = (i', Ok ()).
Proof.
  refine (proj1 (workers_return sim_isRouter [2] [address_request 2 0] (sim_ready false) _)).
  apply sim_ready_hosts.
Defined.

(** ** Synchronization *)

(** C4. When no host is both a router and a broker, a successful [SyncAll] leaves the
    client initialized, with a state for exactly the hosts asked for; every router has a connector to every broker and the
    readiness listener, every broker the readiness queue; and it reports one status
    per router and broker, as many as the channel that collects them holds. *)
Theorem sync_all_converges {W} `{HC : !Client W} `{HS : !Sched} isRouter t rh bh tls
    (i i' : infraClient W) sts :
  hosts_ok isRouter i →
  (∀ h, h ∈ rh → isRouter (Hostname h) = true) → (∀ h, h ∈ bh → isRouter (Hostname h) = false) →
  SyncAll t rh bh tls i = (i', Ok sts) →
  i_initialized i' = true ∧ length sts = size (routers i') * size (brokers i') ∧
  (∀ h, is_Some (routers i' !! h) ↔ wanted rh !! Hostname h = Some h) ∧
  (∀ h, is_Some (brokers i' !! h) ↔ wanted bh !! Hostname h = Some h) ∧
  (∀ h r, routers i' !! h = Some r →
     initialized r = true ∧ is_Some (cached r RouterListenerEntity "readiness") ∧
     ∀ h' b, brokers i' !! h' = Some b → is_Some (cached r RouterConnectorEntity (connector_of b))) ∧
  (∀ h b, brokers i' !! h = Some b →
     b_initialized b = true ∧ is_Some (b_cached b BrokerQueueEntity "readiness")).
Proof. apply SyncAll_spec. Qed.

Definition sim_statuses : list ConnectorStatus :=
  [{| cs_Router := "router-0"; cs_Broker := "broker-0"; cs_Connected := false; cs_Message := "" |}].

Lemma sync_all_converges_witness : i_initialized (sim_synced false) = true.
Proof.
  refine (proj1 (sync_all_converges sim_isRouter [] [router_host] [broker_host] None (sim_infra false)
    _ sim_statuses (NewInfra_hosts_ok _ _ _) (proj1 sim_isRouter_hosts) (proj2 sim_isRouter_hosts)
    (run_outcome (SyncAll [] [router_host] [broker_host] None) _ _ _))).
  vm_compute. reflexivity.
Defined.

(** [SyncAll] never loses a resource: on every branch, also when it fails, the
    recorded addresses, endpoints and projects, the objects themselves and the
    answers given are what they were. *)
Theorem sync_all_keeps_resources {W} `{HC : !Client W} `{HS : !Sched} t rh bh tls (i : infraClient W) :
  let i' := (SyncAll t rh bh tls i).1 in
  addresses i' = addresses i ∧ endpoints i' = endpoints i ∧ projects i' = projects i ∧
  heap i' = heap i ∧ replies i' = replies i.
Proof. destruct (SyncAll_kept t rh bh tls i). auto. Qed.

(** C5. What an answer of [doSync] means: a request that is answered without error has
    its resource recorded, and an address answered without error has, for every
    active endpoint of its namespace, the entities built for it on all routers and
    brokers; if no request is answered without error, no resource is recorded. *)
Theorem sync_answer_sound {W} `{HC : !Client W} `{HS : !Sched} isRouter t requests
    (i i' : infraClient W) :
  hosts_ok isRouter i → i_initialized i = true → NoDup (done_chan <$> requests) →
  doSync t requests i = (i', Ok ()) →
  ∃ rs es, replies i' = replies i ++ rs ∧ heap i' = heap i ∧
    (∀ r, r ∈ requests → (done_chan r, None) ∈ rs → recorded i' r ∧
       ∀ l, req_resource r = RAddress l → ∀ e,
         active_in i (Namespace (a_meta (address_at (heap i) l))) e →
         address_configured i i' es (address_at (heap i) l) e) ∧
    ((∀ r, r ∈ requests → (done_chan r, None) ∉ rs) →
       addresses i' = addresses i ∧ endpoints i' = endpoints i ∧ projects i' = projects i).
Proof. apply doSync_spec. Qed.

Lemma sync_answer_sound_witness :
  heap (doSync [2] [address_request 2 0] (sim_ready false)).1 = heap (sim_ready false).
Proof.
  destruct (sync_answer_sound sim_isRouter [2] [address_request 2 0] (sim_ready false)
    (doSync [2] [address_request 2 0] (sim_ready false)).1) as (rs & es & _ & H & _).
  - apply sim_ready_hosts.
  - vm_compute. reflexivity.
  - apply NoDup_singleton.
  - apply (run_outcome (doSync [2] [address_request 2 0])). vm_compute. reflexivity.
  - exact H.
Defined.

(** [updateRouters] always succeeds; afterwards exactly the hosts asked for have a
    state, those that were known keep theirs, and the host names stay indexed. *)
Theorem update_routers_exact {W} `{HC : !Client W} `{HS : !Sched} t hosts (i : infraClient W) :
  indexed (routers i) (hostMap i) →
  ∃ rs hm, updateRouters t hosts i = (set_hostMap hm (set_routers rs i), Ok ()) ∧
    (∀ h, rs !! h = if decide (wanted hosts !! Hostname h = Some h)
                    then Some (default (new_router i h) (routers i !! h)) else None) ∧
    indexed rs hm ∧
    (∀ n, wanted hosts !! n = None → (∀ h, is_Some (routers i !! h) → Hostname h ≠ n) →
       hm !! n = hostMap i !! n).
Proof. apply updateRouters_spec. Qed.

Lemma update_routers_exact_witness :
  (updateRouters [] [router_host] (sim_synced false)).2 = Ok ().
Proof.
  destruct (update_routers_exact [] [router_host] (sim_synced false)) as (rs & hm & -> & _);
    [apply (ho_rindex _ _ (sim_synced_hosts false))|reflexivity].
Defined.

(** C17. [DeleteBroker] on every branch: an unknown broker changes nothing, a broker
    some project or address is placed on is refused with [BrokerInUseError] and
    nothing changes, any other broker is removed and no other one. *)
Theorem delete_broker_cases {W} `{HC : !Client W} `{HS : !Sched} isRouter t name (i : infraClient W) :
  hosts_ok isRouter i →
  ((∀ h, is_Some (brokers i !! h) → Hostname h ≠ name) → DeleteBroker t name i = (i, Ok ())) ∧
  ((∃ h, is_Some (brokers i !! h) ∧ Hostname h = name) → broker_used name i = true →
     DeleteBroker t name i = (i, Err BrokerInUseError)) ∧
  ((∃ h, is_Some (brokers i !! h) ∧ Hostname h = name) → broker_used name i = false →
     ∃ bs hm, DeleteBroker t name i = (set_hostMap hm (set_brokers bs i), Ok ()) ∧
       ∀ h, bs !! h = if decide (Hostname h = name) then None else brokers i !! h).
Proof. apply DeleteBroker_spec. Qed.

Lemma delete_broker_cases_witness :
  DeleteBroker [] "broker-0" (sim_ready true) = (sim_ready true, Err BrokerInUseError).
Proof.
  refine (proj1 (proj2 (delete_broker_cases sim_isRouter [] "broker-0" (sim_ready true) _)) _ _).
  - apply sim_ready_hosts.
  - exists broker_host. split; [|reflexivity].
    apply not_eq_None_Some. vm_compute. discriminate.
  - vm_compute. reflexivity.
Defined.

(** ** What is configured *)

(** Scheduling is enough: once [ScheduleAddress] has succeeded for an address of a
    recorded project, the router and broker entities of the address can be built for
    every active endpoint, and they are confined to the project, the connectors and
    the brokers the client knows. *)
Theorem scheduled_address_builds {W} `{HC : !Client W} `{HS : !Sched} `{HD : !Scheduler W}
    `{HL : !SchedulerLaws W} isRouter t t1 t2 l (i i' : infraClient W) e pl :
  hosts_ok isRouter i →
  (∀ k pl b, projects i !! k = Some pl → ps_Broker (p_Status (project_at (heap i) pl)) = Some b →
     is_Some (find_broker i (ab_Host b))) →
  placed i (address_at (heap i) l) →
  projects i !! default_project (Namespace (a_meta (address_at (heap i) l))) = Some pl →
  isEndpointActive e = true → ScheduleAddress t l i = (i', Ok ()) →
  let pid := es_StatusHost (e_Status e) in
  let a := address_at (heap i') l in
  (∃ es, buildRouterAddressEntities t1 i' e a = Ok es ∧ ∀ x, x ∈ es → confined i' pid a x) ∧
  (∃ m, buildBrokerAddressEntities t2 i' e a = Ok m ∧ b_targets i' (b_confined pid a) m).
Proof. apply scheduled_builds. Qed.

Lemma scheduled_address_builds_witness :
  let i' := (ScheduleAddress [] 0 (sim_ready false)).1 in
  ∃ es, buildRouterAddressEntities [] i' (sim_endpoint [amqp_port]) (address_at (heap i') 0) = Ok es.
Proof.
  destruct (scheduled_address_builds sim_isRouter [] [] [] 0 (sim_ready false)
    (ScheduleAddress [] 0 (sim_ready false)).1 (sim_endpoint [amqp_port]) 0) as [(es & H & _) _].
  - apply sim_ready_hosts.
  - rewrite sim_ready_heap. discriminate.
  - rewrite sim_ready_heap. intros b ->%list_elem_of_singleton.
    apply not_eq_None_Some. vm_compute. discriminate.
  - vm_compute. reflexivity.
  - reflexivity.
  - apply (run_outcome (ScheduleAddress [] 0)). vm_compute. reflexivity.
  - exists es. exact H.
Defined.

(** C19. Isolation of tenants: the router entities built for addresses of two projects
    whose identifiers differ and contain no slash are never about the same address. *)
Theorem tenant_isolation {W} `{HC : !Client W} `{HS : !Sched} t1 t2 (i1 i2 : infraClient W)
    e1 e2 a1 a2 es1 es2 :
  let pid1 := es_StatusHost (e_Status e1) in
  let pid2 := es_StatusHost (e_Status e2) in
  lacks slash pid1 = true → lacks slash pid2 = true → pid1 ≠ pid2 →
  buildRouterAddressEntities t1 i1 e1 a1 = Ok es1 → buildRouterAddressEntities t2 i2 e2 a2 = Ok es2 →
  ∀ x1 x2, x1 ∈ es1 → x2 ∈ es2 → router_target x1 ≠ router_target x2.
Proof.
  intros pid1 pid2 H1 H2 Hne Hb1 Hb2 x1 x2 Hx1 Hx2.
  eapply (confined_apart i1 i2 pid1 pid2 a1 a2); [done..| |];
    by eapply buildRouterAddress_confined.
Qed.

(** An endpoint of the same namespace under another host name. *)
Definition other_endpoint : MessagingEndpoint := {|
  e_meta := e_meta (sim_endpoint []);
  e_Spec := e_Spec (sim_endpoint []);
  e_Status := {| es_Phase := MessagingEndpointActive; es_Type := "Cluster"; es_Message := "";
                 es_Conditions := []; es_StatusHost := "other.ns"; es_Ports := []; es_Tls := None;
                 es_InternalPorts := [] |} |}.

Lemma tenant_isolation_witness :
  router_target (mk_address "address-ep.ns-q0" "ep.ns/q0" "balanced" true) ≠
  router_target (mk_address "address-other.ns-q0" "other.ns/q0" "balanced" true).
Proof.
  eapply (tenant_isolation [] [] (sim_ready false) (sim_ready false) (sim_endpoint []) other_endpoint
    (sim_queue "q0" []) (sim_queue "q0" [])); try (vm_compute; reflexivity).
  - discriminate.
  - left.
  - left.
Defined.

(** The listeners of an endpoint: each of its internal ports gets a listener that
    requires TLS exactly when the protocol is AMQPS and speaks HTTP exactly for the
    websocket protocols; a listener with a TLS profile has the profile among the
    entities, created in an earlier round. *)
Theorem endpoint_listener_tls e :
  ∃ es, buildRouterEndpointEntities e = Ok es ∧
    (∀ p, p ∈ InternalPorts e →
       let l := port_listener (port_sslProfile e p) p in
       EListener l ∈ es ∧
       (rl_SslProfile l ≠ "" ↔ p_Protocol p = MessagingProtocolAMQPS ∨
          (p_Protocol p = MessagingProtocolAMQPWSS ∧ IsEdgeTerminated e = false)) ∧
       (rl_RequireSsl l = true ↔ p_Protocol p = MessagingProtocolAMQPS) ∧
       (rl_Http l = true ↔ p_Protocol p = MessagingProtocolAMQPWS ∨
          p_Protocol p = MessagingProtocolAMQPWSS)) ∧
    (∀ l, EListener l ∈ es → rl_SslProfile l ≠ "" →
       ∃ s, ESslProfile s ∈ es ∧ sp_Name s = rl_SslProfile l ∧
         Order (ESslProfile s) < Order (EListener l)).
Proof.
  eexists. split; [reflexivity|]. split.
  - intros p Hp. split; [by apply (endpoint_listener e _ p eq_refl)|apply listener_tls].
  - intros l. by apply (endpoint_profile e _ l eq_refl).
Qed.

(** The next synchronization of a host is planned between 10 and 30 seconds after
    the interval of the client has passed. *)
Theorem resync_bounds {W} `{HS : !Sched} t (i : infraClient W) now :
  (now + resyncInterval i + 10 * second ≤ randomResync t i now
     < now + resyncInterval i + 30 * second)%Z.
Proof.
  unfold randomResync. pose proof (intn_ok t (30 - 10) ltac:(lia)). unfold second. lia.
Qed.

(** ** Ports *)

(** C21. [AllocatePorts] on every branch: it succeeds only when the client is
    initialized and then the endpoint has a port for every protocol asked for; the
    ports it adds are bound to their names and were free or bound to that name
    before; bindings and other endpoints are kept; it fails only for an
    uninitialized client or when no port is left, and never crashes. *)
Theorem allocate_ports {W} `{HC : !Client W} `{HS : !Sched} t l protocols (i : infraClient W) :
  ports_wf (ports i) →
  match AllocatePorts t l protocols i with
  | (i', Ok _) =>
      i_initialized i = true ∧ allocated l protocols i i' ∧
      ∀ protocol, protocol ∈ protocols → has_port l protocol i'
  | (i', Err e) =>
      (i_initialized i = false ∧ i' = i ∧ e = NotInitializedError) ∨
      (allocated l protocols i i' ∧ e = Errorf "no ports available" ∧
       ∀ q, pool (ports i') !! q ≠ Some None)
  | (_, Panic) => False
  end.
Proof. apply AllocatePorts_spec. Qed.

Lemma allocate_ports_witness :
  match AllocatePorts [] 0 [MessagingProtocolAMQP; MessagingProtocolAMQPS] (sim_synced false) with
  | (_, Panic) => False
  | _ => True
  end.
Proof.
  generalize (allocate_ports [] 0 [MessagingProtocolAMQP; MessagingProtocolAMQPS] (sim_synced false)
    (sim_synced_ports false)).
  destruct (AllocatePorts _ _ _ _) as [i' []]; auto.
Defined.

(** Idempotence: an endpoint that has a port for every protocol is left alone. *)
Theorem allocate_again {W} `{HC : !Client W} `{HS : !Sched} t l protocols (i : infraClient W) :
  i_initialized i = true → (∀ protocol, protocol ∈ protocols → has_port l protocol i) →
  AllocatePorts t l protocols i = (i, Ok ()).
Proof. apply AllocatePorts_again. Qed.

Lemma allocate_again_witness :
  AllocatePorts [] 0 [MessagingProtocolAMQP] (sim_synced false) = (sim_synced false, Ok ()).
Proof.
  apply (allocate_again [] 0 [MessagingProtocolAMQP] (sim_synced false)).
  - vm_compute. reflexivity.
  - intros protocol ->%list_elem_of_singleton. exists amqp_port.
    split; [vm_compute; left|vm_compute; reflexivity].
Defined.

(** [FreePorts] releases exactly the ports of the endpoint that are not HTTP
    listeners, which the router cannot delete, and keeps those in the endpoint; it
    touches no other port and no other endpoint. *)
Theorem free_ports {W} `{HC : !Client W} l (i : infraClient W) :
  i_initialized i = true →
  let i' := FreePorts l i in
  let before := InternalPorts (endpoint_at (heap i) l) in
  InternalPorts (endpoint_at (heap i') l) = filter (λ p, keeps_port p = true) before ∧
  (∀ q, bound (ports i') q =
     if decide (q ∈ p_Port <$> filter (λ p, keeps_port p = false) before)
     then None else bound (ports i) q) ∧
  (∀ l', l' ≠ l → endpoint_at (heap i') l' = endpoint_at (heap i) l').
Proof. apply FreePorts_spec. Qed.

Lemma free_ports_witness : InternalPorts (endpoint_at (heap (FreePorts 0 (sim_synced false))) 0) = [].
Proof.
  destruct (free_ports 0 (sim_synced false)) as [H _]; [vm_compute; reflexivity|].
  rewrite H. vm_compute. reflexivity.
Defined.

(** Port names: endpoints whose namespace and name contain no dash share the name
    of a port only if they are the same endpoint, with the same protocol. *)
Theorem port_names_distinct e1 e2 p1 p2 :
  lacks dash (Namespace (e_meta e1)) = true → lacks dash (Namespace (e_meta e2)) = true →
  lacks dash (Name (e_meta e1)) = true → lacks dash (Name (e_meta e2)) = true →
  portName e1 p1 = portName e2 p2 → e_meta e1 = e_meta e2 ∧ p1 = p2.
Proof. apply portName_inj. Qed.

Lemma port_names_distinct_witness :
  e_meta (sim_endpoint []) = e_meta other_endpoint ∧ MessagingProtocolAMQP = MessagingProtocolAMQP.
Proof.
  apply (port_names_distinct (sim_endpoint []) other_endpoint); vm_compute; reflexivity.
Defined.
