(* ===== verification/OperatorProps.v ===== *)
(** The properties of the operator around the client (life cycle, client manager,
    conditions), and the behaviours the model shows that the program does not mean
    to have, each as a theorem with a run. *)
From stdpp Require Import base functions fin_maps gmap strings relations list.
From S2P Require Import Prelude Go Client RouterTypes Router RouterFacts RouterSim.
From S2P Require Import ApiV1 Conditions BrokerTypes Broker BrokerFacts Names Ports.
From S2P Require Import Scheduler Infra Entities Sync InfraFacts EntityFacts.
From S2P Require Import SyncFacts ConfigFacts SyncAllFacts Safety System Lifecycle.
From S2P Require Import Manager Sim.

#[local] Existing Instance sched_id.
#[local] Existing Instance SimClient | 0.

(** ** The life cycle of a client *)

(** C28. Deadlock: [Shutdown] takes the lock and then waits for the syncer to receive
    the stop signal, while the syncer, with requests collected, waits for the lock.
    Such a state is reachable and [Shutdown] never returns from it. *)
Theorem shutdown_deadlock :
  ∃ s, rtc thread_step started s ∧ ∀ s', rtc thread_step s s' → stop_pc s' ≠ Returned.
Proof.
  destruct stuck_reachable as (s & Hs & Hst). exists s. split; [done|].
  intros s'. by apply stuck_forever.
Qed.

(** With idle workers and a free lock, [Shutdown] can run to its end: both workers
    stop and it returns. *)
Theorem shutdown_completes s :
  idle (sync_pc s) → idle (delete_pc s) → lock s = None → stop_pc s = NotCalled →
  rtc thread_step s (Build_Threads None Stopped Stopped Returned).
Proof. apply idle_shutdown. Qed.

Lemma shutdown_completes_witness :
  rtc thread_step started (Build_Threads None Stopped Stopped Returned).
Proof. apply (shutdown_completes started); [left; reflexivity|left; reflexivity|reflexivity..]. Defined.

(** ** The client manager *)

(** The manager keeps one client per infrastructure: a client, once created, is
    the one every later [GetClient] for that infrastructure finds, until it is
    deleted, and no other infrastructure gets it. *)
Theorem manager_clients {W} `{HC : !Client W} `{HS : !Sched} ops ops' k c :
  let m := foldl run_op (NewClientManager (W := W)) ops in
  let m' := foldl run_op m ops' in
  clients m !! k = Some c → Forall (λ op, ¬ deletes k op) ops' →
  clients m' !! k = Some c ∧ (∀ k', clients m' !! k' = Some c → k' = k) ∧ c < length (store m').
Proof.
  intros m m' Hk Hops. pose proof (client_kept ops' m k c Hk Hops) as Hk'.
  assert (manager_ok m') as Hm' by (apply run_ops_ok, run_ops_ok, NewClientManager_ok).
  split_and!; [done| |by apply (mo_store _ Hm' k)]. intros k' H'. by apply (mo_inj _ Hm' k' k c).
Qed.

Definition infra_meta (n : string) : ObjectMeta := {| Name := n; Namespace := "ns" |}.

Lemma manager_clients_witness :
  let op n := OpGet (sim_heap false) 0 (infra_meta n) in
  clients (foldl run_op (foldl run_op (NewClientManager (W := MemRouter)) [op "a"]) [op "b"; op "a"])
    !! client_key (infra_meta "a") = Some 0.
Proof.
  refine (proj1 (manager_clients [OpGet (sim_heap false) 0 (infra_meta "a")]
    [OpGet (sim_heap false) 0 (infra_meta "b"); OpGet (sim_heap false) 0 (infra_meta "a")]
    (client_key (infra_meta "a")) 0 _ _)).
  - vm_compute. reflexivity.
  - repeat constructor; intros [].
Defined.

(** ** Conditions *)

(** A condition set through the pointer [GetCondition] has just returned is set in
    the status: it has the new status, reason and message, its transition time moves
    exactly when the status changes, and no other condition is touched. *)
Theorem condition_update grow now t h s hs' p now' st re me :
  valid_slice h s → GetCondition grow now t (h, s) = (hs', p) →
  ∃ c, load hs'.1 p = Some c ∧ c_Type c = t ∧
    contents (SetStatus now' st re me p hs'.1) hs'.2 =
      <[p.2 := {| c_Type := t; c_Status := st;
                  c_LastTransitionTime := if bool_decide (c_Status c = st)
                                          then c_LastTransitionTime c else now';
                  c_Reason := re; c_Message := me |}]> (contents hs'.1 hs'.2).
Proof.
  intros Hv Hrun. destruct (GetCondition_spec grow now t h s hs' p Hv Hrun)
    as (_ & Hl & (c & Hc & Ht) & _).
  exists c. split_and!; [done..|]. rewrite (SetStatus_live now' st re me p _ _ c Hl Hc).
  unfold set_status. rewrite Ht. by case_bool_decide as E; [rewrite E|].
Qed.

Definition double (n : nat) : nat := if bool_decide (n = 0) then 1 else 2 * n.

Lemma condition_update_witness :
  let hs := GetCondition double 5 "Ready" ([], None) in
  ∃ c, load hs.1.1 hs.2 = Some c ∧ c_Type c = "Ready".
Proof.
  destruct (condition_update double 5 "Ready" [] None (GetCondition double 5 "Ready" ([], None)).1
    (GetCondition double 5 "Ready" ([], None)).2 6 ConditionTrue "" "" I eq_refl)
    as (c & H1 & H2 & _).
  by exists c.
Defined.

(** A condition set through an earlier pointer can be lost: when the slice is full
    and a condition that is not there yet is asked for, [append] moves the slice, and
    setting the status through a pointer obtained before does not reach it. The
    address and infrastructure controllers obtain all their pointers first. *)
Theorem condition_update_lost grow now t h a n arr p st re me :
  h !! a = Some arr → length arr = n →
  t ∉ c_Type <$> contents h (Some (a, n)) → p.1 = a →
  let hs := (GetCondition grow now t (h, Some (a, n))).1 in
  contents (SetStatus now st re me p hs.1) hs.2 = contents hs.1 hs.2.
Proof. apply GetCondition_stale. Qed.

Definition one_condition : Arrays := [[Build_Condition "FoundProject" ConditionUnknown 5 "" ""]].

Lemma condition_update_lost_witness :
  GetCondition double 5 "FoundProject" ([], None) = ((one_condition, Some (0, 1)), (0, 0)) ∧
  let hs := (GetCondition double 5 "Validated" (one_condition, Some (0, 1))).1 in
  contents (SetStatus 5 ConditionTrue "" "" (0, 0) hs.1) hs.2 = contents hs.1 hs.2.
Proof.
  split; [reflexivity|].
  apply (condition_update_lost double 5 "Validated" one_condition 0 1
    [Build_Condition "FoundProject" ConditionUnknown 5 "" ""]).
  - reflexivity.
  - reflexivity.
  - intros H. apply list_elem_of_singleton in H. discriminate H.
  - reflexivity.
Defined.

(** ** Ports *)

(** [initPorts] stores the address of the loop variable: after it has run over the
    internal ports of an endpoint, all of them are bound to one name, that of the
    last port; when two of the names differ, some port is not bound to its own name. *)
Theorem init_ports_aliases p ps :
  ports_wf p →
  (∀ x, x ∈ ps → bound (init_endpoint p ps) (p_Port x) = p_Name <$> last ps) ∧
  ((∃ x y, x ∈ ps ∧ y ∈ ps ∧ p_Name x ≠ p_Name y) →
     ∃ z, z ∈ ps ∧ bound (init_endpoint p ps) (p_Port z) ≠ Some (p_Name z)).
Proof.
  intros Hp.
  assert (∀ x, x ∈ ps → bound (init_endpoint p ps) (p_Port x) = p_Name <$> last ps) as Hall.
  { intros x Hx. destruct (bound_init_endpoint p ps (p_Port x) Hp) as [_ ->].
    rewrite decide_True by by apply list_elem_of_fmap_2. done. }
  split; [done|]. intros (x & y & Hx & Hy & Hne).
  destruct (decide (p_Name <$> last ps = Some (p_Name x))) as [E|E]; [exists y|exists x];
    split; try done; rewrite Hall by done; congruence.
Qed.

Definition amqps_port : MessagingEndpointPort :=
  {| p_Name := "ns-ep-AMQPS"; p_Protocol := MessagingProtocolAMQPS; p_Port := 40001 |}.

Lemma init_ports_aliases_witness :
  bound (init_endpoint newPorts [amqp_port; amqps_port]) 40000 = Some "ns-ep-AMQPS".
Proof.
  apply (proj1 (init_ports_aliases newPorts [amqp_port; amqps_port] newPorts_wf) amqp_port). left.
Defined.

Definition named_endpoint (ns n : string) : MessagingEndpoint := {|
  e_meta := {| Name := n; Namespace := ns |};
  e_Spec := e_Spec (sim_endpoint []);
  e_Status := e_Status (sim_endpoint []) |}.

(** Two endpoints of different namespaces. *)
Definition two_endpoints : Heap := {|
  address_at := address_at (sim_heap false);
  endpoint_at l := if bool_decide (l = 0) then named_endpoint "a" "b-c" else named_endpoint "a-b" "c";
  project_at := project_at (sim_heap false) |}.

(** Port names join namespace, name and protocol with dashes, which names may
    contain: the endpoints [b-c] of namespace [a] and [c] of namespace [a-b] are
    given the same port, so that their tenants share one listener. *)
Theorem port_names_collide :
  let i := set_heap two_endpoints (sim_synced false) in
  let i1 := (AllocatePorts [] 0 [MessagingProtocolAMQP] i).1 in
  let i2 := (AllocatePorts [] 1 [MessagingProtocolAMQP] i1).1 in
  let e0 := endpoint_at (heap i2) 0 in
  let e1 := endpoint_at (heap i2) 1 in
  e_meta e0 ≠ e_meta e1 ∧ InternalPorts e0 = InternalPorts e1 ∧ InternalPorts e0 ≠ [] ∧
  buildRouterEndpointEntities e0 = buildRouterEndpointEntities e1.
Proof. split_and!; vm_compute; [discriminate|reflexivity|discriminate|reflexivity]. Qed.

(** ** Batches *)

(** [doDelete] does not check that the project of an address is recorded, and
    building the address dereferences it: the deletion of an address crashes the
    operator when the project is gone while an endpoint of the namespace is active. *)
Theorem delete_without_project_crashes {W} `{HC : !Client W} `{HS : !Sched} t r l
    (i : infraClient W) e :
  i_initialized i = true → req_resource r = RAddress l →
  projects i !! default_project (Namespace (a_meta (address_at (heap i) l))) = None →
  active_in i (Namespace (a_meta (address_at (heap i) l))) e →
  (doDelete t [r] i).2 = Panic.
Proof. apply doDelete_crashes. Qed.

(** The project is deleted while its endpoint is still there. *)
Definition sim_no_project : infraClient MemRouter :=
  (doDelete [3] [{| done_chan := 3; req_resource := RProject 0 |}] (sim_ready false)).1.

Lemma delete_without_project_crashes_witness :
  (doDelete [4] [{| done_chan := 4; req_resource := RAddress 0 |}] sim_no_project).2 = Panic.
Proof.
  apply (delete_without_project_crashes [4] {| done_chan := 4; req_resource := RAddress 0 |} 0
    sim_no_project (sim_endpoint [amqp_port])).
  - vm_compute. reflexivity.
  - reflexivity.
  - vm_compute. reflexivity.
  - split; [reflexivity|]. split; [vm_compute; reflexivity|].
    exists {| k_Name := "ep"; k_Namespace := "ns" |}, 0. split; vm_compute; reflexivity.
Defined.

Definition sync_one (n : nat) (l : loc) (i : infraClient MemRouter) : infraClient MemRouter :=
  (doSync [n] [{| done_chan := n; req_resource := RAddress l |}] i).1.

(** Two queues of a transactional project, synchronized one after the other. *)
Definition sim_two_queues : infraClient MemRouter := sync_one 3 1 (sync_one 2 0 (sim_ready true)).

Definition router_routes (i : infraClient MemRouter) : option (gmap string RouterEntity) :=
  routers i !! router_host ≫= λ r, entities r !! RouterLinkRouteEntity.

(** The addresses of a transactional project share the link routes of the project,
    and the deletion of one address deletes them: after the first of two queues is
    deleted the second is still recorded, and the router has no link route left. *)
Theorem delete_breaks_project :
  let key := {| k_Name := "q1"; k_Namespace := "ns" |} in
  let i := (doDelete [4] [{| done_chan := 4; req_resource := RAddress 0 |}] sim_two_queues).1 in
  replies i = [(0, None); (1, None); (2, None); (3, None); (4, None)] ∧
  addresses i !! key = Some 1 ∧
  size <$> router_routes sim_two_queues = Some 2 ∧ router_routes i = Some ∅.
Proof. split_and!; vm_compute; reflexivity. Qed.

(** Two addresses of a transactional project in one batch ask for the same link
    routes twice; [EnsureEntities] sends both requests, the router refuses the second
    and the batch fails for both addresses, which in two batches succeed. *)
Theorem batch_duplicates_fail :
  let r0 := {| done_chan := 2; req_resource := RAddress 0 |} in
  let r1 := {| done_chan := 3; req_resource := RAddress 1 |} in
  let i := (doSync [2] [r0; r1] (sim_ready true)).1 in
  (∃ err, replies i = [(0, None); (1, None); (2, Some err); (3, Some err)]) ∧
  addresses i = ∅ ∧
  replies sim_two_queues = [(0, None); (1, None); (2, None); (3, None)].
Proof.
  split_and!; [|vm_compute; reflexivity..]. eexists. vm_compute. reflexivity.
Qed.
