(* ===== verification/GoStrings.v ===== *)
(** The parts of [strings], [unicode/utf8], [regexp] and [strconv] that the console's
    packages use, on Go strings, which are sequences of bytes. *)
From stdpp Require Import base strings list numbers.
From Stdlib Require Import Ascii.
From S2P Require Import Prelude.

(** ** [strings] *)

(** [strings.HasPrefix]. *)
Fixpoint HasPrefix (s pre : string) {struct pre} : bool :=
  match pre, s with
  | EmptyString, _ => true
  | String c pre', String d s' => Ascii.eqb c d && HasPrefix s' pre'
  | String _ _, EmptyString => false
  end.

(** [strings.Replace(s, old, new, -1)] for a non-empty [old]: the instances of [old]
    that do not overlap, from the left; [skip] bytes belong to the last instance. *)
Fixpoint replace_from (old new : string) (skip : nat) (s : string) : string :=
  match s with
  | EmptyString => EmptyString
  | String c s' =>
      match skip with
      | S skip' => replace_from old new skip' s'
      | 0 =>
          if HasPrefix s old
          then new +:+ replace_from old new (String.length old - 1) s'
          else String c (replace_from old new 0 s')
      end
  end.

Definition ReplaceAll (s old new : string) : string := replace_from old new 0 s.

(** [strings.Index(s, sub)] for a substring of one byte. *)
Fixpoint index_byte (s : string) (c : ascii) : Z :=
  match s with
  | EmptyString => -1
  | String d s' =>
      if Ascii.eqb d c then 0
      else let i := index_byte s' c in if bool_decide (i = -1)%Z then -1 else i + 1
  end.

(** [strings.TrimSuffix(s, suffix)] for a suffix of one byte. *)
Fixpoint trim_suffix_byte (s : string) (c : ascii) : string :=
  match s with
  | EmptyString => EmptyString
  | String d EmptyString => if Ascii.eqb d c then EmptyString else s
  | String d s' => String d (trim_suffix_byte s' c)
  end.

(** [strings.Join]. *)
Fixpoint Join (l : list string) (sep : string) : string :=
  match l with
  | [] => ""
  | [s] => s
  | s :: l' => s +:+ sep +:+ Join l' sep
  end.

(** ** [unicode/utf8] *)

Definition byte_of (c : ascii) : Z := Z.of_N (N_of_ascii c).

Definition between (lo hi b : Z) : bool := (lo <=? b)%Z && (b <=? hi)%Z.

(** The range of the second byte after a first byte [b] of a sequence of more than two
    bytes. *)
Definition second_range (b : Z) : Z * Z :=
  if (b =? 0xe0)%Z then (0xa0, 0xbf)%Z
  else if (b =? 0xed)%Z then (0x80, 0x9f)%Z
  else if (b =? 0xf0)%Z then (0x90, 0xbf)%Z
  else if (b =? 0xf4)%Z then (0x80, 0x8f)%Z
  else (0x80, 0xbf)%Z.

Definition RuneError : Z := 0xfffd.

(** The low six bits a continuation byte carries. *)
Definition low6 (b : Z) : Z := (b - 0x80)%Z.

(** The next byte, when it is in a range. *)
Definition next_byte (lo hi : Z) (s : list Z) : option (Z * list Z) :=
  match s with
  | b :: s' => if between lo hi b then Some (b, s') else None
  | [] => None
  end.

(** [utf8.DecodeRune]: the first rune and the bytes after it; [None] when the bytes are
    not a valid sequence, which is decoded as [RuneError] of one byte. *)
Definition decode_rune (b0 : Z) (s : list Z) : option (Z * list Z) :=
  let '(lo, hi) := second_range b0 in
  if (b0 <? 0x80)%Z then Some (b0, s)
  else if between 0xc2 0xdf b0 then
    '(b1, s) ← next_byte 0x80 0xbf s;
    Some ((b0 - 0xc0) * 64 + low6 b1, s)%Z
  else if between 0xe0 0xef b0 then
    '(b1, s) ← next_byte lo hi s;
    '(b2, s) ← next_byte 0x80 0xbf s;
    Some ((b0 - 0xe0) * 4096 + low6 b1 * 64 + low6 b2, s)%Z
  else if between 0xf0 0xf4 b0 then
    '(b1, s) ← next_byte lo hi s;
    '(b2, s) ← next_byte 0x80 0xbf s;
    '(b3, s) ← next_byte 0x80 0xbf s;
    Some ((b0 - 0xf0) * 262144 + low6 b1 * 4096 + low6 b2 * 64 + low6 b3, s)%Z
  else None.

(** [utf8.EncodeRune]. *)
Definition encode_rune (r : Z) : list Z :=
  if (r <? 0x80)%Z then [r]
  else if (r <? 0x800)%Z then [0xc0 + r / 64; 0x80 + r mod 64]%Z
  else if (r <? 0x10000)%Z then [0xe0 + r / 4096; 0x80 + (r / 64) mod 64; 0x80 + r mod 64]%Z
  else [0xf0 + r / 262144; 0x80 + (r / 4096) mod 64; 0x80 + (r / 64) mod 64; 0x80 + r mod 64]%Z.

(** The runes of a byte sequence; a byte that starts no valid sequence gives [None].
    Every call consumes at least one byte, so the length of the sequence is enough. *)
Fixpoint decode_bytes (n : nat) (s : list Z) : list (option Z) :=
  match n, s with
  | S n, b :: s' =>
      match decode_rune b s' with
      | Some (r, rest) => Some r :: decode_bytes n rest
      | None => None :: decode_bytes n s'
      end
  | _, _ => []
  end.

Definition bytes_of (s : string) : list Z := byte_of <$> String.list_ascii_of_string s.

Definition decode (s : string) : list (option Z) :=
  decode_bytes (length (bytes_of s)) (bytes_of s).

(** [utf8.ValidString]. *)
Definition ValidString (s : string) : bool := forallb (λ r, bool_decide (is_Some r)) (decode s).

(** The runes a loop over the string sees. *)
Definition runes (s : string) : list Z := default RuneError <$> decode s.

(** ** [regexp] *)

(** The bytes [regexp.QuoteMeta] puts a backslash before. *)
Definition special (c : ascii) : bool :=
  existsb (Ascii.eqb c) (String.list_ascii_of_string "\.+*?()|[]{}^$").

Fixpoint QuoteMeta (s : string) : string :=
  match s with
  | EmptyString => EmptyString
  | String c s' => if special c then String "\" (String c (QuoteMeta s')) else String c (QuoteMeta s')
  end.

(** Regular expressions that are concatenations of characters, [.], [.*] and the anchors
    of the text. *)
Inductive re_item :=
  | BeginText
  | EndText
  | Literal (r : Z)
  | AnyCharNotNL
  | StarAnyCharNotNL.

#[global] Instance re_item_eq_dec : EqDecision re_item.
Proof. solve_decision. Defined.

Definition rune (c : ascii) : Z := byte_of c.
Definition newline : Z := 10.

(** An ASCII character that is neither a letter nor a digit: after a backslash it stands
    for itself. *)
Definition punctuation (r : Z) : bool :=
  between 0x20 0x2f r || between 0x3a 0x40 r || between 0x5b 0x60 r || between 0x7b 0x7e r.

(** [regexp/syntax.Parse] on that fragment; [None] outside of it. *)
Fixpoint re_parse (p : list Z) : option (list re_item) :=
  match p with
  | [] => Some []
  | r :: p' =>
      if (r =? rune "\")%Z then
        match p' with
        | q :: p'' => if punctuation q then cons (Literal q) <$> re_parse p'' else None
        | [] => None
        end
      else if (r =? rune "^")%Z then cons BeginText <$> re_parse p'
      else if (r =? rune "$")%Z then cons EndText <$> re_parse p'
      else if (r =? rune ".")%Z then
        match p' with
        | q :: p'' =>
            if (q =? rune "*")%Z then
              match p'' with
              | q' :: _ =>
                  if existsb (λ c, (q' =? rune c)%Z) ["*"; "+"; "?"; "{"]%char then None
                  else cons StarAnyCharNotNL <$> re_parse p''
              | [] => Some [StarAnyCharNotNL]
              end
            else cons AnyCharNotNL <$> re_parse p'
        | [] => Some [AnyCharNotNL]
        end
      else if existsb (λ c, (r =? rune c)%Z) ["*"; "+"; "?"; "("; ")"; "|"; "["; "]"; "{"; "}"]%char
      then None
      else cons (Literal r) <$> re_parse p'
  end.

(** Some suffix reached over characters that are not newlines satisfies [k]. *)
Fixpoint star_any (k : list Z → bool) (s : list Z) : bool :=
  k s || match s with
         | r :: s' => negb (r =? newline)%Z && star_any k s'
         | [] => false
         end.

(** A match that begins here; [begin] tells whether this is the beginning of the text. *)
Fixpoint match_here (re : list re_item) (begin : bool) (s : list Z) : bool :=
  match re with
  | [] => true
  | BeginText :: re' => begin && match_here re' begin s
  | EndText :: re' => match s with [] => match_here re' begin s | _ => false end
  | Literal r :: re' =>
      match s with q :: s' => (q =? r)%Z && match_here re' false s' | [] => false end
  | AnyCharNotNL :: re' =>
      match s with q :: s' => negb (q =? newline)%Z && match_here re' false s' | [] => false end
  | StarAnyCharNotNL :: re' =>
      star_any (λ s', match_here re' (begin && bool_decide (length s' = length s)) s') s
  end.

(** A match that begins anywhere. *)
Fixpoint search (re : list re_item) (begin : bool) (s : list Z) : bool :=
  match_here re begin s || match s with [] => false | _ :: s' => search re false s' end.

(** [regexp.MatchString]: [None] when the pattern is not accepted. *)
Definition MatchString (pattern s : string) : option bool :=
  if ValidString pattern then
    match re_parse (runes pattern) with
    | Some re => Some (search re true (runes s))
    | None => None
    end
  else None.

(** ** Bytes *)

Lemma byte_of_range c : (0 <= byte_of c < 256)%Z.
Proof. unfold byte_of. pose proof (N_ascii_bounded c). lia. Qed.

Lemma byte_of_inj c d : byte_of c = byte_of d → c = d.
Proof.
  unfold byte_of. intros H%N2Z.inj. by rewrite <-(ascii_N_embedding c), H, ascii_N_embedding.
Qed.
