(* ===== verification/FilterExpr.v ===== *)
(** Filter expressions of the console ([pkg/consolegraphql/filter/support.go]): the
    values they range over, their evaluation and the ordering of objects. The console
    runs on a 64-bit platform. *)
From stdpp Require Import base strings list numbers.
From Stdlib Require Import SpecFloat.
From S2P Require Import Prelude GoStrings.

(** ** Values *)

Inductive IntKind :=
  Int | Int8 | Int16 | Int32 | Int64 | Uint | Uint8 | Uint16 | Uint32 | Uint64.
Inductive FloatKind := Float32 | Float64.

#[global] Instance IntKind_eq_dec : EqDecision IntKind.
Proof. solve_decision. Defined.
#[global] Instance FloatKind_eq_dec : EqDecision FloatKind.
Proof. solve_decision. Defined.
#[global] Instance spec_float_eq_dec : EqDecision spec_float.
Proof. solve_decision. Defined.

(** The dynamic types: the predeclared numeric, boolean and string types have the empty
    name, types declared from them a name of their own. *)
Inductive GoType :=
  | TInt (name : string) (k : IntKind)
  | TFloat (name : string) (k : FloatKind)
  | TBool (name : string)
  | TString (name : string)
  | TNull
  | TTime
  | TMetaTime
  | TOther (name : string).

#[global] Instance GoType_eq_dec : EqDecision GoType.
Proof. solve_decision. Defined.

(** What an [interface{}] holds: [VNull] is the package's [nullVal], [VTime] a
    [time.Time], [VMetaTime] a [v1.Time], [VNil] the nil interface. *)
Inductive value :=
  | VInt (name : string) (k : IntKind) (z : Z)
  | VFloat (name : string) (k : FloatKind) (f : spec_float)
  | VBool (name : string) (b : bool)
  | VString (name : string) (s : string)
  | VNull
  | VTime (t : Z)
  | VMetaTime (t : Z)
  | VOther (name : string)
  | VNil.

#[global] Instance value_eq_dec : EqDecision value.
Proof. solve_decision. Defined.

(** [reflect.TypeOf]; the type of the nil interface is nil. *)
Definition TypeOf (v : value) : option GoType :=
  match v with
  | VInt n k _ => Some (TInt n k)
  | VFloat n k _ => Some (TFloat n k)
  | VBool n _ => Some (TBool n)
  | VString n _ => Some (TString n)
  | VNull => Some TNull
  | VTime _ => Some TTime
  | VMetaTime _ => Some TMetaTime
  | VOther n => Some (TOther n)
  | VNil => None
  end.

Definition signed (k : IntKind) : bool :=
  match k with Int | Int8 | Int16 | Int32 | Int64 => true | _ => false end.

Definition int_bits (k : IntKind) : Z :=
  match k with
  | Int8 | Uint8 => 8
  | Int16 | Uint16 => 16
  | Int32 | Uint32 => 32
  | Int | Int64 | Uint | Uint64 => 64
  end.

Definition float_bits (k : FloatKind) : Z := match k with Float32 => 32 | Float64 => 64 end.

(** The least and the greatest value of an integer type. *)
Definition int_min (k : IntKind) : Z := if signed k then - 2 ^ (int_bits k - 1) else 0.
Definition int_max (k : IntKind) : Z :=
  if signed k then 2 ^ (int_bits k - 1) - 1 else 2 ^ int_bits k - 1.

(** Conversion to an integer type wraps around. *)
Definition int_wrap (k : IntKind) (z : Z) : Z :=
  if signed k then ((z + 2 ^ (int_bits k - 1)) mod 2 ^ int_bits k - 2 ^ (int_bits k - 1))%Z
  else (z mod 2 ^ int_bits k)%Z.

(** The precision and the exponent bound of the floating point formats. *)
Definition float_prec (k : FloatKind) : Z := match k with Float32 => 24 | Float64 => 53 end.
Definition float_emax (k : FloatKind) : Z := match k with Float32 => 128 | Float64 => 1024 end.

(** [float32(i)] and [float64(i)] of an integer, to nearest even. *)
Definition float_of_int (k : FloatKind) (z : Z) : spec_float :=
  binary_normalize (float_prec k) (float_emax k) z 0 false.

(** Conversion between the floating point formats. *)
Definition float_convert (k : FloatKind) (f : spec_float) : spec_float :=
  match f with
  | S754_finite sign m e =>
      binary_normalize (float_prec k) (float_emax k) (if sign then Z.neg m else Z.pos m) e sign
  | _ => f
  end.

(** ** [widenNumeric] *)

(** Whether an integer of type [src] and value [z] may be converted to [dst]. *)
Definition int_convertible (src dst : IntKind) (z : Z) : bool :=
  if signed src then
    if signed dst then true else (0 <=? z)%Z
  else
    if signed dst then (z <=? int_max dst)%Z else true.

(** [widenNumeric(s, dst)]; a method call on a nil type panics. *)
Definition widenNumeric (s : value) (dst : option GoType) : outcome value :=
  if bool_decide (dst = TypeOf s) then Ok s
  else match s with
  | VNil => Panic
  | VInt _ k z =>
      match dst with
      | None => Panic
      | Some (TInt n k') =>
          if int_convertible k k' z && (int_bits k <=? int_bits k')%Z
          then Ok (VInt n k' (int_wrap k' z)) else Ok s
      | Some _ => Ok s
      end
  | VFloat _ k f =>
      match dst with
      | None => Panic
      | Some (TFloat n k') =>
          if (float_bits k <=? float_bits k')%Z then Ok (VFloat n k' (float_convert k' f)) else Ok s
      | Some _ => Ok s
      end
  | _ => Ok s
  end.

(** [intFloatPromotion(l, r)]: an integer [r] beside a floating point [l]; both of
    predeclared types. *)
Definition intFloatPromotion (l r : value) : value :=
  match l, r with
  | VFloat EmptyString k _, VInt EmptyString _ z => VFloat "" k (float_of_int k z)
  | _, _ => r
  end.

(** ** Comparisons *)

Definition EqualStr : string := "=".
Definition LessThanStr : string := "<".
Definition GreaterThanStr : string := ">".
Definition LessEqualStr : string := "<=".
Definition GreaterEqualStr : string := ">=".
Definition NotEqualStr : string := "!=".
Definition LikeStr : string := "like".
Definition NotLikeStr : string := "not like".
Definition IsNull : string := "is null".
Definition IsNotNull : string := "is not null".

(** The six operators on ordered values, by the result of comparing them; [None] is the
    comparison with a floating point NaN. *)
Definition compare_ordered (op : string) (c : option comparison) : bool :=
  if decide (op = EqualStr) then bool_decide (c = Some Eq)
  else if decide (op = NotEqualStr) then bool_decide (c ≠ Some Eq)
  else if decide (op = GreaterThanStr) then bool_decide (c = Some Gt)
  else if decide (op = GreaterEqualStr) then bool_decide (c = Some Gt ∨ c = Some Eq)
  else if decide (op = LessThanStr) then bool_decide (c = Some Lt)
  else if decide (op = LessEqualStr) then bool_decide (c = Some Lt ∨ c = Some Eq)
  else false.

(** Booleans are compared for equality only. *)
Definition compare_bool (op : string) (l r : bool) : bool :=
  if decide (op = EqualStr) then bool_decide (l = r)
  else if decide (op = NotEqualStr) then bool_decide (l ≠ r)
  else false.

(** [like]: the pattern as a regular expression. *)
Definition like_regexp (likePattern : string) : string :=
  "^" +:+ ReplaceAll (ReplaceAll (QuoteMeta likePattern) "%" ".*") "_" "." +:+ "$".

Definition like (str likePattern : string) : outcome bool :=
  match MatchString (like_regexp likePattern) str with
  | Some matched => Ok matched
  | None => Panic
  end.

Definition compare_string (op : string) (l r : string) : outcome bool :=
  if decide (op = EqualStr) then Ok (bool_decide (l = r))
  else if decide (op = NotEqualStr) then Ok (bool_decide (l ≠ r))
  else if decide (op = LikeStr) then like l r
  else if decide (op = NotLikeStr) then b ← like l r; mret (negb b)
  else Ok false.

(** The type switch of [ComparisonExpr.Eval]: values of one predeclared type are
    compared, every other pair gives false. *)
Definition compare_values (op : string) (left right : value) : outcome bool :=
  match left, right with
  | VInt EmptyString k l, VInt EmptyString k' r =>
      if decide (k = k') then Ok (compare_ordered op (Some (Z.compare l r))) else Ok false
  | VFloat EmptyString k l, VFloat EmptyString k' r =>
      if decide (k = k') then Ok (compare_ordered op (SFcompare l r)) else Ok false
  | VBool EmptyString l, VBool EmptyString r => Ok (compare_bool op l r)
  | VString EmptyString l, VString EmptyString r => compare_string op l r
  | _, _ => Ok false
  end.

(** The body of [ComparisonExpr.Eval] once the operands are evaluated. *)
Definition compare_operands (op : string) (left right : value) : outcome bool :=
  left ← widenNumeric left (TypeOf right);
  right ← widenNumeric right (TypeOf left);
  let right := intFloatPromotion left right in
  let left := intFloatPromotion right left in
  compare_values op left right.

(** ** Expressions *)

(** The JSON path library of [client-go]: [jsonpath.New(..).AllowMissingKeys(true)] and
    [Parse] as one step, [FindResults] and [template.PrintableValue]. *)
Class JsonPath (JP Obj RV : Type) := {
  parse_path : string → JP * option error;
  FindResults : JP → Obj → error + list (list RV);
  PrintableValue : RV → option value;
}.

Section Expr.
Context {JP Obj RV : Type} `{HJ : !JsonPath JP Obj RV}.

Inductive Expr :=
  | AndExpr (Left Right : Expr)
  | OrExpr (Left Right : Expr)
  | NotExpr (e : Expr)
  | IsNullExpr (Operator : string) (e : Expr)
  | ComparisonExpr (Operator : string) (Left Right : Expr)
  | BoolVal (b : bool)
  | StringVal (s : string)
  | IntVal (z : Z)
  | FloatVal (f : spec_float)
  | nullVal
  | JSONPathVal (JSONPath : JP) (JSONPathExpr : string).

Definition go_bool (b : bool) : value := VBool "" b.

(** [JSONPathVal.Eval]. *)
Definition eval_path (jp : JP) (v : Obj) : outcome value :=
  match FindResults jp v with
  | inl e => Err e
  | inr ((r :: _) :: _) =>
      match PrintableValue r with
      | Some value => Ok value
      | None => Ok VNull
      end
  | inr _ => Ok VNull
  end.

(** [Eval]. *)
Fixpoint Eval (e : Expr) (v : Obj) : outcome value :=
  match e with
  | AndExpr l r =>
      left ← Eval l v;
      match left with
      | VBool EmptyString true =>
          right ← Eval r v;
          match right with
          | VBool EmptyString b => mret (go_bool b)
          | _ => mret (go_bool false)
          end
      | _ => mret (go_bool false)
      end
  | OrExpr l r =>
      left ← Eval l v;
      match left with
      | VBool EmptyString true => mret (go_bool true)
      | _ =>
          right ← Eval r v;
          match right with
          | VBool EmptyString b => mret (go_bool b)
          | _ => mret (go_bool false)
          end
      end
  | NotExpr e =>
      val ← Eval e v;
      match val with
      | VBool EmptyString b => mret (go_bool (negb b))
      | _ => mret (go_bool false)
      end
  | IsNullExpr op e =>
      val ← Eval e v;
      if decide (op = IsNull) then mret (go_bool (bool_decide (val = VNull)))
      else if decide (op = IsNotNull) then mret (go_bool (bool_decide (val ≠ VNull)))
      else mret (go_bool false)
  | ComparisonExpr op l r =>
      left ← Eval l v;
      right ← Eval r v;
      b ← compare_operands op left right;
      mret (go_bool b)
  | BoolVal b => mret (go_bool b)
  | StringVal s => mret (VString "" s)
  | IntVal z => mret (VInt "" Int z)
  | FloatVal f => mret (VFloat "" Float64 f)
  | nullVal => mret VNull
  | JSONPathVal jp _ => eval_path jp v
  end.

(** [Traverse], with the state [S] the two callbacks share. Leaves are visited without
    being asked for. *)
Fixpoint Traverse {S} (accept : Expr → S → S * bool) (visit : Expr → S → S) (e : Expr) (s : S) : S :=
  match e with
  | AndExpr l r | OrExpr l r | ComparisonExpr _ l r =>
      let '(s, b) := accept e s in
      if b then Traverse accept visit r (visit e (Traverse accept visit l s)) else s
  | NotExpr e' | IsNullExpr _ e' =>
      let '(s, b) := accept e s in
      if b then visit e (Traverse accept visit e' s) else s
  | _ => visit e s
  end.

(** ** Ordering *)

Definition AscScr : string := "asc".
Definition DescScr : string := "desc".

Record Order := { o_Expr : Expr; Direction : string }.

(** [pgtq] and [pltq], by the result of comparing. *)
Definition directed (o : Order) (c : comparison) : Z :=
  match c with
  | Eq => 0
  | Gt => if decide (Direction o = DescScr) then -1 else 1
  | Lt => if decide (Direction o = DescScr) then 1 else -1
  end.

(** The comparison of floating point numbers by [==] and [>]. *)
Definition float_order (p q : spec_float) : comparison :=
  match SFcompare p q with
  | Some Eq => Eq
  | Some Gt => Gt
  | _ => Lt
  end.

(** The values of one type that [compare] orders; every other pair is equal. *)
Definition value_order (p q : value) : comparison :=
  match p, q with
  | VString EmptyString p, VString EmptyString q => String.compare p q
  | VInt EmptyString k p, VInt EmptyString k' q => if decide (k = k') then Z.compare p q else Eq
  | VFloat EmptyString k p, VFloat EmptyString k' q =>
      if decide (k = k') then float_order p q else Eq
  | VTime p, VTime q | VMetaTime p, VMetaTime q => Z.compare p q
  | _, _ => Eq
  end.

(** Nulls come first. *)
Definition null_order (p q : value) : comparison :=
  match p, q with
  | VNull, VNull => Eq
  | VNull, _ => Lt
  | _, VNull => Gt
  | _, _ => value_order p q
  end.

(** [Order.compare]. *)
Definition compare (o : Order) (p q : Obj) : outcome Z :=
  pv ← Eval (o_Expr o) p;
  qv ← Eval (o_Expr o) q;
  mret (directed o (null_order pv qv)).

(** The function [less] of [OrderBy.Sort]: the loop over all orders but the last, and
    the last one. *)
Fixpoint less (os : list Order) (p q : Obj) : outcome bool :=
  match os with
  | [] => Panic
  | o :: os' =>
      match compare o p q with
      | Panic => Panic
      | Err _ => Ok false
      | Ok rv =>
          match os' with
          | [] => Ok (rv <? 0)%Z
          | _ => if (0 <? rv)%Z then Ok false else if (rv <? 0)%Z then Ok true else less os' p q
          end
      end
  end.
End Expr.

Arguments Expr JP : clear implicits.
Arguments Order JP : clear implicits.

(** ** [sort.SliceStable] *)

(** The order a comparison gives on the elements of a list is usable for sorting:
    irreflexive, transitive, and incomparability is transitive. *)
Record weak_order {A} (lt : A → A → bool) (l : list A) : Prop := {
  wo_irrefl x : x ∈ l → lt x x = false;
  wo_trans x y z : x ∈ l → y ∈ l → z ∈ l → lt x y = true → lt y z = true → lt x z = true;
  wo_incomp x y z : x ∈ l → y ∈ l → z ∈ l →
    lt x y = false → lt y x = false → lt y z = false → lt z y = false →
    lt x z = false ∧ lt z x = false;
}.

(** No element is less than one before it. *)
Fixpoint in_order {A} (lt : A → A → bool) (l : list A) : Prop :=
  match l with
  | [] => True
  | x :: l' => (∀ y, y ∈ l' → lt y x = false) ∧ in_order lt l'
  end.

Definition incomparable {A} (lt : A → A → bool) (x y : A) : bool := negb (lt x y) && negb (lt y x).

(** The documented behaviour of [sort.SliceStable], on the list of the elements. *)
Class SliceStable := {
  slice_stable {A} : (A → A → outcome bool) → list A → outcome (list A);
  slice_stable_perm {A} (less : A → A → outcome bool) (lt : A → A → bool) l :
    (∀ x y, x ∈ l → y ∈ l → less x y = Ok (lt x y)) →
    ∃ l', slice_stable less l = Ok l' ∧ l' ≡ₚ l;
  slice_stable_sorted {A} (less : A → A → outcome bool) (lt : A → A → bool) l l' :
    (∀ x y, x ∈ l → y ∈ l → less x y = Ok (lt x y)) → weak_order lt l →
    slice_stable less l = Ok l' →
    in_order lt l' ∧ ∀ x, x ∈ l → filter (λ y, incomparable lt x y = true) l' =
                          filter (λ y, incomparable lt x y = true) l;
}.

Section Sort.
Context {JP Obj RV : Type} `{HJ : !JsonPath JP Obj RV} `{HS : !SliceStable}.

(** [OrderBy.Sort]: the slice afterwards and the error returned, which the closure's own
    variables of that name hide. *)
Definition Sort (o : list (Order JP)) (l : list Obj) : outcome (list Obj * option error) :=
  match o with
  | [] => Ok (l, None)
  | _ => l' ← slice_stable (less o) l; mret (l', None)
  end.
End Sort.
