(* ===== verification/FilterFacts.v ===== *)
(** Evaluation and ordering: the regular expression [like] builds means what SQL's
    wildcards mean, except that no wildcard matches a newline; connectives and comparisons
    give booleans, integers of different types are compared as numbers, and values of one
    type are ordered. *)
From stdpp Require Import base strings list numbers.
From Stdlib Require Import Ascii SpecFloat.
From S2P Require Import Prelude GoStrings FilterExpr.

(** ** Reference *)

Definition percent : Z := 37.
Definition underscore : Z := 95.

(** What a pattern matches: [%] any characters, [_] any one, of those that are not
    newlines, any other character itself. *)
Inductive like_spec : list Z → list Z → Prop :=
  | like_nil : like_spec [] []
  | like_percent p s1 s2 :
      Forall (λ r, r ≠ newline) s1 → like_spec p s2 → like_spec (percent :: p) (s1 ++ s2)
  | like_underscore p r s : r ≠ newline → like_spec p s → like_spec (underscore :: p) (r :: s)
  | like_char p r s : r ≠ percent → r ≠ underscore → like_spec p s → like_spec (r :: p) (r :: s).

Definition like_item (r : Z) : re_item :=
  if (r =? percent)%Z then StarAnyCharNotNL
  else if (r =? underscore)%Z then AnyCharNotNL else Literal r.

Lemma star_any_spec k s :
  star_any k s = true ↔ ∃ s1 s2, s = s1 ++ s2 ∧ Forall (λ r, r ≠ newline) s1 ∧ k s2 = true.
Proof.
  revert k. induction s as [|r s IH]; intros k; simpl; rewrite orb_true_iff.
  - split; [intros [H|]; [|done]; by exists [], []|].
    intros (s1 & s2 & Hs & _ & Hk). destruct s1, s2; naive_solver.
  - rewrite andb_true_iff, negb_true_iff, Z.eqb_neq, IH. split.
    + intros [H|[Hr (s1 & s2 & -> & Hs & Hk)]]; [by exists [], (r :: s)|].
      exists (r :: s1), s2. auto.
    + intros ([|r' s1] & s2 & Hs & Hf & Hk); simplify_eq/=; [by left|right].
      inversion Hf; subst. split; [done|]. by exists s1, s2.
Qed.

Lemma star_any_ext k k' s : (∀ x, k x = k' x) → star_any k s = star_any k' s.
Proof. intros Hk. induction s as [|r s IH]; simpl; by rewrite Hk, ?IH. Qed.

Lemma match_items_begin p b b' s :
  match_here ((like_item <$> p) ++ [EndText]) b s = match_here ((like_item <$> p) ++ [EndText]) b' s.
Proof.
  revert b b' s. induction p as [|r p IH]; intros b b' s; [done|]. simpl.
  destruct (like_item r) eqn:Hr; try done; [unfold like_item in Hr; by repeat case_match..|].
  apply star_any_ext. intros. apply IH.
Qed.

Lemma match_items p b s :
  match_here ((like_item <$> p) ++ [EndText]) b s = true ↔ like_spec p s.
Proof.
  revert b s. induction p as [|r p IH]; intros b s; simpl.
  - split; [destruct s; [constructor|done]|by inversion 1].
  - unfold like_item at 1. destruct (Z.eqb_spec r percent) as [->|Hp]; simpl.
    { rewrite star_any_spec. split.
      - intros (s1 & s2 & -> & Hs & Hk). constructor; [done|]. by eapply IH.
      - inversion 1; simplify_eq. eexists _, _. split_and!; [done..|]. by apply IH. }
    destruct (Z.eqb_spec r underscore) as [->|Hu]; simpl; (destruct s as [|q s]; [by split; [|inversion 1]|]);
      rewrite andb_true_iff, IH; [rewrite negb_true_iff, Z.eqb_neq|rewrite Z.eqb_eq].
    + split; [intros []; by constructor|inversion 1; by simplify_eq].
    + split; [intros [-> ?]; by constructor|inversion 1; by simplify_eq].
Qed.

(** ** The pattern as text *)

(** What becomes of a character of the pattern. *)
Definition like_text (r : Z) : list Z :=
  if (r =? percent)%Z then [rune "."; rune "*"]
  else if (r =? underscore)%Z then [rune "."]
  else if existsb (λ c, (r =? rune c)%Z) (String.list_ascii_of_string "\.+*?()|[]{}^$")
  then [rune "\"; r] else [r].

Lemma byte_of_eqb c d : (byte_of c =? byte_of d)%Z = Ascii.eqb c d.
Proof.
  destruct (Ascii.eqb_spec c d) as [->|H]; [apply Z.eqb_refl|].
  apply Z.eqb_neq. by intros ?%byte_of_inj.
Qed.

Lemma bytes_of_cons c s : bytes_of (String c s) = byte_of c :: bytes_of s.
Proof. done. Qed.

Lemma bytes_of_app s t : bytes_of (s +:+ t) = bytes_of s ++ bytes_of t.
Proof.
  induction s as [|c s IH]; [done|]. change (String c s +:+ t) with (String c (s +:+ t)).
  by rewrite !bytes_of_cons, IH.
Qed.

Lemma ReplaceAll_byte c new s :
  bytes_of (ReplaceAll s (String c EmptyString) new)
  = flat_map (λ b, if (b =? byte_of c)%Z then bytes_of new else [b]) (bytes_of s).
Proof.
  unfold ReplaceAll. induction s as [|d s IH]; [done|]. cbn [replace_from HasPrefix].
  rewrite andb_true_r, bytes_of_cons. cbn [flat_map].
  rewrite byte_of_eqb, (Ascii.eqb_sym d c).
  destruct (Ascii.eqb c d); [by rewrite bytes_of_app, <-IH|]. by rewrite bytes_of_cons, IH.
Qed.

Lemma QuoteMeta_bytes s :
  bytes_of (QuoteMeta s) =
  flat_map (λ b, if existsb (λ c, (b =? rune c)%Z) (String.list_ascii_of_string "\.+*?()|[]{}^$")
                 then [rune "\"; b] else [b]) (bytes_of s).
Proof.
  induction s as [|d s IH]; [done|]. cbn [QuoteMeta]. unfold special.
  rewrite bytes_of_cons. cbn [flat_map].
  assert (∀ l, existsb (Ascii.eqb d) l = existsb (λ c, (byte_of d =? rune c)%Z) l) as ->.
  { intros l. induction l as [|c l IHl]; [done|]. cbn [existsb]. unfold rune at 1.
    by rewrite byte_of_eqb, IHl. }
  destruct (existsb _ _); rewrite !bytes_of_cons, IH; done.
Qed.

(** The three passes over the pattern as one. *)
Lemma like_text_bytes p :
  bytes_of (ReplaceAll (ReplaceAll (QuoteMeta p) "%" ".*") "_" ".") = flat_map like_text (bytes_of p).
Proof.
  rewrite !ReplaceAll_byte, QuoteMeta_bytes. induction (bytes_of p) as [|b l IH]; [done|].
  cbn [flat_map]. rewrite !flat_map_app, IH. apply (f_equal (λ x, x ++ _)). unfold like_text, percent, underscore.
  destruct (Z.eqb_spec b 37) as [->|Hp]; [done|]. destruct (Z.eqb_spec b 95) as [->|Hu]; [done|].
  apply Z.eqb_neq in Hp, Hu. change (byte_of "%") with 37%Z. change (byte_of "_") with 95%Z.
  destruct (existsb _ _); cbn [flat_map]; rewrite Hp; [change (rune "\" =? 37)%Z with false|];
    cbn [flat_map app]; rewrite Hu; [by change (rune "\" =? 95)%Z with false|done].
Qed.

(** ** Decoding *)

Lemma next_byte_spec lo hi s b s' :
  next_byte lo hi s = Some (b, s') ↔ s = b :: s' ∧ (lo <= b <= hi)%Z.
Proof.
  destruct s as [|c s]; simpl; [naive_solver|]. unfold between.
  destruct (Z.leb_spec lo c), (Z.leb_spec c hi); naive_solver lia.
Qed.

Lemma second_range_spec b lo hi :
  second_range b = (lo, hi) →
  (0x80 <= lo <= 0xa0)%Z ∧ (0x8f <= hi <= 0xbf)%Z ∧ (b = 0xe0 → lo = 0xa0)%Z ∧ (b = 0xf0 → lo = 0x90)%Z.
Proof. unfold second_range. repeat case_match; intros; simplify_eq; repeat rewrite Z.eqb_eq, ?Z.eqb_neq in *; lia. Qed.

(** The bytes of a decoded rune are those it is encoded as. *)
Lemma decode_rune_encode b s r rest :
  decode_rune b s = Some (r, rest) → b :: s = encode_rune r ++ rest.
Proof.
  unfold decode_rune. destruct (second_range b) as [lo hi] eqn:Hr. apply second_range_spec in Hr.
  destruct (Z.ltb_spec b 0x80) as [Hb|Hb].
  { intros [= <- <-]. unfold encode_rune. by destruct (Z.ltb_spec b 0x80); [|lia]. }
  unfold between, low6. intros Hd.
  repeat (case_match; [|try done]); rewrite andb_true_iff, !Z.leb_le in *.
  all: repeat match goal with
    | H : (_ ≫= _) = Some _ |- _ => apply bind_Some in H as ([??] & [-> ?]%next_byte_spec & H)
    end; simplify_eq; unfold encode_rune.
  all: repeat match goal with |- context [(?x <? ?y)%Z] => destruct (Z.ltb_spec x y); [try lia|try lia] end.
  all: cbn [app]; repeat f_equal; Z.div_mod_to_equations; lia.
Qed.

Lemma decode_rune_suffix b s r rest : decode_rune b s = Some (r, rest) → ∃ cs, s = cs ++ rest.
Proof.
  intros H%decode_rune_encode. destruct (encode_rune r) as [|c cs] eqn:He; simplify_eq/=; [|by eexists].
  unfold encode_rune in He. by repeat case_match.
Qed.

Lemma decode_rune_length b s r rest : decode_rune b s = Some (r, rest) → length rest ≤ length s.
Proof. intros [cs ->]%decode_rune_suffix. rewrite length_app. lia. Qed.

Lemma decode_bytes_fuel n m s : length s ≤ n → length s ≤ m → decode_bytes n s = decode_bytes m s.
Proof.
  revert m s. induction n as [|n IH]; intros m [|b s] Hn Hm; simpl in *; try lia; [by destruct m..|].
  destruct m as [|m]; simpl in *; [lia|].
  destruct (decode_rune b s) as [[r rest]|] eqn:Hd; f_equal; apply IH;
    try apply decode_rune_length in Hd; lia.
Qed.

(** A transformation of bytes that keeps those of multi-byte sequences and maps ASCII
    characters to ASCII characters. *)
Record ascii_map (g : Z → list Z) : Prop := {
  am_high b : (0x80 <= b)%Z → g b = [b];
  am_low b : (b < 0x80)%Z → ∃ a l, g b = a :: l ∧ Forall (λ c, c < 0x80)%Z (a :: l);
}.

(** It works on runes as it does on bytes. *)
Definition on_runes (g : Z → list Z) (r : option Z) : list (option Z) :=
  match r with
  | Some r => if (r <? 0x80)%Z then Some <$> g r else [Some r]
  | None => [None]
  end.

Section AsciiMap.
Context (g : Z → list Z) (Hg : ascii_map g).

Lemma next_byte_flat lo hi s :
  (0x80 <= lo)%Z →
  next_byte lo hi (flat_map g s) = prod_map id (flat_map g) <$> next_byte lo hi s.
Proof.
  intros Hlo. destruct s as [|b s]; [done|]. cbn [flat_map]. destruct (Z.ltb_spec b 0x80) as [Hb|Hb].
  - destruct (am_low _ Hg b Hb) as (a & l & -> & Ha). inversion Ha; subst. simpl. unfold between.
    destruct (Z.leb_spec lo a), (Z.leb_spec lo b); try lia. done.
  - rewrite (am_high _ Hg b Hb). simpl. by destruct (between lo hi b).
Qed.

Lemma decode_rune_flat b s :
  (0x80 <= b)%Z →
  decode_rune b (flat_map g s) = prod_map id (flat_map g) <$> decode_rune b s.
Proof.
  intros Hb. unfold decode_rune. destruct (second_range b) as [lo hi] eqn:Hr.
  apply second_range_spec in Hr as [Hlo _]. destruct (Z.ltb_spec b 0x80); [lia|].
  repeat case_match; try done;
    repeat (rewrite next_byte_flat by lia; destruct (next_byte _ _ _) as [[??]|]; simpl; [|done]); done.
Qed.

Lemma decode_ascii n a s : (a < 0x80)%Z → decode_bytes (S n) (a :: s) = Some a :: decode_bytes n s.
Proof.
  intros Ha. simpl. unfold decode_rune. destruct (second_range a).
  destruct (Z.ltb_spec a 0x80); [done|lia].
Qed.

Lemma decode_asciis n l s :
  Forall (λ c, c < 0x80)%Z l → decode_bytes (length l + n) (l ++ s) = (Some <$> l) ++ decode_bytes n s.
Proof.
  induction 1 as [|a l Ha _ IH]; [done|]. cbn [length app plus]. by rewrite decode_ascii, IH.
Qed.

Lemma decode_rune_high b s r rest :
  decode_rune b s = Some (r, rest) → (0x80 <= b)%Z → (0x80 <= r)%Z.
Proof.
  intros H%decode_rune_encode Hb. unfold encode_rune in H.
  destruct (Z.ltb_spec r 0x80); [simplify_eq/=; lia|done].
Qed.

Lemma decode_flat n m s :
  length s ≤ n → length (flat_map g s) ≤ m →
  decode_bytes m (flat_map g s) = flat_map (on_runes g) (decode_bytes n s).
Proof.
  revert m s. induction n as [|n IH]; intros m [|b s] Hn Hm; simpl in *; try lia; [by destruct m..|].
  rewrite length_app in Hm. destruct (Z.ltb_spec b 0x80) as [Hb|Hb].
  - assert (decode_rune b s = Some (b, s)) as ->.
    { unfold decode_rune. destruct (second_range b). destruct (Z.ltb_spec b 0x80); [done|lia]. }
    destruct (am_low _ Hg b Hb) as (a & l & Hgb & Ha). simpl. destruct (Z.ltb_spec b 0x80); [|lia].
    rewrite Hgb in *. replace m with (length (a :: l) + (m - length (a :: l))) by lia.
    rewrite decode_asciis by done. f_equal. apply IH; lia.
  - rewrite (am_high _ Hg b Hb) in *. simpl in *. destruct m as [|m]; [lia|]. simpl.
    rewrite decode_rune_flat by done. destruct (decode_rune b s) as [[r rest]|] eqn:Hd; simpl.
    + pose proof (decode_rune_high _ _ _ _ Hd Hb). destruct (Z.ltb_spec r 0x80); [lia|]. simpl. f_equal.
      destruct (decode_rune_suffix _ _ _ _ Hd) as [cs ->]. rewrite flat_map_app in Hm.
      rewrite !length_app in *. apply IH; lia.
    + f_equal. apply IH; lia.
Qed.
End AsciiMap.

Lemma like_text_ascii : ascii_map like_text.
Proof.
  split; intros b Hb; unfold like_text, percent, underscore.
  - destruct (Z.eqb_spec b 37), (Z.eqb_spec b 95); try lia.
    destruct (existsb _ _) eqn:He; [|done]. apply existsb_exists in He as (c & Hc & ->%Z.eqb_eq).
    simpl in Hc. repeat (destruct Hc as [<-|Hc]; [done|]). done.
  - repeat case_match; eexists _, _; (split; [done|]); repeat constructor; done.
Qed.

(** ** The theorem *)

(** The first character of the rest of the pattern is no repetition operator. *)
Lemma like_text_head rs :
  ∃ q l, flat_map like_text rs ++ [rune "$"] = q :: l ∧
    existsb (λ c, (q =? rune c)%Z) ["*"; "+"; "?"; "{"]%char = false.
Proof.
  destruct rs as [|r rs]; [by eexists _, _|]. cbn [flat_map]. unfold like_text at 1.
  destruct (r =? percent)%Z; [by eexists _, _|]. destruct (r =? underscore)%Z; [by eexists _, _|].
  destruct (existsb _ _) eqn:He; [by eexists _, _|]. exists r. eexists. split; [done|].
  cbn [existsb String.list_ascii_of_string] in He. rewrite !orb_false_iff in He. cbn [existsb].
  rewrite !orb_false_iff. tauto.
Qed.

Lemma re_parse_star q l :
  existsb (λ c, (q =? rune c)%Z) ["*"; "+"; "?"; "{"]%char = false →
  re_parse (rune "." :: rune "*" :: q :: l) = cons StarAnyCharNotNL <$> re_parse (q :: l).
Proof.
  intros Hq. change (re_parse (rune "." :: rune "*" :: q :: l)) with
    (if existsb (λ c, (q =? rune c)%Z) ["*"; "+"; "?"; "{"]%char then None
     else cons StarAnyCharNotNL <$> re_parse (q :: l)). by rewrite Hq.
Qed.

Lemma re_parse_any q l :
  (q =? rune "*")%Z = false → re_parse (rune "." :: q :: l) = cons AnyCharNotNL <$> re_parse (q :: l).
Proof.
  intros Hq. change (re_parse (rune "." :: q :: l)) with
    (if (q =? rune "*")%Z then match l with
       | q' :: _ => if existsb (λ c, (q' =? rune c)%Z) ["*"; "+"; "?"; "{"]%char then None
                    else cons StarAnyCharNotNL <$> re_parse l
       | [] => Some [StarAnyCharNotNL] end
     else cons AnyCharNotNL <$> re_parse (q :: l)). by rewrite Hq.
Qed.

Lemma re_parse_escape r l :
  punctuation r = true → re_parse (rune "\" :: r :: l) = cons (Literal r) <$> re_parse l.
Proof.
  intros Hr. change (re_parse (rune "\" :: r :: l)) with
    (if punctuation r then cons (Literal r) <$> re_parse l else None). by rewrite Hr.
Qed.

Lemma re_parse_text rs :
  re_parse (flat_map like_text rs ++ [rune "$"]) = Some ((like_item <$> rs) ++ [EndText]).
Proof.
  induction rs as [|r rs IH]; [done|]. destruct (like_text_head rs) as (q & l & Hq & Hne).
  cbn [flat_map fmap list_fmap app]. rewrite <-app_assoc, Hq in *. unfold like_text at 1, like_item at 1.
  destruct (Z.eqb_spec r percent) as [->|Hp]; [cbn [app]; by rewrite re_parse_star, IH|].
  destruct (Z.eqb_spec r underscore) as [->|Hu].
  { cbn [app]. rewrite re_parse_any, IH; [done|]. cbn [existsb] in Hne. by apply orb_false_iff in Hne as [? _]. }
  clear Hne. destruct (existsb _ _) eqn:He; cbn [app].
  - apply existsb_exists in He as (c & Hc & ->%Z.eqb_eq). rewrite re_parse_escape, IH; [done|].
    simpl in Hc. repeat (destruct Hc as [<-|Hc]; [done|]). done.
  - cbn [existsb String.list_ascii_of_string] in He. rewrite !orb_false_iff in He.
    destruct He as (?&?&?&?&?&?&?&?&?&?&?&?&?&?&_).
    set (l' := q :: l) in *. cbn [re_parse existsb].
    repeat match goal with H : (r =? _)%Z = false |- _ => rewrite H; clear H end. cbn [orb]. by rewrite IH.
Qed.

Lemma search_begin re s : search (BeginText :: re) true s = match_here re true s.
Proof.
  destruct s as [|r s]; simpl; [by rewrite orb_false_r|].
  assert (∀ s, search (BeginText :: re) false s = false) as -> by (intros s'; induction s'; simpl; done).
  by rewrite orb_false_r.
Qed.

Lemma next_byte_app lo hi s a t :
  (a < 0x80)%Z → (0x80 <= lo)%Z →
  next_byte lo hi (s ++ a :: t) = prod_map id (λ l, l ++ a :: t) <$> next_byte lo hi s.
Proof.
  intros Ha Hlo. destruct s as [|b s]; simpl.
  - unfold between. by destruct (Z.leb_spec lo a); [lia|].
  - by destruct (between lo hi b).
Qed.

(** An ASCII character ends whatever sequence is before it. *)
Lemma decode_rune_app b s a t :
  (a < 0x80)%Z →
  decode_rune b (s ++ a :: t) = prod_map id (λ l, l ++ a :: t) <$> decode_rune b s.
Proof.
  intros Ha. unfold decode_rune. destruct (second_range b) as [lo hi] eqn:Hr.
  apply second_range_spec in Hr as [Hlo _]. repeat case_match; try done;
    repeat (rewrite next_byte_app by lia; destruct (next_byte _ _ _) as [[??]|]; simpl; [|done]); done.
Qed.

Lemma decode_bytes_app n s a t :
  length s ≤ n → (a < 0x80)%Z →
  decode_bytes (n + S (length t)) (s ++ a :: t) = decode_bytes n s ++ decode_bytes (S (length t)) (a :: t).
Proof.
  revert s. induction n as [|n IH]; intros [|b s] Hn Ha; cbn [length] in *; try lia; [done| |].
  - cbn [app]. change (decode_bytes (S n) []) with (@nil (option Z)).
    apply decode_bytes_fuel; simpl; lia.
  - cbn [app plus decode_bytes]. rewrite decode_rune_app by done.
    destruct (decode_rune b s) as [[r rest]|] eqn:Hd; cbn [fmap option_fmap option_map prod_map app]; f_equal;
      apply IH; try done; [apply decode_rune_length in Hd|]; lia.
Qed.

(** The expression built for a pattern, rune by rune. *)
Lemma decode_like_regexp p :
  decode (like_regexp p) =
  Some (rune "^") :: flat_map (on_runes like_text) (decode p) ++ [Some (rune "$")].
Proof.
  unfold decode, like_regexp. rewrite !bytes_of_app, like_text_bytes.
  change (bytes_of "^") with [rune "^"]. change (bytes_of "$") with [rune "$"]. cbn [app length].
  rewrite decode_ascii, length_app by done. f_equal. cbn [length].
  rewrite (decode_bytes_app _ _ (rune "$") []) by done.
  by rewrite (decode_flat like_text like_text_ascii (length (bytes_of p))).
Qed.

Lemma on_runes_valid l :
  forallb (λ r, bool_decide (is_Some r)) (flat_map (on_runes like_text) l)
  = forallb (λ r, bool_decide (is_Some r)) l.
Proof.
  induction l as [|r l IH]; [done|]. cbn [flat_map forallb]. rewrite forallb_app, IH. f_equal.
  destruct r as [r|]; [|done]. simpl. destruct (r <? 0x80)%Z; [|done].
  generalize (like_text r) as t. intros t. by induction t as [|b t IHt].
Qed.

Lemma on_runes_text l :
  forallb (λ r, bool_decide (is_Some r)) l = true →
  default RuneError <$> flat_map (on_runes like_text) l = flat_map like_text (default RuneError <$> l).
Proof.
  induction l as [|r l IH]; [done|]. cbn [forallb flat_map fmap list_fmap].
  intros [Hr Hl]%andb_true_iff. rewrite fmap_app, IH by done. f_equal.
  apply bool_decide_eq_true in Hr as [r' ->]. simpl. destruct (Z.ltb_spec r' 0x80) as [?|Hb].
  - rewrite <-list_fmap_compose. apply list_fmap_id.
  - by rewrite (am_high _ like_text_ascii).
Qed.

(** [like] panics for a pattern that is not valid UTF-8; otherwise it tells whether the
    pattern matches. *)
Lemma like_correct str p :
  (ValidString p = false ∧ like str p = Panic) ∨
  (ValidString p = true ∧ ∃ b, like str p = Ok b ∧ (b = true ↔ like_spec (runes p) (runes str))).
Proof.
  unfold like, MatchString. assert (ValidString (like_regexp p) = ValidString p) as ->.
  { unfold ValidString. rewrite decode_like_regexp. cbn [forallb].
    rewrite forallb_app, on_runes_valid. cbn. by rewrite !andb_true_r. }
  destruct (ValidString p) eqn:Hv; [right|by left]. split; [done|].
  assert (runes (like_regexp p) = rune "^" :: flat_map like_text (runes p) ++ [rune "$"]) as ->.
  { unfold runes. rewrite decode_like_regexp. cbn [fmap list_fmap]. f_equal.
    by rewrite fmap_app, on_runes_text. }
  set (t := flat_map _ _ ++ _). change (re_parse (rune "^" :: t)) with (cons BeginText <$> re_parse t).
  unfold t. rewrite re_parse_text. cbn [fmap option_fmap option_map]. eexists. split; [done|].
  rewrite search_begin. apply match_items.
Qed.

(** ** Comparisons of integers *)

Definition in_range (k : IntKind) (z : Z) : Prop := (int_min k <= z <= int_max k)%Z.

(** A pair of integers the comparison can bring to one type. *)
Definition comparable (k : IntKind) (x : Z) (k' : IntKind) (y : Z) : bool :=
  int_convertible k k' x && (int_bits k <=? int_bits k')%Z
  || int_convertible k' k y && (int_bits k' <=? int_bits k)%Z.

Lemma int_bits_pos k : (8 <= int_bits k)%Z.
Proof. destruct k; simpl; lia. Qed.

Lemma int_wrap_id k z : in_range k z → int_wrap k z = z.
Proof.
  unfold in_range, int_min, int_max, int_wrap. destruct k; simpl; intros; rewrite Z.mod_small; lia.
Qed.

(** A conversion that is allowed keeps the value. *)
Lemma int_convert_range k k' z :
  in_range k z → int_convertible k k' z = true → (int_bits k <= int_bits k')%Z → in_range k' z.
Proof.
  unfold in_range, int_min, int_max, int_convertible, int_max.
  destruct k, k'; simpl; intros; rewrite ?Z.leb_le in *; lia.
Qed.

Lemma widen_int n k x n' k' :
  in_range k x →
  widenNumeric (VInt n k x) (Some (TInt n' k')) =
    Ok (if int_convertible k k' x && (int_bits k <=? int_bits k')%Z then VInt n' k' x else VInt n k x).
Proof.
  intros Hx. unfold widenNumeric. case_bool_decide as Heq.
  - simpl in Heq. simplify_eq. by case_match.
  - destruct (_ && _) eqn:Hc; [|done]. apply andb_true_iff in Hc as [Hc Hb%Z.leb_le].
    rewrite int_wrap_id; [done|]. by eapply int_convert_range.
Qed.

Lemma widen_same v : widenNumeric v (TypeOf v) = Ok v.
Proof. unfold widenNumeric. by rewrite bool_decide_true. Qed.

(** Integers are compared as numbers, whatever their types, except for a negative number
    and an unsigned one that is too great for the other's type: then every operator
    gives false. *)
Lemma compare_integers op k x k' y :
  in_range k x → in_range k' y →
  compare_operands op (VInt "" k x) (VInt "" k' y) =
    Ok (comparable k x k' y && compare_ordered op (Some (Z.compare x y))).
Proof.
  intros Hx Hy. unfold compare_operands, comparable. simpl TypeOf. rewrite widen_int by done.
  destruct (int_convertible k k' x && (int_bits k <=? int_bits k')%Z) eqn:Hc.
  - simpl. change (Some (TInt "" k')) with (TypeOf (VInt "" k' y)). rewrite widen_same. simpl.
    by destruct (decide (k' = k')).
  - simpl. rewrite widen_int by done. simpl.
    destruct (int_convertible k' k y && (int_bits k' <=? int_bits k)%Z); simpl.
    + by destruct (decide (k = k)).
    + destruct (decide (k = k')) as [->|]; [|done]. exfalso.
      unfold int_convertible in Hc. rewrite Z.leb_refl in Hc. by destruct (signed k').
Qed.

(** The pairs that can be compared. *)
Lemma comparable_spec k x k' y :
  in_range k x → in_range k' y →
  comparable k x k' y = false ↔
    (signed k = true ∧ signed k' = false ∧ x < 0 ∧ int_max k < y ∨
     signed k = true ∧ signed k' = false ∧ x < 0 ∧ int_bits k < int_bits k' ∨
     signed k = false ∧ signed k' = true ∧ y < 0 ∧ int_max k' < x ∨
     signed k = false ∧ signed k' = true ∧ y < 0 ∧ int_bits k' < int_bits k)%Z.
Proof.
  unfold comparable, in_range, int_convertible, int_min, int_max. intros Hx Hy.
  rewrite orb_false_iff, !andb_false_iff.
  destruct k, k'; simpl in *; rewrite ?Z.leb_gt; intuition lia.
Qed.

(** ** Keys *)

(** Lexicographic comparison. *)
Fixpoint lex (x y : list Z) : comparison :=
  match x, y with
  | [], [] => Eq
  | [], _ :: _ => Lt
  | _ :: _, [] => Gt
  | a :: x', b :: y' => match Z.compare a b with Eq => lex x' y' | c => c end
  end.

Lemma lex_eq x y : lex x y = Eq ↔ x = y.
Proof.
  revert y. induction x as [|a x IH]; intros [|b y]; simpl; try done.
  destruct (Z.compare_spec a b) as [->|H|H]; [|split; intros; simplify_eq; lia..].
  rewrite IH. naive_solver.
Qed.

Lemma lex_opp x y : lex y x = CompOpp (lex x y).
Proof.
  revert y. induction x as [|a x IH]; intros [|b y]; simpl; try done.
  rewrite (Z.compare_antisym a b). by destruct (Z.compare a b); simpl.
Qed.

Lemma lex_trans x y z : lex x y = Lt → lex y z = Lt → lex x z = Lt.
Proof.
  revert y z. induction x as [|a x IH]; intros [|b y] [|c z]; simpl; try done.
  destruct (Z.compare_spec a b), (Z.compare_spec b c), (Z.compare_spec a c);
    intros; subst; try done; try lia; eauto.
Qed.

(** The key of a floating point number that is not a NaN. *)
Definition float_key (f : spec_float) : list Z :=
  match f with
  | S754_infinity true => [-2]
  | S754_finite true m e => [-1; - e; Z.neg m]
  | S754_zero _ | S754_nan => [0]
  | S754_finite false m e => [1; e; Z.pos m]
  | S754_infinity false => [2]
  end%Z.

Lemma SFcompare_key f g :
  f ≠ S754_nan → g ≠ S754_nan → SFcompare f g = Some (lex (float_key f) (float_key g)).
Proof.
  intros Hf Hg. destruct f as [[]|[]| |[] m e], g as [[]|[]| |[] m' e']; try done; simpl.
  - rewrite Z.compare_opp, (Z.compare_antisym e e').
    change (Pos.compare_cont Eq m m') with (Pos.compare m m').
    destruct (Z.compare e e'); simpl; [|done..]. by destruct (Pos.compare m m').
  - change (Pos.compare_cont Eq m m') with (Pos.compare m m').
    destruct (Z.compare e e'); [|done..]. by destruct (Pos.compare m m').
Qed.

Lemma string_compare_key s t : String.compare s t = lex (bytes_of s) (bytes_of t).
Proof.
  revert t. induction s as [|c s IH]; intros [|d t]; try done.
  change (lex (bytes_of (String c s)) (bytes_of (String d t))) with
    (match Z.compare (byte_of c) (byte_of d) with Eq => lex (bytes_of s) (bytes_of t) | o => o end).
  unfold byte_of. rewrite N2Z.inj_compare. cbn [String.compare]. unfold Ascii.compare.
  destruct (N.compare _ _); [apply IH|done..].
Qed.

(** The key by which values of one type are ordered; null has the least. *)
Definition value_key (v : value) : list Z :=
  match v with
  | VNull => []
  | VString EmptyString s => 0%Z :: bytes_of s
  | VInt EmptyString _ z => [0; z]%Z
  | VFloat EmptyString _ f => 0%Z :: float_key f
  | VTime t | VMetaTime t => [0; t]%Z
  | _ => [0%Z]
  end.

(** Values [compare] can order with each other. *)
Definition sortable (p q : value) : Prop :=
  p = VNull ∨ q = VNull ∨ TypeOf p = TypeOf q ∧
  ∀ n k f, p = VFloat n k f ∨ q = VFloat n k f → f ≠ S754_nan.

Lemma null_order_key p q : sortable p q → null_order p q = lex (value_key p) (value_key q).
Proof.
  intros [->|[->|[Ht Hn]]]; [by destruct q as [[]|[]|[]|[]| | | | |]|by destruct p as [[]|[]|[]|[]| | | | |]|].
  destruct p as [n k x|n k f|n b|n s| |x|x|n|], q as [n' k' y|n' k' g|n' b'|n' s'| |y|y|n'|];
    simplify_eq/=; try done; try destruct n'; simpl; try done.
  - rewrite decide_True by done. by destruct (Z.compare x y).
  - rewrite decide_True by done. unfold float_order.
    rewrite SFcompare_key; [by destruct (lex _ _)|naive_solver..].
  - apply string_compare_key.
  - by destruct (Z.compare x y).
  - by destruct (Z.compare x y).
Qed.

(** ** Objects *)

Section Objects.
Context {JP Obj RV : Type} `{HJ : !JsonPath JP Obj RV}.
Implicit Types (e : Expr JP) (o : Order JP) (p q : Obj).

(** An expression that is no literal and no path. *)
Definition connective e : bool :=
  match e with
  | AndExpr _ _ | OrExpr _ _ | NotExpr _ | IsNullExpr _ _ | ComparisonExpr _ _ _ => true
  | _ => false
  end.

(** Connectives and comparisons give a boolean, which the console relies on when it
    asserts the type of a filter's result. *)
Lemma Eval_bool e p v : connective e = true → Eval e p = Ok v → ∃ b, v = go_bool b.
Proof.
  destruct e; try done; intros _; simpl; go_simpl; intros; go_cases; eauto.
Qed.

Definition order_value o p : value :=
  match Eval (o_Expr o) p with Ok v => v | _ => VNull end.

(** How one order ranks two objects. *)
Definition ranks o p q : comparison :=
  let c := lex (value_key (order_value o p)) (value_key (order_value o q)) in
  if decide (Direction o = DescScr) then CompOpp c else c.

(** How a list of orders ranks them: by the first that tells them apart. *)
Fixpoint ranks_all (os : list (Order JP)) p q : comparison :=
  match os with
  | [] => Eq
  | o :: os' => match ranks o p q with Eq => ranks_all os' p q | c => c end
  end.

Definition before (os : list (Order JP)) p q : bool := bool_decide (ranks_all os p q = Lt).

(** Every order has a value for every object, and the values can be ordered. *)
Definition sortable_by (os : list (Order JP)) (l : list Obj) : Prop :=
  ∀ o p q, o ∈ os → p ∈ l → q ∈ l →
    ∃ v w, Eval (o_Expr o) p = Ok v ∧ Eval (o_Expr o) q = Ok w ∧ sortable v w.

Lemma compare_ranks os l o p q :
  sortable_by os l → o ∈ os → p ∈ l → q ∈ l →
  compare o p q = Ok (match ranks o p q with Eq => 0 | Lt => -1 | Gt => 1 end)%Z.
Proof.
  intros Hs Ho Hp Hq. destruct (Hs o p q Ho Hp Hq) as (v & w & Hv & Hw & Hvw).
  unfold compare, ranks, order_value, directed. rewrite Hv, Hw. go_simpl.
  rewrite (null_order_key _ _ Hvw). destruct (decide _), (lex _ _); done.
Qed.

Lemma less_before os l p q :
  os ≠ [] → sortable_by os l → p ∈ l → q ∈ l → less os p q = Ok (before os p q).
Proof.
  intros Hne Hs Hp Hq. unfold before. induction os as [|o os IH]; [done|]. cbn [less ranks_all].
  rewrite (compare_ranks (o :: os) l) by (done || by left).
  destruct os as [|o' os]; [by destruct (ranks o p q)|].
  assert (less (o' :: os) p q = Ok (bool_decide (ranks_all (o' :: os) p q = Lt))) as Hl.
  { apply IH; [done|]. intros o1 p1 q1 Ho1. apply Hs. by right. }
  destruct (ranks o p q); done.
Qed.

Lemma ranks_opp o p q : ranks o q p = CompOpp (ranks o p q).
Proof.
  unfold ranks. rewrite (lex_opp (value_key (order_value o p))). by destruct (decide _), (lex _ _).
Qed.

Lemma ranks_all_opp os p q : ranks_all os q p = CompOpp (ranks_all os p q).
Proof.
  induction os as [|o os IH]; [done|]. simpl. rewrite (ranks_opp o p q). by destruct (ranks o p q).
Qed.

Lemma ranks_eq o p q r : ranks o p q = Eq → ranks o p r = ranks o q r.
Proof.
  unfold ranks. intros H. assert (value_key (order_value o p) = value_key (order_value o q)) as ->; [|done].
  apply lex_eq. destruct (decide _); [|done]. by destruct (lex _ _).
Qed.

Lemma ranks_trans o p q r : ranks o p q = Lt → ranks o q r = Lt → ranks o p r = Lt.
Proof.
  unfold ranks. destruct (decide _); [|apply lex_trans].
  rewrite <-!lex_opp. intros Hpq Hqr. by eapply lex_trans.
Qed.

Lemma ranks_all_eq os p q r : ranks_all os p q = Eq → ranks_all os p r = ranks_all os q r.
Proof.
  induction os as [|o os IH]; [done|]. simpl. destruct (ranks o p q) eqn:H; try done.
  intros Hr. rewrite (ranks_eq _ _ _ r H). by rewrite IH.
Qed.

Lemma ranks_all_trans os p q r : ranks_all os p q = Lt → ranks_all os q r = Lt → ranks_all os p r = Lt.
Proof.
  induction os as [|o os IH]; [done|]. simpl. destruct (ranks o p q) eqn:Hpq; try done.
  - rewrite (ranks_eq _ _ _ r Hpq). destruct (ranks o q r); auto.
  - intros _. destruct (ranks o q r) eqn:Hqr; try done; intros _.
    + by rewrite (ranks_opp o r p), <-(ranks_eq _ _ _ p Hqr), (ranks_opp o p q), Hpq.
    + by rewrite (ranks_trans o p q r).
Qed.

Lemma before_weak_order os l : weak_order (before os) l.
Proof.
  unfold before. split.
  - intros p _. pose proof (ranks_all_opp os p p) as H. by destruct (ranks_all os p p).
  - intros p q r _ _ _ ?%bool_decide_eq_true ?%bool_decide_eq_true. apply bool_decide_eq_true.
    by eapply ranks_all_trans.
  - intros p q r _ _ _. rewrite (ranks_all_opp os p q), (ranks_all_opp os q r), (ranks_all_opp os p r).
    destruct (ranks_all os p q) eqn:Hpq; try done. by rewrite (ranks_all_eq _ _ _ r Hpq).
Qed.

(** Sorting by orders that have comparable values. *)
Lemma Sort_spec `{HS : !SliceStable} os l :
  sortable_by os l →
  ∃ l', Sort os l = Ok (l', None) ∧ l' ≡ₚ l ∧ in_order (before os) l' ∧
    ∀ p, p ∈ l → filter (λ q, ranks_all os p q = Eq) l' = filter (λ q, ranks_all os p q = Eq) l.
Proof.
  intros Hs. destruct os as [|o os].
  { exists l. split_and!; [done..| |done]. clear. by induction l. }
  assert (∀ p q, p ∈ l → q ∈ l → less (o :: os) p q = Ok (before (o :: os) p q)) as Hl
    by (intros; by eapply less_before).
  destruct (slice_stable_perm _ _ l Hl) as (l' & Hl' & Hp).
  destruct (slice_stable_sorted _ _ l l' Hl (before_weak_order _ _) Hl') as [Hin Hst].
  exists l'. split_and!; [|done..|].
  { unfold Sort. rewrite Hl'. done. }
  intros p Hpl. specialize (Hst p Hpl).
  assert (∀ q, ranks_all (o :: os) p q = Eq ↔ incomparable (before (o :: os)) p q = true) as He.
  { intros q. unfold incomparable, before. rewrite (ranks_all_opp _ p q).
    destruct (ranks_all (o :: os) p q); done. }
  rewrite !(list_filter_iff _ _ _ He). done.
Qed.
End Objects.
