(* ===== verification/StableSort.v ===== *)
(** An implementation of [sort.SliceStable]: insertion sort, which is what the Go library
    does for slices of up to twenty elements. *)
From stdpp Require Import base sets list.
From S2P Require Import Prelude GoStrings FilterExpr.

(** The elements sorted so far, the last one first; the new element moves towards the
    front while it is less than the one before it. *)
Fixpoint insert_last {A} (less : A → A → outcome bool) (x : A) (l : list A) : outcome (list A) :=
  match l with
  | [] => Ok [x]
  | y :: l' =>
      b ← less x y;
      if b : bool then r ← insert_last less x l'; mret (y :: r) else mret (x :: y :: l')
  end.

Fixpoint insertion_sort {A} (less : A → A → outcome bool) (acc l : list A) : outcome (list A) :=
  match l with
  | [] => Ok (reverse acc)
  | x :: l' => acc ← insert_last less x acc; insertion_sort less acc l'
  end.

Lemma in_order_app {A} (R : A → A → bool) l1 l2 :
  in_order R (l1 ++ l2) ↔ in_order R l1 ∧ in_order R l2 ∧ ∀ x y, x ∈ l1 → y ∈ l2 → R y x = false.
Proof.
  induction l1 as [|x l1 IH]; simpl; [set_solver|]. rewrite IH. set_solver.
Qed.

Lemma in_order_reverse {A} (R : A → A → bool) l : in_order (λ a b, R b a) l → in_order R (reverse l).
Proof.
  induction l as [|x l IH]; [done|]. intros [Hx Ho]. rewrite reverse_cons, in_order_app.
  split_and!; [by apply IH|set_solver|]. intros y z. rewrite elem_of_reverse, list_elem_of_singleton.
  intros Hy ->. by apply Hx.
Qed.

Section Insertion.
Context {A : Type} (less : A → A → outcome bool) (lt : A → A → bool) (l0 : list A).
Hypothesis Hless : ∀ x y, x ∈ l0 → y ∈ l0 → less x y = Ok (lt x y).

Fixpoint insert_pure (x : A) (l : list A) : list A :=
  match l with
  | [] => [x]
  | y :: l' => if lt x y then y :: insert_pure x l' else x :: y :: l'
  end.

Lemma insert_pure_perm x l : insert_pure x l ≡ₚ x :: l.
Proof.
  induction l as [|y l IH]; [done|]. simpl. destruct (lt x y); [|done].
  rewrite IH. apply Permutation_swap.
Qed.

Lemma insert_last_pure x l :
  x ∈ l0 → (∀ y, y ∈ l → y ∈ l0) → insert_last less x l = Ok (insert_pure x l).
Proof.
  intros Hx. induction l as [|y l IH]; intros Hl; [done|]. simpl. go_simpl.
  rewrite Hless by set_solver. destruct (lt x y); [|done]. rewrite IH by set_solver. done.
Qed.

Lemma insertion_sort_pure acc l :
  (∀ y, y ∈ acc ++ l → y ∈ l0) →
  insertion_sort less acc l = Ok (reverse (foldl (λ acc x, insert_pure x acc) acc l)).
Proof.
  revert acc. induction l as [|x l IH]; intros acc Hl; [done|]. simpl. go_simpl.
  rewrite insert_last_pure by set_solver. apply IH.
  intros y. rewrite elem_of_app, (insert_pure_perm x acc). set_solver.
Qed.

Lemma fold_perm acc l : foldl (λ acc x, insert_pure x acc) acc l ≡ₚ acc ++ l.
Proof.
  revert acc. induction l as [|x l IH]; intros acc; simpl; [by rewrite app_nil_r|].
  rewrite IH, insert_pure_perm. apply Permutation_middle.
Qed.

Section Ordered.
Hypothesis Hwo : weak_order lt l0.

Lemma lt_asym x y : x ∈ l0 → y ∈ l0 → lt x y = true → lt y x = false.
Proof.
  intros Hx Hy Hxy. destruct (lt y x) eqn:Hyx; [|done].
  pose proof (wo_trans _ _ Hwo x y x Hx Hy Hx Hxy Hyx). by rewrite (wo_irrefl _ _ Hwo) in *.
Qed.

(** Not being less is transitive. *)
Lemma not_lt_trans x y z :
  x ∈ l0 → y ∈ l0 → z ∈ l0 → lt x y = false → lt y z = false → lt x z = false.
Proof.
  intros Hx Hy Hz Hxy Hyz. destruct (lt x z) eqn:Hxz; [|done].
  destruct (lt y x) eqn:Hyx; [by rewrite (wo_trans _ _ Hwo y x z) in Hyz|].
  destruct (lt z y) eqn:Hzy; [by rewrite (wo_trans _ _ Hwo x z y) in Hxy|].
  destruct (wo_incomp _ _ Hwo x y z) as [H _]; try done. by rewrite H in Hxz.
Qed.

Lemma insert_in_order x l :
  x ∈ l0 → (∀ y, y ∈ l → y ∈ l0) → in_order (λ a b, lt b a) l →
  in_order (λ a b, lt b a) (insert_pure x l).
Proof.
  intros Hx. induction l as [|y l IH]; intros Hl Ho; simpl; [set_solver|].
  destruct Ho as [Hy Ho]. destruct (lt x y) eqn:Hxy; simpl.
  - split; [|apply IH; [set_solver|done]]. intros z. rewrite (insert_pure_perm x l).
    intros [->|Hz]%elem_of_cons; [apply lt_asym; [done|set_solver|done]|by apply Hy].
  - split; [|by split]. intros z [->|Hz]%elem_of_cons; [done|].
    apply (not_lt_trans x y z); [done|set_solver|set_solver|done|by apply Hy].
Qed.

Lemma fold_in_order acc l :
  (∀ y, y ∈ acc ++ l → y ∈ l0) → in_order (λ a b, lt b a) acc →
  in_order (λ a b, lt b a) (foldl (λ acc x, insert_pure x acc) acc l).
Proof.
  revert acc. induction l as [|x l IH]; intros acc Hl Ho; [done|]. simpl. apply IH.
  - intros y. rewrite elem_of_app, (insert_pure_perm x acc). set_solver.
  - apply insert_in_order; [set_solver..|done].
Qed.

Lemma insert_stable a x l :
  a ∈ l0 → x ∈ l0 → (∀ y, y ∈ l → y ∈ l0) →
  filter (λ y, incomparable lt a y = true) (reverse (insert_pure x l)) =
  filter (λ y, incomparable lt a y = true) (reverse l ++ [x]).
Proof.
  intros Ha Hx. induction l as [|y l IH]; intros Hl; [done|]. simpl.
  destruct (lt x y) eqn:Hxy; [|by rewrite !reverse_cons].
  rewrite !reverse_cons, !filter_app, IH, filter_app by set_solver. rewrite <-!app_assoc. f_equal.
  unfold incomparable. cbn [filter list_filter].
  destruct (decide _) as [H1|], (decide (_ (lt a y) && _ = true)) as [H2|]; try done. exfalso.
  rewrite !andb_true_iff, !negb_true_iff in H1, H2. destruct H1, H2.
  destruct (wo_incomp _ _ Hwo x a y) as [Hn _]; try done; [set_solver|]. by rewrite Hn in Hxy.
Qed.

Lemma fold_stable a acc l :
  a ∈ l0 → (∀ y, y ∈ acc ++ l → y ∈ l0) →
  filter (λ y, incomparable lt a y = true) (reverse (foldl (λ acc x, insert_pure x acc) acc l)) =
  filter (λ y, incomparable lt a y = true) (reverse acc ++ l).
Proof.
  intros Ha. revert acc. induction l as [|x l IH]; intros acc Hl; simpl; [by rewrite app_nil_r|].
  rewrite IH, filter_app, insert_stable, <-filter_app, <-app_assoc; [done|set_solver..|].
  intros y. rewrite elem_of_app, (insert_pure_perm x acc). set_solver.
Qed.
End Ordered.
End Insertion.

#[global] Program Instance InsertionSort : SliceStable := {|
  slice_stable A less l := insertion_sort less [] l;
|}.
Next Obligation.
  simpl. intros A less lt l Hl. rewrite (insertion_sort_pure less lt l Hl) by done. eexists. split; [done|].
  by rewrite reverse_Permutation, fold_perm.
Qed.
Next Obligation.
  simpl. intros A less lt l l' Hl Hwo. rewrite (insertion_sort_pure less lt l Hl) by done. intros [= <-].
  split; [by apply in_order_reverse, (fold_in_order less lt l Hl Hwo)|]. intros x Hx. by apply (fold_stable less lt l Hl Hwo).
Qed.
