(* ===== verification/FilterLex.v ===== *)
(** The lexical analyser of filter expressions ([pkg/consolegraphql/filter/lex.go]): the
    automaton generated from [lex.rl], with its positions in the input, the actions of
    its transitions and the conversion of literals. *)
From stdpp Require Import base strings list numbers.
From Stdlib Require Import SpecFloat Ascii.
From S2P Require Import Prelude GoStrings FilterExpr.

(** ** [strconv] *)

Definition is_digit (c : ascii) : bool := between 48 57 (byte_of c).

(** The number a sequence of digits stands for; [None] when a byte is no digit. *)
Fixpoint digits_value (acc : Z) (s : string) : option Z :=
  match s with
  | EmptyString => Some acc
  | String c s' => if is_digit c then digits_value (10 * acc + (byte_of c - 48)) s' else None
  end.

(** An optional sign: whether it is negative, and the rest. *)
Definition split_sign (s : string) : bool * string :=
  match s with
  | String c s' =>
      if Ascii.eqb c "+" then (false, s') else if Ascii.eqb c "-" then (true, s') else (false, s)
  | EmptyString => (false, s)
  end.

(** [strconv.Atoi]; [None] for its errors, of syntax and of range. *)
Definition Atoi (s : string) : option Z :=
  let '(neg, digits) := split_sign s in
  match digits with
  | EmptyString => None
  | _ =>
      n ← digits_value 0 digits;
      let z := if neg then (- n)%Z else n in
      if bool_decide (int_min Int <= z <= int_max Int)%Z then Some z else None
  end.

(** The digits before and after the first point. *)
Fixpoint split_point (s : string) : string * option string :=
  match s with
  | EmptyString => (EmptyString, None)
  | String c s' =>
      if Ascii.eqb c "." then (EmptyString, Some s')
      else let '(i, f) := split_point s' in (String c i, f)
  end.

(** The float64 nearest to [n / 10 ^ k]. *)
Definition decimal_float (neg : bool) (n : Z) (k : nat) : spec_float :=
  match n with
  | Z.pos m =>
      SFdiv (float_prec Float64) (float_emax Float64)
        (S754_finite neg m 0) (S754_finite false (Pos.pow 10 (Pos.of_nat k)) 0)
  | _ => S754_zero neg
  end.

(** [strconv.ParseFloat(s, 64)] for decimal numbers with a point and digits on both sides
    of it; [None] for its errors. *)
Definition ParseFloat (s : string) : option spec_float :=
  let '(neg, rest) := split_sign s in
  match split_point rest with
  | (String _ _ as i, Some (String _ _ as f)) =>
      n ← digits_value 0 (i +:+ f);
      match decimal_float neg n (String.length f) with
      | S754_infinity _ | S754_nan => None
      | x => Some x
      end
  | _ => None
  end.

(** ** Tokens *)

Definition OR : Z := 57346.
Definition AND : Z := 57347.
Definition NOT : Z := 57348.
Definition LE : Z := 57349.
Definition GE : Z := 57350.
Definition NE : Z := 57351.
Definition LIKE : Z := 57352.
Definition IS : Z := 57353.
Definition STRING : Z := 57354.
Definition INTEGRAL : Z := 57355.
Definition FLOAT : Z := 57356.
Definition JSON_PATH : Z := 57357.
Definition NULL : Z := 57358.
Definition TRUE : Z := 57359.
Definition FALSE : Z := 57360.
Definition START_EXPRESSION : Z := 57361.
Definition ASC : Z := 57362.
Definition DESC : Z := 57363.
Definition START_ORDER_LIST : Z := 57364.

(** ** The automaton *)

(** The transition of a state on a byte: the label [tr] the generated code jumps to. *)
Definition transition (cs : nat) (c : Z) : nat :=
  let on (l : list Z) := existsb (Z.eqb c) l in
  match cs with
  | 29 =>
      if on [32]%Z then 35 else if on [33]%Z then 36 else if on [39]%Z then 3
      else if on [40]%Z then 37 else if on [41]%Z then 38 else if on [44]%Z then 40
      else if on [60]%Z then 41 else if on [61]%Z then 42 else if on [62]%Z then 43
      else if on [65; 97]%Z then 44 else if on [68; 100]%Z then 45 else if on [70; 102]%Z then 46
      else if on [73; 105]%Z then 47 else if on [76; 108]%Z then 48 else if on [78; 110]%Z then 49
      else if on [79; 111]%Z then 50 else if on [84; 116]%Z then 51 else if on [96]%Z then 32
      else if (c <? 43)%Z then if between 9 13 c then 35 else 1
      else if (45 <? c)%Z then if between 48 57 c then 5 else 1
      else 39
  | 1 => if on [61]%Z then 0 else 1
  | 2 => if on [39]%Z then 4 else 3
  | 30 => if on [39]%Z then 3 else 52
  | 3 => if between 48 57 c then 5 else 1
  | 31 => if on [46]%Z then 54 else if between 48 57 c then 5 else 53
  | 4 => if between 48 57 c then 7 else 6
  | 32 => if between 48 57 c then 7 else 55
  | 33 => if on [61]%Z then 57 else 56
  | 34 => if on [61]%Z then 59 else 58
  | 5 => if on [78; 110]%Z then 8 else if on [83; 115]%Z then 9 else 1
  | 6 => if on [68; 100]%Z then 10 else 1
  | 7 => if on [67; 99]%Z then 11 else 1
  | 8 => if on [69; 101]%Z then 12 else 1
  | 9 => if on [83; 115]%Z then 13 else 1
  | 10 => if on [67; 99]%Z then 14 else 1
  | 11 => if on [65; 97]%Z then 15 else 1
  | 12 => if on [76; 108]%Z then 16 else 1
  | 13 => if on [83; 115]%Z then 17 else 1
  | 14 => if on [69; 101]%Z then 18 else 1
  | 15 => if on [83; 115]%Z then 19 else 1
  | 16 => if on [73; 105]%Z then 20 else 1
  | 17 => if on [75; 107]%Z then 21 else 1
  | 18 => if on [69; 101]%Z then 22 else 1
  | 19 => if on [79; 111]%Z then 23 else if on [85; 117]%Z then 24 else 1
  | 20 => if on [84; 116]%Z then 25 else 1
  | 21 => if on [76; 108]%Z then 26 else 1
  | 22 => if on [76; 108]%Z then 27 else 1
  | 23 => if on [82; 114]%Z then 28 else 1
  | 24 => if on [82; 114]%Z then 29 else 1
  | 25 => if on [85; 117]%Z then 30 else 1
  | 26 => if on [69; 101]%Z then 31 else 1
  | 27 => if on [96]%Z then 33 else 32
  | 35 => if on [96]%Z then 61 else 60
  | 28 => if on [96]%Z then 32 else 34
  | _ => 1
  end.

(** The state a label enters. *)
Definition tr_state (tr : nat) : nat :=
  match tr with
  | 1 => 0 | 36 => 1 | 3 => 2 | 39 => 3 | 54 => 4 | 44 => 5 | 8 => 6 | 9 => 7 | 45 => 8 | 12 => 9
  | 13 => 10 | 46 => 11 | 15 => 12 | 16 => 13 | 17 => 14 | 47 => 15 | 48 => 16 | 20 => 17
  | 21 => 18 | 49 => 19 | 23 => 20 | 24 => 21 | 26 => 22 | 50 => 23 | 51 => 24 | 29 => 25
  | 30 => 26 | 32 => 27 | 61 => 28
  | 4 => 30 | 5 => 31 | 7 => 32 | 41 => 33 | 43 => 34 | 33 => 35
  | _ => 29
  end.

(** The actions of a label, as [_filterlexer_actions] lists them for its function. *)
Definition tr_actions (tr : nat) : list nat :=
  match tr with
  | 0 => [19] | 2 => [32] | 6 => [30] | 10 => [6] | 11 => [14] | 14 => [15] | 18 => [11]
  | 19 => [13] | 22 => [9] | 25 => [8] | 27 => [12] | 28 => [7] | 31 => [10] | 34 => [31]
  | 35 => [23] | 37 => [20] | 38 => [21] | 40 => [22] | 42 => [16] | 52 => [26] | 53 => [24]
  | 55 => [25] | 56 => [29] | 57 => [18] | 58 => [28] | 59 => [17] | 60 => [27]
  | 4 => [3; 4] | 5 => [3] | 33 => [3; 5]
  | _ => []
  end.

(** The label taken at the end of the input. *)
Definition eof_transition (cs : nat) : option nat :=
  match cs with
  | 2 | 27 => Some 2
  | 30 => Some 52
  | 31 => Some 53
  | 4 => Some 6
  | 32 => Some 55
  | 33 => Some 56
  | 34 => Some 58
  | 35 => Some 60
  | 28 => Some 34
  | _ => None
  end.

(** ** The lexer *)

Section Lex.
Context {JP Obj RV : Type} `{HJ : !JsonPath JP Obj RV}.

Record lexer := {
  data : list ascii;
  p : Z;
  cs : nat;
  ts : Z;
  te : Z;
  act : nat;
  lex_e : option error;
  lex_expr : option (Expr JP);
  lex_orderBy : list (Order JP);
  startToks : list Z;
}.

(** The values of symbols. *)
Record FilterSymType := {
  yys : Z;
  stringValue : string;
  integralValue : Z;
  floatValue : spec_float;
  jsonPathValue : option (JP * string);
  boolVal : bool;
  orderList : list (Order JP);
  order : option (Order JP);
  expr : option (Expr JP);
  str : string;
}.

Definition newLexer (s : string) (starts : list Z) : lexer := {|
  data := String.list_ascii_of_string s; p := 0; cs := 29; ts := 0; te := 0; act := 0; lex_e := None;
  lex_expr := None; lex_orderBy := []; startToks := starts |}.

Definition set_pos (p' : Z) (l : lexer) : lexer := {|
  data := data l; p := p'; cs := cs l; ts := ts l; te := te l; act := act l; lex_e := lex_e l;
  lex_expr := lex_expr l; lex_orderBy := lex_orderBy l; startToks := startToks l |}.
Definition set_cs (cs' : nat) (l : lexer) : lexer := {|
  data := data l; p := p l; cs := cs'; ts := ts l; te := te l; act := act l; lex_e := lex_e l;
  lex_expr := lex_expr l; lex_orderBy := lex_orderBy l; startToks := startToks l |}.
Definition set_ts (ts' : Z) (l : lexer) : lexer := {|
  data := data l; p := p l; cs := cs l; ts := ts'; te := te l; act := act l; lex_e := lex_e l;
  lex_expr := lex_expr l; lex_orderBy := lex_orderBy l; startToks := startToks l |}.
Definition set_te (te' : Z) (l : lexer) : lexer := {|
  data := data l; p := p l; cs := cs l; ts := ts l; te := te'; act := act l; lex_e := lex_e l;
  lex_expr := lex_expr l; lex_orderBy := lex_orderBy l; startToks := startToks l |}.
Definition set_act (act' : nat) (l : lexer) : lexer := {|
  data := data l; p := p l; cs := cs l; ts := ts l; te := te l; act := act'; lex_e := lex_e l;
  lex_expr := lex_expr l; lex_orderBy := lex_orderBy l; startToks := startToks l |}.
Definition set_lex_e (e : option error) (l : lexer) : lexer := {|
  data := data l; p := p l; cs := cs l; ts := ts l; te := te l; act := act l; lex_e := e;
  lex_expr := lex_expr l; lex_orderBy := lex_orderBy l; startToks := startToks l |}.
Definition set_startToks (st : list Z) (l : lexer) : lexer := {|
  data := data l; p := p l; cs := cs l; ts := ts l; te := te l; act := act l; lex_e := lex_e l;
  lex_expr := lex_expr l; lex_orderBy := lex_orderBy l; startToks := st |}.

Definition set_string (s : string) (v : FilterSymType) : FilterSymType := {|
  yys := yys v; stringValue := s; integralValue := integralValue v; floatValue := floatValue v;
  jsonPathValue := jsonPathValue v; boolVal := boolVal v; orderList := orderList v;
  order := order v; expr := expr v; str := str v |}.
Definition set_integral (z : Z) (v : FilterSymType) : FilterSymType := {|
  yys := yys v; stringValue := stringValue v; integralValue := z; floatValue := floatValue v;
  jsonPathValue := jsonPathValue v; boolVal := boolVal v; orderList := orderList v;
  order := order v; expr := expr v; str := str v |}.
Definition set_float (f : spec_float) (v : FilterSymType) : FilterSymType := {|
  yys := yys v; stringValue := stringValue v; integralValue := integralValue v; floatValue := f;
  jsonPathValue := jsonPathValue v; boolVal := boolVal v; orderList := orderList v;
  order := order v; expr := expr v; str := str v |}.
Definition set_path (jp : JP * string) (v : FilterSymType) : FilterSymType := {|
  yys := yys v; stringValue := stringValue v; integralValue := integralValue v;
  floatValue := floatValue v; jsonPathValue := Some jp; boolVal := boolVal v;
  orderList := orderList v; order := order v; expr := expr v; str := str v |}.

Definition pe (l : lexer) : Z := Z.of_nat (length (data l)).

(** [lex.data[lo:hi]]; a slice out of bounds panics. *)
Definition slice (l : lexer) (lo hi : Z) : option string :=
  if bool_decide (0 <= lo <= hi ∧ hi <= pe l)%Z
  then Some (String.string_of_list_ascii (take (Z.to_nat (hi - lo)) (drop (Z.to_nat lo) (data l))))
  else None.

(** What an action does next: go on, return a token, or panic. *)
Inductive lexed :=
  | Continue (l : lexer) (out : FilterSymType)
  | Token (l : lexer) (out : FilterSymType) (tok : Z)
  | LexPanic.

(** The bodies of the actions that carry values; the position is the last one of the
    token, and [p++] follows. *)
Definition integral_token (l : lexer) (out : FilterSymType) : lexed :=
  match slice l (ts l) (te l) ≫= Atoi with
  | Some z => Token (set_pos (p l + 1) l) (set_integral z out) INTEGRAL
  | None => LexPanic
  end.

Definition float_token (l : lexer) (out : FilterSymType) : lexed :=
  match slice l (ts l) (te l) ≫= ParseFloat with
  | Some f => Token (set_pos (p l + 1) l) (set_float f out) FLOAT
  | None => LexPanic
  end.

Definition string_token (l : lexer) (out : FilterSymType) : lexed :=
  match slice l (ts l + 1) (te l - 1) with
  | Some s => Token (set_pos (p l + 1) l) (set_string (ReplaceAll s "''" "'") out) STRING
  | None => LexPanic
  end.

Definition path_token (l : lexer) (out : FilterSymType) : lexed :=
  match slice l (ts l + 1) (te l - 1) with
  | Some s =>
      let val := ReplaceAll s "```" "`" in
      let '(jsonPath, err) := parse_path ("{" +:+ val +:+ "}") in
      let l := match err with Some _ => set_lex_e err l | None => l end in
      Token (set_pos (p l + 1) l) (set_path (jsonPath, val) out) JSON_PATH
  | None => LexPanic
  end.

(** A token without a value that ends here. *)
Definition plain_token (tok : Z) (l : lexer) (out : FilterSymType) : lexed :=
  Token (set_pos (p l + 1) (set_te (p l + 1) l)) out tok.

(** [lex.te = lex.p; lex.p--], before a token that ended one position earlier. *)
Definition hold (l : lexer) : lexer := set_pos (p l - 1) (set_te (p l) l).
(** [lex.p = lex.te - 1], back to the end of the last token seen. *)
Definition back (l : lexer) : lexer := set_pos (te l - 1) l.

Definition action (a : nat) (l : lexer) (out : FilterSymType) : lexed :=
  match a with
  | 3 | 23 => Continue (set_te (p l + 1) l) out
  | 4 => Continue (set_act 3 l) out
  | 5 => Continue (set_act 4 l) out
  | 6 => plain_token AND l out
  | 7 => plain_token OR l out
  | 8 => plain_token NOT l out
  | 9 => plain_token LIKE l out
  | 10 => plain_token TRUE l out
  | 11 => plain_token FALSE l out
  | 12 => plain_token NULL l out
  | 13 => plain_token IS l out
  | 14 => plain_token ASC l out
  | 15 => plain_token DESC l out
  | 16 => plain_token 61 l out
  | 17 => plain_token GE l out
  | 18 => plain_token LE l out
  | 19 => plain_token NE l out
  | 20 => plain_token 40 l out
  | 21 => plain_token 41 l out
  | 22 => plain_token 44 l out
  | 24 => integral_token (hold l) out
  | 25 => float_token (hold l) out
  | 26 => string_token (hold l) out
  | 27 => path_token (hold l) out
  | 28 => Token (set_pos (p l) (set_te (p l) l)) out 62
  | 29 => Token (set_pos (p l) (set_te (p l) l)) out 60
  | 30 => integral_token (back l) out
  | 31 => path_token (back l) out
  | 32 =>
      match act l with
      | 0 => Continue (set_cs 0 l) out
      | 3 => string_token (back l) out
      | 4 => path_token (back l) out
      | _ => Continue l out
      end
  | _ => Continue l out
  end.

Fixpoint actions (acts : list nat) (l : lexer) (out : FilterSymType) : lexed :=
  match acts with
  | [] => Continue l out
  | a :: acts' =>
      match action a l out with
      | Continue l out => actions acts' l out
      | r => r
      end
  end.

(** A jump to a label. *)
Definition jump (tr : nat) (l : lexer) (out : FilterSymType) : lexed :=
  actions (tr_actions tr) (set_cs (tr_state tr) l) out.

(** [_again] up to the test of the state. *)
Definition to_state (l : lexer) : lexer :=
  if decide (cs l = 29) then set_act 0 (set_ts 0 l) else l.

(** The result of [Lex]: the lexer, the value and the token. *)
Definition lex_result : Type := option (lexer * FilterSymType * Z).

(** [_test_eof]; going on beyond the end of the data would be out of its range. *)
Definition test_eof (l : lexer) (out : FilterSymType) : lex_result :=
  match eof_transition (cs l) with
  | Some tr =>
      match jump tr l out with
      | Continue l out =>
          let l := to_state l in
          if decide (cs l = 0) then Some (l, out, 0%Z) else None
      | Token l out tok => Some (l, out, tok)
      | LexPanic => None
      end
  | None => Some (l, out, 0%Z)
  end.

(** The loop from [_resume] over the bytes from the position on. *)
Fixpoint resume (rest : list ascii) (l : lexer) (out : FilterSymType) : lex_result :=
  match rest with
  | [] => test_eof l out
  | c :: rest' =>
      let l := if decide (cs l = 29) then set_ts (p l) l else l in
      match jump (transition (cs l) (byte_of c)) l out with
      | LexPanic => None
      | Token l out tok => Some (l, out, tok)
      | Continue l out =>
          let l := to_state l in
          if decide (cs l = 0) then Some (l, out, 0%Z)
          else resume rest' (set_pos (p l + 1) l) out
      end
  end.

(** [Lex]; [None] is a panic. *)
Definition Lex (l : lexer) (out : FilterSymType) : lex_result :=
  match startToks l with
  | tok :: toks => Some (set_startToks toks l, out, tok)
  | [] =>
      if decide (p l = pe l) then test_eof l out
      else if decide (cs l = 0) then Some (l, out, 0%Z)
      else resume (drop (Z.to_nat (p l)) (data l)) l out
  end.
End Lex.

Arguments lexer JP : clear implicits.
Arguments FilterSymType JP : clear implicits.
