(* ===== verification/FilterLexFacts.v ===== *)
(** The lexer makes progress: positions stay within the input, and a call that returns a
    token has consumed some of it. *)
From stdpp Require Import base strings list numbers.
From Stdlib Require Import SpecFloat Ascii.
From S2P Require Import Prelude GoStrings FilterExpr FilterLex.

(** Arithmetic on positions. *)
Ltac pos := unfold pe in *; simpl in *; lia.

Section LexFacts.
Context {JP Obj RV : Type} `{HJ : !JsonPath JP Obj RV}.
Implicit Types (l : lexer JP) (out : FilterSymType JP).

(** What the actions of the lexer leave alone. *)
Definition same_input l l' : Prop :=
  data l' = data l ∧ startToks l' = startToks l ∧ lex_expr l' = lex_expr l ∧
  lex_orderBy l' = lex_orderBy l.

Lemma same_input_refl l : same_input l l.
Proof. done. Qed.

Lemma same_input_trans l1 l2 l3 : same_input l1 l2 → same_input l2 l3 → same_input l1 l3.
Proof. intros (?&?&?&?) (?&?&?&?). unfold same_input. split_and!; congruence. Qed.

(** Between two calls. *)
Record lex_wf l : Prop := {
  lw_p : (0 <= p l <= pe l)%Z;
  lw_te : (te l <= pe l)%Z;
  lw_cs : cs l = 29 ∨ cs l = 0 ∨ p l = pe l ∧ eof_transition (cs l) = None;
}.

(** Inside a call that began at [p0]; the token being read began at [ts]. *)
Record in_token (p0 : Z) l : Prop := {
  it_p : (0 <= p0 <= p l)%Z;
  it_pe : (p l <= pe l)%Z;
  it_te : (te l <= pe l)%Z;
  it_ts : (p0 <= ts l <= p l)%Z;
}.

(** A token that was read. *)
Definition token_read (p0 : Z) l l' (tok : Z) : Prop :=
  same_input l l' ∧ (cs l' = cs l ∨ cs l' = 0) ∧ (p0 < p l' <= pe l')%Z ∧ (te l' <= pe l')%Z ∧ (0 < tok)%Z.

Lemma slice_Some l lo hi s : slice l lo hi = Some s → (0 <= lo <= hi)%Z ∧ (hi <= pe l)%Z.
Proof. unfold slice. case_bool_decide; naive_solver. Qed.

Lemma slice_Atoi l lo hi z : slice l lo hi ≫= Atoi = Some z → (lo < hi)%Z.
Proof.
  intros (s & Hs & Ha)%bind_Some. pose proof (slice_Some _ _ _ _ Hs).
  destruct (decide (lo = hi)) as [->|]; [|lia]. unfold slice in Hs. case_bool_decide; simplify_eq.
  by rewrite Z.sub_diag in Ha.
Qed.

Lemma slice_ParseFloat l lo hi f : slice l lo hi ≫= ParseFloat = Some f → (lo < hi)%Z.
Proof.
  intros (s & Hs & Ha)%bind_Some. pose proof (slice_Some _ _ _ _ Hs).
  destruct (decide (lo = hi)) as [->|]; [|lia]. unfold slice in Hs. case_bool_decide; simplify_eq.
  by rewrite Z.sub_diag in Ha.
Qed.

(** The four tokens that carry a value: the position is the last one of the token. *)
Lemma value_token l out l' out' tok p0 :
  (p0 <= ts l)%Z → (te l <= pe l)%Z → (p l + 1 = te l)%Z →
  integral_token l out = Token l' out' tok ∨ float_token l out = Token l' out' tok ∨
  string_token l out = Token l' out' tok ∨ path_token l out = Token l' out' tok →
  token_read p0 l l' tok.
Proof.
  unfold integral_token, float_token, string_token, path_token, token_read, same_input.
  intros H0 Hte Hp [H|[H|[H|H]]].
  - destruct (_ ≫= _) eqn:Hs; simplify_eq/=. apply slice_Atoi in Hs. split_and!; try done; (by left) || pos.
  - destruct (_ ≫= _) eqn:Hs; simplify_eq/=. apply slice_ParseFloat in Hs. split_and!; try done; (by left) || pos.
  - destruct (slice _ _ _) eqn:Hs; simplify_eq/=. apply slice_Some in Hs. split_and!; try done; (by left) || pos.
  - destruct (slice _ _ _) eqn:Hs; [|done]. apply slice_Some in Hs.
    destruct (parse_path _) as [jp [e|]]; simplify_eq/=; split_and!; try done; (by left) || pos.
Qed.

Lemma plain_token_read tok l out p0 :
  in_token p0 l → (p l < pe l)%Z → (0 < tok)%Z →
  ∃ l', plain_token tok l out = Token l' out tok ∧ token_read p0 l l' tok.
Proof.
  intros [] Hp Ht. eexists. split; [done|]. unfold token_read, same_input. split_and!; try done; (by left) || pos.
Qed.

(** What one action does. *)
Definition action_post (p0 : Z) l (r : lexed) : Prop :=
  match r with
  | Continue l' _ =>
      same_input l l' ∧ in_token p0 l' ∧ p l' = p l ∧ ts l' = ts l ∧ (cs l' = cs l ∨ cs l' = 0)
  | Token l' _ tok => token_read p0 l l' tok
  | LexPanic => True
  end.

Lemma plain_token_post tok l out p0 :
  in_token p0 l → (p l < pe l)%Z → (0 < tok)%Z → action_post p0 l (plain_token tok l out).
Proof. intros. by destruct (plain_token_read tok l out p0) as (l' & -> & ?). Qed.

Lemma value_post l l1 out p0 r :
  same_input l l1 → cs l1 = cs l → (p0 <= ts l1)%Z → (te l1 <= pe l1)%Z → (p l1 + 1 = te l1)%Z →
  r = integral_token l1 out ∨ r = float_token l1 out ∨ r = string_token l1 out ∨ r = path_token l1 out →
  action_post p0 l r.
Proof.
  intros Hs Hc Hts Hte Hp Hr. destruct r as [l' out'|l' out' tok|]; [|simpl|done].
  - exfalso. unfold integral_token, float_token, string_token, path_token in Hr.
    destruct Hr as [H|[H|[H|H]]]; repeat (case_match; try done).
  - destruct (value_token l1 out l' out' tok p0) as (Hs' & Hc' & Hpos); [done..|naive_solver|].
    unfold token_read. rewrite <-Hc. split_and!; [by eapply same_input_trans|done|apply Hpos..].
Qed.

Lemma action_spec a l out p0 :
  in_token p0 l → (a < 24 → (p l < pe l)%Z) → (24 ≤ a → (ts l < p l)%Z) →
  action_post p0 l (action a l out).
Proof.
  intros Hl Hlo Hhi. pose proof Hl as [].
  assert (∀ n, action_post p0 l (Continue (set_act n l) out)) as Hact.
  { intros n. split_and!; (done || by left). }
  assert (action_post p0 l (Continue l out)) as Hcont by (split_and!; try done; by left).
  assert (action_post p0 l (Continue (set_te (p l + 1) l) out) ∨ 24 ≤ a) as Hte.
  { destruct (decide (24 ≤ a)); [by right|left]. specialize (Hlo ltac:(lia)).
    split_and!; (done || by left || (split; pos)). }
  do 33 try (destruct a as [|a]); try done.
  all: try (apply plain_token_post; [done|lia|done]).
  all: try (specialize (Hhi ltac:(lia))); try (destruct Hte as [Hte|?]; [exact Hte|lia]).
  all: try (eapply (value_post l (hold l)); try done; [pos..|tauto]).
  1-2: by apply Hact.
  1-2: simpl; unfold token_read; split_and!; (done || (by left) || pos).
  1-2: eapply (value_post l (back l) out); try done; [pos..|tauto].
  simpl. assert (∀ r, r = string_token (back l) out ∨ r = path_token (back l) out → action_post p0 l r) as Hb.
  { intros r Hr. eapply (value_post l (back l) out); try done; [pos..|tauto]. }
  destruct (act l) as [|[|[|[|[|]]]]]; try done; [|by apply Hb; left|by apply Hb; right].
  split_and!; try done; by right.
Qed.

Lemma actions_spec acts l out p0 :
  in_token p0 l → (p l < pe l)%Z ∨ Forall (λ a, 24 ≤ a) acts → (ts l < p l)%Z ∨ Forall (λ a, a < 24) acts →
  action_post p0 l (actions acts l out).
Proof.
  revert l out. induction acts as [|a acts IH]; intros l out Hl Hlo Hhi.
  { simpl. split_and!; try done. by left. }
  assert (action_post p0 l (action a l out)) as Ha.
  { apply action_spec; [done|..].
    - intros Ha. destruct Hlo as [?|Hf]; [done|]. inversion Hf; subst. lia.
    - intros Ha. destruct Hhi as [?|Hf]; [done|]. inversion Hf; subst. lia. }
  simpl. destruct (action a l out) as [l' out'|l' out' tok|]; [|done..].
  destruct Ha as (Hs & Hl' & Hp & Hts & Hcs). specialize (IH l' out' Hl').
  assert (pe l' = pe l) as Hpe by (unfold pe; by destruct Hs as [-> _]).
  destruct (actions acts l' out') as [l2 ?|l2 ? ?|]; [| |done]; simpl in *.
  - destruct IH as (Hs2 & Hl2 & Hp2 & Hts2 & Hcs2).
    { rewrite Hp, Hpe. destruct Hlo as [|Hf]; [by left|right]. by inversion Hf. }
    { rewrite Hp, Hts. destruct Hhi as [|Hf]; [by left|right]. by inversion Hf. }
    split_and!; [by eapply same_input_trans|done|lia|lia|]. destruct Hcs, Hcs2; [left|right..]; congruence.
  - destruct IH as (Hs2 & Hcs2 & Hrest).
    { rewrite Hp, Hpe. destruct Hlo as [|Hf]; [by left|right]. by inversion Hf. }
    { rewrite Hp, Hts. destruct Hhi as [|Hf]; [by left|right]. by inversion Hf. }
    split_and!; [by eapply same_input_trans| |apply Hrest..]. destruct Hcs, Hcs2; [left|right..]; congruence.
Qed.

(** The labels that return a token or go back to the start enter the start state. *)
Lemma transition_start c : Forall (λ a, a < 24) (tr_actions (transition 29 c)).
Proof. unfold transition. repeat case_match; repeat constructor; lia. Qed.

Lemma eof_actions cs tr : eof_transition cs = Some tr → Forall (λ a, 24 ≤ a) (tr_actions tr) ∧ tr_state tr = 29.
Proof. unfold eof_transition. intros. repeat case_match; simplify_eq; split; try done; repeat constructor; lia. Qed.

Lemma jump_token tr l out l' out' tok : jump tr l out = Token l' out' tok → tr_state tr = 29.
Proof. unfold jump. do 62 (destruct tr as [|tr]; [done|]). done. Qed.

Lemma jump_post tr l out p0 :
  in_token p0 l → (p l < pe l)%Z ∨ Forall (λ a, 24 ≤ a) (tr_actions tr) →
  (ts l < p l)%Z ∨ Forall (λ a, a < 24) (tr_actions tr) →
  action_post p0 (set_cs (tr_state tr) l) (jump tr l out).
Proof. intros Hl Hlo Hhi. apply actions_spec; [|done..]. by destruct Hl; split. Qed.

(** What a call does. *)
Definition lex_post (p0 : Z) l (r : lex_result) : Prop :=
  match r with
  | Some (l', _, tok) =>
      same_input l l' ∧ lex_wf l' ∧ (p0 <= p l')%Z ∧ (tok = 0 ∨ 0 < tok ∧ p0 < p l')%Z
  | None => True
  end.

(** Where a call that began at [p0] stands before it looks at a byte. *)
Definition at_pos (p0 : Z) l : Prop := (0 <= p0 <= p l)%Z ∧ (p l <= pe l)%Z ∧ (te l <= pe l)%Z.

Lemma test_eof_post l out p0 :
  at_pos p0 l → p l = pe l → eof_transition (cs l) = None ∨ (p0 <= ts l < p l)%Z →
  lex_post p0 l (test_eof l out).
Proof.
  intros (Hp0 & Hpe & Hte) Hp Hcs. unfold test_eof.
  destruct (eof_transition (cs l)) as [tr|] eqn:He.
  2: { simpl. split_and!; [done| |lia|by left]. split; [lia|done|]. auto. }
  destruct Hcs as [|Hts]; [done|]. destruct (eof_actions _ _ He) as [Hf H29].
  assert (in_token p0 l) as Hl by (split; lia).
  pose proof (jump_post tr l out p0 Hl (or_intror Hf) (or_introl (proj2 Hts))) as Hj. rewrite H29 in Hj.
  destruct (jump tr l out) as [l' out'|l' out' tok|]; simpl in *; [| |done].
  - destruct Hj as (Hs & [] & Hp' & Hts' & Hcs'). simpl in *.
    unfold to_state. destruct (decide (cs l' = 29)) as [H|H]; case_decide as H0; try done; [simpl in H0; congruence|].
    split_and!; try done; [split; try pos; auto|lia|by left].
  - destruct Hj as (Hs & Hcs' & Hp' & Hte' & Ht). split_and!; [done| |lia|lia].
    split; [lia|done|]. simpl in Hcs'. tauto.
Qed.

(** One turn of the loop. *)
Lemma turn_post c l out p0 :
  at_pos p0 l → (p l < pe l)%Z → cs l = 29 ∨ (p0 <= ts l < p l)%Z →
  let l1 := if decide (cs l = 29) then set_ts (p l) l else l in
  match jump (transition (cs l1) (byte_of c)) l1 out with
  | Continue l' _ => same_input l l' ∧ at_pos p0 l' ∧ p l' = p l ∧ (p0 <= ts l' <= p l)%Z
  | Token l' _ tok => same_input l l' ∧ lex_wf l' ∧ (0 < tok)%Z ∧ (p0 < p l')%Z
  | LexPanic => True
  end.
Proof.
  intros (Hp0 & Hpe & Hte) Hlt Hcs l1.
  assert (in_token p0 l1 ∧ same_input l l1 ∧ cs l1 = cs l ∧ p l1 = p l ∧
    (cs l = 29 ∨ (ts l1 < p l1)%Z)) as (Hl1 & Hs1 & Hcs1 & Hp1 & Hts1).
  { unfold l1. destruct (decide (cs l = 29)); split_and!; try done; try (by left); try (split; pos).
    right. tauto || lia. }
  clearbody l1.
  set (tr := transition (cs l1) (byte_of c)).
  assert (action_post p0 (set_cs (tr_state tr) l1) (jump tr l1 out)) as Hj.
  { apply jump_post; [done|left; destruct Hs1 as [Hd _]; unfold pe in *; rewrite Hd; lia|].
    destruct Hts1 as [H29|]; [right|by left]. unfold tr. rewrite Hcs1, H29. apply transition_start. }
  destruct (jump tr l1 out) as [l' out'|l' out' tok|] eqn:Hjump; simpl in Hj; [| |done].
  - destruct Hj as (Hs & [] & Hp' & Hts' & Hcs'). simpl in *.
    split_and!; [by eapply same_input_trans|unfold at_pos; lia|lia..].
  - destruct Hj as (Hs & Hcs' & Hrest). rewrite (jump_token _ _ _ _ _ _ Hjump) in Hcs'. simpl in Hcs'.
    destruct Hrest as (Hp & Hte' & Ht). split_and!; [by eapply same_input_trans| |lia..].
    split; [lia|done|tauto].
Qed.

Lemma resume_post rest l out p0 :
  at_pos p0 l → rest = drop (Z.to_nat (p l)) (data l) → cs l = 29 ∨ (p0 <= ts l < p l)%Z →
  lex_post p0 l (resume rest l out).
Proof.
  revert l out. induction rest as [|c rest IH]; intros l out Hl Hr Hcs.
  - apply test_eof_post; [done| |destruct Hcs as [->|]; auto].
    apply (f_equal length) in Hr. rewrite length_drop in Hr. destruct Hl as (?&?&?). pos.
  - assert (p l < pe l)%Z as Hlt.
    { apply (f_equal length) in Hr. rewrite length_drop in Hr. destruct Hl as (?&?&?). pos. }
    pose proof (turn_post c l out p0 Hl Hlt Hcs) as Ht. cbn [resume]. simpl in Ht.
    destruct (jump _ _ _) as [l' out'|l' out' tok|]; [| |done].
    2: { destruct Ht as (Hs & Hw & Htok & Hp). simpl. split_and!; [done..|lia|by right]. }
    destruct Ht as (Hs & (Hp0 & Hpe & Hte) & Hp & Hts).
    assert (data l' = data l) as Hd by apply Hs.
    assert (same_input l (to_state l') ∧ p (to_state l') = p l ∧ te (to_state l') = te l' ∧
      (cs (to_state l') = 29 ∨ ts (to_state l') = ts l')) as (Hs2 & Hp2 & Hte2 & Hts2).
    { unfold to_state. destruct (decide (cs l' = 29)); simpl; auto. }
    assert (pe (to_state l') = pe l) as Hpe2 by (unfold pe; by destruct Hs2 as [-> _]).
    assert (pe l' = pe l) as Hpe3 by (unfold pe; by rewrite Hd).
    destruct (decide (cs (to_state l') = 0)) as [H0|H0].
    + simpl. split_and!; [done| |lia|by left]. split; [lia|lia|auto].
    + assert (lex_post p0 (set_pos (p (to_state l') + 1) (to_state l'))
        (resume rest (set_pos (p (to_state l') + 1) (to_state l')) out')) as Hr2.
      { apply IH.
        - unfold at_pos. simpl. change (pe (set_pos _ (to_state l'))) with (pe (to_state l')). lia.
        - simpl. rewrite Hp2. destruct Hs2 as [-> _]. destruct Hl as [Hl _].
          rewrite Z2Nat.inj_add by lia. rewrite <-drop_drop, <-Hr. done.
        - simpl. destruct Hts2 as [|Hts2]; [by left|right]. lia. }
      destruct (resume rest _ _) as [[[l2 ?] tok]|]; [|done]. simpl in *.
      destruct Hr2 as (Hs3 & Hrest). split; [|done]. eapply same_input_trans; [exact Hs2|done].
Qed.

(** Bytes not yet read, and start tokens not yet returned. *)
Definition remaining l : nat := length (startToks l) + Z.to_nat (pe l - p l).

(** A call keeps the lexer well formed; it returns no token, or one that it consumed. *)
Lemma Lex_spec l out l' out' tok :
  lex_wf l → Forall (λ t, 0 < t)%Z (startToks l) → Lex l out = Some (l', out', tok) →
  lex_wf l' ∧ startToks l' = tail (startToks l) ∧ data l' = data l ∧
  lex_expr l' = lex_expr l ∧ lex_orderBy l' = lex_orderBy l ∧ (0 <= tok)%Z ∧
  remaining l' ≤ remaining l ∧ (tok ≠ 0%Z → remaining l' < remaining l).
Proof.
  intros Hw Hst. unfold Lex, remaining. destruct (startToks l) as [|t ts'] eqn:Hs.
  - intros HL. assert (lex_post (p l) l (Some (l', out', tok))) as (Hsame & Hw' & Hp & Htok).
    { rewrite <-HL. destruct Hw. repeat case_decide.
      - apply test_eof_post; [split; lia|done|]. left. by destruct lw_cs0 as [->|[->|[??]]].
      - split_and!; [done|by split|lia|by left].
      - apply resume_post; [split; lia|done|]. left. destruct lw_cs0 as [|[|[??]]]; done. }
    destruct Hsame as (Hd & Hst' & He & Ho). rewrite Hst', Hs. simpl.
    assert (pe l' = pe l) as Hpe by (unfold pe; by rewrite Hd). destruct Hw'.
    split_and!; try done; lia.
  - intros [= <- <- <-]. inversion Hst; subst. simpl. destruct Hw.
    split_and!; try done; try (split; done); try lia;
      change (pe (set_startToks ts' l)) with (pe l); lia.
Qed.
End LexFacts.
