(* ===== verification/FilterParse.v ===== *)
(** The parser of filter expressions and order lists
    ([pkg/consolegraphql/filter/parser.go]): the tables goyacc generated from [parser.y]
    and the automaton that interprets them. *)
From stdpp Require Import base strings list numbers.
From Stdlib Require Import SpecFloat.
From S2P Require Import Prelude GoStrings FilterExpr FilterLex.

(** ** Tables *)

Definition FilterEofCode : Z := 1.
Definition FilterErrCode : Z := 2.
Definition FilterPrivate : Z := 57344.
Definition FilterLast : Z := 64.
Definition FilterFlag : Z := -1000.

Definition FilterExca : list Z :=
  [-1; 1; 1; -1; -2; 0; -1; 8; 1; 8; 4; 8; 5; 8; 16; 8; -2; 15]%Z.

Definition FilterAct : list Z :=
  [8; 19; 9; 7; 13; 14; 15; 16; 17; 10;
   11; 35; 6; 50; 13; 14; 15; 16; 17; 10;
   11; 37; 38; 20; 45; 47; 43; 43; 42; 44;
   2; 4; 22; 21; 3; 22; 21; 48; 23; 24;
   46; 21; 1; 36; 41; 18; 43; 12; 49; 25;
   5; 0; 0; 39; 40; 27; 29; 30; 31; 32;
   33; 34; 26; 28]%Z.

Definition FilterPact : list Z :=
  [6; -1000; -3; 3; 31; -1000; -3; -3; -1000; 49;
   -1000; -1000; -1000; -1000; -1000; -1000; -1000; -1000; -16; -1000;
   -4; -3; -3; 28; -1000; -13; -13; 11; 19; -1000;
   -1000; -1000; -1000; -1000; -1000; 3; -1000; -1000; -1000; -1000;
   36; -1000; -1000; -1000; -1000; -13; -1000; -8; -1000; -1000;
   -1000]%Z.

Definition FilterPgo : list Z := [0; 31; 50; 49; 47; 2; 0; 45; 1; 43; 42]%Z.

Definition FilterR1 : list Z :=
  [0; 10; 10; 1; 1; 1; 1; 1; 1; 2;
   2; 2; 2; 2; 5; 5; 3; 3; 3; 3;
   3; 3; 4; 4; 4; 4; 4; 6; 6; 7;
   7; 7; 8; 9; 9; 9]%Z.

Definition FilterR2 : list Z :=
  [0; 2; 2; 1; 3; 3; 3; 2; 1; 3;
   3; 4; 3; 4; 1; 1; 1; 1; 1; 1;
   1; 1; 1; 1; 1; 1; 1; 1; 1; 0;
   1; 3; 2; 0; 1; 1]%Z.

Definition FilterChk : list Z :=
  [-1000; -10; 24; 28; -1; -2; 15; 6; -6; -5;
   22; 23; -4; 17; 18; 19; 20; 21; -7; -8;
   20; 5; 4; -1; -1; -3; 13; 6; 14; 7;
   8; 9; 10; 11; 12; 27; -9; 25; 26; -1;
   -1; 16; -5; -6; -5; 13; 21; 6; -8; -5;
   21]%Z.

Definition FilterDef : list Z :=
  [0; -2; 0; 29; 1; 3; 0; 0; -2; 0;
   27; 28; 14; 22; 23; 24; 25; 26; 2; 30;
   33; 0; 0; 0; 7; 0; 0; 0; 0; 16;
   17; 18; 19; 20; 21; 0; 32; 34; 35; 5;
   6; 4; 9; 15; 10; 0; 12; 0; 31; 11;
   13]%Z.

Definition FilterTok1 : list Z :=
  [1; 3; 3; 3; 3; 3; 3; 3; 3; 3;
   3; 3; 3; 3; 3; 3; 3; 3; 3; 3;
   3; 3; 3; 3; 3; 3; 3; 3; 3; 3;
   3; 3; 3; 3; 3; 3; 3; 3; 3; 3;
   15; 16; 3; 3; 27; 3; 3; 3; 3; 3;
   3; 3; 3; 3; 3; 3; 3; 3; 3; 3;
   8; 7; 9]%Z.

Definition FilterTok2 : list Z :=
  [2; 3; 4; 5; 6; 10; 11; 12; 13; 14;
   17; 18; 19; 20; 21; 22; 23; 24; 25; 26;
   28]%Z.

(** An entry of a table. *)
Definition entry (t : list Z) (n : Z) : Z := nth (Z.to_nat n) t 0%Z.

(** The internal number of a character the lexer returns. *)
Definition translate (char : Z) : Z :=
  let token :=
    if (char <=? 0)%Z then entry FilterTok1 0
    else if (char <? Z.of_nat (length FilterTok1))%Z then entry FilterTok1 char
    else if (FilterPrivate <=? char)%Z && (char <? FilterPrivate + Z.of_nat (length FilterTok2))%Z
    then entry FilterTok2 (char - FilterPrivate)
    else 0%Z in
  if decide (token = 0)%Z then entry FilterTok2 1 else token.

(** The search through the exception table: first the state, then the token. *)
Fixpoint exca_tokens (t : list Z) (token : Z) : Z :=
  match t with
  | n :: m :: t' => if (n <? 0)%Z || (n =? token)%Z then m else exca_tokens t' token
  | _ => 0
  end.
Fixpoint exca_state (t : list Z) (state token : Z) : Z :=
  match t with
  | n :: m :: t' =>
      if (n =? -1)%Z && (m =? state)%Z then exca_tokens t' token else exca_state t' state token
  | _ => 0
  end.

(** The state after a reduction to the nonterminal [n] that uncovers [state]. *)
Definition goto_state (n state : Z) : Z :=
  let g := entry FilterPgo n in
  let j := (g + state + 1)%Z in
  if (FilterLast <=? j)%Z then entry FilterAct g
  else
    let s := entry FilterAct j in
    if (entry FilterChk s =? - n)%Z then s else entry FilterAct g.

(** ** The automaton *)

Section Parse.
Context {JP Obj RV : Type} `{HJ : !JsonPath JP Obj RV}.
Notation Sym := (FilterSymType JP).

(** The zero value of a symbol. *)
Definition zero_sym : Sym := {|
  yys := 0; stringValue := ""; integralValue := 0; floatValue := S754_zero false;
  jsonPathValue := None; boolVal := false; orderList := []; order := None; expr := None; str := "" |}.

Definition set_yys (s : Z) (v : Sym) : Sym := {|
  yys := s; stringValue := stringValue v; integralValue := integralValue v;
  floatValue := floatValue v; jsonPathValue := jsonPathValue v; boolVal := boolVal v;
  orderList := orderList v; order := order v; expr := expr v; str := str v |}.
Definition set_expr (e : Expr JP) (v : Sym) : Sym := {|
  yys := yys v; stringValue := stringValue v; integralValue := integralValue v;
  floatValue := floatValue v; jsonPathValue := jsonPathValue v; boolVal := boolVal v;
  orderList := orderList v; order := order v; expr := Some e; str := str v |}.
Definition set_str (s : string) (v : Sym) : Sym := {|
  yys := yys v; stringValue := stringValue v; integralValue := integralValue v;
  floatValue := floatValue v; jsonPathValue := jsonPathValue v; boolVal := boolVal v;
  orderList := orderList v; order := order v; expr := expr v; str := s |}.
Definition set_boolVal (b : bool) (v : Sym) : Sym := {|
  yys := yys v; stringValue := stringValue v; integralValue := integralValue v;
  floatValue := floatValue v; jsonPathValue := jsonPathValue v; boolVal := b;
  orderList := orderList v; order := order v; expr := expr v; str := str v |}.
Definition set_orderList (l : list (Order JP)) (v : Sym) : Sym := {|
  yys := yys v; stringValue := stringValue v; integralValue := integralValue v;
  floatValue := floatValue v; jsonPathValue := jsonPathValue v; boolVal := boolVal v;
  orderList := l; order := order v; expr := expr v; str := str v |}.
Definition set_order (o : Order JP) (v : Sym) : Sym := {|
  yys := yys v; stringValue := stringValue v; integralValue := integralValue v;
  floatValue := floatValue v; jsonPathValue := jsonPathValue v; boolVal := boolVal v;
  orderList := orderList v; order := Some o; expr := expr v; str := str v |}.

Definition setExpressionTree (e : option (Expr JP)) (l : lexer JP) : lexer JP := {|
  data := data l; p := p l; cs := cs l; ts := ts l; te := te l; act := act l; lex_e := lex_e l;
  lex_expr := e; lex_orderBy := lex_orderBy l; startToks := startToks l |}.
Definition setOrderByTree (o : list (Order JP)) (l : lexer JP) : lexer JP := {|
  data := data l; p := p l; cs := cs l; ts := ts l; te := te l; act := act l; lex_e := lex_e l;
  lex_expr := lex_expr l; lex_orderBy := o; startToks := startToks l |}.

(** [lexer.Error]. *)
Definition lexer_Error (e : string) (l : lexer JP) : lexer JP :=
  set_lex_e (Some (Errorf ("error: " +:+ e))) l.

(** The fields of a symbol as operands; no symbol of the grammar leaves the one it is
    asked for unset. *)
Definition the_expr (v : Sym) : Expr JP := default nullVal (expr v).
Definition the_path (v : Sym) : Expr JP :=
  match jsonPathValue v with Some (jp, s) => JSONPathVal jp s | None => nullVal end.

(** The action of a production on the values [d] of its right-hand side. *)
Definition semantic (nt : nat) (d : nat → Sym) (val : Sym) (l : lexer JP) : Sym * lexer JP :=
  match nt with
  | 1 => (val, setExpressionTree (expr (d 2)) l)
  | 2 => (val, setOrderByTree (orderList (d 2)) l)
  | 3 => (set_expr (the_expr (d 1)) val, l)
  | 4 => (set_expr (the_expr (d 2)) val, l)
  | 5 => (set_expr (AndExpr (the_expr (d 1)) (the_expr (d 3))) val, l)
  | 6 => (set_expr (OrExpr (the_expr (d 1)) (the_expr (d 3))) val, l)
  | 7 => (set_expr (NotExpr (the_expr (d 2))) val, l)
  | 8 => (set_expr (BoolVal (boolVal (d 1))) val, l)
  | 9 => (set_expr (ComparisonExpr (str (d 2)) (the_expr (d 1)) (the_expr (d 3))) val, l)
  | 10 => (set_expr (ComparisonExpr LikeStr (the_expr (d 1)) (the_expr (d 3))) val, l)
  | 11 => (set_expr (ComparisonExpr NotLikeStr (the_expr (d 1)) (the_expr (d 4))) val, l)
  | 12 => (set_expr (IsNullExpr IsNull (the_expr (d 1))) val, l)
  | 13 => (set_expr (IsNullExpr IsNotNull (the_expr (d 1))) val, l)
  | 14 => (set_expr (the_expr (d 1)) val, l)
  | 15 => (set_expr (BoolVal (boolVal (d 1))) val, l)
  | 16 => (set_str EqualStr val, l)
  | 17 => (set_str LessThanStr val, l)
  | 18 => (set_str GreaterThanStr val, l)
  | 19 => (set_str LessEqualStr val, l)
  | 20 => (set_str GreaterEqualStr val, l)
  | 21 => (set_str NotEqualStr val, l)
  | 22 => (set_expr (StringVal (stringValue (d 1))) val, l)
  | 23 => (set_expr (IntVal (integralValue (d 1))) val, l)
  | 24 => (set_expr (FloatVal (floatValue (d 1))) val, l)
  | 25 => (set_expr (the_path (d 1)) val, l)
  | 26 => (set_expr nullVal val, l)
  | 27 => (set_boolVal true val, l)
  | 28 => (set_boolVal false val, l)
  | 29 => (set_orderList [] val, l)
  | 30 => (set_orderList (option_list (order (d 1))) val, l)
  | 31 => (set_orderList (orderList (d 1) ++ option_list (order (d 3))) val, l)
  | 32 => (set_order {| o_Expr := the_path (d 1); Direction := str (d 2) |} val, l)
  | 33 => (set_str AscScr val, l)
  | 34 => (set_str AscScr val, l)
  | 35 => (set_str DescScr val, l)
  | _ => (val, l)
  end.

(** The variables of [Parse] when it reaches [Filternewstate]: the stack, its top first,
    whose top carries the state, and the token read and not yet used. *)
Record parser := {
  stack : list Sym;
  char : Z;
  token : Z;
  lval : Sym;
  Errflag : Z;
  lx : lexer JP;
}.

(** What a turn of the automaton does: go on, return a code, or panic in the lexer. *)
Inductive turn :=
  | Next (ps : parser)
  | Return (code : Z) (l : lexer JP)
  | ParsePanic.

Definition top (ps : parser) : Z := match stack ps with v :: _ => yys v | [] => -1 end.

(** [Filterlex1], when no token is waiting. *)
Definition read_token (ps : parser) : option parser :=
  if (char ps <? 0)%Z then
    match Lex (lx ps) (lval ps) with
    | Some (l, v, c) =>
        Some {| stack := stack ps; char := c; token := translate c; lval := v;
                Errflag := Errflag ps; lx := l |}
    | None => None
    end
  else Some ps.

(** A token that can be shifted. *)
Definition shift (state : Z) (ps : parser) : parser := {|
  stack := set_yys state (lval ps) :: stack ps; char := -1; token := -1; lval := lval ps;
  Errflag := if (0 <? Errflag ps)%Z then (Errflag ps - 1)%Z else Errflag ps; lx := lx ps |}.

(** A reduction by production [n]. The value starts as that of the first symbol of the
    right-hand side; that of an empty one is not read. *)
Definition reduce (n : Z) (ps : parser) : parser :=
  let k := Z.to_nat (entry FilterR2 n) in
  let rhs := reverse (take k (stack ps)) in
  let rest := drop k (stack ps) in
  let '(val, l) := semantic (Z.to_nat n) (λ i, nth (i - 1) rhs zero_sym) (nth 0 rhs zero_sym) (lx ps) in
  let uncovered := match rest with v :: _ => yys v | [] => -1 end%Z in
  {| stack := set_yys (goto_state (entry FilterR1 n) uncovered) val :: rest;
     char := char ps; token := token ps; lval := lval ps; Errflag := Errflag ps; lx := l |}.

(** The states on the stack that can shift the error token: pop until one is found. *)
Fixpoint find_error_shift (st : list Sym) : option (Z * list Sym) :=
  match st with
  | [] => None
  | v :: st' =>
      let n := (entry FilterPact (yys v) + FilterErrCode)%Z in
      if (0 <=? n)%Z && (n <? FilterLast)%Z && (entry FilterChk (entry FilterAct n) =? FilterErrCode)%Z
      then Some (entry FilterAct n, st)
      else find_error_shift st'
  end.

(** No action for the token. *)
Definition error_turn (ps : parser) : turn :=
  if (Errflag ps =? 3)%Z then
    if (token ps =? FilterEofCode)%Z then Return 1 (lx ps)
    else Next {| stack := stack ps; char := -1; token := -1; lval := lval ps; Errflag := 3; lx := lx ps |}
  else
    let l := if (Errflag ps =? 0)%Z then lexer_Error "syntax error" (lx ps) else lx ps in
    match find_error_shift (stack ps) with
    | Some (state, st) =>
        Next {| stack := set_yys state (nth 0 (stack ps) zero_sym) :: st; char := char ps; token := token ps;
                lval := lval ps; Errflag := 3; lx := l |}
    | None => Return 1 l
    end.

(** [Filterdefault]. *)
Definition default_turn (ps : parser) : turn :=
  let n := entry FilterDef (top ps) in
  if (n =? -2)%Z then
    match read_token ps with
    | None => ParsePanic
    | Some ps =>
        let n := exca_state FilterExca (top ps) (token ps) in
        if (n <? 0)%Z then Return 0 (lx ps)
        else if (n =? 0)%Z then error_turn ps else Next (reduce n ps)
    end
  else if (n =? 0)%Z then error_turn ps else Next (reduce n ps).

(** [Filternewstate]. *)
Definition parse_turn (ps : parser) : turn :=
  let n := entry FilterPact (top ps) in
  if (n <=? FilterFlag)%Z then default_turn ps
  else match read_token ps with
  | None => ParsePanic
  | Some ps =>
      let n := (n + token ps)%Z in
      if (n <? 0)%Z || (FilterLast <=? n)%Z then default_turn ps
      else
        let n := entry FilterAct n in
        if (entry FilterChk n =? token ps)%Z then Next (shift n ps) else default_turn ps
  end.

(** The loop of [Parse]: [None] when the fuel runs out. *)
Fixpoint parse_loop (fuel : nat) (ps : parser) : option turn :=
  match fuel with
  | 0 => None
  | S fuel =>
      match parse_turn ps with
      | Next ps => parse_loop fuel ps
      | t => Some t
      end
  end.

Definition new_parser (l : lexer JP) : parser :=
  {| stack := [zero_sym]; char := -1; token := -1; lval := zero_sym; Errflag := 0; lx := l |}.

(** Enough turns for any input: every token is shifted once, and between two shifts
    there are at most a bounded number of reductions per token. *)
Definition parse_fuel (l : lexer JP) : nat := 8 * (length (data l) + 4).

(** [FilterParse]: the lexer afterwards, [Panic] for a panic. *)
Definition FilterParse (l : lexer JP) : option (outcome (Z * lexer JP)) :=
  match parse_loop (parse_fuel l) (new_parser l) with
  | Some (Return code l) => Some (Ok (code, l))
  | Some ParsePanic => Some Panic
  | _ => None
  end.

(** [ParseFilterExpression]: the expression, which is nil when none was recognized, and
    the error. *)
Definition ParseFilterExpression (s : string) : option (outcome (option (Expr JP) * option error)) :=
  match FilterParse (newLexer s [START_EXPRESSION]) with
  | Some (Ok (_, l)) => Some (Ok (lex_expr l, lex_e l))
  | Some _ => Some Panic
  | None => None
  end.

(** [ParseOrderByExpression]. *)
Definition ParseOrderByExpression (s : string) : option (outcome (list (Order JP) * option error)) :=
  match FilterParse (newLexer s [START_ORDER_LIST]) with
  | Some (Ok (_, l)) => Some (Ok (lex_orderBy l, lex_e l))
  | Some _ => Some Panic
  | None => None
  end.
End Parse.

Arguments parser JP : clear implicits.
Arguments turn JP : clear implicits.
