(* ===== verification/FilterParseFacts.v ===== *)
(** The automaton of the parser's tables: its action for a state and a token, the paths
    of its states, and what every reduction finds on the stack. The tables are checked by
    computation; the rest of the development reasons about the automaton. The parser follows
    it, and returns for every input. *)
From stdpp Require Import base strings list numbers.
From S2P Require Import Prelude GoStrings FilterExpr FilterLex FilterLexFacts FilterParse.

(** ** Actions *)

Inductive table_act :=
  | Shift (state : Z)
  | Reduce (production : Z)
  | Accept
  | Reject.

Definition production_act (n : Z) : table_act := if (n =? 0)%Z then Reject else Reduce n.

Definition default_act (s t : Z) : table_act :=
  let n := entry FilterDef s in
  if (n =? -2)%Z then
    let n := exca_state FilterExca s t in
    if (n <? 0)%Z then Accept else production_act n
  else production_act n.

(** What the tables say for a state and the token read. *)
Definition table_action (s t : Z) : table_act :=
  let n := entry FilterPact s in
  if (n <=? FilterFlag)%Z then default_act s t
  else
    let n := (n + t)%Z in
    if (n <? 0)%Z || (FilterLast <=? n)%Z then default_act s t
    else
      let a := entry FilterAct n in
      if (entry FilterChk a =? t)%Z then Shift a else default_act s t.

(** Whether a state looks at the next token. *)
Definition needs_token (s : Z) : bool :=
  negb (entry FilterPact s <=? FilterFlag)%Z || (entry FilterDef s =? -2)%Z.

(** ** Paths *)

(** The states a state can be followed by on the stack. *)
Definition successors : list (Z * list Z) :=
  [(0, [1; 2; 3]);
   (2, [4; 5; 6; 7; 8; 9; 10; 11; 12; 13; 14; 15; 16; 17]);
   (3, [18; 19; 20]);
   (4, [21; 22]);
   (6, [5; 6; 7; 8; 9; 10; 11; 12; 13; 14; 15; 16; 17; 23]);
   (7, [5; 6; 7; 8; 9; 10; 11; 12; 13; 14; 15; 16; 17; 24]);
   (9, [25; 26; 27; 28; 29; 30; 31; 32; 33; 34]);
   (18, [35]);
   (20, [36; 37; 38]);
   (21, [5; 6; 7; 8; 9; 10; 11; 12; 13; 14; 15; 16; 17; 39]);
   (22, [5; 6; 7; 8; 9; 10; 11; 12; 13; 14; 15; 16; 17; 40]);
   (23, [21; 22; 41]);
   (25, [10; 11; 12; 13; 14; 15; 16; 17; 42; 43]);
   (26, [10; 11; 12; 13; 14; 15; 16; 17; 43; 44]);
   (27, [45]);
   (28, [46; 47]);
   (35, [20; 48]);
   (40, [21]);
   (45, [10; 11; 12; 13; 14; 15; 16; 17; 43; 49]);
   (47, [50])]%Z.

Definition edges : list (Z * Z) := flat_map (λ sl, (λ b, (sl.1, b)) <$> sl.2) successors.

Definition states : list Z := seqZ 0 51.
Definition tokens : list Z := seqZ 0 29.

(** How many reductions to single symbols can still follow in a state. *)
Definition rank (s : Z) : nat :=
  nth (Z.to_nat s)
    [0; 0; 0; 2; 0; 1; 0; 0; 1; 0; 2; 2; 1; 2; 2; 2; 2; 2; 0; 1; 3; 0; 0; 0; 0; 0;
     0; 0; 0; 1; 1; 1; 1; 1; 1; 0; 1; 2; 2; 0; 0; 0; 0; 1; 0; 0; 0; 0; 0; 0; 0] 0.

(** The right-hand sides of the productions, in the numbers of [FilterChk]: tokens are
    positive, nonterminals negative. *)
Definition rhs (n : Z) : list Z :=
  nth (Z.to_nat n - 1)
  [[24; -1]; [28; -7]; [-2]; [15; -1; 16]; [-1; 5; -1]; [-1; 4; -1]; [6; -1];
   [-6]; [-5; -3; -5]; [-5; 13; -5]; [-5; 6; 13; -5]; [-5; 14; 21];
   [-5; 14; 6; 21]; [-4]; [-6]; [7]; [8]; [9]; [10]; [11]; [12]; [17]; [18]; [19];
   [20]; [21]; [22]; [23]; []; [-8]; [-7; 27; -8]; [20; -9]; []; [25]; [26]]%Z [].

Definition predecessors (s : Z) : list Z := (filter (λ e : Z * Z, e.2 = s) edges).*1.

(** The states under a state, down to depth [k]. *)
Fixpoint walks (k : nat) (s : Z) : list (list Z) :=
  match k with
  | 0 => [[s]]
  | S k => flat_map (λ a, cons s <$> walks k a) (predecessors s)
  end.

(** The bottom of the stack is deeper than [k]. *)
Fixpoint deep (k : nat) (s : Z) : bool :=
  match k with
  | 0 => true
  | S k => negb (s =? 0)%Z && forallb (deep k) (predecessors s)
  end.

(** ** The check *)

(** A reduction in a state: whatever path leads to it, the symbols of the path are the
    right-hand side, the state entered is a successor of the one uncovered, and there
    are fewer reductions left. *)
Definition reduction_ok (s n : Z) : bool :=
  let k := length (rhs n) in
  bool_decide (Z.of_nat k = entry FilterR2 n) && deep k s &&
  forallb (λ w,
    let u := List.last w 0%Z in
    let g := goto_state (entry FilterR1 n) u in
    bool_decide ((u, g) ∈ edges) && bool_decide (1 + rank g < k + rank s) &&
    bool_decide (entry FilterChk <$> reverse (take k w) = rhs n) &&
    bool_decide (entry FilterChk g = - entry FilterR1 n)%Z) (walks k s).

Definition action_ok (s t : Z) : bool :=
  match table_action s t with
  | Shift a =>
      bool_decide ((s, a) ∈ edges) && bool_decide (4 <= t)%Z && bool_decide (entry FilterChk a = t) &&
      bool_decide (rank a ≤ 3)
  | Reduce n => bool_decide (1 <= n <= 35)%Z && reduction_ok s n
  | Accept => bool_decide (s = 1)%Z
  | Reject => true
  end.

Definition error_ok (s : Z) : bool :=
  let n := (entry FilterPact s + FilterErrCode)%Z in
  negb ((0 <=? n)%Z && (n <? FilterLast)%Z && (entry FilterChk (entry FilterAct n) =? FilterErrCode)%Z).

Lemma actions_checked : forallb (λ s, forallb (action_ok s) tokens) states = true.
Proof. vm_compute. reflexivity. Qed.

Lemma errors_checked : forallb error_ok states = true.
Proof. vm_compute. reflexivity. Qed.

Lemma edges_checked :
  forallb (λ e : Z * Z, bool_decide (e.2 ∈ states) && bool_decide (e.2 ≠ 0)%Z) edges = true.
Proof. vm_compute. reflexivity. Qed.

Lemma forallb_elem {A} (f : A → bool) l x : forallb f l = true → x ∈ l → f x = true.
Proof. rewrite forallb_forall, list_elem_of_In. auto. Qed.

Lemma action_checked s t : s ∈ states → t ∈ tokens → action_ok s t = true.
Proof. intros Hs Ht. exact (forallb_elem _ _ _ (forallb_elem _ _ _ actions_checked Hs) Ht). Qed.

Lemma error_checked s : s ∈ states → error_ok s = true.
Proof. exact (forallb_elem _ _ _ errors_checked). Qed.

Lemma edge_checked a b : (a, b) ∈ edges → b ∈ states ∧ b ≠ 0%Z.
Proof.
  intros He. pose proof (forallb_elem _ _ _ edges_checked He) as H.
  apply andb_true_iff in H as [H1 H2]. split; by eapply bool_decide_eq_true_1.
Qed.

(** ** Stacks *)

(** The states of a stack, its top first, are a path from the bottom. *)
Fixpoint chain (l : list Z) : Prop :=
  match l with
  | [] => False
  | a :: l' => match l' with [] => a = 0%Z | b :: _ => (b, a) ∈ edges ∧ chain l' end
  end.

Lemma chain_top a l : chain (a :: l) → a ∈ states.
Proof.
  destruct l as [|b l]; simpl; [intros ->; by apply elem_of_seqZ|].
  intros [He _]. by apply edge_checked in He as [? _].
Qed.

Lemma chain_drop k l : chain l → k < length l → chain (drop k l).
Proof.
  revert l. induction k as [|k IH]; intros l Hl Hk; [by rewrite drop_0|].
  destruct l as [|a [|b l]]; simpl in *; try lia. apply (IH (b :: l)); [tauto|simpl; lia].
Qed.

Lemma predecessors_spec a b : (a, b) ∈ edges → a ∈ predecessors b.
Proof.
  intros He. unfold predecessors. apply list_elem_of_fmap. exists (a, b).
  by rewrite list_elem_of_filter.
Qed.

(** The top of a stack is one of the paths to its state. *)
Lemma chain_walk k s l :
  chain (s :: l) → deep k s = true → k ≤ length l ∧ take (S k) (s :: l) ∈ walks k s.
Proof.
  revert s l. induction k as [|k IH]; intros s l Hl Hd.
  { split; [lia|]. simpl. apply list_elem_of_singleton. by destruct l. }
  apply andb_true_iff in Hd as [H0 Hd]. rewrite negb_true_iff, Z.eqb_neq in H0.
  destruct l as [|b l]; [done|]. destruct Hl as [He Hl]. apply predecessors_spec in He.
  rewrite forallb_forall in Hd. specialize (Hd b (proj1 (list_elem_of_In _ _) He)).
  destruct (IH b l Hl Hd) as [Hk Hw]. split; [simpl; lia|].
  cbn [take walks]. apply list_elem_of_In, in_flat_map. exists b.
  rewrite <-!list_elem_of_In. split; [done|]. apply list_elem_of_fmap. by eexists.
Qed.

(** What a reduction finds and leaves. *)
Lemma reduction_spec s n l :
  chain (s :: l) → reduction_ok s n = true →
  let k := length (rhs n) in
  let st := s :: l in
  Z.to_nat (entry FilterR2 n) = k ∧ k < length st ∧
  ∃ u l', drop k st = u :: l' ∧
    chain (goto_state (entry FilterR1 n) u :: u :: l') ∧
    1 + rank (goto_state (entry FilterR1 n) u) < k + rank s ∧
    entry FilterChk <$> reverse (take k st) = rhs n ∧
    entry FilterChk (goto_state (entry FilterR1 n) u) = (- entry FilterR1 n)%Z.
Proof.
  intros Hl Hr k st. unfold reduction_ok in Hr. fold k in Hr.
  apply andb_true_iff in Hr as [[Hk Hd]%andb_true_iff Hw]. apply bool_decide_eq_true in Hk.
  destruct (chain_walk k s l Hl Hd) as [Hlen Hin]. fold st in Hin.
  rewrite forallb_forall in Hw. specialize (Hw _ (proj1 (list_elem_of_In _ _) Hin)).
  rewrite !andb_true_iff, !bool_decide_eq_true in Hw. destruct Hw as [[[He Hrank] Hsym] Hchk].
  split; [lia|]. split; [simpl; lia|].
  destruct (drop k st) as [|u l'] eqn:Hdrop.
  { apply (f_equal length) in Hdrop. rewrite length_drop in Hdrop. simpl in Hdrop. lia. }
  assert (take (S k) st = take k st ++ [u]) as Htake.
  { rewrite (take_S_r _ _ u); [done|]. rewrite <-(Nat.add_0_r k), <-lookup_drop, Hdrop. done. }
  rewrite Htake, last_last in *. rewrite take_app_le, take_ge in Hsym
    by (rewrite length_take; simpl; lia).
  exists u, l'. split_and!; try done. assert (chain (drop k st)) as Hc by (apply chain_drop; [done|simpl; lia]).
  rewrite Hdrop in Hc. by split.
Qed.

Lemma entry_in t n : (0 <= n < Z.of_nat (length t))%Z → entry t n ∈ t.
Proof. intros H. apply list_elem_of_In, nth_In. lia. Qed.

Lemma tok1_range : forallb (λ t, bool_decide (0 < t < 29)%Z) FilterTok1 = true.
Proof. done. Qed.
Lemma tok2_range : forallb (λ t, bool_decide (0 < t < 29)%Z) FilterTok2 = true.
Proof. done. Qed.

Lemma translate_range c : (0 < translate c < 29)%Z.
Proof.
  assert (∀ t, t ∈ FilterTok1 → 0 < t < 29)%Z as H1
    by (intros t Ht; by eapply bool_decide_eq_true_1, (forallb_elem _ _ _ tok1_range Ht)).
  assert (∀ t, t ∈ FilterTok2 → 0 < t < 29)%Z as H2
    by (intros t Ht; by eapply bool_decide_eq_true_1, (forallb_elem _ _ _ tok2_range Ht)).
  unfold translate. case_decide as H0; [done|]. revert H0.
  destruct (Z.leb_spec c 0); [done|]. destruct (Z.ltb_spec c (Z.of_nat (length FilterTok1))).
  { intros _. apply H1, entry_in. lia. }
  destruct (_ && _) eqn:Hr; [|done]. apply andb_true_iff in Hr as [?%Z.leb_le ?%Z.ltb_lt].
  intros _. apply H2, entry_in. unfold FilterPrivate in *. lia.
Qed.

Lemma translate_in c : translate c ∈ tokens.
Proof. apply elem_of_seqZ. pose proof (translate_range c). lia. Qed.

(** The end of the input, and only that, is the first token. *)
Lemma translate_pos c : (4 <= translate c → 0 < c)%Z.
Proof. intros H. destruct (Z.leb_spec c 0) as [Hc|]; [|done]. unfold translate in H. apply Z.leb_le in Hc. by rewrite Hc in H. Qed.

Section ParseFacts.
Context {JP Obj RV : Type} `{HJ : !JsonPath JP Obj RV}.
Implicit Types (ps : parser JP) (l : lexer JP).

(** ** Turns *)

(** The turn for an action of the tables. *)
Definition act_turn (a : table_act) ps : turn JP :=
  match a with
  | Shift s => Next (shift s ps)
  | Reduce n => Next (reduce n ps)
  | Accept => Return 0 (lx ps)
  | Reject => error_turn ps
  end.

Lemma read_token_waiting ps : (0 <= char ps)%Z → read_token ps = Some ps.
Proof. intros H. unfold read_token. by destruct (Z.ltb_spec (char ps) 0); [lia|]. Qed.

Lemma default_turn_read ps : (0 <= char ps)%Z → default_turn ps = act_turn (default_act (top ps) (token ps)) ps.
Proof.
  intros H. unfold default_turn, default_act, production_act. rewrite read_token_waiting by done.
  by repeat case_match.
Qed.

(** With a token waiting, the turn is the one the tables say. *)
Lemma parse_turn_read ps :
  (0 <= char ps)%Z → parse_turn ps = act_turn (table_action (top ps) (token ps)) ps.
Proof.
  intros H. unfold parse_turn, table_action. rewrite read_token_waiting, default_turn_read by done.
  by repeat case_match.
Qed.

(** ** The invariant *)

Record pwf ps : Prop := {
  pw_lex : lex_wf (lx ps);
  pw_start : Forall (λ t, 0 < t)%Z (startToks (lx ps));
  pw_chain : chain (yys <$> stack ps);
  pw_char : char ps = (-1)%Z ∨ (0 <= char ps)%Z ∧ token ps = translate (char ps);
  pw_err : Errflag ps = 0%Z;
}.

(** The tokens that can still be shifted, at most. *)
Definition pending ps : nat := remaining (lx ps) + if (0 <? char ps)%Z then 1 else 0.

(** What reading a token does. *)
Definition token_waiting ps ps' : Prop :=
  pwf ps' ∧ (0 <= char ps')%Z ∧ stack ps' = stack ps ∧ lex_expr (lx ps') = lex_expr (lx ps) ∧
  lex_orderBy (lx ps') = lex_orderBy (lx ps) ∧ pending ps' ≤ pending ps.

Lemma read_token_spec ps ps' : pwf ps → read_token ps = Some ps' → token_waiting ps ps'.
Proof.
  intros Hw Hr. destruct (Z.ltb_spec (char ps) 0) as [Hc|Hc].
  2: { rewrite read_token_waiting in Hr by done. simplify_eq. split_and!; done. }
  unfold read_token in Hr. apply Z.ltb_lt in Hc as Hc'. rewrite Hc' in Hr.
  destruct (Lex _ _) as [[[l v] c]|] eqn:HL; [|done]. simplify_eq. destruct Hw.
  destruct (Lex_spec _ _ _ _ _ pw_lex0 pw_start0 HL) as (Hw' & Hst & _ & He & Ho & H0 & Hle & Hlt).
  unfold token_waiting, pending.
  assert (pwf {| stack := stack ps; char := c; token := translate c; lval := v;
                 Errflag := Errflag ps; lx := l |}).
  { split; simpl; auto. rewrite Hst. by destruct pw_start0. }
  split_and!; simpl; try done. destruct (Z.ltb_spec 0 c), (Z.ltb_spec 0 (char ps)); lia.
Qed.

Lemma top_stack ps ps' : stack ps' = stack ps → top ps' = top ps.
Proof. unfold top. by intros ->. Qed.

(** Without a token, a state that needs it reads it first; the others reduce. *)
Lemma parse_turn_unread ps :
  pwf ps → (char ps < 0)%Z →
  parse_turn ps =
    if needs_token (top ps) then
      match read_token ps with Some ps' => parse_turn ps' | None => ParsePanic end
    else act_turn (table_action (top ps) 0) ps.
Proof.
  intros Hw H. unfold needs_token. unfold parse_turn at 1, table_action.
  destruct (entry FilterPact (top ps) <=? FilterFlag)%Z eqn:Hp; simpl.
  - unfold default_turn at 1, default_act, production_act.
    destruct (entry FilterDef (top ps) =? -2)%Z eqn:Hd; [|by repeat case_match].
    destruct (read_token ps) as [ps'|] eqn:Hr; [|done].
    destruct (read_token_spec _ _ Hw Hr) as (_ & Hc & Hs & _). apply top_stack in Hs as Ht.
    unfold parse_turn. rewrite Ht, Hp. unfold default_turn. rewrite Ht, Hd.
    by rewrite read_token_waiting, Ht.
  - destruct (read_token ps) as [ps'|] eqn:Hr; [|done].
    destruct (read_token_spec _ _ Hw Hr) as (_ & Hc & Hs & _). apply top_stack in Hs as Ht.
    unfold parse_turn. rewrite Ht, Hp. by rewrite read_token_waiting.
Qed.

Lemma top_state ps : pwf ps → ∃ ss, yys <$> stack ps = top ps :: ss ∧ top ps ∈ states.
Proof.
  intros []. unfold top. destruct (stack ps) as [|v st]; [done|]. simpl in *.
  eexists. split; [done|]. by eapply chain_top.
Qed.

(** Every turn is a panic of the lexer, or the action of the tables for the state and a
    token, after the token is read if the state needs it. *)
Lemma turn_cases ps :
  pwf ps →
  parse_turn ps = ParsePanic ∨
  ∃ ps1 t, (ps1 = ps ∨ read_token ps = Some ps1) ∧ pwf ps1 ∧ stack ps1 = stack ps ∧
    lex_expr (lx ps1) = lex_expr (lx ps) ∧ lex_orderBy (lx ps1) = lex_orderBy (lx ps) ∧
    pending ps1 ≤ pending ps ∧ t ∈ tokens ∧
    (t = 0%Z ∧ needs_token (top ps) = false ∨ t = token ps1 ∧ (0 <= char ps1)%Z) ∧
    parse_turn ps = act_turn (table_action (top ps) t) ps1.
Proof.
  intros Hw. destruct (Z.ltb_spec (char ps) 0) as [Hc|Hc].
  - rewrite parse_turn_unread by done. destruct (needs_token (top ps)) eqn:Hn.
    + destruct (read_token ps) as [ps'|] eqn:Hr; [right|by left].
      destruct (read_token_spec _ _ Hw Hr) as (Hw' & Hc' & Hs & He & Ho & Hp).
      exists ps', (token ps'). rewrite parse_turn_read, (top_stack _ _ Hs) by done.
      split_and!; try done; auto.
      destruct (pw_char _ Hw') as [|[_ ->]]; [lia|apply translate_in].
    + right. exists ps, 0%Z. split_and!; try done; auto. by apply elem_of_seqZ.
  - right. exists ps, (token ps). rewrite parse_turn_read by done. split_and!; try done; auto.
    destruct (pw_char _ Hw) as [|[_ ->]]; [lia|apply translate_in].
Qed.

(** ** Termination *)

(** What is left to do: reductions are bounded by the stack and the rank of its top,
    and every token shifted adds at most four to them. *)
Definition measure ps : nat := length (stack ps) + rank (top ps) + 5 * pending ps.

Lemma shift_spec ps s :
  pwf ps → (0 <= char ps)%Z → table_action (top ps) (token ps) = Shift s →
  pwf (shift s ps) ∧ measure (shift s ps) < measure ps ∧ (0 < char ps)%Z ∧
  entry FilterChk s = token ps.
Proof.
  intros Hw Hc Ha. destruct (top_state ps Hw) as (ss & Hss & Hin). pose proof Hw as [].
  destruct pw_char0 as [|[_ Ht]]; [lia|].
  pose proof (action_checked (top ps) (token ps) Hin) as Hok. unfold action_ok in Hok. rewrite Ha in Hok.
  rewrite !andb_true_iff, !bool_decide_eq_true in Hok.
  destruct Hok as [[[He H4] Hchk] Hrank]; [rewrite Ht; apply translate_in|].
  assert (0 < char ps)%Z as Hpos by (apply translate_pos; by rewrite <-Ht).
  split_and!; try done.
  - split; [done..| |by left|simpl; by rewrite pw_err0].
    change (chain (s :: (yys <$> stack ps))). rewrite Hss in *. by split.
  - unfold measure, pending. simpl. destruct (Z.ltb_spec 0 (char ps)); [|lia]. unfold top; simpl. lia.
Qed.

(** A reduction, in terms of the stack. *)
Lemma reduce_spec ps t n :
  pwf ps → t ∈ tokens → table_action (top ps) t = Reduce n →
  (1 <= n <= 35)%Z ∧
  let k := length (rhs n) in
  let d := reverse (take k (stack ps)) in
  let '(val, l) := semantic (Z.to_nat n) (λ i, nth (i - 1) d zero_sym) (nth 0 d zero_sym) (lx ps) in
  ∃ u g st, drop k (stack ps) = u :: st ∧ entry FilterChk g = (- entry FilterR1 n)%Z ∧
    (λ v, entry FilterChk (yys v)) <$> d = rhs n ∧
    reduce n ps = {| stack := set_yys g val :: u :: st; char := char ps; token := token ps;
                     lval := lval ps; Errflag := Errflag ps; lx := l |} ∧
    chain (yys <$> (set_yys g val :: u :: st)) ∧ 1 + rank g < k + rank (top ps) ∧
    length (stack ps) = k + S (length st).
Proof.
  intros Hw Ht Ha. destruct (top_state ps Hw) as (ss & Hss & Hin). pose proof Hw as [].
  pose proof (action_checked (top ps) t Hin Ht) as Hok. unfold action_ok in Hok. rewrite Ha in Hok.
  apply andb_true_iff in Hok as [Hn Hok]. apply bool_decide_eq_true in Hn. split; [done|].
  intros k d. destruct (semantic _ _ _ _) as [val l] eqn:Hsem.
  rewrite Hss in pw_chain0. destruct (reduction_spec _ _ _ pw_chain0 Hok) as (Hk & Hlen & u & l' & Hd & Hc & Hr & Hsym & Hg).
  fold k in Hk, Hlen, Hd, Hr, Hsym. rewrite <-Hss in *. rewrite length_fmap in Hlen.
  rewrite <-fmap_drop in Hd. destruct (drop k (stack ps)) as [|v st] eqn:Hdrop; [done|].
  simpl in Hd. simplify_eq. exists v, (goto_state (entry FilterR1 n) (yys v)), st.
  split_and!; try done.
  - by rewrite <-Hsym, <-fmap_take, <-fmap_reverse, <-list_fmap_compose.
  - unfold reduce. rewrite Hk. fold d. rewrite Hsem, Hdrop. done.
  - apply (f_equal length) in Hdrop. rewrite length_drop in Hdrop. simpl in Hdrop. lia.
Qed.

(** The actions of productions touch the lexer's results only. *)
Lemma semantic_lexer n d val l val' l' :
  semantic n d val l = (val', l') →
  lex_wf l → Forall (λ t, 0 < t)%Z (startToks l) →
  lex_wf l' ∧ Forall (λ t, 0 < t)%Z (startToks l') ∧ remaining l' = remaining l.
Proof.
  intros Hs [] Hst. do 36 try (destruct n as [|n]); simplify_eq/=; (split_and!; [by split|done|done]).
Qed.

Lemma reduce_wf ps t n :
  pwf ps → t ∈ tokens → table_action (top ps) t = Reduce n →
  pwf (reduce n ps) ∧ measure (reduce n ps) < measure ps.
Proof.
  intros Hw Ht Ha. destruct (reduce_spec ps t n Hw Ht Ha) as [_ H]. simpl in H.
  destruct (semantic _ _ _ _) as [val l] eqn:Hsem. pose proof Hw as [].
  destruct H as (u & g & st & _ & _ & _ & -> & Hc & Hr & Hlen).
  destruct (semantic_lexer _ _ _ _ _ _ Hsem pw_lex0 pw_start0) as (Hl & Hst & Hrem).
  split; [by split|]. unfold measure, pending, top in *. simpl in *. rewrite Hrem. lia.
Qed.

(** No state can shift the error token: an error ends the parse. *)
Lemma no_error_shift st : Forall (λ s, s ∈ states) (yys <$> st) → find_error_shift (JP := JP) st = None.
Proof.
  induction st as [|v st IH]; [done|]. rewrite fmap_cons. inversion 1; subst. simpl.
  pose proof (error_checked (yys v) ltac:(done)) as He. unfold error_ok in He. apply negb_true_iff in He.
  rewrite He. by apply IH.
Qed.

Lemma chain_states ss : chain ss → Forall (λ s, s ∈ states) ss.
Proof.
  induction ss as [|a ss IH]; intros Hc; [done|]. constructor; [by eapply chain_top|].
  destruct ss as [|b ss]; [constructor|]. by apply IH, Hc.
Qed.

Lemma error_turn_spec ps : pwf ps → error_turn ps = Return 1 (lexer_Error "syntax error" (lx ps)).
Proof.
  intros []. unfold error_turn. rewrite pw_err0. simpl.
  by rewrite no_error_shift by (by apply chain_states).
Qed.

Lemma turn_decreases ps ps' : pwf ps → parse_turn ps = Next ps' → pwf ps' ∧ measure ps' < measure ps.
Proof.
  intros Hw Hn. destruct (turn_cases ps Hw) as [|(ps1 & t & _ & Hw1 & Hs & _ & _ & Hp & Ht & Ht' & Heq)]; [congruence|].
  assert (measure ps1 ≤ measure ps) as Hm.
  { unfold measure. rewrite Hs, (top_stack _ _ Hs). lia. }
  rewrite <-(top_stack _ _ Hs) in Heq. rewrite Heq in Hn.
  destruct (table_action (top ps1) t) as [s|n| |] eqn:Ha; simplify_eq/=.
  - assert (t = token ps1 ∧ 0 <= char ps1)%Z as [-> Hc].
    { destruct Ht' as [[-> _]|]; [|done]. destruct (top_state ps1 Hw1) as (_ & _ & Hin).
      pose proof (action_checked _ _ Hin Ht) as Hok. unfold action_ok in Hok. rewrite Ha in Hok.
      rewrite !andb_true_iff, !bool_decide_eq_true in Hok. lia. }
    destruct (shift_spec ps1 s Hw1 Hc Ha) as (? & ? & _). split; [done|lia].
  - destruct (reduce_wf ps1 t n Hw1 Ht Ha). split; [done|lia].
  - by rewrite error_turn_spec in Hn.
Qed.

Lemma parse_loop_total fuel ps : pwf ps → measure ps < fuel → ∃ t, parse_loop fuel ps = Some t ∧ ∀ ps', t ≠ Next ps'.
Proof.
  revert ps. induction fuel as [|fuel IH]; intros ps Hw Hm; [lia|]. simpl.
  destruct (parse_turn ps) as [ps'|code l|] eqn:Ht; [|by eexists..].
  destruct (turn_decreases ps ps' Hw Ht). apply IH; [done|lia].
Qed.

Lemma newLexer_wf s starts : lex_wf (newLexer (JP := JP) s starts).
Proof. split; unfold pe; simpl; auto; lia. Qed.

Lemma new_parser_wf l : lex_wf l → Forall (λ t, 0 < t)%Z (startToks l) → pwf (new_parser l).
Proof. intros. split; simpl; auto. Qed.

(** The parser returns for every input with the fuel it is given. *)
Lemma FilterParse_total s t : (0 < t)%Z → ∃ o, FilterParse (newLexer (JP := JP) s [t]) = Some o ∧ ∀ e, o ≠ Err e.
Proof.
  intros Ht. set (l := newLexer s [t]). assert (Forall (λ t, 0 < t)%Z (startToks l)) by (by repeat constructor).
  destruct (parse_loop_total (parse_fuel l) (new_parser l)) as (r & Hr & Hn).
  - by apply new_parser_wf, H; apply newLexer_wf.
  - unfold measure, pending, remaining, parse_fuel, top, pe. simpl. lia.
  - unfold FilterParse. rewrite Hr. destruct r as [ps'|code l'|]; [by destruct (Hn ps')|by eexists..].
Qed.
End ParseFacts.
