(* ===== verification/FilterGrammar.v ===== *)
(** The grammar of [parser.y] as relations between tokens and what they stand for, and
    soundness of the parser: what it returns is derived by the grammar from the tokens of
    its input. *)
From stdpp Require Import base sets strings list numbers.
From Stdlib Require Import SpecFloat.
From S2P Require Import Prelude GoStrings FilterExpr FilterLex FilterLexFacts FilterParse.
From S2P Require Import FilterParseFacts.

(** ** Codes *)

(** The code the lexer returns for a token number. *)
Definition code_of (x : Z) : Z :=
  nth (Z.to_nat x)
    [0; 0; 0; 0; OR; AND; NOT; 61; 60; 62; LE; GE; NE; LIKE; IS; 40; 41; STRING; INTEGRAL; FLOAT;
     JSON_PATH; NULL; TRUE; FALSE; START_EXPRESSION; ASC; DESC; 44; START_ORDER_LIST]%Z 0%Z.

Lemma code_of_checked :
  forallb (λ c, bool_decide (translate c < 4)%Z || bool_decide (c = code_of (translate c)))
    (seqZ 0 63 ++ seqZ 57344 21) = true.
Proof. vm_compute. reflexivity. Qed.

(** Outside of the tables a code is unknown. *)
Lemma translate_out c : c ∉ seqZ 0 63 ++ seqZ 57344 21 → (0 < c)%Z → translate c = 3%Z.
Proof.
  rewrite elem_of_app, !elem_of_seqZ. intros Hout Hc. unfold translate. destruct (Z.leb_spec c 0); [lia|].
  change (Z.of_nat (length FilterTok1)) with 63%Z. change (Z.of_nat (length FilterTok2)) with 21%Z.
  unfold FilterPrivate. destruct (Z.ltb_spec c 63); [lia|].
  by destruct (Z.leb_spec 57344 c), (Z.ltb_spec c (57344 + 21)); simpl; try lia.
Qed.

Lemma translate_code c : (4 <= translate c)%Z → c = code_of (translate c).
Proof.
  intros H4. destruct (decide (c ∈ seqZ 0 63 ++ seqZ 57344 21)) as [Hin|Hout].
  - pose proof (forallb_elem _ _ _ code_of_checked Hin) as H.
    apply orb_true_iff in H as [H|H]; apply bool_decide_eq_true_1 in H; [lia|done].
  - apply translate_pos in H4 as Hc. rewrite translate_out in H4 by done. lia.
Qed.

Lemma eof_checked :
  forallb (λ c, bool_decide (c = 0)%Z || bool_decide (translate c ≠ 1)%Z) (seqZ 0 63 ++ seqZ 57344 21) = true.
Proof. vm_compute. reflexivity. Qed.

Lemma translate_eof c : translate c = 1%Z → (c <= 0)%Z.
Proof.
  intros H1. destruct (Z.leb_spec c 0) as [|Hc]; [done|].
  destruct (decide (c ∈ seqZ 0 63 ++ seqZ 57344 21)) as [Hin|Hout].
  - pose proof (forallb_elem _ _ _ eof_checked Hin) as H.
    apply orb_true_iff in H as [H|H]; apply bool_decide_eq_true_1 in H; [lia|done].
  - by rewrite translate_out in H1.
Qed.

Section Grammar.
Context {JP Obj RV : Type} `{HJ : !JsonPath JP Obj RV}.

(** ** Tokens *)

(** A token with its value. *)
Inductive Tok :=
  | TokString (s : string)
  | TokInt (z : Z)
  | TokFloat (f : spec_float)
  | TokPath (jp : JP) (s : string)
  | TokSym (code : Z).

Definition tok_code (t : Tok) : Z :=
  match t with
  | TokString _ => STRING
  | TokInt _ => INTEGRAL
  | TokFloat _ => FLOAT
  | TokPath _ _ => JSON_PATH
  | TokSym c => c
  end.

(** The token a symbol value stands for. *)
Definition carries (t : Tok) (v : FilterSymType JP) : Prop :=
  match t with
  | TokString s => stringValue v = s
  | TokInt z => integralValue v = z
  | TokFloat f => floatValue v = f
  | TokPath jp s => jsonPathValue v = Some (jp, s)
  | TokSym c => c ≠ STRING ∧ c ≠ INTEGRAL ∧ c ≠ FLOAT ∧ c ≠ JSON_PATH
  end.

(** ** The grammar *)

Inductive boolean_value : list Tok → bool → Prop :=
  | bv_true : boolean_value [TokSym TRUE] true
  | bv_false : boolean_value [TokSym FALSE] false.

Inductive gvalue : list Tok → Expr JP → Prop :=
  | gv_string s : gvalue [TokString s] (StringVal s)
  | gv_int z : gvalue [TokInt z] (IntVal z)
  | gv_float f : gvalue [TokFloat f] (FloatVal f)
  | gv_path jp s : gvalue [TokPath jp s] (JSONPathVal jp s)
  | gv_null : gvalue [TokSym NULL] nullVal.

Inductive value_expression : list Tok → Expr JP → Prop :=
  | ve_value w e : gvalue w e → value_expression w e
  | ve_bool w b : boolean_value w b → value_expression w (BoolVal b).

Inductive gcompare : list Tok → string → Prop :=
  | gc_eq : gcompare [TokSym 61] EqualStr
  | gc_lt : gcompare [TokSym 60] LessThanStr
  | gc_gt : gcompare [TokSym 62] GreaterThanStr
  | gc_le : gcompare [TokSym LE] LessEqualStr
  | gc_ge : gcompare [TokSym GE] GreaterEqualStr
  | gc_ne : gcompare [TokSym NE] NotEqualStr.

Inductive condition : list Tok → Expr JP → Prop :=
  | gcond_compare w1 w2 w3 e1 op e3 :
      value_expression w1 e1 → gcompare w2 op → value_expression w3 e3 →
      condition (w1 ++ w2 ++ w3) (ComparisonExpr op e1 e3)
  | gcond_like w1 w3 e1 e3 :
      value_expression w1 e1 → value_expression w3 e3 →
      condition (w1 ++ [TokSym LIKE] ++ w3) (ComparisonExpr LikeStr e1 e3)
  | gcond_not_like w1 w4 e1 e4 :
      value_expression w1 e1 → value_expression w4 e4 →
      condition (w1 ++ [TokSym NOT] ++ [TokSym LIKE] ++ w4) (ComparisonExpr NotLikeStr e1 e4)
  | gcond_null w1 e1 :
      value_expression w1 e1 → condition (w1 ++ [TokSym IS] ++ [TokSym NULL]) (IsNullExpr IsNull e1)
  | gcond_not_null w1 e1 :
      value_expression w1 e1 →
      condition (w1 ++ [TokSym IS] ++ [TokSym NOT] ++ [TokSym NULL]) (IsNullExpr IsNotNull e1).

Inductive expression : list Tok → Expr JP → Prop :=
  | ge_condition w e : condition w e → expression w e
  | ge_paren w e : expression w e → expression ([TokSym 40] ++ w ++ [TokSym 41]) e
  | ge_and w1 w3 e1 e3 :
      expression w1 e1 → expression w3 e3 → expression (w1 ++ [TokSym AND] ++ w3) (AndExpr e1 e3)
  | ge_or w1 w3 e1 e3 :
      expression w1 e1 → expression w3 e3 → expression (w1 ++ [TokSym OR] ++ w3) (OrExpr e1 e3)
  | ge_not w e : expression w e → expression ([TokSym NOT] ++ w) (NotExpr e)
  | ge_bool w b : boolean_value w b → expression w (BoolVal b).

Inductive asc_desc_opt : list Tok → string → Prop :=
  | ad_default : asc_desc_opt [] AscScr
  | ad_asc : asc_desc_opt [TokSym ASC] AscScr
  | ad_desc : asc_desc_opt [TokSym DESC] DescScr.

Inductive gorder : list Tok → Order JP → Prop :=
  | go_order jp s w d :
      asc_desc_opt w d →
      gorder ([TokPath jp s] ++ w) {| o_Expr := JSONPathVal jp s; Direction := d |}.

Inductive order_list : list Tok → list (Order JP) → Prop :=
  | ol_empty : order_list [] []
  | ol_one w o : gorder w o → order_list w [o]
  | ol_more w1 w3 os o :
      order_list w1 os → gorder w3 o → order_list (w1 ++ [TokSym 44] ++ w3) (os ++ [o]).

(** ** Symbols on the stack *)

(** The value of a symbol is derived from tokens; [x] is the symbol's number in
    [FilterChk]. *)
Definition sym_ok (x : Z) (v : FilterSymType JP) (w : list Tok) : Prop :=
  if (0 <? x)%Z then ∃ t, w = [t] ∧ translate (tok_code t) = x ∧ carries t v
  else if (x =? -1)%Z then ∃ e, expr v = Some e ∧ expression w e
  else if (x =? -2)%Z then ∃ e, expr v = Some e ∧ condition w e
  else if (x =? -3)%Z then gcompare w (str v)
  else if (x =? -4)%Z then ∃ e, expr v = Some e ∧ gvalue w e
  else if (x =? -5)%Z then ∃ e, expr v = Some e ∧ value_expression w e
  else if (x =? -6)%Z then boolean_value w (boolVal v)
  else if (x =? -7)%Z then order_list w (orderList v)
  else if (x =? -8)%Z then ∃ o, order v = Some o ∧ gorder w o
  else if (x =? -9)%Z then asc_desc_opt w (str v)
  else False.


Lemma term_inv x v w :
  sym_ok x v w → (4 <= x)%Z → ∃ t, w = [t] ∧ tok_code t = code_of x ∧ carries t v.
Proof.
  unfold sym_ok. intros Hs Hx. destruct (Z.ltb_spec 0 x); [|lia]. destruct Hs as (t & -> & Ht & Hc).
  exists t. split_and!; try done. rewrite <-Ht in Hx |- *. by apply translate_code.
Qed.

(** Tokens without a value. *)
Lemma term_sym x c v w :
  sym_ok x v w → (4 <= x)%Z → code_of x = c → bool_decide (c ∈ [STRING; INTEGRAL; FLOAT; JSON_PATH]) = false →
  w = [TokSym c].
Proof.
  intros Hs Hx <- Hn%bool_decide_eq_false. destruct (term_inv _ _ _ Hs Hx) as (t & -> & Hc & _).
  destruct t; simpl in Hc; try (exfalso; apply Hn; rewrite <-Hc; set_solver). by rewrite Hc.
Qed.

Lemma term_string v w : sym_ok 17 v w → w = [TokString (stringValue v)].
Proof. intros (t & -> & Hc & Hv)%term_inv; [|lia]. destruct t; simpl in *; try done; [by subst|]. by subst; destruct Hv. Qed.
Lemma term_int v w : sym_ok 18 v w → w = [TokInt (integralValue v)].
Proof. intros (t & -> & Hc & Hv)%term_inv; [|lia]. destruct t; simpl in *; try done; [by subst|]. subst. by destruct Hv as (_ & ? & _). Qed.
Lemma term_float v w : sym_ok 19 v w → w = [TokFloat (floatValue v)].
Proof. intros (t & -> & Hc & Hv)%term_inv; [|lia]. destruct t; simpl in *; try done; [by subst|]. subst. by destruct Hv as (_ & _ & ? & _). Qed.
Lemma term_path v w :
  sym_ok 20 v w → ∃ jp s, jsonPathValue v = Some (jp, s) ∧ w = [TokPath jp s].
Proof. intros (t & -> & Hc & Hv)%term_inv; [|lia]. destruct t; simpl in *; try done; [by eexists _, _|]. subst. by destruct Hv as (_ & _ & _ & ?). Qed.

Lemma sym_ok_yys x v w g : sym_ok x v w → sym_ok x (set_yys g v) w.
Proof. unfold sym_ok. by repeat case_match. Qed.

(** The values of the symbols of a right-hand side. *)
Definition derived (xs : list Z) (d : list (FilterSymType JP)) (ws : list (list Tok)) : Prop :=
  (λ v, entry FilterChk (yys v)) <$> d = xs ∧ Forall2 (λ v w, sym_ok (entry FilterChk (yys v)) v w) d ws.

Lemma derived_nil d ws : derived [] d ws → d = [] ∧ ws = [].
Proof. intros [Hd Hf]. apply fmap_nil_inv in Hd as ->. by inversion Hf. Qed.

Lemma derived_cons x xs d ws :
  derived (x :: xs) d ws → ∃ v d' w ws', d = v :: d' ∧ ws = w :: ws' ∧ sym_ok x v w ∧ derived xs d' ws'.
Proof.
  intros [Hd Hf]. destruct d as [|v d]; [done|]. simpl in Hd. simplify_eq.
  inversion Hf; subst. by eexists _, _, _, _.
Qed.
End Grammar.

(** Name the values and tokens of a right-hand side. *)
Ltac derive H :=
  lazymatch type of H with
  | derived [] _ _ => apply derived_nil in H as [-> ->]
  | derived (_ :: _) _ _ =>
      let v := fresh "v" in let d := fresh "d" in let w := fresh "w" in let ws := fresh "ws" in
      let Hs := fresh "Hs" in
      apply derived_cons in H as (v & d & w & ws & -> & -> & Hs & H); derive H
  end.

(** The right-hand side of a given production. *)
Ltac compute_rhs H :=
  lazymatch type of H with
  | derived ?r ?d ?ws => let r' := eval vm_compute in r in change (derived r' d ws) in H
  end.

(** Replace terminals by their tokens and unfold nonterminals. *)
Ltac terminals :=
  repeat match goal with
  | H : sym_ok 17 _ _ |- _ => apply term_string in H as ->
  | H : sym_ok 18 _ _ |- _ => apply term_int in H as ->
  | H : sym_ok 19 _ _ |- _ => apply term_float in H as ->
  | H : sym_ok 20 _ _ |- _ => apply term_path in H as (? & ? & ? & ->)
  | H : sym_ok (Zpos _) _ ?w |- _ =>
      eapply term_sym in H; [|done|vm_compute; reflexivity|vm_compute; reflexivity]; subst w
  | H : sym_ok (Zneg _) _ _ |- _ => unfold sym_ok in H; simpl in H
  end.

(** One production: compute its right-hand side and its action, and derive the value. *)
Ltac production Hd Hs :=
  compute_rhs Hd; derive Hd;
  lazymatch type of Hs with
  | semantic ?n _ _ _ = _ => let n' := eval vm_compute in n in change n with n' in Hs
  end;
  cbn in Hs; injection Hs as <- <-; split; [done|];
  lazymatch goal with |- sym_ok ?x _ _ => let x' := eval vm_compute in x in change x with x' end;
  terminals; unfold sym_ok, the_expr, the_path; cbn;
  repeat match goal with
  | H : ∃ _, _ |- _ => destruct H as (? & ? & ?)
  | H : expr _ = Some _ |- _ => rewrite H; clear H
  | H : order _ = Some _ |- _ => rewrite H; clear H
  | H : jsonPathValue _ = Some _ |- _ => rewrite H; clear H
  end; cbn; rewrite ?app_nil_r.

Section Sound.
Context {JP Obj RV : Type} `{HJ : !JsonPath JP Obj RV}.

(** The action of a production derives the value of its left-hand side from those of its
    right-hand side. *)
Lemma semantic_sound n (d : list (FilterSymType JP)) ws l val l' :
  (3 <= n <= 35)%Z → derived (rhs n) d ws →
  semantic (Z.to_nat n) (λ i, nth (i - 1) d zero_sym) (nth 0 d zero_sym) l = (val, l') →
  l' = l ∧ sym_ok (- entry FilterR1 n) val (concat ws).
Proof.
  intros Hn Hd Hs.
  assert (n ∈ seqZ 3 33) as Hin by (apply elem_of_seqZ; lia). clear Hn.
  vm_compute in Hin.
  repeat (apply elem_of_cons in Hin as [->|Hin];
    [production Hd Hs; first [done|by econstructor; eauto|by eexists; split; [reflexivity|]; econstructor; eauto]|]).
  by apply elem_of_nil in Hin.
Qed.

(** ** The tokens of the input *)

(** The token the lexer has returned. *)
Definition tok_of (c : Z) (v : FilterSymType JP) : Tok :=
  if decide (c = STRING) then TokString (stringValue v)
  else if decide (c = INTEGRAL) then TokInt (integralValue v)
  else if decide (c = FLOAT) then TokFloat (floatValue v)
  else match jsonPathValue v with
  | Some (jp, s) => if decide (c = JSON_PATH) then TokPath jp s else TokSym c
  | None => TokSym c
  end.

(** The tokens successive calls of [Lex] return. *)
Inductive Lexed (l0 : lexer JP) (out0 : FilterSymType JP) :
    list Tok → lexer JP → FilterSymType JP → Prop :=
  | lexed_nil : Lexed l0 out0 [] l0 out0
  | lexed_snoc ts l out l' out' c :
      Lexed l0 out0 ts l out → Lex l out = Some (l', out', c) → (0 < c)%Z →
      Lexed l0 out0 (ts ++ [tok_of c out']) l' out'.

(** The tokens of a text: what the lexer returns until it returns 0. *)
Definition tokenizes (s : string) (start : Z) (ts : list Tok) : Prop :=
  ∃ l out l' out', Lexed (newLexer s [start]) zero_sym (TokSym start :: ts) l out ∧
    Lex l out = Some (l', out', 0%Z).

(** A path token carries its path. *)
Lemma action_path a (l : lexer JP) out l' out' :
  action a l out = Token l' out' JSON_PATH → is_Some (jsonPathValue out').
Proof.
  assert (∀ l, path_token l out = Token l' out' JSON_PATH → is_Some (jsonPathValue out')) as Hp.
  { intros l1. unfold path_token. destruct (slice _ _ _); [|done].
    destruct (parse_path _) as [jp err]. intros [= _ <-]. by eexists. }
  do 33 try (destruct a as [|a]); simpl; unfold integral_token, float_token, string_token;
    try done; try apply Hp; repeat case_match; try done; try apply Hp.
Qed.

Lemma actions_path acts (l : lexer JP) out l' out' :
  actions acts l out = Token l' out' JSON_PATH → is_Some (jsonPathValue out').
Proof.
  revert l out. induction acts as [|a acts IH]; intros l out; [done|]. simpl.
  destruct (action a l out) as [l1 out1|l1 out1 tok|] eqn:Ha; try done; [apply IH|].
  intros [= -> -> ->]. by eapply action_path.
Qed.

Lemma test_eof_path (l : lexer JP) out l' out' :
  test_eof l out = Some (l', out', JSON_PATH) → is_Some (jsonPathValue out').
Proof.
  unfold test_eof. destruct (eof_transition _); [|done].
  destruct (jump _ _ _) eqn:Hj; try done; [by case_decide|]. intros [= -> -> ->]. by eapply actions_path.
Qed.

Lemma resume_path rest (l : lexer JP) out l' out' :
  resume rest l out = Some (l', out', JSON_PATH) → is_Some (jsonPathValue out').
Proof.
  revert l out. induction rest as [|c rest IH]; intros l out; [apply test_eof_path|]. cbn [resume].
  destruct (jump _ _ _) as [l2 out2|l2 out2 tok|] eqn:Hj; try done.
  - destruct (decide (cs (to_state l2) = 0)); [done|apply IH].
  - intros [= -> -> ->]. by eapply actions_path.
Qed.

Lemma Lex_path (l : lexer JP) out l' out' :
  JSON_PATH ∉ startToks l → Lex l out = Some (l', out', JSON_PATH) → is_Some (jsonPathValue out').
Proof.
  intros Hst. unfold Lex. destruct (startToks l) as [|t ts'].
  - case_decide; [apply test_eof_path|]. case_decide; [done|apply resume_path].
  - intros [= _ _ ->]. set_solver.
Qed.

Lemma tok_of_ok (l : lexer JP) out l' out' c :
  JSON_PATH ∉ startToks l → Lex l out = Some (l', out', c) → (0 < c)%Z →
  sym_ok (translate c) out' [tok_of c out'].
Proof.
  intros Hst HL Hc. unfold sym_ok. pose proof (translate_range c).
  destruct (Z.ltb_spec 0 (translate c)); [|lia]. eexists. split; [done|]. unfold tok_of.
  destruct (decide (c = STRING)) as [->|]; [done|]. destruct (decide (c = INTEGRAL)) as [->|]; [done|].
  destruct (decide (c = FLOAT)) as [->|]; [done|].
  destruct (jsonPathValue out') as [[jp s]|] eqn:Hj.
  { by destruct (decide (c = JSON_PATH)) as [->|]. }
  split; [done|]. simpl. split_and!; try done. intros ->.
  destruct (Lex_path _ _ _ _ Hst HL) as [? Hp]. congruence.
Qed.

(** ** The invariant of the parse *)

Section Run.
Context (l0 : lexer JP).
Implicit Types (ps : parser JP).

(** The tokens that were shifted; the one that is waiting comes after them. *)
Definition shifted (ps : parser JP) (ts : list Tok) : Prop :=
  (char ps < 0)%Z ∧ Lexed l0 zero_sym ts (lx ps) (lval ps) ∨
  (0 <= char ps)%Z ∧ ∃ l out, Lexed l0 zero_sym ts l out ∧ Lex l out = Some (lx ps, lval ps, char ps) ∧
    JSON_PATH ∉ startToks l.

(** The symbols on the stack are derived from the tokens shifted. *)
Definition parsing (ps : parser JP) : Prop :=
  JSON_PATH ∉ startToks (lx ps) ∧
  ∃ vs b ws, stack ps = vs ++ [b] ∧ Forall2 (λ v w, sym_ok (entry FilterChk (yys v)) v w) vs ws ∧
    shifted ps (concat (reverse ws)).

(** What the parser has stored is derived from the tokens. *)
Definition result_ok (l : lexer JP) (ts : list Tok) : Prop :=
  (∃ w e, ts = TokSym START_EXPRESSION :: w ∧ lex_expr l = Some e ∧ expression w e) ∨
  (∃ w, ts = TokSym START_ORDER_LIST :: w ∧ order_list w (lex_orderBy l)).

(** The start symbol was recognized, and a token is waiting. *)
Definition parsed (ps : parser JP) : Prop :=
  top ps = 1%Z ∧ (0 <= char ps)%Z ∧ ∃ ts l out l', Lexed l0 zero_sym ts l out ∧
    Lex l out = Some (l', lval ps, char ps) ∧ result_ok (lx ps) ts.

Lemma read_parsing ps ps1 :
  pwf ps → (ps1 = ps ∨ read_token ps = Some ps1) → parsing ps → parsing ps1.
Proof.
  intros Hw [->|Hr]; [done|]. intros (Hst & vs & b & ws & Hs & Hf & Hsh).
  destruct (Z.ltb_spec (char ps) 0) as [Hc|Hc].
  2: { rewrite read_token_waiting in Hr by done. simplify_eq. split; [done|]. by exists vs, b, ws. }
  destruct Hsh as [[_ Hsh]|[??]]; [|lia]. pose proof (read_token_spec _ _ Hw Hr) as (_ & Hc' & Hs' & _).
  unfold read_token in Hr. apply Z.ltb_lt in Hc. rewrite Hc in Hr.
  destruct (Lex _ _) as [[[l v] c]|] eqn:HL; [|done]. simplify_eq/=.
  destruct (Lex_spec _ _ _ _ _ (pw_lex _ Hw) (pw_start _ Hw) HL) as (_ & Hst' & _).
  split; simpl.
  - rewrite Hst'. destruct (startToks (lx ps)); set_solver.
  - exists vs, b, ws. split_and!; try done. right. split; [done|]. by exists (lx ps), (lval ps).
Qed.

Lemma shift_parsing ps s :
  pwf ps → parsing ps → (0 < char ps)%Z → entry FilterChk s = token ps → parsing (shift s ps).
Proof.
  intros Hw (Hst & vs & b & ws & Hs & Hf & Hsh) Hc Hchk.
  destruct Hsh as [[??]|(_ & l & out & Hl & HL & Hst')]; [lia|].
  split; [done|]. exists (set_yys s (lval ps) :: vs), b, ([tok_of (char ps) (lval ps)] :: ws).
  split_and!.
  - simpl. by rewrite Hs.
  - constructor; [|done]. simpl. rewrite Hchk. destruct (pw_char _ Hw) as [|[_ ->]]; [lia|].
    apply sym_ok_yys. by eapply tok_of_ok.
  - rewrite reverse_cons, concat_app. simpl. rewrite ?app_nil_r. left. split; [simpl; lia|].
    by eapply lexed_snoc.
Qed.

(** The stack of a reduction and what it is derived from. *)
Lemma reduce_stack n ps vs b ws t :
  pwf ps → t ∈ tokens → table_action (top ps) t = Reduce n →
  stack ps = vs ++ [b] → Forall2 (λ v w, sym_ok (entry FilterChk (yys v)) v w) vs ws →
  let k := length (rhs n) in
  reverse (take k (stack ps)) = reverse (take k vs) ∧ drop k (stack ps) = drop k vs ++ [b] ∧
  derived (rhs n) (reverse (take k vs)) (reverse (take k ws)) ∧
  concat (reverse (drop k ws)) ++ concat (reverse (take k ws)) = concat (reverse ws).
Proof.
  intros Hw Ht Ha Hs Hf k. destruct (reduce_spec ps t n Hw Ht Ha) as [_ H]. simpl in H.
  destruct (semantic _ _ _ _) as [val l]. destruct H as (u & g & st & Hd & _ & Hsym & _ & _ & _ & Hlen).
  fold k in Hd, Hsym, Hlen. assert (k ≤ length vs) as Hk.
  { rewrite Hs, length_app in Hlen. simpl in Hlen. lia. }
  rewrite Hs in *. rewrite take_app_le in * by lia. rewrite drop_app_le in * by lia.
  split_and!; try done.
  - split; [done|]. apply Forall2_reverse. by apply Forall2_take.
  - by rewrite <-concat_app, <-reverse_app, take_drop.
Qed.

Lemma start_checked :
  forallb (λ e : Z * Z, bool_decide (entry FilterChk e.2 = -10 → e.1 = 0 ∧ e.2 = 1)%Z) edges = true.
Proof. vm_compute. reflexivity. Qed.

Lemma reduce_parsing n ps t :
  pwf ps → t ∈ tokens → table_action (top ps) t = Reduce n → (3 <= n)%Z → parsing ps →
  parsing (reduce n ps) ∧ lex_expr (lx (reduce n ps)) = lex_expr (lx ps).
Proof.
  intros Hw Ht Ha Hn (Hst & vs & b & ws & Hs & Hf & Hsh).
  destruct (reduce_stack n ps vs b ws t Hw Ht Ha Hs Hf) as (Hrev & Hdrop & Hder & Hcat).
  destruct (reduce_spec ps t n Hw Ht Ha) as [Hn' H]. simpl in *. rewrite Hrev in H.
  destruct (semantic _ _ _ _) as [val l] eqn:Hsem.
  destruct H as (u & g & st & Hd & Hg & _ & -> & _).
  destruct (semantic_sound n _ _ _ _ _ ltac:(lia) Hder Hsem) as [-> Hok].
  split; [|done]. split; [done|].
  exists (set_yys g val :: drop (length (rhs n)) vs), b, (concat (reverse (take (length (rhs n)) ws)) :: drop (length (rhs n)) ws).
  split_and!.
  - simpl. by rewrite <-Hd, Hdrop.
  - constructor; [|by apply Forall2_drop]. simpl. rewrite Hg. by apply sym_ok_yys.
  - rewrite reverse_cons, concat_app. simpl. rewrite app_nil_r, Hcat.
    destruct Hsh as [Hsh|Hsh]; [by left|by right].
Qed.

Lemma reduce_start n ps t :
  pwf ps → t ∈ tokens → table_action (top ps) t = Reduce n → (n = 1 ∨ n = 2)%Z → parsing ps →
  (0 <= char ps)%Z → parsed (reduce n ps).
Proof.
  intros Hw Ht Ha Hn (Hst & vs & b & ws & Hs & Hf & Hsh) Hc.
  destruct (reduce_stack n ps vs b ws t Hw Ht Ha Hs Hf) as (Hrev & Hdrop & Hder & Hcat).
  destruct (reduce_spec ps t n Hw Ht Ha) as [_ H]. simpl in *. rewrite Hrev in H.
  destruct (semantic _ _ _ _) as [val l] eqn:Hsem.
  destruct H as (u & g & st & Hd & Hg & _ & -> & Hchain & _).
  assert (yys u = 0 ∧ g = 1)%Z as [Hu ->].
  { destruct Hchain as [He _]. pose proof (forallb_elem _ _ _ start_checked He) as H.
    apply bool_decide_eq_true_1 in H. apply H. simpl. rewrite Hg. by destruct Hn as [-> | ->]. }
  assert (st = []) as ->.
  { destruct Hchain as [_ Hc']. destruct st as [|v st]; [done|]. simpl in Hc'.
    destruct Hc' as [He _]. rewrite Hu in He. by apply edge_checked in He as [_ ?]. }
  assert (drop (length (rhs n)) vs = []) as Hvs.
  { rewrite Hd in Hdrop. destruct (drop _ vs) as [|? [|]]; simplify_eq/=; done. }
  assert (drop (length (rhs n)) ws = []) as Hws.
  { apply Forall2_length in Hf. apply length_zero_iff_nil. rewrite length_drop.
    apply (f_equal length) in Hvs. rewrite length_drop in Hvs. simpl in Hvs. lia. }
  rewrite Hws in Hcat. simpl in Hcat. rewrite <-Hcat in Hsh.
  destruct Hsh as [[??]|(_ & l1 & out1 & Hl1 & HL1 & _)]; [lia|].
  split; [done|]. split; [done|]. eexists _, l1, out1, _. split; [exact Hl1|]. split; [exact HL1|].
  clear -Hn Hder Hsem. destruct Hn as [-> | ->].
  - compute_rhs Hder. revert Hsem. derive Hder. cbn. intros [= <- <-]. terminals.
    match goal with H : ∃ e, expr _ = Some e ∧ expression ?w e |- _ => destruct H as (e & He & Hx); left; exists w, e end.
    by rewrite app_nil_r.
  - compute_rhs Hder. revert Hsem. derive Hder. cbn. intros [= <- <-]. terminals.
    match goal with H : order_list ?w _ |- _ => right; exists w end. by rewrite app_nil_r.
Qed.

Lemma accept_checked :
  forallb (λ t, match table_action 1 t with
    | Accept => bool_decide (t = 1)%Z | Reject => true | _ => false end) tokens = true.
Proof. vm_compute. reflexivity. Qed.

Lemma unread_checked :
  forallb (λ s, needs_token s || match table_action s 0 with
    | Reduce n => bool_decide (3 <= n)%Z | _ => true end) states = true.
Proof. vm_compute. reflexivity. Qed.

(** Every turn keeps the symbols derived, until the start symbol is recognized. *)
Lemma turn_sound ps ps' :
  pwf ps → parsing ps → lex_expr (lx ps) = None → parse_turn ps = Next ps' →
  parsing ps' ∧ lex_expr (lx ps') = None ∨ parsed ps'.
Proof.
  intros Hw Hp Hnone Hn.
  destruct (turn_cases ps Hw) as [|(ps1 & t & Hr & Hw1 & Hs & He & _ & _ & Ht & Ht' & Heq)]; [congruence|].
  apply (read_parsing _ _ Hw Hr) in Hp as Hp1. rewrite <-(top_stack _ _ Hs) in Heq, Ht'. rewrite Heq in Hn.
  rewrite Hnone in He.
  destruct (table_action (top ps1) t) as [s|n| |] eqn:Ha; simplify_eq/=.
  - left. assert (t = token ps1 ∧ 0 <= char ps1)%Z as [-> Hc].
    { destruct Ht' as [[-> _]|]; [|done]. destruct (top_state ps1 Hw1) as (_ & _ & Hin).
      pose proof (action_checked _ _ Hin Ht) as Hok. unfold action_ok in Hok. rewrite Ha in Hok.
      rewrite !andb_true_iff, !bool_decide_eq_true in Hok. lia. }
    destruct (shift_spec ps1 s Hw1 Hc Ha) as (_ & _ & Hpos & Hchk).
    split; [by apply shift_parsing|done].
  - destruct (decide (3 <= n)%Z) as [H3|H3].
    { left. destruct (reduce_parsing n ps1 t Hw1 Ht Ha H3 Hp1) as [? ->]. done. }
    right. destruct (reduce_spec ps1 t n Hw1 Ht Ha) as [Hn' _].
    eapply reduce_start; try done; [lia|]. destruct Ht' as [[-> Hneed]|[_ ?]]; [|done].
    destruct (top_state ps1 Hw1) as (_ & _ & Hin). pose proof (forallb_elem _ _ _ unread_checked Hin) as Hu.
    simpl in Hu. rewrite Hneed, Ha in Hu. by apply bool_decide_eq_true_1 in Hu.
  - by rewrite error_turn_spec in Hn.
Qed.

(** Once it is recognized, the next turn is the last. *)
Lemma parsed_return ps :
  pwf ps → parsed ps →
  parse_turn ps = Return 1 (lexer_Error "syntax error" (lx ps)) ∨
  parse_turn ps = Return 0 (lx ps) ∧ char ps = 0%Z.
Proof.
  intros Hw (Htop & Hc & _). rewrite parse_turn_read by done. rewrite Htop.
  destruct (pw_char _ Hw) as [|[_ Ht]]; [lia|].
  assert (token ps ∈ tokens) as Hin by (rewrite Ht; apply translate_in).
  pose proof (forallb_elem _ _ _ accept_checked Hin) as Hok. simpl in Hok.
  destruct (table_action 1 (token ps)) eqn:Ha; try done; simpl.
  - right. split; [done|]. apply bool_decide_eq_true_1 in Hok. rewrite Ht in Hok.
    pose proof (translate_eof _ Hok). lia.
  - left. by apply error_turn_spec.
Qed.

(** A successful parse has recognized all the tokens of its input. *)
Lemma parse_loop_sound fuel ps l :
  pwf ps → parsing ps ∧ lex_expr (lx ps) = None ∨ parsed ps → parse_loop fuel ps = Some (Return 0 l) →
  ∃ ts l1 out l' out', Lexed l0 zero_sym ts l1 out ∧ Lex l1 out = Some (l', out', 0%Z) ∧ result_ok l ts.
Proof.
  revert ps. induction fuel as [|fuel IH]; intros ps Hw Hps; [done|]. simpl.
  destruct Hps as [[Hp Hnone]|Hp].
  - destruct (parse_turn ps) as [ps'|code l2|] eqn:Ht; [| |done].
    + apply IH; [by eapply turn_decreases|by eapply turn_sound].
    + intros [= -> ->]. exfalso.
      destruct (turn_cases ps Hw) as [|(ps1 & t & Hr & Hw1 & Hs & _ & _ & _ & Htk & Ht' & Heq)]; [congruence|].
      rewrite Heq in Ht. destruct (table_action (top ps) t) eqn:Ha; simplify_eq/=.
      * destruct (top_state ps Hw) as (ss & Hss & Hin). pose proof (action_checked _ _ Hin Htk) as Hok.
        unfold action_ok in Hok. rewrite Ha in Hok. apply bool_decide_eq_true_1 in Hok.
        destruct Hp as (_ & vs & b & ws & Hst & Hf & _). pose proof (pw_chain _ Hw) as Hch.
        unfold top in Hok. rewrite Hst in Hok, Hch. inversion Hf as [|v w vs' ws' Hv]; subst; simpl in *; [lia|].
        by rewrite Hok in Hv.
      * by rewrite error_turn_spec in Ht.
  - destruct (parsed_return ps Hw Hp) as [-> | [-> Hc]]; [done|]. intros [= <-].
    destruct Hp as (_ & _ & ts & l1 & out & l' & Hl & HL & Hres). rewrite Hc in HL. eauto 10.
Qed.
End Run.

(** An error code comes with an error. *)
Lemma parse_loop_code fuel (ps : parser JP) code l :
  pwf ps → parse_loop fuel ps = Some (Return code l) → code = 0%Z ∨ is_Some (lex_e l).
Proof.
  revert ps. induction fuel as [|fuel IH]; intros ps Hw; [done|]. simpl.
  destruct (parse_turn ps) as [ps'|code' l'|] eqn:Ht; [| |done].
  - apply IH. by eapply turn_decreases.
  - intros [= -> ->]. destruct (turn_cases ps Hw) as [|(ps1 & t & _ & Hw1 & _ & _ & _ & _ & _ & _ & Heq)]; [congruence|].
    rewrite Heq in Ht. destruct (table_action (top ps) t); simplify_eq/=; [by left|].
    rewrite error_turn_spec in Ht by done. simplify_eq/=. right. by eexists.
Qed.

(** The first token is the start token. *)
Lemma Lexed_start s start ts (l : lexer JP) out :
  start ≠ STRING → start ≠ INTEGRAL → start ≠ FLOAT → start ≠ JSON_PATH →
  Lexed (newLexer s [start]) zero_sym ts l out →
  ts = [] ∧ l = newLexer s [start] ∧ out = zero_sym ∨ ∃ ts', ts = TokSym start :: ts'.
Proof.
  intros ???? Hl. induction Hl as [|ts l out l' out' c Hl IH HL Hc]; [by left|right].
  destruct IH as [(-> & -> & ->)|[ts' ->]]; [|by eexists].
  injection HL as <- <- <-. exists []. simpl. unfold tok_of. by repeat (rewrite decide_False by done).
Qed.

(** What the parser returns without an error is derived from all tokens of its input. *)
Lemma FilterParse_sound s start (l : lexer JP) code :
  start = START_EXPRESSION ∨ start = START_ORDER_LIST →
  FilterParse (newLexer s [start]) = Some (Ok (code, l)) → lex_e l = None →
  ∃ ts, tokenizes s start ts ∧ result_ok l (TokSym start :: ts).
Proof.
  intros Hstart Hp Hnone. unfold FilterParse in Hp.
  destruct (parse_loop _ _) as [[ps|code' l'|]|] eqn:Hloop; simplify_eq.
  assert (pwf (new_parser (newLexer (JP := JP) s [start]))) as Hw.
  { apply new_parser_wf; [apply newLexer_wf|]. repeat constructor. by destruct Hstart as [-> | ->]. }
  destruct (parse_loop_code _ _ _ _ Hw Hloop) as [->|[e He]]; [|congruence].
  assert (parsing (newLexer s [start]) (new_parser (newLexer (JP := JP) s [start]))) as Hps.
  { split; [by destruct Hstart as [-> | ->]; set_solver|].
    exists [], zero_sym, []. split_and!; [done|constructor|]. left. split; [done|constructor]. }
  destruct (parse_loop_sound (newLexer s [start]) _ _ _ Hw (or_introl (conj Hps eq_refl)) Hloop)
    as (ts & l1 & out & l' & out' & Hl & HL & Hres).
  destruct (Lexed_start s start ts l1 out) as [(-> & _)|[ts' ->]]; try done;
    [by destruct Hstart as [-> | ->]..| |].
  { destruct Hres as [(w & e & ? & _)|(w & ? & _)]; done. }
  exists ts'. split; [|done]. by exists l1, out, l', out'.
Qed.

Lemma ParseFilterExpression_sound s oe :
  ParseFilterExpression s = Some (Ok (oe, None)) →
  ∃ ts e, oe = Some e ∧ tokenizes s START_EXPRESSION ts ∧ expression ts e.
Proof.
  unfold ParseFilterExpression. destruct (FilterParse _) as [[[code l]|e|]|] eqn:Hp; try done.
  intros [= <- He]. destruct (FilterParse_sound _ _ _ _ (or_introl eq_refl) Hp He) as (ts & Ht & Hr).
  destruct Hr as [(w & e & [= <-] & Hl & Hx)|(w & ? & _)]; [|done]. by exists ts, e.
Qed.

Lemma ParseOrderByExpression_sound s os :
  ParseOrderByExpression s = Some (Ok (os, None)) →
  ∃ ts, tokenizes s START_ORDER_LIST ts ∧ order_list ts os.
Proof.
  unfold ParseOrderByExpression. destruct (FilterParse _) as [[[code l]|e|]|] eqn:Hp; try done.
  intros [= <- He]. destruct (FilterParse_sound _ _ _ _ (or_intror eq_refl) Hp He) as (ts & Ht & Hr).
  destruct Hr as [(w & e & ? & _)|(w & [= <-] & Hx)]; [done|]. by exists ts.
Qed.
End Sound.
