(* ===== verification/FilterPrint.v ===== *)
(** Completeness of the parser: an expression written with as few parentheses as the
    precedence of [parser.y] allows is parsed to itself. *)
From stdpp Require Import base sets strings list numbers.
From Stdlib Require Import SpecFloat.
From S2P Require Import Prelude GoStrings FilterExpr FilterLex FilterLexFacts FilterParse.
From S2P Require Import FilterParseFacts FilterGrammar.

(** Case analysis on the element of a given list. *)
Ltac each_elem H :=
  let T := type of H in
  let T' := eval vm_compute in T in
  change T' in H; repeat (apply elem_of_cons in H as [->|H]); try (by apply elem_of_nil in H).

Section Print.
Context {JP Obj RV : Type} `{HJ : !JsonPath JP Obj RV}.
Notation Sym := (FilterSymType JP).
Implicit Types (e : Expr JP) (v : Sym) (st : list Sym) (l : lexer JP) (out : Sym) (X : parser JP).

(** ** Tokens of an expression *)

(** An operand of a comparison. *)
Definition operand e : bool :=
  match e with
  | BoolVal _ | StringVal _ | IntVal _ | FloatVal _ | nullVal | JSONPathVal _ _ => true
  | _ => false
  end.

Definition operand_tok e : Tok :=
  match e with
  | BoolVal b => TokSym (if b then TRUE else FALSE)
  | StringVal s => TokString s
  | IntVal z => TokInt z
  | FloatVal f => TokFloat f
  | JSONPathVal jp s => TokPath jp s
  | _ => TokSym NULL
  end.

Definition operator_toks (op : string) : list (Tok (JP := JP)) :=
  if decide (op = EqualStr) then [TokSym 61]
  else if decide (op = LessThanStr) then [TokSym 60]
  else if decide (op = GreaterThanStr) then [TokSym 62]
  else if decide (op = LessEqualStr) then [TokSym LE]
  else if decide (op = GreaterEqualStr) then [TokSym GE]
  else if decide (op = NotEqualStr) then [TokSym NE]
  else if decide (op = LikeStr) then [TokSym LIKE]
  else [TokSym NOT; TokSym LIKE].

Definition operators : list string :=
  [EqualStr; LessThanStr; GreaterThanStr; LessEqualStr; GreaterEqualStr; NotEqualStr; LikeStr; NotLikeStr].

(** The expressions the grammar has. *)
Fixpoint writable e : Prop :=
  match e with
  | AndExpr a b | OrExpr a b => writable a ∧ writable b
  | NotExpr a => writable a
  | IsNullExpr op a => (op = IsNull ∨ op = IsNotNull) ∧ operand a = true
  | ComparisonExpr op a b => op ∈ operators ∧ operand a = true ∧ operand b = true
  | BoolVal _ => True
  | _ => False
  end.

(** How tightly the outermost operator binds. *)
Definition prec e : nat :=
  match e with OrExpr _ _ => 0 | AndExpr _ _ => 1 | _ => 2 end.

(** The tokens of an expression where an operator of precedence [lvl] is needed. *)
Fixpoint toks (lvl : nat) e : list Tok :=
  let ts :=
    match e with
    | AndExpr a b => toks 1 a ++ TokSym AND :: toks 2 b
    | OrExpr a b => toks 0 a ++ TokSym OR :: toks 1 b
    | NotExpr a => TokSym NOT :: toks 2 a
    | IsNullExpr op a =>
        operand_tok a :: TokSym IS :: (if decide (op = IsNull) then [] else [TokSym NOT]) ++ [TokSym NULL]
    | ComparisonExpr op a b => operand_tok a :: operator_toks op ++ [operand_tok b]
    | _ => [operand_tok e]
    end in
  if decide (prec e < lvl) then TokSym 40 :: ts ++ [TokSym 41] else ts.

(** ** Lexers that will return given tokens *)

Inductive lexes : lexer JP → Sym → list Tok → lexer JP → Sym → Prop :=
  | lexes_nil l out : lexes l out [] l out
  | lexes_cons l out t l1 out1 ts l' out' :
      Lex l out = Some (l1, out1, tok_code t) → (0 < tok_code t)%Z → carries t out1 →
      lexes l1 out1 ts l' out' → lexes l out (t :: ts) l' out'.

Lemma lexes_app l out ts1 ts2 l' out' :
  lexes l out (ts1 ++ ts2) l' out' → ∃ l1 out1, lexes l out ts1 l1 out1 ∧ lexes l1 out1 ts2 l' out'.
Proof.
  revert l out. induction ts1 as [|t ts1 IH]; intros l out H; [by eexists _, _; split; [constructor|]|].
  inversion H; subst. destruct (IH _ _ ltac:(done)) as (l2 & out2 & ? & ?).
  exists l2, out2. split; [by econstructor|done].
Qed.

(** ** Runs of the parser *)

(** The parser with a stack, the token waiting or [-1], and the lexer. *)
Definition at_ st (c : Z) l out : parser JP := {|
  stack := st; char := c; token := if (c <? 0)%Z then (-1)%Z else translate c; lval := out;
  Errflag := 0; lx := l |}.

(** What the parser will return. *)
Definition final (ps : parser JP) (r : turn JP) : Prop := ∃ n, parse_loop n ps = Some r.

(** The parser comes to another state. *)
Definition leads X (ps : parser JP) : Prop := ∀ r, final ps r → final X r.

Lemma leads_refl X : leads X X.
Proof. by intros r. Qed.

Lemma leads_next X ps ps' : leads X ps → parse_turn ps = Next ps' → leads X ps'.
Proof. intros HX Ht r [n Hn]. apply HX. exists (S n). simpl. by rewrite Ht. Qed.

Lemma leads_same X ps ps' : leads X ps → parse_turn ps = parse_turn ps' → leads X ps'.
Proof.
  intros HX Ht r [n Hn]. apply HX. exists n. destruct n as [|n]; [done|]. simpl in *. by rewrite Ht.
Qed.

(** The parser comes to a stack, before or after it has read the next token. *)
Definition reaches X st l out (c : Z) l' out' : Prop :=
  Lex l out = Some (l', out', c) ∧ (0 <= c)%Z ∧
  (leads X (at_ st (-1) l out) ∨ leads X (at_ st c l' out')).

Lemma at_waiting st c l out : (0 <= c)%Z → at_ st c l out = {|
  stack := st; char := c; token := translate c; lval := out; Errflag := 0; lx := l |}.
Proof. intros Hc. unfold at_. by destruct (Z.ltb_spec c 0); [lia|]. Qed.

Lemma turn_waiting v st c l out :
  (0 <= c)%Z →
  parse_turn (at_ (v :: st) c l out) = act_turn (table_action (yys v) (translate c)) (at_ (v :: st) c l out).
Proof. intros Hc. rewrite at_waiting by done. by rewrite parse_turn_read. Qed.

Lemma turn_reads v st l out l' out' c :
  needs_token (yys v) = true → Lex l out = Some (l', out', c) → (0 <= c)%Z →
  parse_turn (at_ (v :: st) (-1) l out) = parse_turn (at_ (v :: st) c l' out').
Proof.
  intros Hn HL Hc. unfold needs_token in Hn. unfold parse_turn.
  assert (read_token (at_ (v :: st) (-1) l out) = Some (at_ (v :: st) c l' out')) as Hr.
  { rewrite (at_waiting _ c) by done. unfold read_token. simpl. by rewrite HL. }
  assert (read_token (at_ (v :: st) c l' out') = Some (at_ (v :: st) c l' out')) as Hr' by (by apply read_token_waiting).
  change (top (at_ (v :: st) (-1) l out)) with (yys v). change (top (at_ (v :: st) c l' out')) with (yys v).
  destruct (entry FilterPact (yys v) <=? FilterFlag)%Z eqn:Hp; simpl in Hn.
  - unfold default_turn. change (top (at_ (v :: st) (-1) l out)) with (yys v).
    change (top (at_ (v :: st) c l' out')) with (yys v). by rewrite Hn, Hr, Hr'.
  - by rewrite Hr, Hr'.
Qed.

Lemma turn_simple v st l out n :
  needs_token (yys v) = false → table_action (yys v) 0 = Reduce n →
  parse_turn (at_ (v :: st) (-1) l out) = Next (reduce n (at_ (v :: st) (-1) l out)).
Proof.
  intros Hn Ha. unfold needs_token in Hn. apply orb_false_iff in Hn as [Hp%negb_false_iff Hd].
  unfold table_action, default_act in Ha. rewrite Hp, Hd in Ha.
  unfold parse_turn. change (top (at_ (v :: st) (-1) l out)) with (yys v). rewrite Hp.
  unfold default_turn. change (top (at_ (v :: st) (-1) l out)) with (yys v). rewrite Hd.
  unfold production_act in Ha. case_match; by simplify_eq.
Qed.

Lemma reaches_shift X v st l out c l' out' a :
  reaches X (v :: st) l out c l' out' → needs_token (yys v) = true →
  table_action (yys v) (translate c) = Shift a →
  leads X (at_ (set_yys a out' :: v :: st) (-1) l' out').
Proof.
  intros (HL & Hc & HX) Hn Ha.
  assert (leads X (at_ (v :: st) c l' out')) as HX'.
  { destruct HX as [HX|HX]; [|done]. eapply leads_same; [exact HX|]. by apply turn_reads. }
  eapply leads_next; [exact HX'|]. rewrite turn_waiting, Ha by done. done.
Qed.

(** A reduction that does not touch the lexer. *)
Definition reduced (n : Z) (st : list Sym) : list Sym :=
  let k := Z.to_nat (entry FilterR2 n) in
  let rhs := reverse (take k st) in
  let rest := drop k st in
  let val := (semantic (Z.to_nat n) (λ i, nth (i - 1) rhs zero_sym) (nth 0 rhs zero_sym) (newLexer "" [])).1 in
  set_yys (goto_state (entry FilterR1 n) (match rest with v :: _ => yys v | [] => -1 end)%Z) val :: rest.

Lemma semantic_pure n d val l :
  3 ≤ n → semantic n d val l = ((semantic n d val (newLexer "" [])).1, l).
Proof. intros Hn. do 36 try (destruct n as [|n]); try lia; done. Qed.

Lemma reduce_at n st c l out :
  (3 <= n)%Z → reduce n (at_ st c l out) = at_ (reduced n st) c l out.
Proof.
  intros Hn. unfold reduce, at_, reduced. simpl. rewrite (semantic_pure (Z.to_nat n)) by lia. done.
Qed.

Lemma reaches_reduce X v st l out c l' out' n :
  reaches X (v :: st) l out c l' out' → (3 <= n)%Z →
  table_action (yys v) (translate c) = Reduce n →
  (needs_token (yys v) = true ∨ table_action (yys v) 0 = Reduce n) →
  reaches X (reduced n (v :: st)) l out c l' out'.
Proof.
  intros (HL & Hc & HX) Hn Ha Hs. split_and!; [done..|].
  assert (leads X (at_ (v :: st) c l' out') → leads X (at_ (reduced n (v :: st)) c l' out')) as Hwait.
  { intros HX'. eapply leads_next; [exact HX'|]. rewrite turn_waiting, Ha by done. simpl. by rewrite reduce_at. }
  destruct HX as [HX|HX]; [|by right; apply Hwait].
  destruct (needs_token (yys v)) eqn:Hneed.
  - right. apply Hwait. eapply leads_same; [exact HX|]. by apply turn_reads.
  - left. destruct Hs as [|Hs]; [done|]. eapply leads_next; [exact HX|].
    rewrite (turn_simple _ _ _ _ n) by done. by rewrite reduce_at.
Qed.

Lemma simple_action s t : needs_token s = false → table_action s t = table_action s 0.
Proof.
  intros Hn. unfold needs_token in Hn. apply orb_false_iff in Hn as [Hp%negb_false_iff Hd].
  unfold table_action, default_act. by rewrite Hp, Hd.
Qed.

(** A reduction in a state that needs no token. *)
Lemma reaches_simple X v st l out c l' out' n :
  reaches X (v :: st) l out c l' out' → (3 <= n)%Z → needs_token (yys v) = false →
  table_action (yys v) 0 = Reduce n → reaches X (reduced n (v :: st)) l out c l' out'.
Proof. intros HX Hn Hs Ha. eapply reaches_reduce; [done..|by rewrite simple_action|by right]. Qed.

(** ** Operands *)

(** The states in which an expression, and in which the right operand of a comparison,
    begins. *)
Definition expr_states : list Z := [2; 6; 7; 21; 22]%Z.
Definition right_states : list Z := [25; 26; 45]%Z.

(** The tokens that follow the left operand. *)
Definition operator_codes : list Z := [61; 60; 62; LE; GE; NE; LIKE; NOT; IS]%Z.

(** The token of an operand has been shifted. *)
Lemma operand_shifted e X v st l out l1 out1 c l2 out2 :
  operand e = true → yys v ∈ expr_states ++ right_states →
  reaches X (v :: st) l out (tok_code (operand_tok e)) l1 out1 →
  Lex l1 out1 = Some (l2, out2, c) → (0 <= c)%Z →
  ∃ a, reaches X (set_yys a out1 :: v :: st) l1 out1 c l2 out2 ∧
    a = match e with BoolVal true => 10 | BoolVal false => 11 | StringVal _ => 13 | IntVal _ => 14
        | FloatVal _ => 15 | JSONPathVal _ _ => 16 | _ => 17 end%Z.
Proof.
  intros He Hs HX HL1 Hc. eexists. split; [|reflexivity].
  split_and!; [done..|left]. eapply reaches_shift; [exact HX| |].
  - clear -Hs. generalize dependent (yys v). intros s Hs. each_elem Hs; done.
  - clear -Hs He. generalize dependent (yys v). intros s Hs.
    destruct e as [| | | | |[]| | | | |]; try done; each_elem Hs; done.
Qed.

Lemma literal_value e X v st l1 out1 c l2 out2 a :
  operand e = true → (∀ b, e ≠ BoolVal b) → carries (operand_tok e) out1 →
  reaches X (set_yys a out1 :: v :: st) l1 out1 c l2 out2 →
  a = match e with StringVal _ => 13 | IntVal _ => 14
      | FloatVal _ => 15 | JSONPathVal _ _ => 16 | _ => 17 end%Z →
  ∃ v', yys v' = goto_state 4 (yys v) ∧ expr v' = Some e ∧ reaches X (v' :: v :: st) l1 out1 c l2 out2.
Proof.
  intros He Hb Hc HX ->. destruct e; try done; try (by exfalso; eapply Hb); simpl in *.
  - eapply (reaches_simple _ _ _ _ _ _ _ _ 22) in HX; [|done..].
    eexists. split; [|split; [|exact HX]]; [done|]. simpl. by rewrite Hc.
  - eapply (reaches_simple _ _ _ _ _ _ _ _ 23) in HX; [|done..].
    eexists. split; [|split; [|exact HX]]; [done|]. simpl. by rewrite Hc.
  - eapply (reaches_simple _ _ _ _ _ _ _ _ 24) in HX; [|done..].
    eexists. split; [|split; [|exact HX]]; [done|]. simpl. by rewrite Hc.
  - eapply (reaches_simple _ _ _ _ _ _ _ _ 26) in HX; [|done..].
    eexists. split; [|split; [|exact HX]]; done.
  - eapply (reaches_simple _ _ _ _ _ _ _ _ 25) in HX; [|done..].
    eexists. split; [|split; [|exact HX]]; [done|]. simpl. unfold the_path. simpl. by rewrite Hc.
Qed.

(** Facts about the tables for the states an operand can begin in. *)
Lemma operand_gotos s :
  s ∈ expr_states ++ right_states →
  goto_state 4 s = 12%Z ∧
  (goto_state 6 s = 8%Z ∧ goto_state 5 s = 9%Z ∧ s ∈ expr_states ∨
   goto_state 6 s = 43%Z ∧ s ∈ right_states).
Proof.
  intros Hs. each_elem Hs; (split; [done|]); (left; split_and!; [done..|set_solver]) || (right; split; [done|set_solver]).
Qed.

Lemma operand_value e X v st l out l1 out1 c l2 out2 :
  operand e = true → yys v ∈ expr_states ++ right_states →
  reaches X (v :: st) l out (tok_code (operand_tok e)) l1 out1 → carries (operand_tok e) out1 →
  Lex l1 out1 = Some (l2, out2, c) → (0 <= c)%Z → (yys v ∈ expr_states → c ∈ operator_codes) →
  ∃ v', yys v' = goto_state 5 (yys v) ∧ expr v' = Some e ∧ reaches X (v' :: v :: st) l1 out1 c l2 out2.
Proof.
  intros He Hs HX Hcar HL1 Hc Hop.
  destruct (operand_shifted _ _ _ _ _ _ _ _ _ _ _ He Hs HX HL1 Hc) as (a & HR & Ha).
  destruct (operand_gotos _ Hs) as [H4 H56].
  destruct e as [| | | | |b| | | | |]; try done.
  2-6: destruct (literal_value _ _ _ _ _ _ _ _ _ _ He ltac:(done) Hcar HR Ha) as (w & Hw & Hx & HR2);
    rewrite H4 in Hw;
    eapply (reaches_simple _ _ _ _ _ _ _ _ 14) in HR2; [|done|by rewrite Hw..];
    (eexists; split; [|split; [|exact HR2]]); [done|simpl; unfold the_expr; by rewrite Hx].
  assert (∃ w, yys w = goto_state 6 (yys v) ∧ boolVal w = b ∧ reaches X (w :: v :: st) l1 out1 c l2 out2)
    as (w & Hw & Hb & HR2).
  { destruct b; subst a.
    - eapply (reaches_simple _ _ _ _ _ _ _ _ 27) in HR; [|done..]. eexists. split; [|split; [|exact HR]]; done.
    - eapply (reaches_simple _ _ _ _ _ _ _ _ 28) in HR; [|done..]. eexists. split; [|split; [|exact HR]]; done. }
  assert (reaches X (reduced 15 (w :: v :: st)) l1 out1 c l2 out2) as HR3.
  { destruct H56 as [(H6 & _ & Hs')|(H6 & _)]; rewrite H6 in Hw.
    - eapply reaches_reduce; [done..| |left; by rewrite Hw]. rewrite Hw. specialize (Hop Hs').
      clear -Hop. each_elem Hop; done.
    - eapply reaches_simple; [done..|by rewrite Hw|by rewrite Hw]. }
  eexists. split; [|split; [|exact HR3]]; [done|]. simpl. by rewrite Hb.
Qed.

(** ** Conditions *)

Lemma operator_first op l out ts l' out' :
  op ∈ operators → lexes l out (operator_toks op ++ ts) l' out' →
  ∃ l1 out1 c, Lex l out = Some (l1, out1, c) ∧ (0 <= c)%Z ∧ c ∈ operator_codes.
Proof.
  intros Hop Hl. each_elem Hop; inversion Hl; subst; eexists _, _, _;
    (split_and!; [eassumption|done|unfold operator_codes; simpl; set_solver]).
Qed.

(** A token that is shifted. *)
Lemma lexes_shift X v st l out c0 l0 out0 t ts l' out' a c l2 out2 :
  reaches X (v :: st) l out c0 l0 out0 → lexes l out (t :: ts) l' out' →
  Lex l' out' = Some (l2, out2, c) → (0 <= c)%Z → needs_token (yys v) = true →
  table_action (yys v) (translate (tok_code t)) = Shift a →
  ∃ l1 out1 c1 l3 out3, lexes l1 out1 ts l' out' ∧ carries t out1 ∧
    leads X (at_ (set_yys a out1 :: v :: st) (-1) l1 out1) ∧
    reaches X (set_yys a out1 :: v :: st) l1 out1 c1 l3 out3.
Proof.
  intros HR Hl HL Hc Hn Ha. inversion Hl as [|? ? ? l1 out1 ? ? ? HL0 ? ? Hl']; subst.
  destruct HR as (HL0' & Hc0 & HR). rewrite HL0 in HL0'. simplify_eq.
  assert (leads X (at_ (set_yys a out0 :: v :: st) (-1) l0 out0)) as HX
    by (eapply reaches_shift; [split_and!; [exact HL0|done|exact HR]|done..]).
  inversion Hl' as [|? ? ? l3 out3 ? ? ? HL1 ? ?]; subst.
  - eexists _, _, c, l2, out2. split_and!; [done..|]. split_and!; [done..|by left].
  - eexists _, _, _, l3, out3. split_and!; [done..|]. split_and!; [done|lia|by left].
Qed.

(** The operator of a comparison is read: the parser waits for the right operand. *)
Lemma operator_reaches op X w st l out l1 out1 ts c l2 out2 c0 l0 out0 :
  op ∈ operators → yys w = 9%Z → lexes l out (operator_toks op ++ ts) l1 out1 →
  Lex l1 out1 = Some (l2, out2, c) → (0 <= c)%Z →
  reaches X (w :: st) l out c0 l0 out0 →
  ∃ st' l' out' c1 l3 out3, lexes l' out' ts l1 out1 ∧ reaches X (st' ++ w :: st) l' out' c1 l3 out3 ∧
    match st' with
    | [v] => yys v = 25%Z ∧ str v = op ∨ yys v = 26%Z ∧ op = LikeStr
    | [v; _] => yys v = 45%Z ∧ op = NotLikeStr
    | _ => False
    end.
Proof.
  intros Hop Hw Hl HL Hc HR.
  assert (∀ t a n, operator_toks op = [TokSym t] → table_action 9 (translate t) = Shift a →
    needs_token a = false → table_action a 0 = Reduce n → (3 <= n)%Z →
    entry FilterR2 n = 1%Z → entry FilterR1 n = 3%Z →
    (∀ d val, str (semantic (JP := JP) (Z.to_nat n) d val (newLexer "" [])).1 = op) →
    ∃ v l' out' c1 l3 out3, lexes l' out' ts l1 out1 ∧ reaches X (v :: w :: st) l' out' c1 l3 out3 ∧
      yys v = 25%Z ∧ str v = op) as Hone.
  { intros t a n Ht Ha Hn Hr Hn3 H2 H1 Hsem. rewrite Ht in Hl. simpl in Hl.
    edestruct (lexes_shift _ _ _ _ _ _ _ _ _ _ _ _ a _ _ _ HR Hl HL Hc)
      as (l' & out' & c1 & l3 & out3 & Hl' & _ & _ & HR'); [by rewrite Hw..|].
    eapply (reaches_simple _ _ _ _ _ _ _ _ n) in HR'; [|done..].
    unfold reduced in HR'. rewrite H2, H1 in HR'. simpl in HR'. rewrite Hw in HR'.
    eexists _, _, _, _, _, _. split_and!; [exact Hl'|exact HR'|done|]. simpl. apply Hsem. }
  each_elem Hop.
  1-6: edestruct Hone as (v & l' & out' & c1 & l3 & out3 & Hl' & HR' & Hv);
    [reflexivity..|done|reflexivity|reflexivity|done|]; exists [v]; eexists _, _, _, _, _; split_and!; [exact Hl'|exact HR'|by left].
  - edestruct lexes_shift as (l' & out' & c1 & l3 & out3 & Hl' & _ & _ & HR');
      [exact HR|exact Hl|exact HL|done|by rewrite Hw..|].
    exists [set_yys 26 out']. eexists _, _, _, _, _. split_and!; [exact Hl'|exact HR'|by right].
  - edestruct lexes_shift as (l' & out' & c1 & l3 & out3 & Hl' & _ & _ & HR');
      [exact HR|exact Hl|exact HL|done|by rewrite Hw..|].
    edestruct lexes_shift as (l4 & out4 & c4 & l5 & out5 & Hl4 & _ & _ & HR4);
      [exact HR'|exact Hl'|exact HL|done|done..|].
    exists [set_yys 45 out4; set_yys 27 out']. eexists _, _, _, _, _. split_and!; [exact Hl4|exact HR4|done..].
Qed.

(** A condition is an expression. *)
Lemma condition_expr X w v st l out c l' out' e :
  yys v ∈ expr_states → yys w = goto_state 2 (yys v) → expr w = Some e →
  reaches X (w :: v :: st) l out c l' out' →
  ∃ v', yys v' = goto_state 1 (yys v) ∧ expr v' = Some e ∧ reaches X (v' :: v :: st) l out c l' out'.
Proof.
  intros Hs Hw He HR.
  assert (goto_state 2 (yys v) = 5%Z) as H5.
  { clear -Hs. generalize dependent (yys v). intros s Hs. each_elem Hs; done. }
  rewrite H5 in Hw. eapply (reaches_simple _ _ _ _ _ _ _ _ 3) in HR; [|done|by rewrite Hw..].
  eexists. split_and!; [| |exact HR]; [done|]. simpl. unfold the_expr. by rewrite He.
Qed.

(** The left operand of a condition. *)
Lemma left_operand a X v st l out l1 out1 ts c l2 out2 :
  yys v ∈ expr_states → operand a = true → leads X (at_ (v :: st) (-1) l out) →
  lexes l out (operand_tok a :: ts) l1 out1 → Lex l1 out1 = Some (l2, out2, c) → (0 <= c)%Z →
  (∀ l' out', lexes l' out' ts l1 out1 →
    ∃ l3 out3 c3, Lex l' out' = Some (l3, out3, c3) ∧ (0 <= c3)%Z ∧ c3 ∈ operator_codes) →
  ∃ w l' out' c1 l3 out3, lexes l' out' ts l1 out1 ∧ yys w = 9%Z ∧ expr w = Some a ∧
    reaches X (w :: v :: st) l' out' c1 l3 out3.
Proof.
  intros Hs Ha HX Hl HL Hc Hnext. inversion Hl as [|? ? ? l' out' ? ? ? HL0 Hp Hcar Hl']; subst.
  destruct (Hnext _ _ Hl') as (l3 & out3 & c3 & HL3 & Hc3 & Hop).
  destruct (operand_value a X v st l out l' out' c3 l3 out3) as (w & Hw & He & HR); try done.
  - apply elem_of_app. by left.
  - split_and!; [done|lia|by left].
  - eexists w, l', out', c3, l3, out3. split_and!; [done| |done..]. rewrite Hw.
    clear -Hs. generalize dependent (yys v). intros s Hs. each_elem Hs; done.
Qed.

Lemma comparison_reaches op a b X v st l out l1 out1 c l2 out2 :
  yys v ∈ expr_states → op ∈ operators → operand a = true → operand b = true →
  leads X (at_ (v :: st) (-1) l out) →
  lexes l out (operand_tok a :: operator_toks op ++ [operand_tok b]) l1 out1 →
  Lex l1 out1 = Some (l2, out2, c) → (0 <= c)%Z →
  ∃ v', yys v' = goto_state 1 (yys v) ∧ expr v' = Some (ComparisonExpr op a b) ∧
    reaches X (v' :: v :: st) l1 out1 c l2 out2.
Proof.
  intros Hs Hop Ha Hb HX Hl HL Hc.
  edestruct left_operand as (w & l' & out' & c1 & l3 & out3 & Hl' & Hw & He & HR);
    [exact Hs|exact Ha|exact HX|exact Hl|exact HL|done| |].
  { intros ? ? Hl'. by eapply operator_first. }
  edestruct operator_reaches as (st' & l4 & out4 & c4 & l5 & out5 & Hl4 & HR4 & Hst');
    [exact Hop|exact Hw|exact Hl'|exact HL|done|exact HR|].
  assert (∃ u rest, st' = u :: rest ∧ yys u ∈ right_states) as (u & rest & -> & Hu).
  { destruct st' as [|u [|? []]]; try done; eexists _, _; (split; [done|]); unfold right_states;
      destruct Hst' as [[-> _]|[-> _]] || destruct Hst' as [-> _]; set_solver. }
  simpl in HR4. inversion Hl4 as [|? ? ? l6 out6 ? ? ? HL4 Hp Hcar Hl6]; subst. inversion Hl6; subst.
  assert (reaches X (u :: rest ++ w :: v :: st) l4 out4 (tok_code (operand_tok b)) l1 out1) as HR5.
  { destruct HR4 as (HL4' & ? & ?). rewrite HL4 in HL4'. by simplify_eq. }
  edestruct (operand_value b) as (z & Hz & Hze & HR6); [done| |exact HR5|done|exact HL|done| |].
  { apply elem_of_app. by right. }
  { intros Hu'. exfalso. clear -Hu Hu'. generalize dependent (yys u). intros s Hu Hu'.
    each_elem Hu; by vm_compute in Hu'; repeat (apply elem_of_cons in Hu' as [?|Hu']); try apply elem_of_nil in Hu'. }
  destruct rest as [|u' [|]]; [| |done]; simpl in HR6.
  - destruct Hst' as [[Hu1 Hstr]|[Hu1 ->]]; rewrite Hu1 in Hz.
    + eapply (reaches_simple _ _ _ _ _ _ _ _ 9) in HR6; [|done|by rewrite Hz..].
      eapply condition_expr; [done| | |exact HR6]; [done|]. simpl. unfold the_expr. by rewrite He, Hze, Hstr.
    + eapply (reaches_simple _ _ _ _ _ _ _ _ 10) in HR6; [|done|by rewrite Hz..].
      eapply condition_expr; [done| | |exact HR6]; [done|]. simpl. unfold the_expr. by rewrite He, Hze.
  - destruct Hst' as [Hu1 ->]; rewrite Hu1 in Hz.
    eapply (reaches_simple _ _ _ _ _ _ _ _ 11) in HR6; [|done|by rewrite Hz..].
    eapply condition_expr; [done| | |exact HR6]; [done|]. simpl. unfold the_expr. by rewrite He, Hze.
Qed.

Lemma is_null_reaches op a X v st l out l1 out1 c l2 out2 :
  yys v ∈ expr_states → (op = IsNull ∨ op = IsNotNull) → operand a = true →
  leads X (at_ (v :: st) (-1) l out) →
  lexes l out (operand_tok a :: TokSym IS :: (if decide (op = IsNull) then [] else [TokSym NOT]) ++ [TokSym NULL]) l1 out1 →
  Lex l1 out1 = Some (l2, out2, c) → (0 <= c)%Z →
  ∃ v', yys v' = goto_state 1 (yys v) ∧ expr v' = Some (IsNullExpr op a) ∧
    reaches X (v' :: v :: st) l1 out1 c l2 out2.
Proof.
  intros Hs Hop Ha HX Hl HL Hc.
  edestruct left_operand as (w & l' & out' & c1 & l3 & out3 & Hl' & Hw & He & HR);
    [exact Hs|exact Ha|exact HX|exact Hl|exact HL|done| |].
  { intros ? ? Hl'. inversion Hl'; subst. eexists _, _, _. split_and!; [eassumption|done|]. unfold operator_codes. simpl. set_solver. }
  edestruct lexes_shift as (l4 & out4 & c4 & l5 & out5 & Hl4 & _ & _ & HR4);
    [exact HR|exact Hl'|exact HL|done|by rewrite Hw..|].
  destruct Hop as [-> | ->]; simpl in Hl4.
  - edestruct lexes_shift as (l6 & out6 & c6 & l7 & out7 & Hl6 & _ & HX6 & _);
      [exact HR4|exact Hl4|exact HL|done|done..|].
    inversion Hl6; subst. assert (reaches X (set_yys 46 out1 :: set_yys 28 out4 :: w :: v :: st) l1 out1 c l2 out2) as HR6.
    { split_and!; [done..|by left]. }
    eapply (reaches_simple _ _ _ _ _ _ _ _ 12) in HR6; [|done..].
    eapply condition_expr; [done| | |exact HR6]; [done|]. simpl. unfold the_expr. by rewrite He.
  - edestruct lexes_shift as (l6 & out6 & c6 & l7 & out7 & Hl6 & _ & _ & HR6);
      [exact HR4|exact Hl4|exact HL|done|done..|].
    edestruct lexes_shift as (l8 & out8 & c8 & l9 & out9 & Hl8 & _ & HX8 & _);
      [exact HR6|exact Hl6|exact HL|done|done..|].
    inversion Hl8; subst.
    assert (reaches X (set_yys 50 out1 :: set_yys 47 out6 :: set_yys 28 out4 :: w :: v :: st) l1 out1 c l2 out2) as HR8.
    { split_and!; [done..|by left]. }
    eapply (reaches_simple _ _ _ _ _ _ _ _ 13) in HR8; [|done..].
    eapply condition_expr; [done| | |exact HR8]; [done|]. simpl. unfold the_expr. by rewrite He.
Qed.

(** ** Expressions *)

(** The states in which an expression of a precedence can begin without parentheses, and
    the tokens that can follow it. *)
Definition starts (s : Z) (lvl : nat) : Prop :=
  s ∈ [2; 6]%Z ∨ s = 22%Z ∧ 1 ≤ lvl ∨ s ∈ [7; 21]%Z ∧ 2 ≤ lvl.
Definition follows (c : Z) (lvl : nat) : Prop :=
  c ∈ [AND; OR; 41; 0]%Z ∧ (lvl = 0 → c ≠ AND).

Lemma starts_expr s lvl : starts s lvl → s ∈ expr_states.
Proof. unfold starts, expr_states. set_solver. Qed.

Lemma starts_le s lvl lvl' : starts s lvl → lvl ≤ lvl' → starts s lvl'.
Proof. unfold starts. intros [?|[[? ?]|[? ?]]] ?; [by left|right; left|right; right]; (split; [done|lia]). Qed.

Lemma follows_nonneg c lvl : follows c lvl → (0 <= c)%Z.
Proof. intros [Hc _]. each_elem Hc; done. Qed.

(** The parser turns the tokens into the expression. *)
Definition parses (ts : list Tok) e (lvl : nat) : Prop :=
  ∀ X v st l out l1 out1 c l2 out2,
    starts (yys v) lvl → leads X (at_ (v :: st) (-1) l out) → lexes l out ts l1 out1 →
    Lex l1 out1 = Some (l2, out2, c) → follows c lvl →
    ∃ v', yys v' = goto_state 1 (yys v) ∧ expr v' = Some e ∧ reaches X (v' :: v :: st) l1 out1 c l2 out2.

Lemma toks_unfold lvl e :
  toks lvl e = if decide (prec e < lvl) then TokSym 40 :: toks 0 e ++ [TokSym 41] else toks 0 e.
Proof. destruct e; done. Qed.

(** From [(]: the expression within, then [)]. *)
Lemma paren_parses e lvl : parses (toks 0 e) e (prec e) → parses (TokSym 40 :: toks 0 e ++ [TokSym 41]) e lvl.
Proof.
  intros IH X v st l out l1 out1 c l2 out2 Hs HX Hl HL Hf.
  pose proof (follows_nonneg _ _ Hf) as Hc. apply starts_expr in Hs.
  inversion Hl as [|? ? ? l0 out0 ? ? ? HL0 Hp _ Hl']; subst.
  edestruct (lexes_shift X v st) as (l3 & out3 & c3 & l4 & out4 & Hl3 & _ & HX3 & _);
    [split_and!; [exact HL0|done|by left]|exact Hl|exact HL|done| | |].
  1-2: clear -Hs; generalize dependent (yys v); intros s Hs; each_elem Hs; done.
  apply lexes_app in Hl3 as (l5 & out5 & Hl5 & Hl6).
  inversion Hl6 as [|? ? ? l7 out7 ? ? ? HL5 Hp5 _ Hl7]; subst. inversion Hl7; subst.
  edestruct IH as (w & Hw & He & HR); [|exact HX3|exact Hl5|exact HL5| |].
  { left. simpl. set_solver. }
  { split; [simpl; set_solver|done]. }
  assert (yys w = 23%Z) as Hw' by (rewrite Hw; done).
  edestruct lexes_shift as (l8 & out8 & c8 & l9 & out9 & Hl8 & _ & HX8 & _);
    [exact HR|exact Hl6|exact HL|done|by rewrite Hw'..|].
  inversion Hl8; subst.
  assert (reaches X (set_yys 41 out1 :: w :: set_yys 6 out3 :: v :: st) l1 out1 c l2 out2) as HR8
    by (split_and!; [done..|by left]).
  eapply (reaches_simple _ _ _ _ _ _ _ _ 4) in HR8; [|done..].
  eexists. split_and!; [| |exact HR8]; [done|]. simpl. unfold the_expr. by rewrite He.
Qed.

Lemma toks_parses e lvl : parses (toks 0 e) e (prec e) → parses (toks lvl e) e lvl.
Proof.
  intros IH. rewrite toks_unfold. destruct (decide (prec e < lvl)); [by apply paren_parses|].
  intros X v st l out l1 out1 c l2 out2 Hs HX Hl HL [Hf Ha].
  eapply IH; [by apply (starts_le _ lvl); [|lia]|done..|]. split; [done|]. intros. apply Ha. lia.
Qed.

Lemma bool_parses (b : bool) : parses [TokSym (if b then TRUE else FALSE)] (BoolVal b) 2.
Proof.
  intros X v st l out l1 out1 c l2 out2 Hs HX Hl HL Hf.
  pose proof (follows_nonneg _ _ Hf) as Hc. apply starts_expr in Hs.
  inversion Hl as [|? ? ? l0 out0 ? ? ? HL0 Hp _ Hl']; subst. inversion Hl'; subst.
  edestruct (operand_shifted (BoolVal b)) as (a & HR & Ha); [done| | |exact HL|done|].
  { apply elem_of_app. by left. }
  { split_and!; [exact HL0|by destruct b|left; exact HX]. }
  destruct Hf as [Hf _].
  assert (∃ w, yys w = 8%Z ∧ boolVal w = b ∧ reaches X (w :: v :: st) l1 out1 c l2 out2) as (w & Hw & Hb & HR2).
  { assert (goto_state 6 (yys v) = 8%Z) as H8.
    { clear -Hs. generalize dependent (yys v). intros s Hs. each_elem Hs; done. }
    destruct b; subst a.
    - eapply (reaches_simple _ _ _ _ _ _ _ _ 27) in HR; [|done..]. eexists. split; [|split; [|exact HR]]; done.
    - eapply (reaches_simple _ _ _ _ _ _ _ _ 28) in HR; [|done..]. eexists. split; [|split; [|exact HR]]; done. }
  eapply (reaches_reduce _ _ _ _ _ _ _ _ 8) in HR2; [|done| |left; by rewrite Hw].
  - eexists. split; [|split; [|exact HR2]]; [done|]. simpl. by rewrite Hb.
  - rewrite Hw. clear -Hf. each_elem Hf; done.
Qed.

(** [NOT] and its operand. *)
Lemma not_parses e : parses (toks 2 e) e 2 → parses (TokSym NOT :: toks 2 e) (NotExpr e) 2.
Proof.
  intros IH X v st l out l1 out1 c l2 out2 Hs HX Hl HL Hf.
  pose proof (follows_nonneg _ _ Hf) as Hc. apply starts_expr in Hs.
  inversion Hl as [|? ? ? l0 out0 ? ? ? HL0 Hp _ Hl']; subst.
  edestruct (lexes_shift X v st) as (l3 & out3 & c3 & l4 & out4 & Hl3 & _ & HX3 & _);
    [split_and!; [exact HL0|done|by left]|exact Hl|exact HL|done| | |].
  1-2: clear -Hs; generalize dependent (yys v); intros s Hs; each_elem Hs; done.
  edestruct IH as (w & Hw & He & HR); [|exact HX3|exact Hl3|exact HL|done|].
  { right. right. simpl. split; [set_solver|lia]. }
  assert (yys w = 24%Z) as Hw' by (rewrite Hw; done).
  eapply (reaches_simple _ _ _ _ _ _ _ _ 7) in HR; [|done|by rewrite Hw'..].
  eexists. split_and!; [| |exact HR]; [done|]. simpl. unfold the_expr. by rewrite He.
Qed.

(** A left operand, the operator [t] and the right operand. *)
Lemma binary_shift ts1 ts2 e1 t lvl X v st l out l1 out1 c l2 out2 :
  parses ts1 e1 lvl → starts (yys v) lvl → leads X (at_ (v :: st) (-1) l out) →
  lexes l out (ts1 ++ TokSym t :: ts2) l1 out1 → Lex l1 out1 = Some (l2, out2, c) → (0 <= c)%Z →
  follows t lvl → 
  ∃ w l' out', yys w = goto_state 1 (yys v) ∧ expr w = Some e1 ∧ lexes l' out' ts2 l1 out1 ∧
    ∀ a, needs_token (yys w) = true → table_action (yys w) (translate t) = Shift a →
      leads X (at_ (set_yys a out' :: w :: v :: st) (-1) l' out').
Proof.
  intros IH Hs HX Hl HL Hc Hf. apply lexes_app in Hl as (l3 & out3 & Hl3 & Hl4).
  inversion Hl4 as [|? ? ? l0 out0 ? ? ? HL0 Hp _ Hl']; subst.
  edestruct IH as (w & Hw & He & HR); [exact Hs|exact HX|exact Hl3|exact HL0|exact Hf|].
  exists w, l0, out0. split_and!; [done..|]. intros a Hn Ha. by eapply reaches_shift.
Qed.

Lemma and_parses e1 e2 :
  parses (toks 1 e1) e1 1 → parses (toks 2 e2) e2 2 →
  parses (toks 1 e1 ++ TokSym AND :: toks 2 e2) (AndExpr e1 e2) 1.
Proof.
  intros IH1 IH2 X v st l out l1 out1 c l2 out2 Hs HX Hl HL Hf.
  pose proof (follows_nonneg _ _ Hf) as Hc.
  edestruct binary_shift as (w & l' & out' & Hw & He & Hl' & Hsh);
    [exact IH1|exact Hs|exact HX|exact Hl|exact HL|done|split; [set_solver|done]|].
  assert (yys w ∈ [4; 23; 40]%Z) as Hs4.
  { rewrite Hw. clear -Hs. generalize dependent (yys v). intros s [Hs|[[-> _]|[_ ?]]]; [each_elem Hs| |lia];
      vm_compute; set_solver. }
  edestruct IH2 as (u & Hu & He2 & HR); [|apply (Hsh 21%Z)|exact Hl'|exact HL| |].
  { right. right. simpl. split; [set_solver|lia]. }
  1-2: clear -Hs4; generalize dependent (yys w); intros s Hs; each_elem Hs; done.
  { split; [apply Hf|done]. }
  assert (yys u = 39%Z) as Hu' by (rewrite Hu; done).
  eapply (reaches_simple _ _ _ _ _ _ _ _ 5) in HR; [|done|by rewrite Hu'..].
  eexists. split_and!; [| |exact HR]; [done|]. simpl. unfold the_expr. by rewrite He, He2.
Qed.

Lemma or_parses e1 e2 :
  parses (toks 0 e1) e1 0 → parses (toks 1 e2) e2 1 →
  parses (toks 0 e1 ++ TokSym OR :: toks 1 e2) (OrExpr e1 e2) 0.
Proof.
  intros IH1 IH2 X v st l out l1 out1 c l2 out2 Hs HX Hl HL Hf.
  pose proof (follows_nonneg _ _ Hf) as Hc.
  edestruct binary_shift as (w & l' & out' & Hw & He & Hl' & Hsh);
    [exact IH1|exact Hs|exact HX|exact Hl|exact HL|done|split; [set_solver|done]|].
  assert (yys w ∈ [4; 23]%Z) as Hs4.
  { rewrite Hw. clear -Hs. generalize dependent (yys v). intros s [Hs|[[_ ?]|[_ ?]]]; [each_elem Hs|lia|lia];
      vm_compute; set_solver. }
  edestruct IH2 as (u & Hu & He2 & HR); [|apply (Hsh 22%Z)|exact Hl'|exact HL| |].
  { right. left. simpl. split; [done|lia]. }
  1-2: clear -Hs4; generalize dependent (yys w); intros s Hs; each_elem Hs; done.
  { split; [apply Hf|done]. }
  assert (yys u = 40%Z) as Hu' by (rewrite Hu; done).
  eapply (reaches_reduce _ _ _ _ _ _ _ _ 6) in HR; [|done| |left; by rewrite Hu'].
  - eexists. split_and!; [| |exact HR]; [done|]. simpl. unfold the_expr. by rewrite He, He2.
  - rewrite Hu'. destruct Hf as [Hf Hand]. specialize (Hand eq_refl). clear -Hf Hand. each_elem Hf; done.
Qed.

(** Every expression is parsed from its tokens. *)
Lemma expr_parses e : writable e → parses (toks 0 e) e (prec e).
Proof.
  induction e as [a IHa b IHb|a IHa b IHb|a IHa|op a IHa|op a IHa b IHb|b| | | | |]; intros Hw; try done; simpl in Hw.
  - apply and_parses; apply toks_parses; tauto.
  - apply or_parses; apply toks_parses; tauto.
  - apply not_parses, toks_parses; tauto.
  - intros X v st l out l1 out1 c l2 out2 Hs HX Hl HL Hf. destruct Hw as (Hop & Ha).
    eapply is_null_reaches; try done; [by eapply starts_expr|by eapply follows_nonneg].
  - intros X v st l out l1 out1 c l2 out2 Hs HX Hl HL Hf. destruct Hw as (Hop & Ha & Hb).
    eapply comparison_reaches; try done; [by eapply starts_expr|by eapply follows_nonneg].
  - apply bool_parses.
Qed.

(** ** The whole parse *)

Lemma parse_loop_agree n m (ps : parser JP) r r' :
  parse_loop n ps = Some r → parse_loop m ps = Some r' → r = r'.
Proof.
  revert m ps. induction n as [|n IH]; intros [|m] ps; simpl; try done.
  destruct (parse_turn ps); [by apply IH|congruence..].
Qed.

(** The parser returns the expression whose tokens the lexer returns. *)
Lemma tokens_parse s e l1 out1 l2 out2 :
  writable e →
  lexes (newLexer s [START_EXPRESSION]) zero_sym (TokSym START_EXPRESSION :: toks 0 e) l1 out1 →
  Lex l1 out1 = Some (l2, out2, 0%Z) →
  ParseFilterExpression s = Some (Ok (Some e, lex_e l2)).
Proof.
  intros He Hl HL. set (l0 := newLexer (JP := JP) s [START_EXPRESSION]) in *.
  set (X := new_parser l0).
  assert (leads X (at_ [zero_sym] (-1) l0 zero_sym)) as HX by apply leads_refl.
  inversion Hl as [|? ? ? l3 out3 ? ? ? HL0 Hp _ Hl']; subst.
  edestruct (lexes_shift X zero_sym []) as (l4 & out4 & c4 & l5 & out5 & Hl4 & _ & HX4 & _);
    [split_and!; [exact HL0|done|by left]|exact Hl|exact HL|done..|].
  edestruct (expr_parses e He) as (v & Hv & Hx & HR); [|exact HX4|exact Hl4|exact HL| |].
  { left. simpl. set_solver. }
  { split; [simpl; set_solver|done]. }
  assert (yys v = 4%Z) as Hv4 by (rewrite Hv; done).
  assert (leads X (at_ (v :: set_yys 2 out4 :: [zero_sym]) 0 l2 out2)) as HX5.
  { destruct HR as (_ & _ & [HX5|HX5]); [|done]. eapply leads_same; [exact HX5|].
    apply turn_reads; [by rewrite Hv4|done..]. }
  assert (final X (Return 0 (setExpressionTree (Some e) l2))) as [n Hn].
  { apply HX5. exists 2. cbn [parse_loop]. rewrite turn_waiting by done. rewrite Hv4.
    change (table_action 4 (translate 0)) with (Reduce 1). cbn [act_turn]. unfold reduce. simpl. by rewrite Hx. }
  destruct (FilterParse_total s START_EXPRESSION) as (o & Ho & _); [done|].
  unfold ParseFilterExpression. rewrite Ho. unfold FilterParse in Ho.
  destruct (parse_loop (parse_fuel _) _) as [r|] eqn:Hloop; [|done].
  rewrite (parse_loop_agree _ _ _ _ _ Hloop Hn) in Ho. by simplify_eq/=.
Qed.
End Print.
