(* ===== verification/FilterText.v ===== *)
(** Texts of filter expressions: the lexer returns the tokens a text was written from, so
    that the parser recovers every expression from its text. The JSON paths of an expression
    that was parsed without an error are those the JSON path library made from their texts;
    its operands are values, and it has a boolean value wherever its literals and paths are
    typed. *)
From stdpp Require Import base sets strings pretty list numbers.
From Stdlib Require Import SpecFloat Ascii.
From S2P Require Import Prelude GoStrings FilterExpr FilterFacts FilterLex FilterLexFacts FilterParse FilterParseFacts.
From S2P Require Import FilterGrammar FilterPrint.

Notation bytes := String.list_ascii_of_string.
Notation of_bytes := String.string_of_list_ascii.

(** ** Texts *)

(** Every occurrence of [q] repeated [n] times. *)
Definition escape (q : ascii) (n : nat) (s : list ascii) : list ascii :=
  flat_map (λ c, if Ascii.eqb c q then replicate n q else [c]) s.

(** The tokens without a value, and their texts. *)
Definition keywords : list (Z * string) :=
  [(OR, "OR"); (AND, "AND"); (NOT, "NOT"); (LE, "<="); (GE, ">="); (NE, "!="); (LIKE, "LIKE"); (IS, "IS");
   (NULL, "NULL"); (TRUE, "TRUE"); (FALSE, "FALSE"); (61, "="); (60, "<"); (62, ">"); (40, "("); (41, ")")]%Z.

Definition keyword (c : Z) : string :=
  match list_find (λ k : Z * string, k.1 = c) keywords with Some (_, (_, s)) => s | None => "" end.

(** The replacement undoes the escape. *)
Lemma HasPrefix_replicate q n s : HasPrefix (of_bytes (replicate n q ++ s)) (of_bytes (replicate n q)) = true.
Proof. induction n as [|n IH]; simpl; [by destruct s|]. by rewrite Ascii.eqb_refl. Qed.

Lemma replace_skip old new q n s :
  replace_from old new n (of_bytes (replicate n q ++ s)) = replace_from old new 0 (of_bytes s).
Proof. induction n as [|n IH]; done. Qed.

Lemma length_of_bytes s : String.length (of_bytes s) = length s.
Proof. induction s as [|c s IH]; simpl; congruence. Qed.

Lemma unescape q n s :
  ReplaceAll (of_bytes (escape q (S n) s)) (of_bytes (replicate (S n) q)) (String q "") = of_bytes s.
Proof.
  unfold ReplaceAll. induction s as [|c s IH]; [done|]. cbn [escape flat_map].
  destruct (Ascii.eqb_spec c q) as [->|Hne].
  - change (replicate (S n) q ++ ?r) with (q :: replicate n q ++ r). cbn [of_bytes replace_from].
    change (String q (of_bytes (replicate n q ++ ?r))) with (of_bytes (replicate (S n) q ++ r)).
    rewrite HasPrefix_replicate, length_of_bytes, length_replicate.
    replace (S n - 1) with n by lia. rewrite replace_skip. unfold escape in IH. by rewrite IH.
  - cbn [app of_bytes replace_from]. replace (HasPrefix _ _) with false; [unfold escape in IH; by rewrite IH|].
    simpl. by rewrite (proj2 (Ascii.eqb_neq q c)).
Qed.

(** ** Decimal numbers *)

Lemma pretty_N_char_digit (x : N) :
  (x < 10)%N → is_digit (pretty_N_char x) = true ∧ (byte_of (pretty_N_char x) - 48 = Z.of_N x)%Z.
Proof.
  intros Hx. assert (x = 0 ∨ x = 1 ∨ x = 2 ∨ x = 3 ∨ x = 4 ∨ x = 5 ∨ x = 6 ∨ x = 7 ∨ x = 8 ∨ x = 9)%N by lia.
  naive_solver.
Qed.

Lemma pretty_N_go_value x s : digits_value 0 (pretty_N_go x s) = digits_value (Z.of_N x) s.
Proof.
  revert s. induction (N.lt_wf_0 x) as [x _ IH]; intros s.
  assert (x = 0 ∨ 0 < x)%N as [->|Hx] by lia; [by rewrite pretty_N_go_0|].
  rewrite pretty_N_go_step, IH by (done || by apply N.div_lt). cbn [digits_value].
  destruct (pretty_N_char_digit (x `mod` 10)) as [-> ->]; [by apply N.mod_lt|].
  f_equal. pose proof (N.div_mod x 10). lia.
Qed.

Lemma pretty_N_go_digits x s :
  Forall (λ c, is_digit c = true) (bytes s) → Forall (λ c, is_digit c = true) (bytes (pretty_N_go x s)).
Proof.
  revert s. induction (N.lt_wf_0 x) as [x _ IH]; intros s Hs.
  assert (x = 0 ∨ 0 < x)%N as [->|Hx] by lia; [by rewrite pretty_N_go_0|].
  rewrite pretty_N_go_step by done. apply IH; [by apply N.div_lt|].
  constructor; [|done]. apply pretty_N_char_digit. by apply N.mod_lt.
Qed.

(** A positive number is written with digits that stand for it. *)
Lemma pretty_positive_digits (x : positive) :
  ∃ c s, pretty x = String c s ∧ Forall (λ c, is_digit c = true) (c :: bytes s) ∧
    digits_value 0 (String c s) = Some (Z.pos x).
Proof.
  pose proof (pretty_N_go_value (N.pos x) "") as Hv. pose proof (pretty_N_go_digits (N.pos x) "") as Hd.
  change (pretty_N_go (N.pos x) "") with (pretty x) in *. destruct (pretty x) as [|c s]; [done|].
  exists c, s. split_and!; [done|by apply Hd|done].
Qed.

Lemma digit_no_sign c : is_digit c = true → Ascii.eqb c "+" = false ∧ Ascii.eqb c "-" = false.
Proof. destruct c as [[] [] [] [] [] [] [] []]; done. Qed.

Lemma Atoi_pretty (z : Z) :
  Atoi (pretty z) = if bool_decide (int_min Int <= z <= int_max Int)%Z then Some z else None.
Proof.
  destruct z as [|x|x]; [done|..]; destruct (pretty_positive_digits x) as (c & s & Hp & Hd & Hv).
  - change (pretty (Z.pos x)) with (pretty x). rewrite Hp. unfold Atoi, split_sign.
    apply Forall_cons_1 in Hd as [Hc _]. destruct (digit_no_sign c Hc) as [-> ->]. rewrite Hv. done.
  - change (pretty (Z.neg x)) with (String "-" (pretty x)). rewrite Hp. unfold Atoi, split_sign.
    change (Ascii.eqb "-" "+") with false. change (Ascii.eqb "-" "-") with true. cbn iota beta. rewrite Hv.
    done.
Qed.

Section Text.
Context {JP Obj RV : Type} `{HJ : !JsonPath JP Obj RV}.
Notation Sym := (FilterSymType JP).
Implicit Types (e : Expr JP) (l : lexer JP) (out : Sym) (rest s : list ascii).

Definition tok_text (t : Tok (JP := JP)) : list ascii :=
  match t with
  | TokSym c => bytes (keyword c)
  | TokInt z => bytes (pretty z)
  | TokString s => "'"%char :: escape "'" 2 (bytes s) ++ ["'"%char]
  | TokPath _ s => "`"%char :: escape "`" 3 (bytes s) ++ ["`"%char]
  | TokFloat _ => []
  end.

Definition text (ts : list (Tok (JP := JP))) : list ascii :=
  flat_map (λ t, tok_text t ++ [" "%char]) ts.

(** The text of an expression. *)
Definition print e : string := of_bytes (text (toks 0 e)).

(** The tokens that have a text: integers of 64 bits, and paths that parse. *)
Definition has_text (t : Tok (JP := JP)) : Prop :=
  match t with
  | TokSym c => c ∈ keywords.*1
  | TokInt z => (int_min Int <= z <= int_max Int)%Z
  | TokString _ => True
  | TokPath jp s => parse_path ("{" +:+ s +:+ "}") = (jp, None)
  | TokFloat _ => False
  end.

(** The expressions that have one. *)
Fixpoint printable e : Prop :=
  match e with
  | AndExpr a b | OrExpr a b | ComparisonExpr _ a b => printable a ∧ printable b
  | NotExpr a | IsNullExpr _ a => printable a
  | _ => has_text (operand_tok e)
  end.

Lemma keyword_has_text c : bool_decide (c ∈ keywords.*1) = true → has_text (TokSym c).
Proof. apply bool_decide_eq_true_1. Qed.

Lemma operator_has_text op : op ∈ operators → Forall has_text (operator_toks op).
Proof. intros H. each_elem H; repeat (constructor; [by apply keyword_has_text|]); done. Qed.

Lemma operand_has_text e : operand e = true → printable e → has_text (operand_tok e).
Proof. by destruct e. Qed.

Lemma paren_has_text lvl e : Forall has_text (toks 0 e) → Forall has_text (toks lvl e).
Proof.
  intros He. rewrite toks_unfold. case_decide; [|done].
  constructor; [by apply keyword_has_text|]. apply Forall_app. split; [done|].
  constructor; [by apply keyword_has_text|done].
Qed.

Lemma toks_has_text e : writable e → printable e → Forall has_text (toks 0 e).
Proof.
  induction e as [a IHa b IHb|a IHa b IHb|a IHa|op a IHa|op a IHa b IHb|b| | | | |]; simpl; intros Hw Hp; try done.
  - apply Forall_app. split; [apply paren_has_text; naive_solver|].
    constructor; [by apply keyword_has_text|]. apply paren_has_text. naive_solver.
  - apply Forall_app. split; [naive_solver|].
    constructor; [by apply keyword_has_text|]. apply paren_has_text. naive_solver.
  - constructor; [by apply keyword_has_text|]. by apply paren_has_text, IHa.
  - destruct Hw. constructor; [by apply operand_has_text|]. constructor; [by apply keyword_has_text|].
    apply Forall_app. split; [case_decide; [done|]|]; (constructor; [by apply keyword_has_text|done]).
  - destruct Hw as (? & ? & ?), Hp. constructor; [by apply operand_has_text|].
    apply Forall_app. split; [by apply operator_has_text|].
    constructor; [by apply operand_has_text|done].
  - constructor; [by destruct b; apply keyword_has_text|done].
Qed.

(** ** Steps of the lexer *)

(** The lexer between two tokens, with the bytes to read. *)
Record ready l rest : Prop := {
  rd_start : startToks l = [];
  rd_cs : cs l = 29;
  rd_e : lex_e l = None;
  rd_p : (0 <= p l)%Z;
  rd_rest : drop (Z.to_nat (p l)) (data l) = rest;
}.

(** The lexer inside a token, [n] bytes later. *)
Record moved (n : nat) l l' : Prop := {
  mv_start : startToks l' = startToks l;
  mv_e : lex_e l' = lex_e l;
  mv_data : data l' = data l;
  mv_ts : ts l' = ts l;
  mv_p : p l' = (p l + Z.of_nat n)%Z;
}.

Lemma moved_trans n m l1 l2 l3 : moved n l1 l2 → moved m l2 l3 → moved (n + m) l1 l3.
Proof. intros [] []. split; try congruence. lia. Qed.

Lemma moved_refl l : moved 0 l l.
Proof. split; try done. lia. Qed.

(** The position after [s], which is at the position [q]. *)
Lemma drop_after (d s rest : list ascii) (q n : Z) :
  (0 <= q)%Z → drop (Z.to_nat q) d = s ++ rest → n = Z.of_nat (length s) →
  drop (Z.to_nat (q + n)) d = rest.
Proof.
  intros Hq Hd ->. rewrite Z2Nat.inj_add, Nat2Z.id by lia.
  by rewrite <-drop_drop, Hd, drop_app_length.
Qed.

Lemma slice_at l (lo hi : Z) s rest :
  (0 <= lo)%Z → drop (Z.to_nat lo) (data l) = s ++ rest → rest ≠ [] →
  hi = (lo + Z.of_nat (length s))%Z → slice l lo hi = Some (of_bytes s).
Proof.
  intros Hlo Hd Hr ->. unfold slice. rewrite bool_decide_eq_true_2.
  - rewrite Hd. replace (Z.to_nat _) with (length s) by lia. by rewrite take_app_length.
  - apply (f_equal length) in Hd. rewrite length_drop, length_app in Hd. unfold pe.
    destruct rest; [done|]. simpl in *. lia.
Qed.

Lemma Lex_ready l out rest : rest ≠ [] → ready l rest → Lex l out = resume rest l out.
Proof.
  intros Hne []. unfold Lex. rewrite rd_start0, rd_cs0, rd_rest0. rewrite decide_False; [done|].
  intros Hp. apply (f_equal length) in rd_rest0. rewrite length_drop in rd_rest0. unfold pe in Hp.
  destruct rest; [done|]. simpl in *. lia.
Qed.

Lemma Lex_end l out : ready l [] → Lex l out = Some (l, out, 0%Z).
Proof.
  intros []. unfold Lex. rewrite rd_start0, rd_cs0, rd_rest0. simpl. unfold test_eof. rewrite rd_cs0. by case_decide.
Qed.

Lemma resume_space l out rest :
  ready l (" "%char :: rest) → ∃ l', resume (" "%char :: rest) l out = resume rest l' out ∧ ready l' rest.
Proof.
  intros [Hs Hc He Hp Hr]. destruct l; simpl in *; subst. eexists. split; [reflexivity|].
  split; simpl; try done; [lia|]. by eapply (drop_after _ [" "%char]).
Qed.

(** A label that keeps reading the token. *)
Definition keeps_reading (tr : nat) : bool :=
  forallb (λ a, a <=? 5) (tr_actions tr) && negb (tr_state tr =? 0) && negb (tr_state tr =? 29).

Lemma actions_keep acts l out :
  forallb (λ a, a <=? 5) acts = true → ∃ l', actions acts l out = Continue l' out ∧ moved 0 l l' ∧ cs l' = cs l.
Proof.
  revert l. induction acts as [|a acts IH]; intros l Ha; [by exists l; split_and!; [|apply moved_refl|]|].
  simpl in Ha. apply andb_true_iff in Ha as [Ha%Nat.leb_le Hacts].
  assert (∃ l1, action a l out = Continue l1 out ∧ moved 0 l l1 ∧ cs l1 = cs l) as (l1 & H1 & Hm & Hcs).
  { do 6 (destruct a as [|a]; [eexists; split; [reflexivity|]; by split; [split; simpl; try done; lia|]|]). lia. }
  destruct (IH l1 Hacts) as (l2 & H2 & Hm2 & Hcs2). exists l2. cbn [actions]. rewrite H1.
  split_and!; [done|by apply (moved_trans 0 0 _ l1)|congruence].
Qed.

Lemma resume_on c rest l out :
  cs l ≠ 29 → keeps_reading (transition (cs l) (byte_of c)) = true →
  ∃ l', resume (c :: rest) l out = resume rest l' out ∧ moved 1 l l' ∧
    cs l' = tr_state (transition (cs l) (byte_of c)).
Proof.
  intros Hcs Hk. unfold keeps_reading in Hk. apply andb_true_iff in Hk as [[Ha H0]%andb_true_iff H29].
  apply negb_true_iff, Nat.eqb_neq in H0, H29. cbn [resume]. rewrite decide_False by done.
  set (tr := transition _ _) in *. clearbody tr.
  destruct (actions_keep _ (set_cs (tr_state tr) l) out Ha) as (l1 & H1 & [] & Hcs1).
  unfold jump. rewrite H1. simpl in Hcs1. unfold to_state. rewrite Hcs1.
  rewrite (decide_False (P := tr_state tr = 29)), Hcs1, decide_False by done.
  eexists. split; [reflexivity|]. simpl in *. split; [|done]. split; simpl; try congruence. lia.
Qed.

(** The first byte of a token. *)
Lemma resume_first c rest l out :
  ready l (c :: rest) → keeps_reading (transition 29 (byte_of c)) = true →
  ∃ l', resume (c :: rest) l out = resume rest l' out ∧ moved 1 (set_ts (p l) l) l' ∧
    cs l' = tr_state (transition 29 (byte_of c)).
Proof.
  intros [Hs Hc He Hp Hr] Hk. unfold keeps_reading in Hk. apply andb_true_iff in Hk as [[Ha H0]%andb_true_iff H29].
  apply negb_true_iff, Nat.eqb_neq in H0, H29. cbn [resume]. rewrite decide_True by done. change (cs (set_ts (p l) l)) with (cs l). rewrite Hc.
  set (tr := transition _ _) in *. clearbody tr.
  destruct (actions_keep _ (set_cs (tr_state tr) (set_ts (p l) l)) out Ha) as (l1 & H1 & [] & Hcs1).
  unfold jump. rewrite H1. simpl in Hcs1. unfold to_state. rewrite Hcs1.
  rewrite (decide_False (P := tr_state tr = 29)), Hcs1, decide_False by done.
  eexists. split; [reflexivity|]. simpl in *. split; [|done]. split; simpl; try congruence. lia.
Qed.

(** Bytes that stay in a state. *)
Lemma resume_stay st body rest l out :
  st ≠ 29 → cs l = st →
  Forall (λ c, keeps_reading (transition st (byte_of c)) = true ∧ tr_state (transition st (byte_of c)) = st) body →
  ∃ l', resume (body ++ rest) l out = resume rest l' out ∧ moved (length body) l l' ∧ cs l' = st.
Proof.
  intros Hst Hl Hb. revert l Hl. induction Hb as [|c body [Hk Ht] Hb IH]; intros l Hl.
  { exists l. split_and!; [done|apply moved_refl|done]. }
  destruct (resume_on c (body ++ rest) l out) as (l1 & H1 & Hm & Hcs); [by rewrite Hl..|].
  destruct (IH l1) as (l2 & H2 & Hm2 & Hcs2); [congruence|]. exists l2. cbn [app]. rewrite H1.
  split_and!; [done|by apply (moved_trans 1 _ _ l1)|done].
Qed.

(** Quoted text: in the state [st] every byte is read, and the quote leads out of it
    and, [n] times, back. *)
Lemma resume_quoted st q n body rest l out :
  st ≠ 29 → cs l = st →
  (∀ c, c ≠ q → keeps_reading (transition st (byte_of c)) = true ∧ tr_state (transition st (byte_of c)) = st) →
  (∀ rest l, cs l = st → ∃ l', resume (replicate n q ++ rest) l out = resume rest l' out ∧ moved n l l' ∧ cs l' = st) →
  ∃ l', resume (escape q n body ++ rest) l out = resume rest l' out ∧
    moved (length (escape q n body)) l l' ∧ cs l' = st.
Proof.
  intros Hst Hl Hc Hq. revert l Hl. induction body as [|c body IH]; intros l Hl.
  { exists l. split_and!; [done|apply moved_refl|done]. }
  simpl. rewrite <-app_assoc.
  assert (∃ l', resume ((if (c =? q)%char then replicate n q else [c]) ++ escape q n body ++ rest) l out =
      resume (escape q n body ++ rest) l' out ∧ moved (length (if (c =? q)%char then replicate n q else [c])) l l' ∧
      cs l' = st) as (l1 & H1 & Hm & Hcs).
  { destruct (Ascii.eqb_spec c q) as [->|Hne].
    - rewrite length_replicate. by apply Hq.
    - apply (resume_stay st [c]); [done..|]. constructor; [by apply Hc|done]. }
  destruct (IH l1 Hcs) as (l2 & H2 & Hm2 & Hcs2). exists l2. rewrite H1, length_app.
  split_and!; [done|by eapply moved_trans|done].
Qed.

(** ** Tokens *)

(** The lexer returns the token a text begins with. *)
Definition reads (t : Tok) l out rest : Prop :=
  ∃ l' out', resume (tok_text t ++ " "%char :: rest) l out = Some (l', out', tok_code t) ∧
    carries t out' ∧ ready l' (" "%char :: rest).

Lemma keyword_reads c l out rest :
  c ∈ keywords.*1 → ready l (tok_text (TokSym c) ++ " "%char :: rest) → reads (TokSym c) l out rest.
Proof.
  intros Hk [Hs Hc He Hq Hr]. destruct l as [d q st t0 t1 a er ex ob st']; simpl in *; subst. unfold reads, tok_text.
  each_elem Hk; match type of Hr with _ = ?k ++ _ => let k' := eval vm_compute in k in change k with k' in Hr |- * end;
    pose proof Hr as Hr'; cbn [app] in Hr |- *;
    (eexists _, _; split; [cbv -[Z.add Z.sub]; reflexivity|split; [done|]]);
    (split; cbn [p data cs startToks lex_e]; [done..|lia|]); rewrite <-?Z.add_assoc;
    by eapply drop_after.
Qed.

(** Where a quoted text ends: [hold] finds the text between the quotes. *)
Lemma quoted_slice l0 l (n : nat) q body rest :
  (0 <= p l0)%Z → drop (Z.to_nat (p l0)) (data l0) = q :: body ++ q :: " "%char :: rest →
  moved n (set_ts (p l0) l0) l → n = length body + 2 →
  slice (hold (set_cs 29 l)) (ts l + 1) (p l - 1) = Some (of_bytes body) ∧
  drop (Z.to_nat (p l)) (data l) = " "%char :: rest.
Proof.
  intros Hp Hd [Hs He Hdata Hts Hpos] ->. simpl in *. rewrite Hts, Hpos. split.
  - apply (slice_at _ _ _ _ (q :: " "%char :: rest)); [lia| |done|lia]. simpl. rewrite Hdata.
    by eapply (drop_after _ [q]).
  - rewrite Hdata. eapply (drop_after _ (q :: body ++ [q])); [done| |].
    + by rewrite Hd, <-app_comm_cons, <-app_assoc.
    + simpl. rewrite length_app. simpl. lia.
Qed.

(** A quoted text up to its closing quote. *)
Lemma resume_quotes st q n body rest l out :
  st ≠ 29 → keeps_reading (transition 29 (byte_of q)) = true →
  tr_state (transition 29 (byte_of q)) = st → keeps_reading (transition st (byte_of q)) = true →
  (∀ c, c ≠ q → keeps_reading (transition st (byte_of c)) = true ∧ tr_state (transition st (byte_of c)) = st) →
  (∀ rest l, cs l = st → ∃ l', resume (replicate n q ++ rest) l out = resume rest l' out ∧ moved n l l' ∧ cs l' = st) →
  ready l (q :: escape q n body ++ q :: " "%char :: rest) →
  ∃ l', resume (q :: escape q n body ++ q :: " "%char :: rest) l out = resume (" "%char :: rest) l' out ∧
    moved (length (escape q n body) + 2) (set_ts (p l) l) l' ∧ cs l' = tr_state (transition st (byte_of q)).
Proof.
  intros Hst Hk Ht Hkq Hc Hq Hl.
  destruct (resume_first _ _ _ out Hl Hk) as (l1 & H1 & Hm1 & Hcs1). rewrite Ht in Hcs1.
  destruct (resume_quoted st q n body (q :: " "%char :: rest) l1 out) as (l2 & H2 & Hm2 & Hcs2); [done..|].
  destruct (resume_on q (" "%char :: rest) l2 out) as (l3 & H3 & Hm3 & Hcs3); [by rewrite Hcs2..|].
  rewrite Hcs2 in Hcs3. exists l3. rewrite H1, H2, H3. split_and!; [done| |done].
  replace (_ + 2) with (1 + (length (escape q n body) + 1)) by lia.
  eapply moved_trans; [done|by eapply moved_trans].
Qed.

Lemma string_reads (s : string) l out rest :
  ready l (tok_text (TokString s) ++ " "%char :: rest) → reads (TokString s) l out rest.
Proof.
  intros Hl. unfold reads. cbn [tok_text] in *. rewrite <-app_comm_cons, <-app_assoc in *. cbn [app] in *.
  destruct (resume_quotes 2 "'" 2 (bytes s) rest l out) as (l3 & H3 & Hm & Hcs3); try done.
  { intros c Hc. assert (transition 2 (byte_of c) = 3) as ->; [|done].
    clear -Hc. destruct c as [[] [] [] [] [] [] [] []]; done. }
  { intros rest' l' Hl'. destruct (resume_on "'" ("'" :: rest')%char l' out) as (l1 & H1 & Hm1 & Hcs1); [by rewrite Hl'..|].
    rewrite Hl' in Hcs1.
    destruct (resume_on "'" rest' l1 out) as (l2 & H2 & Hm2 & Hcs2); [by rewrite Hcs1..|].
    rewrite Hcs1 in Hcs2. exists l2. split_and!; [by rewrite <-H2, <-H1|by apply (moved_trans 1 1 _ l1)|done]. }
  destruct Hl as [Hs Hc He Hp Hr], (quoted_slice _ _ _ _ _ _ Hp Hr Hm) as [Hsl Hd]; [done|].
  rewrite H3. cbn [resume]. rewrite decide_False by (by rewrite Hcs3). rewrite Hcs3.
  change (transition _ _) with 52. unfold jump. cbn [tr_actions tr_state actions action]. unfold string_token.
  change (ts (hold _)) with (ts l3). change (te (hold _)) with (p l3). rewrite Hsl.
  eexists _, _. split; [reflexivity|]. split; [|].
  - simpl. rewrite (unescape "'" 1). apply String.string_of_list_ascii_of_string.
  - destruct Hm as [Hs' He' Hdata Hts Hpos]. simpl in *. rewrite Z.sub_add.
    split; simpl; try congruence; lia.
Qed.

Lemma path_reads jp (s : string) l out rest :
  has_text (TokPath jp s) → ready l (tok_text (TokPath jp s) ++ " "%char :: rest) → reads (TokPath jp s) l out rest.
Proof.
  intros Ht Hl. unfold reads. cbn [tok_text] in *. rewrite <-app_comm_cons, <-app_assoc in *. cbn [app] in *.
  destruct (resume_quotes 27 "`" 3 (bytes s) rest l out) as (l3 & H3 & Hm & Hcs3); try done.
  { intros c Hc. assert (transition 27 (byte_of c) = 32) as ->; [|done].
    clear -Hc. destruct c as [[] [] [] [] [] [] [] []]; done. }
  { intros rest' l' Hl'.
    destruct (resume_on "`" ("`" :: "`" :: rest')%char l' out) as (l1 & H1 & Hm1 & Hcs1); [by rewrite Hl'..|].
    rewrite Hl' in Hcs1.
    destruct (resume_on "`" ("`" :: rest')%char l1 out) as (l2 & H2 & Hm2 & Hcs2); [by rewrite Hcs1..|].
    rewrite Hcs1 in Hcs2.
    destruct (resume_on "`" rest' l2 out) as (l4 & H4 & Hm4 & Hcs4); [by rewrite Hcs2..|].
    rewrite Hcs2 in Hcs4. exists l4.
    split_and!; [by rewrite <-H4, <-H2, <-H1|apply (moved_trans 1 2 _ l1), (moved_trans 1 1 _ l2); done|done]. }
  destruct Hl as [Hs Hc He Hp Hr], (quoted_slice _ _ _ _ _ _ Hp Hr Hm) as [Hsl Hd]; [done|].
  rewrite H3. cbn [resume]. rewrite decide_False by (by rewrite Hcs3). rewrite Hcs3.
  change (transition _ _) with 60. unfold jump. cbn [tr_actions tr_state actions action]. unfold path_token.
  change (ts (hold _)) with (ts l3). change (te (hold _)) with (p l3). rewrite Hsl.
  assert (ReplaceAll (of_bytes (escape "`" 3 (bytes s))) "```" "`" = s) as ->.
  { rewrite (unescape "`" 2). apply String.string_of_list_ascii_of_string. }
  simpl in Ht. rewrite Ht.
  eexists _, _. split; [reflexivity|]. split; [done|].
  destruct Hm as [Hs' He' Hdata Hts Hpos]. simpl in *. rewrite Z.sub_add.
  split; simpl; try congruence; lia.
Qed.

Lemma digit_transition c : is_digit c = true → ∀ st, st ∈ [29; 3; 31] → transition st (byte_of c) = 5.
Proof. intros Hc st Hst. each_elem Hst; destruct c as [[] [] [] [] [] [] [] []]; done. Qed.

(** The digits of a number, from the first on. *)
Lemma resume_digits c ds rest l out :
  cs l = 3 → Forall (λ c, is_digit c = true) (c :: ds) →
  ∃ l', resume (c :: ds ++ rest) l out = resume rest l' out ∧ moved (S (length ds)) l l' ∧ cs l' = 31.
Proof.
  intros Hl [Hc Hds]%Forall_cons_1.
  pose proof (digit_transition c Hc 3 ltac:(set_solver)) as Ht.
  destruct (resume_on c (ds ++ rest) l out) as (l1 & H1 & Hm1 & Hcs1); [by rewrite Hl|by rewrite Hl, Ht|].
  rewrite Hl, Ht in Hcs1.
  destruct (resume_stay 31 ds rest l1 out) as (l2 & H2 & Hm2 & Hcs2); [done..| |].
  { eapply Forall_impl; [|exact Hds]. intros d Hd. by rewrite (digit_transition d Hd 31 ltac:(set_solver)). }
  exists l2. rewrite H1. split_and!; [done|by apply (moved_trans 1 _ _ l1)|done].
Qed.

Lemma resume_number (z : Z) rest l out :
  ready l (bytes (pretty z) ++ rest) →
  ∃ l', resume (bytes (pretty z) ++ rest) l out = resume rest l' out ∧
    moved (length (bytes (pretty z))) (set_ts (p l) l) l' ∧ cs l' = 31.
Proof.
  assert (∀ c ds, ready l (c :: ds ++ rest) → Forall (λ c, is_digit c = true) (c :: ds) →
    ∃ l', resume (c :: ds ++ rest) l out = resume rest l' out ∧ moved (S (length ds)) (set_ts (p l) l) l' ∧
      cs l' = 31) as Hpos.
  { intros c ds Hl [Hc Hds]%Forall_cons_1. pose proof (digit_transition c Hc 29 ltac:(set_solver)) as Ht.
    destruct (resume_first _ _ _ out Hl) as (l1 & H1 & Hm1 & Hcs1); [by rewrite Ht|]. rewrite Ht in Hcs1.
    destruct (resume_stay 31 ds rest l1 out) as (l2 & H2 & Hm2 & Hcs2); [done..| |].
    { eapply Forall_impl; [|exact Hds]. intros d Hd. by rewrite (digit_transition d Hd 31 ltac:(set_solver)). }
    exists l2. rewrite H1. split_and!; [done|by apply (moved_trans 1 _ _ l1)|done]. }
  destruct z as [|x|x]; [by intros Hl; apply (Hpos "0"%char []); [|repeat constructor]|..];
    destruct (pretty_positive_digits x) as (c & s & Hp & Hd & _).
  - change (pretty (Z.pos x)) with (pretty x). rewrite Hp. intros Hl. by apply (Hpos c (bytes s)).
  - change (pretty (Z.neg x)) with (String "-" (pretty x)). rewrite Hp. intros Hl.
    destruct (resume_first _ _ _ out Hl) as (l1 & H1 & Hm1 & Hcs1); [done|].
    destruct (resume_digits c (bytes s) rest l1 out) as (l2 & H2 & Hm2 & Hcs2); [done..|].
    exists l2. split_and!; [etransitivity; [exact H1|exact H2]|by apply (moved_trans 1 _ _ l1)|done].
Qed.

Lemma int_reads z l out rest :
  has_text (TokInt z) → ready l (tok_text (TokInt z) ++ " "%char :: rest) → reads (TokInt z) l out rest.
Proof.
  intros Hz Hl. unfold reads. cbn [tok_text] in *.
  destruct (resume_number z (" "%char :: rest) l out Hl) as (l3 & H3 & Hm & Hcs3).
  destruct Hl as [Hs Hc He Hp Hr], Hm as [Hs' He' Hdata Hts Hpos]. simpl in Hs', He', Hdata, Hts, Hpos.
  rewrite H3. cbn [resume]. rewrite decide_False by (by rewrite Hcs3). rewrite Hcs3.
  change (transition _ _) with 53. unfold jump. cbn [tr_actions tr_state actions action]. unfold integral_token.
  rewrite (slice_at _ _ _ (bytes (pretty z)) (" "%char :: rest)); [| | |done|]; simpl; [|lia|by rewrite Hdata, Hts|lia].
  rewrite String.string_of_list_ascii_of_string. cbn [mbind option_bind]. rewrite Atoi_pretty, bool_decide_eq_true_2 by done.
  eexists _, _. split; [reflexivity|]. split; [done|]. simpl. rewrite Z.sub_add.
  split; simpl; try congruence; [lia|]. rewrite Hdata, Hpos. by eapply drop_after.
Qed.

(** ** Texts *)

Lemma token_reads t l out rest :
  has_text t → ready l (tok_text t ++ " "%char :: rest) → reads t l out rest.
Proof.
  destruct t; [intros _; apply string_reads|apply int_reads|done|apply path_reads|apply keyword_reads].
Qed.

(** A call of the lexer skips the space that precedes a token. *)
Lemma Lex_skips l out pre rest :
  pre = [] ∨ pre = [" "%char] → pre ++ rest ≠ [] → ready l (pre ++ rest) →
  ∃ l', Lex l out = resume rest l' out ∧ ready l' rest.
Proof.
  intros [-> | ->] Hne Hl.
  - exists l. split; [by apply Lex_ready|done].
  - destruct (resume_space l out rest Hl) as (l' & H & Hl'). exists l'. split; [|done].
    rewrite <-H. by apply Lex_ready.
Qed.

(** What the lexer takes for the end of the input: the end, or a byte no token begins
    with, whatever follows it. *)
Definition ends (tail : list ascii) : Prop :=
  tail = [] ∨ ∃ c junk, tail = c :: junk ∧ transition 29 (byte_of c) = 1.

Lemma resume_end l out tail :
  ends tail → ready l tail → ∃ l', resume tail l out = Some (l', out, 0%Z) ∧ lex_e l' = None.
Proof.
  intros [->|(c & junk & -> & Ht)] [Hs Hc He Hp Hr].
  - exists l. simpl. unfold test_eof. by rewrite Hc.
  - cbn [resume]. rewrite decide_True by done. change (cs (set_ts (p l) l)) with (cs l). rewrite Hc, Ht.
    eexists. split; [reflexivity|done].
Qed.

Lemma text_lexes ts l out pre tail :
  pre = [] ∨ pre = [" "%char] → ends tail → Forall has_text ts → ready l (pre ++ text ts ++ tail) →
  ∃ l1 out1 l2, lexes l out ts l1 out1 ∧ Lex l1 out1 = Some (l2, out1, 0%Z) ∧ lex_e l2 = None.
Proof.
  intros Hpre Htail Hts. revert l out pre Hpre. induction Hts as [|t ts Ht Hts IH]; intros l out pre Hpre Hl.
  - destruct (decide (pre ++ tail = [])) as [Hnil|Hne].
    + apply app_eq_nil in Hnil as [-> ->]. exists l, out, l. split_and!; [constructor|by apply Lex_end|apply Hl].
    + destruct (Lex_skips l out pre tail) as (l' & H & Hl'); [done..|].
      destruct (resume_end l' out tail Htail Hl') as (l2 & Hr & He).
      exists l, out, l2. split_and!; [constructor|by rewrite H|done].
  - simpl in Hl. rewrite <-!app_assoc in Hl. simpl in Hl.
    edestruct (Lex_skips l out _ (tok_text t ++ " "%char :: text ts ++ tail) Hpre) as (l' & H & Hl'); [|exact Hl|].
    { destruct pre; [|done]. by destruct (tok_text t). }
    destruct (token_reads t l' out (text ts ++ tail) Ht Hl') as (l3 & out3 & H3 & Hcar & Hl3).
    destruct (IH l3 out3 [" "%char]) as (l4 & out4 & l5 & Hlex & HL & He); [by right|done|].
    exists l4, out4, l5. split_and!; [|done..]. rewrite <-H in H3. econstructor; [done| |done..].
    destruct t; try done. simpl in Ht. clear -Ht. each_elem Ht; done.
Qed.

(** Every expression is parsed from its text, up to where the lexer sees the end. *)
Lemma print_parse_until e tail :
  writable e → printable e → ends tail →
  ParseFilterExpression (of_bytes (text (toks 0 e) ++ tail)) = Some (Ok (Some e, None)).
Proof.
  intros Hw Hp Htail. set (s := of_bytes (text (toks 0 e) ++ tail)).
  set (l1 := set_startToks [] (newLexer (JP := JP) s [START_EXPRESSION])).
  destruct (text_lexes (toks 0 e) l1 zero_sym [] tail) as (l2 & out2 & l3 & Hlex & HL & He); [by left|done| | |].
  - by apply toks_has_text.
  - split; try done. change (bytes (of_bytes (text (toks 0 e) ++ tail)) = text (toks 0 e) ++ tail).
    apply String.list_ascii_of_string_of_list_ascii.
  - rewrite <-He. eapply tokens_parse; [done| |exact HL]. econstructor; [reflexivity|done|done|exact Hlex].
Qed.

Lemma print_parse e :
  writable e → printable e → ParseFilterExpression (print e) = Some (Ok (Some e, None)).
Proof.
  intros Hw Hp. unfold print. rewrite <-(app_nil_r (text (toks 0 e))). apply print_parse_until; [done..|by left].
Qed.

(** ** Panics *)

(** The lexer panics at the first token. *)
Lemma first_token_panics (s : string) :
  Lex (set_startToks [] (newLexer (JP := JP) s [START_EXPRESSION])) zero_sym = None →
  ParseFilterExpression (JP := JP) s = Some Panic.
Proof.
  intros HL. set (l0 := newLexer (JP := JP) s [START_EXPRESSION]).
  assert (final (new_parser l0) ParsePanic) as [n Hn].
  { exists 2. cbn [parse_loop].
    assert (parse_turn (new_parser l0) =
      Next (at_ [set_yys 2 zero_sym; zero_sym] (-1) (set_startToks [] l0) zero_sym)) as -> by reflexivity.
    assert (read_token (at_ [set_yys 2 zero_sym; zero_sym] (-1) (set_startToks [] l0) zero_sym) = None) as Hr.
    { unfold read_token. cbn [at_ char lx lval]. change (-1 <? 0)%Z with true. cbn iota. unfold l0. by rewrite HL. }
    unfold parse_turn. rewrite Hr. reflexivity. }
  destruct (FilterParse_total s START_EXPRESSION) as (o & Ho & _); [done|].
  unfold ParseFilterExpression. rewrite Ho. unfold FilterParse in Ho.
  destruct (parse_loop (parse_fuel _) _) as [r|] eqn:Hloop; [|done].
  rewrite (parse_loop_agree _ _ _ _ _ Hloop Hn) in Ho. by simplify_eq/=.
Qed.

(** An integer literal out of range. *)
Lemma literal_panics (z : Z) rest :
  ¬ (int_min Int <= z <= int_max Int)%Z →
  ParseFilterExpression (JP := JP) (of_bytes (bytes (pretty z) ++ " "%char :: rest)) = Some Panic.
Proof.
  intros Hz. set (s := of_bytes _). apply first_token_panics.
  set (l := set_startToks [] (newLexer (JP := JP) s [START_EXPRESSION])).
  assert (ready l (bytes (pretty z) ++ " "%char :: rest)) as Hl.
  { split; try done. apply String.list_ascii_of_string_of_list_ascii. }
  rewrite (Lex_ready l _ (bytes (pretty z) ++ " "%char :: rest)); [|by destruct (bytes (pretty z))|done].
  destruct (resume_number z (" "%char :: rest) l zero_sym Hl) as (l3 & H3 & Hm & Hcs3).
  destruct Hl as [Hs Hc He Hp Hr], Hm as [Hs' He' Hdata Hts Hpos]. cbn [p ts data startToks lex_e set_ts] in *.
  rewrite H3. cbn [resume]. rewrite decide_False by (by rewrite Hcs3). rewrite Hcs3.
  change (transition _ _) with 53. unfold jump. cbn [tr_actions tr_state actions action]. unfold integral_token.
  rewrite (slice_at _ _ _ (bytes (pretty z)) (" "%char :: rest)); [| | |done|].
  - cbn [mbind option_bind]. by rewrite String.string_of_list_ascii_of_string, Atoi_pretty, bool_decide_eq_false_2.
  - simpl. lia.
  - cbn [data ts hold set_pos set_te set_cs]. by rewrite Hdata, Hts.
  - cbn [te ts hold set_pos set_te set_cs p]. lia.
Qed.

(** A string literal that is not closed, after one that was. *)
Lemma open_quote_panics : ParseFilterExpression (JP := JP) "'a'='b" = Some Panic.
Proof. vm_compute. reflexivity. Qed.
End Text.

Section Paths.
Context {JP Obj RV : Type} `{HJ : !JsonPath JP Obj RV}.
Notation Sym := (FilterSymType JP).
Implicit Types (e : Expr JP) (v out : Sym) (l : lexer JP) (ps : parser JP).

Definition path_good (jp : JP) (s : string) : Prop := parse_path ("{" +:+ s +:+ "}") = (jp, None).

Fixpoint paths_good e : Prop :=
  match e with
  | AndExpr a b | OrExpr a b | ComparisonExpr _ a b => paths_good a ∧ paths_good b
  | NotExpr a | IsNullExpr _ a => paths_good a
  | JSONPathVal jp s => path_good jp s
  | _ => True
  end.

Definition sym_good v : Prop :=
  (∀ jp s, jsonPathValue v = Some (jp, s) → path_good jp s) ∧ (∀ e, expr v = Some e → paths_good e).

(** ** The lexer *)

(** A call that leaves no error found none, and returns a good value. *)
Definition call_good l out l' out' : Prop :=
  (lex_e l' = None → lex_e l = None) ∧ (sym_good out → lex_e l' = None → sym_good out') ∧ lex_expr l' = lex_expr l.

Lemma call_good_refl l out : call_good l out l out.
Proof. done. Qed.

Lemma call_good_trans l out l1 out1 l2 out2 :
  call_good l out l1 out1 → call_good l1 out1 l2 out2 → call_good l out l2 out2.
Proof. intros (H1 & H2 & H3) (H4 & H5 & H6). split_and!; [auto|auto|congruence]. Qed.

Definition lexed_good l out (r : lexed) : Prop :=
  match r with
  | Continue l' out' | Token l' out' _ => call_good l out l' out'
  | LexPanic => True
  end.

Lemma path_token_good l out : lexed_good l out (path_token l out).
Proof.
  unfold path_token. destruct (slice _ _ _) as [s|]; [|done].
  destruct (parse_path _) as [jp [err|]] eqn:Hp; [by split_and!|].
  split_and!; [done| |done]. intros [_ He] Hl. split; [|done]. by intros jp' s' [= <- <-].
Qed.

Lemma action_good a l out : lexed_good l out (action a l out).
Proof.
  pose proof (path_token_good (hold l) out) as Hh. pose proof (path_token_good (back l) out) as Hb.
  do 33 try (destruct a as [|a]); simpl; unfold integral_token, float_token, string_token;
    try exact Hh; try exact Hb; repeat case_match; try exact Hb; try done;
    (split_and!; [done| |done]); intros [] ?; by split.
Qed.

Lemma actions_good acts l out : lexed_good l out (actions acts l out).
Proof.
  revert l out. induction acts as [|a acts IH]; intros l out; [by split_and!|]. simpl.
  pose proof (action_good a l out) as Ha. destruct (action a l out) as [l1 out1|l1 out1 tok|]; [|done..].
  specialize (IH l1 out1). destruct (actions acts l1 out1) as [l2 out2|l2 out2 tok|]; [| |done];
    by eapply call_good_trans.
Qed.

Lemma jump_good tr l out : lexed_good l out (jump tr l out).
Proof. exact (actions_good (tr_actions tr) (set_cs (tr_state tr) l) out). Qed.

Lemma to_state_good l out l' out' : call_good l out l' out' → call_good l out (to_state l') out'.
Proof. unfold to_state. by case_decide. Qed.

Definition result_good l out (r : lex_result) : Prop :=
  match r with Some (l', out', _) => call_good l out l' out' | None => True end.

Lemma test_eof_good l out : result_good l out (test_eof l out).
Proof.
  unfold test_eof. destruct (eof_transition _) as [tr|]; [|by split_and!].
  pose proof (jump_good tr l out) as Hj. destruct (jump tr l out); simpl in *; [case_decide; [by apply to_state_good|done]|done..].
Qed.

Lemma resume_good rest l out : result_good l out (resume rest l out).
Proof.
  revert l out. induction rest as [|c rest IH]; intros l out; [apply test_eof_good|]. cbn [resume].
  set (l1 := if decide (cs l = 29) then set_ts (p l) l else l).
  assert (call_good l out l1 out) as H1 by (unfold l1; by case_decide).
  pose proof (jump_good (transition (cs l1) (byte_of c)) l1 out) as Hj. clearbody l1.
  destruct (jump _ l1 out) as [l2 out2|l2 out2 tok|]; [| |done]; simpl in Hj.
  2: { by eapply call_good_trans. }
  assert (call_good l out (to_state l2) out2) as H2 by (by eapply to_state_good, call_good_trans).
  destruct (decide (cs (to_state l2) = 0)); [done|].
  specialize (IH (set_pos (p (to_state l2) + 1) (to_state l2)) out2). unfold result_good in *.
  destruct (resume rest _ out2) as [[[l3 out3] tok]|]; [|done]. eapply call_good_trans; [exact H2|exact IH].
Qed.

Lemma Lex_good l out : result_good l out (Lex l out).
Proof.
  unfold Lex. destruct (startToks l); [|done]. case_decide; [apply test_eof_good|]. case_decide; [done|apply resume_good].
Qed.

(** ** The parser *)

Definition parser_good ps : Prop :=
  lex_e (lx ps) = None →
  Forall sym_good (stack ps) ∧ sym_good (lval ps) ∧ (∀ e, lex_expr (lx ps) = Some e → paths_good e).

Lemma read_good ps ps' : parser_good ps → read_token ps = Some ps' → parser_good ps'.
Proof.
  intros Hg. unfold read_token. destruct (char ps <? 0)%Z; [|by intros [= <-]].
  pose proof (Lex_good (lx ps) (lval ps)) as HL. destruct (Lex _ _) as [[[l v] c]|]; [|done].
  intros [= <-] Hn. simpl in *. destruct HL as (H1 & H2 & H3). destruct (Hg (H1 Hn)) as (? & ? & ?).
  split_and!; [done|auto|]. by rewrite H3.
Qed.

Lemma zero_good : sym_good zero_sym.
Proof. done. Qed.

Lemma the_expr_good v : sym_good v → paths_good (the_expr v).
Proof. intros [_ He]. unfold the_expr. destruct (expr v) eqn:Hx; [by apply He|done]. Qed.

Lemma the_path_good v : sym_good v → paths_good (the_path v).
Proof. intros [Hp _]. unfold the_path. destruct (jsonPathValue v) as [[]|] eqn:Hx; [by apply Hp|done]. Qed.

Lemma set_expr_good e v : paths_good e → sym_good v → sym_good (set_expr e v).
Proof. intros He [Hp _]. split; [done|]. by intros ? [= <-]. Qed.

Lemma semantic_good n d val l :
  (∀ i, sym_good (d i)) → sym_good val → (∀ e, lex_expr l = Some e → paths_good e) →
  let '(val', l') := semantic n d val l in
  sym_good val' ∧ lex_e l' = lex_e l ∧ (∀ e, lex_expr l' = Some e → paths_good e).
Proof.
  intros Hd Hv Hl. pose proof (λ i, the_expr_good _ (Hd i)). pose proof (λ i, the_path_good _ (Hd i)).
  do 36 try (destruct n as [|n]); simpl; (split_and!; [|done|]); try done; try exact Hl;
    try (apply set_expr_good; [|done]); simpl; auto; try (apply (Hd 2)).
Qed.

Lemma Forall_nth (l : list Sym) i : Forall sym_good l → sym_good (nth i l zero_sym).
Proof. intros Hl. revert i. induction Hl; intros [|i]; simpl; auto using zero_good. Qed.

Lemma reduce_good n ps : parser_good ps → parser_good (reduce n ps).
Proof.
  intros Hg. unfold reduce. set (k := Z.to_nat (entry FilterR2 n)).
  set (rhs := reverse (take k (stack ps))).
  destruct (semantic _ _ _ _) as [val l] eqn:Hsem. intros Hn. simpl in *.
  assert (lex_e l = lex_e (lx ps)) as He.
  { clear -Hsem. destruct (Z.to_nat n) as [|[|[|m]]]; [by simplify_eq/=..|].
    rewrite (semantic_pure (S (S (S m)))) in Hsem by lia. by simplify_eq/=. }
  rewrite He in Hn. destruct (Hg Hn) as (Hst & Hlv & Hlx).
  assert (Forall sym_good rhs) as Hrhs by (by apply Forall_reverse, Forall_take).
  pose proof (semantic_good (Z.to_nat n) (λ i, nth (i - 1) rhs zero_sym) (nth 0 rhs zero_sym) (lx ps)
    ltac:(intros; by apply Forall_nth) ltac:(by apply Forall_nth) Hlx) as Hg'. rewrite Hsem in Hg'.
  destruct Hg' as (Hv & _ & Hx). split_and!; [|done|done]. constructor; [done|]. by apply Forall_drop.
Qed.

Lemma shift_good s ps : parser_good ps → parser_good (shift s ps).
Proof. intros Hg Hn. destruct (Hg Hn) as (? & ? & ?). split_and!; try done. by constructor. Qed.

(** A turn. *)
Definition turn_good (t : turn JP) : Prop :=
  match t with
  | Next ps => parser_good ps
  | Return _ l => lex_e l = None → ∀ e, lex_expr l = Some e → paths_good e
  | ParsePanic => True
  end.

Lemma find_error_shift_good st s st' :
  Forall sym_good st → find_error_shift st = Some (s, st') → Forall sym_good st'.
Proof.
  induction st as [|v st IH]; [done|]. intros Hst. cbn [find_error_shift]. case_match; [by intros [= _ <-]|].
  apply IH. by inversion Hst.
Qed.

Lemma error_good ps : parser_good ps → turn_good (error_turn ps).
Proof.
  intros Hg. unfold error_turn. case_match; [case_match; [intros Hn; by apply Hg|done]|].
  destruct (Errflag ps =? 0)%Z, (find_error_shift _) as [[s st]|] eqn:Hf; simpl; try done.
  - intros Hn. destruct (Hg Hn) as (Hst & ? & ?). split_and!; [|done..]. constructor.
    + by apply (Forall_nth (stack ps) 0).
    + by eapply find_error_shift_good.
  - intros Hn. by apply Hg.
Qed.

Lemma default_good ps : parser_good ps → turn_good (default_turn ps).
Proof.
  intros Hg. unfold default_turn. case_match; [|case_match; [by apply error_good|by apply reduce_good]].
  destruct (read_token ps) as [ps1|] eqn:Hr; [|done]. apply read_good in Hr; [|done].
  case_match; [intros Hn; by apply Hr|]. case_match; [by apply error_good|by apply reduce_good].
Qed.

Lemma parse_turn_good ps : parser_good ps → turn_good (parse_turn ps).
Proof.
  intros Hg. unfold parse_turn. case_match; [by apply default_good|].
  destruct (read_token ps) as [ps1|] eqn:Hr; [|done]. apply read_good in Hr; [|done].
  case_match; [by apply default_good|]. case_match; [by apply shift_good|by apply default_good].
Qed.

Lemma parse_loop_good fuel ps t : parser_good ps → parse_loop fuel ps = Some t → turn_good t.
Proof.
  revert ps. induction fuel as [|fuel IH]; intros ps Hg; [done|]. simpl. pose proof (parse_turn_good ps Hg) as Ht.
  destruct (parse_turn ps); [by apply IH|by intros [= <-]..].
Qed.

Lemma ParseFilterExpression_paths s e :
  ParseFilterExpression s = Some (Ok (Some e, None)) → paths_good e.
Proof.
  unfold ParseFilterExpression, FilterParse. destruct (parse_loop _ _) as [[]|] eqn:Hl; try done.
  intros [= He Hn]. assert (parser_good (new_parser (newLexer s [START_EXPRESSION]))) as Hg.
  { intros _. split_and!; [by repeat constructor|apply zero_good|done]. }
  by apply (parse_loop_good _ _ _ Hg Hl).
Qed.

(** ** Operands *)

Lemma value_operand w e : value_expression w e → operand e = true.
Proof. by destruct 1 as [? ? []|]. Qed.

Lemma expression_writable w e : expression w e → writable e.
Proof.
  induction 1 as [w e Hc| | | | |]; simpl; auto.
  assert (∀ op, op ∈ operators → True) as _ by done.
  destruct Hc as [? ? ? ? ? ? H1 H2 H3| | | |]; simpl;
    repeat match goal with H : value_expression _ _ |- _ => apply value_operand in H end; auto.
  - split; [|done]. unfold operators. destruct H2; set_solver.
  - split; [|done]. unfold operators. set_solver.
  - split; [|done]. unfold operators. set_solver.
Qed.

Lemma ParseFilterExpression_writable s oe :
  ParseFilterExpression s = Some (Ok (oe, None)) → ∃ e, oe = Some e ∧ writable e ∧ paths_good e.
Proof.
  intros Hp. destruct (ParseFilterExpression_sound s oe Hp) as (ts & e & -> & _ & He).
  exists e. split_and!; [done|by eapply expression_writable|by eapply ParseFilterExpression_paths].
Qed.

(** ** Types *)

(** Values a comparison accepts: no nil interface, and strings that are UTF-8. *)
Definition comparable_value (v : value) : Prop :=
  v ≠ VNil ∧ ∀ n s, v = VString n s → ValidString s = true.

(** The literals and the paths of an expression have such values on an object. *)
Fixpoint well_typed (e : Expr JP) (o : Obj) : Prop :=
  match e with
  | AndExpr a b | OrExpr a b | ComparisonExpr _ a b => well_typed a o ∧ well_typed b o
  | NotExpr a | IsNullExpr _ a => well_typed a o
  | StringVal s => ValidString s = true
  | JSONPathVal jp _ => ∃ v : value, eval_path jp o = Ok v ∧ comparable_value v
  | _ => True
  end.

Lemma operand_typed e o :
  operand e = true → well_typed e o → ∃ v : value, Eval e o = Ok v ∧ comparable_value v.
Proof.
  destruct e; try done; intros _ Ht; try exact Ht;
    (eexists; split; [reflexivity|]; split; [done|]; intros; by simplify_eq).
Qed.

Lemma widen_typed (v : value) t : comparable_value v → ∃ v' : value, widenNumeric v (Some t) = Ok v' ∧ comparable_value v'.
Proof.
  intros Hv. unfold widenNumeric. case_bool_decide; [by eexists|].
  destruct v; try by eexists.
  - destruct t; try by eexists. case_match; eexists; (split; [reflexivity|done]).
  - destruct t; try by eexists. case_match; eexists; (split; [reflexivity|done]).
  - by destruct Hv.
Qed.

Lemma type_of (v : value) : comparable_value v → ∃ t, TypeOf v = Some t.
Proof. intros [Hv _]. destruct v; [by eexists..|done]. Qed.

Lemma promoted (l r : value) : comparable_value r → comparable_value (intFloatPromotion l r).
Proof. intros Hr. unfold intFloatPromotion. repeat case_match; done. Qed.

Lemma compare_string_typed op (l r : string) : ValidString r = true → ∃ b, compare_string op l r = Ok b.
Proof.
  intros Hr. unfold compare_string. destruct (like_correct l r) as [[? _]|(_ & b & -> & _)]; [congruence|].
  repeat case_decide; by eexists.
Qed.

Lemma compare_typed op (l r : value) :
  comparable_value l → comparable_value r → ∃ b, compare_operands op l r = Ok b.
Proof.
  intros Hl Hr. unfold compare_operands. destruct (type_of r Hr) as [t ->].
  destruct (widen_typed l t Hl) as (l1 & -> & Hl1). cbn [mbind outcome_bind]. destruct (type_of l1 Hl1) as [t' ->].
  destruct (widen_typed r t' Hr) as (r1 & -> & Hr1). cbn [mbind outcome_bind].
  pose proof (promoted l1 r1 Hr1) as Hr2. revert Hr2. generalize (intFloatPromotion l1 r1) as r2. intros r2 Hr2.
  pose proof (promoted r2 l1 Hl1) as Hl2. revert Hl2. generalize (intFloatPromotion r2 l1) as l2. intros l2 Hl2.
  unfold compare_values. repeat case_match; try by eexists. subst. apply compare_string_typed. by eapply Hr2.
Qed.

(** A filter has a boolean value on every object its literals and paths are typed on. *)
Lemma Eval_typed e o : writable e → well_typed e o → ∃ b, Eval e o = Ok (go_bool b).
Proof.
  induction e as [a IHa b IHb|a IHa b IHb|a IHa|op a IHa|op a IHa b IHb|b| | | | |]; simpl; intros Hw Ht; try done.
  - destruct (IHa (proj1 Hw) (proj1 Ht)) as [[] ->], (IHb (proj2 Hw) (proj2 Ht)) as [r Hr]; simpl; rewrite ?Hr; by eauto.
  - destruct (IHa (proj1 Hw) (proj1 Ht)) as [[] ->], (IHb (proj2 Hw) (proj2 Ht)) as [r Hr]; simpl; rewrite ?Hr; by eauto.
  - destruct IHa as [[] ->]; by eauto.
  - destruct Hw as [_ Ho]. destruct (operand_typed a o Ho Ht) as (v & -> & _). simpl. repeat case_decide; by eauto.
  - destruct Hw as (_ & Ha & Hb), Ht as [Hta Htb].
    destruct (operand_typed a o Ha Hta) as (v & -> & Hv), (operand_typed b o Hb Htb) as (w & -> & Hw).
    cbn [mbind outcome_bind]. destruct (compare_typed op v w Hv Hw) as [r ->]. by eexists.
  - by eexists.
Qed.
End Paths.
