(* ===== verification/Cache.v ===== *)
(** The object cache of the console ([pkg/consolegraphql/cache]): objects and the keys
    under which they are indexed, and the operations of [MemdbCache] over the database
    of [hashicorp/go-memdb]. *)
From stdpp Require Import base gmap strings list.
From Stdlib Require Import Ascii.
From S2P Require Import Prelude GoStrings.

(** ** Objects *)

(** [metav1.TypeMeta] and [metav1.ObjectMeta]. *)
Record meta := {
  APIVersion : string;
  Kind : string;
  Namespace : string;
  Name : string;
}.

Record LinkSpec := {
  ls_Connection : string;
  ls_AddressSpace : string;
  ls_Address : string;
}.

(** What an [interface{}] of the cache points to; [R] is the rest of the object. *)
Inductive object (R : Type) :=
  | CoreNamespace (m : meta) (r : R)
  | AddressSpaceHolder (m : meta) (r : R)
  | AddressHolder (m : meta) (Address : string) (r : R)
  | Connection (m : meta) (AddressSpace : string) (r : R)
  | Link (m : meta) (spec : LinkSpec) (r : R)
  | AddressPlan (m : meta) (r : R)
  | AddressSpacePlan (m : meta) (r : R)
  | AddressSpaceSchema (m : meta) (r : R)
  | AuthenticationService (m : meta) (r : R)
  | OtherObject (r : R).
Arguments CoreNamespace {R} m r.
Arguments AddressSpaceHolder {R} m r.
Arguments AddressHolder {R} m Address r.
Arguments Connection {R} m AddressSpace r.
Arguments Link {R} m spec r.
Arguments AddressPlan {R} m r.
Arguments AddressSpacePlan {R} m r.
Arguments AddressSpaceSchema {R} m r.
Arguments AuthenticationService {R} m r.
Arguments OtherObject {R} r.

#[global] Instance meta_eq_dec : EqDecision meta.
Proof. solve_decision. Defined.
#[global] Instance LinkSpec_eq_dec : EqDecision LinkSpec.
Proof. solve_decision. Defined.
#[global] Instance object_eq_dec {R} `{EqDecision R} : EqDecision (object R).
Proof. solve_decision. Defined.

(** ** Keys *)

(** The three results of a [KeyCreator]. *)
Definition keyed : Type := bool * string * option error.
Definition KeyCreator (R : Type) : Type := object R → keyed.

Section Keys.
Context {R : Type}.
Implicit Types o : object R.

Definition primaryUniqueKeyCreator o : keyed :=
  match o with
  | CoreNamespace m _ => (true, Kind m +:+ "/" +:+ Name m, None)
  | AddressSpaceHolder m _ => (true, Kind m +:+ "/" +:+ Namespace m +:+ "/" +:+ Name m, None)
  | AddressHolder m _ _ =>
      let i := index_byte (Name m) "." in
      if (i <? 0)%Z
      then (false, "", Some (Errorf ("unexpected address name formation '" +:+ Name m +:+ "', expected dot separator")))
      else (true, Kind m +:+ "/" +:+ Namespace m +:+ "/" +:+ Name m, None)
  | Connection m AddressSpace _ =>
      (true, Kind m +:+ "/" +:+ Namespace m +:+ "/" +:+ AddressSpace +:+ "/" +:+ Name m, None)
  | Link m spec _ =>
      (true, Kind m +:+ "/" +:+ Namespace m +:+ "/" +:+ ls_AddressSpace spec +:+ "/" +:+
               ls_Connection spec +:+ "/" +:+ Name m, None)
  | AddressPlan m _ | AddressSpacePlan m _ | AddressSpaceSchema m _ | AuthenticationService m _ =>
      (true, Kind m +:+ "/" +:+ Name m, None)
  | OtherObject _ => (false, "", None)
  end.

Definition addressLinkKeyCreator o : keyed :=
  match o with
  | Link m spec _ =>
      (true, Kind m +:+ "/" +:+ Namespace m +:+ "/" +:+ ls_AddressSpace spec +:+ "/" +:+
               ls_Address spec +:+ "/" +:+ Name m, None)
  | _ => (false, "", None)
  end.

(** ** [hierarchyIndex] *)

Definition NUL : string := String "000"%char EmptyString.

Definition FromObject (keyCreator : KeyCreator R) o : keyed :=
  let '(rv, key, err) := keyCreator o in (rv, key +:+ NUL, err).

Definition FromArgs (arg : string) : string := arg +:+ NUL.
Definition PrefixFromArgs (arg : string) : string := arg.

Record IndexSpecifier := {
  is_Name : string;
  AllowMissing : bool;
  keyCreator : KeyCreator R;
}.

(** The key of an object in an index, as the database sees it: [None] when the indexer
    finds none or fails. *)
Definition index_key (ix : IndexSpecifier) o : option string :=
  match FromObject (keyCreator ix) o with
  | (true, key, None) => Some key
  | _ => None
  end.

(** Whether the database accepts an object in an index. *)
Definition indexable (ix : IndexSpecifier) o : bool :=
  match FromObject (keyCreator ix) o with
  | (true, _, None) => true
  | (false, _, None) => AllowMissing ix
  | _ => false
  end.
End Keys.
Arguments IndexSpecifier R : clear implicits.

(** ** The database *)

(** The order of keys, as sequences of bytes. *)
Fixpoint bytes_le (s t : string) : bool :=
  match s, t with
  | EmptyString, _ => true
  | String _ _, EmptyString => false
  | String c s', String d t' =>
      (byte_of c <? byte_of d)%Z || (byte_of c =? byte_of d)%Z && bytes_le s' t'
  end.

Fixpoint ascending (l : list string) : bool :=
  match l with
  | a :: (b :: _) as l' => bytes_le a b && negb (bytes_le b a) && ascending l'
  | _ => true
  end.

(** [go-memdb]: one table of objects with unique indexes, [id] among them. A database
    is a value; a transaction that is not committed leaves it as it was. *)
Class MemDB (R : Type) := {
  DB : Type;
  NewMemDB : list (IndexSpecifier R) → outcome DB;
  Insert : object R → DB → outcome DB;
  Delete : object R → DB → outcome DB;
  DeletePrefix : string → string → DB → outcome DB;
  LowerBound : string → string → DB → outcome (list (object R));
  First : string → string → DB → outcome (option (object R));
  (** What a database holds. *)
  indexes : DB → list (IndexSpecifier R);
  objects : DB → list (object R);
}.

Section Stored.
Context {R : Type} `{HM : !MemDB R}.

Definition find_index (name : string) (ixs : list (IndexSpecifier R)) : option (IndexSpecifier R) :=
  head (filter (λ ix, is_Name ix = name) ixs).

Definition stored_key (db : DB) (name : string) (o : object R) : option string :=
  ix ← find_index name (indexes db); index_key ix o.

Definition prefixed_key (db : DB) (name pre : string) (o : object R) : bool :=
  match stored_key db name o with Some k => HasPrefix k pre | None => false end.
End Stored.

(** The documented behaviour: an insertion replaces the object with the same [id], a
    scan returns the objects in the order of their keys. *)
Class MemDBLaws (R : Type) `{!MemDB R} : Prop := {
  objects_id db o : o ∈ objects db → is_Some (stored_key db "id" o);
  objects_unique db o o' :
    o ∈ objects db → o' ∈ objects db → stored_key db "id" o = stored_key db "id" o' → o = o';
  objects_NoDup db : NoDup (objects db);
  NewMemDB_ok ixs :
    NoDup (is_Name <$> ixs) → "id" ∈ is_Name <$> ixs →
    ∃ db, NewMemDB ixs = Ok db ∧ indexes db = ixs ∧ objects db = [];
  Insert_ok db o :
    is_Some (stored_key db "id" o) → forallb (λ ix, indexable ix o) (indexes db) = true →
    ∃ db', Insert o db = Ok db' ∧ indexes db' = indexes db ∧
      objects db' ≡ₚ o :: filter (λ o', stored_key db "id" o' ≠ stored_key db "id" o) (objects db);
  Insert_err db o :
    stored_key db "id" o = None ∨ forallb (λ ix, indexable ix o) (indexes db) = false →
    ∃ e, Insert o db = Err e;
  Delete_ok db o o' :
    o' ∈ objects db → stored_key db "id" o' = stored_key db "id" o →
    ∃ db', Delete o db = Ok db' ∧ indexes db' = indexes db ∧
      objects db' ≡ₚ filter (λ o', stored_key db "id" o' ≠ stored_key db "id" o) (objects db);
  Delete_err db o :
    (∀ o', o' ∈ objects db → stored_key db "id" o' ≠ stored_key db "id" o) → ∃ e, Delete o db = Err e;
  DeletePrefix_ok db name pre :
    name ∈ is_Name <$> indexes db →
    (∀ o o' k, o ∈ objects db → o' ∈ objects db → stored_key db name o = Some k → stored_key db name o' = Some k → o = o') →
    ∃ db', DeletePrefix (name +:+ "_prefix") pre db = Ok db' ∧ indexes db' = indexes db ∧
      objects db' ≡ₚ filter (λ o, prefixed_key db name pre o = false) (objects db);
  LowerBound_ok db name b :
    name ∈ is_Name <$> indexes db →
    ∃ l, LowerBound name b db = Ok l ∧
      ascending (omap (stored_key db name) l) = true ∧
      (∀ o, o ∈ l → o ∈ objects db ∧ ∃ k, stored_key db name o = Some k ∧ bytes_le b k = true) ∧
      (∀ o k, (∀ o', o' ∈ objects db → stored_key db name o' = Some k → o' = o) →
        o ∈ objects db → stored_key db name o = Some k → bytes_le b k = true → o ∈ l);
  LowerBound_err db name b : name ∉ is_Name <$> indexes db → ∃ e, LowerBound name b db = Err e;
  First_ok db k :
    ∃ r, First "id" k db = Ok r ∧ ∀ o, r = Some o ↔ o ∈ objects db ∧ stored_key db "id" o = Some k;
}.

(** ** [MemdbCache] *)

Section Cache.
Context {R : Type} `{HM : !MemDB R} (fmt_v : object R → string).
Implicit Types o : object R.

(** The schema of the table, by the names of its indexes, and the database. *)
Record MemdbCache := {
  schema : list (IndexSpecifier R);
  db : DB;
}.

(** [%T] of an object. *)
Definition type_name o : string :=
  match o with
  | CoreNamespace _ _ => "*v1.Namespace"
  | AddressSpaceHolder _ _ => "*consolegraphql.AddressSpaceHolder"
  | AddressHolder _ _ _ => "*consolegraphql.AddressHolder"
  | Connection _ _ _ => "*consolegraphql.Connection"
  | Link _ _ _ => "*consolegraphql.Link"
  | AddressPlan _ _ => "*v1beta2.AddressPlan"
  | AddressSpacePlan _ _ => "*v1beta2.AddressSpacePlan"
  | AddressSpaceSchema _ _ => "*v1beta1.AddressSpaceSchema"
  | AuthenticationService _ _ => "*v1beta1.AuthenticationService"
  | OtherObject _ => "interface {}"
  end.

(** The map of index schemas [Init] builds: the last one of a name stays. *)
Definition schemas (ixs : list (IndexSpecifier R)) : list (IndexSpecifier R) :=
  foldl (λ acc ix, filter (λ ix', is_Name ix' ≠ is_Name ix) acc ++ [ix]) [] ixs.

Definition Init (ixs : list (IndexSpecifier R)) : outcome MemdbCache :=
  d ← NewMemDB (schemas ixs); mret {| schema := schemas ixs; db := d |}.

Definition PrimaryObjectIndex : string := "id".
Definition AddressLinkObjectIndex : string := "addressLinkHierarchy".

Definition CreateObjectCache : outcome MemdbCache :=
  Init [{| is_Name := PrimaryObjectIndex; AllowMissing := false; keyCreator := primaryUniqueKeyCreator |};
        {| is_Name := AddressLinkObjectIndex; AllowMissing := true; keyCreator := addressLinkKeyCreator |}].

(** [txn.Commit] of the database a transaction made, when it made one. *)
Definition commit (txn : outcome DB) : prog MemdbCache () := λ c,
  match txn with
  | Ok d => ({| schema := schema c; db := d |}, Ok ())
  | Err e => (c, Err e)
  | Panic => (c, Panic)
  end.

(** A loop of a transaction. *)
Fixpoint each_txn (f : object R → DB → outcome DB) (objs : list (object R)) (d : DB) : outcome DB :=
  match objs with
  | [] => Ok d
  | o :: objs' => d ← f o d; each_txn f objs' d
  end.

Definition Add (objs : list (object R)) : prog MemdbCache () := λ c, commit (each_txn Insert objs (db c)) c.
Definition cache_Delete (objs : list (object R)) : prog MemdbCache () := λ c, commit (each_txn Delete objs (db c)) c.

Definition getKeyForObject o (ix : IndexSpecifier R) : keyed :=
  match FromObject (keyCreator ix) o with
  | (_, _, Some err) => (false, "", Some err)
  | (b, key, None) => (b, key, None)
  end.

(** One object of [Update]. *)
Definition update_one (mutator : object R → outcome (option (object R))) (ix : IndexSpecifier R) o (txn : DB)
    : outcome DB :=
  match getKeyForObject o ix with
  | (true, key, None) =>
      current ← First PrimaryObjectIndex (FromArgs (String.substring 0 (String.length key - 1) key)) txn;
      match current with
      | None => Err (Errorf ("failed to find the object in the cache [key: " +:+ key +:+ "]"))
      | Some current =>
          mutated ← mutator current;
          match mutated with
          | None => mret txn
          | Some mutated =>
              match getKeyForObject mutated ix with
              | (newIvFound, mutatedKey, None) =>
                  if newIvFound then
                    if decide (mutatedKey = key) then Insert mutated txn
                    else Err (Errorf ("update mutator must not change the key [original: " +:+ key +:+
                                      " mutated :" +:+ mutatedKey +:+ "]"))
                  else Err (Errorf ("failed to find the index value on the mutated object [original key: " +:+
                                    key +:+ ", mutated object (" +:+ type_name mutated +:+ ") " +:+ fmt_v mutated +:+ "]"))
              | (_, _, Some err) => Err err
              end
          end
      end
  | (_, _, Some err) => Err err
  | (false, _, None) => Err (Errorf ("failed to find the index value on the object [object " +:+ fmt_v o +:+ "]"))
  end.

(** The mutator is a function from the object to its replacement, as its documentation
    says. One that changes the object in place, as those of the watchers and of the metrics
    do, has done so before the transaction is committed, and the change stays when the
    transaction is aborted; a watcher's call is about one object and does not fail after the
    change. *)
Definition Update (mutator : object R → outcome (option (object R))) (objs : list (object R)) : prog MemdbCache () := λ c,
  match find_index PrimaryObjectIndex (schema c) with
  | Some ix => commit (each_txn (update_one mutator ix) objs (db c)) c
  | None => match objs with [] => commit (Ok (db c)) c | _ => (c, Panic) end
  end.

Definition DeleteByPrefix (idxName keyPrefix : string) : prog MemdbCache () := λ c,
  commit (DeletePrefix (idxName +:+ "_prefix") (PrefixFromArgs keyPrefix) (db c)) c.

(** ** Filters and queries *)

(** An [ObjectFilter]: whether the object matches and whether to go on; filters keep a
    state of their own. *)
Definition ObjectFilter (S : Type) : Type := object R → prog S (bool * bool).

(** [And]. The flag [c] is true until a filter asks to stop. *)
Fixpoint And_from {S} (filters : list (option (ObjectFilter S))) (o : object R) (c : bool) : prog S (bool * bool) :=
  match filters with
  | [] => mret (true, c)
  | None :: filters' => And_from filters' o c
  | Some f :: filters' =>
      f o ≫= λ r : bool * bool,
        let '(fr, fc) := r in
        if fr then And_from filters' o (if fc then c else false) else mret (false, fc)
  end.
Definition And {S} (filters : list (option (ObjectFilter S))) : ObjectFilter S := λ o, And_from filters o true.

(** The loop of [Get] over what the iterator returns. *)
Fixpoint get_loop {S} (idxName : string) (ix : option (IndexSpecifier R)) (keyPrefix : string)
    (filter : option (ObjectFilter S)) (itr : list (object R)) (objs : list (object R)) : prog S (list (object R)) :=
  match itr with
  | [] => mret objs
  | obj :: itr' =>
      match ix with
      | None => lift Panic
      | Some ix' =>
          match getKeyForObject obj ix' with
          | (true, key, None) =>
              if HasPrefix key keyPrefix then
                match filter with
                | None => get_loop idxName ix keyPrefix filter itr' (objs ++ [obj])
                | Some f => λ s,
                    match f obj s with
                    | (s, Panic) => (s, Panic)
                    | (s, Err err) =>
                        (s, Err (Errorf ("filter failed for type: " +:+ type_name obj +:+ " " +:+ Error err)))
                    | (s, Ok (ok, cont)) =>
                        let objs := if ok then objs ++ [obj] else objs in
                        if cont then get_loop idxName ix keyPrefix filter itr' objs s else (s, Ok objs)
                    end
                end
              else mret objs
          | _ => lift (Err (Errorf ("failed to generate key (index " +:+ idxName +:+ ") for existing object: " +:+ type_name obj)))
          end
      end
  end.

(** [Get]; the objects it returns beside an error are not modelled, no caller uses
    them. *)
Definition Get {S} (c : MemdbCache) (idxName keyPrefix : string) (filter : option (ObjectFilter S)) : prog S (list (object R)) :=
  itr ← lift (LowerBound idxName (FromArgs keyPrefix) (db c));
  get_loop idxName (find_index idxName (schema c)) keyPrefix filter itr [].

(** [GetKeyCreator]: every indexer of the schema is a [hierarchyIndex]. *)
Definition GetKeyCreator (c : MemdbCache) (idxName : string) : outcome (KeyCreator R) :=
  match find_index idxName (schema c) with
  | Some ix => Ok (keyCreator ix)
  | None => Err (Errorf ("index not found " +:+ idxName))
  end.
End Cache.
