(* ===== verification/CacheFacts.v ===== *)
(** The cache: a query returns, in the order of their keys, the objects whose key has
    the prefix and that the filter matches. The cache refines a map from primary keys to
    objects: every operation that changes it makes the change of the map, or fails and
    leaves it as it was; an update never moves an object to another key. *)
From stdpp Require Import base gmap sets strings list.
From Stdlib Require Import Ascii.
From S2P Require Import Prelude GoStrings Cache.

(** ** The order of keys *)

Lemma bytes_le_cons c s d t :
  bytes_le (String c s) (String d t) = true ↔ (byte_of c < byte_of d)%Z ∨ c = d ∧ bytes_le s t = true.
Proof.
  simpl. rewrite orb_true_iff, andb_true_iff, Z.ltb_lt, Z.eqb_eq. split.
  - intros [|[H%byte_of_inj ?]]; auto.
  - intros [|[-> ?]]; auto.
Qed.

Lemma bytes_le_refl s : bytes_le s s = true.
Proof. induction s as [|c s IH]; [done|]. apply bytes_le_cons. auto. Qed.

Lemma bytes_le_trans s t u : bytes_le s t = true → bytes_le t u = true → bytes_le s u = true.
Proof.
  revert t u. induction s as [|c s IH]; intros [|d t] [|e u]; try done.
  rewrite !bytes_le_cons. intros [?|[-> ?]] [?|[-> ?]]; [left; lia|auto..|]. right. eauto.
Qed.

Lemma bytes_le_total s t : bytes_le s t = true ∨ bytes_le t s = true.
Proof.
  revert t. induction s as [|c s IH]; intros [|d t]; auto. rewrite !bytes_le_cons.
  destruct (Z.lt_trichotomy (byte_of c) (byte_of d)) as [|[->%byte_of_inj|]]; [auto| |auto].
  destruct (IH t); auto.
Qed.

Lemma bytes_le_antisym s t : bytes_le s t = true → bytes_le t s = true → s = t.
Proof.
  revert t. induction s as [|c s IH]; intros [|d t]; try done.
  rewrite !bytes_le_cons. intros [?|[-> ?]] [?|[? ?]]; try lia; [by subst; lia|]. f_equal. auto.
Qed.

(** ** Prefixes *)

Lemma HasPrefix_spec s pre : HasPrefix s pre = true ↔ ∃ t, s = pre +:+ t.
Proof.
  revert s. induction pre as [|c pre IH]; intros s; simpl.
  - destruct s; split; eauto.
  - destruct s as [|d s]; [split; [done|by intros [t ?]]|].
    rewrite andb_true_iff, Ascii.eqb_eq, IH. split.
    + intros [-> [t ->]]. by exists t.
    + intros [t [= -> ->]]. eauto.
Qed.

Lemma bytes_le_app pre s t : bytes_le (pre +:+ s) (pre +:+ t) = bytes_le s t.
Proof.
  induction pre as [|c pre IH]; [done|]. simpl. rewrite Z.ltb_irrefl, Z.eqb_refl. done.
Qed.

Lemma bytes_le_prefix pre s : bytes_le pre (pre +:+ s) = true.
Proof. induction pre as [|c pre IH]; [done|]. apply (bytes_le_cons c pre c (pre +:+ s)). auto. Qed.

(** Keys between a prefix and a key that has it have it. *)
Lemma prefix_interval pre x y :
  bytes_le pre x = true → bytes_le x y = true → HasPrefix y pre = true → HasPrefix x pre = true.
Proof.
  revert x y. induction pre as [|c pre IH]; intros [|d x] [|e y]; try done.
  rewrite !bytes_le_cons. cbn [HasPrefix]. rewrite !andb_true_iff, !Ascii.eqb_eq. intros H1 H2 [-> Hp].
  destruct H1 as [?|[-> ?]], H2 as [?|[? ?]]; try lia; [by subst; lia|]. split; [done|eauto].
Qed.

(** The terminated keys at or after a terminated prefix, and that have the prefix. *)
Lemma prefix_terminated k pre :
  HasPrefix (k +:+ NUL) pre = true ∧ bytes_le (FromArgs pre) (k +:+ NUL) = true ↔ HasPrefix k pre = true.
Proof.
  rewrite !HasPrefix_spec. unfold FromArgs. split.
  - revert k. induction pre as [|c pre IH]; intros k [[t Ht] Hle]; [by exists k|].
    destruct k as [|d k]; simpl in Ht; injection Ht as Hc Ht; subst.
    + by destruct pre.
    + simpl in Hle. rewrite Z.ltb_irrefl, Z.eqb_refl in Hle. simpl in Hle.
      destruct (IH k) as [t' ->]; [by eauto|]. by exists t'.
  - intros [t ->]. split; [exists (t +:+ NUL); by rewrite append_assoc|].
    rewrite append_assoc, bytes_le_app. destruct t as [|c t]; [done|].
    apply (bytes_le_cons "000" "" c (t +:+ NUL)). pose proof (byte_of_range c).
    destruct (decide (byte_of c = 0)%Z) as [H0|]; [right|left].
    + split; [by apply byte_of_inj|done].
    + change (byte_of "000") with 0%Z. lia.
Qed.

(** ** Scans *)

Section Facts.
Context {R : Type} `{HM : !MemDB R} `{HL : !MemDBLaws R}.
Notation cache := (MemdbCache (R := R)).
Implicit Types (c : cache) (o : object R) (l : list (object R)).

(** The schema the cache holds is that of its database. *)
Record cache_wf c : Prop := {
  cw_schema : schema c = indexes (db c);
  cw_id : PrimaryObjectIndex ∈ is_Name <$> schema c;
  cw_names : NoDup (is_Name <$> schema c);
}.

(** No two objects share a key of an index. *)
Definition unique_keys c (name : string) : Prop :=
  ∀ o o' k, o ∈ objects (db c) → o' ∈ objects (db c) →
    stored_key (db c) name o = Some k → stored_key (db c) name o' = Some k → o = o'.

Lemma unique_primary c : unique_keys c PrimaryObjectIndex.
Proof. intros o o' k Ho Ho' Hk Hk'. apply (objects_unique (db c)); [done..|]. unfold PrimaryObjectIndex in *. congruence. Qed.

(** Strictly ascending keys. *)
Lemma ascending_head (key : object R → option string) o l k :
  ascending (omap key (o :: l)) = true → key o = Some k → (∀ o', o' ∈ l → is_Some (key o')) →
  ascending (omap key l) = true ∧ ∀ o' k', o' ∈ l → key o' = Some k' → bytes_le k k' = true ∧ k ≠ k'.
Proof.
  revert o k. induction l as [|o1 l IH]; intros o k Ha Hk Hall.
  { split; [done|]. intros o' k' Ho'. by apply elem_of_nil in Ho'. }
  destruct (Hall o1) as [k1 Hk1]; [set_solver|]. cbn [omap list_omap] in Ha. rewrite Hk, Hk1 in Ha.
  assert (bytes_le k k1 = true ∧ k ≠ k1 ∧ ascending (omap key (o1 :: l)) = true) as (Hle & Hne & Ha1).
  { cbn [omap list_omap]. rewrite Hk1. cbn [ascending] in Ha. apply andb_true_iff in Ha as [[H1 H2]%andb_true_iff H3].
    split_and!; [done| |done]. intros ->. by rewrite bytes_le_refl in H2. }
  destruct (IH o1 k1 Ha1 Hk1) as [Ha2 Hlt]; [set_solver|]. split; [done|].
  intros o' k' [->|Ho']%elem_of_cons Hk'; [naive_solver|]. destruct (Hlt o' k' Ho' Hk') as [Hle' Hne'].
  split; [by eapply bytes_le_trans|]. intros ->. apply Hne. by apply bytes_le_antisym.
Qed.

(** Lists in the order of their keys are equal when they have the same elements. *)
Lemma ascending_ext (key : object R → option string) l l' :
  ascending (omap key l) = true → ascending (omap key l') = true →
  (∀ o, o ∈ l → is_Some (key o)) → (∀ o, o ∈ l ↔ o ∈ l') → l = l'.
Proof.
  revert l'. induction l as [|o l IH]; intros l' Ha Ha' Hk He.
  { destruct l' as [|o' l']; [done|]. exfalso. apply (elem_of_nil o'), He, elem_of_cons. by left. }
  destruct l' as [|o' l']; [exfalso; apply (elem_of_nil o), He, elem_of_cons; by left|].
  destruct (Hk o) as [k Hko]; [by apply elem_of_cons; left|].
  destruct (Hk o') as [k' Hko']; [by apply He, elem_of_cons; left|].
  destruct (ascending_head key o l k Ha Hko) as [Hl Hlt]; [intros; apply Hk; by apply elem_of_cons; right|].
  destruct (ascending_head key o' l' k' Ha' Hko') as [Hl' Hlt']; [intros; apply Hk, He; by apply elem_of_cons; right|].
  assert (o = o') as <-.
  { destruct (proj1 (elem_of_cons l' o o') (proj1 (He o) (proj2 (elem_of_cons l o o) (or_introl eq_refl)))) as [|Ho]; [done|].
    destruct (proj1 (elem_of_cons l o' o) (proj2 (He o') (proj2 (elem_of_cons l' o' o') (or_introl eq_refl)))) as [|Ho']; [done|].
    destruct (Hlt _ _ Ho' Hko') as [? Hne], (Hlt' _ _ Ho Hko) as [? _]. destruct Hne. by apply bytes_le_antisym. }
  assert (k = k') as <- by congruence. f_equal. apply IH; [done..|intros; apply Hk; by apply elem_of_cons; right|].
  intros x. split; intros Hx.
  - destruct (proj1 (elem_of_cons l' x o) (proj1 (He x) (proj2 (elem_of_cons l x o) (or_intror Hx)))) as [->|]; [|done].
    by destruct (Hlt _ _ Hx Hko).
  - destruct (proj1 (elem_of_cons l x o) (proj2 (He x) (proj2 (elem_of_cons l' x o) (or_intror Hx)))) as [->|]; [|done].
    by destruct (Hlt' _ _ Hx Hko).
Qed.

(** All objects of an index, in the order of their keys. *)
Definition scan c (name : string) : list (object R) :=
  match LowerBound name "" (db c) with Ok l => l | _ => [] end.

Lemma scan_spec c name :
  cache_wf c → name ∈ is_Name <$> schema c → unique_keys c name →
  ascending (omap (stored_key (db c) name) (scan c name)) = true ∧
  ∀ o, o ∈ scan c name ↔ o ∈ objects (db c) ∧ is_Some (stored_key (db c) name o).
Proof.
  intros [Hs _ _] Hn Hu. rewrite Hs in Hn.
  destruct (LowerBound_ok (db c) name "" Hn) as (l & Hl & Ha & Hsound & Hcomplete).
  unfold scan. rewrite Hl. split; [done|]. intros o. split.
  - intros Ho. destruct (Hsound o Ho) as (? & k & -> & _). by eauto.
  - intros [Ho [k Hk]]. apply (Hcomplete o k); [|done..]. intros o' Ho' Hk'. by eapply Hu.
Qed.

(** An object of the list satisfies a predicate, those before it too. *)
Lemma ascending_filter (key : object R → option string) (P : object R → Prop) `{∀ o, Decision (P o)} l :
  ascending (omap key l) = true → (∀ o, o ∈ l → is_Some (key o)) → ascending (omap key (filter P l)) = true.
Proof.
  induction l as [|o l IH]; intros Ha Hk; [done|].
  destruct (Hk o) as [k Hko]; [by apply elem_of_cons; left|].
  destruct (ascending_head key o l k Ha Hko) as [Hl Hlt]; [intros; apply Hk; by apply elem_of_cons; right|].
  specialize (IH Hl ltac:(intros; apply Hk; by apply elem_of_cons; right)).
  rewrite filter_cons. destruct (decide (P o)); [|done].
  cbn [omap list_omap]. rewrite Hko. destruct (omap key (filter P l)) as [|k1 ks] eqn:Hks; [done|].
  assert (k1 ∈ omap key (filter P l)) as (o1 & Ho1 & Hk1)%list_elem_of_omap by (rewrite Hks; by apply elem_of_cons; left).
  apply list_elem_of_filter in Ho1 as [_ Ho1]. destruct (Hlt _ _ Ho1 Hk1) as [Hle Hne].
  change (bytes_le k k1 && negb (bytes_le k1 k) && ascending (k1 :: ks) = true).
  rewrite Hle, IH, andb_true_r. apply negb_true_iff. apply not_true_iff_false.
  intros Hle'. apply Hne. by apply bytes_le_antisym.
Qed.

(** The key an object has in an index, without the terminator. *)
Definition object_key c (name : string) o : option string :=
  ix ← find_index name (schema c);
  match keyCreator ix o with (true, key, None) => Some key | _ => None end.

Definition has_key_prefix c (name pre : string) o : bool :=
  match object_key c name o with Some k => HasPrefix k pre | None => false end.

Lemma stored_object_key c name o :
  cache_wf c → stored_key (db c) name o = (λ k, k +:+ NUL) <$> object_key c name o.
Proof.
  intros [Hs _ _]. unfold stored_key, object_key, index_key, FromObject. rewrite Hs.
  destruct (find_index name (indexes (db c))) as [ix|]; [|done]. simpl.
  by destruct (keyCreator ix o) as [[[] k] []].
Qed.

(** The elements before the first that fails a test. *)
Fixpoint take_while {A} (f : A → bool) (l : list A) : list A :=
  match l with
  | [] => []
  | x :: l' => if f x then x :: take_while f l' else []
  end.

Lemma take_while_ext {A} (f g : A → bool) xs : (∀ x, x ∈ xs → f x = g x) → take_while f xs = take_while g xs.
Proof.
  induction xs as [|x xs IH]; intros Hfg; [done|]. simpl. rewrite <-(Hfg x) by (by apply elem_of_cons; left).
  destruct (f x); [|done]. f_equal. apply IH. intros. apply Hfg. by apply elem_of_cons; right.
Qed.

(** What a filter says of an object; without one, every object is taken. *)
Definition asked {S} (f : option (ObjectFilter (R := R) S)) o : prog S (bool * bool) :=
  match f with Some f => f o | None => mret (true, true) end.

(** The objects of a list that a filter takes, asked of one after the other until it stops
    or fails. *)
Fixpoint visit {S} (f : option (ObjectFilter (R := R) S)) (l : list (object R)) : prog S (list (object R)) := λ s,
  match l with
  | [] => (s, Ok [])
  | o :: l' =>
      match asked f o s with
      | (s, Panic) => (s, Panic)
      | (s, Err err) => (s, Err (Errorf ("filter failed for type: " +:+ type_name o +:+ " " +:+ Error err)))
      | (s, Ok (ok, cont)) =>
          match (if cont then visit f l' s else (s, Ok [])) with
          | (s, Ok os) => (s, Ok (if ok then o :: os else os))
          | (s, Err err) => (s, Err err)
          | (s, Panic) => (s, Panic)
          end
      end
  end.

Lemma get_loop_visit {S} (f : option (ObjectFilter (R := R) S)) name ix pre itr objs s :
  (∀ o, o ∈ itr → ∃ k, getKeyForObject o ix = (true, k, None)) →
  get_loop name (Some ix) pre f itr objs s =
    match visit f (take_while (λ o, let '(_, k, _) := getKeyForObject o ix in HasPrefix k pre) itr) s with
    | (s, Ok os) => (s, Ok (objs ++ os)) | (s, Err err) => (s, Err err) | (s, Panic) => (s, Panic)
    end.
Proof.
  revert objs s. induction itr as [|o itr IH]; intros objs s Hk; [by cbn; rewrite app_nil_r|].
  destruct (Hk o) as [k Hko]; [by apply elem_of_cons; left|]. cbn [get_loop take_while]. rewrite Hko.
  destruct (HasPrefix k pre) eqn:Hp; [|by cbn; rewrite app_nil_r].
  assert (∀ objs s, get_loop name (Some ix) pre f itr objs s = _) as IH'
    by (intros objs' s'; apply IH; intros; apply Hk; by apply elem_of_cons; right).
  cbn [visit]. destruct f as [f|]; cbn [asked].
  - destruct (f o s) as [s1 [[ok cont]|err|]]; [|done..]. destruct cont.
    + rewrite IH'. destruct (visit _ _ s1) as [s2 [os|err|]]; [|done..]. destruct ok; [by rewrite <-app_assoc|done].
    + destruct ok; [done|]. by rewrite app_nil_r.
  - rewrite IH'. cbn. destruct (visit _ _ s) as [s2 [os|err|]]; [|done..]. by rewrite <-app_assoc.
Qed.

(** The elements up to the first that fails a test, that one included. *)
Fixpoint through {A} (g : A → bool) (l : list A) : list A :=
  match l with
  | [] => []
  | x :: l' => x :: if g x then through g l' else []
  end.

Lemma through_all {A} (l : list A) : through (λ _, true) l = l.
Proof. induction l as [|x l IH]; [done|]. cbn. by rewrite IH. Qed.

(** A filter that takes by a predicate [m] and goes on by a predicate [g], whatever its
    state within [I]. *)
Definition decides {S} (I : S → Prop) (f : ObjectFilter (R := R) S) (m g : object R → bool) (P : object R → Prop) : Prop :=
  ∀ o s, P o → I s → ∃ s', f o s = (s', Ok (m o, g o)) ∧ I s'.

(** One that does not stop. *)
Definition answers {S} (I : S → Prop) (f : ObjectFilter (R := R) S) (m : object R → bool) (P : object R → Prop) : Prop :=
  decides I f m (λ _, true) P.

Lemma visit_decides {S} (I : S → Prop) f m g l s :
  (∀ o s, o ∈ l → I s → ∃ s', asked f o s = (s', Ok (m o, g o)) ∧ I s') → I s →
  ∃ s', visit f l s = (s', Ok (filter (λ o, m o = true) (through g l))) ∧ I s'.
Proof.
  revert s. induction l as [|o l IH]; intros s Hf Hs; [by exists s|]. cbn [visit through].
  destruct (Hf o s) as (s1 & -> & Hs1); [by left|done|]. rewrite filter_cons. destruct (g o).
  - destruct (IH s1) as (s2 & -> & Hs2); [intros o' s' Ho'; apply Hf; by right|done|]. exists s2. split; [|done].
    by destruct (m o).
  - exists s1. split; [|done]. by destruct (m o).
Qed.

Lemma filter_none {A} (P : A → Prop) `{∀ x, Decision (P x)} (xs : list A) :
  (∀ x, x ∈ xs → ¬ P x) → filter P xs = [].
Proof.
  induction xs as [|x xs IH]; intros Hl; [done|]. rewrite filter_cons, decide_False by (apply Hl; by apply elem_of_cons; left).
  apply IH. intros. apply Hl. by apply elem_of_cons; right.
Qed.

(** In the order of the keys, the objects with a prefix come first after the prefix. *)
Lemma take_while_prefix (key : object R → option string) pre l :
  ascending (omap key l) = true → (∀ o, o ∈ l → ∃ k, key o = Some k ∧ bytes_le pre k = true) →
  take_while (λ o, match key o with Some k => HasPrefix k pre | None => false end) l =
  filter (λ o, (match key o with Some k => HasPrefix k pre | None => false end) = true) l.
Proof.
  induction l as [|o l IH]; intros Ha Hk; [done|].
  destruct (Hk o) as (k & Hko & Hle); [by apply elem_of_cons; left|].
  destruct (ascending_head key o l k Ha Hko) as [Hl Hlt].
  { intros o' Ho'. destruct (Hk o') as (? & ? & _); [by apply elem_of_cons; right|]. eauto. }
  cbn [take_while]. rewrite filter_cons. rewrite Hko. destruct (HasPrefix k pre) eqn:Hp.
  - rewrite decide_True by done. f_equal. apply IH; [done|]. intros. apply Hk. by apply elem_of_cons; right.
  - rewrite decide_False by done. symmetry. apply filter_none. intros o' Ho'.
    destruct (Hk o') as (k' & Hk' & Hle'); [by apply elem_of_cons; right|]. rewrite Hk'.
    destruct (Hlt _ _ Ho' Hk') as [Hkk _]. intros Hp'. by rewrite (prefix_interval pre k k') in Hp.
Qed.

Lemma index_key_get o ix k : index_key ix o = Some k ↔ getKeyForObject o ix = (true, k, None).
Proof. unfold index_key, getKeyForObject. destruct (FromObject _ _) as [[[] ?] []]; naive_solver. Qed.

(** Where a scan from a key on begins. *)
Lemma LowerBound_scan c name b :
  cache_wf c → name ∈ is_Name <$> schema c → unique_keys c name →
  LowerBound name b (db c) =
    Ok (filter (λ o, (match stored_key (db c) name o with Some k => bytes_le b k | None => false end) = true) (scan c name)).
Proof.
  intros Hw Hn Hu. destruct (scan_spec c name Hw Hn Hu) as [Hasc Hscan].
  destruct (LowerBound_ok (db c) name b) as (l & Hl & Ha & Hsound & Hcomplete); [by rewrite <-(cw_schema c Hw)|].
  rewrite Hl. f_equal.
  apply (ascending_ext (stored_key (db c) name)); [done| |intros o Ho; destruct (Hsound o Ho) as (_ & k & -> & _); eauto|].
  - apply ascending_filter; [done|]. intros o Ho. by apply Hscan.
  - intros o. rewrite list_elem_of_filter, Hscan. split.
    + intros Ho. destruct (Hsound o Ho) as (? & k & -> & ?). eauto.
    + intros [Hb [Ho [k Hk]]]. rewrite Hk in Hb. apply (Hcomplete o k); [|done..]. intros o' Ho' Hk'. by eapply Hu.
Qed.

Lemma has_key_prefix_stored c name pre o :
  cache_wf c →
  has_key_prefix c name pre o = true ↔
    (match stored_key (db c) name o with Some k => HasPrefix k pre | None => false end) = true ∧
    (match stored_key (db c) name o with Some k => bytes_le (FromArgs pre) k | None => false end) = true.
Proof.
  intros Hw. rewrite stored_object_key by done. unfold has_key_prefix.
  destruct (object_key c name o) as [k|]; simpl; [|naive_solver]. by rewrite <-prefix_terminated.
Qed.

(** A query asks the filter of the objects with the prefix, in the order of their keys. *)
Lemma Get_visit {S} c name pre (f : option (ObjectFilter (R := R) S)) s :
  cache_wf c → name ∈ is_Name <$> schema c → unique_keys c name →
  Get c name pre f s = visit f (filter (λ o, has_key_prefix c name pre o = true) (scan c name)) s.
Proof.
  intros Hw Hn Hu. destruct (scan_spec c name Hw Hn Hu) as [Hasc Hscan].
  unfold Get. go_simpl. rewrite (LowerBound_scan c name (FromArgs pre)) by done.
  set (itr := filter _ (scan c name)).
  assert (∀ o, o ∈ itr → o ∈ scan c name ∧ ∃ k, stored_key (db c) name o = Some k ∧ bytes_le (FromArgs pre) k = true) as Hitr.
  { intros o [Hb Ho]%list_elem_of_filter. split; [done|]. destruct (stored_key (db c) name o); naive_solver. }
  assert (∃ ix, find_index name (schema c) = Some ix ∧ find_index name (indexes (db c)) = Some ix) as (ix & Hix & Hix').
  { rewrite <-(cw_schema c Hw). unfold find_index. apply list_elem_of_fmap in Hn as (ix & -> & Hix).
    destruct (filter _ (schema c)) as [|ix' ixs] eqn:Hfil; [|by exists ix'].
    exfalso. apply (filter_nil_not_elem_of _ _ ix Hfil); done. }
  assert (∀ o k, stored_key (db c) name o = Some k ↔ getKeyForObject o ix = (true, k, None)) as Hkey.
  { intros o k. rewrite <-index_key_get. unfold stored_key. rewrite Hix'. done. }
  rewrite Hix, get_loop_visit by (intros o Ho; destruct (Hitr o Ho) as (_ & k & Hk & _); exists k; by apply Hkey).
  rewrite (take_while_ext _ (λ o, match stored_key (db c) name o with Some k => HasPrefix k pre | None => false end)).
  2: { intros o Ho. destruct (Hitr o Ho) as (_ & k & Hk & _). rewrite Hk. apply Hkey in Hk. by rewrite Hk. }
  rewrite (take_while_prefix (stored_key (db c) name) pre itr).
  - unfold itr. rewrite !list_filter_filter.
    rewrite (list_filter_iff _ (λ o, has_key_prefix c name pre o = true)) by (intros o; rewrite has_key_prefix_stored by done; tauto).
    by destruct (visit _ _ s) as [s' []].
  - apply ascending_filter; [done|]. intros o Ho. by apply Hscan.
  - intros o Ho. destruct (Hitr o Ho) as (_ & k & Hk & Hle). exists k. split; [done|].
    eapply bytes_le_trans; [|exact Hle]. apply bytes_le_prefix.
Qed.

(** A query with a filter that answers by [m]. *)
Lemma Get_spec {S} (I : S → Prop) c name pre f m s :
  cache_wf c → name ∈ is_Name <$> schema c → unique_keys c name →
  (∀ f', f = Some f' → answers I f' m (λ o, o ∈ scan c name ∧ has_key_prefix c name pre o = true)) →
  (f = None → ∀ o, m o = true) → I s →
  ∃ s', Get c name pre f s =
    (s', Ok (filter (λ o, has_key_prefix c name pre o = true ∧ m o = true) (scan c name))) ∧ I s'.
Proof.
  intros Hw Hn Hu Hf Hnone Hs. rewrite Get_visit by done.
  destruct (visit_decides I f m (λ _, true) (filter (λ o, has_key_prefix c name pre o = true) (scan c name)) s) as (s' & -> & Hs'); [|done|].
  - intros o s1 [Hp Ho]%list_elem_of_filter Hs1. destruct f as [f|]; [by apply (Hf f)|]. exists s1. cbn. by rewrite Hnone.
  - exists s'. split; [|done]. rewrite through_all, list_filter_filter. do 2 f_equal. apply list_filter_iff. tauto.
Qed.
End Facts.

Section CacheMap.
Context {R : Type} `{HM : !MemDB R} `{HL : !MemDBLaws R}.
Notation cache := (MemdbCache (R := R)).
Notation contents := (gmap string (object R)).
Implicit Types (c : cache) (o : object R) (m : contents).

(** What the cache holds, by the primary key. *)
Definition primary_key c o : option string := object_key c PrimaryObjectIndex o.

Definition view c : contents :=
  list_to_map (omap (λ o, (λ k, (k, o)) <$> primary_key c o) (objects (db c))).

Lemma primary_key_inj c o o' k :
  cache_wf c → o ∈ objects (db c) → o' ∈ objects (db c) →
  primary_key c o = Some k → primary_key c o' = Some k → o = o'.
Proof.
  intros Hw Ho Ho' Hk Hk'. apply (unique_primary c o o' (k +:+ NUL)); [done..| |];
    rewrite stored_object_key by done; unfold primary_key in *; by rewrite ?Hk, ?Hk'.
Qed.

Lemma lookup_view c k o :
  cache_wf c → view c !! k = Some o ↔ o ∈ objects (db c) ∧ primary_key c o = Some k.
Proof.
  intros Hw. unfold view. rewrite <-elem_of_list_to_map.
  - rewrite list_elem_of_omap. split.
    + intros (o' & Ho' & Hk). destruct (primary_key c o') eqn:Hp; simplify_eq/=. done.
    + intros [Ho Hk]. exists o. by rewrite Hk.
  - assert (∀ l, NoDup l → (∀ x, x ∈ l → x ∈ objects (db c)) →
      NoDup (omap (λ o, (λ k, (k, o)) <$> primary_key c o) l).*1) as Hnd; [|by apply Hnd; [apply objects_NoDup|]].
    induction l as [|x l IH]; intros Hl Hin; [constructor|]. inversion Hl as [|? ? Hx Hl']; subst.
    specialize (IH Hl' ltac:(set_solver)). cbn [omap list_omap]. destruct (primary_key c x) as [kx|] eqn:Hkx; [|done].
    simpl. constructor; [|done]. intros ([k' o'] & Hk' & Ho')%list_elem_of_fmap. simpl in Hk'. subst k'.
    apply list_elem_of_omap in Ho' as (y & Hy & Heq). destruct (primary_key c y) eqn:Hky; simplify_eq/=.
    apply Hx. rewrite (primary_key_inj c x o' kx); [done..|set_solver|set_solver|done|done].
Qed.

(** ** Transactions *)

(** A database of the cache. *)
Definition with_db c (d : DB) : cache := {| schema := schema c; db := d |}.

(** A step on a database refines a step on a map. *)
Definition refines (f : object R → DB → outcome DB) (c : cache) (g : object R → contents → option contents) : Prop :=
  ∀ o d, cache_wf (with_db c d) →
    match g o (view (with_db c d)) with
    | Some m => ∃ d', f o d = Ok d' ∧ cache_wf (with_db c d') ∧ view (with_db c d') = m
    | None => ∃ e, f o d = Err e
    end.

Fixpoint each_map (g : object R → contents → option contents) (objs : list (object R)) m : option contents :=
  match objs with
  | [] => Some m
  | o :: objs' => m ← g o m; each_map g objs' m
  end.

Lemma each_refines f c g objs d :
  refines f c g → cache_wf (with_db c d) →
  match each_map g objs (view (with_db c d)) with
  | Some m => ∃ d', each_txn f objs d = Ok d' ∧ cache_wf (with_db c d') ∧ view (with_db c d') = m
  | None => ∃ e, each_txn f objs d = Err e
  end.
Proof.
  intros Hf. revert d. induction objs as [|o objs IH]; intros d Hw; [by exists d|].
  simpl. specialize (Hf o d Hw). destruct (g o _) as [m|]; simpl.
  - destruct Hf as (d' & -> & Hw' & <-). by apply IH.
  - destruct Hf as [e ->]. by exists e.
Qed.

(** The outcome of an operation on the cache. *)
Definition result c (r : option contents) (out : cache * outcome ()) : Prop :=
  match r with
  | Some m => ∃ c', out = (c', Ok ()) ∧ cache_wf c' ∧ schema c' = schema c ∧ view c' = m
  | None => ∃ e, out = (c, Err e)
  end.

Lemma commit_refines f c g objs :
  refines f c g → cache_wf c → result c (each_map g objs (view c)) (commit (each_txn f objs (db c)) c).
Proof.
  intros Hf Hw. assert (with_db c (db c) = c) as Hc by (by destruct c).
  pose proof (each_refines f c g objs (db c) Hf) as H. rewrite Hc in H. specialize (H Hw).
  unfold result, commit. destruct (each_map g objs (view c)) as [m|].
  - destruct H as (d' & -> & Hw' & <-). by exists (with_db c d').
  - destruct H as [e ->]. by exists e.
Qed.

(** ** The operations on the map *)

Definition addable c o : bool :=
  bool_decide (is_Some (primary_key c o)) && forallb (λ ix, indexable ix o) (schema c).

Definition map_insert c o m : option contents :=
  k ← primary_key c o; if addable c o then Some (<[k := o]> m) else None.

Definition map_delete c o m : option contents :=
  k ← primary_key c o; if decide (is_Some (m !! k)) then Some (delete k m) else None.

Lemma with_db_wf c d d' : cache_wf (with_db c d) → indexes d' = indexes d → cache_wf (with_db c d').
Proof. intros [] Hd. split; simpl in *; congruence. Qed.

Lemma stored_primary c d o :
  cache_wf (with_db c d) → stored_key d "id" o = (λ k, k +:+ NUL) <$> primary_key c o.
Proof. intros Hw. exact (stored_object_key (with_db c d) "id" o Hw). Qed.

Lemma NUL_inj s t : s +:+ NUL = t +:+ NUL → s = t.
Proof.
  revert t. induction s as [|c s IH]; intros [|d t] H; [done|..].
  - injection H as _ H. by destruct t.
  - injection H as _ H. by destruct s.
  - injection H as -> H. f_equal. by apply IH.
Qed.

Lemma stored_primary_ne c d o o' k :
  cache_wf (with_db c d) → primary_key c o = Some k → stored_key d "id" o' ≠ stored_key d "id" o ↔ primary_key c o' ≠ Some k.
Proof.
  intros Hw Hk. rewrite !(stored_primary c d) by done. rewrite Hk. split; intros H Heq; apply H.
  - by rewrite Heq.
  - destruct (primary_key c o') as [k'|]; simplify_eq/=. f_equal. apply NUL_inj. congruence.
Qed.

(** Databases with the objects of a map. *)
Lemma view_eq c d m :
  cache_wf (with_db c d) →
  (∀ k o, m !! k = Some o ↔ o ∈ objects d ∧ primary_key c o = Some k) → view (with_db c d) = m.
Proof.
  intros Hw Hm. apply map_eq. intros k. apply option_eq. intros o. rewrite lookup_view by done. by rewrite Hm.
Qed.

Lemma insert_refines c : refines Insert c (map_insert c).
Proof.
  intros o d Hw. unfold map_insert, addable. pose proof (stored_primary c d o Hw) as Hs.
  destruct (primary_key c o) as [k|] eqn:Hk; simpl.
  2: { apply Insert_err. by left. }
  assert (schema c = indexes d) as Hsch by apply (cw_schema _ Hw). rewrite Hsch.
  destruct (forallb _ (indexes d)) eqn:Hix.
  2: { apply Insert_err. by right. }
  destruct (Insert_ok d o) as (d' & HI & Hd & Hobj); [by rewrite Hs; eauto|done|].
  exists d'. split; [done|]. assert (cache_wf (with_db c d')) as Hw' by (by eapply with_db_wf). split; [done|].
  apply view_eq; [done|]. intros k' o'. rewrite Hobj, elem_of_cons, list_elem_of_filter.
  rewrite (stored_primary_ne c d o o' k) by done. destruct (decide (k' = k)) as [->|Hne].
  - rewrite lookup_insert_eq. naive_solver.
  - rewrite lookup_insert_ne, lookup_view by done. change (primary_key (with_db c d) o') with (primary_key c o'). simpl. split.
    + intros [? Hk']. split; [right; split; [congruence|done]|done].
    + intros [[->|[? ?]] ?]; [congruence|done].
Qed.

Lemma delete_refines c : refines Delete c (map_delete c).
Proof.
  intros o d Hw. unfold map_delete. pose proof (stored_primary c d o Hw) as Hs.
  destruct (primary_key c o) as [k|] eqn:Hk; simpl.
  2: { apply Delete_err. intros o' Ho'. destruct (objects_id d o' Ho') as [? ->]. by rewrite Hs. }
  destruct (decide (is_Some (view (with_db c d) !! k))) as [[o' Ho']|Hno].
  - apply lookup_view in Ho' as [Ho' Hk']; [|done]. change (primary_key c o' = Some k) in Hk'.
    destruct (Delete_ok d o o') as (d' & HD & Hd & Hobj); [done|by rewrite Hs, (stored_primary c d), Hk'|].
    exists d'. split; [done|]. assert (cache_wf (with_db c d')) as Hw' by (by eapply with_db_wf). split; [done|].
    apply view_eq; [done|]. intros k1 o1. rewrite Hobj, list_elem_of_filter, (stored_primary_ne c d o o1 k) by done.
    destruct (decide (k1 = k)) as [->|Hne].
    + rewrite lookup_delete_eq. naive_solver.
    + rewrite lookup_delete_ne, lookup_view by done. change (primary_key (with_db c d) o1) with (primary_key c o1). simpl.
      naive_solver.
  - apply Delete_err. intros o' Ho'. rewrite (stored_primary_ne c d o o' k) by done. intros Hk'. apply Hno.
    exists o'. apply lookup_view; [done|]. done.
Qed.

(** ** Updates *)

(** The mutator of [Update] on a map. *)
Definition map_update c (mutator : object R → outcome (option (object R))) o m : option contents :=
  k ← primary_key c o;
  current ← m !! k;
  match mutator current with
  | Ok None => Some m
  | Ok (Some mutated) =>
      if decide (primary_key c mutated = Some k) then map_insert c mutated m else None
  | _ => None
  end.

Lemma substring_terminated k : String.substring 0 (String.length (k +:+ NUL) - 1) (k +:+ NUL) = k.
Proof.
  assert (String.length (k +:+ NUL) = S (String.length k)) as ->.
  { induction k as [|c k IH]; [done|]. simpl. by rewrite IH. }
  replace (S (String.length k) - 1) with (String.length k) by lia.
  induction k as [|c k IH]; [done|]. simpl. by rewrite IH.
Qed.

(** The primary index of the schema. *)
Lemma primary_getKey c ix o k :
  find_index PrimaryObjectIndex (schema c) = Some ix →
  primary_key c o = Some k ↔ getKeyForObject o ix = (true, k +:+ NUL, None).
Proof.
  intros Hix. unfold primary_key, object_key, getKeyForObject, FromObject. rewrite Hix. simpl.
  destruct (keyCreator ix o) as [[[] k'] []]; try naive_solver.
  split; [by intros [= ->]|]. intros [= H%NUL_inj]. by subst.
Qed.

Lemma update_refines (fmt_v : object R → string) c mutator ix :
  find_index PrimaryObjectIndex (schema c) = Some ix → (∀ o, mutator o ≠ Panic) →
  refines (update_one fmt_v mutator ix) c (map_update c mutator).
Proof.
  intros Hix Hmut o d Hw. unfold map_update, update_one.
  destruct (primary_key c o) as [k|] eqn:Hk; simpl.
  2: { destruct (getKeyForObject o ix) as [[[] key] [err|]] eqn:Hg; try by eexists. exfalso.
       assert (primary_key c o = Some (String.substring 0 (String.length key - 1) key)); [|congruence].
       unfold getKeyForObject, FromObject in Hg. unfold primary_key, object_key. rewrite Hix. simpl.
       destruct (keyCreator ix o) as [[[] k'] []]; simplify_eq/=. by rewrite substring_terminated. }
  rewrite (proj1 (primary_getKey c ix o k Hix) Hk), substring_terminated.
  destruct (First_ok d (FromArgs k)) as (r & Hr & Hro). unfold PrimaryObjectIndex. rewrite Hr. simpl.
  assert (∀ o', r = Some o' ↔ view (with_db c d) !! k = Some o') as Hview.
  { intros o'. rewrite Hro, lookup_view by done. change (primary_key (with_db c d) o') with (primary_key c o').
    rewrite (stored_primary c d) by done. unfold FromArgs. destruct (primary_key c o') as [k'|]; simpl; [|naive_solver].
    split; intros [? H]; (split; [done|]); [injection H as H%NUL_inj; by subst|by simplify_eq]. }
  assert (r = view (with_db c d) !! k) as <- by (apply option_eq; done).
  destruct r as [current|]; simpl; [|by eexists].
  pose proof (Hmut current) as Hp. destruct (mutator current) as [[mutated|]|e|]; simpl; [| |by eexists|done].
  2: { exists d. split_and!; [done|done|done]. }
  pose proof (insert_refines c mutated d Hw) as Hins.
  destruct (decide (primary_key c mutated = Some k)) as [Hmk|Hmk].
  - rewrite (proj1 (primary_getKey c ix mutated k Hix) Hmk), decide_True by done. done.
  - destruct (getKeyForObject mutated ix) as [[[] mk] [err|]] eqn:Hg; try by eexists.
    rewrite decide_False; [by eexists|]. intros ->. apply Hmk. by apply (primary_getKey c ix).
Qed.

(** ** The operations of the cache *)

Lemma Add_refines c objs : cache_wf c → result c (each_map (map_insert c) objs (view c)) (Add objs c).
Proof. apply commit_refines, insert_refines. Qed.

Lemma Delete_refines c objs : cache_wf c → result c (each_map (map_delete c) objs (view c)) (cache_Delete objs c).
Proof. apply commit_refines, delete_refines. Qed.

Lemma Update_refines (fmt_v : object R → string) c mutator objs :
  cache_wf c → (∀ o, mutator o ≠ Panic) →
  result c (each_map (map_update c mutator) objs (view c)) (Update fmt_v mutator objs c).
Proof.
  intros Hw Hm. unfold Update. destruct (find_index PrimaryObjectIndex (schema c)) as [ix|] eqn:Hix.
  - by apply commit_refines; [apply update_refines|].
  - exfalso. destruct Hw as [_ Hid _]. unfold find_index in Hix. apply list_elem_of_fmap in Hid as (ix & Hn & Hin).
    destruct (filter _ (schema c)) eqn:Hf; [|done]. by apply (filter_nil_not_elem_of _ _ ix Hf).
Qed.

Lemma DeleteByPrefix_refines c pre :
  cache_wf c →
  result c (Some (filter (λ kv, HasPrefix (kv.1 +:+ NUL) pre = false) (view c)))
    (DeleteByPrefix PrimaryObjectIndex pre c).
Proof.
  intros Hw. unfold result, DeleteByPrefix, PrefixFromArgs.
  destruct (DeletePrefix_ok (db c) PrimaryObjectIndex pre) as (d' & HD & Hd & Hobj).
  { rewrite <-(cw_schema c Hw). apply Hw. }
  { intros o o' k Ho Ho' Hk Hk'. apply (objects_unique (db c)); [done..|]. unfold PrimaryObjectIndex in *. congruence. }
  rewrite HD. exists (with_db c d'). assert (cache_wf (with_db c d')) as Hw'.
  { destruct Hw. split; simpl; congruence. }
  split_and!; [done..|]. apply view_eq; [done|]. intros k o.
  rewrite map_lookup_filter_Some, Hobj, list_elem_of_filter, lookup_view by done. simpl.
  unfold prefixed_key. rewrite stored_object_key by done. unfold primary_key.
  destruct (object_key c PrimaryObjectIndex o) as [k'|] eqn:Hk; simpl; naive_solver.
Qed.

Lemma CreateObjectCache_ok :
  ∃ c, CreateObjectCache = Ok c ∧ cache_wf c ∧ view c = ∅ ∧
    (is_Name <$> schema c) = [PrimaryObjectIndex; AddressLinkObjectIndex] ∧
    (keyCreator <$> schema c) = [primaryUniqueKeyCreator; addressLinkKeyCreator] ∧
    (AllowMissing <$> schema c) = [false; true].
Proof.
  unfold CreateObjectCache, Init. set (ixs := schemas _).
  assert (is_Name <$> ixs = [PrimaryObjectIndex; AddressLinkObjectIndex]) as Hn by done.
  destruct (NewMemDB_ok ixs) as (d & Hd & Hix & Ho).
  { rewrite Hn. by apply (bool_decide_unpack _). }
  { rewrite Hn. by apply (bool_decide_unpack _). }
  rewrite Hd. eexists. split; [reflexivity|]. split_and!; [|by unfold view; simpl; rewrite Ho|done..].
  split; [done| |].
  - change (PrimaryObjectIndex ∈ is_Name <$> ixs). rewrite Hn. by apply (bool_decide_unpack _).
  - change (NoDup (is_Name <$> ixs)). rewrite Hn. by apply (bool_decide_unpack _).
Qed.
End CacheMap.
