(* ===== verification/Access.v ===== *)
(** Access control of the console ([pkg/consolegraphql/accesscontroller]): who may read
    an object is asked of the API server once, and remembered. *)
From stdpp Require Import base gmap strings list countable.
From S2P Require Import Prelude GoStrings Cache.

(** [authv1.ResourceAttributes]; the fields the console leaves empty are left out. *)
Record ResourceAttributes := {
  ra_Namespace : string;
  ra_Verb : string;
  ra_Group : string;
  ra_Version : string;
  ra_Resource : string;
  ra_Name : string;
}.

#[global] Instance ResourceAttributes_eq_dec : EqDecision ResourceAttributes.
Proof. solve_decision. Defined.

#[global] Instance ResourceAttributes_countable : Countable ResourceAttributes.
Proof.
  refine (inj_countable'
    (λ a, (ra_Namespace a, ra_Verb a, ra_Group a, ra_Version a, ra_Resource a, ra_Name a))
    (λ '(n, v, g, w, r, m), {| ra_Namespace := n; ra_Verb := v; ra_Group := g; ra_Version := w;
                               ra_Resource := r; ra_Name := m |}) _).
  by intros [].
Defined.

(** The API machinery: the group and the version an API version names, and the resource
    guessed for a kind. *)
Class ApiMeta := {
  GroupVersion : string → string * string;
  UnsafeGuessKindToResource : string → string → string → string;
}.

Section Access.
Context {R : Type} `{HA : !ApiMeta}.
Implicit Types o : object R.

(** ** What is asked *)

Definition getResourceAttributes (m : meta) : ResourceAttributes :=
  let '(group, version) := GroupVersion (APIVersion m) in
  {| ra_Namespace := Namespace m; ra_Verb := ""; ra_Group := group; ra_Version := version;
     ra_Resource := UnsafeGuessKindToResource group version (Kind m); ra_Name := "" |}.

(** [GetControllingResourceAttributes], of the types that have it. *)
Definition GetControllingResourceAttributes o : option ResourceAttributes :=
  match o with
  | AddressSpaceHolder m _ | AddressHolder m _ _ => Some (getResourceAttributes m)
  | Connection m _ _ =>
      Some {| ra_Namespace := Namespace m; ra_Verb := ""; ra_Group := "enmasse.io"; ra_Version := "v1beta1";
              ra_Resource := "addressspaces"; ra_Name := "" |}
  | _ => None
  end.

Definition with_verb (v : string) (a : ResourceAttributes) : ResourceAttributes :=
  {| ra_Namespace := ra_Namespace a; ra_Verb := v; ra_Group := ra_Group a; ra_Version := ra_Version a;
     ra_Resource := ra_Resource a; ra_Name := ra_Name a |}.

(** The attributes [CanRead] decides by, when the object is access controlled. *)
Definition read_attributes o : option ResourceAttributes :=
  match o with
  | CoreNamespace m _ =>
      let '(group, version) := GroupVersion (APIVersion m) in
      Some {| ra_Namespace := Name m; ra_Verb := "get"; ra_Group := ""; ra_Version := version;
              ra_Resource := UnsafeGuessKindToResource group version (Kind m); ra_Name := Name m |}
  | _ => with_verb "get" <$> GetControllingResourceAttributes o
  end.

(** ** Controllers *)

(** The controllers: the one that allows everything, and the one that asks for
    [SelfSubjectAccessReview]s, with the reviews it has asked for. *)
Inductive AccessController :=
  | allowAll
  | kubernetesRbac (cached : gmap ResourceAttributes bool) (cacheUpdated : bool) (asked : list ResourceAttributes).

Definition NewAllowAllAccessController : AccessController := allowAll.

(** The state of a previous controller, which the session keeps. *)
Definition NewKubernetesRBACAccessController (existingState : option (gmap ResourceAttributes bool)) : AccessController :=
  kubernetesRbac (default ∅ existingState) false [].

Definition GetState (k : AccessController) : bool * option (gmap ResourceAttributes bool) :=
  match k with
  | allowAll => (false, None)
  | kubernetesRbac cached updated _ => (updated, Some cached)
  end.

(** The API server: its answer to a review may depend on what was asked before. *)
Variable review : list ResourceAttributes → ResourceAttributes → error + bool.

Definition makeAccessDecision (a : ResourceAttributes) : prog AccessController bool := λ k,
  match k with
  | allowAll => (k, Ok true)
  | kubernetesRbac cached updated asked =>
      match cached !! a with
      | Some decision => (k, Ok decision)
      | None =>
          match review asked a with
          | inl err => (kubernetesRbac cached updated (asked ++ [a]), Err err)
          | inr allowed => (kubernetesRbac (<[a := allowed]> cached) true (asked ++ [a]), Ok allowed)
          end
      end
  end.

Definition CanRead o : prog AccessController bool := λ k,
  match k with
  | allowAll => (k, Ok true)
  | kubernetesRbac _ _ _ =>
      match read_attributes o with
      | Some a => makeAccessDecision a k
      | None => (k, Ok true)
      end
  end.

(** [ViewFilter]: [FilterAdapter] of the controller. *)
Definition ViewFilter : ObjectFilter (R := R) AccessController := λ o,
  readable ← CanRead o; mret (readable, true).

(** ** Decisions *)

(** What a controller has decided. *)
Definition decided (k : AccessController) (a : ResourceAttributes) : option bool :=
  match k with
  | allowAll => Some true
  | kubernetesRbac cached _ _ => cached !! a
  end.

(** No decision is taken back. *)
Lemma decision_kept a k k' r :
  makeAccessDecision a k = (k', r) → ∀ a' d, decided k a' = Some d → decided k' a' = Some d.
Proof.
  unfold makeAccessDecision. intros H a' d Hd. destruct k as [|cached updated asked]; [by simplify_eq|].
  destruct (cached !! a) eqn:Ha; [by simplify_eq|]. destruct (review asked a); simplify_eq/=; [done|].
  rewrite lookup_insert_ne; [done|congruence].
Qed.

Lemma CanRead_kept o k k' r : CanRead o k = (k', r) → ∀ a' d, decided k a' = Some d → decided k' a' = Some d.
Proof.
  unfold CanRead. intros H. destruct k as [|cached updated asked]; [by simplify_eq|].
  destruct (read_attributes o); [by eapply decision_kept|by simplify_eq].
Qed.

(** A decision that was made is found again. *)
Lemma CanRead_again o k k' d :
  CanRead o k = (k', Ok d) → ∀ k2, (∀ a d, decided k' a = Some d → decided k2 a = Some d) →
  (k = allowAll ↔ k2 = allowAll) → CanRead o k2 = (k2, Ok d).
Proof.
  intros H k2 Hk2 Hall. unfold CanRead, makeAccessDecision in *.
  destruct k as [|cached updated asked]; [simplify_eq; destruct Hall as [-> _]; done|].
  destruct k2 as [|cached2 updated2 asked2]; [destruct Hall as [_ Hall]; discriminate (Hall eq_refl)|].
  destruct (read_attributes o) as [a|]; [|by simplify_eq].
  assert (cached2 !! a = Some d) as ->; [|done].
  apply Hk2. destruct (cached !! a) eqn:Ha; [by simplify_eq|]. destruct (review asked a); simplify_eq/=.
  by rewrite lookup_insert_eq.
Qed.
End Access.
