(* ===== verification/Resolvers.v ===== *)
(** The resolvers of the console that query the cache ([pkg/consolegraphql/resolvers]):
    paging, filters with the key they narrow a scan to, and the queries for address
    spaces, addresses, connections and links. *)
From stdpp Require Import base gmap strings list.
From Stdlib Require Import Ascii.
From S2P Require Import Prelude GoStrings FilterExpr FilterLex FilterParse Cache Access.

(** ** Paging *)

Definition Min (x y : Z) : Z := if (x <? y)%Z then x else y.

(** [CalcLowerUpper]; the sum of two [int]s wraps around. *)
Definition CalcLowerUpper (offset first : option Z) (len : Z) : Z * Z :=
  let lower := match offset with
    | Some off => if (0 <? off)%Z then Min off len else 0%Z
    | None => 0%Z
    end in
  let upper := match first with
    | Some fst => if (0 <? fst)%Z then Min (int_wrap Int (lower + fst)) len else len
    | None => len
    end in
  (lower, upper).

(** [objects[lower:upper]] of a slice of length [len]; the bounds are checked. *)
Definition slice_of {A} (lower upper : Z) (l : list A) : outcome (list A) :=
  if bool_decide (0 <= lower <= upper ∧ upper <= Z.of_nat (length l))%Z
  then Ok (take (Z.to_nat (upper - lower)) (drop (Z.to_nat lower) l))
  else Panic.

(** What a call of the parser returns: it always returns. *)
Definition returned {A} (r : option (outcome A)) : outcome A := default Panic r.

Section Resolvers.
Context {R JP RV : Type} `{HJ : !JsonPath JP (object R) RV} `{HS : !SliceStable}.
Context `{HM : !MemDB R} `{HA : !ApiMeta}.
Implicit Types (e : Expr JP) (o : object R).

(** ** Keys from filters *)

(** What a traversal for one key element keeps: the elements found so far and whether
    this one was. *)
Definition key_state : Type := list string * bool.

(** [doCmp]: append the string compared with the path of the key element. *)
Definition doCmp (left right : Expr JP) (keyElement : string) (fltStrVal : string → string * bool) (s : key_state)
    : option key_state :=
  match left with
  | JSONPathVal _ jp =>
      if decide (jp = keyElement) then
        match right with
        | StringVal stv =>
            let '(sv, ok) := fltStrVal stv in
            if ok then Some (s.1 ++ [sv], s.2) else None
        | _ => None
        end
      else None
  | _ => None
  end.

Definition key_accept (e : Expr JP) (s : key_state) : key_state * bool :=
  (s, if s.2 then false
      else match e with AndExpr _ _ | ComparisonExpr _ _ _ => true | _ => false end).

(** The values a [=] and a [LIKE] allow. *)
Definition equal_value (sv : string) : string * bool := (sv, true).
Definition like_value (sv : string) : string * bool :=
  (trim_suffix_byte sv "%",
   bool_decide (index_byte sv "%" = Z.of_nat (String.length sv) - 1)%Z && bool_decide (index_byte sv "_" = -1)%Z).

Definition compare_either (left right : Expr JP) (keyElement : string) (flt : string → string * bool) (s : key_state)
    : key_state :=
  match doCmp left right keyElement flt s with
  | Some s' => (s'.1, true)
  | None =>
      match doCmp right left keyElement flt s with
      | Some s' => (s'.1, true)
      | None => s
      end
  end.

Definition key_visit (keyElement : string) (last : bool) (e : Expr JP) (s : key_state) : key_state :=
  match e with
  | ComparisonExpr op l r =>
      if decide (op = EqualStr) then compare_either l r keyElement equal_value s
      else if decide (op = LikeStr) then
        if last then compare_either l r keyElement like_value s else s
      else s
  | _ => s
  end.

(** The loop over the key elements, up to the first that is not found. *)
Fixpoint key_loop e (ordered : list string) (keyElements : list string) : list string :=
  match ordered with
  | [] => keyElements
  | keyElement :: ordered' =>
      let last := bool_decide (ordered' = []) in
      let '(keyElements, foundTerm) := Traverse key_accept (key_visit keyElement last) e (keyElements, false) in
      if foundTerm then key_loop e ordered' keyElements else keyElements
  end.

Definition buildKey e (orderedKeyElements : list string) : string :=
  let keyElements := key_loop e orderedKeyElements [] in
  let keyElements :=
    if length keyElements <? length orderedKeyElements then keyElements ++ [""] else keyElements in
  Join keyElements "/".

(** The filter of an expression; [rv.(bool)] panics when the value is no boolean. *)
Definition expression_filter {S} (expression : option (Expr JP)) : ObjectFilter (R := R) S := λ o,
  match expression with
  | None => lift Panic
  | Some e =>
      rv ← lift (Eval e o);
      match rv with
      | VBool EmptyString b => mret (b, true)
      | _ => lift Panic
      end
  end.

(** [BuildFilter]: a nil filter when there is none. *)
Definition BuildFilter {S} (f : option string) (orderedKeyElements : list string)
    : outcome (option (ObjectFilter (R := R) S) * string) :=
  match f with
  | Some (String _ _ as s) =>
      r ← returned (ParseFilterExpression s);
      match r with
      | (_, Some err) => Err err
      | (expression, None) =>
          key ← match orderedKeyElements, expression with
                | [], _ => mret ""
                | _, Some e => mret (buildKey e orderedKeyElements)
                | _, None => Panic
                end;
          mret (Some (expression_filter expression), key)
      end
  | _ => mret (None, "")
  end.

(** [BuildOrderer]. *)
Definition BuildOrderer (ob : option string) : outcome (list (object R) → outcome (list (object R))) :=
  match ob with
  | Some (String _ _ as s) =>
      r ← returned (ParseOrderByExpression s);
      match r with
      | (_, Some err) => Err err
      | (orderby, None) =>
          Ok (λ objs, sorted ← Sort orderby objs;
                        match sorted with (_, Some err) => Err err | (objs, None) => Ok objs end)
      end
  | _ => Ok (λ objs, Ok objs)
  end.

(** ** Queries *)

Record QueryResult := {
  Total : Z;
  Items : list (object R);
}.

Variable review : list ResourceAttributes → ResourceAttributes → error + bool.

(** The arguments of a query. *)
Record QueryArgs := {
  q_first : option Z;
  q_offset : option Z;
  q_filter : option string;
  q_orderBy : option string;
}.

(** The objects of a page: the type assertion, and the value the result holds. A link
    is copied without its type. *)
Definition as_AddressSpaceHolder o : outcome (object R) := match o with AddressSpaceHolder _ _ => Ok o | _ => Panic end.
Definition as_AddressHolder o : outcome (object R) := match o with AddressHolder _ _ _ => Ok o | _ => Panic end.
Definition as_Connection o : outcome (object R) := match o with Connection _ _ _ => Ok o | _ => Panic end.
Definition as_Link o : outcome (object R) :=
  match o with
  | Link m spec r =>
      Ok (Link {| APIVersion := ""; Kind := ""; Namespace := Namespace m; Name := Name m |} spec r)
  | _ => Panic
  end.

(** What every query does once it has its objects: order them, cut the page. *)
Definition finish_query (a : QueryArgs) (orderer : list (object R) → outcome (list (object R)))
    (item : object R → outcome (object R)) (objects : list (object R)) : outcome QueryResult :=
  objects ← orderer objects;
  let '(lower, upper) := CalcLowerUpper (q_offset a) (q_first a) (Z.of_nat (length objects)) in
  paged ← slice_of lower upper objects;
  items ← map_outcome item paged;
  mret {| Total := Z.of_nat (length objects); Items := items |}.

(** The body the queries share: [view] is the access filter, when there is one. *)
Definition query (c : MemdbCache (R := R)) (a : QueryArgs) (index : string) (ordered : list string)
    (key_of : string → string) (view : option (ObjectFilter (R := R) AccessController))
    (item : object R → outcome (object R)) : prog AccessController QueryResult :=
  '(fltrfunc, keyElements) ← lift (BuildFilter (q_filter a) ordered);
  orderer ← lift (BuildOrderer (q_orderBy a));
  objects ← Get c index (key_of keyElements) (match view with Some _ => Some (And [view; fltrfunc]) | None => fltrfunc end);
  lift (finish_query a orderer item objects).

(** [queryResolver.AddressSpaces]. *)
Definition AddressSpaces (c : MemdbCache (R := R)) (a : QueryArgs) : prog AccessController QueryResult :=
  query c a PrimaryObjectIndex ["$.metadata.namespace"; "$.metadata.name"]
    (λ keyElements, "AddressSpace/" +:+ keyElements) (Some (ViewFilter review)) as_AddressSpaceHolder.

(** [queryResolver.Addresses]. *)
Definition Addresses (c : MemdbCache (R := R)) (a : QueryArgs) : prog AccessController QueryResult :=
  query c a PrimaryObjectIndex ["$.metadata.namespace"; "$.metadata.name"]
    (λ keyElements, "Address/" +:+ keyElements) (Some (ViewFilter review)) as_AddressHolder.

(** [queryResolver.Connections]. *)
Definition Connections (c : MemdbCache (R := R)) (a : QueryArgs) : prog AccessController QueryResult :=
  query c a PrimaryObjectIndex ["$.metadata.namespace"; "$.spec.addressSpace"; "$.metadata.name"]
    (λ keyElements, "Connection/" +:+ keyElements) (Some (ViewFilter review)) as_Connection.

(** [addressSpaceK8sResolver.Connections], of the address space with the metadata [m]. *)
Definition AddressSpace_Connections (c : MemdbCache (R := R)) (m : meta) (a : QueryArgs) : prog AccessController QueryResult :=
  query c a PrimaryObjectIndex ["$.spec.addressSpace"; "$.metadata.name"]
    (λ keyElements, "Connection/" +:+ Namespace m +:+ "/" +:+ Name m +:+ "/" +:+ keyElements) None as_Connection.

(** [addressSpaceK8sResolver.Addresses]. *)
Definition AddressSpace_Addresses (c : MemdbCache (R := R)) (m : meta) (a : QueryArgs) : prog AccessController QueryResult :=
  query c a PrimaryObjectIndex ["$.metadata.name"]
    (λ keyElements, if decide (keyElements = "") then "Address/" +:+ Namespace m +:+ "/" +:+ Name m
                    else "Address/" +:+ Namespace m +:+ "/" +:+ keyElements)
    (Some (ViewFilter review)) as_AddressHolder.

(** [connectionK8sResolver.Links], of a connection. *)
Definition Connection_Links (c : MemdbCache (R := R)) (m : meta) (AddressSpace : string) (a : QueryArgs)
    : prog AccessController QueryResult :=
  query c a PrimaryObjectIndex ["$.metadata.name"]
    (λ keyElements, "Link/" +:+ Namespace m +:+ "/" +:+ AddressSpace +:+ "/" +:+ Name m +:+ "/" +:+ keyElements)
    None as_Link.

(** [tokenizeAddress]: the name before and after the first dot. *)
Fixpoint split_dot (s : string) : option (string * string) :=
  match s with
  | EmptyString => None
  | String ch s' =>
      if Ascii.eqb ch "." then Some (EmptyString, s')
      else '(a, b) ← split_dot s'; Some (String ch a, b)
  end.
Definition tokenizeAddress (name : string) : outcome (string * string) :=
  match split_dot name with
  | Some toks => Ok toks
  | None => Err (Errorf ("unexpectedly formatted address: '" +:+ name +:+ "'.  expected separator not found "))
  end.

(** [addressK8sResolver.Links], of an address: the name is split after the orderer is
    built. *)
Definition Address_Links (c : MemdbCache (R := R)) (m : meta) (Address : string) (a : QueryArgs)
    : prog AccessController QueryResult :=
  '(fltrfunc, keyElements) ← lift (BuildFilter (q_filter a) ["$.spec.address"]);
  orderer ← lift (BuildOrderer (q_orderBy a));
  addrtoks ← lift (tokenizeAddress (Name m));
  links ← Get c AddressLinkObjectIndex
    ("Link/" +:+ Namespace m +:+ "/" +:+ addrtoks.1 +:+ "/" +:+ Address +:+ "/" +:+ keyElements) fltrfunc;
  lift (finish_query a orderer as_Link links).
End Resolvers.
