(* ===== verification/KeyFacts.v ===== *)
(** The key a filter narrows a scan to: every object the filter matches has a key that
    begins with it. *)
From stdpp Require Import base gmap sets strings list numbers.
From Stdlib Require Import SpecFloat Ascii.
From S2P Require Import Prelude GoStrings FilterExpr FilterFacts FilterLex FilterParse.
From S2P Require Import FilterGrammar FilterPrint FilterText Cache CacheFacts Access Resolvers.

(** ** Plain strings *)

(** Names of Kubernetes objects: ASCII, without the wildcards of [LIKE]. *)
Definition plain_byte (b : Z) : Prop := (b < 0x80)%Z ∧ b ≠ percent ∧ b ≠ underscore.
Definition plain (s : string) : Prop := Forall plain_byte (bytes_of s).

#[global] Instance plain_dec s : Decision (plain s).
Proof. unfold plain, plain_byte. apply _. Defined.

(** A pattern and a text that match begin with the same bytes, up to the first wildcard. *)
Lemma like_literal r p s : r ≠ percent → r ≠ underscore → like_spec (r :: p) s → ∃ s', s = r :: s' ∧ like_spec p s'.
Proof. intros H1 H2 H. inversion H; subst; try done. by eexists. Qed.

Lemma decode_high n b s :
  (0x80 <= b)%Z → ∃ r rest, decode_bytes (S n) (b :: s) = r :: rest ∧ (0x80 <= default RuneError r)%Z.
Proof.
  intros Hb. simpl. destruct (decode_rune b s) as [[r rest]|] eqn:Hd; eexists _, _; (split; [reflexivity|]); simpl.
  - by eapply decode_rune_high.
  - unfold RuneError. lia.
Qed.

Lemma like_prefix w tail n t :
  length (w ++ tail) ≤ n → Forall (λ b, b ≠ percent ∧ b ≠ underscore) w → Forall (λ b, b < 0x80)%Z t →
  like_spec (default RuneError <$> decode_bytes n (w ++ tail)) t → ∃ t', t = w ++ t'.
Proof.
  revert n t. induction w as [|b w IH]; intros n t Hn Hw Ht Hl; [by exists t|].
  destruct n as [|n]; [simpl in Hn; lia|]. inversion Hw as [|? ? [Hb1 Hb2] Hw']; subst.
  destruct (decide (b < 0x80)%Z) as [Hb|Hb].
  - cbn [app] in Hl. rewrite decode_ascii in Hl by done. cbn [fmap list_fmap] in Hl.
    apply like_literal in Hl as (t1 & -> & Hl); [|done..]. inversion Ht; subst.
    destruct (IH n t1) as [t' ->]; [simpl in Hn; lia|done..|]. by exists t'.
  - cbn [app] in Hl. destruct (decode_high n b (w ++ tail)) as (r & rest & Hd & Hr); [lia|]. rewrite Hd in Hl.
    cbn [fmap list_fmap] in Hl. apply like_literal in Hl as (t1 & -> & Hl); [|unfold percent, underscore; lia..].
    inversion Ht; subst. lia.
Qed.

(** A pattern without wildcards matches itself only. *)
Lemma like_plain p s : Forall plain_byte p → like_spec p s → s = p.
Proof.
  intros Hp. revert s. induction Hp as [|b p (? & ? & ?) Hp IH]; intros s Hl; [by inversion Hl|].
  apply like_literal in Hl as (s' & -> & Hl); [|done..]. f_equal. by apply IH.
Qed.

Lemma decode_ascii_inv n s t :
  length s ≤ n → Forall (λ b, b < 0x80)%Z t → (default RuneError <$> decode_bytes n s) = t → s = t.
Proof.
  revert s t. induction n as [|n IH]; intros [|b s] t Hn Ht Hd; simpl in Hn; try lia; [by subst..|].
  destruct (decide (b < 0x80)%Z) as [Hb|Hb].
  - rewrite decode_ascii in Hd by done. simpl in Hd. subst t. inversion Ht; subst. f_equal. apply IH; [lia|done..].
  - destruct (decode_high n b s) as (r & rest & Hd' & Hr); [lia|]. rewrite Hd' in Hd. simpl in Hd. subst t.
    inversion Ht; subst. lia.
Qed.

Lemma runes_ascii s : Forall (λ b, b < 0x80)%Z (bytes_of s) → runes s = bytes_of s.
Proof.
  intros Hs. unfold runes, decode. pose proof (decode_asciis 0 (bytes_of s) [] Hs) as H.
  rewrite app_nil_r, Nat.add_0_r in H. rewrite H. simpl. rewrite app_nil_r.
  clear H Hs. induction (bytes_of s) as [|b l IH]; [done|]. exact (f_equal (cons b) IH).
Qed.

Lemma bytes_prefix s pre t : bytes_of s = bytes_of pre ++ t → HasPrefix s pre = true.
Proof.
  revert s. induction pre as [|c pre IH]; intros s H; [by destruct s|].
  destruct s as [|d s]; [done|]. rewrite !bytes_of_cons in H. injection H as Hc%byte_of_inj H. subst d.
  cbn [HasPrefix]. rewrite Ascii.eqb_refl. by apply IH.
Qed.

(** ** The strings a key takes *)

Lemma index_byte_range s c : (-1 <= index_byte s c < Z.of_nat (String.length s))%Z.
Proof.
  induction s as [|d s IH]; [simpl; lia|]. cbn [index_byte String.length]. destruct (Ascii.eqb d c); [lia|].
  case_bool_decide; lia.
Qed.

Lemma index_byte_none s c : index_byte s c = (-1)%Z → Forall (λ b, b ≠ byte_of c) (bytes_of s).
Proof.
  induction s as [|d s IH]; [constructor|]. cbn [index_byte]. destruct (Ascii.eqb_spec d c) as [|Hd]; [done|].
  pose proof (index_byte_range s c). case_bool_decide as Hi; [|lia]. intros _. rewrite bytes_of_cons. constructor; [|auto].
  by intros ?%byte_of_inj.
Qed.

(** A single [%] at the end. *)
Lemma index_byte_last s c :
  index_byte s c = (Z.of_nat (String.length s) - 1)%Z → s ≠ "" →
  bytes_of s = bytes_of (trim_suffix_byte s c) ++ [byte_of c] ∧
  Forall (λ b, b ≠ byte_of c) (bytes_of (trim_suffix_byte s c)).
Proof.
  induction s as [|d s IH]; [done|]. cbn [index_byte String.length]. intros Hi _.
  pose proof (index_byte_range s c). destruct (Ascii.eqb_spec d c) as [->|Hd].
  - assert (s = "") as -> by (destruct s; [done|simpl in *; lia]). simpl. rewrite Ascii.eqb_refl. split; [done|constructor].
  - destruct s as [|d' s]; [simpl in *; lia|]. case_bool_decide as Hn; [simpl in *; lia|].
    destruct IH as [IH1 IH2]; [simpl String.length in *; lia|done|].
    change (trim_suffix_byte (String d (String d' s)) c) with (String d (trim_suffix_byte (String d' s) c)).
    rewrite !bytes_of_cons. rewrite bytes_of_cons in IH1. rewrite IH1. split; [done|].
    constructor; [by intros ?%byte_of_inj|done].
Qed.

(** ** Paths of objects *)

Section Keys.
Context {R JP RV : Type} `{HJ : !JsonPath JP (object R) RV}.
Implicit Types (e : Expr JP) (o : object R).

Definition object_meta o : option meta :=
  match o with
  | CoreNamespace m _ | AddressSpaceHolder m _ | AddressHolder m _ _ | Connection m _ _ | Link m _ _
  | AddressPlan m _ | AddressSpacePlan m _ | AddressSpaceSchema m _ | AuthenticationService m _ => Some m
  | OtherObject _ => None
  end.

(** The string a path of a key element leads to. *)
Definition field (p : string) o : option string :=
  if decide (p = "$.metadata.namespace") then Namespace <$> object_meta o
  else if decide (p = "$.metadata.name") then Name <$> object_meta o
  else if decide (p = "$.spec.addressSpace") then
    match o with Connection _ a _ => Some a | Link _ spec _ => Some (ls_AddressSpace spec) | _ => None end
  else if decide (p = "$.spec.address") then
    match o with AddressHolder _ a _ => Some a | Link _ spec _ => Some (ls_Address spec) | _ => None end
  else None.

(** The JSON path library on these paths. *)
Class FieldPaths : Prop :=
  path_field jp p o v : path_good jp p → field p o = Some v → eval_path jp o = Ok (VString "" v).
Context `{HF : !FieldPaths}.

Definition holds e o : Prop := (Eval e o = Ok (VBool "" true)).

(** Comparison of strings. *)
Lemma compare_strings op l r : compare_operands op (VString "" l) (VString "" r) = compare_string op l r.
Proof. reflexivity. Qed.

Lemma holds_compare op a b o l r :
  Eval a o = Ok (VString "" l) → Eval b o = Ok (VString "" r) → holds (ComparisonExpr op a b) o →
  compare_string op l r = Ok true.
Proof.
  unfold holds. cbn [Eval]. intros -> ->. cbn [mbind outcome_bind]. rewrite compare_strings.
  destruct (compare_string op l r) as [[]| |]; [done|by intros [=]..].
Qed.

(** What the strings appended to a key are of the value at the path. *)
Definition taken (last : bool) (v sv : string) : Prop := sv = v ∨ last = true ∧ HasPrefix v sv = true.

Lemma taken_equal last v sv l r :
  compare_string EqualStr l r = Ok true → (l = v ∧ r = sv) ∨ (l = sv ∧ r = v) → taken last v sv.
Proof. unfold compare_string. simpl. intros [= H%bool_decide_eq_true_1] [[-> ->]|[-> ->]]; by left. Qed.

Lemma like_value_spec sv w : like_value sv = (w, true) →
  sv = "" ∧ w = "" ∨ bytes_of sv = bytes_of w ++ [percent] ∧ Forall (λ b, b ≠ percent ∧ b ≠ underscore) (bytes_of w).
Proof.
  unfold like_value. intros [= <- [H1%bool_decide_eq_true_1 H2%bool_decide_eq_true_1]%andb_true_iff].
  destruct (decide (sv = "")) as [->|Hne]; [by left|right].
  destruct (index_byte_last sv "%" H1 Hne) as [Hb Hw]. split; [done|]. apply index_byte_none in H2.
  rewrite Hb in H2. apply Forall_app in H2 as [H2 _]. apply Forall_and; [exact Hw|exact H2].
Qed.

Lemma plain_ascii v : plain v → Forall (λ b, b < 0x80)%Z (bytes_of v).
Proof. apply Forall_impl. by intros ? []. Qed.

Lemma taken_like v sv w l r :
  plain v → compare_string LikeStr l r = Ok true → (l = v ∧ r = sv) ∨ (l = sv ∧ r = v) →
  like_value sv = (w, true) → HasPrefix v w = true.
Proof.
  intros Hv Hc Hlr [[-> ->]|[Hsv Hw]]%like_value_spec; [by destruct v|].
  unfold compare_string in Hc. simpl in Hc. destruct (like_correct l r) as [[_ Hp]|(_ & b & Hb & Hspec)]; [congruence|].
  assert (like_spec (runes r) (runes l)) as Hl by (apply Hspec; congruence). pose proof (plain_ascii v Hv) as Ha.
  destruct Hlr as [[-> ->]|[-> ->]].
  - rewrite (runes_ascii v) in Hl by done. unfold runes, decode in Hl. rewrite Hsv in Hl.
    apply like_prefix in Hl as [t' Ht]; [by eapply bytes_prefix|done..].
  - rewrite (runes_ascii v) in Hl by done. apply like_plain in Hl; [|done].
    apply decode_ascii_inv in Hl; [|done..]. rewrite Hsv in Hl. by eapply bytes_prefix.
Qed.

(** ** The traversal *)

(** What a traversal for the path [p] with value [v] may do to its state. *)
Definition key_step (last : bool) (v : string) (s s' : key_state) : Prop :=
  s' = s ∨ s.2 = false ∧ s'.2 = true ∧ ∃ sv, s'.1 = s.1 ++ [sv] ∧ taken last v sv.

Lemma doCmp_spec (a b : Expr JP) p flt (s s' : key_state) :
  doCmp a b p flt s = Some s' →
  ∃ jp stv sv, a = JSONPathVal jp p ∧ b = StringVal stv ∧ flt stv = (sv, true) ∧ s' = (s.1 ++ [sv], s.2).
Proof.
  unfold doCmp. destruct a; try done. case_decide as Hp; [|done]. subst. destruct b; try done.
  destruct (flt _) as [sv []] eqn:Hf; [|done]. intros [= <-]. by eexists _, _, _.
Qed.

(** The two orders of the operands of a comparison that holds. *)
Lemma compared op (jp : JP) p stv v o a b :
  path_good jp p → field p o = Some v → holds (ComparisonExpr op a b) o →
  a = JSONPathVal jp p ∧ b = StringVal stv ∨ b = JSONPathVal jp p ∧ a = StringVal stv →
  ∃ l r, compare_string op l r = Ok true ∧ (l = v ∧ r = stv ∨ l = stv ∧ r = v).
Proof.
  intros Hg Hf Hh Hab. pose proof (path_field jp p o v Hg Hf) as Hp.
  destruct Hab as [[-> ->]|[-> ->]].
  - exists v, stv. split; [|by left]. by eapply holds_compare; [..|exact Hh].
  - exists stv, v. split; [|by right]. by eapply holds_compare; [..|exact Hh].
Qed.

Lemma compare_either_step op flt last a b p v o (s : key_state) :
  paths_good a → paths_good b → field p o = Some v → holds (ComparisonExpr op a b) o → s.2 = false →
  (∀ stv sv l r, flt stv = (sv, true) → compare_string op l r = Ok true →
    l = v ∧ r = stv ∨ l = stv ∧ r = v → taken last v sv) →
  key_step last v s (compare_either a b p flt s).
Proof.
  intros Ha Hb Hf Hh Hs Ht. unfold compare_either.
  destruct (doCmp a b p flt s) as [s1|] eqn:H1.
  - apply doCmp_spec in H1 as (jp & stv & sv & -> & -> & Hflt & ->). right. split_and!; [done..|].
    exists sv. split; [done|]. destruct (compared op jp p stv v o (JSONPathVal jp p) (StringVal stv)) as (l & r & Hc & Hlr); [done..|by left|].
    by eapply Ht.
  - destruct (doCmp b a p flt s) as [s2|] eqn:H2; [|by left].
    apply doCmp_spec in H2 as (jp & stv & sv & -> & -> & Hflt & ->). right. split_and!; [done..|].
    exists sv. split; [done|]. destruct (compared op jp p stv v o (StringVal stv) (JSONPathVal jp p)) as (l & r & Hc & Hlr); [done..|by right|].
    by eapply Ht.
Qed.

Lemma key_visit_step p last e v o (s : key_state) :
  paths_good e → field p o = Some v → plain v → s.2 = false → holds e o → key_step last v s (key_visit p last e s).
Proof.
  intros Hg Hf Hv Hs Hh. destruct e as [| | | |op a b| | | | | |]; try by left.
  destruct Hg as [Ha Hb]. unfold key_visit. case_decide as Hop; [subst op|].
  { eapply compare_either_step; [done..|]. intros stv sv l r [= <-] Hc Hlr. by eapply taken_equal. }
  case_decide as Hop'; [subst op|by left]. destruct last; [|by left].
  eapply compare_either_step; [done..|]. intros stv sv l r Hflt Hc Hlr. right. split; [done|]. by eapply taken_like.
Qed.

Lemma key_step_trans last v s1 s2 s3 :
  key_step last v s1 s2 → (s2.2 = true → s3 = s2) → (s2.2 = false → key_step last v s2 s3) → key_step last v s1 s3.
Proof.
  intros [->|(H1 & H2 & Hsv)] Ht Hf; [|rewrite (Ht H2); by right].
  destruct (s1.2) eqn:Hs; [rewrite (Ht eq_refl); by left|by apply Hf].
Qed.

(** An operand of a comparison is visited without effect. *)
Lemma Traverse_operand p last e (s : key_state) : operand e = true → Traverse key_accept (key_visit p last) e s = s.
Proof. by destruct e. Qed.

(** Once the term is found nothing changes. *)
Lemma Traverse_found p last e (s : key_state) :
  writable e → s.2 = true → Traverse key_accept (key_visit p last) e s = s.
Proof. intros Hw Hs. destruct e; try done; cbn [Traverse]; unfold key_accept; by rewrite Hs. Qed.

Lemma holds_and a b o : holds (AndExpr a b) o → holds a o ∧ holds b o.
Proof.
  unfold holds. cbn [Eval]. destruct (Eval a o) as [va| |]; [|by intros [=]..]. cbn [mbind outcome_bind].
  destruct va as [| |[] []| | | | | |]; try by intros [=]. cbn.
  destruct (Eval b o) as [vb| |]; [|by intros [=]..]. cbn.
  destruct vb as [| |[] []| | | | | |]; try by intros [=].
Qed.

Lemma Traverse_step p last e v o (s : key_state) :
  writable e → paths_good e → field p o = Some v → plain v → s.2 = false → holds e o →
  key_step last v s (Traverse key_accept (key_visit p last) e s).
Proof.
  intros Hw Hg Hf Hv. revert s. induction e as [a IHa b IHb|a IHa b IHb|a IHa|op a IHa|op a IHa b IHb|b0|s0|z0|f0| |jp0 s0];
    intros s Hs Hh; try by left.
  - destruct Hw as [Hwa Hwb], Hg as [Hga Hgb]. apply holds_and in Hh as [Hha Hhb].
    cbn [Traverse]. unfold key_accept at 1. rewrite Hs. cbn [key_visit].
    eapply key_step_trans; [by apply IHa|intros; by apply Traverse_found|by intros; apply IHb].
  - cbn [Traverse]. unfold key_accept at 1. rewrite Hs. by left.
  - cbn [Traverse]. unfold key_accept at 1. rewrite Hs. by left.
  - cbn [Traverse]. unfold key_accept at 1. rewrite Hs. by left.
  - destruct Hw as (_ & Hoa & Hob). cbn [Traverse]. unfold key_accept at 1. rewrite Hs.
    rewrite (Traverse_operand _ _ a), (Traverse_operand _ _ b) by done. by eapply key_visit_step.
Qed.

(** ** Keys *)

(** The elements found are the values of the paths, the last of them all a prefix. *)
Inductive covers : list string → list string → Prop :=
  | covers_nil vs : covers [] vs
  | covers_cons v xs vs : covers xs vs → covers (v :: xs) (v :: vs)
  | covers_last sv v : HasPrefix v sv = true → covers [sv] [v].

Lemma key_loop_covers e o ordered vs keyElements :
  writable e → paths_good e → holds e o →
  Forall2 (λ p v, field p o = Some v ∧ plain v) ordered vs →
  ∃ xs, key_loop e ordered keyElements = keyElements ++ xs ∧ covers xs vs.
Proof.
  intros Hw Hg Hh Hvs. revert keyElements.
  induction Hvs as [|p v ordered vs [Hf Hv] Hvs IH]; intros ke.
  { exists []. by rewrite app_nil_r; split; [|constructor]. }
  cbn [key_loop]. pose proof (Traverse_step p (bool_decide (ordered = [])) e v o (ke, false) Hw Hg Hf Hv eq_refl Hh) as Hs.
  destruct (Traverse _ _ _ _) as [ke' found]. destruct Hs as [[= -> ->]|(_ & Hfound & sv & Hke & Ht)].
  { exists []. by rewrite app_nil_r; split; [|constructor]. }
  simpl in Hfound, Hke. subst found ke'. destruct (IH (ke ++ [sv])) as (xs & -> & Hxs).
  exists (sv :: xs). rewrite <-app_assoc. split; [done|].
  destruct Ht as [->|[Hlast Hp]]; [by constructor|]. apply bool_decide_eq_true_1 in Hlast. subst ordered.
  inversion Hvs; subst. inversion Hxs; subst. by constructor.
Qed.

Lemma Join_cons v vs : vs ≠ [] → Join (v :: vs) "/" = v +:+ "/" +:+ Join vs "/".
Proof. by destruct vs. Qed.

Lemma HasPrefix_app s t u : HasPrefix (s +:+ t) (s +:+ u) = HasPrefix t u.
Proof. induction s as [|c s IH]; [done|]. simpl. by rewrite Ascii.eqb_refl. Qed.

Lemma HasPrefix_refl s : HasPrefix s s = true.
Proof. induction s as [|c s IH]; [done|]. simpl. by rewrite Ascii.eqb_refl. Qed.

Lemma covers_prefix xs vs :
  covers xs vs →
  HasPrefix (Join vs "/") (Join (if length xs <? length vs then xs ++ [""] else xs) "/") = true.
Proof.
  induction 1 as [vs|v xs vs Hc IH|sv v Hp]; [| |done].
  { assert (Join (if length (@nil string) <? length vs then [] ++ [""] else []) "/" = "") as -> by (by destruct vs).
    by destruct (Join vs "/"). }
  destruct vs as [|v' vs].
  { assert (xs = []) as -> by (by inversion Hc). simpl. apply HasPrefix_refl. }
  rewrite (Join_cons v) by done. change (length (v :: xs) <? length (v :: v' :: vs)) with (length xs <? length (v' :: vs)).
  destruct (length xs <? length (v' :: vs)) eqn:Hl.
  - cbn [app]. rewrite (Join_cons v (xs ++ [""])) by (by destruct xs). by rewrite !HasPrefix_app.
  - destruct xs as [|x xs]; [done|]. rewrite (Join_cons v (x :: xs)) by done. by rewrite !HasPrefix_app.
Qed.

(** Every object a filter matches has a key that begins with the key built. *)
Lemma buildKey_prefix e o ordered vs :
  writable e → paths_good e → holds e o →
  Forall2 (λ p v, field p o = Some v ∧ plain v) ordered vs →
  HasPrefix (Join vs "/") (buildKey e ordered) = true.
Proof.
  intros Hw Hg Hh Hvs. destruct (key_loop_covers e o ordered vs [] Hw Hg Hh Hvs) as (xs & Hk & Hc).
  unfold buildKey. rewrite Hk, (Forall2_length Hvs). by apply covers_prefix.
Qed.
End Keys.
