(* ===== verification/QueryFacts.v ===== *)
(** Queries of the console: what a query returns is a page of the ordered list of all
    objects of its kind that the user may read and the filter matches, however far the
    filter narrows the scan. *)
From stdpp Require Import base gmap sets strings list numbers.
From Stdlib Require Import SpecFloat Ascii.
From S2P Require Import Prelude GoStrings FilterExpr FilterFacts FilterLex FilterParse FilterGrammar FilterPrint.
From S2P Require Import FilterText Cache CacheFacts Access Resolvers KeyFacts.

(** ** Pages *)

Lemma CalcLowerUpper_bounds offset first len :
  (0 <= len <= int_max Int)%Z →
  (∀ f, first = Some f → f <= int_max Int - len)%Z →
  let '(lower, upper) := CalcLowerUpper offset first len in (0 <= lower <= upper ∧ upper <= len)%Z.
Proof.
  unfold CalcLowerUpper. intros Hlen Hf.
  set (lower := match offset with Some _ => _ | None => _ end).
  assert (0 <= lower <= len)%Z as Hl.
  { unfold lower, Min. destruct offset as [off|]; [|lia]. repeat case_match; lia. }
  clearbody lower. destruct first as [f|]; [|lia]. specialize (Hf f eq_refl).
  destruct (Z.ltb_spec 0 f) as [Hpos|]; [|lia].
  assert (int_wrap Int (lower + f) = lower + f)%Z as ->; [|unfold Min; case_match; lia].
  unfold int_wrap, int_max in *. simpl in *. rewrite Z.mod_small; lia.
Qed.

(** The page a query with these arguments shows. *)
Definition page {A} (offset first : option Z) (l : list A) : list A :=
  let l := match offset with Some off => drop (Z.to_nat off) l | None => l end in
  match first with Some f => if (0 <? f)%Z then take (Z.to_nat f) l else l | None => l end.

Lemma slice_page {A} offset first (l : list A) :
  (Z.of_nat (length l) <= int_max Int)%Z →
  (∀ f, first = Some f → f <= int_max Int - Z.of_nat (length l))%Z →
  let '(lower, upper) := CalcLowerUpper offset first (Z.of_nat (length l)) in
  slice_of lower upper l = Ok (page offset first l).
Proof.
  intros Hlen Hf. pose proof (CalcLowerUpper_bounds offset first (Z.of_nat (length l)) ltac:(lia) Hf) as Hb.
  unfold CalcLowerUpper, page in *. set (lower := match offset with Some _ => _ | None => 0%Z end) in *.
  assert (drop (Z.to_nat lower) l = match offset with Some off => drop (Z.to_nat off) l | None => l end ∧
    0 <= lower <= Z.of_nat (length l))%Z as [Hd Hlow].
  { unfold lower, Min. destruct offset as [off|]; [|by rewrite drop_0; split; [|lia]].
    destruct (Z.ltb_spec 0 off) as [Ho|Ho].
    - destruct (Z.ltb_spec off (Z.of_nat (length l))); [split; [done|lia]|].
      rewrite !drop_ge by lia. split; [done|lia].
    - replace (Z.to_nat off) with 0 by lia. by rewrite drop_0; split; [|lia]. }
  clearbody lower. unfold slice_of. rewrite <-Hd. destruct first as [f|].
  - destruct (Z.ltb_spec 0 f) as [Hpos|].
    + specialize (Hf f eq_refl).
      assert (int_wrap Int (lower + f) = lower + f)%Z as Hw.
      { unfold int_wrap, int_max in *. simpl in *. rewrite Z.mod_small; lia. }
      rewrite Hw in *. rewrite bool_decide_eq_true_2 by done. f_equal. unfold Min in *.
      destruct (Z.ltb_spec (lower + f) (Z.of_nat (length l))); [f_equal; lia|].
      rewrite !take_ge by (rewrite length_drop; lia). done.
    + rewrite bool_decide_eq_true_2 by done. rewrite take_ge by (rewrite length_drop; lia). done.
  - rewrite bool_decide_eq_true_2 by done. rewrite take_ge by (rewrite length_drop; lia). done.
Qed.

(** Consecutive pages of [n] make up the list. *)
Lemma pages_cover {A} (n : Z) (l : list A) k :
  (0 < n)%Z → length l ≤ k * Z.to_nat n →
  concat ((λ i, page (Some (Z.of_nat i * n)%Z) (Some n) l) <$> seq 0 k) = l.
Proof.
  intros Hn. assert (∀ m, concat ((λ i, page (Some (Z.of_nat i * n)%Z) (Some n) l) <$> seq 0 m) = take (m * Z.to_nat n) l) as H.
  { induction m as [|m IH]; [done|]. rewrite seq_S, fmap_app, concat_app, IH. simpl. rewrite app_nil_r.
    unfold page. destruct (Z.ltb_spec 0 n); [|lia]. rewrite Z2Nat.inj_mul, Nat2Z.id by lia.
    replace (Z.to_nat n + m * Z.to_nat n) with (m * Z.to_nat n + Z.to_nat n) by lia.
    by rewrite take_take_drop. }
  intros Hk. rewrite H. by apply take_ge.
Qed.

Lemma filter_elem_iff {A} (P Q : A → Prop) `{∀ x, Decision (P x)} `{∀ x, Decision (Q x)} (l : list A) :
  (∀ x, x ∈ l → P x ↔ Q x) → filter P l = filter Q l.
Proof.
  induction l as [|x l IH]; intros Hl; [done|]. rewrite !filter_cons.
  rewrite IH by (intros; apply Hl; by apply elem_of_cons; right).
  assert (P x ↔ Q x) by (apply Hl; by apply elem_of_cons; left). repeat case_decide; naive_solver.
Qed.

Section Queries.
Context {R JP RV : Type} `{HJ : !JsonPath JP (object R) RV} `{HS : !SliceStable}.
Context `{HM : !MemDB R} `{HL : !MemDBLaws R} `{HA : !ApiMeta} `{HF : !FieldPaths}.
Notation cache := (MemdbCache (R := R)).
Implicit Types (e : Expr JP) (o : object R) (c : cache).

(** ** Filters *)

(** The API server answers by [allowed], whatever was asked before. *)
Context (review : list ResourceAttributes → ResourceAttributes → error + bool).
Context (allowed : ResourceAttributes → bool).
Hypothesis review_allowed : ∀ asked a, review asked a = inr (allowed a).

(** What the user may read. *)
Definition readable o : bool :=
  match read_attributes o with Some a => allowed a | None => true end.

(** The decisions a controller remembers are those of the API server. *)
Definition access_ok (k : AccessController) : Prop :=
  match k with
  | allowAll => ∀ a, allowed a = true
  | kubernetesRbac cached _ _ => ∀ a d, cached !! a = Some d → d = allowed a
  end.

Lemma ViewFilter_answers (P : object R → Prop) : answers access_ok (ViewFilter review) readable P.
Proof.
  intros o k _ Hk. unfold ViewFilter, CanRead, readable. go_simpl.
  destruct k as [|cached updated asked].
  { exists allowAll. destruct (read_attributes o) as [a|]; [|done]. simpl in Hk. by rewrite Hk. }
  destruct (read_attributes o) as [a|]; [|by eexists]. unfold makeAccessDecision.
  destruct (cached !! a) as [d|] eqn:Ha; [rewrite (Hk a d Ha); by eexists|].
  rewrite review_allowed. eexists. split; [done|]. simpl. intros a' d'. destruct (decide (a = a')) as [->|Hne].
  - rewrite lookup_insert_eq. congruence.
  - rewrite lookup_insert_ne by done. apply Hk.
Qed.

(** The objects an expression matches. *)
Definition matches e o : bool := bool_decide (Eval e o = Ok (VBool "" true)).

(** An expression that evaluates on every object considered. *)
Definition evaluates e (P : object R → Prop) : Prop := ∀ o, P o → ∃ v, Eval e o = Ok v.

Lemma writable_bool e o v : writable e → Eval e o = Ok v → ∃ b, v = go_bool b.
Proof.
  destruct (connective e) eqn:Hc; [intros _; by apply Eval_bool|].
  destruct e as [| | | | |b| | | | |]; try done. intros _ [= <-]. by exists b.
Qed.

Lemma expression_answers {S} (I : S → Prop) e P :
  writable e → evaluates e P → answers I (expression_filter (Some e)) (matches e) P.
Proof.
  intros Hw He o s Ho Hs. unfold expression_filter, matches. destruct (He o Ho) as [v Hv].
  destruct (writable_bool e o v Hw Hv) as [b ->]. go_simpl. unfold lift. rewrite Hv. exists s. simpl.
  split; [|done]. destruct b; [by rewrite bool_decide_eq_true_2|by rewrite bool_decide_eq_false_2].
Qed.

Lemma And_answers {S} (I : S → Prop) f m g m' P :
  answers I f m P → (∀ g', g = Some g' → answers I g' m' P) → (g = None → ∀ o, m' o = true) →
  answers I (And [Some f; g]) (λ o, m o && m' o) P.
Proof.
  intros Hf Hg Hnone o s Ho Hs. unfold And. simpl. go_simpl.
  destruct (Hf o s Ho Hs) as (s1 & -> & Hs1). destruct (m o); simpl; [|by exists s1].
  destruct g as [g|]; [|exists s1; by rewrite Hnone].
  go_simpl. destruct (Hg g eq_refl o s1 Ho Hs1) as (s2 & -> & Hs2). destruct (m' o); by exists s2.
Qed.

(** What a filter argument selects among the objects [P]. *)
Inductive selects (P : object R → Prop) : option string → (object R → bool) → Prop :=
  | selects_nil : selects P None (λ _, true)
  | selects_empty : selects P (Some "") (λ _, true)
  | selects_expr s e :
      s ≠ "" → ParseFilterExpression s = Some (Ok (Some e, None)) → evaluates e P → selects P (Some s) (matches e).

(** The filter and the key of a filter argument. *)
Lemma BuildFilter_selects {S} (I : S → Prop) P f m ordered :
  selects P f m → ordered ≠ [] →
  ∃ fltr key, BuildFilter (S := S) f ordered = Ok (fltr, key) ∧
    (∀ g, fltr = Some g → answers I g m P) ∧ (fltr = None → ∀ o, m o = true) ∧
    ∀ o vs, m o = true → Forall2 (λ p v, field p o = Some v ∧ plain v) ordered vs → HasPrefix (Join vs "/") key = true.
Proof.
  intros Hsel Hne. destruct Hsel as [| |s e Hs Hp He].
  - eexists _, _. split_and!; [done..|]. intros o vs _ _. by destruct (Join vs "/").
  - eexists _, _. split_and!; [done..|]. intros o vs _ _. by destruct (Join vs "/").
  - destruct (ParseFilterExpression_writable s (Some e) Hp) as (? & [= <-] & Hw & Hg).
    exists (Some (expression_filter (Some e))), (buildKey e ordered).
    split_and!; [|intros g [= <-]; by apply expression_answers|done|].
    + unfold BuildFilter. destruct s as [|ch s]; [done|]. rewrite Hp. by destruct ordered.
    + intros o vs Hm Hvs. eapply buildKey_prefix; [done..| |done]. by apply bool_decide_eq_true_1 in Hm.
Qed.

(** ** The generic query *)

(** The key prefix every object of a query has, whatever its filter. *)
Lemma query_spec c a name ordered base view mv item orderer m k :
  cache_wf c → name ∈ is_Name <$> schema c → unique_keys c name → ordered ≠ [] →
  selects (λ o, o ∈ scan c name ∧ has_key_prefix c name base o = true) (q_filter a) m →
  BuildOrderer (q_orderBy a) = Ok orderer →
  (∀ f, view = Some f → answers access_ok f mv (λ _, True)) → (view = None → ∀ o, mv o = true) →
  (∀ o, o ∈ scan c name → has_key_prefix c name base o = true →
    ∃ vs, object_key c name o = Some (base +:+ Join vs "/") ∧
      Forall2 (λ p v, field p o = Some v ∧ plain v) ordered vs) →
  access_ok k →
  ∃ k', query c a name ordered (λ key, base +:+ key) view item k =
    (k', finish_query a orderer item
      (filter (λ o, has_key_prefix c name base o = true ∧ mv o && m o = true) (scan c name))) ∧ access_ok k'.
Proof.
  intros Hw Hn Hu Hne Hsel Hord Hview Hvnone Hkeys Hk.
  destruct (BuildFilter_selects access_ok _ _ _ ordered Hsel Hne) as (fltr & key & HB & Hfltr & Hfnone & Hkey).
  set (f := match view with Some _ => Some (And [view; fltr]) | None => fltr end).
  set (P := λ o, o ∈ scan c name ∧ has_key_prefix c name (base +:+ key) o = true).
  assert (∀ o, has_key_prefix c name (base +:+ key) o = true → has_key_prefix c name base o = true) as Hbase.
  { intros o. unfold has_key_prefix. destruct (object_key c name o) as [ko|]; [|done].
    rewrite !HasPrefix_spec. intros [t ->]. exists (key +:+ t). by rewrite append_assoc. }
  assert (∀ g, fltr = Some g → answers access_ok g m P) as Hfltr'.
  { intros g Hg o s [Ho Hp]. apply (Hfltr g Hg). split; [done|by apply Hbase]. }
  destruct (Get_spec access_ok c name (base +:+ key) f (λ o, mv o && m o) k) as (k' & HG & Hk'); [done..| | |done|].
  { intros g Hg. destruct view as [v|]; unfold f in Hg.
    - injection Hg as <-. apply And_answers; [|done..]. intros o s _. by apply (Hview v).
    - intros o s Ho. specialize (Hfltr' g Hg o s Ho). by rewrite Hvnone. }
  { intros Hg o. destruct view as [v|]; [done|]. rewrite Hvnone by done. by apply Hfnone. }
  exists k'. split; [|done]. unfold query. go_simpl. unfold lift. rewrite HB, Hord. fold f. rewrite HG.
  do 2 f_equal. apply filter_elem_iff. intros o Ho. split; [naive_solver|]. intros [Hb Hm]. split; [|done].
  destruct (Hkeys o Ho Hb) as (vs & Hok & Hvs). unfold has_key_prefix. rewrite Hok, HasPrefix_app.
  apply (Hkey o); [|done]. by apply andb_true_iff in Hm as [_ Hm].
Qed.

(** ** The objects of the console *)

(** Objects carry the kind of their type. *)
Definition kinded o : bool :=
  match o with
  | CoreNamespace m _ => bool_decide (Kind m = "Namespace")
  | AddressSpaceHolder m _ => bool_decide (Kind m = "AddressSpace")
  | AddressHolder m _ _ => bool_decide (Kind m = "Address")
  | Connection m _ _ => bool_decide (Kind m = "Connection")
  | Link m _ _ => bool_decide (Kind m = "Link")
  | AddressPlan m _ => bool_decide (Kind m = "AddressPlan")
  | AddressSpacePlan m _ => bool_decide (Kind m = "AddressSpacePlan")
  | AddressSpaceSchema m _ => bool_decide (Kind m = "AddressSpaceSchema")
  | AuthenticationService m _ => bool_decide (Kind m = "AuthenticationService")
  | OtherObject _ => true
  end.

(** The names that make up the keys of objects are plain. *)
Definition named o : Prop :=
  match o with
  | AddressSpaceHolder m _ | AddressHolder m _ _ => plain (Namespace m) ∧ plain (Name m)
  | Connection m s _ => plain (Namespace m) ∧ plain s ∧ plain (Name m)
  | Link m spec _ => plain (Name m)
  | _ => True
  end.

(** A cache as [CreateObjectCache] makes it, with such objects. *)
Record console_cache c : Prop := {
  cc_wf : cache_wf c;
  cc_key ix : find_index PrimaryObjectIndex (schema c) = Some ix → keyCreator ix = primaryUniqueKeyCreator;
  cc_objects o : o ∈ objects (db c) → kinded o = true ∧ named o;
}.

Definition is_AddressSpaceHolder o : bool := match o with AddressSpaceHolder _ _ => true | _ => false end.
Definition is_AddressHolder o : bool := match o with AddressHolder _ _ _ => true | _ => false end.
Definition is_Connection o : bool := match o with Connection _ _ _ => true | _ => false end.
Definition is_Link o : bool := match o with Link _ _ _ => true | _ => false end.

(** The primary key of a stored object. *)
Lemma primary_object_key c o :
  console_cache c → o ∈ scan c PrimaryObjectIndex →
  kinded o = true ∧ named o ∧
  object_key c PrimaryObjectIndex o = Some (primaryUniqueKeyCreator o).1.2 ∧ (primaryUniqueKeyCreator o).1.1 = true.
Proof.
  intros [Hw Hkc Hobj] Ho. apply scan_spec in Ho as [Ho [k Hk]]; [|done|apply Hw|apply unique_primary].
  destruct (Hobj o Ho) as [Hkind Hnamed]. split_and!; [done..| |].
  - rewrite stored_object_key in Hk by done. unfold object_key in *.
    destruct (find_index _ _) as [ix|] eqn:Hix; [|done]. simpl in *. rewrite (Hkc ix eq_refl) in *.
    by destruct (primaryUniqueKeyCreator o) as [[[] ?] []].
  - rewrite stored_object_key in Hk by done. unfold object_key in *.
    destruct (find_index _ _) as [ix|] eqn:Hix; [|done]. simpl in *. rewrite (Hkc ix eq_refl) in *.
    by destruct (primaryUniqueKeyCreator o) as [[[] ?] []].
Qed.

(** The kind of an object is the first element of its key. *)
Lemma kind_prefix c o kind :
  console_cache c → o ∈ scan c PrimaryObjectIndex →
  kind ∈ [("AddressSpace/", is_AddressSpaceHolder); ("Address/", is_AddressHolder);
          ("Connection/", is_Connection); ("Link/", is_Link)] →
  has_key_prefix c PrimaryObjectIndex kind.1 o = kind.2 o.
Proof.
  intros Hc Ho Hkind. destruct (primary_object_key c o Hc Ho) as (Hk & _ & Hok & Hb).
  unfold has_key_prefix. rewrite Hok. clear -Hk Hb Hkind.
  destruct o; simpl in *; try (apply bool_decide_eq_true_1 in Hk; rewrite Hk); try done.
  all: try (case_match; simpl in *; [done|]).
  all: repeat (apply elem_of_cons in Hkind as [->|Hkind]; [done|]); by apply elem_of_nil in Hkind.
Qed.

(** The objects a query for a kind is about. *)
Definition listed c (kind : object R → bool) (m : object R → bool) : list (object R) :=
  filter (λ o, kind o && (readable o && m o) = true) (scan c PrimaryObjectIndex).

Lemma kind_query c a ordered kind item orderer m k :
  console_cache c → ordered ≠ [] →
  kind ∈ [("AddressSpace/", is_AddressSpaceHolder); ("Address/", is_AddressHolder);
          ("Connection/", is_Connection); ("Link/", is_Link)] →
  selects (λ o, o ∈ scan c PrimaryObjectIndex ∧ kind.2 o = true) (q_filter a) m →
  BuildOrderer (q_orderBy a) = Ok orderer →
  (∀ o, o ∈ scan c PrimaryObjectIndex → kind.2 o = true →
    ∃ vs, object_key c PrimaryObjectIndex o = Some (kind.1 +:+ Join vs "/") ∧
      Forall2 (λ p v, field p o = Some v ∧ plain v) ordered vs) →
  access_ok k →
  ∃ k', query c a PrimaryObjectIndex ordered (λ key, kind.1 +:+ key) (Some (ViewFilter review)) item k =
    (k', finish_query a orderer item (listed c kind.2 m)) ∧ access_ok k'.
Proof.
  intros Hc Hne Hkind Hsel Hord Hkeys Hk.
  assert (∀ o, o ∈ scan c PrimaryObjectIndex → has_key_prefix c PrimaryObjectIndex kind.1 o = kind.2 o) as Hkp
    by (intros; by apply kind_prefix).
  destruct (query_spec c a PrimaryObjectIndex ordered kind.1 (Some (ViewFilter review)) readable item orderer m k)
    as (k' & Hq & Hk'); try done.
  - apply Hc.
  - apply Hc.
  - apply unique_primary.
  - destruct Hsel as [| |s e Hs Hp He]; [constructor..|]. constructor; [done..|].
    intros o [Ho Hp']. apply He. split; [done|]. by rewrite <-Hkp.
  - intros f [= <-]. apply ViewFilter_answers.
  - intros o Ho Hb. apply Hkeys; [done|]. by rewrite <-Hkp.
  - exists k'. rewrite Hq. split; [|done]. do 2 f_equal. apply filter_elem_iff. intros o Ho.
    rewrite Hkp by done. by rewrite (andb_true_iff (kind.2 o)).
Qed.

(** ** The three lists *)

(** The filter, the order and the controller of a query are usable. *)
Record query_ok c (a : QueryArgs) (kind : object R → bool) (m : object R → bool)
    (orderer : list (object R) → outcome (list (object R))) (k : AccessController) : Prop := {
  qo_cache : console_cache c;
  qo_filter : selects (λ o, o ∈ scan c PrimaryObjectIndex ∧ kind o = true) (q_filter a) m;
  qo_order : BuildOrderer (q_orderBy a) = Ok orderer;
  qo_access : access_ok k;
}.

Lemma AddressSpaces_listed c a m orderer k :
  query_ok c a is_AddressSpaceHolder m orderer k →
  ∃ k', AddressSpaces review c a k =
    (k', finish_query a orderer as_AddressSpaceHolder (listed c is_AddressSpaceHolder m)) ∧ access_ok k'.
Proof.
  intros [Hc Hf Ho Hk].
  apply (kind_query c a _ ("AddressSpace/", is_AddressSpaceHolder)); [done|done|set_solver|done..| |done].
  intros o Hin Ht. destruct (primary_object_key c o Hc Hin) as (Hkind & Hn & Hok & _).
  destruct o as [|m' r| | | | | | | |]; try done. apply bool_decide_eq_true_1 in Hkind. destruct Hn.
  exists [Namespace m'; Name m']. rewrite Hok. simpl. rewrite Hkind. split; [done|]. by repeat constructor.
Qed.

Lemma Addresses_listed c a m orderer k :
  query_ok c a is_AddressHolder m orderer k →
  ∃ k', Addresses review c a k =
    (k', finish_query a orderer as_AddressHolder (listed c is_AddressHolder m)) ∧ access_ok k'.
Proof.
  intros [Hc Hf Ho Hk].
  apply (kind_query c a _ ("Address/", is_AddressHolder)); [done|done|set_solver|done..| |done].
  intros o Hin Ht. destruct (primary_object_key c o Hc Hin) as (Hkind & Hn & Hok & Hb).
  destruct o as [| |m' ad r| | | | | | |]; try done. apply bool_decide_eq_true_1 in Hkind. destruct Hn.
  exists [Namespace m'; Name m']. rewrite Hok. simpl in *. case_match; [done|]. simpl. rewrite Hkind.
  split; [done|]. by repeat constructor.
Qed.

Lemma Connections_listed c a m orderer k :
  query_ok c a is_Connection m orderer k →
  ∃ k', Connections review c a k =
    (k', finish_query a orderer as_Connection (listed c is_Connection m)) ∧ access_ok k'.
Proof.
  intros [Hc Hf Ho Hk].
  apply (kind_query c a _ ("Connection/", is_Connection)); [done|done|set_solver|done..| |done].
  intros o Hin Ht. destruct (primary_object_key c o Hc Hin) as (Hkind & Hn & Hok & _).
  destruct o as [| | |m' s r| | | | | |]; try done. apply bool_decide_eq_true_1 in Hkind. destruct Hn as (? & ? & ?).
  exists [Namespace m'; s; Name m']. rewrite Hok. simpl. rewrite Hkind. split; [done|]. by repeat constructor.
Qed.

(** ** Links of a connection *)

(** Elements of a key contain no separator. *)
Definition element (s : string) : bool := bool_decide (index_byte s "/" = -1)%Z.

Lemma element_prefix s t s' t' :
  element s = true → element s' = true → HasPrefix (s +:+ "/" +:+ t) (s' +:+ "/" +:+ t') = true →
  s = s' ∧ HasPrefix t t' = true.
Proof.
  unfold element. rewrite !bool_decide_eq_true. revert s'. induction s as [|ch s IH]; intros [|ch' s'] Hs Hs' Hp.
  - simpl in Hp. done.
  - cbn [String.append HasPrefix] in Hp. apply andb_true_iff in Hp as [->%Ascii.eqb_eq _]. done.
  - cbn [String.append HasPrefix] in Hp. apply andb_true_iff in Hp as [<-%Ascii.eqb_eq _]. done.
  - change (HasPrefix (String ch (s +:+ "/" +:+ t)) (String ch' (s' +:+ "/" +:+ t')) = true) in Hp.
    cbn [HasPrefix] in Hp. apply andb_true_iff in Hp as [->%Ascii.eqb_eq Hp].
    cbn [index_byte] in Hs, Hs'. destruct (Ascii.eqb ch "/"); [done|].
    pose proof (index_byte_range s "/"). pose proof (index_byte_range s' "/").
    repeat case_bool_decide; try lia. destruct (IH s') as [-> ?]; done.
Qed.

(** The links of a connection. *)
Definition link_of (ns space name : string) o : bool :=
  match o with
  | Link m spec _ =>
      bool_decide (Namespace m = ns) && bool_decide (ls_AddressSpace spec = space) && bool_decide (ls_Connection spec = name)
  | _ => false
  end.

(** The elements of the keys of links. *)
Definition link_elements o : Prop :=
  match o with
  | Link m spec _ =>
      element (Namespace m) = true ∧ element (ls_AddressSpace spec) = true ∧ element (ls_Connection spec) = true
  | _ => True
  end.

Lemma link_prefix c o ns space name :
  console_cache c → o ∈ scan c PrimaryObjectIndex → link_elements o →
  element ns = true → element space = true → element name = true →
  has_key_prefix c PrimaryObjectIndex ("Link/" +:+ ns +:+ "/" +:+ space +:+ "/" +:+ name +:+ "/") o = link_of ns space name o.
Proof.
  intros Hc Ho Hel Hns Hsp Hn. destruct (primary_object_key c o Hc Ho) as (Hk & _ & Hok & Hb).
  unfold has_key_prefix. rewrite Hok.
  destruct (is_Link o) eqn:Hlink.
  2: { assert (has_key_prefix c PrimaryObjectIndex "Link/" o = false) as Hno.
       { etransitivity; [|exact Hlink]. apply (kind_prefix c o ("Link/", is_Link)); [done..|set_solver]. }
       unfold has_key_prefix in Hno. rewrite Hok in Hno. assert (link_of ns space name o = false) as -> by (by destruct o).
       apply not_true_iff_false. intros [t Ht]%HasPrefix_spec. apply not_true_iff_false in Hno. apply Hno, HasPrefix_spec.
       exists ((ns +:+ "/" +:+ space +:+ "/" +:+ name +:+ "/") +:+ t). by rewrite Ht, append_assoc. }
  destruct o as [| | | |m spec r| | | | |]; try done. destruct Hel as (H1 & H2 & H3).
  apply bool_decide_eq_true_1 in Hk. cbn [primaryUniqueKeyCreator fst snd]. rewrite Hk.
  set (X := Namespace m +:+ "/" +:+ ls_AddressSpace spec +:+ "/" +:+ ls_Connection spec +:+ "/" +:+ Name m).
  set (Y := ns +:+ "/" +:+ space +:+ "/" +:+ name +:+ "/").
  change (HasPrefix ("Link/" +:+ X) ("Link/" +:+ Y) = link_of ns space name (Link m spec r)). rewrite HasPrefix_app.
  apply eq_bool_prop_intro. rewrite !Is_true_true. unfold link_of. rewrite !andb_true_iff, !bool_decide_eq_true. split.
  - intros [-> [-> [-> _]%element_prefix]%element_prefix]%element_prefix; done.
  - unfold X, Y. intros [[-> ->] ->]. rewrite !HasPrefix_app. by destruct (Name m).
Qed.

Lemma Connection_Links_listed c a (cm : meta) space m orderer k :
  query_ok c a (link_of (Namespace cm) space (Name cm)) m orderer k →
  (∀ o, o ∈ scan c PrimaryObjectIndex → link_elements o) →
  element (Namespace cm) = true → element space = true → element (Name cm) = true →
  ∃ k', Connection_Links c cm space a k =
    (k', finish_query a orderer as_Link
      (filter (λ o, link_of (Namespace cm) space (Name cm) o && m o = true) (scan c PrimaryObjectIndex))) ∧ access_ok k'.
Proof.
  intros [Hc Hf Ho Hk] Hel Hns Hsp Hn.
  set (base := "Link/" +:+ Namespace cm +:+ "/" +:+ space +:+ "/" +:+ Name cm +:+ "/").
  assert (∀ o, o ∈ scan c PrimaryObjectIndex → has_key_prefix c PrimaryObjectIndex base o = link_of (Namespace cm) space (Name cm) o)
    as Hkp by (intros; apply link_prefix; auto).
  destruct (query_spec c a PrimaryObjectIndex ["$.metadata.name"] base None (λ _, true) as_Link orderer m k)
    as (k' & Hq & Hk'); try done; [apply Hc|apply Hc|apply unique_primary| | |].
  - destruct Hf as [| |s e Hs Hp He]; [constructor..|]. constructor; [done..|].
    intros o [Hin Hp']. apply He. split; [done|]. by rewrite <-Hkp.
  - intros o Hin Hp. rewrite Hkp in Hp by done. destruct (primary_object_key c o Hc Hin) as (Hkind & Hnm & Hok & _).
    destruct o as [| | | |m' spec r| | | | |]; try done. apply bool_decide_eq_true_1 in Hkind.
    simpl in Hp. rewrite !andb_true_iff, !bool_decide_eq_true in Hp. destruct Hp as [[H1 H2] H3].
    exists [Name m']. rewrite Hok. simpl. rewrite Hkind, H1, H2, H3. unfold base. rewrite !append_assoc.
    split; [done|]. by repeat constructor.
  - exists k'. split; [|done].
    assert (Connection_Links c cm space a k = query c a PrimaryObjectIndex ["$.metadata.name"] (λ key, base +:+ key) None as_Link k)
      as ->.
    { unfold Connection_Links, base. unfold query. go_simpl. destruct (BuildFilter _ _) as [[f key]| |]; [|done..].
      simpl. by rewrite !append_assoc. }
    rewrite Hq. do 2 f_equal. apply filter_elem_iff. intros o Hin. rewrite Hkp by done. by rewrite (andb_true_iff (link_of _ _ _ o)).
Qed.

(** The page of a query whose bounds do not overflow. *)
Lemma finish_query_page a (orderer : list (object R) → outcome (list (object R))) (item : object R → outcome (object R))
    objs sorted :
  orderer objs = Ok sorted → (Z.of_nat (length sorted) <= int_max Int)%Z →
  (∀ f, q_first a = Some f → f <= int_max Int - Z.of_nat (length sorted))%Z →
  finish_query a orderer item objs =
    items ← map_outcome item (page (q_offset a) (q_first a) sorted);
    mret {| Total := Z.of_nat (length sorted); Items := items |}.
Proof.
  intros Hs Hlen Hf. unfold finish_query. rewrite Hs. cbn [mbind outcome_bind].
  pose proof (slice_page (q_offset a) (q_first a) sorted Hlen Hf) as Hp.
  destruct (CalcLowerUpper _ _ _) as [lower upper]. by rewrite Hp.
Qed.

(** ** Answers *)

(** The orders an argument asks for. *)
Definition orders_of (ob : option string) (os : list (Order JP)) : Prop :=
  match ob with
  | Some (String _ _ as s) => ParseOrderByExpression s = Some (Ok (os, None))
  | _ => os = []
  end.

(** The answer about the objects [objs]: how many there are, and the page asked for of
    the objects in order, those of equal rank as they were. *)
Definition answer (a : QueryArgs) (os : list (Order JP)) (shown : object R → object R) (objs : list (object R))
    (r : outcome (QueryResult (R := R))) : Prop :=
  ∃ sorted, sorted ≡ₚ objs ∧ in_order (before os) sorted ∧
    (∀ o, o ∈ objs → filter (λ q, ranks_all os o q = Eq) sorted = filter (λ q, ranks_all os o q = Eq) objs) ∧
    r = Ok {| Total := Z.of_nat (length objs); Items := shown <$> page (q_offset a) (q_first a) sorted |}.

(** The objects can be ordered, and their number and the page fit an [int]. *)
Record pageable (a : QueryArgs) (os : list (Order JP)) (objs : list (object R)) : Prop := {
  pg_orders : orders_of (q_orderBy a) os;
  pg_sortable : sortable_by os objs;
  pg_length : (Z.of_nat (length objs) <= int_max Int)%Z;
  pg_first f : q_first a = Some f → (f <= int_max Int - Z.of_nat (length objs))%Z;
}.

Lemma BuildOrderer_orders ob os objs :
  orders_of ob os → sortable_by os objs →
  ∃ orderer sorted, BuildOrderer ob = Ok orderer ∧ orderer objs = Ok sorted ∧ sorted ≡ₚ objs ∧
    in_order (before os) sorted ∧
    ∀ o, o ∈ objs → filter (λ q, ranks_all os o q = Eq) sorted = filter (λ q, ranks_all os o q = Eq) objs.
Proof.
  intros Ho Hs. destruct (Sort_spec os objs Hs) as (sorted & Hsort & Hp & Hin & Hst). destruct ob as [[|ch s]|].
  2: { simpl in Ho. eexists _, sorted. unfold BuildOrderer. rewrite Ho. cbn [returned default mbind outcome_bind].
       split_and!; [reflexivity|cbv beta; by rewrite Hsort|done..]. }
  all: simpl in Ho; subst os; unfold Sort in Hsort; injection Hsort as <-; eexists _, objs; split_and!; [reflexivity|done..].
Qed.

Lemma map_outcome_ok {A B} (f : A → outcome B) (g : A → B) l :
  (∀ x, x ∈ l → f x = Ok (g x)) → map_outcome f l = Ok (g <$> l).
Proof.
  induction l as [|x l IH]; intros H; [done|]. cbn [map_outcome]. rewrite (H x) by (by left).
  cbn [mbind outcome_bind]. rewrite IH by (intros; apply H; by right). done.
Qed.

Lemma page_subset {A} offset first (l : list A) x : x ∈ page offset first l → x ∈ l.
Proof.
  unfold page. intros Hx.
  assert (x ∈ match offset with Some off => drop (Z.to_nat off) l | None => l end) as Hd.
  { repeat case_match; try done; by apply elem_of_take in Hx as (? & ? & _); eapply list_elem_of_lookup_2. }
  destruct offset; [|done]. apply list_elem_of_lookup in Hd as [i Hi]. rewrite lookup_drop in Hi.
  by eapply list_elem_of_lookup_2.
Qed.

Lemma finish_answer a os item shown objs :
  pageable a os objs → (∀ o, o ∈ objs → item o = Ok (shown o)) →
  ∃ orderer, BuildOrderer (q_orderBy a) = Ok orderer ∧ answer a os shown objs (finish_query a orderer item objs).
Proof.
  intros [Ho Hs Hlen Hfirst] Hitem.
  destruct (BuildOrderer_orders _ os objs Ho Hs) as (orderer & sorted & HB & Hsorted & Hp & Hin & Hst).
  exists orderer. split; [done|]. exists sorted. split_and!; [done..|].
  apply Permutation_length in Hp as Hl. rewrite <-Hl in Hlen, Hfirst.
  rewrite (finish_query_page a orderer item objs sorted) by done.
  rewrite (map_outcome_ok item shown); [by rewrite Hl|].
  intros o Hpage. apply Hitem. rewrite <-Hp. by eapply page_subset.
Qed.

(** ** Caches *)

Lemma each_insert_sub c objs m m' :
  each_map (map_insert c) objs m = Some m' → ∀ k o, m' !! k = Some o → m !! k = Some o ∨ o ∈ objs.
Proof.
  revert m. induction objs as [|x objs IH]; intros m Hm k o Hk; [simplify_eq/=; by left|].
  cbn [each_map] in Hm. destruct (map_insert c x m) as [m1|] eqn:Hx; [|by simpl in Hm].
  change (each_map (map_insert c) objs m1 = Some m') in Hm. unfold map_insert in Hx.
  destruct (primary_key c x) as [kx|]; [|by simpl in Hx]. simpl in Hx. destruct (addable c x); [|done]. injection Hx as <-.
  destruct (IH _ Hm k o Hk) as [Hin|]; [|right; by right].
  destruct (decide (k = kx)) as [->|]; [|rewrite lookup_insert_ne in Hin by done; by left].
  rewrite lookup_insert_eq in Hin. simplify_eq. right. by left.
Qed.

(** The caches the console makes. *)
Lemma console_cache_created : ∃ c, CreateObjectCache = Ok c ∧ console_cache c.
Proof.
  destruct CreateObjectCache_ok as (c & Hc & Hw & Hv & Hn & Hkey & _). exists c. split; [done|].
  split; [done| |].
  - intros ix Hix. unfold find_index in Hix. destruct (schema c) as [|i1 [|i2 [|]]]; simplify_eq/=.
    rewrite filter_cons, decide_True in Hix by done. by simplify_eq/=.
  - intros o Ho. destruct (objects_id (db c) o Ho) as [k Hk]. rewrite stored_object_key in Hk by done.
    destruct (object_key c "id" o) as [k'|] eqn:Hk'; [|done].
    assert (view c !! k' = Some o) as Hl by (by apply lookup_view). by rewrite Hv, lookup_empty in Hl.
Qed.

Lemma console_cache_added c c' objs :
  console_cache c → Forall (λ o, kinded o = true ∧ named o) objs → Add objs c = (c', Ok ()) → console_cache c'.
Proof.
  intros [Hw Hkey Hobj] Hobjs HA'. pose proof (Add_refines c objs Hw) as Hr. unfold result in Hr.
  destruct (each_map _ _ _) as [m|] eqn:Hm; [|destruct Hr as [? Hr]; congruence].
  destruct Hr as (c1 & Hc1 & Hw1 & Hsch & Hview). rewrite HA' in Hc1. injection Hc1 as <-. split; [done| |].
  - intros ix. rewrite Hsch. apply Hkey.
  - intros o Ho. destruct (objects_id (db c') o Ho) as [k Hk]. rewrite stored_object_key in Hk by done.
    destruct (object_key c' "id" o) as [k'|] eqn:Hk'; [|done].
    assert (view c' !! k' = Some o) as Hl by (by apply lookup_view). rewrite Hview in Hl.
    destruct (each_insert_sub c objs _ m Hm k' o Hl) as [Hin|Hin].
    + apply lookup_view in Hin as [Hin _]; [|done]. by apply Hobj.
    + apply list_elem_of_lookup in Hin as [i Hi]. exact (Forall_lookup_1 _ _ _ _ Hobjs Hi).
Qed.

(** ** The answers of the three lists *)

(** A query about a kind of objects: its cache, its filter and its arguments are usable. *)
Record asks c (a : QueryArgs) (kind m : object R → bool) (os : list (Order JP)) (k : AccessController) : Prop := {
  as_cache : console_cache c;
  as_filter : selects (λ o, o ∈ scan c PrimaryObjectIndex ∧ kind o = true) (q_filter a) m;
  as_page : pageable a os (listed c kind m);
  as_access : access_ok k;
}.

Lemma listed_kind c kind m o : o ∈ listed c kind m → kind o = true.
Proof. unfold listed. intros [[? _]%andb_true_iff _]%list_elem_of_filter. done. Qed.

Lemma asks_ok c a kind m os k item :
  asks c a kind m os k → (∀ o, kind o = true → item o = Ok o) →
  ∃ orderer, query_ok c a kind m orderer k ∧
    answer a os (λ o, o) (listed c kind m) (finish_query a orderer item (listed c kind m)).
Proof.
  intros [Hc Hf Hp Hk] Hitem.
  destruct (finish_answer a os item (λ o, o) (listed c kind m) Hp) as (orderer & HB & Ha).
  { intros o Ho. apply Hitem. by eapply listed_kind. }
  exists orderer. split; [by split|done].
Qed.

Lemma AddressSpaces_answer c a m os k :
  asks c a is_AddressSpaceHolder m os k →
  answer a os (λ o, o) (listed c is_AddressSpaceHolder m) (AddressSpaces review c a k).2.
Proof.
  intros Ha. destruct (asks_ok _ _ _ _ _ _ as_AddressSpaceHolder Ha) as (orderer & Hq & Hans); [by intros []|].
  by destruct (AddressSpaces_listed c a m orderer k Hq) as (k' & -> & _).
Qed.

Lemma Addresses_answer c a m os k :
  asks c a is_AddressHolder m os k →
  answer a os (λ o, o) (listed c is_AddressHolder m) (Addresses review c a k).2.
Proof.
  intros Ha. destruct (asks_ok _ _ _ _ _ _ as_AddressHolder Ha) as (orderer & Hq & Hans); [by intros []|].
  by destruct (Addresses_listed c a m orderer k Hq) as (k' & -> & _).
Qed.

Lemma Connections_answer c a m os k :
  asks c a is_Connection m os k →
  answer a os (λ o, o) (listed c is_Connection m) (Connections review c a k).2.
Proof.
  intros Ha. destruct (asks_ok _ _ _ _ _ _ as_Connection Ha) as (orderer & Hq & Hans); [by intros []|].
  by destruct (Connections_listed c a m orderer k Hq) as (k' & -> & _).
Qed.

(** A link as the console shows it: without its type. *)
Definition shown_link o : object R :=
  match o with
  | Link m spec r => Link {| APIVersion := ""; Kind := ""; Namespace := Namespace m; Name := Name m |} spec r
  | _ => o
  end.

Lemma Connection_Links_answer c a (cm : meta) space m os k :
  let links := filter (λ o, link_of (Namespace cm) space (Name cm) o && m o = true) (scan c PrimaryObjectIndex) in
  console_cache c → access_ok k →
  selects (λ o, o ∈ scan c PrimaryObjectIndex ∧ link_of (Namespace cm) space (Name cm) o = true) (q_filter a) m →
  pageable a os links → (∀ o, o ∈ scan c PrimaryObjectIndex → link_elements o) →
  element (Namespace cm) = true → element space = true → element (Name cm) = true →
  answer a os shown_link links (Connection_Links c cm space a k).2.
Proof.
  intros links Hc Hk Hf Hp Hel Hns Hsp Hn.
  destruct (finish_answer a os as_Link shown_link links Hp) as (orderer & HB & Ha).
  { intros o [[Hl _]%andb_true_iff _]%list_elem_of_filter. by destruct o. }
  destruct (Connection_Links_listed c a cm space m orderer k) as (k' & -> & _); [by split|done..].
Qed.

(** ** Addresses of an address space *)

(** The addresses whose name begins with a text. *)
Definition address_in (ns name : string) o : bool :=
  match o with AddressHolder m _ _ => bool_decide (Namespace m = ns) && HasPrefix (Name m) name | _ => false end.

Definition address_element o : Prop :=
  match o with AddressHolder m _ _ => element (Namespace m) = true | _ => True end.

Lemma address_prefix c o ns name :
  console_cache c → o ∈ scan c PrimaryObjectIndex → address_element o → element ns = true →
  has_key_prefix c PrimaryObjectIndex ("Address/" +:+ ns +:+ "/" +:+ name) o = address_in ns name o.
Proof.
  intros Hc Ho Hel Hns. destruct (primary_object_key c o Hc Ho) as (Hk & _ & Hok & Hb).
  unfold has_key_prefix. rewrite Hok. destruct (is_AddressHolder o) eqn:Hadd.
  2: { assert (has_key_prefix c PrimaryObjectIndex "Address/" o = false) as Hno.
       { etransitivity; [|exact Hadd]. apply (kind_prefix c o ("Address/", is_AddressHolder)); [done..|set_solver]. }
       unfold has_key_prefix in Hno. rewrite Hok in Hno. assert (address_in ns name o = false) as -> by (by destruct o).
       apply not_true_iff_false. intros [t Ht]%HasPrefix_spec. apply not_true_iff_false in Hno. apply Hno, HasPrefix_spec.
       exists ((ns +:+ "/" +:+ name) +:+ t). by rewrite Ht, append_assoc. }
  destruct o as [| |m ad r| | | | | | |]; try done. apply bool_decide_eq_true_1 in Hk.
  cbn [primaryUniqueKeyCreator fst snd] in *. case_match; [done|]. rewrite Hk.
  change (HasPrefix ("Address/" +:+ Namespace m +:+ "/" +:+ Name m) ("Address/" +:+ ns +:+ "/" +:+ name) =
    address_in ns name (AddressHolder m ad r)). rewrite HasPrefix_app.
  apply eq_bool_prop_intro. rewrite !Is_true_true. unfold address_in. rewrite andb_true_iff, bool_decide_eq_true. split.
  - by intros [-> ?]%element_prefix.
  - intros [-> Hp]. by rewrite !HasPrefix_app.
Qed.

Lemma AddressSpace_Addresses_answer c a (sm : meta) os k :
  let addresses := filter (λ o, address_in (Namespace sm) (Name sm) o && readable o = true) (scan c PrimaryObjectIndex) in
  console_cache c → access_ok k → q_filter a = None → pageable a os addresses →
  (∀ o, o ∈ scan c PrimaryObjectIndex → address_element o) → element (Namespace sm) = true →
  answer a os (λ o, o) addresses (AddressSpace_Addresses review c sm a k).2.
Proof.
  intros addresses Hc Hk Hf Hp Hel Hns.
  destruct (finish_answer a os as_AddressHolder (λ o, o) addresses Hp) as (orderer & HB & Ha).
  { intros o [[Hl _]%andb_true_iff _]%list_elem_of_filter. by destruct o. }
  destruct (Get_spec access_ok c PrimaryObjectIndex ("Address/" +:+ Namespace sm +:+ "/" +:+ Name sm)
    (Some (And [Some (ViewFilter review); None])) (λ o, readable o && true) k) as (k' & HG & _); [apply Hc|apply Hc|apply unique_primary| |done|done|].
  { intros f [= <-]. apply (And_answers _ _ _ None (λ _, true)); [apply ViewFilter_answers|done..]. }
  unfold AddressSpace_Addresses, query, BuildFilter. rewrite Hf. go_simpl. unfold lift. rewrite HB.
  rewrite HG. cbn [snd].
  assert (filter (λ o, has_key_prefix c PrimaryObjectIndex ("Address/" +:+ Namespace sm +:+ "/" +:+ Name sm) o = true ∧
    readable o && true = true) (scan c PrimaryObjectIndex) = addresses) as ->; [|done].
  apply filter_elem_iff. intros o Hin. rewrite address_prefix by auto.
  by rewrite andb_true_r, (andb_true_iff (address_in _ _ o)).
Qed.
End Queries.
