(* ===== verification/ConsoleSim.v ===== *)
(** A console to run: a database with the documented behaviour of [go-memdb], as a list of
    objects whose scans sort them by their keys, JSON paths to the fields of objects, an API
    server that allows some namespaces, and a cache with objects in two address spaces. *)
From stdpp Require Import base gmap sets strings list.
From Stdlib Require Import Ascii.
From S2P Require Import Prelude GoStrings FilterExpr StableSort FilterLex FilterParse FilterText Cache CacheFacts Access.
From S2P Require Import Resolvers KeyFacts QueryFacts.

Section ListDB.
Context {R : Type}.
Implicit Types (o : object R) (ixs : list (IndexSpecifier R)).

Definition key_in ixs (name : string) o : option string :=
  ix ← find_index name ixs; index_key ix o.

Record ListDB := {
  l_indexes : list (IndexSpecifier R);
  l_objects : list (object R);
  l_keyed : Forall (λ o, is_Some (key_in l_indexes "id" o)) l_objects;
  l_unique : NoDup (key_in l_indexes "id" <$> l_objects);
}.

(** ** Changes *)

Definition others ixs o (l : list (object R)) : list (object R) :=
  filter (λ o', key_in ixs "id" o' ≠ key_in ixs "id" o) l.

Lemma NoDup_fmap_filter {A B} (f : A → B) (P : A → Prop) `{∀ x, Decision (P x)} (l : list A) :
  NoDup (f <$> l) → NoDup (f <$> filter P l).
Proof. intros Hl. apply (sublist_NoDup _ _ Hl). by apply fmap_sublist, sublist_filter. Qed.

(** A database with some of the objects. *)
#[refine] Definition keep (P : object R → Prop) `{∀ o, Decision (P o)} (d : ListDB) : ListDB := {|
  l_indexes := l_indexes d; l_objects := filter P (l_objects d) |}.
Proof.
  - apply Forall_forall. intros o [_ Ho]%list_elem_of_filter. pose proof (l_keyed d) as Hk.
    by apply (proj1 (Forall_forall _ _) Hk).
  - apply NoDup_fmap_filter, l_unique.
Defined.

(** A database with an object added under a key of its own. *)
#[refine] Definition replaced o (d : ListDB) (Hk : is_Some (key_in (l_indexes d) "id" o)) : ListDB := {|
  l_indexes := l_indexes d; l_objects := o :: others (l_indexes d) o (l_objects d) |}.
Proof.
  - constructor; [done|]. apply (l_keyed (keep (λ o', key_in (l_indexes d) "id" o' ≠ key_in (l_indexes d) "id" o) d)).
  - cbn. constructor.
    + intros (o' & Heq & Ho')%list_elem_of_fmap. apply list_elem_of_filter in Ho' as [Hne _]. congruence.
    + apply NoDup_fmap_filter, l_unique.
Defined.

#[refine] Definition list_new ixs : outcome ListDB :=
  if bool_decide (NoDup (is_Name <$> ixs) ∧ "id" ∈ is_Name <$> ixs)
  then Ok {| l_indexes := ixs; l_objects := [] |} else Err (Errorf "schema").
Proof. all: constructor. Defined.

Definition list_insert o (d : ListDB) : outcome ListDB :=
  match decide (is_Some (key_in (l_indexes d) "id" o)) with
  | left Hk => if forallb (λ ix, indexable ix o) (l_indexes d) then Ok (replaced o d Hk) else Err (Errorf "missing value for index")
  | right _ => Err (Errorf "object missing primary index")
  end.

Definition list_delete o (d : ListDB) : outcome ListDB :=
  if existsb (λ o', bool_decide (key_in (l_indexes d) "id" o' = key_in (l_indexes d) "id" o)) (l_objects d)
  then Ok (keep (λ o', key_in (l_indexes d) "id" o' ≠ key_in (l_indexes d) "id" o) d) else Err (Errorf "not found").

(** The index a prefix index belongs to. *)
Definition prefix_index ixs (name : string) : option string :=
  is_Name <$> head (filter (λ ix, is_Name ix +:+ "_prefix" = name) ixs).

Definition has_prefix_in ixs (name pre : string) o : bool :=
  match key_in ixs name o with Some k => HasPrefix k pre | None => false end.

Definition list_delete_prefix (name pre : string) (d : ListDB) : outcome ListDB :=
  match prefix_index (l_indexes d) name with
  | Some n => Ok (keep (λ o, has_prefix_in (l_indexes d) n pre o = false) d)
  | None => Err (Errorf "invalid index")
  end.

(** ** Scans *)

(** An entry put in its place in the order of the keys. *)
Fixpoint put (k : string) o (l : list (string * object R)) : list (string * object R) :=
  match l with
  | [] => [(k, o)]
  | (k', o') :: l' =>
      if bytes_le k k' then (if bytes_le k' k then (k, o) :: l' else (k, o) :: l) else (k', o') :: put k o l'
  end.

Definition entries ixs (name : string) (l : list (object R)) : list (string * object R) :=
  omap (λ o, (λ k, (k, o)) <$> key_in ixs name o) l.

Definition sorted_entries (l : list (string * object R)) : list (string * object R) :=
  foldr (λ e, put e.1 e.2) [] l.

Definition list_lower_bound (name b : string) (d : ListDB) : outcome (list (object R)) :=
  if bool_decide (name ∈ is_Name <$> l_indexes d)
  then Ok (filter (λ e, bytes_le b e.1 = true) (sorted_entries (entries (l_indexes d) name (l_objects d)))).*2
  else Err (Errorf "invalid index").

Definition list_first (name k : string) (d : ListDB) : outcome (option (object R)) :=
  Ok (head (filter (λ o, key_in (l_indexes d) name o = Some k) (l_objects d))).

#[global] Instance list_memdb : MemDB R := {|
  DB := ListDB; NewMemDB := list_new; Insert := list_insert; Delete := list_delete;
  DeletePrefix := list_delete_prefix; LowerBound := list_lower_bound; First := list_first;
  indexes := l_indexes; objects := l_objects |}.

(** ** The laws *)

Lemma ascending_cons k ks :
  ascending ks = true → (∀ k', k' ∈ ks → bytes_le k k' = true ∧ bytes_le k' k = false) → ascending (k :: ks) = true.
Proof.
  intros Hks Hk. destruct ks as [|k1 ks]; [done|].
  change (bytes_le k k1 && negb (bytes_le k1 k) && ascending (k1 :: ks) = true). rewrite Hks.
  destruct (Hk k1) as [-> ->]; [by apply elem_of_cons; left|done].
Qed.

Lemma ascending_inv k ks :
  ascending (k :: ks) = true →
  ascending ks = true ∧ ∀ k', k' ∈ ks → bytes_le k k' = true ∧ bytes_le k' k = false.
Proof.
  revert k. induction ks as [|k1 ks IH]; intros k Hk; [split; [done|]; by intros k' ?%elem_of_nil|].
  change (bytes_le k k1 && negb (bytes_le k1 k) && ascending (k1 :: ks) = true) in Hk.
  apply andb_true_iff in Hk as [[H1 H2%negb_true_iff]%andb_true_iff H3]. split; [done|].
  destruct (IH k1 H3) as [_ Hlt]. intros k' [->|Hk']%elem_of_cons; [done|].
  destruct (Hlt k' Hk') as [H4 H5]. split; [by eapply bytes_le_trans|].
  apply not_true_iff_false. intros H6. apply not_true_iff_false in H5. apply H5. by eapply bytes_le_trans.
Qed.

Lemma put_elem k o l k' o' :
  (k', o') ∈ put k o l → (k', o') = (k, o) ∨ (k', o') ∈ l.
Proof.
  induction l as [|[k1 o1] l IH]; simpl; [set_solver|].
  repeat case_match; rewrite ?elem_of_cons; naive_solver.
Qed.

Lemma put_elem_2 k o l k' o' :
  (k', o') = (k, o) ∨ (k', o') ∈ l ∧ k' ≠ k → (k', o') ∈ put k o l.
Proof.
  induction l as [|[k1 o1] l IH]; simpl; [set_solver|].
  destruct (bytes_le k k1) eqn:H1; [destruct (bytes_le k1 k) eqn:H2|].
  - rewrite !elem_of_cons. intros [?|[[[= -> ->]|?] Hne]]; auto. destruct Hne. by apply bytes_le_antisym.
  - rewrite !elem_of_cons. naive_solver.
  - rewrite !elem_of_cons. intros [?|[[?|?] Hne]]; auto.
Qed.

Lemma put_ascending k o l : ascending l.*1 = true → ascending (put k o l).*1 = true.
Proof.
  induction l as [|[k1 o1] l IH]; [done|]. intros [Hl Hlt]%ascending_inv. cbn [put].
  destruct (bytes_le k k1) eqn:H1; [destruct (bytes_le k1 k) eqn:H2|].
  - rewrite (bytes_le_antisym k k1) by done. by apply ascending_cons.
  - apply ascending_cons; [by apply ascending_cons|]. intros k' [->|Hk']%elem_of_cons; [done|].
    destruct (Hlt k' Hk') as [H3 H4]. split; [by eapply bytes_le_trans|].
    apply not_true_iff_false. intros H6. apply not_true_iff_false in H4. apply H4. by eapply bytes_le_trans.
  - apply ascending_cons; [by apply IH|].
    intros k' ([k2 o2] & -> & [[= -> ->]|H2]%put_elem)%list_elem_of_fmap; simpl.
    + by destruct (bytes_le_total k k1) as [|]; [congruence|].
    + apply Hlt. apply list_elem_of_fmap. by exists (k2, o2).
Qed.

Lemma sorted_ascending l : ascending (sorted_entries l).*1 = true.
Proof. induction l as [|[k o] l IH]; [done|]. by apply put_ascending. Qed.

Lemma sorted_elem l e : e ∈ sorted_entries l → e ∈ l.
Proof.
  destruct e as [k' o']. induction l as [|[k o] l IH]; [done|]. intros [->|H]%put_elem; apply elem_of_cons; auto.
Qed.

Lemma sorted_elem_2 l k o : (k, o) ∈ l → (∀ o', (k, o') ∈ l → o' = o) → (k, o) ∈ sorted_entries l.
Proof.
  induction l as [|[k1 o1] l IH]; [by intros ?%elem_of_nil|]. intros Hin Hu. apply put_elem_2. simpl.
  destruct (decide (k = k1)) as [->|Hne].
  - left. f_equal. symmetry. apply Hu. by apply elem_of_cons; left.
  - right. split; [|done]. apply elem_of_cons in Hin as [|Hin]; [congruence|]. apply IH; [done|].
    intros o' Ho'. apply Hu. by apply elem_of_cons; right.
Qed.

Lemma entries_elem ixs name l k o : (k, o) ∈ entries ixs name l ↔ o ∈ l ∧ key_in ixs name o = Some k.
Proof.
  unfold entries. rewrite list_elem_of_omap. split.
  - intros (o' & Ho' & He). destruct (key_in ixs name o') eqn:Hk; simplify_eq/=. done.
  - intros [Ho Hk]. exists o. by rewrite Hk.
Qed.

(** The objects of sorted entries, by a test of their keys. *)
Lemma scan_ascending (key : object R → option string) (l : list (string * object R)) :
  ascending l.*1 = true → (∀ k o, (k, o) ∈ l → key o = Some k) → ascending (omap key l.*2) = true.
Proof.
  intros Ha Hk. assert (omap key l.*2 = l.*1) as ->; [|done]. clear Ha.
  induction l as [|[k o] l IH]; [done|]. cbn [fmap list_fmap omap list_omap snd fst].
  rewrite (Hk k o) by (by apply elem_of_cons; left). f_equal. apply IH. intros. apply Hk. by apply elem_of_cons; right.
Qed.

Lemma ascending_filter_keys (P : string * object R → Prop) `{∀ e, Decision (P e)} l :
  ascending l.*1 = true → ascending (filter P l).*1 = true.
Proof.
  induction l as [|[k o] l IH]; [done|]. intros [Hl Hlt]%ascending_inv. rewrite filter_cons.
  case_decide; [|by apply IH]. apply ascending_cons; [by apply IH|].
  intros k' (e & -> & He)%list_elem_of_fmap. apply Hlt. apply list_elem_of_filter in He as [_ He].
  apply list_elem_of_fmap. by exists e.
Qed.

Lemma list_lower_bound_ok (d : ListDB) name b :
  name ∈ is_Name <$> l_indexes d →
  ∃ l, list_lower_bound name b d = Ok l ∧
    ascending (omap (key_in (l_indexes d) name) l) = true ∧
    (∀ o, o ∈ l → o ∈ l_objects d ∧ ∃ k, key_in (l_indexes d) name o = Some k ∧ bytes_le b k = true) ∧
    (∀ o k, (∀ o', o' ∈ l_objects d → key_in (l_indexes d) name o' = Some k → o' = o) →
      o ∈ l_objects d → key_in (l_indexes d) name o = Some k → bytes_le b k = true → o ∈ l).
Proof.
  intros Hn. unfold list_lower_bound. rewrite bool_decide_eq_true_2 by done. eexists. split; [reflexivity|].
  set (es := entries _ _ _).
  assert (∀ k o, (k, o) ∈ filter (λ e, bytes_le b e.1 = true) (sorted_entries es) →
    o ∈ l_objects d ∧ key_in (l_indexes d) name o = Some k ∧ bytes_le b k = true) as Hes.
  { intros k o [Hb [? ?]%sorted_elem%entries_elem]%list_elem_of_filter. done. }
  split_and!.
  - apply scan_ascending; [apply ascending_filter_keys, sorted_ascending|]. intros k o Hko.
    by destruct (Hes k o Hko) as (_ & ? & _).
  - intros o ([k o'] & -> & He)%list_elem_of_fmap. destruct (Hes k o' He) as (? & ? & ?). split; [done|by exists k].
  - intros o k Hu Ho Hk Hb. apply list_elem_of_fmap. exists (k, o). split; [done|]. apply list_elem_of_filter. split; [done|].
    apply sorted_elem_2; [by apply entries_elem|]. intros o' [Ho' Hk']%entries_elem. by apply Hu.
Qed.

Lemma prefix_index_of ixs name : name ∈ is_Name <$> ixs → prefix_index ixs (name +:+ "_prefix") = Some name.
Proof.
  intros (ix & -> & Hin)%list_elem_of_fmap. unfold prefix_index.
  destruct (filter _ ixs) as [|ix' l] eqn:Hf.
  - exfalso. by apply (filter_nil_not_elem_of _ _ ix Hf).
  - simpl. f_equal. assert (ix' ∈ filter (λ ix', is_Name ix' +:+ "_prefix" = is_Name ix +:+ "_prefix") ixs) as Hix'
      by (rewrite Hf; by apply elem_of_cons; left).
    apply list_elem_of_filter in Hix' as [Heq _]. revert Heq. generalize (is_Name ix') (is_Name ix).
    intros s t Heq. apply (f_equal String.list_ascii_of_string) in Heq.
    assert (∀ a b, String.list_ascii_of_string (a +:+ b) = String.list_ascii_of_string a ++ String.list_ascii_of_string b) as Happ.
    { intros a b. induction a as [|ch a IH]; [done|]. exact (f_equal (cons ch) IH). }
    rewrite !Happ in Heq. apply app_inv_tail in Heq. rewrite <-(String.string_of_list_ascii_of_string s), Heq.
    apply String.string_of_list_ascii_of_string.
Qed.

Lemma list_unique (d : ListDB) o o' :
  o ∈ l_objects d → o' ∈ l_objects d → key_in (l_indexes d) "id" o = key_in (l_indexes d) "id" o' → o = o'.
Proof.
  intros Ho Ho' Heq. pose proof (l_unique d) as Hu. clear -Ho Ho' Heq Hu.
  induction (l_objects d) as [|x l IH]; [by apply elem_of_nil in Ho|]. cbn in Hu. inversion Hu as [|? ? Hx Hl]; subst.
  apply elem_of_cons in Ho as [->|Ho], Ho' as [->|Ho']; [done| | |by apply IH].
  - destruct Hx. apply list_elem_of_fmap. by exists o'.
  - destruct Hx. apply list_elem_of_fmap. by exists o.
Qed.

#[global] Instance list_memdb_laws : MemDBLaws R.
Proof.
  split; unfold stored_key, prefixed_key; cbn [DB NewMemDB Insert Delete DeletePrefix LowerBound First indexes objects list_memdb].
  - intros d o Ho. exact (proj1 (Forall_forall _ _) (l_keyed d) o Ho).
  - intros d o o' Ho Ho' Heq. by apply (list_unique d).
  - intros d. by eapply NoDup_fmap_1, l_unique.
  - intros ixs Hn Hid. unfold list_new. rewrite bool_decide_eq_true_2 by done. eexists. by split_and!.
  - intros d o Hk Hix. unfold list_insert. destruct (decide _) as [Hk'|]; [|done]. rewrite Hix. eexists. by split_and!.
  - intros d o [Hk|Hix]; unfold list_insert; destruct (decide _) as [[k Hk']|]; try (by eexists).
    + change (key_in (l_indexes d) "id" o = None) in Hk. congruence.
    + rewrite Hix. by eexists.
  - intros d o o' Ho' Heq. unfold list_delete.
    assert (existsb (λ o', bool_decide (key_in (l_indexes d) "id" o' = key_in (l_indexes d) "id" o)) (l_objects d) = true) as ->.
    { apply existsb_exists. exists o'. split; [by apply list_elem_of_In|by apply bool_decide_eq_true_2]. }
    eexists. by split_and!.
  - intros d o Hno. unfold list_delete. destruct (existsb _ _) eqn:He; [|by eexists]. exfalso.
    apply existsb_exists in He as (o' & Ho' & Heq%bool_decide_eq_true_1). apply (Hno o'); [by apply list_elem_of_In|done].
  - intros d name pre Hn _. unfold list_delete_prefix. rewrite prefix_index_of by done. eexists. by split_and!.
  - intros d name b Hn. by apply list_lower_bound_ok.
  - intros d name b Hn. unfold list_lower_bound. rewrite bool_decide_eq_false_2 by done. by eexists.
  - intros d k. unfold list_first. eexists. split; [reflexivity|]. intros o. split.
    + intros Hh. assert (o ∈ filter (λ o, key_in (l_indexes d) "id" o = Some k) (l_objects d)) as [Hk Ho]%list_elem_of_filter; [|done].
      destruct (filter _ _); [done|]. simplify_eq/=. by apply elem_of_cons; left.
    + intros [Ho Hk]. change (key_in (l_indexes d) "id" o = Some k) in Hk.
      destruct (filter _ (l_objects d)) as [|x l] eqn:Hf; [exfalso; by apply (filter_nil_not_elem_of _ _ o Hf)|].
      simpl. f_equal. assert (x ∈ filter (λ o, key_in (l_indexes d) "id" o = Some k) (l_objects d)) as Hx
        by (rewrite Hf; by apply elem_of_cons; left).
      apply list_elem_of_filter in Hx as [Hkx Hx]. apply (list_unique d); [done..|congruence].
Qed.
End ListDB.
Arguments ListDB R : clear implicits.

(** ** Libraries *)

Definition key_paths : list string :=
  ["$.metadata.namespace"; "$.metadata.name"; "$.spec.addressSpace"; "$.spec.address"].

(** A parsed path is its text; the fields that are strings can be found. *)
#[global] Instance sim_paths : JsonPath string (object ()) string := {|
  parse_path s := (s, None);
  FindResults jp o :=
    match filter (λ p, "{" +:+ p +:+ "}" = jp) key_paths with
    | p :: _ => match field p o with Some v => inr [[v]] | None => inr [[]] end
    | [] => inr [[]]
    end;
  PrintableValue v := Some (VString "" v);
|}.

#[global] Instance sim_field_paths : FieldPaths (R := ()) (JP := string).
Proof.
  intros jp p o v Hg Hf. unfold path_good, parse_path in Hg. simpl in Hg. injection Hg as <-.
  assert (p ∈ key_paths) as Hp.
  { unfold field in Hf. unfold key_paths. repeat case_decide; [set_solver..|done]. }
  unfold eval_path, FindResults. simpl. unfold key_paths in Hp.
  repeat (apply elem_of_cons in Hp as [->|Hp]; [by simpl; rewrite Hf|]). by apply elem_of_nil in Hp.
Qed.

#[global] Instance sim_meta : ApiMeta := {|
  GroupVersion v := ("enmasse.io", "v1beta1");
  UnsafeGuessKindToResource _ _ kind := kind;
|}.

(** Only the namespace [hidden] may not be read. *)
Definition sim_allowed (a : ResourceAttributes) : bool := bool_decide (ra_Namespace a ≠ "hidden").
Definition sim_review (asked : list ResourceAttributes) (a : ResourceAttributes) : error + bool := inr (sim_allowed a).

(** ** Objects *)

Definition sim_obj (kind ns name : string) : meta :=
  {| APIVersion := "enmasse.io/v1beta1"; Kind := kind; Namespace := ns; Name := name |}.

Definition space_foo : object () := AddressSpaceHolder (sim_obj "AddressSpace" "app" "foo") ().
Definition space_foobar : object () := AddressSpaceHolder (sim_obj "AddressSpace" "app" "foobar") ().
Definition space_hidden : object () := AddressSpaceHolder (sim_obj "AddressSpace" "hidden" "foo") ().
Definition address_foo : object () := AddressHolder (sim_obj "Address" "app" "foo.a") "a" ().
Definition address_foobar : object () := AddressHolder (sim_obj "Address" "app" "foobar.b") "b" ().
Definition connection_foo : object () := Connection (sim_obj "Connection" "app" "c1") "foo" ().
Definition link_foo : object () :=
  Link (sim_obj "Link" "app" "l1") {| ls_Connection := "c1"; ls_AddressSpace := "foo"; ls_Address := "a" |} ().

Definition sim_objects : list (object ()) :=
  [space_foo; space_foobar; space_hidden; address_foo; address_foobar; connection_foo; link_foo].

(** The cache with these objects. *)
#[refine] Definition no_objects : @ListDB () := {| l_indexes := []; l_objects := [] |}.
Proof. all: constructor. Defined.

Definition sim_empty : MemdbCache (R := ()) :=
  match CreateObjectCache with Ok c => c | _ => {| schema := []; db := no_objects |} end.
Definition sim_console : MemdbCache (R := ()) := (Add sim_objects sim_empty).1.

Lemma sim_created : CreateObjectCache = Ok sim_empty.
Proof. reflexivity. Qed.

Lemma sim_added : Add sim_objects sim_empty = (sim_console, Ok ()).
Proof.
  assert ((Add sim_objects sim_empty).2 = Ok ()) as H by (vm_compute; reflexivity).
  unfold sim_console. rewrite <-H. apply surjective_pairing.
Qed.

Lemma sim_console_ok : console_cache sim_console.
Proof.
  destruct (console_cache_created (R := ())) as (c & Hc & Hcc). rewrite sim_created in Hc. injection Hc as <-.
  apply (console_cache_added sim_empty _ sim_objects Hcc); [|apply sim_added].
  repeat constructor; apply (bool_decide_unpack _); vm_compute; reflexivity.
Qed.

Lemma sim_review_allowed asked a : sim_review asked a = inr (sim_allowed a).
Proof. reflexivity. Qed.

Definition sim_args (f : option string) : QueryArgs :=
  {| q_first := None; q_offset := None; q_filter := f; q_orderBy := None |}.

(** A user of the API server who has not asked for anything yet. *)
Definition sim_user : AccessController := NewKubernetesRBACAccessController None.

Lemma sim_user_ok : access_ok sim_allowed sim_user.
Proof. intros a d. simpl. by rewrite lookup_empty. Qed.
