(* ===== verification/FilterProps.v ===== *)
(** The properties of the filters of the console: the parser returns for every text and
    accepts only what the grammar derives, filters have boolean values, a printed
    expression is read back, and comparisons and patterns mean what they should. *)
From stdpp Require Import base sets strings list numbers pretty.
From Stdlib Require Import SpecFloat Ascii.
From S2P Require Import Prelude GoStrings FilterExpr FilterFacts StableSort FilterLex FilterLexFacts.
From S2P Require Import FilterParse FilterParseFacts FilterGrammar FilterPrint FilterText.
From S2P Require Import Cache Resolvers ConsoleSim.

(** ** The parser *)

(** C24. Termination: for every text the parser of filters returns, with an expression,
    with an error, or by a panic, never without either of the three, and so does the
    parser of orders. *)
Theorem filter_parser_returns {JP Obj RV} `{HJ : !JsonPath JP Obj RV} (s : string) :
  (∃ o, ParseFilterExpression (JP := JP) s = Some o ∧
    (o = Panic ∨ (∃ x err, o = Ok (x, Some err)) ∨ ∃ e, o = Ok (Some e, None))) ∧
  (∃ o, ParseOrderByExpression (JP := JP) s = Some o ∧
    (o = Panic ∨ (∃ x err, o = Ok (x, Some err)) ∨ ∃ os, o = Ok (os, None))).
Proof.
  split.
  - destruct (FilterParse_total s START_EXPRESSION) as (o & Ho & _); [done|].
    destruct (ParseFilterExpression s) as [[[oe [err|]]|e|]|] eqn:Hp.
    + eexists. split; [done|]. right. left. by eexists _, _.
    + destruct (ParseFilterExpression_writable s oe Hp) as (e & -> & _). eexists. split; [done|]. right. right. by eexists.
    + unfold ParseFilterExpression in Hp. by destruct (FilterParse _) as [[[]| |]|].
    + eexists. split; [done|]. by left.
    + unfold ParseFilterExpression in Hp. rewrite Ho in Hp. by destruct o as [[]| |].
  - destruct (FilterParse_total s START_ORDER_LIST) as (o & Ho & _); [done|].
    unfold ParseOrderByExpression. rewrite Ho. destruct o as [[code l]| |]; [|eexists; split; [done|]; by left..].
    eexists. split; [done|]. destruct (lex_e l) as [err|]; right; [left; by eexists _, _|right; by eexists].
Qed.

(** C20. Soundness of the parsers: a filter that is accepted is derived by the grammar
    from the tokens of its text, and so is a list of orders. *)
Theorem filter_grammar_sound {JP Obj RV} `{HJ : !JsonPath JP Obj RV} (s s' : string) (oe : option (Expr JP)) os :
  ParseFilterExpression s = Some (Ok (oe, None)) →
  ParseOrderByExpression s' = Some (Ok (os, None)) →
  (∃ ts e, oe = Some e ∧ tokenizes s START_EXPRESSION ts ∧ expression ts e) ∧
  (∃ ts, tokenizes s' START_ORDER_LIST ts ∧ order_list ts os).
Proof. intros Hf Ho. split; [by apply ParseFilterExpression_sound|by apply ParseOrderByExpression_sound]. Qed.

Definition sample_filter : string := "`$.metadata.name` LIKE 'a%' AND NOT (1 < 2 OR TRUE)".
Definition sample_expr : Expr string :=
  AndExpr (ComparisonExpr LikeStr (JSONPathVal "{$.metadata.name}" "$.metadata.name") (StringVal "a%"))
    (NotExpr (OrExpr (ComparisonExpr LessThanStr (IntVal 1) (IntVal 2)) (BoolVal true))).
Definition sample_orders : string := "`$.metadata.namespace`, `$.metadata.name` DESC".

Lemma filter_grammar_sound_witness :
  (∃ ts e, Some sample_expr = Some e ∧ tokenizes sample_filter START_EXPRESSION ts ∧ expression ts e) ∧
  (∃ ts, tokenizes sample_orders START_ORDER_LIST ts ∧ order_list ts
    [{| o_Expr := JSONPathVal "{$.metadata.namespace}" "$.metadata.namespace"; Direction := AscScr |};
     {| o_Expr := JSONPathVal "{$.metadata.name}" "$.metadata.name"; Direction := DescScr |}]).
Proof. apply filter_grammar_sound; vm_compute; reflexivity. Defined.

(** C25. Types: an accepted filter has a boolean value on every object on which its paths
    have values that are not nil, strings being UTF-8, so that the console's assertion
    of the type of the value holds and no comparison panics. *)
Theorem filter_type_safe {R JP RV St} `{HJ : !JsonPath JP (object R) RV} (s : string) (e : Expr JP) (o : object R) (st : St) :
  ParseFilterExpression s = Some (Ok (Some e, None)) → well_typed e o →
  ∃ b, Eval e o = Ok (go_bool b) ∧ expression_filter (Some e) o st = (st, Ok (b, true)).
Proof.
  intros Hp Ht. destruct (ParseFilterExpression_writable s _ Hp) as (e' & [= <-] & Hw & _).
  destruct (Eval_typed e o Hw Ht) as [b Hb]. exists b. split; [done|].
  unfold expression_filter. go_simpl. unfold lift. by rewrite Hb.
Qed.

Lemma filter_type_safe_witness :
  ∃ b, Eval sample_expr address_foo = Ok (go_bool b) ∧ expression_filter (Some sample_expr) address_foo () = ((), Ok (b, true)).
Proof.
  apply (filter_type_safe sample_filter); [vm_compute; reflexivity|].
  split; [split; [|vm_compute; reflexivity]|done]. exists (VString "" "foo.a"). split; [vm_compute; reflexivity|].
  split; [done|]. intros n s [= <- <-]. vm_compute. reflexivity.
Defined.

(** C22. Round trip: an expression the grammar can express, without floating point
    literals, is read back from the text that prints it with as few parentheses as the
    precedences allow. *)
Theorem filter_round_trip {JP Obj RV} `{HJ : !JsonPath JP Obj RV} (e : Expr JP) :
  writable e → printable e → ParseFilterExpression (print e) = Some (Ok (Some e, None)).
Proof. apply print_parse. Qed.

Lemma sample_writable : writable sample_expr ∧ printable (HJ := sim_paths) sample_expr.
Proof. split; repeat split; try done; first [by apply keyword_has_text|by apply (bool_decide_unpack _)]. Qed.

Lemma filter_round_trip_witness :
  ParseFilterExpression (print sample_expr) = Some (Ok (Some sample_expr, None)).
Proof. apply filter_round_trip; apply sample_writable. Defined.

(** Errors that are not reported: when a byte no token begins with follows a filter,
    the filter is accepted and the rest of the text is ignored. *)
Theorem filter_text_ignored {JP Obj RV} `{HJ : !JsonPath JP Obj RV} (e : Expr JP) c junk :
  writable e → printable e → transition 29 (byte_of c) = 1 →
  ParseFilterExpression (of_bytes (text (toks 0 e) ++ c :: junk)) = Some (Ok (Some e, None)).
Proof. intros Hw Hp Hc. apply print_parse_until; [done..|]. right. by eexists _, _. Qed.

Lemma filter_text_ignored_witness :
  ParseFilterExpression (JP := string) "TRUE # AND FALSE" = Some (Ok (Some (BoolVal true), None)).
Proof. apply (filter_text_ignored (BoolVal true) "#"%char (bytes " AND FALSE")); [done|by apply keyword_has_text|reflexivity]. Defined.

(** Panics of the lexer: an integer literal that does not fit an [int] panics, and
    so does a string literal that is not closed after one that was. *)
Theorem filter_literal_panics {JP Obj RV} `{HJ : !JsonPath JP Obj RV} (z : Z) rest :
  ¬ (int_min Int <= z <= int_max Int)%Z →
  ParseFilterExpression (JP := JP) (of_bytes (bytes (pretty z) ++ " "%char :: rest)) = Some Panic ∧
  ParseFilterExpression (JP := JP) "'a'='b" = Some Panic.
Proof. intros Hz. split; [by apply literal_panics|apply open_quote_panics]. Qed.

Lemma filter_literal_panics_witness :
  ParseFilterExpression (JP := string) "9223372036854775808 = 1" = Some Panic ∧
  ParseFilterExpression (JP := string) "'a'='b" = Some Panic.
Proof. apply (filter_literal_panics 9223372036854775808 (bytes "= 1")). vm_compute. tauto. Defined.

(** ** Values *)

(** Integers of whatever types are compared as the numbers they are, except for a
    negative number and an unsigned one that cannot be brought to one type: for these
    every operator gives false, also [!=]. *)
Theorem integers_compared op k x k' y :
  in_range k x → in_range k' y →
  compare_operands op (VInt "" k x) (VInt "" k' y) =
    Ok (comparable k x k' y && compare_ordered op (Some (Z.compare x y))) ∧
  (comparable k x k' y = false ↔
    (signed k = true ∧ signed k' = false ∧ x < 0 ∧ (int_max k < y ∨ int_bits k < int_bits k') ∨
     signed k = false ∧ signed k' = true ∧ y < 0 ∧ (int_max k' < x ∨ int_bits k' < int_bits k)))%Z.
Proof.
  intros Hx Hy. split; [by apply compare_integers|]. rewrite comparable_spec by done. tauto.
Qed.

Lemma integers_compared_witness :
  compare_operands NotEqualStr (VInt "" Int (-1)) (VInt "" Uint64 (2 ^ 63)) = Ok false ∧
  compare_operands LessThanStr (VInt "" Int8 (-1)) (VInt "" Int (2 ^ 40)) = Ok true.
Proof.
  destruct (integers_compared NotEqualStr Int (-1) Uint64 (2 ^ 63)) as [-> _]; [by vm_compute..|].
  destruct (integers_compared LessThanStr Int8 (-1) Int (2 ^ 40)) as [-> _]; [by vm_compute..|].
  vm_compute. split; reflexivity.
Defined.

(** C32. Patterns: [LIKE] panics for a pattern that is not UTF-8; otherwise it holds
    exactly when the text is the pattern with each [%] replaced by characters and each
    [_] by one, none of them a newline. *)
Theorem like_matches str p :
  (ValidString p = false ∧ like str p = Panic) ∨
  (ValidString p = true ∧ ∃ b, like str p = Ok b ∧ (b = true ↔ like_spec (runes p) (runes str))).
Proof. apply like_correct. Qed.
