(* ===== verification/ConsoleProps.v ===== *)
(** The properties of the console's cache, access decisions and queries, each with a run
    on a console with a few objects. *)
From stdpp Require Import base gmap sets strings list numbers relations.
From Stdlib Require Import Ascii.
From S2P Require Import Prelude GoStrings FilterExpr FilterFacts StableSort FilterLex FilterParse FilterGrammar FilterPrint.
From S2P Require Import FilterText Cache CacheFacts ConsoleSim Access Resolvers KeyFacts QueryFacts.

(** ** The cache *)

(** C16. Refinement: the cache starts empty and represents a map from primary keys to
    objects. [Add], [Delete] and [Update] make the changes of all their objects to the
    map, or fail and leave the cache as it was; [DeleteByPrefix] removes the keys with
    the prefix. *)
Theorem cache_refines_map {R} `{HM : !MemDB R} `{HL : !MemDBLaws R} (fmt_v : object R → string)
    (c : MemdbCache (R := R)) mutator objs pre :
  cache_wf c → (∀ o, mutator o ≠ Panic) →
  (∃ c0, CreateObjectCache (R := R) = Ok c0 ∧ cache_wf c0 ∧ view c0 = ∅) ∧
  result c (each_map (map_insert c) objs (view c)) (Add objs c) ∧
  result c (each_map (map_delete c) objs (view c)) (cache_Delete objs c) ∧
  result c (each_map (map_update c mutator) objs (view c)) (Update fmt_v mutator objs c) ∧
  result c (Some (filter (λ kv, HasPrefix (kv.1 +:+ NUL) pre = false) (view c))) (DeleteByPrefix PrimaryObjectIndex pre c).
Proof.
  intros Hw Hm. split.
  - destruct (CreateObjectCache_ok (R := R)) as (c0 & ? & ? & ? & _). by exists c0.
  - split_and!; [by apply Add_refines|by apply Delete_refines|by apply Update_refines|by apply DeleteByPrefix_refines].
Qed.

Lemma cache_refines_map_witness :
  result sim_console (each_map (map_delete sim_console) [space_foo; address_foo] (view sim_console))
    (cache_Delete [space_foo; address_foo] sim_console).
Proof.
  destruct (cache_refines_map (λ _, "") sim_console (λ o, Ok (Some o)) [space_foo; address_foo] "")
    as (_ & _ & H & _); [apply sim_console_ok|done|exact H].
Defined.

(** C26. In an index whose keys are unique, as those of the primary index are, [Get] asks
    its filter of exactly the objects whose key begins with the prefix, in the order of
    their keys, until the filter fails or stops the scan, and returns those it took; an
    error of the filter is returned. In particular, when the filter takes an object by [m]
    and goes on after it by [g], whatever its state within [I], these are the objects up to
    and including the first at which it stops that [m] takes. *)
Theorem cache_get {R St} `{HM : !MemDB R} `{HL : !MemDBLaws R} (c : MemdbCache (R := R)) name pre
    (f : option (ObjectFilter (R := R) St)) :
  cache_wf c → name ∈ is_Name <$> schema c → unique_keys c name →
  let here := filter (λ o, has_key_prefix c name pre o = true) (scan c name) in
  ascending (omap (stored_key (db c) name) here) = true ∧
  (∀ o, o ∈ here ↔ o ∈ objects (db c) ∧ has_key_prefix c name pre o = true) ∧
  (∀ s, Get c name pre f s = visit f here s) ∧
  (∀ (I : St → Prop) f' m g s, f = Some f' → decides I f' m g (λ o, o ∈ here) → I s →
    ∃ s', Get c name pre f s = (s', Ok (filter (λ o, m o = true) (through g here))) ∧ I s').
Proof.
  intros Hw Hn Hu here. destruct (scan_spec c name Hw Hn Hu) as [Hasc Hscan]. split_and!.
  - apply ascending_filter; [done|]. intros o Ho. by apply Hscan.
  - intros o. unfold here. rewrite list_elem_of_filter, Hscan. split; [naive_solver|]. intros [Ho Hp]. split_and!; [done..|].
    apply has_key_prefix_stored in Hp as [Hp _]; [|done]. destruct (stored_key (db c) name o); [eauto|done].
  - intros s. by apply Get_visit.
  - intros I f' m g s -> Hf Hs. rewrite Get_visit by done. by apply visit_decides.
Qed.

(** A filter that stops the scan at the first object it takes. *)
Lemma cache_get_witness :
  ∃ s' : (), Get sim_console PrimaryObjectIndex "AddressSpace/" (Some (λ o, mret (true, false))) () = (s', Ok [space_foo]).
Proof.
  destruct (cache_get (St := ()) sim_console PrimaryObjectIndex "AddressSpace/" (Some (λ o, mret (true, false))))
    as (_ & _ & _ & H); [apply sim_console_ok|apply sim_console_ok|apply unique_primary|].
  destruct (H (λ _, True) _ (λ _, true) (λ _, false) () eq_refl) as (s' & Hs & _); [|done|].
  - intros o s _ _. by exists s.
  - exists s'. rewrite Hs. vm_compute. reflexivity.
Defined.

(** ** Access *)

(** A controller after one more question. *)
Definition reads {R} `{HA : !ApiMeta} (review : list ResourceAttributes → ResourceAttributes → error + bool)
    (k k' : AccessController) : Prop :=
  ∃ (o : object R) r, CanRead review o k = (k', r).

Lemma reads_kept {R} `{HA : !ApiMeta} review k k' :
  rtc (reads (R := R) review) k k' →
  (∀ a d, decided k a = Some d → decided k' a = Some d) ∧ (k = allowAll ↔ k' = allowAll).
Proof.
  induction 1 as [|k1 k2 k3 (o & r & Hr) _ [IH1 IH2]]; [done|]. split.
  - intros a d Hd. apply IH1. by eapply CanRead_kept.
  - rewrite <-IH2. unfold CanRead, makeAccessDecision in Hr. repeat case_match; by simplify_eq.
Qed.

(** Decisions last: when the controller has decided about an object, it decides the
    same after any further questions, without asking the API server again; so does a
    controller made from its state, which is how a session continues. *)
Theorem access_decision_lasts {R} `{HA : !ApiMeta} review (o : object R) k k1 k2 d :
  CanRead review o k = (k1, Ok d) → rtc (reads (R := R) review) k1 k2 →
  CanRead review o k2 = (k2, Ok d) ∧
  (k ≠ allowAll →
   let k3 := NewKubernetesRBACAccessController (GetState k2).2 in CanRead review o k3 = (k3, Ok d)).
Proof.
  intros Hd Hr. destruct (reads_kept review k1 k2 Hr) as [Hkept Hall].
  assert (k = allowAll ↔ k1 = allowAll) as Hk1.
  { apply (reads_kept (R := R) review), rtc_once. by exists o, (Ok d). }
  split; [|intros Hne]; eapply CanRead_again; eauto; [tauto| |].
  - intros a d' Ha. specialize (Hkept a d' Ha). destruct k2; [tauto|done].
  - split; [done|]. intros H. discriminate H.
Qed.

(** A first question about an object. *)
Lemma sim_asks (o : object ()) a cached updated asked :
  read_attributes o = Some a → cached !! a = None →
  CanRead sim_review o (kubernetesRbac cached updated asked) =
    (kubernetesRbac (<[a := sim_allowed a]> cached) true (asked ++ [a]), Ok (sim_allowed a)).
Proof. intros Ha Hc. unfold CanRead, makeAccessDecision. by rewrite Ha, Hc. Qed.

Definition get_spaces (ns : string) : ResourceAttributes :=
  {| ra_Namespace := ns; ra_Verb := "get"; ra_Group := "enmasse.io"; ra_Version := "v1beta1";
     ra_Resource := "AddressSpace"; ra_Name := "" |}.

Lemma access_decision_lasts_witness :
  let k := kubernetesRbac (<[get_spaces "app" := true]> {[get_spaces "hidden" := false]}) true
    [get_spaces "hidden"; get_spaces "app"] in
  CanRead sim_review space_hidden k = (k, Ok false).
Proof.
  intros k. destruct (access_decision_lasts sim_review space_hidden sim_user
    (kubernetesRbac {[get_spaces "hidden" := false]} true [get_spaces "hidden"]) k false) as [H _]; [..|exact H].
  - exact (sim_asks space_hidden (get_spaces "hidden") ∅ false [] eq_refl (lookup_empty _)).
  - apply rtc_once. exists space_foo, (Ok true).
    apply (sim_asks space_foo (get_spaces "app")); [reflexivity|]. by apply lookup_singleton_ne.
Defined.

(** ** Queries *)

(** C9. The queries for address spaces, addresses and connections answer as if every
    object of the cache were looked at: the total is the number of objects of the kind
    that the user may read and the filter matches, and the items are the page asked for
    of these objects in the order asked for. The part of the keys the filter is narrowed
    to makes no difference. The objects have the names that Kubernetes allows, the filter
    and the order can be evaluated on them, the user's access can be decided, and the bounds
    of the page do not overflow. *)
Theorem console_queries {R JP RV} `{HJ : !JsonPath JP (object R) RV} `{HS : !SliceStable} `{HM : !MemDB R}
    `{HL : !MemDBLaws R} `{HA : !ApiMeta} `{HF : !FieldPaths (R := R) (JP := JP)} review allowed (c : MemdbCache (R := R)) :
  (∀ asked a, review asked a = inr (allowed a)) →
  (∀ a m os k, asks allowed c a is_AddressSpaceHolder m os k →
     answer a os (λ o, o) (listed allowed c is_AddressSpaceHolder m) (AddressSpaces review c a k).2) ∧
  (∀ a m os k, asks allowed c a is_AddressHolder m os k →
     answer a os (λ o, o) (listed allowed c is_AddressHolder m) (Addresses review c a k).2) ∧
  (∀ a m os k, asks allowed c a is_Connection m os k →
     answer a os (λ o, o) (listed allowed c is_Connection m) (Connections review c a k).2).
Proof.
  intros Hr. split_and!; intros a m os k Ha;
    [by apply AddressSpaces_answer|by apply Addresses_answer|by apply Connections_answer].
Qed.

(** The address spaces of the sample whose name begins with [foo], the last one first. *)
Definition foo_args : QueryArgs :=
  {| q_first := Some 10%Z; q_offset := None; q_filter := Some "`$.metadata.name` LIKE 'foo%'";
     q_orderBy := Some "`$.metadata.name` DESC" |}.
Definition name_path : Expr string := JSONPathVal "{$.metadata.name}" "$.metadata.name".
Definition foo_filter : Expr string := ComparisonExpr LikeStr name_path (StringVal "foo%").
Definition foo_orders : list (Order string) := [{| o_Expr := name_path; Direction := DescScr |}].

Lemma foo_listed :
  listed sim_allowed sim_console is_AddressSpaceHolder (matches foo_filter) = [space_foo; space_foobar].
Proof. vm_compute. reflexivity. Qed.

Lemma foo_asks : asks sim_allowed sim_console foo_args is_AddressSpaceHolder (matches foo_filter) foo_orders sim_user.
Proof.
  split; [apply sim_console_ok| | |apply sim_user_ok].
  - apply selects_expr; [done|vm_compute; reflexivity|]. intros o [_ Ho]. destruct o as [|m| | | | | | | |]; try done.
    eexists. cbn -[compare_operands]. reflexivity.
  - rewrite foo_listed. split; [vm_compute; reflexivity| |done|by intros f [= <-]].
    intros o p q Ho Hp Hq. apply list_elem_of_singleton in Ho as ->.
    assert (∀ x, x ∈ [space_foo; space_foobar] → ∃ s, Eval name_path x = Ok (VString "" s)) as Hs.
    { intros x [->|[->|[]%elem_of_nil]%elem_of_cons]%elem_of_cons; by eexists. }
    destruct (Hs p Hp) as [sp Hsp], (Hs q Hq) as [sq Hsq]. exists (VString "" sp), (VString "" sq).
    split_and!; [done..|]. right. right. split; [done|]. intros n k f. naive_solver.
Qed.

Lemma console_queries_witness :
  answer foo_args foo_orders (λ o, o) [space_foo; space_foobar] (AddressSpaces sim_review sim_console foo_args sim_user).2.
Proof.
  rewrite <-foo_listed.
  apply (proj1 (console_queries sim_review sim_allowed sim_console sim_review_allowed)), foo_asks.
Defined.

(** C31. Narrowing is sound: whatever an accepted filter matches has a key that begins
    with the key built from the filter, so that scanning from there loses nothing. The
    fields that make up the key are ASCII without the wildcards of [LIKE], as Kubernetes
    names are. *)
Theorem filter_key_sound {R JP RV} `{HJ : !JsonPath JP (object R) RV} `{HF : !FieldPaths (R := R) (JP := JP)}
    (s : string) (e : Expr JP) (o : object R) ordered vs :
  ParseFilterExpression s = Some (Ok (Some e, None)) → Eval e o = Ok (VBool "" true) →
  Forall2 (λ p v, field p o = Some v ∧ plain v) ordered vs →
  HasPrefix (Join vs "/") (buildKey e ordered) = true.
Proof.
  intros Hp Hm Hvs. destruct (ParseFilterExpression_writable s _ Hp) as (e' & [= <-] & Hw & Hg).
  by eapply buildKey_prefix.
Qed.

Lemma filter_key_sound_witness :
  buildKey foo_filter ["$.metadata.name"] = "foo" ∧ HasPrefix "foobar" (buildKey foo_filter ["$.metadata.name"]) = true.
Proof.
  split; [reflexivity|].
  apply (filter_key_sound "`$.metadata.name` LIKE 'foo%'" foo_filter space_foobar ["$.metadata.name"] ["foobar"]);
    [vm_compute; reflexivity..|]. repeat constructor; apply (bool_decide_unpack _); vm_compute; reflexivity.
Defined.

(** The links of a connection: a query answers about exactly the links of the
    namespace, the address space and the connection that the filter matches. *)
Theorem connection_links {R JP RV} `{HJ : !JsonPath JP (object R) RV} `{HS : !SliceStable} `{HM : !MemDB R}
    `{HL : !MemDBLaws R} `{HF : !FieldPaths (R := R) (JP := JP)} (c : MemdbCache (R := R)) a (cm : meta) space m
    (os : list (Order JP)) k :
  let links := filter (λ o, link_of (Namespace cm) space (Name cm) o && m o = true) (scan c PrimaryObjectIndex) in
  console_cache c → (∀ o, o ∈ scan c PrimaryObjectIndex → link_elements o) →
  element (Namespace cm) = true → element space = true → element (Name cm) = true →
  selects (λ o, o ∈ scan c PrimaryObjectIndex ∧ link_of (Namespace cm) space (Name cm) o = true) (q_filter a) m →
  pageable a os links →
  answer a os shown_link links (Connection_Links c cm space a k).2.
Proof.
  intros links Hc Hel Hns Hsp Hn Hf Hp.
  set (allowed := λ a, default true (match k with kubernetesRbac cached _ _ => cached !! a | allowAll => None end)).
  apply (Connection_Links_answer (λ _ a, inr (allowed a)) allowed (λ _ _, eq_refl)); try done.
  unfold allowed. destruct k as [|cached updated asked]; [done|]. intros a' d Hd. by rewrite Hd.
Qed.

Definition sim_connection : meta := sim_obj "Connection" "app" "c1".
Definition no_args : QueryArgs := {| q_first := None; q_offset := None; q_filter := None; q_orderBy := None |}.

Lemma sim_scan :
  scan sim_console PrimaryObjectIndex =
    [address_foo; address_foobar; space_foo; space_foobar; space_hidden; connection_foo; link_foo].
Proof. vm_compute. reflexivity. Qed.

Lemma pageable_plain (objs : list (object ())) :
  length objs ≤ 10 → pageable (JP := string) no_args [] objs.
Proof.
  intros Hl. split; [done|by intros o p q ?%elem_of_nil| |done].
  change (int_max Int) with 9223372036854775807%Z. lia.
Qed.

Lemma sim_elements o : o ∈ scan sim_console PrimaryObjectIndex → link_elements o ∧ address_element o.
Proof.
  rewrite sim_scan. intros Ho. repeat (apply elem_of_cons in Ho as [->|Ho]; [done|]). by apply elem_of_nil in Ho.
Qed.

Lemma connection_links_witness :
  answer (JP := string) no_args [] shown_link [link_foo] (Connection_Links sim_console sim_connection "foo" no_args sim_user).2.
Proof.
  apply (connection_links sim_console no_args sim_connection "foo" (λ _, true) []);
    [apply sim_console_ok|apply sim_elements|done|done|done|constructor|by apply pageable_plain; vm_compute; lia].
Defined.

(** The page of a list that a query cuts. *)
Definition cut {A} (offset first : option Z) (l : list A) : outcome (list A) :=
  let '(lower, upper) := CalcLowerUpper offset first (Z.of_nat (length l)) in slice_of lower upper l.

(** Paging: as long as the size of the page plus the length of the list fits an
    [int], the bounds of a page are bounds of the list, whatever the offset, and
    consecutive pages make up the list. The greatest [int] as the size of a page after
    the first object wraps around and panics. *)
Theorem pages {A} (l : list A) (n : Z) (k : nat) :
  (0 < n)%Z → (n <= int_max Int - Z.of_nat (length l))%Z → length l ≤ k * Z.to_nat n →
  (∀ offset, ∃ p, cut offset (Some n) l = Ok p) ∧
  (∃ ps, map_outcome (λ i, cut (Some (Z.of_nat i * n)%Z) (Some n) l) (seq 0 k) = Ok ps ∧ concat ps = l) ∧
  (l ≠ [] → cut (Some 1%Z) (Some (int_max Int)) l = Panic).
Proof.
  intros Hn Hfit Hk.
  assert (∀ offset, cut offset (Some n) l = Ok (page offset (Some n) l)) as Hcut.
  { intros offset. unfold cut. apply slice_page; [lia|]. intros f [= <-]. done. }
  split_and!.
  - intros offset. eexists. apply Hcut.
  - eexists. split; [apply (map_outcome_ok _ (λ i, page (Some (Z.of_nat i * n)%Z) (Some n) l)); intros; apply Hcut|].
    by apply pages_cover.
  - intros Hl. unfold cut, CalcLowerUpper, Min. destruct (Z.ltb_spec 1 (Z.of_nat (length l))) as [H|H]; simpl.
    + change (int_wrap Int (1 + int_max Int)) with (-9223372036854775808)%Z.
      destruct (Z.ltb_spec (-9223372036854775808) (Z.of_nat (length l))); [|lia].
      unfold slice_of. by rewrite bool_decide_eq_false_2 by lia.
    + assert (Z.of_nat (length l) = 1)%Z as -> by (destruct l; [done|simpl in *; lia]).
      change (int_wrap Int (1 + int_max Int)) with (-9223372036854775808)%Z. simpl.
      unfold slice_of. by rewrite bool_decide_eq_false_2 by lia.
Qed.

Lemma pages_witness :
  ∃ ps, map_outcome (λ i, cut (Some (Z.of_nat i * 2)%Z) (Some 2%Z) [1; 2; 3]) (seq 0 2) = Ok ps ∧ concat ps = [1; 2; 3].
Proof. apply (pages [1; 2; 3] 2 2); [lia|vm_compute; discriminate|simpl; lia]. Defined.

(** The addresses of an address space are looked up by the beginning of their names:
    without a filter the query answers about every readable address of the namespace
    whose name begins with the name of the address space, and so also about those of an
    address space with a longer name. *)
Theorem address_space_addresses {R JP RV} `{HJ : !JsonPath JP (object R) RV} `{HS : !SliceStable} `{HM : !MemDB R}
    `{HL : !MemDBLaws R} `{HA : !ApiMeta} `{HF : !FieldPaths (R := R) (JP := JP)} review allowed
    (c : MemdbCache (R := R)) a (sm : meta) (os : list (Order JP)) k :
  let addresses := filter (λ o, address_in (Namespace sm) (Name sm) o && readable allowed o = true)
    (scan c PrimaryObjectIndex) in
  (∀ asked x, review asked x = inr (allowed x)) →
  console_cache c → access_ok allowed k → q_filter a = None → pageable a os addresses →
  (∀ o, o ∈ scan c PrimaryObjectIndex → address_element o) → element (Namespace sm) = true →
  answer a os (λ o, o) addresses (AddressSpace_Addresses review c sm a k).2.
Proof. intros addresses Hr. by apply AddressSpace_Addresses_answer. Qed.

Lemma sim_in_foo :
  filter (λ o, address_in "app" "foo" o && readable sim_allowed o = true) (scan sim_console PrimaryObjectIndex) =
    [address_foo; address_foobar].
Proof. vm_compute. reflexivity. Qed.

Lemma address_space_addresses_witness :
  answer (JP := string) no_args [] (λ o, o) [address_foo; address_foobar]
    (AddressSpace_Addresses sim_review sim_console (sim_obj "AddressSpace" "app" "foo") no_args sim_user).2.
Proof.
  rewrite <-sim_in_foo.
  apply (address_space_addresses sim_review sim_allowed sim_console no_args (sim_obj "AddressSpace" "app" "foo") []);
    [done|apply sim_console_ok|apply sim_user_ok|done|by apply pageable_plain; vm_compute; lia|apply sim_elements|done].
Defined.

(** Filters of the nested queries on the elements of their keys: the name of an address
    takes the place of the address space, so that an address of another one is found;
    the address space of a connection and the address of a link are put into the key a
    second time, so that nothing is found. *)
Theorem nested_filters_misplaced :
  let run (q : MemdbCache (R := ()) → prog AccessController (QueryResult (R := ()))) := (q sim_console sim_user).2 in
  run (λ c, AddressSpace_Addresses sim_review c (sim_obj "AddressSpace" "app" "foo") (sim_args (Some "`$.metadata.name` = 'foobar.b'")))
    = Ok {| Total := 1; Items := [address_foobar] |} ∧
  run (λ c, AddressSpace_Connections c (sim_obj "AddressSpace" "app" "foo") (sim_args (Some "`$.spec.addressSpace` = 'foo'")))
    = Ok {| Total := 0; Items := [] |} ∧
  run (λ c, Address_Links c (sim_obj "Address" "app" "foo.a") "a" (sim_args (Some "`$.spec.address` = 'a'")))
    = Ok {| Total := 0; Items := [] |}.
Proof. vm_compute. auto. Qed.
