(* ===== verification/KubeObjects.v ===== *)
(** The objects of Kubernetes and OpenShift the messaging controllers write beside the
    resources of [ApiV1]: services, routes, ingresses and secrets, with the defaults of
    [pkg/util/install/utils.go]; and the certificates and keys that the secrets hold.

    A map that is nil and one that is empty are the same here: the code that writes to
    one makes it first. A slice of bytes that is nil is not the same as an empty one. *)
From stdpp Require Import base gmap strings list.
From S2P Require Import Prelude.

(** ** Labels *)

Definition CreateDefaultLabels (labels : gmap string string) (component name : string) : gmap string string :=
  <["app.kubernetes.io/part-of" := component]> (<["name" := name]> (<["app" := "enmasse"]> (<["component" := component]> labels))).

(** [common/labels.go] and [common/annotations.go]. *)
Definition LABEL_INFRA : string := "infra".
Definition ANNOTATION_INFRA_NAME : string := "enmasse.io/infra-name".
Definition ANNOTATION_INFRA_NAMESPACE : string := "enmasse.io/infra-namespace".
Definition ANNOTATION_CERT_DIGEST : string := "enmasse.io/project-cert-digest".

(** ** Services *)

Definition ServiceTypeClusterIP : string := "ClusterIP".
Definition ServiceTypeNodePort : string := "NodePort".
Definition ServiceTypeLoadBalancer : string := "LoadBalancer".
Definition ProtocolTCP : string := "TCP".

(** [intstr.IntOrString]. *)
Inductive IntOrString :=
  | FromInt (n : Z)
  | FromString (s : string).

Record ServicePort := {
  sp_Name : string;
  sp_Protocol : string;
  sp_Port : Z;
  sp_TargetPort : IntOrString;
  sp_NodePort : Z;
}.

(** The ingresses of the load balancer are pairs of a host name and an IP. *)
Record Service := {
  s_Labels : gmap string string;
  s_Annotations : gmap string string;
  s_Owners : list string;
  s_Type : string;
  s_ClusterIP : string;
  s_Selector : gmap string string;
  s_Ports : list ServicePort;
  s_LoadBalancerIngress : list (string * string);
}.

Definition ApplyServiceDefaults (component name : string) (s : Service) : Service :=
  {| s_Labels := CreateDefaultLabels (s_Labels s) component name;
     s_Annotations := s_Annotations s;
     s_Owners := s_Owners s;
     s_Type := s_Type s;
     s_ClusterIP := s_ClusterIP s;
     s_Selector := CreateDefaultLabels ∅ component name;
     s_Ports := s_Ports s;
     s_LoadBalancerIngress := s_LoadBalancerIngress s |}.

(** ** Routes and ingresses *)

Record RouteTLSConfig := {
  Termination : string;
  DestinationCACertificate : string;
}.

(** The target is a service, the port is known by its name. *)
Record RouteObject := {
  r_Labels : gmap string string;
  r_Annotations : gmap string string;
  r_Host : string;
  r_To : string * string;
  r_TLS : option RouteTLSConfig;
  r_Port : option string;
}.

Record IngressRule := {
  ir_Host : string;
  ir_Path : string;
  ir_ServiceName : string;
  ir_ServicePort : string;
}.

(** Every entry of the TLS configuration has its list of hosts. *)
Record IngressObject := {
  in_Labels : gmap string string;
  in_Annotations : gmap string string;
  in_Rules : list IngressRule;
  in_TLS : list (list string);
}.

(** ** Secrets *)

(** A slice of bytes; [None] is nil. *)
Definition bytes : Type := option string.

Record Secret := {
  sec_Name : string;
  sec_Labels : gmap string string;
  sec_Annotations : gmap string string;
  sec_Owners : list string;
  Data : gmap string bytes;
}.

(** [secret.Data[key]]. *)
Definition data (s : Secret) (key : string) : bytes := mjoin (Data s !! key).

Definition set_Data (d : gmap string bytes) (s : Secret) : Secret :=
  {| sec_Name := sec_Name s; sec_Labels := sec_Labels s; sec_Annotations := sec_Annotations s; sec_Owners := sec_Owners s; Data := d |}.
Definition set_Annotation (k v : string) (s : Secret) : Secret :=
  {| sec_Name := sec_Name s; sec_Labels := sec_Labels s; sec_Annotations := <[k := v]> (sec_Annotations s);
     sec_Owners := sec_Owners s; Data := Data s |}.
Definition set_Owners (owners : list string) (s : Secret) : Secret :=
  {| sec_Name := sec_Name s; sec_Labels := sec_Labels s; sec_Annotations := sec_Annotations s; sec_Owners := owners; Data := Data s |}.

Definition ApplyDefaultLabels (component name : string) (s : Secret) : Secret :=
  {| sec_Name := sec_Name s; sec_Labels := CreateDefaultLabels (sec_Labels s) component name;
     sec_Annotations := sec_Annotations s; sec_Owners := sec_Owners s; Data := Data s |}.

(** ** Certificates *)

(** [rsa.PrivateKey.Validate]. *)
Definition valid_key (n e d : Z) (primes : list Z) : bool :=
  (2 <=? e)%Z && (e <? 2 ^ 31)%Z && forallb (λ p, 1 <? p)%Z primes && (foldr Z.mul 1%Z primes =? n)%Z &&
  forallb (λ p, (d * e - 1) mod (p - 1) =? 0)%Z primes.

(** [rsa.PrivateKey] and its public part: the modulus, the exponents and the primes, as
    [rsa.GenerateKey] and [x509.ParsePKCS1PrivateKey] make them, that is, validated. *)
Record PrivateKey := {
  Modulus : Z;
  PublicExponent : Z;
  PrivateExponent : Z;
  Primes : list Z;
  Validated : valid_key Modulus PublicExponent PrivateExponent Primes = true;
}.
Definition PublicKey (k : PrivateKey) : Z * Z := (Modulus k, PublicExponent k).

#[global] Instance PrivateKey_eq_dec : EqDecision PrivateKey.
Proof.
  intros [n e d ps H] [n' e' d' ps' H']. destruct (decide ((n, e, d, ps) = (n', e', d', ps'))) as [Heq|Hne].
  - left. injection Heq as -> -> -> ->. f_equal. apply proof_irrel.
  - right. congruence.
Defined.

(** [x509.Certificate], as far as the code sets and reads it. Of the subject only the
    common name varies. Times are in nanoseconds. *)
Record Certificate := {
  SerialNumber : Z;
  CommonName : string;
  NotBefore : Z;
  NotAfter : Z;
  DNSNames : list string;
  IsCA : bool;
}.

#[global] Instance Certificate_eq_dec : EqDecision Certificate.
Proof. solve_decision. Defined.
