(* ===== verification/Workloads.v ===== *)
(** The stateful sets of routers and brokers and what they are made of, with the helpers of
    [pkg/util/install/utils.go] that build them, and the table of container images of
    [pkg/util/images/mapping.go].

    The objects have the fields the operator reads or writes. As in [KubeObjects], a map
    or a slice that is nil is an empty one where the code makes it before it writes to it. *)
From Stdlib Require Import Ascii.
From stdpp Require Import base gmap strings list.
From S2P Require Import Prelude GoStrings KubeObjects ApiV1.

(** ** Containers *)

Record EnvVar := {
  ev_Name : string;
  ev_Value : string;
  ev_ValueFrom : option string;
}.

Record VolumeMount := {
  vm_Name : string;
  vm_MountPath : string;
  vm_ReadOnly : bool;
}.

Record ContainerPort := {
  cp_Name : string;
  cp_ContainerPort : Z;
}.

(** A command, or a request with its path, scheme and port. *)
Inductive Handler :=
  | Exec (command : list string)
  | HTTPGet (path scheme : string) (port : IntOrString).

Record Probe := {
  pr_Handler : Handler;
  pr_TimeoutSeconds : Z;
  pr_InitialDelaySeconds : Z;
}.

Record Container := {
  ct_Name : string;
  ct_Image : string;
  ct_ImagePullPolicy : string;
  ct_Command : list string;
  ct_Env : list EnvVar;
  ct_VolumeMounts : list VolumeMount;
  ct_Ports : list ContainerPort;
  ct_LivenessProbe : option Probe;
  ct_ReadinessProbe : option Probe;
}.

(** The sources of a volume, each by the name it refers to. *)
Record Volume := {
  v_Name : string;
  v_ConfigMap : option string;
  v_Secret : option string;
  v_EmptyDir : option ();
}.

Definition new_container (name : string) : Container :=
  {| ct_Name := name; ct_Image := ""; ct_ImagePullPolicy := ""; ct_Command := []; ct_Env := []; ct_VolumeMounts := []; ct_Ports := [];
     ct_LivenessProbe := None; ct_ReadinessProbe := None |}.
Definition new_volume (name : string) : Volume := {| v_Name := name; v_ConfigMap := None; v_Secret := None; v_EmptyDir := None |}.

(** ** Stateful sets, config maps and pods *)

Record PodTemplate := {
  pt_Labels : gmap string string;
  pt_Annotations : gmap string string;
  pt_InitContainers : list Container;
  pt_Containers : list Container;
  pt_Volumes : list Volume;
}.

(** The name, the access modes and the storage a claim asks for, in bytes. *)
Record PersistentVolumeClaim := {
  pvc_Name : string;
  pvc_AccessModes : list string;
  pvc_Storage : Z;
}.

(** [ss_Created] is that the time of creation is set. *)
Record StatefulSet := {
  ss_meta : ObjectMeta;
  ss_Created : bool;
  ss_Labels : gmap string string;
  ss_Annotations : gmap string string;
  ss_Owners : list string;
  ss_Selector : option (gmap string string);
  ss_Replicas : option Z;
  ss_ServiceName : string;
  ss_Template : PodTemplate;
  ss_VolumeClaimTemplates : list PersistentVolumeClaim;
}.

Record ConfigMap := {
  cm_Owners : list string;
  cm_Data : gmap string string;
}.

(** The annotations of a pod may be a nil map, which the operator writes to. *)
Record Pod := {
  pod_Name : string;
  pod_Annotations : option (gmap string string);
  pod_Phase : string;
  pod_PodIP : string;
}.

Definition PodRunning : string := "Running".

(** ** Lists of named things *)

(** The element of the name is changed, or else a new one is changed and added. The loops
    of [ApplyContainerWithError], [ApplyVolumeWithError], [ApplyVolumeMountWithError] and
    [ApplyEnvWithError] are the same. *)
Fixpoint apply_named {A} (name_of : A → string) (new : A) (name : string) (mutator : A → outcome A) (l : list A) : outcome (list A) :=
  match l with
  | [] => v ← mutator new; mret [v]
  | v :: l' =>
      if decide (name_of v = name) then v' ← mutator v; mret (v' :: l')
      else l'' ← apply_named name_of new name mutator l'; mret (v :: l'')
  end.

Definition ApplyContainerWithError (containers : list Container) (name : string) (mutator : Container → outcome Container)
    : outcome (list Container) := apply_named ct_Name (new_container name) name mutator containers.

(** A list whose mutator cannot fail; an error is eaten up. *)
Definition eat_error {A} (o : outcome A) (a : A) : A := match o with Ok a' => a' | _ => a end.

Definition ApplyVolume (volumes : list Volume) (name : string) (mutator : Volume → Volume) : list Volume :=
  eat_error (apply_named v_Name (new_volume name) name (λ v, Ok (mutator v)) volumes) volumes.

Definition set_Volumes (f : list Volume → list Volume) (t : PodTemplate) : PodTemplate :=
  {| pt_Labels := pt_Labels t; pt_Annotations := pt_Annotations t; pt_InitContainers := pt_InitContainers t;
     pt_Containers := pt_Containers t; pt_Volumes := f (pt_Volumes t) |}.

Definition ApplyConfigMapVolume (pod : PodTemplate) (name configMapName : string) : PodTemplate :=
  set_Volumes (λ l, ApplyVolume l name (λ v,
    {| v_Name := v_Name v; v_ConfigMap := Some configMapName; v_Secret := v_Secret v; v_EmptyDir := v_EmptyDir v |})) pod.

Definition ApplySecretVolume (pod : PodTemplate) (name secretName : string) : PodTemplate :=
  set_Volumes (λ l, ApplyVolume l name (λ v,
    {| v_Name := v_Name v; v_ConfigMap := v_ConfigMap v; v_Secret := Some secretName; v_EmptyDir := v_EmptyDir v |})) pod.

Definition ApplyEmptyDirVolume (pod : PodTemplate) (name : string) : PodTemplate :=
  set_Volumes (λ l, ApplyVolume l name (λ v,
    {| v_Name := v_Name v; v_ConfigMap := v_ConfigMap v; v_Secret := v_Secret v; v_EmptyDir := Some () |})) pod.

Definition set_VolumeMounts (f : list VolumeMount → list VolumeMount) (c : Container) : Container :=
  {| ct_Name := ct_Name c; ct_Image := ct_Image c; ct_ImagePullPolicy := ct_ImagePullPolicy c; ct_Command := ct_Command c; ct_Env := ct_Env c;
     ct_VolumeMounts := f (ct_VolumeMounts c); ct_Ports := ct_Ports c; ct_LivenessProbe := ct_LivenessProbe c;
     ct_ReadinessProbe := ct_ReadinessProbe c |}.
Definition set_Env (f : list EnvVar → list EnvVar) (c : Container) : Container :=
  {| ct_Name := ct_Name c; ct_Image := ct_Image c; ct_ImagePullPolicy := ct_ImagePullPolicy c; ct_Command := ct_Command c; ct_Env := f (ct_Env c);
     ct_VolumeMounts := ct_VolumeMounts c; ct_Ports := ct_Ports c; ct_LivenessProbe := ct_LivenessProbe c;
     ct_ReadinessProbe := ct_ReadinessProbe c |}.

Definition ApplyVolumeMountSimple (container : Container) (name path : string) (readOnly : bool) : Container :=
  set_VolumeMounts (λ l, eat_error (apply_named vm_Name {| vm_Name := name; vm_MountPath := ""; vm_ReadOnly := false |} name (λ m,
    Ok {| vm_Name := vm_Name m; vm_MountPath := path; vm_ReadOnly := readOnly |}) l) l) container.

Definition ApplyEnvSimple (container : Container) (name value : string) : Container :=
  set_Env (λ l, eat_error (apply_named ev_Name {| ev_Name := name; ev_Value := ""; ev_ValueFrom := None |} name (λ e,
    Ok {| ev_Name := ev_Name e; ev_Value := value; ev_ValueFrom := None |}) l) l) container.

(** ** The process *)

(** The environment of the process, and the files it can load a table of images from. *)
Class Process_ := {
  LookupEnv : string → option string;
  load_images : string → option (gmap string string);
}.

Section Process.
Context `{HP : !Process_}.

Definition Getenv (name : string) : string := default "" (LookupEnv name).

Definition CreateDefaultAnnotations (annotations : gmap string string) : gmap string string :=
  let annotations := match LookupEnv "VERSION" with Some v => <["enmasse.io/version" := v]> annotations | None => annotations end in
  match LookupEnv "REVISION" with Some v => <["enmasse.io/revision" := v]> annotations | None => annotations end.

Definition ApplyStatefulSetDefaults (s : StatefulSet) (component name : string) : StatefulSet :=
  let t := ss_Template s in
  {| ss_meta := ss_meta s; ss_Created := ss_Created s;
     ss_Labels := CreateDefaultLabels (ss_Labels s) component name;
     ss_Annotations := ss_Annotations s;
     ss_Owners := ss_Owners s;
     ss_Selector := if ss_Created s then ss_Selector s else Some (CreateDefaultLabels ∅ component name);
     ss_Replicas := Some 1%Z;
     ss_ServiceName := ss_ServiceName s;
     ss_Template := {| pt_Labels := CreateDefaultLabels (pt_Labels t) component name;
                       pt_Annotations := CreateDefaultAnnotations (pt_Annotations t);
                       pt_InitContainers := pt_InitContainers t; pt_Containers := pt_Containers t; pt_Volumes := pt_Volumes t |};
     ss_VolumeClaimTemplates := ss_VolumeClaimTemplates s |}.

(** ** Images *)

Definition setIfEnvPresent (data : gmap string string) (kv : string * string) : gmap string string :=
  match LookupEnv kv.2 with Some value => <[kv.1 := value]> data | None => data end.

Definition overrideImageMapFromEnv (data : gmap string string) : gmap string string :=
  foldl setIfEnvPresent data [
    ("controller-manager", "RELATED_IMAGE_CONTROLLER_MANAGER"); ("iot-auth-service", "RELATED_IMAGE_IOT_AUTH_SERVICE");
    ("iot-device-connection-infinispan", "RELATED_IMAGE_IOT_DEVICE_CONNECTION_INFINISPAN");
    ("iot-device-connection-jdbc", "RELATED_IMAGE_IOT_DEVICE_CONNECTION_JDBC");
    ("iot-device-registry-infinispan", "RELATED_IMAGE_IOT_DEVICE_REGISTRY_INFINISPAN");
    ("iot-device-registry-jdbc", "RELATED_IMAGE_IOT_DEVICE_REGISTRY_JDBC"); ("iot-http-adapter", "RELATED_IMAGE_IOT_HTTP_ADAPTER");
    ("iot-lorawan-adapter", "RELATED_IMAGE_IOT_LORAWAN_ADAPTER"); ("iot-mqtt-adapter", "RELATED_IMAGE_IOT_MQTT_ADAPTER");
    ("iot-sigfox-adapter", "RELATED_IMAGE_IOT_SIGFOX_ADAPTER"); ("iot-project-cleaner", "RELATED_IMAGE_IOT_TENANT_CLEANER");
    ("iot-project-service", "RELATED_IMAGE_IOT_TENANT_SERVICE"); ("iot-proxy-configurator", "RELATED_IMAGE_IOT_PROXY_CONFIGURATOR");
    ("router", "RELATED_IMAGE_ROUTER"); ("none-authservice", "RELATED_IMAGE_NONE_AUTHSERVICE"); ("keycloak", "RELATED_IMAGE_KEYCLOAK");
    ("keycloak-plugin", "RELATED_IMAGE_KEYCLOAK_PLUGIN"); ("console-init", "RELATED_IMAGE_CONSOLE_INIT");
    ("console-proxy-openshift", "RELATED_IMAGE_CONSOLE_PROXY_OPENSHIFT"); ("console-proxy-kubernetes", "RELATED_IMAGE_CONSOLE_PROXY_KUBERNETES");
    ("console-server", "RELATED_IMAGE_CONSOLE_SERVER"); ("address-space-controller", "RELATED_IMAGE_ADDRESS_SPACE_CONTROLLER");
    ("standard-controller", "RELATED_IMAGE_STANDARD_CONTROLLER"); ("agent", "RELATED_IMAGE_AGENT"); ("broker", "RELATED_IMAGE_BROKER");
    ("broker-plugin", "RELATED_IMAGE_BROKER_PLUGIN"); ("topic-forwarder", "RELATED_IMAGE_TOPIC_FORWARDER");
    ("mqtt-gateway", "RELATED_IMAGE_MQTT_GATEWAY"); ("mqtt-lwt", "RELATED_IMAGE_MQTT_LWT")].

Definition defaultImageMapFileName : string := "operatorImageMap.yaml".

(** The table is loaded once; what is loaded is the same every time. *)
Definition lazyLoadImageMap : outcome (gmap string string) :=
  let fileName := if decide (Getenv "ENMASSE_IMAGE_MAP_FILE" = "") then defaultImageMapFileName else Getenv "ENMASSE_IMAGE_MAP_FILE" in
  match load_images fileName with None => Panic | Some data => Ok (overrideImageMapFromEnv data) end.

Definition GetImage (name : string) : outcome string :=
  imageMap ← lazyLoadImageMap;
  match imageMap !! name with
  | Some value => Ok value
  | None => Err (Errorf ("image '" +:+ name +:+ "' not found in the mapping table"))
  end.

(** [strings.HasSuffix]. *)
Definition HasSuffix (s suffix : string) : bool :=
  bool_decide (String.length suffix ≤ String.length s) &&
  bool_decide (String.substring (String.length s - String.length suffix) (String.length suffix) s = suffix).

Definition PullPolicyFromImageName (imageName : string) : string :=
  if decide (Getenv "IMAGE_PULL_POLICY" ≠ "") then Getenv "IMAGE_PULL_POLICY"
  else if HasSuffix imageName "-SNAPSHOT" || HasSuffix imageName ":latest" then "Always"
  else "IfNotPresent".

Definition set_Image (image policy : string) (c : Container) : Container :=
  {| ct_Name := ct_Name c; ct_Image := image; ct_ImagePullPolicy := policy; ct_Command := ct_Command c; ct_Env := ct_Env c;
     ct_VolumeMounts := ct_VolumeMounts c; ct_Ports := ct_Ports c; ct_LivenessProbe := ct_LivenessProbe c;
     ct_ReadinessProbe := ct_ReadinessProbe c |}.

Definition ApplyContainerImage (container : Container) (imageName : string) (override : option ImageOverride) : outcome Container :=
  resolved ← GetImage imageName;
  let resolved := match override with Some o => if decide (io_Name o ≠ "") then io_Name o else resolved | None => resolved end in
  let pullPolicy := match override with Some o => io_PullPolicy o | None => "" end in
  mret (set_Image resolved (if decide (pullPolicy ≠ "") then pullPolicy else PullPolicyFromImageName resolved) container).
End Process.
