(* ===== verification/Reconcile.v ===== *)
(** The frame of the controllers under [pkg/controller]: programs whose effects are
    requests to the API server and to the clients of the infrastructures, the results of
    a reconciliation, and [resourceContext], which every messaging controller has a copy of. *)
From stdpp Require Import base gmap strings list.
From S2P Require Import Prelude Client ApiV1 Conditions KubeObjects Workloads.

(** ** Programs *)

(** A program that returns a value, panics, or has an effect and goes on with the answer. *)
Inductive io (E : Type → Type) (A : Type) : Type :=
  | Ret (a : A)
  | Crash
  | Vis (X : Type) (e : E X) (k : X → io E A).
Arguments Ret {E A} a.
Arguments Crash {E A}.
Arguments Vis {E A X} e k.

#[global] Instance io_ret E : MRet (io E) := λ A a, Ret a.
Fixpoint bind_io {E A B} (f : A → io E B) (p : io E A) : io E B :=
  match p with
  | Ret a => f a
  | Crash => Crash
  | Vis e k => Vis e (λ x, bind_io f (k x))
  end.
#[global] Instance io_bind E : MBind (io E) := @bind_io E.

(** An effect with its answer. *)
Inductive event (E : Type → Type) : Type :=
  | Ev (X : Type) (e : E X) (x : X).
Arguments Ev {E X} e x.

Section Logic.
Context {E : Type → Type}.
Implicit Types (tr : list (event E)) (ok : list (event E) → event E → Prop).

(** Whatever the answers are, the program returns without a panic, what it does obeys
    [ok], given what was done before, and [Q] holds of all that was done and of the
    value. *)
Fixpoint wp ok {A} (p : io E A) tr (Q : list (event E) → A → Prop) : Prop :=
  match p with
  | Ret a => Q tr a
  | Crash => False
  | Vis e k => ∀ x, ok tr (Ev e x) ∧ wp ok (k x) (tr ++ [Ev e x]) Q
  end.

Lemma wp_bind ok {A B} (p : io E A) (f : A → io E B) tr Q :
  wp ok p tr (λ tr' a, wp ok (f a) tr' Q) → wp ok (p ≫= f) tr Q.
Proof. revert tr. induction p as [a| |X e k IH]; intros tr; simpl; [done..|]. intros H x. split; [apply H|apply IH, H]. Qed.

Lemma wp_mono ok {A} (p : io E A) tr (Q Q' : list (event E) → A → Prop) :
  wp ok p tr Q → (∀ tr' a, Q tr' a → Q' tr' a) → wp ok p tr Q'.
Proof.
  intros H HQ. revert tr H. induction p as [a| |X e k IH]; intros tr; simpl; [apply HQ|done|].
  intros H x. split; [apply H|apply IH, H].
Qed.

(** What was done is only added to. *)
Lemma wp_grows ok {A} (p : io E A) tr Q :
  wp ok p tr Q → wp ok p tr (λ tr' a, Q tr' a ∧ ∃ new, tr' = tr ++ new).
Proof.
  revert tr. induction p as [a| |X e k IH]; intros tr; simpl; [|done|].
  - intros H. split; [done|]. exists []. by rewrite app_nil_r.
  - intros H x. split; [apply H|]. eapply wp_mono; [apply IH, H|]. intros tr' a [HQ [new ->]].
    split; [done|]. exists (Ev e x :: new). by rewrite <-app_assoc.
Qed.

(** ** Runs *)

(** What answers the effects. *)
Context {W : Type} (handle : ∀ X, E X → W → W * X).

Fixpoint run {A} (p : io E A) (w : W) tr : W * list (event E) * option A :=
  match p with
  | Ret a => (w, tr, Some a)
  | Crash => (w, tr, None)
  | Vis e k => let '(w', x) := handle _ e w in run (k x) w' (tr ++ [Ev e x])
  end.

(** All that was done obeyed [ok]. *)
Definition obeys ok tr : Prop := ∀ pre ev post, tr = pre ++ ev :: post → ok pre ev.

Lemma obeys_nil ok : obeys ok [].
Proof. intros pre ev post H. by destruct pre. Qed.

Lemma obeys_snoc ok tr ev : obeys ok tr → ok tr ev → obeys ok (tr ++ [ev]).
Proof.
  intros Htr Hev pre ev' post H. destruct post as [|ev2 post _] using rev_ind.
  - by apply app_inj_tail in H as [<- <-].
  - rewrite app_comm_cons, app_assoc in H. apply app_inj_tail in H as [H <-]. by eapply Htr.
Qed.

Lemma wp_run ok {A} (p : io E A) w tr Q :
  wp ok p tr Q → obeys ok tr →
  ∃ w' tr' a, run p w tr = (w', tr', Some a) ∧ Q tr' a ∧ obeys ok tr'.
Proof.
  revert w tr. induction p as [a| |X e k IH]; intros w tr H Htr; simpl in *; [by eexists _, _, _|done|].
  destruct (handle X e w) as [w' x]. apply IH; [apply H|]. apply obeys_snoc; [done|]. apply H.
Qed.
End Logic.

(** ** Objects *)

(** An object with the metadata the controllers read beside its name. *)
Record Resource (A : Type) := {
  res : A;
  DeletionTimestamp : option Z;
  Finalizers : list string;
}.
Arguments Build_Resource {A} res DeletionTimestamp Finalizers.
Arguments res {A} r.
Arguments DeletionTimestamp {A} r.
Arguments Finalizers {A} r.

#[global] Instance Resource_eq_dec {A} `{EqDecision A} : EqDecision (Resource A).
Proof. solve_decision. Defined.

(** ** Effects *)

(** The errors of the API server: that there is no such object, and all others. *)
Inductive ApiError :=
  | ApiNotFound (msg : string)
  | ApiOther (msg : string).

Definition api_error (e : ApiError) : error :=
  match e with ApiNotFound msg => StatusNotFound msg | ApiOther msg => Errorf msg end.

(** The kinds of [KubeObjects] and [Workloads]. *)
Inductive okind : Type → Type :=
  | ServiceKind : okind Service
  | RouteKind : okind RouteObject
  | IngressKind : okind IngressObject
  | SecretKind : okind Secret
  | StatefulSetKind : okind StatefulSet
  | ConfigMapKind : okind ConfigMap
  | PodKind : okind Pod.

(** The requests of the controllers, to the API server and to the client of an
    infrastructure, and the other calls whose answer is not known.

    Resources that are read come with the spare capacity of the slice of their
    conditions. A method of a client that assigns a part of the object it is given
    answers with the new part. [controllerutil.CreateOrUpdate] calls a function that
    changes the object and stores the outcome: [Existing] is what the function is given,
    the object that exists or the one to create, and [Store] what it has made of it. *)
Inductive kube : Type → Type :=
  | Now : kube Z
  | Sleep (d : Z) : kube ()
  | IsOpenshift : kube bool
  | GetMessagingAddress (ns name : string) : kube (ApiError + (Resource MessagingAddress * nat))
  | GetMessagingEndpoint (ns name : string) : kube (ApiError + (Resource MessagingEndpoint * nat))
  | GetMessagingProject (ns name : string) : kube (ApiError + (Resource MessagingProject * nat))
  | GetMessagingInfrastructure (ns name : string) : kube (ApiError + (Resource MessagingInfrastructure * nat))
  | ListMessagingAddresses (ns : string) : kube (ApiError + list MessagingAddress)
  | ListMessagingEndpoints (ns : string) : kube (ApiError + list MessagingEndpoint)
  | ListMessagingProjects : kube (ApiError + list MessagingProject)
  | ListMessagingInfrastructures : kube (ApiError + list MessagingInfrastructure)
  | UpdateAddress (a : Resource MessagingAddress) : kube (option ApiError)
  | UpdateAddressStatus (a : Resource MessagingAddress) : kube (option ApiError)
  | UpdateEndpoint (e : Resource MessagingEndpoint) : kube (option ApiError)
  | UpdateEndpointStatus (e : Resource MessagingEndpoint) : kube (option ApiError)
  | UpdateProject (p : Resource MessagingProject) : kube (option ApiError)
  | UpdateProjectStatus (p : Resource MessagingProject) : kube (option ApiError)
  | UpdateInfrastructure (i : Resource MessagingInfrastructure) : kube (option ApiError)
  | UpdateInfrastructureStatus (i : Resource MessagingInfrastructure) : kube (option ApiError)
  | GetObject {O} (k : okind O) (ns name : string) : kube (ApiError + O)
  | UpdateObject {O} (k : okind O) (ns name : string) (o : O) : kube (option ApiError)
  | DeleteObject {O} (k : okind O) (ns name : string) : kube (option ApiError)
  | Existing {O} (k : okind O) (ns name : string) : kube (ApiError + O)
  | Store {O} (k : okind O) (ns name : string) (o : O) : kube (option ApiError)
  | SetControllerReference (owner : ObjectMeta) (owners : list string) : kube (error + list string)
  | GenerateKey : kube (error + PrivateKey)
  | Pkcs12Encode (key : PrivateKey) (c ca : Certificate) : kube (error + string)
  | Pkcs12EncodeTrustStore (ca : Certificate) : kube (error + string)
  | ScheduleAddress (infra : MessagingInfrastructure) (a : MessagingAddress)
      : kube (list MessagingAddressBroker * option error)
  | SyncAddress (infra : MessagingInfrastructure) (a : MessagingAddress) : kube (option error)
  | DeleteAddress (infra : MessagingInfrastructure) (a : MessagingAddress) : kube (option error)
  | ScheduleProject (infra : MessagingInfrastructure) (p : MessagingProject)
      : kube (option MessagingAddressBroker * option error)
  | SyncProject (infra : MessagingInfrastructure) (p : MessagingProject) : kube (option error)
  | DeleteProject (infra : MessagingInfrastructure) (p : MessagingProject) : kube (option error)
  | AllocatePorts (infra : MessagingInfrastructure) (e : MessagingEndpoint) (protocols : list string)
      : kube (list MessagingEndpointPort * option error)
  | FreePorts (infra : MessagingInfrastructure) (e : MessagingEndpoint) : kube (list MessagingEndpointPort)
  | SyncEndpoint (infra : MessagingInfrastructure) (e : MessagingEndpoint) : kube (option error)
  | DeleteEndpoint (infra : MessagingInfrastructure) (e : MessagingEndpoint)
      : kube (list MessagingEndpointPort * option error)
  | ReconcileRouters (infra : MessagingInfrastructure) : kube (MessagingInfrastructureSpecRouter * (error + list Host))
  | ReconcileBrokers (infra : MessagingInfrastructure) : kube (MessagingInfrastructureSpecBroker * (error + list Host))
  | SyncAll (infra : MessagingInfrastructure) (routers brokers : list Host) (certificate : bytes * bytes) (ca : bytes)
      : kube (list ConnectorStatus * option error)
  | DeleteClient (infra : MessagingInfrastructure) : kube (option error)
  | DeleteBroker (infra : MessagingInfrastructure) (host : string) : kube (option error)
  | ListStatefulSets (ns : string) (labels : gmap string string) : kube (ApiError + list StatefulSet)
  | ListPods (ns : string) (labels : gmap string string) : kube (ApiError + list Pod).

(** The calls that read or compute and change nothing. *)
Definition reads_only {X} (e : kube X) : bool :=
  match e with
  | Now | Sleep _ | IsOpenshift
  | GetMessagingAddress _ _ | GetMessagingEndpoint _ _ | GetMessagingProject _ _ | GetMessagingInfrastructure _ _
  | ListMessagingAddresses _ | ListMessagingEndpoints _ | ListMessagingProjects | ListMessagingInfrastructures
  | ListStatefulSets _ _ | ListPods _ _
  | GetObject _ _ _ | Existing _ _ _ | SetControllerReference _ _
  | GenerateKey | Pkcs12Encode _ _ _ | Pkcs12EncodeTrustStore _ => true
  | _ => false
  end.

(** A call with effects on the state [S] of a controller. *)
Definition ctl (S A : Type) : Type := S → io kube (S * A).
#[global] Instance ctl_ret S : MRet (ctl S) := λ A a s, Ret (s, a).
#[global] Instance ctl_bind S : MBind (ctl S) := λ A B f m s, m s ≫= λ r, f r.2 r.1.

Definition call {S A} (e : kube A) : ctl S A := λ s, Vis e (λ x, Ret (s, x)).
Definition reads {S A} (f : S → A) : ctl S A := λ s, Ret (s, f s).
Definition writes {S} (f : S → S) : ctl S () := λ s, Ret (f s, ()).
Definition crash {S A} : ctl S A := λ _, Crash.

Lemma ctl_wp_bind {S A B} ok (m : ctl S A) (f : A → ctl S B) s tr Q :
  wp ok (m s) tr (λ tr' r, wp ok (f r.2 r.1) tr' Q) → wp ok ((m ≫= f) s) tr Q.
Proof. apply wp_bind. Qed.

Lemma call_wp {S A} ok (e : kube A) (s : S) tr Q :
  (∀ x, ok tr (Ev e x) ∧ Q (tr ++ [Ev e x]) (s, x)) → wp ok (call e s) tr Q.
Proof. done. Qed.

Lemma ret_wp {S A} ok (a : A) (s : S) tr (Q : list (event kube) → S * A → Prop) : Q tr (s, a) → wp ok (mret (M := ctl S) a s) tr Q.
Proof. done. Qed.

Lemma reads_wp {S A} ok (f : S → A) (s : S) tr (Q : list (event kube) → S * A → Prop) : Q tr (s, f s) → wp ok (reads f s) tr Q.
Proof. done. Qed.

Lemma writes_wp {S} ok (f : S → S) (s : S) tr (Q : list (event kube) → S * () → Prop) : Q tr (f s, ()) → wp ok (writes f s) tr Q.
Proof. done. Qed.

(** A value or an error, and what is done with the value. *)
Definition try_ {S A B} (m : ctl S (error + A)) (k : A → ctl S (error + B)) : ctl S (error + B) :=
  r ← m; match r with inl e => mret (inl e) | inr a => k a end.
Notation "'try' x ← m ; k" := (try_ m (λ x, k)) (at level 100, x pattern, m at next level, k at level 200, right associativity).

Definition from_api {A} (r : ApiError + A) : error + A :=
  match r with inl e => inl (api_error e) | inr a => inr a end.

(** A request of an object. *)
Definition get_object {S O} (k : okind O) (ns name : string) : ctl S (error + O) :=
  r ← call (GetObject k ns name); mret (from_api r).

(** [controllerutil.CreateOrUpdate] with the function [f]; the object is known afterwards,
    and what [f] has left in the variables it captures. *)
Definition CreateOrUpdate {S O X} (k : okind O) (ns name : string) (f : O → ctl S (error + (O * X))) : ctl S (error + (O * X)) :=
  r ← call (Existing k ns name);
  match r with
  | inl e => mret (inl (api_error e))
  | inr o =>
      try (o', x) ← f o;
      e ← call (Store k ns name o');
      mret (match e with Some e => inl (api_error e) | None => inr (o', x) end)
  end.

Lemma try_wp {S A B} ok (m : ctl S (error + A)) (k : A → ctl S (error + B)) s tr Q :
  wp ok (m s) tr (λ tr' r, match r.2 with inl e => Q tr' (r.1, inl e) | inr a => wp ok (k a r.1) tr' Q end) →
  wp ok (try_ m k s) tr Q.
Proof. intros H. apply ctl_wp_bind. eapply wp_mono; [exact H|]. by intros tr' [s' [e|a]]. Qed.

(** One step of a program. *)
Ltac wp_step :=
  lazymatch goal with
  | |- wp _ (try_ _ _ _) _ _ => apply try_wp
  | |- wp _ ((_ ≫= _) _) _ _ => apply ctl_wp_bind
  | |- wp _ (call _ _) _ _ => apply call_wp; intros ?
  | |- wp _ (mret _ _) _ _ => apply ret_wp
  | |- wp _ (reads _ _) _ _ => apply reads_wp
  | |- wp _ (writes _ _) _ _ => apply writes_wp
  end; cbn [fst snd].

Lemma CreateOrUpdate_wp {S O X} ok (k : okind O) ns name (f : O → ctl S (error + (O * X))) s tr Q :
  (∀ x, ok tr (Ev (Existing k ns name) x)) →
  (∀ e, Q (tr ++ [Ev (Existing k ns name) (inl e)]) (s, inl (api_error e))) →
  (∀ o, wp ok (f o s) (tr ++ [Ev (Existing k ns name) (inr o)]) (λ tr' r,
    match r.2 with
    | inl e => Q tr' (r.1, inl e)
    | inr (o', x) => ∀ e, ok tr' (Ev (Store k ns name o') e) ∧
        Q (tr' ++ [Ev (Store k ns name o') e]) (r.1, match e with Some e => inl (api_error e) | None => inr (o', x) end)
    end)) →
  wp ok (CreateOrUpdate k ns name f s) tr Q.
Proof.
  intros Hok He Hf. unfold CreateOrUpdate. repeat wp_step. split; [done|]. destruct x as [e|o]; repeat wp_step; [done|].
  eapply wp_mono; [apply Hf|]. intros tr' [s' [e|[o' x]]]; cbn [fst snd]; [done|]. intros H. repeat wp_step. split; apply H.
Qed.

(** ** Errors *)

(** [k8errors.IsNotFound], [utilerrors.IsNotFound], [utilerrors.IsNotBound] and
    [errors.Is]. *)
Definition k8errors_IsNotFound (e : error) : bool := match e with StatusNotFound _ => true | _ => false end.
Definition utilerrors_IsNotFound (e : error) : bool := match e with NotFoundError _ _ _ => true | _ => false end.
Definition utilerrors_IsNotBound (e : error) : bool := match e with NotBoundError _ => true | _ => false end.
Fixpoint errors_Is (e target : error) : bool :=
  bool_decide (e = target) || match e with Wrapped e' _ => errors_Is e' target | _ => false end.

(** ** Results *)

(** [time.Second], in nanoseconds. *)
Definition Second : Z := 1000000000.

(** [reconcile.Result]. *)
Record Result := {
  r_Requeue : bool;
  r_RequeueAfter : Z;
}.
Definition no_result : Result := {| r_Requeue := false; r_RequeueAfter := 0 |}.

Record processorResult := {
  Requeue : bool;
  RequeueAfter : Z;
  Return : bool;
}.
Definition done_ : processorResult := {| Requeue := false; RequeueAfter := 0; Return := false |}.
Definition requeue : processorResult := {| Requeue := true; RequeueAfter := 0; Return := false |}.
Definition requeue_after (d : Z) : processorResult := {| Requeue := false; RequeueAfter := d; Return := false |}.
Definition return_ : processorResult := {| Requeue := false; RequeueAfter := 0; Return := true |}.

Definition is_error (e : option error) : bool := match e with Some _ => true | None => false end.

Definition ShouldReturn (r : processorResult) (err : option error) : bool :=
  is_error err || Requeue r || (0 <? RequeueAfter r)%Z || Return r.

Definition Result_ (r : processorResult) : Result :=
  {| r_Requeue := Requeue r; r_RequeueAfter := RequeueAfter r |}.

(** ** [resourceContext] *)

(** A kind of objects: its status parts, and how it is written. *)
Class Kind (A : Type) := {
  Conditions_of : A → list Condition;
  with_Conditions : list Condition → A → A;
  with_Message : string → A → A;
  Update : Resource A → kube (option ApiError);
  StatusUpdate : Resource A → kube (option ApiError);
}.

(** The object a controller works on. Its conditions are in a slice that pointers may
    point into; the list in the object itself is not looked at. *)
Record Ctx (A : Type) := {
  obj : Resource A;
  conds : Arrays * Slice;
}.
Arguments Build_Ctx {A} obj conds.
Arguments obj {A} c.
Arguments conds {A} c.

(** A processor: its result and error, and what it leaves in the variables it captures. *)
Notation processor A X := (ctl (Ctx A) (processorResult * option error * X)).

Section Ctx.
Context {A : Type} `{HK : !Kind A} (grow : nat → nat).
Notation ctx := (Ctx A).

Definition set_res (f : A → A) (s : ctx) : ctx :=
  {| obj := {| res := f (res (obj s)); DeletionTimestamp := DeletionTimestamp (obj s); Finalizers := Finalizers (obj s) |};
     conds := conds s |}.

Definition set_conds (cs : Arrays * Slice) (s : ctx) : ctx := {| obj := obj s; conds := cs |}.

(** What the object is, its conditions included. *)
Definition current (s : ctx) : Resource A :=
  {| res := with_Conditions (contents (conds s).1 (conds s).2) (res (obj s));
     DeletionTimestamp := DeletionTimestamp (obj s); Finalizers := Finalizers (obj s) |}.

(** The context of an object that was read: its conditions in an array of their own. *)
Definition new_ctx (o : Resource A) (spare : nat) : ctx :=
  let cs := Conditions_of (res o) in
  {| obj := o;
     conds := match cs with
              | [] => ([], None)
              | _ => ([cs ++ replicate spare zero_condition], Some (0, length cs))
              end |}.

(** The getters of conditions and [SetStatus] through a pointer; the time is read in
    case it is needed. *)
Definition get_condition (t : string) : ctl ctx Pointer :=
  now ← call Now;
  cs ← reads conds;
  let '(cs', p) := GetCondition grow now t cs in
  _ ← writes (set_conds cs'); mret p.

Definition set_condition (p : Pointer) (status message : string) : ctl ctx () :=
  now ← call Now;
  writes (λ s, set_conds (SetStatus now status "" message p (conds s).1, (conds s).2) s).

(** A getter and [SetStatus] on the condition it has returned. *)
Definition mark (t status message : string) : ctl ctx () :=
  p ← get_condition t; set_condition p status message.

Definition set_message (m : string) : ctl ctx () := writes (set_res (with_Message m)).

(** [reflect.DeepEqual(r.status, r.address.Status)]: a pointer and a struct, which are
    of different types and hence never equal. The copy of the status is not used
    otherwise. *)
Definition status_equal : bool := false.

(** [Process]. *)
Definition Process {X} (p : processor A X) : processor A X :=
  r ← p;
  let '(result, err, x) := r in
  if negb status_equal && (is_error err || Requeue result || (0 <? RequeueAfter result)%Z) then
    s ← reads current;
    statuserr ← call (StatusUpdate s);
    mret (result, match err with Some _ => err | None => api_error <$> statuserr end, x)
  else mret (result, err, x).

(** A step of a reconciliation: it returns when the processor asks for it. *)
Definition stage {X} (p : processor A X) (k : X → ctl ctx (Result * option error)) : ctl ctx (Result * option error) :=
  r ← Process p;
  let '(result, err, x) := r in
  if ShouldReturn result err then mret (Result_ result, err) else k x.
End Ctx.

(** ** Steps of a proof *)

Section CtxFacts.
Context {A : Type} `{HK : !Kind A} (grow : nat → nat).
Implicit Types (s : Ctx A) (ok : list (event kube) → event kube → Prop).

(** Conditions change, the rest of the object does not. *)
Lemma get_condition_wp ok t s tr Q :
  (∀ x, ok tr (Ev Now x)) → (∀ x cs p, Q (tr ++ [Ev Now x]) (set_conds cs s, p)) → wp ok (get_condition grow t s) tr Q.
Proof.
  intros Hok HQ. unfold get_condition. repeat wp_step. split; [done|]. repeat wp_step.
  destruct (GetCondition grow x t (conds s)) as [cs' p]. repeat wp_step. apply HQ.
Qed.

Lemma set_condition_wp ok p st msg s tr Q :
  (∀ x, ok tr (Ev Now x)) → (∀ x cs, Q (tr ++ [Ev Now x]) (set_conds cs s, ())) → wp ok (set_condition p st msg s) tr Q.
Proof. intros Hok HQ. unfold set_condition. repeat wp_step. split; [done|]. repeat wp_step. apply HQ. Qed.

(** A step: what it writes when it returns early is allowed, and what the value and the
    trace are otherwise. *)
Lemma stage_wp {X} ok (p : processor A X) k s tr Q :
  wp ok (p s) tr (λ tr' r,
    let '(result, err, x) := r.2 in
    if is_error err || Requeue result || (0 <? RequeueAfter result)%Z then
      ∀ e, ok tr' (Ev (StatusUpdate (current r.1)) e) ∧
        Q (tr' ++ [Ev (StatusUpdate (current r.1)) e]) (r.1, (Result_ result, match err with Some _ => err | None => api_error <$> e end))
    else if Return result then Q tr' (r.1, (Result_ result, err))
    else wp ok (k x r.1) tr' Q) →
  wp ok (stage p k s) tr Q.
Proof.
  intros H. unfold stage, Process. apply ctl_wp_bind, ctl_wp_bind. eapply wp_mono; [exact H|].
  intros tr' [s' [[result err] x]]. cbn [fst snd]. unfold status_equal. cbn [negb andb].
  destruct (is_error err || Requeue result || (0 <? RequeueAfter result)%Z) eqn:Hr.
  - intros HQ. repeat wp_step. destruct (HQ x0) as [Hok HQ']. split; [done|]. repeat wp_step. unfold ShouldReturn.
    assert (is_error match err with Some _ => err | None => api_error <$> x0 end || Requeue result || (0 <? RequeueAfter result)%Z = true) as ->.
    { destruct err; [done|]. destruct x0; [done|]. exact Hr. }
    exact HQ'.
  - intros HQ. repeat wp_step. unfold ShouldReturn. rewrite Hr. cbn [orb]. by destruct (Return result).
Qed.
End CtxFacts.

(** ** [LookupInfra] *)

Definition PROJECT_RESOURCE_NAME : string := "default".

Definition LookupInfra {S} (namespace : string)
    : ctl S (option MessagingProject * option MessagingInfrastructure * option error) :=
  r ← call (GetMessagingProject namespace PROJECT_RESOURCE_NAME);
  match r with
  | inl err =>
      if k8errors_IsNotFound (api_error err)
      then mret (None, None, Some (NotFoundError "MessagingProject" PROJECT_RESOURCE_NAME namespace))
      else mret (None, None, Some (api_error err))
  | inr (project, _) =>
      if negb (IsBound (res project)) then mret (Some (res project), None, Some (NotBoundError namespace))
      else
        let ref := ps_StatusInfrastructureRef (p_Status (res project)) in
        i ← call (GetMessagingInfrastructure (ref_Namespace ref) (ref_Name ref));
        match i with
        | inl err => mret (Some (res project), None, Some (api_error err))
        | inr (infra, _) => mret (Some (res project), Some (res infra), None)
        end
  end.

(** The infrastructure the project of a namespace is bound to was read. *)
Definition bound (ns : string) (infra : MessagingInfrastructure) (tr : list (event kube)) : Prop :=
  ∃ project spare, Ev (GetMessagingProject ns PROJECT_RESOURCE_NAME) (inr (project, spare)) ∈ tr ∧
    IsBound (res project) = true ∧
    let ref := ps_StatusInfrastructureRef (p_Status (res project)) in
    ∃ i spare', Ev (GetMessagingInfrastructure (ref_Namespace ref) (ref_Name ref)) (inr (i, spare')) ∈ tr ∧ infra = res i.

(** The namespace was seen without a project, or with one that is not bound. *)
Definition unbound (ns : string) (tr : list (event kube)) : Prop :=
  (∃ msg, Ev (GetMessagingProject ns PROJECT_RESOURCE_NAME) (inl (ApiNotFound msg)) ∈ tr) ∨
  (∃ project spare, Ev (GetMessagingProject ns PROJECT_RESOURCE_NAME) (inr (project, spare)) ∈ tr ∧
    IsBound (res project) = false).

Lemma bound_app ns infra tr tr' : bound ns infra tr → bound ns infra (tr ++ tr').
Proof.
  intros (project & spare & H1 & H2 & i & spare' & H3 & Hi). exists project, spare. split_and!; [|done|exists i, spare'];
    rewrite elem_of_app; auto.
Qed.

Lemma unbound_app ns tr tr' : unbound ns tr → unbound ns (tr ++ tr').
Proof.
  intros [(msg & H)|(project & spare & H & Hb)]; [left; exists msg|right; exists project, spare];
    rewrite elem_of_app; auto.
Qed.

(** What [LookupInfra] has found out. *)
Definition looked_up (ns : string) (infra : option MessagingInfrastructure) (err : option error) (tr : list (event kube)) : Prop :=
  match err with
  | None => ∃ i, infra = Some i ∧ bound ns i tr
  | Some e => infra = None ∧ (utilerrors_IsNotBound e || utilerrors_IsNotFound e = true → unbound ns tr)
  end.

Lemma LookupInfra_wp {S} ok ns (s : S) tr Q :
  (∀ tr ns' name x, ok tr (Ev (GetMessagingProject ns' name) x)) →
  (∀ tr ns' name x, ok tr (Ev (GetMessagingInfrastructure ns' name) x)) →
  (∀ new project infra err, looked_up ns infra err (tr ++ new) → Q (tr ++ new) (s, (project, infra, err))) →
  wp ok (LookupInfra ns s) tr Q.
Proof.
  intros Hp Hi HQ. unfold LookupInfra. repeat wp_step. split; [done|].
  set (e1 := Ev (GetMessagingProject ns PROJECT_RESOURCE_NAME) x). destruct x as [err|[project spare]].
  - assert (Ev (GetMessagingProject ns PROJECT_RESOURCE_NAME) (inl err) ∈ tr ++ [e1]) as Hin by (apply elem_of_app; right; by left).
    destruct err as [msg|msg]; repeat wp_step; apply HQ; (split; [done|]); [|done]. intros _. left. by exists msg.
  - assert (Ev (GetMessagingProject ns PROJECT_RESOURCE_NAME) (inr (project, spare)) ∈ tr ++ [e1]) as Hin
      by (apply elem_of_app; right; by left).
    destruct (IsBound (res project)) eqn:Hb; cbn [negb]; repeat wp_step.
    + split; [done|]. destruct x as [err|[infra spare']]; repeat wp_step; rewrite <-app_assoc; apply HQ.
      * split; [done|]. by destruct err.
      * exists (res infra). split; [done|]. exists project, spare. rewrite app_assoc. split_and!; [apply elem_of_app; by left|done|].
        exists infra, spare'. split; [|done]. apply elem_of_app. right. by left.
    + apply HQ. split; [done|]. intros _. right. by exists project, spare.
Qed.
