(* ===== verification/Finalizer.v ===== *)
(** Finalizers ([pkg/util/finalizer/finalizer.go]): names on an object that keep the API
    server from removing it, each with a function that takes down what the object stands
    for. *)
From stdpp Require Import base sets strings list.
From S2P Require Import Prelude ApiV1 Conditions Reconcile.

(** A finalizer of a controller with the state [S]. *)
Record Finalizer (S : Type) := {
  f_Name : string;
  Deconstruct : option (ctl S (Result * option error));
}.
Arguments Build_Finalizer {S} f_Name Deconstruct.
Arguments f_Name {S} f.
Arguments Deconstruct {S} f.

Definition hasFinalizer (name : string) (l : list string) : bool := existsb (λ e, bool_decide (name = e)) l.

(** The loop from the last element to the first; the elements after a removed one move
    up. *)
Fixpoint remove_loop (name : string) (i : nat) (l : list string) : list string :=
  match i with
  | 0 => l
  | S i' =>
      remove_loop name i'
        (if decide (l !! i' = Some name) then take i' l ++ drop (S i') l else l)
  end.

Definition removeFinalizer (name : string) (l : list string) : list string := remove_loop name (length l) l.

Section Finalizers.
Context {A : Type}.
Notation ctx := (Ctx A).

Definition SetFinalizers (fs : list string) (s : ctx) : ctx :=
  {| obj := {| res := res (obj s); DeletionTimestamp := DeletionTimestamp (obj s); Finalizers := fs |}; conds := conds s |}.

(** The loop over the expected finalizers of an object that is not being deleted. *)
Definition add_missing (finalizers : list (Finalizer ctx)) (current : list string) : bool * list string :=
  foldl (λ acc f, if hasFinalizer (f_Name f) acc.2 then acc else (true, acc.2 ++ [f_Name f])) (false, current) finalizers.

(** The loop over the finalizers of an object that is being deleted. *)
Fixpoint process_deletion (finalizers : list (Finalizer ctx)) (current : list string) : ctl ctx (Result * option error) :=
  match finalizers with
  | [] => mret (no_result, None)
  | f :: finalizers' =>
      if hasFinalizer (f_Name f) current then
        r ← match Deconstruct f with Some d => d | None => mret (no_result, None) end;
        let '(result, err) := r in
        match err with
        | Some e => mret (no_result, Some (Wrapped e "Failed processing finalizers"))
        | None =>
            if negb (r_Requeue result) && (r_RequeueAfter result <=? 0)%Z then
              _ ← writes (SetFinalizers (removeFinalizer (f_Name f) current));
              mret ({| r_Requeue := true; r_RequeueAfter := 0 |}, None)
            else mret (result, None)
        end
      else process_deletion finalizers' current
  end.

Definition ProcessFinalizers (finalizers : list (Finalizer ctx)) : ctl ctx (Result * option error) :=
  o ← reads obj;
  match DeletionTimestamp o with
  | None =>
      let '(changed, current) := add_missing finalizers (Finalizers o) in
      if (changed : bool) then
        _ ← writes (SetFinalizers current);
        mret ({| r_Requeue := true; r_RequeueAfter := 0 |}, None)
      else mret (no_result, None)
  | Some _ => process_deletion finalizers (Finalizers o)
  end.
End Finalizers.

(** ** The lists *)

Lemma hasFinalizer_spec name l : hasFinalizer name l = true ↔ name ∈ l.
Proof.
  unfold hasFinalizer. rewrite existsb_exists. split.
  - intros (e & He & Heq). apply bool_decide_eq_true in Heq. subst. by apply list_elem_of_In.
  - intros He. exists name. split; [by apply list_elem_of_In|]. by apply bool_decide_eq_true.
Qed.

Lemma remove_loop_spec name i l :
  i ≤ length l → remove_loop name i l = filter (λ e, e ≠ name) (take i l) ++ drop i l.
Proof.
  revert l. induction i as [|i IH]; intros l Hi; [done|]. cbn [remove_loop].
  destruct (lookup_lt_is_Some_2 l i) as [x Hx]; [lia|].
  rewrite (take_S_r l i x Hx), filter_app. case_decide as Hd.
  - rewrite Hx in Hd. injection Hd as ->. rewrite IH.
    + rewrite take_app_le, take_take, Nat.min_id by (rewrite length_take; lia).
      rewrite drop_app_ge by (rewrite length_take; lia). rewrite length_take, Nat.min_l, Nat.sub_diag by lia.
      rewrite (filter_cons_False _ name []) by naive_solver. by rewrite filter_nil, app_nil_r.
    + rewrite length_app, length_take, length_drop. lia.
  - rewrite IH by lia. rewrite (drop_S l x i Hx), (filter_cons_True _ x []) by (intros ->; done).
    by rewrite <-app_assoc.
Qed.

(** Removing a finalizer removes all its occurrences and nothing else. *)
Lemma removeFinalizer_spec name l : removeFinalizer name l = filter (λ e, e ≠ name) l.
Proof.
  unfold removeFinalizer. by rewrite remove_loop_spec, firstn_all, drop_all, app_nil_r.
Qed.

Section FinalizerFacts.
Context {A : Type}.
Notation ctx := (Ctx A).

Lemma add_missing_spec (fs : list (Finalizer ctx)) l :
  let '(changed, l') := add_missing fs l in
  (∃ added, l' = l ++ added ∧ ∀ e, e ∈ added → e ∈ f_Name <$> fs) ∧
  (∀ f, f ∈ fs → f_Name f ∈ l') ∧ (changed = false → l' = l) ∧ (changed = true → l' ≠ l).
Proof.
  unfold add_missing. induction fs as [|f fs IH] using rev_ind.
  { simpl. split_and!; [by exists []; rewrite app_nil_r; split; [|set_solver]|set_solver|done|done]. }
  rewrite foldl_app. simpl. destruct (foldl _ _ fs) as [changed l'].
  destruct IH as ((added & -> & Hadded) & Hall & Hsame & Hdiff). rewrite fmap_app. cbn [snd].
  destruct (hasFinalizer (f_Name f) (l ++ added)) eqn:Hf.
  - apply hasFinalizer_spec in Hf. split_and!; [|set_solver|done|done].
    exists added. split; [done|]. intros e He. apply elem_of_app. left. by apply Hadded.
  - split_and!.
    + exists (added ++ [f_Name f]). rewrite app_assoc. split; [done|]. set_solver.
    + set_solver.
    + done.
    + intros _ Heq. apply (f_equal length) in Heq. rewrite !length_app in Heq. simpl in Heq. lia.
Qed.
End FinalizerFacts.
