(* ===== verification/ControllerFacts.v ===== *)
(** What the reconciliations of the messaging controllers have in common: a policy says
    what is allowed, every step keeps the state as it should be, and a reconciliation
    does not stop half way. *)
From stdpp Require Import base gmap sets strings list.
From S2P Require Import Prelude ApiV1 Conditions KubeObjects Reconcile Finalizer.

Notation trace := (list (event kube)).

#[global] Hint Resolve bound_app unbound_app : go.

(** The policy of a controller: what it may do after what it has done, what its state is
    like, when the object it works on has been written for its finalizers, and when the
    reconciliation has reached its goal. *)
Class Policy (A : Type) `{Kind A} := {
  allowed : trace → event kube → Prop;
  inv : Ctx A → Prop;
  written : trace → Prop;
  reached : trace → Prop;
  allowed_reads tr X (e : kube X) x : reads_only e = true → allowed tr (Ev e x);
  inv_set_conds cs st : inv st → inv (set_conds cs st);
  inv_message m st : inv st → inv (set_res (with_Message m) st);
  inv_status st tr e : inv st → allowed tr (Ev (StatusUpdate (current st)) e);
}.

#[global] Hint Resolve inv_set_conds inv_message inv_status : go.

Section Steps.
Context {A : Type} `{HK : !Kind A} `{HP : !Policy A}.
Notation C := (Ctx A).
Implicit Types (st : C) (tr : trace).

(** A reconciliation that returns without an error and without a request to be called
    again has written the finalizers, which calls the controller again, or has reached
    its goal. *)
Definition settled tr (r : Result * option error) : Prop :=
  r.2 = None → r_Requeue r.1 = false → (r_RequeueAfter r.1 <= 0)%Z → written tr ∨ reached tr.

(** What a step promises: the state stays as it should, when it returns early the
    finalizers were written, and what follows can rely on [next] otherwise. *)
Definition step_ok {X} tr st (r : processorResult * option error * X) (next : X → Prop) : Prop :=
  inv st ∧ (Return r.1.1 = true → r.1.2 = None → written tr) ∧ (ShouldReturn r.1.1 r.1.2 = false → next r.2).

Lemma stage_ok {X} (p : processor A X) k st tr (next : C → X → trace → Prop) :
  wp allowed (p st) tr (λ tr' r, step_ok tr' r.1 r.2 (λ x, next r.1 x tr')) →
  (∀ x st' new, inv st' → next st' x (tr ++ new) → wp allowed (k x st') (tr ++ new) (λ tr' r, settled tr' r.2)) →
  wp allowed (stage p k st) tr (λ tr' r, settled tr' r.2).
Proof.
  intros Hp Hk. apply stage_wp. eapply wp_mono; [apply wp_grows, Hp|].
  intros tr' [st' [[result err] x]] [(Hinv & Hret & Hnext) [new ->]]. cbn [fst snd] in *.
  unfold ShouldReturn in Hnext. destruct (is_error err || Requeue result || (0 <? RequeueAfter result)%Z) eqn:Hr.
  - intros e. split; [by apply inv_status|]. intros Herr Hreq Hafter. exfalso. cbn [fst snd Result_ r_Requeue r_RequeueAfter] in *.
    destruct err; [done|]. simpl in Hr. rewrite Hreq in Hr. simpl in Hr. apply Z.ltb_lt in Hr. lia.
  - destruct (Return result) eqn:Hret'; [|by apply Hk, Hnext].
    intros Herr _ _. left. by apply Hret.
Qed.

Lemma step_ok_error {X} tr st result e (x : X) next : inv st → Return result = false → step_ok tr st (result, Some e, x) next.
Proof. intros Hi Hr. split; [done|]. cbn [fst snd]. by rewrite Hr. Qed.

Lemma step_ok_after {X} tr st d (x : X) next : inv st → (0 < d)%Z → step_ok tr st (requeue_after d, None, x) next.
Proof. intros Hi Hd. split; [done|]. split; [done|]. unfold ShouldReturn. cbn. by rewrite (proj2 (Z.ltb_lt _ _) Hd). Qed.

Lemma step_ok_requeue {X} tr st (x : X) next : inv st → step_ok tr st (requeue, None, x) next.
Proof. by intros Hi. Qed.

Lemma step_ok_done {X} tr st (x : X) (next : X → Prop) : inv st → next x → step_ok tr st (done_, None, x) next.
Proof. by intros Hi. Qed.

Lemma allowed_now tr x : allowed tr (Ev Now x).
Proof. by apply allowed_reads. Qed.

Lemma mark_wp grow t status msg st tr Q :
  (∀ new cs, Q (tr ++ new) (set_conds cs st, ())) → wp allowed (mark grow t status msg st) tr Q.
Proof.
  intros HQ. unfold mark. wp_step. apply get_condition_wp; [intros; apply allowed_now|]. intros x cs p. cbn [fst snd].
  apply set_condition_wp; [intros; apply allowed_now|]. intros x' cs'. rewrite <-app_assoc. apply HQ.
Qed.

(** ** The last step *)

Lemma last_ok (p : processor A ()) st tr :
  wp allowed (p st) tr (λ tr' r, Return r.2.1.1 = false ∧ (∀ e, allowed tr' (Ev (StatusUpdate (current r.1)) e)) ∧
    (ShouldReturn r.2.1.1 r.2.1.2 = false → reached tr')) →
  wp allowed ((r ← Process p; mret (Result_ r.1.1, r.1.2) : ctl C (Result * option error)) st) tr (λ tr' r, settled tr' r.2).
Proof.
  intros Hp. unfold Process, status_equal. cbn [negb andb]. apply ctl_wp_bind, ctl_wp_bind. eapply wp_mono; [exact Hp|].
  intros tr' [st' [[result err] []]] (Hret & Hok & Hr). cbn [fst snd] in *. unfold ShouldReturn in Hr. rewrite Hret, orb_false_r in Hr.
  destruct (is_error err || Requeue result || (0 <? RequeueAfter result)%Z) eqn:He; repeat wp_step.
  - split; [by apply Hok|]. intros Herr Hreq Hafter. exfalso. cbn [fst snd Result_ r_Requeue r_RequeueAfter] in *.
    destruct err; [done|]. simpl in He. rewrite Hreq in He. simpl in He. apply Z.ltb_lt in He. lia.
  - intros _ _ _. right. by apply Hr.
Qed.

(** ** Finalizers *)

(** The state before and after a deconstructor. *)
Definition same_finalizers st st' : Prop :=
  Finalizers (obj st') = Finalizers (obj st) ∧ DeletionTimestamp (obj st') = DeletionTimestamp (obj st).

(** What [ProcessFinalizers] does with one finalizer. [taken] is what its deconstructor
    makes sure of. *)
Definition finalizers_ok (name : string) (taken : trace → Prop) st tr st' (r : Result * option error) : Prop :=
  inv st' ∧ DeletionTimestamp (obj st') = DeletionTimestamp (obj st) ∧
  (r.2 = None → r_Requeue r.1 = false → st' = st ∧ (name ∈ Finalizers (obj st) ↔ DeletionTimestamp (obj st) = None)) ∧
  (r.2 = None → r_Requeue r.1 = true →
    (∀ f, f ≠ name → f ∈ Finalizers (obj st') ↔ f ∈ Finalizers (obj st)) ∧
    (name ∉ Finalizers (obj st') → is_Some (DeletionTimestamp (obj st)) ∧ taken tr)).

Lemma ProcessFinalizers_ok name d st tr (taken : trace → Prop) :
  inv st → (∀ fs st', inv st' → inv (SetFinalizers fs st')) →
  (is_Some (DeletionTimestamp (obj st)) → name ∈ Finalizers (obj st) →
    wp allowed (d st) tr (λ tr' r, inv r.1 ∧ same_finalizers st r.1 ∧ (r_RequeueAfter r.2.1 = 0)%Z ∧
      (r.2.2 = None → r_Requeue r.2.1 = false → taken tr'))) →
  wp allowed (ProcessFinalizers [{| f_Name := name; Deconstruct := Some d |}] st) tr
    (λ tr' r, finalizers_ok name taken st tr' r.1 r.2).
Proof.
  intros Hi Hset Hd. unfold ProcessFinalizers. repeat wp_step. destruct (DeletionTimestamp (obj st)) as [t|] eqn:Ht.
  - cbn [process_deletion f_Name]. destruct (hasFinalizer name (Finalizers (obj st))) eqn:Hh.
    + apply hasFinalizer_spec in Hh. apply ctl_wp_bind. cbn [Deconstruct]. eapply wp_mono; [by apply Hd|].
      intros tr' [st' [result err]] (Hi' & [Hf' Hdel'] & Ha & Htd). cbn [fst snd] in *. destruct err as [e|].
      { repeat wp_step. by split_and!; rewrite ?Hdel'. }
      rewrite Ha. destruct (r_Requeue result) eqn:Hr; cbn [negb andb Z.leb Z.compare]; repeat wp_step; unfold finalizers_ok; cbn [fst snd]; rewrite Ht.
      * split_and!; [done|congruence|congruence|]. intros _ _. rewrite Hf'. done.
      * split_and!; [by apply Hset|cbn [SetFinalizers obj DeletionTimestamp]; congruence|done|]. intros _ _.
        cbn [SetFinalizers obj Finalizers]. split; [|split; [done|by apply Htd]].
        intros f Hfn. rewrite removeFinalizer_spec, list_elem_of_filter. tauto.
    + repeat wp_step. unfold finalizers_ok. cbn [fst snd r_Requeue no_result]. rewrite Ht. split_and!; [done|done| |done].
      intros _ _. split; [done|]. split; [|done]. intros Hin. apply hasFinalizer_spec in Hin. congruence.
  - pose proof (add_missing_spec [{| f_Name := name; Deconstruct := Some d |}] (Finalizers (obj st))) as Ham.
    destruct (add_missing _ _) as [changed fs]. destruct Ham as ((added & -> & Hadded) & Hall & Hsame & _).
    specialize (Hall _ (list_elem_of_here _ _)). cbn [f_Name] in Hall. destruct changed; repeat wp_step; unfold finalizers_ok;
      cbn [fst snd r_Requeue no_result]; rewrite Ht.
    + split_and!; [by apply Hset|done|done|]. intros _ _. cbn [SetFinalizers obj Finalizers]. split; [|by intros []].
      intros f Hfn. rewrite elem_of_app. split; [|by left]. intros [|Hin]; [done|]. apply Hadded in Hin. cbn in Hin. set_solver.
    + split_and!; [done|done| |done]. intros _ _. split; [done|]. split; [done|]. intros _. rewrite <-(Hsame eq_refl). exact Hall.
Qed.

(** What the controllers of projects and endpoints do with the object afterwards. *)
Lemma write_back_ok `{!EqDecision A} name taken original st st' tr result :
  finalizers_ok name taken st tr st' (result, None) →
  (∀ e, (∀ f, f ≠ name → f ∈ Finalizers (obj st') ↔ f ∈ Finalizers (obj st)) →
    (name ∉ Finalizers (obj st') → is_Some (DeletionTimestamp (obj st)) ∧ taken tr) → allowed tr (Ev (Update (current st')) e)) →
  written (tr ++ [Ev (Update (current st')) None]) →
  wp allowed ((o ← reads current;
    if r_Requeue result && negb (bool_decide (original = o)) then err ← call (Update o); mret (return_, api_error <$> err, ())
    else mret ({| Requeue := r_Requeue result; RequeueAfter := 0; Return := false |}, None, ()) : processor A ()) st') tr
    (λ tr' r, step_ok tr' r.1 r.2 (λ _, r.1 = st ∧ (name ∈ Finalizers (obj st) ↔ DeletionTimestamp (obj st) = None))).
Proof.
  intros (Hi & Hdel & Hno & Hyes) Hok Hw. cbn [fst snd] in *. repeat wp_step. destruct (r_Requeue result); cbn [andb].
  - destruct (Hyes eq_refl eq_refl) as [Hfs Hfin]. case_bool_decide; cbn [negb]; repeat wp_step; [by split|].
    split; [by apply Hok|]. split; [done|]. cbn [fst snd]. split; [|by destruct x]. intros _ He. by destruct x.
  - destruct (Hno eq_refl eq_refl) as [-> Hfin]. repeat wp_step. by split.
Qed.
End Steps.

#[global] Hint Resolve step_ok_error step_ok_after step_ok_requeue step_ok_done : go.
#[global] Hint Extern 1 (0 < _)%Z => exact eq_refl : go.

(** Steps through the conditions. *)
Ltac wp_go :=
  repeat first
    [ wp_step
    | apply get_condition_wp; [intros; apply allowed_now|intros ? ? ?]; cbn [fst snd]
    | apply set_condition_wp; [intros; apply allowed_now|intros ? ?]; cbn [fst snd] ].
