(* ===== verification/Certs.v ===== *)
(** The controller of certificates ([pkg/controller/messaginginfra/cert]): the authorities
    of the infrastructures and of the projects, and the certificates of components and
    endpoints, which it issues and renews, in the secrets that hold them. *)
From stdpp Require Import base gmap strings list.
From S2P Require Import Prelude ApiV1 KubeObjects Conditions Reconcile.

(** ** The standard library *)

(** PEM, X.509, PKCS #1, TLS and SHA-256, as far as they are used. The type of a PEM block
    is a label that is not looked at when it is read. *)
Class X509 := {
  pem_Encode : string → string → string;
  pem_Decode : string → option string;
  x509_CreateCertificate : Certificate → Certificate → Z * Z → PrivateKey → error + string;
  x509_ParseCertificate : string → error + Certificate;
  x509_MarshalPKCS1PrivateKey : PrivateKey → string;
  x509_ParsePKCS1PrivateKey : string → error + PrivateKey;
  tls_X509KeyPair : bytes → bytes → option error;
  sha256_hex : string → string;
}.

(** A time as certificates have it: in seconds. *)
Definition seconds (t : Z) : Z := (t / Second * Second)%Z.

Definition encoded (c : Certificate) : Certificate :=
  {| SerialNumber := SerialNumber c; CommonName := CommonName c; NotBefore := seconds (NotBefore c);
     NotAfter := seconds (NotAfter c); DNSNames := DNSNames c; IsCA := IsCA c |}.

(** The labels of the blocks that are written. *)
Definition key_label : string := "RSA PRIVATE KEY".
Definition cert_label : string := "CERTIFICATE".

(** What is written is read again; a certificate goes with the key it was issued for. *)
Class X509Laws `{X509} := {
  pem_Decode_Encode label block : label ∈ [key_label; cert_label] → pem_Decode (pem_Encode label block) = Some block;
  ParseCertificate_Create template parent pub signer der :
    x509_CreateCertificate template parent pub signer = inr der → x509_ParseCertificate der = inr (encoded template);
  ParsePKCS1_Marshal k : x509_ParsePKCS1PrivateKey (x509_MarshalPKCS1PrivateKey k) = inr k;
  X509KeyPair_Create template parent k signer der :
    x509_CreateCertificate template parent (PublicKey k) signer = inr der →
    tls_X509KeyPair (Some (pem_Encode cert_label der)) (Some (pem_Encode key_label (x509_MarshalPKCS1PrivateKey k))) = None;
}.

Definition Hour : Z := (3600 * Second)%Z.

Record CertController := {
  caExpirationTime : Z;
  certExpirationTime : Z;
}.

(** The controller that the reconcilers of projects, endpoints and infrastructures make. *)
Definition certController : CertController := {| caExpirationTime := 24 * 30 * Hour; certExpirationTime := 24 * Hour |}.

(** The key pair, as it is stored, and its validity. *)
Record CertInfo := {
  ci_Certificate : bytes * bytes;
  ci_NotBefore : Z;
  ci_NotAfter : Z;
}.

Definition ANNOTATION_CA_DIGEST : string := "enmasse.io/ca-digest".

Record certConfig := {
  cfg_ca : string;
  cfg_key : string;
  cfg_crt : string;
  cfg_keystore : string;
  cfg_truststore : string;
}.

(** The names of secrets. *)
Definition GetCertSecretName (name : string) : string := name +:+ "-cert".
Definition GetProjectCaSecretName (namespace : string) : string := namespace +:+ "-project-ca".
Definition GetProjectSecretName (infraName : string) : string := infraName +:+ ".project-certs".

(** Certificates are renewed an hour before they expire. *)
Definition shouldRenewCert (now expiryDate : Z) : bool := (expiryDate <? now + Hour)%Z.

(** ** Generation ([internal.go]) *)

Section Generation.
Context `{HX : !X509} {S : Type}.
Notation M A := (ctl S (error + A)).

Definition ok {A} (a : A) : M A := mret (inr a).
Definition fail {A} (e : error) : M A := mret (inl e).
Definition lift {A} (r : error + A) : M A := mret r.

Definition parsePemCertificate (d : bytes) : error + Certificate :=
  match pem_Decode (default "" d) with
  | None => inl (Errorf "Failed to parse PEM certificate")
  | Some block => x509_ParseCertificate block
  end.

Definition parsePemKey (d : bytes) : error + PrivateKey :=
  match pem_Decode (default "" d) with
  | None => inl (Errorf "Failed to parse PEM private key")
  | Some block => x509_ParsePKCS1PrivateKey block
  end.

Definition encodePemKey (k : PrivateKey) : bytes := Some (pem_Encode key_label (x509_MarshalPKCS1PrivateKey k)).
Definition encodePemCert (der : string) : bytes := Some (pem_Encode cert_label der).

Definition getCertExpiryDate (d : bytes) : error + Z :=
  match parsePemCertificate d with inl e => inl e | inr c => inr (NotAfter c) end.

(** The key that exists, or a new one. *)
Definition key_or_new (pem : bytes) : M PrivateKey :=
  match pem with None => call GenerateKey | Some _ => lift (parsePemKey pem) end.

(** The serial number of a first certificate, or the one after that of the certificate
    that exists. *)
Definition next_serial (pem : bytes) : error + Z :=
  match pem with
  | None => inr 2020%Z
  | Some _ => match parsePemCertificate pem with inl e => inl e | inr c => inr (SerialNumber c + 1)%Z end
  end.

Definition generateCa (now : Z) (caKey caCert : bytes) (expiryDate : Z) : M (bytes * bytes) :=
  try caPrivateKey ← key_or_new caKey;
  try serialNumber ← lift (next_serial caCert);
  let ca := {| SerialNumber := serialNumber; CommonName := ""; NotBefore := now; NotAfter := expiryDate;
               DNSNames := []; IsCA := true |} in
  try caBytes ← lift (x509_CreateCertificate ca ca (PublicKey caPrivateKey) caPrivateKey);
  ok (encodePemKey caPrivateKey, encodePemCert caBytes).

Definition generateCert (now : Z) (keyPem certPem caKeyPem caCertPem : bytes) (expiryDate : Z)
    (commonName : string) (dnsNames : list string) : M (bytes * bytes * bytes * bytes) :=
  try caKey ← lift (parsePemKey caKeyPem);
  try caCert ← lift (parsePemCertificate caCertPem);
  try certPrivateKey ← key_or_new keyPem;
  try serialNumber ← lift (next_serial certPem);
  let cert := {| SerialNumber := serialNumber; CommonName := commonName; NotBefore := now; NotAfter := expiryDate;
                 DNSNames := dnsNames; IsCA := false |} in
  try certBytes ← lift (x509_CreateCertificate cert caCert (PublicKey certPrivateKey) caKey);
  try c ← lift (x509_ParseCertificate certBytes);
  try keyStore ← call (Pkcs12Encode certPrivateKey c caCert);
  try trustStore ← call (Pkcs12EncodeTrustStore caCert);
  ok (encodePemKey certPrivateKey, encodePemCert certBytes, Some keyStore, Some trustStore).

(** ** The contents of secrets *)

Definition getDigest (d : bytes) : string := sha256_hex (default "" d).

Definition GetCertInfo (pemCert pemKey : bytes) : error + CertInfo :=
  match parsePemCertificate pemCert with
  | inl e => inl e
  | inr cert =>
      match tls_X509KeyPair pemCert pemKey with
      | Some e => inl e
      | None => inr {| ci_Certificate := (pemCert, pemKey); ci_NotBefore := NotBefore cert; ci_NotAfter := NotAfter cert |}
      end
  end.

Context (c : CertController).

Definition has_key (key : string) (s : Secret) : bool := bool_decide (is_Some (Data s !! key)).

Definition applyCaSecret (secret : Secret) : M Secret :=
  let secret := ApplyDefaultLabels "" (sec_Name secret) secret in
  now ← call Now;
  let validFrom := (now - Hour)%Z in
  let hasCert := has_key "tls.key" secret in
  try expiryDate ← lift (if hasCert then getCertExpiryDate (data secret "tls.crt") else inr 0%Z);
  if negb hasCert then
    try (caKey, caCert) ← generateCa validFrom None None (now + caExpirationTime c);
    ok (set_Data (<["tls.crt" := caCert]> (<["tls.key" := caKey]> ∅)) secret)
  else if shouldRenewCert now expiryDate then
    try (caKey, caCert) ← generateCa validFrom (data secret "tls.key") (data secret "tls.crt") (now + caExpirationTime c);
    ok (set_Data (<["tls.crt" := caCert]> (<["tls.key" := caKey]> ∅)) secret)
  else ok secret.

(** One entry: it is set when it has a name, and deleted otherwise. *)
Definition put (key : string) (value : bytes) (d : gmap string bytes) : gmap string bytes :=
  if decide (key ≠ "") then <[key := value]> d else delete key d.

(** [secret.Data = make(...)] and the five entries. *)
Definition cert_data (config : certConfig) (key cert keystore truststore ca : bytes) : gmap string bytes :=
  put (cfg_truststore config) truststore
    (put (cfg_keystore config) keystore (put (cfg_ca config) ca (put (cfg_crt config) cert (put (cfg_key config) key ∅)))).

(** A new certificate in the secret: the old key and certificate are used when the secret
    has them. *)
Definition issue (config : certConfig) (caSecret secret : Secret) (validFrom expiryDate : Z) (oldKey oldCrt : bytes)
    (commonName : string) (dnsNames : list string) : M (Secret * CertInfo) :=
  try (key, cert, keystore, truststore) ←
    generateCert validFrom oldKey oldCrt (data caSecret "tls.key") (data caSecret "tls.crt") expiryDate commonName dnsNames;
  let secret := set_Data (cert_data config key cert keystore truststore (data caSecret "tls.crt")) secret in
  match tls_X509KeyPair cert key with
  | Some e => fail e
  | None =>
      ok (set_Annotation ANNOTATION_CA_DIGEST (getDigest (data caSecret "tls.crt")) secret,
          {| ci_Certificate := (cert, key); ci_NotBefore := validFrom; ci_NotAfter := expiryDate |})
  end.

Definition applyCertSecret (secret caSecret : Secret) (config : certConfig) (commonName : string) (dnsNames : list string)
    : M (Secret * CertInfo) :=
  if decide (cfg_key config = "") then fail (Errorf "key config must be set")
  else if decide (cfg_crt config = "") then fail (Errorf "crt config must be set")
  else
    try caExpiryDate ← lift (getCertExpiryDate (data caSecret "tls.crt"));
    let secret := ApplyDefaultLabels "" (sec_Name secret) secret in
    let hasCert := has_key (cfg_key config) secret in
    try expiryDate ← lift (if hasCert then getCertExpiryDate (data secret (cfg_crt config)) else inr 0%Z);
    let expectedCaDigest := default "" (sec_Annotations secret !! ANNOTATION_CA_DIGEST) in
    let actualCaDigest := getDigest (data caSecret "tls.crt") in
    now ← call Now;
    let validFrom := (now - Hour)%Z in
    if negb hasCert then
      issue config caSecret secret validFrom (now + certExpirationTime c) None None commonName dnsNames
    else if shouldRenewCert now expiryDate || negb (bool_decide (expectedCaDigest = actualCaDigest)) then
      let expiryDate := (if caExpiryDate <? now + certExpirationTime c then caExpiryDate else now + certExpirationTime c)%Z in
      issue config caSecret secret validFrom expiryDate (data secret (cfg_key config)) (data secret (cfg_crt config))
        commonName dnsNames
    else
      try info ← lift (GetCertInfo (data secret (cfg_crt config)) (data secret (cfg_key config)));
      ok (secret, info).

(** ** The operations *)

Definition ReconcileCa (infra : MessagingInfrastructure) : M bytes :=
  let ns := Namespace (i_meta infra) in
  try (secret, _) ← CreateOrUpdate SecretKind ns (Name (i_meta infra) +:+ "-ca") (λ secret,
    try owners ← call (SetControllerReference (i_meta infra) (sec_Owners secret));
    try secret ← applyCaSecret (set_Owners owners secret);
    ok (secret, ()));
  ok (data secret "tls.crt").

Definition ReconcileProjectCa (infra : MessagingInfrastructure) (namespace : string) : M () :=
  try (_, _) ← CreateOrUpdate SecretKind (Namespace (i_meta infra)) (GetProjectCaSecretName namespace) (λ secret,
    try secret ← applyCaSecret secret; ok (secret, ()));
  ok ().

(** The entries of an endpoint in the secret that the endpoints share. *)
Definition endpoint_config (endpoint : MessagingEndpoint) : certConfig :=
  let prefix := Namespace (e_meta endpoint) +:+ "." +:+ Name (e_meta endpoint) in
  {| cfg_ca := ""; cfg_key := prefix +:+ ".key"; cfg_crt := prefix +:+ ".crt"; cfg_keystore := ""; cfg_truststore := "" |}.

(** The secret is written when the entries of the endpoint have changed. *)
Definition update_changed {A} (infra : MessagingInfrastructure) (config : certConfig) (before after : Secret) (a : A) : M A :=
  if negb (bool_decide (data before (cfg_key config) = data after (cfg_key config))) ||
     negb (bool_decide (data before (cfg_crt config) = data after (cfg_crt config)))
  then
    e ← call (UpdateObject SecretKind (Namespace (i_meta infra)) (GetProjectSecretName (Name (i_meta infra))) after);
    match e with Some e => fail (api_error e) | None => ok a end
  else ok a.

Definition ReconcileEndpointCert (infra : MessagingInfrastructure) (endpoint : MessagingEndpoint) : M CertInfo :=
  let ns := Namespace (i_meta infra) in
  try caSecret ← get_object SecretKind ns (Namespace (e_meta endpoint) +:+ "-project-ca");
  try secret ← get_object SecretKind ns (GetProjectSecretName (Name (i_meta infra)));
  let config := endpoint_config endpoint in
  try (secret', info) ←
    applyCertSecret secret caSecret config (es_StatusHost (e_Status endpoint)) [es_StatusHost (e_Status endpoint)];
  update_changed infra config secret secret' info.

Definition ReconcileEndpointCertFromValues (infra : MessagingInfrastructure) (endpoint : MessagingEndpoint) (key value : bytes)
    : M () :=
  try secret ← get_object SecretKind (Namespace (i_meta infra)) (GetProjectSecretName (Name (i_meta infra)));
  let config := endpoint_config endpoint in
  update_changed infra config secret
    (set_Data (<[cfg_crt config := value]> (<[cfg_key config := key]> (Data secret))) secret) ().

(** [len] of a slice of bytes. *)
Definition nonempty (d : bytes) : bool := negb (bool_decide (default "" d = "")).

Definition DeleteEndpointCert (infra : MessagingInfrastructure) (endpoint : MessagingEndpoint) : M () :=
  try secret ← get_object SecretKind (Namespace (i_meta infra)) (GetProjectSecretName (Name (i_meta infra)));
  let config := endpoint_config endpoint in
  if nonempty (data secret (cfg_key config)) || nonempty (data secret (cfg_crt config)) then
    e ← call (UpdateObject SecretKind (Namespace (i_meta infra)) (GetProjectSecretName (Name (i_meta infra)))
                (set_Data (delete (cfg_crt config) (delete (cfg_key config) (Data secret))) secret));
    match e with Some e => fail (api_error e) | None => ok () end
  else ok ().

Definition component_config : certConfig :=
  {| cfg_ca := "ca.crt"; cfg_key := "tls.key"; cfg_crt := "tls.crt"; cfg_keystore := "keystore.p12"; cfg_truststore := "truststore.p12" |}.

Definition ReconcileCert (infra : MessagingInfrastructure) (object : ObjectMeta) (commonName : string) (dnsNames : list string)
    : M CertInfo :=
  let ns := Namespace (i_meta infra) in
  try caSecret ← get_object SecretKind ns (Name (i_meta infra) +:+ "-ca");
  try (_, info) ← CreateOrUpdate SecretKind ns (GetCertSecretName (Name object)) (λ secret,
    try owners ← call (SetControllerReference object (sec_Owners secret));
    applyCertSecret (set_Owners owners secret) caSecret component_config commonName dnsNames);
  ok info.
End Generation.
