(* ===== verification/CertFacts.v ===== *)
(** What the controller of certificates leaves in the secrets. *)
From stdpp Require Import base gmap strings list.
From S2P Require Import Prelude ApiV1 KubeObjects Conditions Reconcile Certs.

Section CertFacts.
Context `{HX : !X509} `{HL : !X509Laws}.
Context {S : Type} (ok : list (event kube) → event kube → Prop).
Hypothesis ok_reads : ∀ tr X (e : kube X) x, reads_only e = true → ok tr (Ev e x).
Implicit Types (s : S) (tr : list (event kube)).

(** ** Generation *)

Lemma parse_encoded_cert template parent pub signer der :
  x509_CreateCertificate template parent pub signer = inr der →
  parsePemCertificate (encodePemCert der) = inr (encoded template).
Proof. intros H. unfold parsePemCertificate, encodePemCert. simpl. rewrite pem_Decode_Encode by (right; by left). by eapply ParseCertificate_Create. Qed.

Lemma parse_encoded_key k : parsePemKey (encodePemKey k) = inr k.
Proof. unfold parsePemKey, encodePemKey. simpl. rewrite pem_Decode_Encode by (by left). apply ParsePKCS1_Marshal. Qed.

(** The key of a certificate: a new one, or the one that was there. *)
Definition keeps (pem : bytes) (k : PrivateKey) : Prop := pem = None ∨ parsePemKey pem = inr k.

Lemma key_or_new_wp pem s tr Q :
  (∀ new r, (∀ k, r = inr k → keeps pem k) → Q (tr ++ new) (s, r)) → wp ok (key_or_new pem s) tr Q.
Proof.
  intros HQ. unfold key_or_new, lift. destruct pem as [p|]; repeat wp_step.
  - rewrite <-(app_nil_r tr). apply HQ. intros k Hk. by right.
  - split; [by apply ok_reads|]. apply HQ. intros k _. by left.
Qed.

(** What a new pair of a key and a certificate is. *)
Definition issued (keyPem certPem : bytes) (template : Z → Certificate) (key cert : bytes) : Prop :=
  ∃ k serial, keeps keyPem k ∧ next_serial certPem = inr serial ∧ key = encodePemKey k ∧
    parsePemCertificate cert = inr (encoded (template serial)) ∧ tls_X509KeyPair cert key = None.

Lemma generateCa_wp now caKey caCert expiryDate s tr Q :
  (∀ new r, (∀ key cert, r = inr (key, cert) →
      issued caKey caCert (λ n, {| SerialNumber := n; CommonName := ""; NotBefore := now; NotAfter := expiryDate;
                                   DNSNames := []; IsCA := true |}) key cert) → Q (tr ++ new) (s, r)) →
  wp ok (generateCa now caKey caCert expiryDate s) tr Q.
Proof.
  intros HQ. unfold generateCa, lift, Certs.ok. repeat wp_step. apply key_or_new_wp. intros new [e|k] Hk; cbn [fst snd].
  { by apply HQ. }
  destruct (next_serial caCert) as [e|n] eqn:Hn; repeat wp_step; [by apply HQ|].
  destruct (x509_CreateCertificate _ _ _ _) as [e|der] eqn:Hder; repeat wp_step; [by apply HQ|].
  apply HQ. intros key cert [= <- <-]. exists k, n. split_and!; [by apply Hk|done|done|by eapply parse_encoded_cert|].
  by eapply X509KeyPair_Create.
Qed.

Lemma generateCert_wp now keyPem certPem caKeyPem caCertPem expiryDate commonName dnsNames s tr Q :
  (∀ new r, (∀ key cert ks ts, r = inr (key, cert, ks, ts) →
      issued keyPem certPem (λ n, {| SerialNumber := n; CommonName := commonName; NotBefore := now; NotAfter := expiryDate;
                                     DNSNames := dnsNames; IsCA := false |}) key cert) → Q (tr ++ new) (s, r)) →
  wp ok (generateCert now keyPem certPem caKeyPem caCertPem expiryDate commonName dnsNames s) tr Q.
Proof.
  intros HQ. unfold generateCert, lift, Certs.ok. repeat wp_step.
  assert (∀ e, Q tr (s, inl e)) as HQ' by (intros e; rewrite <-(app_nil_r tr); by apply HQ).
  destruct (parsePemKey caKeyPem) as [e|caKey]; [done|]. repeat wp_step.
  destruct (parsePemCertificate caCertPem) as [e|caCert]; [done|]. repeat wp_step.
  apply key_or_new_wp. intros new [e|k] Hk; cbn [fst snd]; [by apply HQ|]. repeat wp_step.
  destruct (next_serial certPem) as [e|n] eqn:Hn; [by apply HQ|]. repeat wp_step.
  destruct (x509_CreateCertificate _ _ _ _) as [e|der] eqn:Hder; [by apply HQ|]. repeat wp_step.
  destruct (x509_ParseCertificate der) as [e|c]; [by apply HQ|]. repeat wp_step.
  split; [by apply ok_reads|]. destruct x as [e|ks]; [rewrite <-app_assoc; by apply HQ|]. repeat wp_step.
  split; [by apply ok_reads|]. destruct x as [e|ts]; repeat wp_step; rewrite <-!app_assoc; apply HQ; [done|].
  intros key cert ks' ts' [= <- <- <- <-]. exists k, n.
  split_and!; [by apply Hk|done|done|by eapply parse_encoded_cert|]. by eapply X509KeyPair_Create.
Qed.
(** ** The entries of a secret *)

Definition names (config : certConfig) : list string :=
  [cfg_key config; cfg_crt config; cfg_ca config; cfg_keystore config; cfg_truststore config].

(** The key and the certificate have entries of their own. *)
Definition separate (config : certConfig) : Prop :=
  cfg_key config ≠ "" ∧ cfg_crt config ≠ "" ∧ cfg_key config ≠ cfg_crt config ∧
  ∀ n, n ∈ [cfg_ca config; cfg_keystore config; cfg_truststore config] → n ≠ cfg_key config ∧ n ≠ cfg_crt config.

Lemma lookup_put_ne key value d k : k ≠ key → put key value d !! k = d !! k.
Proof. intros Hk. unfold put. case_decide; [by rewrite lookup_insert_ne|by rewrite lookup_delete_ne]. Qed.

Lemma lookup_put_eq key value d : key ≠ "" → put key value d !! key = Some value.
Proof. intros Hk. unfold put. by rewrite decide_True, lookup_insert_eq. Qed.

Lemma lookup_put_empty key value d : d !! "" = None → put key value d !! "" = None.
Proof.
  intros Hd. destruct (decide (key = "")) as [->|Hk]; [|by rewrite lookup_put_ne]. unfold put.
  rewrite decide_False by tauto. by rewrite lookup_delete_eq.
Qed.

Lemma cert_data_spec config key cert ks ts ca :
  separate config →
  cert_data config key cert ks ts ca !! cfg_key config = Some key ∧
  cert_data config key cert ks ts ca !! cfg_crt config = Some cert ∧
  ∀ k, k = "" ∨ k ∉ names config → cert_data config key cert ks ts ca !! k = None.
Proof.
  intros (Hk & Hc & Hkc & Hother). unfold cert_data.
  destruct (Hother (cfg_ca config)), (Hother (cfg_keystore config)), (Hother (cfg_truststore config)); [set_solver..|].
  split_and!.
  - by rewrite !lookup_put_ne, lookup_put_eq by congruence.
  - by rewrite 3!lookup_put_ne, lookup_put_eq by congruence.
  - intros k [->|Hin]; [by repeat apply lookup_put_empty|]. unfold names in Hin. rewrite !not_elem_of_cons in Hin.
    by rewrite !lookup_put_ne by tauto.
Qed.

(** The secret holds the certificate, and the key it goes with. *)
Definition holds (config : certConfig) (secret : Secret) (cert : Certificate) : Prop :=
  parsePemCertificate (data secret (cfg_crt config)) = inr cert ∧
  tls_X509KeyPair (data secret (cfg_crt config)) (data secret (cfg_key config)) = None.

Definition digest_of (secret : Secret) : string := default "" (sec_Annotations secret !! ANNOTATION_CA_DIGEST).

(** The secret has nothing but a new certificate. *)
Record renewed (config : certConfig) (caSecret secret' : Secret) (oldKey oldCrt : bytes)
    (template : Z → Certificate) (info : CertInfo) (cert : Certificate) : Prop := {
  renewed_issued : issued oldKey oldCrt template (data secret' (cfg_key config)) (data secret' (cfg_crt config));
  renewed_cert : ∃ serial, next_serial oldCrt = inr serial ∧ cert = encoded (template serial);
  renewed_holds : holds config secret' cert;
  renewed_key : is_Some (Data secret' !! cfg_key config);
  renewed_digest : digest_of secret' = getDigest (data caSecret "tls.crt");
  renewed_others k : k = "" ∨ k ∉ names config → Data secret' !! k = None;
  renewed_info : ci_Certificate info = (data secret' (cfg_crt config), data secret' (cfg_key config));
}.

Lemma issue_wp config caSecret secret validFrom expiryDate oldKey oldCrt commonName dnsNames s tr Q :
  separate config →
  (∀ new r, (∀ secret' info, r = inr (secret', info) → ∃ cert,
      renewed config caSecret secret' oldKey oldCrt
        (λ n, {| SerialNumber := n; CommonName := commonName; NotBefore := validFrom; NotAfter := expiryDate;
                 DNSNames := dnsNames; IsCA := false |}) info cert ∧
      ci_NotBefore info = validFrom ∧ ci_NotAfter info = expiryDate) → Q (tr ++ new) (s, r)) →
  wp ok (issue config caSecret secret validFrom expiryDate oldKey oldCrt commonName dnsNames s) tr Q.
Proof.
  intros Hsep HQ. unfold issue, fail, Certs.ok. wp_step. apply generateCert_wp. intros new [e|[[[key cert] ks] ts]] Hr; cbn [fst snd].
  { by apply HQ. }
  destruct (tls_X509KeyPair cert key) as [e|] eqn:Hpair; repeat wp_step; apply HQ; [done|].
  intros secret' info [= <- <-]. specialize (Hr _ _ _ _ eq_refl) as Hi. pose proof Hi as (k & n & Hk & Hn & Hkey & Hp & _).
  destruct (cert_data_spec config key cert ks ts (data caSecret "tls.crt") Hsep) as (H1 & H2 & H3).
  eexists. split; [|done]. set (secret' := set_Annotation _ _ _).
  assert (data secret' (cfg_key config) = key) as Hdk by (exact (f_equal mjoin H1)).
  assert (data secret' (cfg_crt config) = cert) as Hdc by (exact (f_equal mjoin H2)).
  split; unfold holds; rewrite ?Hdk, ?Hdc; [done|by exists n|done|by eexists|..|done|done].
  unfold digest_of. cbn [secret' set_Annotation sec_Annotations]. by rewrite lookup_insert_eq.
Qed.

Context (c : CertController).

(** What [applyCertSecret] has done at the time [now]: the certificate is kept, or there
    is a new one. *)
Definition applied (secret caSecret : Secret) (config : certConfig) (commonName : string) (dnsNames : list string)
    (now : Z) (secret' : Secret) (info : CertInfo) : Prop :=
  ∃ cert caExpiry, getCertExpiryDate (data caSecret "tls.crt") = inr caExpiry ∧
   ((is_Some (Data secret !! cfg_key config) ∧ Data secret' = Data secret ∧ sec_Annotations secret' = sec_Annotations secret ∧ holds config secret' cert ∧
     digest_of secret' = getDigest (data caSecret "tls.crt") ∧ (now + Hour <= NotAfter cert)%Z ∧
     info = {| ci_Certificate := (data secret' (cfg_crt config), data secret' (cfg_key config));
               ci_NotBefore := NotBefore cert; ci_NotAfter := NotAfter cert |}) ∨
    (let expiryDate := (if has_key (cfg_key config) secret then Z.min caExpiry (now + certExpirationTime c) else now + certExpirationTime c)%Z in
     renewed config caSecret secret' (data secret (cfg_key config))
       (if has_key (cfg_key config) secret then data secret (cfg_crt config) else None)
       (λ n, {| SerialNumber := n; CommonName := commonName; NotBefore := now - Hour; NotAfter := expiryDate;
                DNSNames := dnsNames; IsCA := false |}) info cert ∧
     ci_NotBefore info = (now - Hour)%Z ∧ ci_NotAfter info = expiryDate)).

Lemma applyCertSecret_wp secret caSecret config commonName dnsNames s tr Q :
  separate config →
  (∀ new r, (∀ secret' info, r = inr (secret', info) →
      ∃ now, Ev Now now ∈ new ∧ applied secret caSecret config commonName dnsNames now secret' info) → Q (tr ++ new) (s, r)) →
  wp ok (applyCertSecret c secret caSecret config commonName dnsNames s) tr Q.
Proof.
  intros Hsep HQ. pose proof Hsep as (Hk & Hc & _). unfold applyCertSecret, lift. rewrite !decide_False by done.
  assert (∀ e, Q tr (s, inl e)) as HQ' by (intros e; rewrite <-(app_nil_r tr); by apply HQ).
  repeat wp_step. destruct (getCertExpiryDate (data caSecret "tls.crt")) as [e|caExpiry] eqn:Hca; [done|]. repeat wp_step.
  set (secret1 := ApplyDefaultLabels "" (sec_Name secret) secret).
  assert (∀ k, data secret1 k = data secret k) as Hd by done.
  assert (has_key (cfg_key config) secret1 = has_key (cfg_key config) secret) as Hhas by done.
  change (sec_Annotations secret1) with (sec_Annotations secret). rewrite Hhas, !Hd.
  destruct (has_key (cfg_key config) secret) eqn:Hh.
  - destruct (getCertExpiryDate (data secret (cfg_crt config))) as [e|expiryDate] eqn:He; [done|]. repeat wp_step.
    split; [by apply ok_reads|]. cbn [negb].
    destruct (shouldRenewCert x expiryDate || negb _) eqn:Hr.
    + apply issue_wp; [done|]. intros new r Hr'. rewrite <-app_assoc. apply HQ. intros secret' info ->.
      destruct (Hr' _ _ eq_refl) as (cert & Hren & Hnb & Hna). exists x. split; [set_solver|]. exists cert, caExpiry. split; [done|]. right.
      rewrite Hh. assert ((if caExpiry <? x + certExpirationTime c then caExpiry else x + certExpirationTime c) =
        Z.min caExpiry (x + certExpirationTime c))%Z as <-; [|done].
      destruct (Z.ltb_spec caExpiry (x + certExpirationTime c)); lia.
    + apply orb_false_iff in Hr as [Hexp Hdig]. apply negb_false_iff, bool_decide_eq_true in Hdig. apply Z.ltb_ge in Hexp.
      repeat wp_step. unfold GetCertInfo, getCertExpiryDate in *.
      destruct (parsePemCertificate (data secret (cfg_crt config))) as [|cert] eqn:Hp; [done|]. injection He as <-.
      destruct (tls_X509KeyPair _ _) as [e|] eqn:Hpair; repeat wp_step; apply HQ; [done|].
      intros secret' info [= <- <-]. exists x. split; [set_solver|]. exists cert, caExpiry. split; [done|]. left. apply bool_decide_eq_true in Hh.
      split_and!; [done|done|done|by split|done|lia|done].
  - repeat wp_step. split; [by apply ok_reads|]. cbn [negb].
    apply issue_wp; [done|]. intros new r Hr'. rewrite <-app_assoc. apply HQ. intros secret' info ->.
    destruct (Hr' _ _ eq_refl) as (cert & Hren & Hnb & Hna). exists x. split; [set_solver|]. exists cert, caExpiry. split; [done|]. right.
    rewrite Hh. assert (data secret (cfg_key config) = None) as ->; [|done].
    apply bool_decide_eq_false in Hh. unfold data. destruct (Data secret !! cfg_key config); [|done]. destruct Hh. by eexists.
Qed.
(** ** Authorities *)

(** What [applyCaSecret] has done at the time [now]: the authority is kept, or there is a
    new certificate of it. *)
Definition ca_applied (secret : Secret) (now : Z) (secret' : Secret) : Prop :=
  (∃ cert, Data secret' = Data secret ∧ parsePemCertificate (data secret "tls.crt") = inr cert ∧ (now + Hour <= NotAfter cert)%Z) ∨
  issued (data secret "tls.key") (if has_key "tls.key" secret then data secret "tls.crt" else None)
    (λ n, {| SerialNumber := n; CommonName := ""; NotBefore := now - Hour; NotAfter := now + caExpirationTime c;
             DNSNames := []; IsCA := true |}) (data secret' "tls.key") (data secret' "tls.crt").

Lemma applyCaSecret_wp secret s tr Q :
  (∀ new r, (∀ secret', r = inr secret' → ∃ now, Ev Now now ∈ new ∧ ca_applied secret now secret') → Q (tr ++ new) (s, r)) →
  wp ok (applyCaSecret c secret s) tr Q.
Proof.
  intros HQ. unfold applyCaSecret, lift, Certs.ok. repeat wp_step. split; [by apply ok_reads|]. repeat wp_step.
  set (secret1 := ApplyDefaultLabels "" (sec_Name secret) secret).
  assert (∀ k, data secret1 k = data secret k) as Hd by done. rewrite !Hd.
  change (has_key "tls.key" secret1) with (has_key "tls.key" secret). destruct (has_key "tls.key" secret) eqn:Hh; cbn [negb].
  - destruct (getCertExpiryDate (data secret "tls.crt")) as [e|expiryDate] eqn:He; [by apply HQ|]. repeat wp_step.
    destruct (shouldRenewCert x expiryDate) eqn:Hr.
    + wp_step. apply generateCa_wp. intros new [e|[key cert]] Hi; cbn [fst snd]; repeat wp_step; rewrite <-app_assoc; apply HQ; [done|].
      intros secret' [= <-]. exists x. split; [set_solver|]. right. rewrite Hh. by apply Hi.
    + repeat wp_step. apply HQ. intros secret' [= <-]. exists x. split; [set_solver|]. left. unfold getCertExpiryDate in He.
      destruct (parsePemCertificate (data secret "tls.crt")) as [|cert]; [done|]. injection He as <-. exists cert.
      apply Z.ltb_ge in Hr. split_and!; [done|done|lia].
  - repeat wp_step. apply generateCa_wp. intros new [e|[key cert]] Hi; cbn [fst snd]; repeat wp_step; rewrite <-app_assoc; apply HQ; [done|].
    intros secret' [= <-]. exists x. split; [set_solver|]. right. rewrite Hh. assert (data secret "tls.key" = None) as ->; [|by apply Hi].
    apply bool_decide_eq_false in Hh. unfold data. destruct (Data secret !! "tls.key"); [|done]. destruct Hh. by eexists.
Qed.

(** The authority of a project is stored. *)
Definition store_ca (infra : MessagingInfrastructure) (namespace : string) (secret : Secret) (e : option ApiError) : event kube :=
  Ev (Store SecretKind (Namespace (i_meta infra)) (GetProjectCaSecretName namespace) secret) e.

Lemma ReconcileProjectCa_wp infra namespace s tr Q :
  (∀ new secret now secret' x,
    Ev (Existing SecretKind (Namespace (i_meta infra)) (GetProjectCaSecretName namespace)) (inr secret) ∈ new →
    ca_applied secret now secret' → ok (tr ++ new) (store_ca infra namespace secret' x)) →
  (∀ new r, (r = inr () → ∃ secret', store_ca infra namespace secret' None ∈ new) → Q (tr ++ new) (s, r)) →
  wp ok (ReconcileProjectCa c infra namespace s) tr Q.
Proof.
  intros Hok HQ. unfold ReconcileProjectCa, Certs.ok. wp_step. apply CreateOrUpdate_wp; [intros; by apply ok_reads|intros; by apply HQ|].
  intros secret. wp_step. apply applyCaSecret_wp. intros new [e|secret'] Ha; repeat wp_step; [rewrite <-app_assoc; by apply HQ|].
  destruct (Ha _ eq_refl) as (now & _ & Hca). intros e. rewrite <-app_assoc. split; [by apply (Hok _ secret now); [set_solver|]|].
  rewrite <-!app_assoc. destruct e; repeat wp_step; apply HQ; [done|]. intros _. exists secret'. set_solver.
Qed.

(** The authority of an infrastructure. *)
Lemma ReconcileCa_wp infra s tr Q :
  (∀ new secret now secret' x,
    Ev (Existing SecretKind (Namespace (i_meta infra)) (Name (i_meta infra) +:+ "-ca")) (inr secret) ∈ new →
    ca_applied secret now secret' →
    ok (tr ++ new) (Ev (Store SecretKind (Namespace (i_meta infra)) (Name (i_meta infra) +:+ "-ca") secret') x)) →
  (∀ new r, (∀ ca, r = inr ca → ∃ secret', ca = data secret' "tls.crt" ∧
      Ev (Store SecretKind (Namespace (i_meta infra)) (Name (i_meta infra) +:+ "-ca") secret') None ∈ new) → Q (tr ++ new) (s, r)) →
  wp ok (ReconcileCa c infra s) tr Q.
Proof.
  intros Hok HQ. unfold ReconcileCa, Certs.ok. wp_step. apply CreateOrUpdate_wp; [intros; by apply ok_reads|intros; by apply HQ|].
  intros secret. repeat wp_step. split; [by apply ok_reads|]. destruct x as [e|owners]; [rewrite <-app_assoc; by apply HQ|]. wp_step.
  apply applyCaSecret_wp. intros new [e|secret'] Ha; repeat wp_step; [rewrite <-!app_assoc; by apply HQ|].
  destruct (Ha _ eq_refl) as (now & _ & Hca). intros e. rewrite <-!app_assoc. split; [by apply (Hok _ secret now); [set_solver|]|].
  destruct e; repeat wp_step; apply HQ; [done|]. intros ca [= <-]. exists secret'. split; [done|set_solver].
Qed.

(** ** A certificate that need not be renewed *)

(** It is left alone, however often it is looked at. *)
Lemma applyCertSecret_again secret caSecret config commonName dnsNames cert caExpiry now s :
  separate config → holds config secret cert → is_Some (Data secret !! cfg_key config) →
  getCertExpiryDate (data caSecret "tls.crt") = inr caExpiry →
  digest_of secret = getDigest (data caSecret "tls.crt") → (now + Hour <= NotAfter cert)%Z →
  ∃ k info, applyCertSecret c secret caSecret config commonName dnsNames s = Vis Now k ∧
    k now = Ret (s, inr (ApplyDefaultLabels "" (sec_Name secret) secret, info)) ∧ ci_NotAfter info = NotAfter cert.
Proof.
  intros (Hk & Hc & _) [Hp Hpair] Hkey Hca Hdig Hnow. unfold applyCertSecret, lift. rewrite !decide_False by done.
  unfold try_ at 1, mbind, ctl_bind, mret, ctl_ret, mbind, io_bind. cbn [bind_io snd fst]. rewrite Hca.
  set (secret1 := ApplyDefaultLabels "" (sec_Name secret) secret).
  assert (∀ k, data secret1 k = data secret k) as Hd by done. rewrite !Hd.
  assert (has_key (cfg_key config) secret1 = true) as -> by (by apply bool_decide_eq_true).
  change (sec_Annotations secret1) with (sec_Annotations secret). unfold digest_of in Hdig. rewrite Hdig.
  unfold getCertExpiryDate. rewrite Hp. unfold try_, mbind, ctl_bind, mret, ctl_ret, mbind, io_bind, call. cbn [bind_io snd fst].
  eexists _, _. split; [reflexivity|]. cbn [bind_io snd fst negb]. unfold shouldRenewCert.
  rewrite (proj2 (Z.ltb_ge _ _) Hnow), bool_decide_eq_true_2 by done. cbn [negb orb]. unfold GetCertInfo. rewrite Hp, Hpair.
  by split.
Qed.

(** ** The certificates of components *)

Lemma component_config_separate : separate component_config.
Proof. split_and!; [done..|]. intros n Hn. cbn in Hn. set_solver. Qed.

(** The secret of a component. *)
Definition store_cert (infra : MessagingInfrastructure) (object : ObjectMeta) (secret : Secret) (e : option ApiError) : event kube :=
  Ev (Store SecretKind (Namespace (i_meta infra)) (GetCertSecretName (Name object)) secret) e.

Lemma ReconcileCert_wp infra object commonName dnsNames s tr Q :
  (∀ new caSecret secret now secret' info x,
    Ev (GetObject SecretKind (Namespace (i_meta infra)) (Name (i_meta infra) +:+ "-ca")) (inr caSecret) ∈ new →
    applied secret caSecret component_config commonName dnsNames now secret' info →
    ok (tr ++ new) (store_cert infra object secret' x)) →
  (∀ new r, (∀ info, r = inr info → ∃ secret', store_cert infra object secret' None ∈ new ∧
      ci_Certificate info = (data secret' "tls.crt", data secret' "tls.key")) → Q (tr ++ new) (s, r)) →
  wp ok (ReconcileCert c infra object commonName dnsNames s) tr Q.
Proof.
  intros Hok HQ. unfold ReconcileCert, get_object, Certs.ok. repeat wp_step. split; [by apply ok_reads|]. repeat wp_step.
  destruct x as [e|caSecret]; cbn [from_api]; [by apply HQ|]. wp_step.
  apply CreateOrUpdate_wp; [intros; by apply ok_reads|intros; rewrite <-app_assoc; by apply HQ|].
  intros secret. repeat wp_step. split; [by apply ok_reads|]. destruct x as [e|owners]; [rewrite <-!app_assoc; by apply HQ|].
  apply applyCertSecret_wp; [apply component_config_separate|]. intros new [e|[secret' info]] Ha; [rewrite <-!app_assoc; by apply HQ|].
  destruct (Ha _ _ eq_refl) as (now & _ & Happ). cbn [fst snd]. intros e. rewrite <-!app_assoc.
  split; [by eapply (Hok _ caSecret); [set_solver|exact Happ]|].
  destruct e; repeat wp_step; apply HQ; [done|]. intros info' [= <-]. exists secret'. split; [unfold store_cert; set_solver|].
  destruct Happ as (cert & caExpiry & _ & [(_ & _ & _ & _ & _ & _ & ->)|(Hren & _ & _)]); [done|]. by apply renewed_info in Hren.
Qed.

(** ** The certificates of endpoints *)

Lemma append_nonempty (a b : string) : b ≠ "" → a +:+ b ≠ "".
Proof. by destruct a. Qed.

Lemma endpoint_config_separate e : separate (endpoint_config e).
Proof.
  unfold separate, endpoint_config. cbn [cfg_key cfg_crt cfg_ca cfg_keystore cfg_truststore].
  set (prefix := Namespace _ +:+ "." +:+ _). assert (prefix +:+ ".key" ≠ "") as Hk by (by apply append_nonempty).
  assert (prefix +:+ ".crt" ≠ "") as Hc by (by apply append_nonempty).
  split_and!; [done|done|intros H; apply (inj (String.append prefix)) in H; done|]. intros n Hn.
  repeat (apply elem_of_cons in Hn as [->|Hn]; [done|]). by apply elem_of_nil in Hn.
Qed.
(** The secret that the endpoints of an infrastructure share was read. *)
Definition shared (infra : MessagingInfrastructure) (secret : Secret) tr : Prop :=
  Ev (GetObject SecretKind (Namespace (i_meta infra)) (GetProjectSecretName (Name (i_meta infra)))) (inr secret) ∈ tr.

(** ... and is written. *)
Definition write_shared (infra : MessagingInfrastructure) (secret : Secret) (e : option ApiError) : event kube :=
  Ev (UpdateObject SecretKind (Namespace (i_meta infra)) (GetProjectSecretName (Name (i_meta infra))) secret) e.

Lemma update_changed_wp {A} infra config before after (a : A) s tr Q :
  (∀ e, data before (cfg_key config) ≠ data after (cfg_key config) ∨ data before (cfg_crt config) ≠ data after (cfg_crt config) →
    ok tr (write_shared infra after e)) →
  (∀ new r, (∀ a', r = inr a' → a' = a ∧ (write_shared infra after None ∈ new ∨
      data before (cfg_key config) = data after (cfg_key config) ∧ data before (cfg_crt config) = data after (cfg_crt config))) →
    Q (tr ++ new) (s, r)) →
  wp ok (update_changed infra config before after a s) tr Q.
Proof.
  intros Hok HQ. unfold update_changed, fail, Certs.ok. destruct (_ || _) eqn:Hc; repeat wp_step.
  - split.
    + apply Hok. apply orb_true_iff in Hc. rewrite !negb_true_iff, !bool_decide_eq_false in Hc. done.
    + destruct x; repeat wp_step; apply HQ; [done|]. intros a' [= <-]. split; [done|]. left. by left.
  - rewrite <-(app_nil_r tr). apply HQ. intros a' [= <-]. split; [done|]. right.
    apply orb_false_iff in Hc. rewrite !negb_false_iff, !bool_decide_eq_true in Hc. done.
Qed.

(** The shared secret was read or written. *)
Definition known (infra : MessagingInfrastructure) (secret : Secret) tr : Prop :=
  shared infra secret tr ∨ write_shared infra secret None ∈ tr.

Lemma ReconcileEndpointCert_wp infra e s tr Q :
  (∀ new secret caSecret now secret' info x, shared infra secret (tr ++ new) →
    applied secret caSecret (endpoint_config e) (es_StatusHost (e_Status e)) [es_StatusHost (e_Status e)] now secret' info →
    Data secret ≠ Data secret' → ok (tr ++ new) (write_shared infra secret' x)) →
  (∀ new r, (∀ info, r = inr info → ∃ secret cert, known infra secret (tr ++ new) ∧ holds (endpoint_config e) secret cert) →
    Q (tr ++ new) (s, r)) →
  wp ok (ReconcileEndpointCert c infra e s) tr Q.
Proof.
  intros Hok HQ. unfold ReconcileEndpointCert, get_object. repeat wp_step. split; [by apply ok_reads|]. repeat wp_step.
  destruct x as [err|caSecret]; cbn [from_api]; [by apply HQ|]. repeat wp_step. split; [by apply ok_reads|]. repeat wp_step.
  destruct x as [err|secret]; cbn [from_api]; [rewrite <-app_assoc; by apply HQ|]. repeat wp_step.
  apply applyCertSecret_wp; [apply endpoint_config_separate|]. intros new [err|[secret' info]] Ha; cbn [fst snd].
  { rewrite <-!app_assoc. by apply HQ. }
  destruct (Ha _ _ eq_refl) as (now & _ & Happ). apply update_changed_wp.
  - intros x Hne. rewrite <-!app_assoc. eapply Hok; [|exact Happ|].
    + unfold shared. set_solver.
    + intros Heq. unfold data in Hne. rewrite Heq in Hne. naive_solver.
  - intros new' r Hr. rewrite <-!app_assoc. apply HQ. intros info' ->. destruct (Hr _ eq_refl) as [_ Hw].
    assert (∃ cert, holds (endpoint_config e) secret' cert) as [cert Hh].
    { destruct Happ as (cert & caExpiry & _ & [(_ & _ & _ & Hh & _)|(Hren & _)]); exists cert; [done|by apply renewed_holds in Hren]. }
    destruct Hw as [Hw|[H1 H2]].
    + exists secret', cert. split; [|done]. right. set_solver.
    + exists secret, cert. unfold holds. rewrite H1, H2. split; [|done]. left. unfold shared. set_solver.
Qed.

(** The entries of an endpoint in the shared secret. *)
Definition entries (e : MessagingEndpoint) : list string := [cfg_key (endpoint_config e); cfg_crt (endpoint_config e)].

Lemma FromValues_wp infra e key value s tr Q :
  (∀ new secret secret' x, shared infra secret (tr ++ new) → (∀ k, k ∉ entries e → Data secret' !! k = Data secret !! k) →
    data secret' (cfg_key (endpoint_config e)) = key → data secret' (cfg_crt (endpoint_config e)) = value →
    ok (tr ++ new) (write_shared infra secret' x)) →
  (∀ new r, (r = inr () → ∃ secret, known infra secret (tr ++ new) ∧ data secret (cfg_key (endpoint_config e)) = key ∧
      data secret (cfg_crt (endpoint_config e)) = value) → Q (tr ++ new) (s, r)) →
  wp ok (ReconcileEndpointCertFromValues infra e key value s) tr Q.
Proof.
  intros Hok HQ. unfold ReconcileEndpointCertFromValues, get_object. repeat wp_step. split; [by apply ok_reads|]. repeat wp_step.
  destruct x as [err|secret]; cbn [from_api]; [by apply HQ|]. destruct (endpoint_config_separate e) as (_ & _ & Hne & _).
  set (config := endpoint_config e) in *. set (secret' := set_Data _ secret).
  assert (data secret' (cfg_key config) = key) as Hk.
  { unfold data. cbn [secret' set_Data Data]. by rewrite lookup_insert_ne, lookup_insert_eq by done. }
  assert (data secret' (cfg_crt config) = value) as Hc by (unfold data; cbn [secret' set_Data Data]; by rewrite lookup_insert_eq).
  apply update_changed_wp.
  - intros x _. apply (Hok _ secret); [unfold shared; set_solver| |done|done]. intros k Hin. unfold entries in Hin.
    cbn [secret' set_Data Data]. rewrite !not_elem_of_cons in Hin. by rewrite !lookup_insert_ne by naive_solver.
  - intros new r Hr. rewrite <-app_assoc. apply HQ. intros ->. destruct (Hr _ eq_refl) as [_ [Hw|[H1 H2]]].
    + exists secret'. split; [|done]. right. set_solver.
    + exists secret. rewrite H1, H2. split; [|done]. left. unfold shared. set_solver.
Qed.

(** The secret of the routers holds neither a key nor a certificate of the endpoint. *)
Definition uncertified infra e tr : Prop :=
  ∃ secret, known infra secret tr ∧ nonempty (data secret (cfg_key (endpoint_config e))) = false ∧
    nonempty (data secret (cfg_crt (endpoint_config e))) = false.

Lemma DeleteEndpointCert_wp infra e s tr Q :
  (∀ new secret secret' x, shared infra secret (tr ++ new) → (∀ k, k ∉ entries e → Data secret' !! k = Data secret !! k) →
    (∀ k, k ∈ entries e → Data secret' !! k = None) → ok (tr ++ new) (write_shared infra secret' x)) →
  (∀ new r, (r = inr () → uncertified infra e (tr ++ new)) → Q (tr ++ new) (s, r)) →
  wp ok (DeleteEndpointCert infra e s) tr Q.
Proof.
  intros Hok HQ. unfold DeleteEndpointCert, get_object, Certs.ok, fail. repeat wp_step. split; [by apply ok_reads|]. repeat wp_step.
  destruct x as [err|secret]; cbn [from_api]; [by apply HQ|]. destruct (_ || _) eqn:Hne; repeat wp_step.
  2: { apply HQ. intros _. exists secret. apply orb_false_iff in Hne as [-> ->]. split_and!; [left; unfold shared; set_solver|done|done]. }
  split.
  - apply (Hok _ secret); [unfold shared; set_solver|..]; unfold entries; cbn [set_Data Data].
    + intros k Hk. rewrite !not_elem_of_cons in Hk. by rewrite !lookup_delete_ne by naive_solver.
    + intros k Hk. rewrite !elem_of_cons in Hk. destruct (decide (k = cfg_crt (endpoint_config e))) as [->|Hk'].
      * by rewrite lookup_delete_eq.
      * rewrite lookup_delete_ne by done. destruct Hk as [->|[?|Hk]]; [by rewrite lookup_delete_eq|done|]. by apply elem_of_nil in Hk.
  - destruct x; repeat wp_step; rewrite <-app_assoc; apply HQ; [done|]. intros _. eexists. split; [right; apply elem_of_app; right; right; by left|].
    unfold data. cbn [set_Data Data]. rewrite lookup_delete_eq. split; [|done].
    destruct (decide (cfg_key (endpoint_config e) = cfg_crt (endpoint_config e))) as [->|Hk]; [by rewrite lookup_delete_eq|].
    by rewrite lookup_delete_ne, lookup_delete_eq by done.
Qed.
End CertFacts.
