(* ===== verification/AddressController.v ===== *)
(** The controller of addresses
    ([pkg/controller/messagingaddress/messagingaddress_controller.go]): the finalizer, the
    lookup of the infrastructure, validation, scheduling and synchronization, step by
    step, each with the status it leaves. *)
From stdpp Require Import base gmap strings list.
From S2P Require Import Prelude ApiV1 Conditions Reconcile Finalizer.

Definition FINALIZER_NAME : string := "enmasse.io/operator".

Definition MessagingAddressFoundProject : string := "FoundProject".
Definition MessagingAddressValidated : string := "Validated".
Definition MessagingAddressScheduled : string := "Scheduled".
Definition MessagingAddressCreated : string := "Created".
Definition MessagingAddressReady : string := "Ready".

Definition MessagingAddressConfiguring : string := "Configuring".
Definition MessagingAddressActive : string := "Active".
Definition MessagingAddressTerminating : string := "Terminating".

(** ** The status of an address *)

Definition set_Status (f : MessagingAddressStatus → MessagingAddressStatus) (a : MessagingAddress) : MessagingAddress :=
  {| a_meta := a_meta a; a_Spec := a_Spec a; a_Status := f (a_Status a) |}.

Definition set_Phase (p : string) : MessagingAddress → MessagingAddress := set_Status (λ s,
  {| as_Phase := p; as_Message := as_Message s; as_Conditions := as_Conditions s; as_Brokers := as_Brokers s; as_Type := as_Type s |}).
Definition set_Type (t : string) : MessagingAddress → MessagingAddress := set_Status (λ s,
  {| as_Phase := as_Phase s; as_Message := as_Message s; as_Conditions := as_Conditions s; as_Brokers := as_Brokers s; as_Type := t |}).

#[global] Instance address_kind : Kind MessagingAddress := {|
  Conditions_of a := as_Conditions (a_Status a);
  with_Conditions cs := set_Status (λ s,
    {| as_Phase := as_Phase s; as_Message := as_Message s; as_Conditions := cs; as_Brokers := as_Brokers s; as_Type := as_Type s |});
  with_Message m := set_Status (λ s,
    {| as_Phase := as_Phase s; as_Message := m; as_Conditions := as_Conditions s; as_Brokers := as_Brokers s; as_Type := as_Type s |});
  Update := UpdateAddress;
  StatusUpdate := UpdateAddressStatus;
|}.

(** The type of an address, by the part of the specification that is set. *)
Definition address_type (spec : MessagingAddressSpec) : option string :=
  if decide (is_Some (Queue spec)) then Some "Queue"
  else if decide (is_Some (Anycast spec)) then Some "Anycast"
  else if decide (is_Some (Multicast spec)) then Some "Multicast"
  else if decide (is_Some (Topic spec)) then Some "Topic"
  else if decide (is_Some (Subscription spec)) then Some "Subscription"
  else if decide (is_Some (DeadLetter spec)) then Some "DeadLetter"
  else None.

(** The pointers to the five conditions. *)
Record Pointers := {
  foundProject : Pointer;
  validated : Pointer;
  scheduled : Pointer;
  created : Pointer;
  ready : Pointer;
}.

Section AddressController.
Context (grow : nat → nat).
Notation C := (Ctx MessagingAddress).

(** The object behind the controller's pointer. *)
Definition address : ctl C MessagingAddress := reads (λ s, res (current s)).

(** ** The first step *)

Definition initialize : processor MessagingAddress Pointers :=
  _ ← writes (set_res (λ a, if decide (as_Phase (a_Status a) = "") then set_Phase MessagingAddressConfiguring a else a));
  _ ← writes (set_res (λ a, match address_type (a_Spec a) with Some t => set_Type t a | None => a end));
  foundProject ← get_condition grow MessagingAddressFoundProject;
  validated ← get_condition grow MessagingAddressValidated;
  scheduled ← get_condition grow MessagingAddressScheduled;
  created ← get_condition grow MessagingAddressCreated;
  ready ← get_condition grow MessagingAddressReady;
  mret (done_, None, {| foundProject := foundProject; validated := validated; scheduled := scheduled;
                        created := created; ready := ready |}).

(** ** The finalizer *)

Definition matchAnyAddress (namespace : string) (filter : MessagingAddress → bool) : ctl C (bool * option error) :=
  r ← call (ListMessagingAddresses namespace);
  match r with
  | inl err => mret (false, Some (api_error err))
  | inr items => mret (existsb filter items, None)
  end.

(** The addresses that refer to a topic and to a dead letter address. *)
Definition subscribes (a b : MessagingAddress) : bool :=
  match Subscription (a_Spec b) with Some sub => bool_decide (Topic_ sub = GetAddress a) | None => false end.
Definition dead_letters (a b : MessagingAddress) : bool :=
  match Queue (a_Spec b) with
  | Some q => bool_decide (DeadLetterAddress q = GetAddress a) || bool_decide (ExpiryAddress q = GetAddress a)
  | None => false
  end.

(** What the deconstructor returns when an address that refers to this one exists. *)
Definition refuse (matches : MessagingAddress → MessagingAddress → bool) (message : string)
    : ctl C (option (Result * option error)) :=
  a ← address;
  r ← matchAnyAddress (Namespace (a_meta a)) (matches a);
  match r with
  | (_, Some err) => mret (Some (no_result, Some err))
  | (true, None) =>
      _ ← set_message message; mret (Some ({| r_Requeue := true; r_RequeueAfter := 0 |}, None))
  | (false, None) => mret None
  end.

Definition check_references : ctl C (option (Result * option error)) :=
  a ← address;
  if decide (is_Some (Topic (a_Spec a))) then refuse subscribes "subscriptions referencing this topic address exist"
  else if decide (is_Some (DeadLetter (a_Spec a))) then refuse dead_letters "queues referencing this deadletter address exist"
  else mret None.

Definition deconstruct : ctl C (Result * option error) :=
  a ← address;
  r ← LookupInfra (Namespace (a_meta a));
  match r with
  | (_, _, Some err) =>
      if utilerrors_IsNotBound err || utilerrors_IsNotFound err then mret (no_result, None) else mret (no_result, Some err)
  | (_, infra, None) =>
      early ← check_references;
      match early with
      | Some result => mret result
      | None =>
          match infra with
          | None => crash
          | Some infra => a ← address; err ← call (DeleteAddress infra a); mret (no_result, err)
          end
      end
  end.

Definition finalize : processor MessagingAddress () :=
  o ← reads current;
  if decide (is_Some (DeletionTimestamp o) ∧ as_Phase (a_Status (res o)) ≠ MessagingAddressTerminating) then
    _ ← writes (set_res (set_Phase MessagingAddressTerminating));
    o ← reads current; err ← call (StatusUpdate o); mret (requeue, api_error <$> err, ())
  else
    original ← reads current;
    r ← ProcessFinalizers [{| f_Name := FINALIZER_NAME; Deconstruct := Some deconstruct |}];
    match r with
    | (_, Some err) => mret (done_, Some err, ())
    | (result, None) =>
        o ← reads current;
        if r_Requeue result && negb (bool_decide (original = o)) then
          if negb (bool_decide (a_Status (res original) = a_Status (res o))) then
            err ← call (StatusUpdate o); mret (requeue, api_error <$> err, ())
          else err ← call (Update o); mret (return_, api_error <$> err, ())
        else mret ({| Requeue := r_Requeue result; RequeueAfter := 0; Return := false |}, None, ())
    end.

(** ** The infrastructure *)

Definition lookup (p : Pointers) : processor MessagingAddress (option MessagingInfrastructure) :=
  a ← address;
  r ← LookupInfra (Namespace (a_meta a));
  let '(_, i, err) := r in
  match err with
  | Some e =>
      if k8errors_IsNotFound e || utilerrors_IsNotBound e then
        _ ← set_condition (foundProject p) ConditionFalse (Error e);
        _ ← set_message (Error e);
        mret (requeue_after (10 * Second), None, None)
      else
        _ ← set_condition (foundProject p) ConditionTrue ""; mret (done_, Some e, i)
  | None => _ ← set_condition (foundProject p) ConditionTrue ""; mret (done_, None, i)
  end.

(** ** Validation *)

(** What is reported of an address that is not valid. *)
Definition invalid (p : Pointers) (message : string) : processor MessagingAddress () :=
  _ ← set_condition (validated p) ConditionFalse message;
  _ ← set_message message;
  mret (requeue_after (10 * Second), None, ()).

(** An address that must exist, before the rest of the validation. *)
Definition require (p : Pointers) (matches : MessagingAddress → bool) (message : string) (k : processor MessagingAddress ()) : processor MessagingAddress () :=
  a ← address;
  r ← matchAnyAddress (Namespace (a_meta a)) matches;
  match r with
  | (_, Some err) => mret (done_, Some err, ())
  | (false, None) => invalid p message
  | (true, None) => k
  end.

Definition is_dead_letter (name : string) (b : MessagingAddress) : bool :=
  bool_decide (is_Some (DeadLetter (a_Spec b))) && bool_decide (GetAddress b = name).
Definition is_topic (name : string) (b : MessagingAddress) : bool :=
  bool_decide (is_Some (Topic (a_Spec b))) && bool_decide (GetAddress b = name).

Definition validate (p : Pointers) : processor MessagingAddress () :=
  let valid : processor MessagingAddress () :=
    _ ← set_condition (validated p) ConditionTrue ""; mret (done_, None, ()) in
  a ← address;
  let subscription : processor MessagingAddress () :=
    match Subscription (a_Spec a) with
    | None => valid
    | Some sub =>
        if decide (Topic_ sub = "") then invalid p "topic referenced by subscription must be non-empty"
        else require p (is_topic (Topic_ sub))
               ("unable to find address for topic " +:+ Topic_ sub +:+ ", required by subscription") valid
    end in
  match Queue (a_Spec a) with
  | None => subscription
  | Some q =>
      if decide (DeadLetterAddress q ≠ "" ∨ ExpiryAddress q ≠ "") then
        let expiry : processor MessagingAddress () :=
          if decide (ExpiryAddress q ≠ "")
          then require p (is_dead_letter (ExpiryAddress q)) ("unable to find expiryAddress " +:+ ExpiryAddress q) valid
          else valid in
        if decide (DeadLetterAddress q ≠ "")
        then require p (is_dead_letter (DeadLetterAddress q)) ("unable to find deadLetterAddress " +:+ DeadLetterAddress q) expiry
        else expiry
      else subscription
  end.

(** ** Scheduling *)

(** The errors after which a call of the client is tried again. *)
Definition retried (e : error) : bool :=
  errors_Is e NotInitializedError || errors_Is e RequestTimeoutError || errors_Is e NotSyncedError.

Definition schedule (p : Pointers) (infra : option MessagingInfrastructure) : processor MessagingAddress () :=
  a ← address;
  if decide (0 < length (as_Brokers (a_Status a))) then
    _ ← set_condition (scheduled p) ConditionTrue ""; mret (done_, None, ())
  else if decide (is_Some (Anycast (a_Spec a)) ∨ is_Some (Multicast (a_Spec a))) then
    _ ← set_condition (scheduled p) ConditionTrue ""; mret (done_, None, ())
  else
    match infra with
    | None => crash
    | Some infra =>
        r ← call (ScheduleAddress infra a);
        _ ← writes (set_res (set_Brokers r.1));
        match r.2 with
        | Some err =>
            _ ← set_condition (scheduled p) ConditionFalse (Error err);
            _ ← set_message (Error err);
            if retried err then mret (requeue_after (10 * Second), None, ()) else mret (done_, Some err, ())
        | None => _ ← set_condition (scheduled p) ConditionTrue ""; mret (requeue, None, ())
        end
    end.

(** ** Synchronization *)

Definition activate (a : MessagingAddress) : MessagingAddress :=
  set_Brokers ((λ b, {| ab_State := MessagingAddressBrokerActive; ab_Host := ab_Host b |}) <$> as_Brokers (a_Status a)) a.

Definition synchronize (p : Pointers) (infra : MessagingInfrastructure) : processor MessagingAddress () :=
  a ← address;
  err ← call (SyncAddress infra a);
  match err with
  | Some e =>
      _ ← set_condition (created p) ConditionFalse (Error e);
      _ ← set_message (Error e);
      if retried e || errors_Is e NoEndpointsError then mret (requeue_after (10 * Second), None, ())
      else mret (done_, Some e, ())
  | None =>
      _ ← writes (set_res activate);
      _ ← set_condition (created p) ConditionTrue "";
      mret (done_, None, ())
  end.

(** The last step; the statuses compared are a pointer and a struct again. *)
Definition finish (p : Pointers) : processor MessagingAddress () :=
  _ ← writes (set_res (set_Phase MessagingAddressActive));
  _ ← set_message "";
  _ ← set_condition (ready p) ConditionTrue "";
  if negb status_equal then o ← reads current; err ← call (StatusUpdate o); mret (done_, api_error <$> err, ())
  else mret (done_, None, ()).

(** ** [Reconcile] *)

Definition reconcile : ctl C (Result * option error) :=
  r ← Process initialize;
  let p := r.2 in
  stage finalize (λ _,
  stage (lookup p) (λ infra,
  stage (validate p) (λ _,
  stage (schedule p infra) (λ _,
  match infra with
  | None => crash
  | Some infra =>
      stage (synchronize p infra) (λ _,
      r ← Process (finish p); mret (Result_ r.1.1, r.1.2))
  end)))).

Definition Reconcile (namespace name : string) : io kube (Result * option error) :=
  Vis (GetMessagingAddress namespace name) (λ r,
    match r with
    | inl err => if k8errors_IsNotFound (api_error err) then Ret (no_result, None) else Ret (no_result, Some (api_error err))
    | inr (found, spare) => r ← reconcile (new_ctx found spare); Ret r.2
    end).
End AddressController.
