(* ===== verification/AddressFacts.v ===== *)
(** What the controller of addresses does and does not do, whatever the API server and the
    client of the infrastructure answer. *)
From stdpp Require Import base gmap sets strings list.
From S2P Require Import Prelude ApiV1 Conditions KubeObjects Reconcile Finalizer ControllerFacts AddressController.

(** ** Traces *)

(** The addresses of a namespace were listed, with or without one that matches. *)
Definition seen (ns : string) (matches : MessagingAddress → bool) (b : bool) (tr : trace) : Prop :=
  ∃ items, Ev (ListMessagingAddresses ns) (inr items) ∈ tr ∧ existsb matches items = b.

Lemma seen_app ns matches b tr tr' : seen ns matches b tr → seen ns matches b (tr ++ tr').
Proof. intros (items & H & Hb). exists items. rewrite elem_of_app. auto. Qed.

#[global] Hint Resolve seen_app : go.

(** ** What is allowed *)

Section Policy.
Context (found : Resource MessagingAddress).
Notation ns := (Namespace (a_meta (res found))).
Notation spec := (a_Spec (res found)).

(** The same address, whatever its status is. *)
Definition same (a : MessagingAddress) : Prop := a_meta a = a_meta (res found) ∧ a_Spec a = spec.

(** The addresses an address needs. *)
Definition references_exist (tr : trace) : Prop :=
  (∀ q, Queue spec = Some q → DeadLetterAddress q ≠ "" → seen ns (is_dead_letter (DeadLetterAddress q)) true tr) ∧
  (∀ q, Queue spec = Some q → ExpiryAddress q ≠ "" → seen ns (is_dead_letter (ExpiryAddress q)) true tr) ∧
  (∀ sub, (∀ q, Queue spec = Some q → DeadLetterAddress q = "" ∧ ExpiryAddress q = "") →
    Subscription spec = Some sub → Topic_ sub ≠ "" ∧ seen ns (is_topic (Topic_ sub)) true tr).

(** The address is configured: the client of the infrastructure of its project has
    confirmed it. *)
Definition configured (tr : trace) : Prop :=
  ∃ infra a, bound ns infra tr ∧ same a ∧ Ev (SyncAddress infra a) None ∈ tr.

(** The address is taken down, or there is nothing to take down. *)
Definition taken_down (tr : trace) : Prop :=
  unbound ns tr ∨ ∃ infra a, bound ns infra tr ∧ same a ∧ Ev (DeleteAddress infra a) None ∈ tr.

(** Nothing refers to the address. *)
Definition unreferenced (tr : trace) : Prop :=
  (is_Some (Topic spec) → ∃ a, same a ∧ seen ns (subscribes a) false tr) ∧
  (Topic spec = None → is_Some (DeadLetter spec) → ∃ a, same a ∧ seen ns (dead_letters a) false tr).

(** The finalizer is on the object exactly as long as it is not being deleted. *)
Definition finalized : Prop := FINALIZER_NAME ∈ Finalizers found ↔ DeletionTimestamp found = None.

Definition address_allowed (tr : trace) (ev : event kube) : Prop :=
  match ev with
  | Ev e _ =>
      match e with
      | UpdateAddressStatus a =>
          same (res a) ∧ DeletionTimestamp a = DeletionTimestamp found ∧
          (as_Phase (a_Status (res a)) = MessagingAddressActive →
            as_Phase (a_Status (res found)) = MessagingAddressActive ∨ configured tr)
      | UpdateAddress a =>
          same (res a) ∧ DeletionTimestamp a = DeletionTimestamp found ∧
          (∀ f, f ≠ FINALIZER_NAME → f ∈ Finalizers a ↔ f ∈ Finalizers found) ∧
          (FINALIZER_NAME ∉ Finalizers a → is_Some (DeletionTimestamp found) ∧ taken_down tr)
      | ScheduleAddress infra a => same a ∧ bound ns infra tr ∧ finalized ∧ references_exist tr
      | SyncAddress infra a => same a ∧ bound ns infra tr ∧ finalized ∧ references_exist tr
      | DeleteAddress infra a =>
          same a ∧ bound ns infra tr ∧ is_Some (DeletionTimestamp found) ∧ FINALIZER_NAME ∈ Finalizers found ∧ unreferenced tr
      | e => reads_only e = true
      end
  end.

(** The address is configured, and its status says so. *)
Definition address_reached (tr : trace) : Prop :=
  ∃ a, configured tr ∧ Ev (UpdateAddressStatus a) None ∈ tr ∧
    as_Phase (a_Status (res a)) = MessagingAddressActive ∧ as_Message (a_Status (res a)) = "".

(** ** The state of a reconciliation *)

Notation C := (Ctx MessagingAddress).
Implicit Types (st : C) (tr : trace).

Record address_inv st : Prop := {
  inv_same : same (res (obj st));
  inv_deletion : DeletionTimestamp (obj st) = DeletionTimestamp found;
  inv_phase : as_Phase (a_Status (res (obj st))) = MessagingAddressActive →
              as_Phase (a_Status (res found)) = MessagingAddressActive;
}.

#[local, refine] Instance address_policy : Policy MessagingAddress := {|
  allowed := address_allowed;
  inv := address_inv;
  written tr := ∃ a, Ev (UpdateAddress a) None ∈ tr;
  reached := address_reached;
|}.
Proof.
  - intros tr X e x H. by destruct e.
  - by intros cs st [? ? ?].
  - by intros m st [[? ?] ? ?].
  - intros st tr e [[? ?] ? Hp]. split_and!; [done|done|]. intros ?. left. by apply Hp.
Defined.

Lemma inv_brokers f st : inv st → inv (set_res (λ a, set_Brokers (f a) a) st).
Proof. by intros [[? ?] ? ?]. Qed.

Lemma inv_current st : inv st → same (res (current st)).
Proof. by intros [[? ?] _ _]. Qed.

Hint Resolve inv_brokers inv_current : go.

Lemma initialize_wp grow st tr :
  inv st → Finalizers (obj st) = Finalizers found →
  wp allowed (initialize grow st) tr (λ _ r, r.2.1 = (done_, None) ∧ inv r.1 ∧ Finalizers (obj r.1) = Finalizers found).
Proof.
  intros [[Hm Hs] Hd Hp] Hf. unfold initialize. wp_go. split; [done|]. split; [|done].
  split; [split|..]; cbn [obj set_conds set_res res DeletionTimestamp]; [| |done|];
    repeat (case_match || case_decide); done.
Qed.

(** ** The finalizer *)

Lemma same_matches a b : same a → GetAddress a = GetAddress (res found) ∧ subscribes a b = subscribes (res found) b ∧
  dead_letters a b = dead_letters (res found) b.
Proof.
  intros [Hm Hs]. assert (GetAddress a = GetAddress (res found)) as Ha by (unfold GetAddress; by rewrite Hm, Hs).
  split; [done|]. unfold subscribes, dead_letters. by rewrite Ha.
Qed.

Lemma matchAny_wp ns' matches st tr Q :
  (∀ new b err, (err = None → seen ns' matches b (tr ++ new)) → Q (tr ++ new) (st, (b, err))) →
  wp allowed (matchAnyAddress ns' matches st) tr Q.
Proof.
  intros HQ. unfold matchAnyAddress. wp_go. split; [done|]. destruct x as [err|items]; wp_go; apply HQ; [done|].
  intros _. exists items. split; [|done]. apply elem_of_app. right. by left.
Qed.

(** Only the message is changed. *)
Definition keeps_finalizers st st' : Prop := inv st' ∧ Finalizers (obj st') = Finalizers (obj st).

Lemma refuse_wp matches msg st tr :
  inv st →
  wp allowed (refuse matches msg st) tr (λ tr' r, keeps_finalizers st r.1 ∧
    match r.2 with
    | None => ∃ a, same a ∧ seen ns (matches a) false tr'
    | Some (result, err) => r_RequeueAfter result = 0%Z ∧ (err = None → r_Requeue result = true)
    end).
Proof.
  intros Hi. pose proof (inv_current st Hi) as Hc. unfold refuse, address. wp_go.
  destruct Hc as [Hm Hs]. rewrite Hm. apply matchAny_wp. intros new b err Hb. cbn [fst snd].
  destruct err as [e|]; [destruct b; wp_go; (split; [by split|by split])|].
  destruct b; wp_go; [by split; [split; [apply inv_message|]|]|].
  split; [by split|]. eexists. split; [by split|]. by apply Hb.
Qed.

Lemma check_references_wp st tr :
  inv st →
  wp allowed (check_references st) tr (λ tr' r, keeps_finalizers st r.1 ∧
    match r.2 with
    | None => unreferenced tr'
    | Some (result, err) => r_RequeueAfter result = 0%Z ∧ (err = None → r_Requeue result = true)
    end).
Proof.
  intros Hi. pose proof (inv_current st Hi) as [Hm Hs]. unfold check_references, address. wp_go. rewrite Hs.
  destruct (decide (is_Some (Topic spec))) as [Ht|Ht].
  { eapply wp_mono; [by apply refuse_wp|]. intros tr' [st' [[result err]|]] [Hk Hr]; (split; [done|]); [done|].
    split; [done|]. intros Hn. rewrite Hn in Ht. by destruct Ht. }
  destruct (decide (is_Some (DeadLetter spec))) as [Hdl|Hdl].
  { eapply wp_mono; [by apply refuse_wp|]. intros tr' [st' [[result err]|]] [Hk Hr]; by split. }
  wp_go. split; [by split|]. by split.
Qed.

Lemma deconstruct_wp st tr :
  inv st → is_Some (DeletionTimestamp found) → FINALIZER_NAME ∈ Finalizers found →
  wp allowed (deconstruct st) tr (λ tr' r, keeps_finalizers st r.1 ∧ r_RequeueAfter r.2.1 = 0%Z ∧
    (r.2.2 = None → r_Requeue r.2.1 = false → taken_down tr')).
Proof.
  intros Hi Hdel Hfin. pose proof (inv_current st Hi) as [Hm Hs]. unfold deconstruct, address. wp_go. rewrite Hm.
  apply LookupInfra_wp; [done..|]. intros new project infra err Hl. cbn [fst snd].
  destruct err as [e|].
  { destruct Hl as [-> Hl]. destruct (utilerrors_IsNotBound e || utilerrors_IsNotFound e) eqn:He; wp_go; (split; [by split|]; split; [done|]);
      [|done]. intros _ _. left. by apply Hl. }
  destruct Hl as (i & -> & Hb). apply ctl_wp_bind. eapply wp_mono; [apply wp_grows, check_references_wp, Hi|].
  intros tr' [st' [[result err]|]] [[[Hi' Hf'] Hr] [new' ->]]; cbn [fst snd] in *.
  { wp_go. destruct Hr as [Hr1 Hr2]. split; [by split|]. split; [done|]. cbn [fst snd]. intros He Hq. rewrite Hr2 in Hq; done. }
  wp_go. pose proof (inv_current st' Hi') as Hc'. split.
  - split_and!; [done|by apply bound_app|done|done|done].
  - split; [by split|]. split; [done|]. cbn [fst snd]. intros -> _. right. exists i, (res (current st')).
    split_and!; [by apply bound_app, bound_app|done|]. apply elem_of_app. right. by left.
Qed.

Lemma finalize_wp st tr :
  inv st → Finalizers (obj st) = Finalizers found →
  wp allowed (finalize st) tr (λ tr' r, step_ok tr' r.1 r.2 (λ _, finalized)).
Proof.
  intros Hi Hf. pose proof (inv_deletion st Hi) as Hdel. unfold finalize. wp_go. case_decide as Hd.
  { assert (inv (set_res (set_Phase MessagingAddressTerminating) st)) as Hi' by (by destruct Hi as [[? ?] ? ?]).
    wp_go. split; [by apply inv_status|]. split; [done|]. split; [done|by destruct x]. }
  wp_go. eapply wp_mono; [apply (ProcessFinalizers_ok _ _ _ _ taken_down); [done|by intros fs st' []|]|].
  { rewrite Hdel, Hf. intros Hs Hin. eapply wp_mono; [by apply deconstruct_wp|]. intros tr' r ([Hi' Hf'] & Ha & Ht).
    split_and!; [done| |done|done]. split; [done|]. by rewrite (inv_deletion _ Hi'). }
  unfold finalizers_ok. rewrite Hdel, Hf. intros tr' [st' [result err]] (Hi' & Hdel' & Hno & Hyes). cbn [fst snd] in *.
  destruct err as [e|]; wp_go; [eauto with go|]. destruct (r_Requeue result); cbn [andb]; wp_go.
  - destruct (Hyes eq_refl eq_refl) as [Hfs Hfin]. case_bool_decide; cbn [negb]; [wp_go; by split|].
    case_bool_decide; cbn [negb]; wp_go.
    + destruct Hi' as [[Hm Hs] Hdl Hph]. split; [by split_and!|]. split; [by split|]. cbn [fst snd]. split; [|by destruct x].
      intros _ He. destruct x; [done|]. exists (current st'). apply elem_of_app. right. by left.
    + split; [by apply inv_status|]. split; [done|]. split; [done|by destruct x].
  - destruct (Hno eq_refl eq_refl) as [-> Hfin]. by split.
Qed.

(** ** The other steps *)

Lemma lookup_wp p st tr :
  inv st → wp allowed (lookup p st) tr (λ tr' r, step_ok tr' r.1 r.2 (λ x, ∃ infra, x = Some infra ∧ bound ns infra tr')).
Proof.
  intros Hi. pose proof (inv_current st Hi) as [Hm _]. unfold lookup, address. wp_go. rewrite Hm.
  apply LookupInfra_wp; [done..|]. intros new project infra err Hl. cbn [fst snd].
  destruct err as [e|]; [destruct (k8errors_IsNotFound e || utilerrors_IsNotBound e)|]; unfold set_message; wp_go; cbn [fst snd].
  - eauto with go.
  - eauto with go.
  - destruct Hl as (i & -> & Hb). apply step_ok_done; [eauto with go|]. exists i. eauto with go.
Qed.

Lemma invalid_wp p message st tr next :
  inv st → wp allowed (invalid p message st) tr (λ tr' r, step_ok tr' r.1 r.2 (next tr')).
Proof. intros Hi. unfold invalid, set_message. wp_go. eauto with go. Qed.

Lemma require_wp p matches message k st tr next :
  inv st →
  (∀ new, seen ns matches true (tr ++ new) → wp allowed (k st) (tr ++ new) (λ tr' r, step_ok tr' r.1 r.2 (next tr'))) →
  wp allowed (require p matches message k st) tr (λ tr' r, step_ok tr' r.1 r.2 (next tr')).
Proof.
  intros Hi Hk. pose proof (inv_current st Hi) as [Hm _]. unfold require, address. wp_go. rewrite Hm.
  apply matchAny_wp. intros new b err Hb. cbn [fst snd]. destruct err as [e|]; [destruct b; wp_go; eauto with go|].
  destruct b; [by apply Hk, Hb|by apply invalid_wp].
Qed.

Lemma valid_wp p st tr (next : trace → Prop) :
  inv st → (∀ new, next (tr ++ new)) →
  wp allowed ((_ ← set_condition (validated p) ConditionTrue ""; mret (done_, None, ()) : processor MessagingAddress ()) st) tr
    (λ tr' r, step_ok tr' r.1 r.2 (λ _, next tr')).
Proof. intros Hi Hn. wp_go. cbn [fst snd]. eauto with go. Qed.

(** Validation of the reference of a subscription. *)
Lemma subscription_wp p st tr :
  inv st → (∀ q, Queue spec = Some q → DeadLetterAddress q = "" ∧ ExpiryAddress q = "") →
  wp allowed (match Subscription spec with
    | None => _ ← set_condition (validated p) ConditionTrue ""; mret (done_, None, ())
    | Some sub =>
        if decide (Topic_ sub = "") then invalid p "topic referenced by subscription must be non-empty"
        else require p (is_topic (Topic_ sub))
               ("unable to find address for topic " +:+ Topic_ sub +:+ ", required by subscription")
               (_ ← set_condition (validated p) ConditionTrue ""; mret (done_, None, ()))
    end st) tr (λ tr' r, step_ok tr' r.1 r.2 (λ _, references_exist tr')).
Proof.
  intros Hi Hq. assert (∀ q, Queue spec = Some q → DeadLetterAddress q ≠ "" ∨ ExpiryAddress q ≠ "" → False) as Hno.
  { intros q Hq' Hor. destruct (Hq q Hq') as [? ?]. naive_solver. }
  destruct (Subscription spec) as [sub|] eqn:Hsub.
  - case_decide; [by apply invalid_wp|]. apply require_wp; [done|]. intros new Hseen. apply valid_wp; [done|].
    intros new'. split_and!; [naive_solver..|]. intros sub' _ Hsub'. simplify_eq. eauto with go.
  - apply valid_wp; [done|]. intros new. split_and!; [naive_solver..|]. naive_solver.
Qed.

Lemma validate_wp p st tr :
  inv st → wp allowed (validate p st) tr (λ tr' r, step_ok tr' r.1 r.2 (λ _, references_exist tr')).
Proof.
  intros Hi. pose proof (inv_current st Hi) as [_ Hs]. unfold validate, address. wp_go. rewrite Hs.
  destruct (Queue spec) as [q|] eqn:Hq; [|apply subscription_wp; [done|naive_solver]].
  destruct (decide (DeadLetterAddress q ≠ "")) as [Hd|Hd]; destruct (decide (ExpiryAddress q ≠ "")) as [He|He].
  - rewrite decide_True by auto. apply require_wp; [done|]. intros new Hdl. apply require_wp; [done|]. intros new' Hex.
    apply valid_wp; [done|]. intros new''. split_and!; [intros q' ?; simplify_eq; eauto with go..|]. naive_solver.
  - rewrite decide_True by auto. apply require_wp; [done|]. intros new Hdl.
    apply valid_wp; [done|]. intros new''. split_and!; [intros q' ?; simplify_eq; eauto with go..|]; naive_solver.
  - rewrite decide_True by auto. apply require_wp; [done|]. intros new Hex.
    apply valid_wp; [done|]. intros new''. split_and!; [naive_solver|intros q' ?; simplify_eq; eauto with go|]; naive_solver.
  - rewrite decide_False by tauto. apply subscription_wp; [done|]. intros q' Hq'. simplify_eq. split; by apply dec_stable.
Qed.

(** What scheduling and synchronization may rely on. *)
Definition ready_to infra tr : Prop := bound ns infra tr ∧ finalized ∧ references_exist tr.

Lemma references_exist_app tr tr' : references_exist tr → references_exist (tr ++ tr').
Proof. intros (H1 & H2 & H3). split_and!; [eauto with go..|]. intros sub Hq Hs. destruct (H3 sub Hq Hs). eauto with go. Qed.

Lemma ready_to_app infra tr tr' : ready_to infra tr → ready_to infra (tr ++ tr').
Proof. intros (H1 & H2 & H3). split_and!; [eauto with go|done|by apply references_exist_app]. Qed.

Lemma schedule_wp p infra st tr :
  inv st → ready_to infra tr →
  wp allowed (schedule p (Some infra) st) tr (λ tr' r, step_ok tr' r.1 r.2 (λ _, ready_to infra tr')).
Proof.
  intros Hi Hr. pose proof (inv_current st Hi) as Hc. unfold schedule, address, set_message. wp_go.
  case_decide; [wp_go; cbn [fst snd]; auto using ready_to_app with go|].
  case_decide; wp_go; cbn [fst snd]; [auto using ready_to_app with go|].
  destruct Hr as (Hb & Hfi & Hre). split; [done|]. destruct x as [bs [e|]]; wp_go; cbn [fst snd]; eauto with go.
  destruct (retried e); wp_go; eauto with go.
Qed.

(** The address is confirmed. *)
Lemma synchronize_wp p infra st tr :
  inv st → ready_to infra tr →
  wp allowed (synchronize p infra st) tr (λ tr' r, step_ok tr' r.1 r.2 (λ _, configured tr')).
Proof.
  intros Hi (Hb & Hfi & Hre). pose proof (inv_current st Hi) as Hc. unfold synchronize, address, set_message. wp_go.
  split; [done|]. destruct x as [e|]; wp_go; cbn [fst snd].
  - destruct (retried e || errors_Is e NoEndpointsError); wp_go; eauto with go.
  - apply step_ok_done; [by apply inv_set_conds; destruct Hi as [[? ?] ? ?]|].
    exists infra, (res (current st)). split_and!; [eauto with go|done|].
    rewrite !elem_of_app. left. right. by left.
Qed.

Lemma configured_app tr tr' : configured tr → configured (tr ++ tr').
Proof. intros (infra & a & H1 & H2 & H3). exists infra, a. rewrite elem_of_app. eauto with go. Qed.

Lemma finish_wp p st tr :
  inv st → configured tr →
  wp allowed ((r ← Process (finish p); mret (Result_ r.1.1, r.1.2) : ctl C (Result * option error)) st) tr (λ tr' r, settled tr' r.2).
Proof.
  intros [[Hm Hs] Hd _] Hc. apply last_ok. unfold finish, set_message, status_equal. wp_go. cbn [negb andb]. wp_go.
  split; [split_and!; [done|done|right; by apply configured_app]|]. split; [done|]. split.
  - intros e. split_and!; [done|done|]. right. by do 2 apply configured_app.
  - destruct x0; [done|]. intros _. eexists. split_and!; [by do 2 apply configured_app|apply elem_of_app; right; by left|done|done].
Qed.

Lemma new_ctx_inv spare : inv (new_ctx found spare).
Proof. by repeat split. Qed.

(** Whatever is answered, a reconciliation of an address it has read does not panic, does
    only what is allowed, and does not stop half way. *)
Lemma reconcile_wp grow spare tr :
  wp allowed (reconcile grow (new_ctx found spare)) tr (λ tr' r, settled tr' r.2).
Proof.
  unfold reconcile, Process. apply ctl_wp_bind, ctl_wp_bind. eapply wp_mono; [apply wp_grows, initialize_wp; [apply new_ctx_inv|done]|].
  intros tr1 [st1 [r p]] [(Hr & Hi1 & Hf1) [new1 ->]]. cbn [fst snd] in *. subst r. cbn [is_error Requeue RequeueAfter done_ orb Z.ltb]. rewrite andb_false_r. wp_go.
  apply (stage_ok _ _ _ _ (λ _ _ _, finalized)); [by apply finalize_wp|]. intros _ st2 new2 Hi2 Hfin.
  apply (stage_ok _ _ _ _ (λ _ x tr', ∃ infra, x = Some infra ∧ bound ns infra tr')); [by apply lookup_wp|].
  intros x st3 new3 Hi3 (infra & -> & Hb).
  apply (stage_ok _ _ _ _ (λ _ _ tr', references_exist tr')); [by apply validate_wp|]. intros _ st4 new4 Hi4 Href.
  apply (stage_ok _ _ _ _ (λ _ _ tr', ready_to infra tr')); [apply schedule_wp; [done|]; split_and!; eauto with go|].
  intros _ st5 new5 Hi5 Hready.
  apply (stage_ok _ _ _ _ (λ _ _ tr', configured tr')); [by apply synchronize_wp|]. intros _ st6 new6 Hi6 Hconf.
  by apply finish_wp.
Qed.
End Policy.
