(* ===== verification/ProjectController.v ===== *)
(** The controller of projects
    ([pkg/controller/messagingproject/messagingproject_controller.go]): the finalizer, the
    choice of an infrastructure, scheduling, synchronization and the authority of the
    project, step by step. *)
From stdpp Require Import base gmap strings pretty list.
From S2P Require Import Prelude ApiV1 KubeObjects Conditions Reconcile Finalizer Certs AddressController.

Definition MessagingProjectBound : string := "Bound".
Definition MessagingProjectCaCreated : string := "CaCreated".
Definition MessagingProjectScheduled : string := "Scheduled".
Definition MessagingProjectCreated : string := "Created".
Definition MessagingProjectReady : string := "Ready".

Definition MessagingProjectConfiguring : string := "Configuring".
Definition MessagingProjectActive : string := "Active".
Definition MessagingProjectTerminating : string := "Terminating".

Definition MessagingCapabilityTransactional : string := "transactional".

(** ** The status of a project *)

Definition set_project_Status (f : MessagingProjectStatus → MessagingProjectStatus) (p : MessagingProject) : MessagingProject :=
  {| p_meta := p_meta p; p_Spec := p_Spec p; p_Status := f (p_Status p) |}.

Definition set_project_Phase (phase : string) : MessagingProject → MessagingProject := set_project_Status (λ s,
  {| ps_Phase := phase; ps_Message := ps_Message s; ps_StatusInfrastructureRef := ps_StatusInfrastructureRef s;
     ps_Conditions := ps_Conditions s; ps_StatusCapabilities := ps_StatusCapabilities s; ps_Broker := ps_Broker s |}).
Definition set_Capabilities (cs : list string) : MessagingProject → MessagingProject := set_project_Status (λ s,
  {| ps_Phase := ps_Phase s; ps_Message := ps_Message s; ps_StatusInfrastructureRef := ps_StatusInfrastructureRef s;
     ps_Conditions := ps_Conditions s; ps_StatusCapabilities := cs; ps_Broker := ps_Broker s |}).
Definition set_InfrastructureRef (r : MessagingInfrastructureReference) : MessagingProject → MessagingProject := set_project_Status (λ s,
  {| ps_Phase := ps_Phase s; ps_Message := ps_Message s; ps_StatusInfrastructureRef := r;
     ps_Conditions := ps_Conditions s; ps_StatusCapabilities := ps_StatusCapabilities s; ps_Broker := ps_Broker s |}).

#[global] Instance project_kind : Kind MessagingProject := {|
  Conditions_of p := ps_Conditions (p_Status p);
  with_Conditions cs := set_project_Status (λ s,
    {| ps_Phase := ps_Phase s; ps_Message := ps_Message s; ps_StatusInfrastructureRef := ps_StatusInfrastructureRef s;
       ps_Conditions := cs; ps_StatusCapabilities := ps_StatusCapabilities s; ps_Broker := ps_Broker s |});
  with_Message m := set_project_Status (λ s,
    {| ps_Phase := ps_Phase s; ps_Message := m; ps_StatusInfrastructureRef := ps_StatusInfrastructureRef s;
       ps_Conditions := ps_Conditions s; ps_StatusCapabilities := ps_StatusCapabilities s; ps_Broker := ps_Broker s |});
  Update := UpdateProject;
  StatusUpdate := UpdateProjectStatus;
|}.

(** ** The choice of an infrastructure *)

Definition selects (namespace : string) (infra : MessagingInfrastructure) : bool :=
  match i_NamespaceSelector infra with Some names => existsb (λ ns, bool_decide (ns = namespace)) names | None => false end.

Definition is_active (infra : MessagingInfrastructure) : bool := bool_decide (is_Phase (i_Status infra) = MessagingInfrastructureActive).

(** The loop of [findBestMatch]: whether [bestMatch] and [bestMatchSelector] are set. The
    infrastructure [bestMatch] points to is the variable of the loop. *)
Definition match_step (namespace : string) (acc : bool * bool) (infra : MessagingInfrastructure) : bool * bool :=
  if negb (is_active infra) then acc
  else
    match i_NamespaceSelector infra with
    | None => if negb acc.1 then (true, acc.2) else acc
    | Some _ => if selects namespace infra && negb acc.2 then (true, true) else acc
    end.

(** When the loop has ended its variable has the last infrastructure. *)
Definition findBestMatch (namespace : string) (infras : list MessagingInfrastructure) : option MessagingInfrastructure :=
  if (foldl (match_step namespace) (false, false) infras).1 then last infras else None.

Section ProjectController.
Context `{HX : !X509} (grow : nat → nat).
Notation C := (Ctx MessagingProject).

Definition project : ctl C MessagingProject := reads (λ s, res (current s)).

(** ** The first step *)

Definition initialize_project : processor MessagingProject () :=
  _ ← writes (set_res (λ p, if decide (ps_Phase (p_Status p) = "") then set_project_Phase MessagingProjectConfiguring p else p));
  _ ← writes (set_res (λ p, set_Capabilities (ps_Capabilities (p_Spec p)) p));
  _ ← get_condition grow MessagingProjectBound;
  _ ← get_condition grow MessagingProjectCaCreated;
  _ ← get_condition grow MessagingProjectScheduled;
  _ ← get_condition grow MessagingProjectCreated;
  _ ← get_condition grow MessagingProjectReady;
  mret (done_, None, ()).

(** ** The finalizer *)

Definition waiting (addresses endpoints : nat) : string :=
  "unable to delete MessagingProject: waiting for " +:+ pretty addresses +:+ " addresses and " +:+ pretty endpoints +:+
  " endpoints to be deleted".

Definition deconstruct_project : ctl C (Result * option error) :=
  p ← project;
  endpoints ← call (ListMessagingEndpoints (Namespace (p_meta p)));
  match endpoints with
  | inl err => mret (no_result, Some (api_error err))
  | inr endpoints =>
      addresses ← call (ListMessagingAddresses (Namespace (p_meta p)));
      match addresses with
      | inl err => mret (no_result, Some (api_error err))
      | inr addresses =>
          if decide (0 < length addresses ∨ 0 < length endpoints)
          then mret (no_result, Some (Errorf (waiting (length addresses) (length endpoints))))
          else if IsBound p then
            let ref := ps_StatusInfrastructureRef (p_Status p) in
            infra ← call (GetMessagingInfrastructure (ref_Namespace ref) (ref_Name ref));
            match infra with
            | inl err => mret (no_result, Some (api_error err))
            | inr (infra, _) =>
                err ← call (DeleteProject (res infra) p);
                match err with
                | Some err => mret (no_result, Some err)
                | None =>
                    err ← call (DeleteObject SecretKind (ref_Namespace ref) (GetProjectCaSecretName (Namespace (p_meta p))));
                    match err with
                    | Some err => if k8errors_IsNotFound (api_error err) then mret (no_result, None)
                                  else mret (no_result, Some (api_error err))
                    | None => mret (no_result, None)
                    end
                end
            end
          else mret (no_result, None)
      end
  end.

Definition finalize_project : processor MessagingProject () :=
  o ← reads current;
  if decide (is_Some (DeletionTimestamp o) ∧ ps_Phase (p_Status (res o)) ≠ MessagingProjectTerminating) then
    _ ← writes (set_res (set_project_Phase MessagingProjectTerminating));
    o ← reads current; err ← call (StatusUpdate o); mret (requeue, api_error <$> err, ())
  else
    original ← reads current;
    r ← ProcessFinalizers [{| f_Name := FINALIZER_NAME; Deconstruct := Some deconstruct_project |}];
    match r with
    | (_, Some err) => mret (done_, Some err, ())
    | (result, None) =>
        o ← reads current;
        if r_Requeue result && negb (bool_decide (original = o)) then
          err ← call (Update o); mret (return_, api_error <$> err, ())
        else mret ({| Requeue := r_Requeue result; RequeueAfter := 0; Return := false |}, None, ())
    end.

(** ** The infrastructure *)

Definition find_infra : processor MessagingProject (option MessagingInfrastructure) :=
  p ← project;
  if negb (IsBound p) then
    infras ← call ListMessagingInfrastructures;
    match infras with
    | inl err => mret (done_, Some (api_error err), None)
    | inr infras => mret (done_, None, findBestMatch (Namespace (p_meta p)) infras)
    end
  else
    let ref := ps_StatusInfrastructureRef (p_Status p) in
    infra ← call (GetMessagingInfrastructure (ref_Namespace ref) (ref_Name ref));
    match infra with
    | inl err =>
        if k8errors_IsNotFound (api_error err) then
          let msg := "Infrastructure " +:+ ref_Namespace ref +:+ "/" +:+ ref_Name ref +:+ " not found!" in
          _ ← set_message msg;
          _ ← mark grow MessagingProjectBound ConditionFalse msg;
          mret (requeue_after (10 * Second), None, None)
        else mret (done_, Some (api_error err), None)
    | inr (infra, _) => mret (done_, None, Some (res infra))
    end.

Definition bind_infra (infra : option MessagingInfrastructure) : processor MessagingProject () :=
  match infra with
  | Some infra =>
      _ ← mark grow MessagingProjectBound ConditionTrue "";
      _ ← writes (set_res (set_InfrastructureRef {| ref_Name := Name (i_meta infra); ref_Namespace := Namespace (i_meta infra) |}));
      mret (done_, None, ())
  | None =>
      let msg := "Not yet bound to any infrastructure" in
      _ ← mark grow MessagingProjectBound ConditionFalse msg;
      _ ← set_message msg;
      mret (requeue_after (10 * Second), None, ())
  end.

(** ** Scheduling, synchronization and the authority *)

Definition transactional (p : MessagingProject) : bool :=
  existsb (λ c, bool_decide (c = MessagingCapabilityTransactional)) (ps_StatusCapabilities (p_Status p)).

Definition schedule_project (infra : MessagingInfrastructure) : processor MessagingProject () :=
  p ← project;
  if negb (transactional p) then
    _ ← mark grow MessagingProjectScheduled ConditionTrue ""; mret (done_, None, ())
  else if decide (is_Some (ps_Broker (p_Status p))) then
    _ ← mark grow MessagingProjectScheduled ConditionTrue ""; mret (done_, None, ())
  else
    r ← call (ScheduleProject infra p);
    _ ← writes (set_res (set_Broker r.1));
    match r.2 with
    | Some err =>
        _ ← mark grow MessagingProjectScheduled ConditionFalse (Error err);
        _ ← set_message (Error err);
        if retried err then mret (requeue_after (10 * Second), None, ()) else mret (done_, Some err, ())
    | None => _ ← mark grow MessagingProjectScheduled ConditionTrue ""; mret (requeue, None, ())
    end.

Definition synchronize_project (infra : MessagingInfrastructure) : processor MessagingProject () :=
  p ← project;
  err ← call (SyncProject infra p);
  match err with
  | Some err =>
      _ ← mark grow MessagingProjectCreated ConditionFalse (Error err);
      _ ← set_message (Error err);
      mret (done_, Some err, ())
  | None => _ ← mark grow MessagingProjectCreated ConditionTrue ""; mret (done_, None, ())
  end.

Definition authority (infra : MessagingInfrastructure) : processor MessagingProject () :=
  p ← project;
  r ← ReconcileProjectCa certController infra (Namespace (p_meta p));
  match r with
  | inl err =>
      _ ← set_message (Error err);
      _ ← mark grow MessagingProjectCaCreated ConditionFalse (Error err);
      mret (done_, Some err, ())
  | inr _ => _ ← mark grow MessagingProjectCaCreated ConditionTrue ""; mret (done_, None, ())
  end.

(** The last step; the log message reads two conditions of the project. *)
Definition finish_project : processor MessagingProject () :=
  _ ← writes (set_res (set_project_Phase MessagingProjectActive));
  _ ← set_message "";
  _ ← mark grow MessagingProjectReady ConditionTrue "";
  if negb status_equal then
    _ ← get_condition grow MessagingProjectBound;
    _ ← get_condition grow MessagingProjectReady;
    o ← reads current; err ← call (StatusUpdate o); mret (done_, api_error <$> err, ())
  else mret (done_, None, ()).

(** ** [Reconcile] *)

Definition reconcile_project : ctl C (Result * option error) :=
  _ ← Process initialize_project;
  stage finalize_project (λ _,
  stage find_infra (λ infra,
  stage (bind_infra infra) (λ _,
  match infra with
  | None => crash
  | Some infra =>
      stage (schedule_project infra) (λ _,
      stage (synchronize_project infra) (λ _,
      stage (authority infra) (λ _,
      r ← Process finish_project; mret (Result_ r.1.1, r.1.2))))
  end))).

Definition ReconcileProject (namespace name : string) : io kube (Result * option error) :=
  if decide (name ≠ PROJECT_RESOURCE_NAME) then Ret (no_result, None)
  else
    Vis (GetMessagingProject namespace name) (λ r,
      match r with
      | inl err => if k8errors_IsNotFound (api_error err) then Ret (no_result, None) else Ret (no_result, Some (api_error err))
      | inr (found, spare) => r ← reconcile_project (new_ctx found spare); Ret r.2
      end).
End ProjectController.
