(* ===== verification/ProjectFacts.v ===== *)
(** What the controller of projects does and does not do, whatever it is answered, and
    which infrastructure it chooses. *)
From stdpp Require Import base gmap sets strings list.
From S2P Require Import Prelude ApiV1 KubeObjects Conditions Reconcile Finalizer ControllerFacts Certs CertFacts.
From S2P Require Import AddressController ProjectController.

(** ** The choice of an infrastructure *)

(** An infrastructure that can serve a namespace. *)
Definition serves (namespace : string) (infra : MessagingInfrastructure) : bool :=
  is_active infra && match i_NamespaceSelector infra with None => true | Some _ => selects namespace infra end.

Lemma match_steps namespace infras acc :
  let r := foldl (match_step namespace) acc infras in
  (acc.2 = true → acc.1 = true) →
  (r.2 = true → r.1 = true) ∧ (r.1 = true ↔ acc.1 = true ∨ ∃ i, i ∈ infras ∧ serves namespace i = true).
Proof.
  revert acc. induction infras as [|i infras IH]; intros [b1 b2] r Hacc; subst r; simpl in *; [set_solver|].
  assert (∀ acc', (acc'.2 = true → acc'.1 = true) → (acc'.1 = true ↔ b1 = true ∨ serves namespace i = true) →
    (let r := foldl (match_step namespace) acc' infras in
     (r.2 = true → r.1 = true) ∧ (r.1 = true ↔ b1 = true ∨ ∃ i', i' ∈ i :: infras ∧ serves namespace i' = true))) as H.
  { intros acc' H1 H2. destruct (IH acc' H1) as [H3 H4]. split; [done|]. rewrite H4, H2. set_solver. }
  apply H; clear H IH; unfold match_step, serves, selects; destruct (is_active i); simpl; [|done| |naive_solver].
  - destruct (i_NamespaceSelector i); simpl; [destruct (existsb _ _), b2|destruct b1]; simpl; naive_solver.
  - destruct (i_NamespaceSelector i); simpl; [destruct (existsb _ _), b2|destruct b1]; simpl; naive_solver.
Qed.

(** The choice is the last infrastructure of the list, whether it serves the namespace or
    not, as soon as one does. *)
Lemma findBestMatch_last namespace infras :
  findBestMatch namespace infras = if existsb (serves namespace) infras then last infras else None.
Proof.
  unfold findBestMatch. destruct (match_steps namespace infras (false, false)) as [_ H]; [done|]. simpl in H.
  destruct (existsb (serves namespace) infras) eqn:He.
  - apply existsb_exists in He as (i & Hi & Hs). rewrite (proj2 H); [done|]. right. exists i. by rewrite list_elem_of_In.
  - destruct (foldl _ _ infras).1; [|done]. destruct (proj1 H eq_refl) as [?|(i & Hi & Hs)]; [done|].
    assert (existsb (serves namespace) infras = true); [|congruence]. apply existsb_exists. exists i. by rewrite <-list_elem_of_In.
Qed.

Section Policy.
Context `{HX : !X509} `{HL : !X509Laws}.
Context (found : Resource MessagingProject).
Notation ns := (Namespace (p_meta (res found))).
Notation ref := (ps_StatusInfrastructureRef (p_Status (res found))).
Notation C := (Ctx MessagingProject).
Implicit Types (st : C) (tr : trace).

(** ** What is allowed *)

Definition same_project (p : MessagingProject) : Prop := p_meta p = p_meta (res found) ∧ p_Spec p = p_Spec (res found).

(** The infrastructure of the project: the one it is bound to, or one that is chosen. *)
Definition chosen (infra : MessagingInfrastructure) tr : Prop :=
  if IsBound (res found)
  then ∃ i spare, Ev (GetMessagingInfrastructure (ref_Namespace ref) (ref_Name ref)) (inr (i, spare)) ∈ tr ∧ infra = res i
  else ∃ infras, Ev ListMessagingInfrastructures (inr infras) ∈ tr ∧ findBestMatch ns infras = Some infra.

(** The project has a reference to the infrastructure. *)
Definition refers (p : MessagingProject) (infra : MessagingInfrastructure) : Prop :=
  ps_StatusInfrastructureRef (p_Status p) = {| ref_Name := Name (i_meta infra); ref_Namespace := Namespace (i_meta infra) |}.

Definition synced (infra : MessagingInfrastructure) tr : Prop :=
  ∃ p, same_project p ∧ refers p infra ∧ Ev (SyncProject infra p) None ∈ tr.

(** The project is configured and has its authority. *)
Definition established tr : Prop :=
  ∃ infra secret, chosen infra tr ∧ synced infra tr ∧ store_ca infra ns secret None ∈ tr.

(** The namespace was seen without endpoints and without addresses. *)
Definition empty_namespace tr : Prop :=
  Ev (ListMessagingEndpoints ns) (inr []) ∈ tr ∧ Ev (ListMessagingAddresses ns) (inr []) ∈ tr.

Definition project_taken_down tr : Prop :=
  empty_namespace tr ∧
  (IsBound (res found) = true → ∃ infra p, chosen infra tr ∧ same_project p ∧ Ev (DeleteProject infra p) None ∈ tr).

Definition project_finalized : Prop := FINALIZER_NAME ∈ Finalizers found ↔ DeletionTimestamp found = None.

Definition project_allowed tr (ev : event kube) : Prop :=
  match ev with
  | Ev e _ =>
      match e with
      | UpdateProjectStatus p =>
          same_project (res p) ∧ DeletionTimestamp p = DeletionTimestamp found ∧
          (ps_Phase (p_Status (res p)) = MessagingProjectActive →
            ps_Phase (p_Status (res found)) = MessagingProjectActive ∨ established tr)
      | UpdateProject p =>
          same_project (res p) ∧ DeletionTimestamp p = DeletionTimestamp found ∧
          (∀ f, f ≠ FINALIZER_NAME → f ∈ Finalizers p ↔ f ∈ Finalizers found) ∧
          (FINALIZER_NAME ∉ Finalizers p → is_Some (DeletionTimestamp found) ∧ project_taken_down tr)
      | ScheduleProject infra p => same_project p ∧ refers p infra ∧ chosen infra tr ∧ project_finalized ∧ ps_Broker (p_Status p) = None
      | SyncProject infra p => same_project p ∧ refers p infra ∧ chosen infra tr ∧ project_finalized
      | Store k sns name o =>
          match k in okind T return T → Prop with
          | SecretKind => λ secret', ∃ infra secret now, chosen infra tr ∧ synced infra tr ∧
              sns = Namespace (i_meta infra) ∧ name = GetProjectCaSecretName ns ∧
              Ev (Existing SecretKind sns name) (inr secret) ∈ tr ∧ ca_applied certController secret now secret'
          | _ => λ _, False
          end o
      | DeleteProject infra p =>
          same_project p ∧ chosen infra tr ∧ is_Some (DeletionTimestamp found) ∧ FINALIZER_NAME ∈ Finalizers found ∧ empty_namespace tr
      | DeleteObject k sns name =>
          match k with
          | SecretKind => name = GetProjectCaSecretName ns ∧ ∃ infra p, chosen infra tr ∧ Ev (DeleteProject infra p) None ∈ tr
          | _ => False
          end
      | e => reads_only e = true
      end
  end.

(** The status says that the project is established. *)
Definition project_reached tr : Prop :=
  ∃ p, established tr ∧ Ev (UpdateProjectStatus p) None ∈ tr ∧
    ps_Phase (p_Status (res p)) = MessagingProjectActive ∧ ps_Message (p_Status (res p)) = "".

(** ** The state of a reconciliation *)

Record project_inv st : Prop := {
  project_inv_same : same_project (res (obj st));
  project_inv_deletion : DeletionTimestamp (obj st) = DeletionTimestamp found;
  project_inv_phase : ps_Phase (p_Status (res (obj st))) = MessagingProjectActive →
                      ps_Phase (p_Status (res found)) = MessagingProjectActive;
}.

#[local, refine] Instance project_policy : Policy MessagingProject := {|
  allowed := project_allowed;
  inv := project_inv;
  written tr := ∃ p, Ev (UpdateProject p) None ∈ tr;
  reached := project_reached;
|}.
Proof.
  - intros tr X e x H. by destruct e.
  - by intros cs st [? ? ?].
  - by intros m st [[? ?] ? ?].
  - intros st tr e [[? ?] ? Hp]. split_and!; [done|done|]. intros ?. left. by apply Hp.
Defined.
Lemma project_inv_current st : inv st → same_project (res (current st)).
Proof. by intros [[? ?] _ _]. Qed.

(** The reference of the project is the one it was found with. *)
Definition at_ref st : Prop := ps_StatusInfrastructureRef (p_Status (res (obj st))) = ref.

Lemma IsBound_current st : at_ref st → IsBound (res (current st)) = IsBound (res found).
Proof. intros H. unfold IsBound. cbn. by rewrite H. Qed.

(** ** The steps *)

Lemma initialize_project_wp grow spare tr :
  wp allowed (initialize_project grow (new_ctx found spare)) tr (λ _ r,
    r.2.1 = (done_, None) ∧ inv r.1 ∧ Finalizers (obj r.1) = Finalizers found ∧ at_ref r.1).
Proof.
  unfold initialize_project. wp_go. split; [done|]. unfold at_ref. cbn [obj set_conds set_res res new_ctx]. split_and!; [|done|].
  - split; cbn [obj set_conds set_res res new_ctx DeletionTimestamp]; [|done|]; case_decide; done.
  - case_decide; done.
Qed.

Lemma deconstruct_project_wp st tr :
  inv st → at_ref st → is_Some (DeletionTimestamp found) → FINALIZER_NAME ∈ Finalizers found →
  wp allowed (deconstruct_project st) tr (λ tr' r, r.1 = st ∧ (r_RequeueAfter r.2.1 = 0)%Z ∧
    (r.2.2 = None → r_Requeue r.2.1 = false → project_taken_down tr')).
Proof.
  intros Hi Hat Hdel Hfin. pose proof (project_inv_current st Hi) as Hc. pose proof Hc as [Hm Hs]. pose proof (IsBound_current st Hat) as Hb.
  assert (ps_StatusInfrastructureRef (p_Status (res (current st))) = ref) as Hr by exact Hat.
  unfold deconstruct_project, project. wp_go. rewrite Hm, Hb, Hr. split; [done|].
  destruct x as [|endpoints]; wp_go; [done|]. split; [done|]. destruct x as [|addresses]; wp_go; [done|].
  case_decide as Hn; wp_go; [done|]. assert (addresses = []) as -> by (destruct addresses; simpl in *; [done|lia]).
  assert (endpoints = []) as -> by (destruct endpoints; simpl in *; [done|lia]).
  set (tr0 := (tr ++ _) ++ _). assert (empty_namespace tr0) as Hempty by (unfold empty_namespace; set_solver).
  assert (∀ new, empty_namespace (tr0 ++ new)) as Hempty' by (intros new; unfold empty_namespace in *; set_solver). clearbody tr0.
  destruct (IsBound (res found)) eqn:Hbound; wp_go; [|by split_and!; [done..|split; [done|congruence]]].
  split; [done|]. destruct x as [|[infra spare]]; wp_go; [done|].
  assert (∀ new, chosen (res infra) ((tr0 ++ [Ev (GetMessagingInfrastructure (ref_Namespace ref) (ref_Name ref)) (inr (infra, spare))]) ++ new)) as Hch.
  { intros new. unfold chosen. rewrite Hbound. exists infra, spare. split; [set_solver|done]. }
  split. { split_and!; [done|rewrite <-(app_nil_r (_ ++ _)); apply Hch|done|done|apply Hempty']. }
  destruct x as [|]; wp_go; [done|].
  split. { split; [done|]. exists (res infra), (res (current st)). split; [apply Hch|set_solver]. }
  assert (∀ new, project_taken_down (((tr0 ++ [Ev (GetMessagingInfrastructure (ref_Namespace ref) (ref_Name ref)) (inr (infra, spare))]) ++
    [Ev (DeleteProject (res infra) (res (current st))) None]) ++ new)) as Hdown.
  { intros new. split; [rewrite <-!app_assoc; apply Hempty'|]. intros _. exists (res infra), (res (current st)).
    split_and!; [rewrite <-(app_assoc (_ ++ _)); apply Hch|done|set_solver]. }
  destruct x as [err|]; [destruct (k8errors_IsNotFound (api_error err))|]; wp_go; by split_and!.
Qed.
Lemma finalize_project_wp st tr :
  inv st → Finalizers (obj st) = Finalizers found → at_ref st →
  wp allowed (finalize_project st) tr (λ tr' r, step_ok tr' r.1 r.2 (λ _, project_finalized ∧ at_ref r.1)).
Proof.
  intros Hi Hf Hat. pose proof (project_inv_deletion st Hi) as Hdel. unfold finalize_project. wp_go. case_decide as Hd.
  { assert (inv (set_res (set_project_Phase MessagingProjectTerminating) st)) as Hi' by (by destruct Hi as [[? ?] ? ?]).
    wp_go. split; [by apply inv_status|]. split; [done|]. split; [done|by destruct x]. }
  wp_go. eapply wp_mono; [apply (ProcessFinalizers_ok _ _ _ _ project_taken_down); [done|by intros fs st' []|]|].
  { rewrite Hdel, Hf. intros Hs Hin. eapply wp_mono; [by apply deconstruct_project_wp|]. intros tr' r (-> & Ha & Ht). by split_and!. }
  intros tr' [st' [result [e|]]] Hok; cbn [fst snd] in *; [destruct Hok as [Hi' _]; wp_go; eauto with go|].
  pose proof Hok as (Hi' & Hdel' & _). eapply wp_mono; [apply (write_back_ok _ _ _ st _ _ _ Hok)|]; rewrite ?Hdel, ?Hf.
  - intros e Hfs Hfin. destruct Hi' as [[Hm Hs] Hdl Hph]. by split_and!.
  - exists (current st'). apply elem_of_app. right. by left.
  - intros tr'' r (H1 & H2 & H3). split_and!; [done..|]. intros H. destruct (H3 H) as [-> Hfin]. by split.
Qed.

Lemma find_infra_wp grow st tr :
  inv st → at_ref st →
  wp allowed (find_infra grow st) tr (λ tr' r, step_ok tr' r.1 r.2 (λ x, ∀ infra, x = Some infra → chosen infra tr')).
Proof.
  intros Hi Hat. pose proof (project_inv_current st Hi) as [Hm _]. pose proof (IsBound_current st Hat) as Hb.
  assert (ps_StatusInfrastructureRef (p_Status (res (current st))) = ref) as Hr by exact Hat.
  unfold find_infra, project, set_message. wp_go. rewrite Hm, Hb, Hr. destruct (IsBound (res found)) eqn:Hbound; cbn [negb]; wp_go; (split; [done|]).
  - destruct x as [err|[i spare]]; [destruct (k8errors_IsNotFound (api_error err))|]; wp_go.
    + apply mark_wp. intros new cs. wp_go. eauto with go.
    + eauto with go.
    + apply step_ok_done; [done|]. intros infra [= <-]. unfold chosen. rewrite Hbound. exists i, spare. split; [set_solver|done].
  - destruct x as [err|infras]; wp_go; [eauto with go|]. apply step_ok_done; [done|]. intros infra Hinfra. unfold chosen. rewrite Hbound.
    exists infras. split; [set_solver|done].
Qed.

Lemma bind_infra_wp grow infra st tr :
  inv st →
  wp allowed (bind_infra grow infra st) tr (λ tr' r, step_ok tr' r.1 r.2 (λ _, ∃ i, infra = Some i ∧ refers (res (obj r.1)) i)).
Proof.
  intros Hi. unfold bind_infra, set_message. destruct infra as [i|]; wp_go; apply mark_wp; intros new cs; wp_go; cbn [fst snd].
  - apply step_ok_done; [|by exists i]. destruct Hi as [[? ?] ? ?]. by repeat split.
  - eauto with go.
Qed.

(** What follows can rely on the choice. *)
Definition choice_ok infra tr st : Prop := chosen infra tr ∧ project_finalized ∧ refers (res (obj st)) infra.

Lemma chosen_app infra tr tr' : chosen infra tr → chosen infra (tr ++ tr').
Proof.
  unfold chosen. destruct (IsBound (res found)).
  - intros (i & spare & H & Hi). exists i, spare. rewrite elem_of_app. auto.
  - intros (infras & H & Hi). exists infras. rewrite elem_of_app. auto.
Qed.

Lemma choice_ok_app infra tr tr' st : choice_ok infra tr st → choice_ok infra (tr ++ tr') st.
Proof. intros (H1 & H2 & H3). split_and!; [by apply chosen_app|done|done]. Qed.

Lemma choice_ok_conds infra tr cs st : choice_ok infra tr st → choice_ok infra tr (set_conds cs st).
Proof. done. Qed.

Hint Resolve choice_ok_app choice_ok_conds chosen_app : go.

Lemma schedule_project_wp grow infra st tr :
  inv st → choice_ok infra tr st →
  wp allowed (schedule_project grow infra st) tr (λ tr' r, step_ok tr' r.1 r.2 (λ _, choice_ok infra tr' r.1)).
Proof.
  intros Hi Hch. pose proof Hch as (H1 & H2 & H3). pose proof (project_inv_current st Hi) as Hc.
  unfold schedule_project, project, set_message. wp_go. destruct (transactional (res (current st))); cbn [negb]; wp_go.
  - case_decide as Hb; wp_go.
    + apply mark_wp. intros new cs. wp_go. cbn [fst snd]. eauto with go.
    + split. { split_and!; [done|done|done|done|by apply eq_None_not_Some]. }
      assert (∀ b, inv (set_res (set_Broker b) st)) as Hi' by (by destruct Hi as [[? ?] ? ?]).
      destruct x as [b [e|]]; wp_go; apply mark_wp; intros new cs; wp_go; cbn [fst snd]; [|eauto with go].
      destruct (retried e); wp_go; cbn [fst snd]; eauto with go.
  - apply mark_wp. intros new cs. wp_go. cbn [fst snd]. eauto with go.
Qed.

Lemma synced_app infra tr tr' : synced infra tr → synced infra (tr ++ tr').
Proof. intros (p & H1 & H2 & H3). exists p. rewrite elem_of_app. auto. Qed.

Hint Resolve synced_app : go.

Lemma synchronize_project_wp grow infra st tr :
  inv st → choice_ok infra tr st →
  wp allowed (synchronize_project grow infra st) tr (λ tr' r, step_ok tr' r.1 r.2 (λ _, choice_ok infra tr' r.1 ∧ synced infra tr')).
Proof.
  intros Hi Hch. pose proof Hch as (H1 & H2 & H3). pose proof (project_inv_current st Hi) as Hc.
  unfold synchronize_project, project, set_message. wp_go. split; [by split_and!|].
  destruct x as [e|]; wp_go; apply mark_wp; intros new cs; wp_go; cbn [fst snd]; [eauto with go|].
  apply step_ok_done; [eauto with go|]. split; [eauto with go|]. apply synced_app. exists (res (current st)). split_and!; [done|done|set_solver].
Qed.

Lemma authority_wp grow infra st tr :
  inv st → choice_ok infra tr st → synced infra tr →
  wp allowed (authority grow infra st) tr (λ tr' r, step_ok tr' r.1 r.2 (λ _, established tr')).
Proof.
  intros Hi (H1 & H2 & H3) Hs. pose proof (project_inv_current st Hi) as [Hm _]. unfold authority, project, set_message. wp_go. rewrite Hm.
  apply ReconcileProjectCa_wp; [by intros; apply allowed_reads| |].
  - intros new secret now secret' x Hex Hca. exists infra, secret, now. split_and!; [eauto with go|eauto with go|done|done|set_solver|done].
  - intros new [e|[]] Hr; cbn [fst snd]; wp_go; apply mark_wp; intros new' cs; wp_go; cbn [fst snd]; [eauto with go|].
    apply step_ok_done; [eauto with go|]. destruct (Hr eq_refl) as (secret' & Hst). exists infra, secret'.
    split_and!; [eauto with go|eauto with go|set_solver].
Qed.

Lemma established_app tr tr' : established tr → established (tr ++ tr').
Proof. intros (infra & secret & H1 & H2 & H3). exists infra, secret. split_and!; [eauto with go..|apply elem_of_app; by left]. Qed.

Hint Resolve established_app : go.

Lemma finish_project_wp grow st tr :
  inv st → established tr →
  wp allowed ((r ← Process (finish_project grow); mret (Result_ r.1.1, r.1.2) : ctl C (Result * option error)) st) tr
    (λ tr' r, settled tr' r.2).
Proof.
  intros [[Hm Hs] Hd _] He. apply last_ok. unfold finish_project, set_message, status_equal. wp_go. apply mark_wp. intros new cs.
  cbn [fst snd negb andb]. wp_go. split; [split_and!; [done|done|right; eauto with go]|]. split; [done|]. split.
  - intros e. split_and!; [done|done|]. right. eauto with go.
  - destruct x1; [done|]. intros _. eexists. split_and!; [eauto with go|apply elem_of_app; right; by left|done|done].
Qed.

(** Whatever is answered, a reconciliation of a project does not panic, does only what is
    allowed, and does not stop half way. *)
Lemma reconcile_project_wp grow spare tr :
  wp allowed (reconcile_project grow (new_ctx found spare)) tr (λ tr' r, settled tr' r.2).
Proof.
  unfold reconcile_project, Process. apply ctl_wp_bind, ctl_wp_bind. eapply wp_mono; [apply wp_grows, initialize_project_wp|].
  intros tr1 [st1 [r p]] [(Hr & Hi1 & Hf1 & Hat1) [new1 ->]]. cbn [fst snd] in *. subst r.
  cbn [is_error Requeue RequeueAfter done_ orb Z.ltb]. rewrite andb_false_r. wp_go.
  apply (stage_ok _ _ _ _ (λ st _ _, project_finalized ∧ at_ref st)); [by apply finalize_project_wp|]. intros _ st2 new2 Hi2 [Hfin Hat2].
  apply (stage_ok _ _ _ _ (λ _ x tr', ∀ infra, x = Some infra → chosen infra tr')); [by apply find_infra_wp|].
  intros infra st3 new3 Hi3 Hch.
  apply (stage_ok _ _ _ _ (λ st _ _, ∃ i, infra = Some i ∧ refers (res (obj st)) i)); [by apply bind_infra_wp|].
  intros _ st4 new4 Hi4 (i & -> & Href).
  assert (choice_ok i (((tr ++ new1) ++ new2) ++ new3 ++ new4) st4) as Hc by (rewrite app_assoc; split_and!; [apply chosen_app; by apply Hch|done..]).
  rewrite app_assoc in Hc.
  apply (stage_ok _ _ _ _ (λ st _ tr', choice_ok i tr' st)); [by apply schedule_project_wp|]. intros _ st5 new5 Hi5 Hc5.
  apply (stage_ok _ _ _ _ (λ st _ tr', choice_ok i tr' st ∧ synced i tr')); [by apply synchronize_project_wp|]. intros _ st6 new6 Hi6 [Hc6 Hs6].
  apply (stage_ok _ _ _ _ (λ _ _ tr', established tr')); [by apply authority_wp|]. intros _ st7 new7 Hi7 He.
  by apply finish_project_wp.
Qed.
End Policy.
