(* ===== verification/EndpointController.v ===== *)
(** The controller of endpoints
    ([pkg/controller/messagingendpoint/messagingendpoint_controller.go]): the finalizer,
    the ports of the routers, the service and the route or ingress in front of them, the
    certificates, and synchronization, step by step. *)
From stdpp Require Import base gmap strings pretty list.
From S2P Require Import Prelude ApiV1 KubeObjects Conditions Reconcile Finalizer Certs AddressController.

Definition openShiftServiceCAAnnotationServingCertBeta : string := "service.beta.openshift.io/serving-cert-secret-name".

Definition MessagingEndpointFoundProject : string := "FoundProject".
Definition MessagingEndpointConfiguredTls : string := "ConfiguredTLS".
Definition MessagingEndpointAllocatedPorts : string := "AllocatedPorts".
Definition MessagingEndpointCreated : string := "Created".
Definition MessagingEndpointServiceCreated : string := "ServiceCreated".
Definition MessagingEndpointReady : string := "Ready".

(** [routev1.TLSTerminationPassthrough] and [routev1.TLSTerminationReencrypt]. *)
Definition TLSTerminationPassthrough : string := "passthrough".
Definition TLSTerminationReencrypt : string := "reencrypt".

(** ** The status of an endpoint *)

Definition set_endpoint_Status (f : MessagingEndpointStatus → MessagingEndpointStatus) (e : MessagingEndpoint) : MessagingEndpoint :=
  {| e_meta := e_meta e; e_Spec := e_Spec e; e_Status := f (e_Status e) |}.

Definition set_endpoint_Phase (phase : string) : MessagingEndpoint → MessagingEndpoint := set_endpoint_Status (λ s,
  {| es_Phase := phase; es_Type := es_Type s; es_Message := es_Message s; es_Conditions := es_Conditions s; es_StatusHost := es_StatusHost s;
     es_Ports := es_Ports s; es_Tls := es_Tls s; es_InternalPorts := es_InternalPorts s |}).
Definition set_endpoint_Type (t : string) : MessagingEndpoint → MessagingEndpoint := set_endpoint_Status (λ s,
  {| es_Phase := es_Phase s; es_Type := t; es_Message := es_Message s; es_Conditions := es_Conditions s; es_StatusHost := es_StatusHost s;
     es_Ports := es_Ports s; es_Tls := es_Tls s; es_InternalPorts := es_InternalPorts s |}).
Definition set_Host (host : string) : MessagingEndpoint → MessagingEndpoint := set_endpoint_Status (λ s,
  {| es_Phase := es_Phase s; es_Type := es_Type s; es_Message := es_Message s; es_Conditions := es_Conditions s; es_StatusHost := host;
     es_Ports := es_Ports s; es_Tls := es_Tls s; es_InternalPorts := es_InternalPorts s |}).
Definition set_Ports (ports : list MessagingEndpointPort) : MessagingEndpoint → MessagingEndpoint := set_endpoint_Status (λ s,
  {| es_Phase := es_Phase s; es_Type := es_Type s; es_Message := es_Message s; es_Conditions := es_Conditions s; es_StatusHost := es_StatusHost s;
     es_Ports := ports; es_Tls := es_Tls s; es_InternalPorts := es_InternalPorts s |}).
Definition set_Tls (tls : MessagingEndpointStatusTls) : MessagingEndpoint → MessagingEndpoint := set_endpoint_Status (λ s,
  {| es_Phase := es_Phase s; es_Type := es_Type s; es_Message := es_Message s; es_Conditions := es_Conditions s; es_StatusHost := es_StatusHost s;
     es_Ports := es_Ports s; es_Tls := Some tls; es_InternalPorts := es_InternalPorts s |}).

#[global] Instance endpoint_kind : Kind MessagingEndpoint := {|
  Conditions_of e := es_Conditions (e_Status e);
  with_Conditions cs := set_endpoint_Status (λ s,
    {| es_Phase := es_Phase s; es_Type := es_Type s; es_Message := es_Message s; es_Conditions := cs; es_StatusHost := es_StatusHost s;
       es_Ports := es_Ports s; es_Tls := es_Tls s; es_InternalPorts := es_InternalPorts s |});
  with_Message m := set_endpoint_Status (λ s,
    {| es_Phase := es_Phase s; es_Type := es_Type s; es_Message := m; es_Conditions := es_Conditions s; es_StatusHost := es_StatusHost s;
       es_Ports := es_Ports s; es_Tls := es_Tls s; es_InternalPorts := es_InternalPorts s |});
  Update := UpdateEndpoint;
  StatusUpdate := UpdateEndpointStatus;
|}.

(** The type of an endpoint, by the part of the specification that is set. *)
Definition endpoint_type (spec : MessagingEndpointSpec) : option string :=
  if decide (is_Some (Cluster spec)) then Some "Cluster"
  else if decide (is_Some (NodePort spec)) then Some "NodePort"
  else if decide (is_Some (LoadBalancer spec)) then Some "LoadBalancer"
  else if decide (is_Some (Route spec)) then Some "Route"
  else if decide (is_Some (Ingress spec)) then Some "Ingress"
  else None.

(** ** Names *)

Definition getServiceName (endpoint : MessagingEndpoint) : string :=
  Namespace (e_meta endpoint) +:+ "-" +:+ Name (e_meta endpoint).
Definition getOpenShiftCertSecret (serviceName : string) : string := serviceName +:+ "-openshift-cert".

(** The two maps; a key that is missing gives the empty string. *)
Definition protocolToPortName (protocol : string) : string :=
  if decide (protocol = MessagingProtocolAMQP) then "amqp"
  else if decide (protocol = MessagingProtocolAMQPS) then "amqps"
  else if decide (protocol = MessagingProtocolAMQPWS) then "amqp-ws"
  else if decide (protocol = MessagingProtocolAMQPWSS) then "amqp-wss"
  else "".
Definition portNameToProtocol (name : string) : string :=
  if decide (name = "amqp") then MessagingProtocolAMQP
  else if decide (name = "amqps") then MessagingProtocolAMQPS
  else if decide (name = "amqp-ws") then MessagingProtocolAMQPWS
  else if decide (name = "amqp-wss") then MessagingProtocolAMQPWSS
  else "".

(** ** The service *)

Definition service_type (spec : MessagingEndpointSpec) : string :=
  if decide (is_Some (NodePort spec)) then ServiceTypeNodePort
  else if decide (is_Some (LoadBalancer spec)) then ServiceTypeLoadBalancer
  else ServiceTypeClusterIP.

(** The port of the service, by protocol. *)
Definition service_port (protocol : string) : option Z :=
  if decide (protocol = MessagingProtocolAMQP) then Some 5672%Z
  else if decide (protocol = MessagingProtocolAMQPS) then Some 5671%Z
  else if decide (protocol = MessagingProtocolAMQPWS) then Some 80%Z
  else if decide (protocol = MessagingProtocolAMQPWSS) then Some 433%Z
  else None.

(** One internal port: nothing is done when the service has a port of that name. *)
Definition add_service_port (ports : list ServicePort) (internalPort : MessagingEndpointPort) : list ServicePort :=
  let name := protocolToPortName (p_Protocol internalPort) in
  if existsb (λ sp, bool_decide (sp_Name sp = name)) ports then ports
  else
    match service_port (p_Protocol internalPort) with
    | None => ports
    | Some port =>
        ports ++ [{| sp_Name := name; sp_Protocol := ProtocolTCP; sp_Port := port; sp_TargetPort := FromInt (p_Port internalPort); sp_NodePort := 0 |}]
    end.

(** What the service of an endpoint is made of. *)
Definition endpoint_service (infra : MessagingInfrastructure) (endpoint : MessagingEndpoint) (service : Service) : Service :=
  let serviceName := getServiceName endpoint in
  let s := ApplyServiceDefaults "endpoint" (Name (e_meta endpoint)) service in
  let annotations := Annotations (e_Spec endpoint) ∪ s_Annotations s in
  {| s_Labels := s_Labels s;
     s_Annotations :=
       match Tls (e_Spec endpoint) with
       | Some t =>
           if decide (is_Some (Openshift t))
           then <[openShiftServiceCAAnnotationServingCertBeta := getOpenShiftCertSecret serviceName]> annotations
           else annotations
       | None => annotations
       end;
     s_Owners := s_Owners s;
     s_Type := service_type (e_Spec endpoint);
     s_ClusterIP := s_ClusterIP s;
     s_Selector := <["component" := "router"]> (<[LABEL_INFRA := Name (i_meta infra)]> ∅);
     s_Ports := foldl add_service_port (s_Ports s) (InternalPorts endpoint);
     s_LoadBalancerIngress := s_LoadBalancerIngress s |}.

(** ** The route and the ingress *)

(** The labels of the objects that are not secrets. *)
Definition default_labels (serviceName : string) (labels : gmap string string) : gmap string string :=
  CreateDefaultLabels labels "endpoint" serviceName.

(** The TLS configuration of a route that has none. *)
Definition route_tls (spec : MessagingEndpointSpec) (termination protocol : string) (tls : option RouteTLSConfig)
    : error + option RouteTLSConfig :=
  if decide (is_Some (Tls spec)) then
    if decide (protocol = MessagingProtocolAMQPS ∧ termination ≠ TLSTerminationPassthrough)
    then inl (Errorf "route endpoints require passthrough termination for AMQPS protocol")
    else inr (match tls with None => Some {| Termination := termination; DestinationCACertificate := "" |} | Some _ => tls end)
  else if decide (protocol = MessagingProtocolAMQPWSS) then
    inr (match tls with None => Some {| Termination := TLSTerminationEdge; DestinationCACertificate := "" |} | Some _ => tls end)
  else inr tls.

Definition endpoint_route (endpoint : MessagingEndpoint) (r : MessagingEndpointSpecRoute) (protocol : string) (route : RouteObject)
    : error + RouteObject :=
  let serviceName := getServiceName endpoint in
  let spec := e_Spec endpoint in
  match route_tls spec (default TLSTerminationPassthrough (TlsTermination r)) protocol (r_TLS route) with
  | inl e => inl e
  | inr tls =>
      inr {| r_Labels := default_labels serviceName (r_Labels route);
             r_Annotations := Annotations spec ∪ r_Annotations route;
             r_Host := default (r_Host route) (es_Host spec);
             r_To := ("Service", serviceName);
             r_TLS := tls;
             r_Port := Some (protocolToPortName protocol) |}
  end.

Definition endpoint_ingress (endpoint : MessagingEndpoint) (host protocol : string) (ingress : IngressObject) : IngressObject :=
  let serviceName := getServiceName endpoint in
  let spec := e_Spec endpoint in
  {| in_Labels := default_labels serviceName (in_Labels ingress);
     in_Annotations := Annotations spec ∪ in_Annotations ingress;
     in_Rules := [{| ir_Host := host; ir_Path := "/"; ir_ServiceName := serviceName; ir_ServicePort := protocolToPortName protocol |}];
     in_TLS := if decide (is_Some (Tls spec)) then [[host]] else in_TLS ingress |}.

(** The protocols for which an endpoint without TLS configuration is refused. *)
Definition needs_tls (e : MessagingEndpoint) : bool :=
  existsb (λ protocol, bool_decide (protocol = MessagingProtocolAMQPS) ||
                       (bool_decide (protocol = MessagingProtocolAMQPWSS) && negb (IsEdgeTerminated e))) (es_Protocols (e_Spec e)).

(** The first host name or IP of the load balancer. *)
Fixpoint first_host (ingresses : list (string * string)) : string :=
  match ingresses with
  | [] => ""
  | (hostname, ip) :: rest => if decide (hostname ≠ "") then hostname else if decide (ip ≠ "") then ip else first_host rest
  end.

Section EndpointController.
Context `{HX : !X509} (grow : nat → nat).
Notation C := (Ctx MessagingEndpoint).
Notation M A := (ctl C (error + A)).

Definition endpoint : ctl C MessagingEndpoint := reads (λ s, res (current s)).

(** ** The first step *)

Definition initialize_endpoint : processor MessagingEndpoint () :=
  _ ← writes (set_res (λ e, if decide (es_Phase (e_Status e) = "") then set_endpoint_Phase MessagingEndpointConfiguring e else e));
  _ ← writes (set_res (λ e, match endpoint_type (e_Spec e) with Some t => set_endpoint_Type t e | None => e end));
  _ ← get_condition grow MessagingEndpointFoundProject;
  _ ← get_condition grow MessagingEndpointConfiguredTls;
  _ ← get_condition grow MessagingEndpointAllocatedPorts;
  _ ← get_condition grow MessagingEndpointCreated;
  _ ← get_condition grow MessagingEndpointServiceCreated;
  _ ← get_condition grow MessagingEndpointReady;
  mret (done_, None, ()).

(** ** The finalizer *)

(** An object that need not exist is deleted. *)
Definition delete_object {O} (k : okind O) (ns name : string) : M () :=
  err ← call (DeleteObject k ns name);
  match err with
  | Some err => if k8errors_IsNotFound (api_error err) then ok () else fail (api_error err)
  | None => ok ()
  end.

Definition delete_all (infra : MessagingInfrastructure) : M () :=
  e ← endpoint;
  r ← call (DeleteEndpoint infra e);
  _ ← writes (set_res (set_InternalPorts r.1));
  match r.2 with
  | Some err => fail err
  | None =>
      e ← endpoint;
      try _ ← DeleteEndpointCert infra e;
      let ns := Namespace (i_meta infra) in
      try _ ← (if decide (is_Some (Ingress (e_Spec e))) then delete_object IngressKind ns (getServiceName e) else ok ());
      try _ ← (if decide (is_Some (Route (e_Spec e))) then delete_object RouteKind ns (getServiceName e) else ok ());
      delete_object ServiceKind ns (getServiceName e)
  end.

Definition deconstruct_endpoint : ctl C (Result * option error) :=
  e ← endpoint;
  r ← LookupInfra (Namespace (e_meta e));
  match r with
  | (_, _, Some err) =>
      if utilerrors_IsNotBound err || utilerrors_IsNotFound err then mret (no_result, None) else mret (no_result, Some err)
  | (_, None, None) => crash
  | (_, Some infra, None) =>
      r ← delete_all infra;
      mret (no_result, match r with inl err => Some err | inr _ => None end)
  end.

Definition reconcileFinalizer : processor MessagingEndpoint () :=
  o ← reads current;
  if decide (is_Some (DeletionTimestamp o) ∧ es_Phase (e_Status (res o)) ≠ MessagingEndpointTerminating) then
    _ ← writes (set_res (set_endpoint_Phase MessagingEndpointTerminating));
    o ← reads current; err ← call (StatusUpdate o); mret (requeue, api_error <$> err, ())
  else
    original ← reads current;
    r ← ProcessFinalizers [{| f_Name := FINALIZER_NAME; Deconstruct := Some deconstruct_endpoint |}];
    match r with
    | (_, Some err) => mret (done_, Some err, ())
    | (result, None) =>
        o ← reads current;
        if r_Requeue result && negb (bool_decide (original = o)) then
          err ← call (Update o); mret (return_, api_error <$> err, ())
        else mret ({| Requeue := r_Requeue result; RequeueAfter := 0; Return := false |}, None, ())
    end.

(** ** The infrastructure *)

Definition lookup_endpoint : processor MessagingEndpoint (option MessagingInfrastructure) :=
  e ← endpoint;
  r ← LookupInfra (Namespace (e_meta e));
  let '(_, i, err) := r in
  match err with
  | Some err =>
      if k8errors_IsNotFound err || utilerrors_IsNotBound err then
        _ ← mark grow MessagingEndpointFoundProject ConditionFalse (Error err);
        _ ← set_message (Error err);
        mret (requeue_after (10 * Second), None, None)
      else
        _ ← mark grow MessagingEndpointFoundProject ConditionTrue ""; mret (done_, Some err, i)
  | None => _ ← mark grow MessagingEndpointFoundProject ConditionTrue ""; mret (done_, None, i)
  end.

(** ** The ports of the routers *)

Definition allocate (infra : MessagingInfrastructure) : processor MessagingEndpoint () :=
  e ← endpoint;
  match es_Protocols (e_Spec e) with
  | [] =>
      let err := Errorf "must specify at least 1 protocol" in
      _ ← mark grow MessagingEndpointAllocatedPorts ConditionFalse (Error err);
      _ ← set_message (Error err);
      mret (done_, Some err, ())
  | _ =>
      r ← call (AllocatePorts infra e (es_Protocols (e_Spec e)));
      _ ← writes (set_res (set_InternalPorts r.1));
      match r.2 with
      | Some err =>
          _ ← mark grow MessagingEndpointAllocatedPorts ConditionFalse (Error err);
          _ ← set_message (Error err);
          if retried err then mret (requeue_after (10 * Second), None, ())
          else
            e ← endpoint;
            ports ← call (FreePorts infra e);
            _ ← writes (set_res (set_InternalPorts ports));
            mret (done_, Some err, ())
      | None =>
          _ ← mark grow MessagingEndpointAllocatedPorts ConditionTrue "";
          mret ({| Requeue := negb (bool_decide (InternalPorts e = r.1)); RequeueAfter := 0; Return := false |}, None, ())
      end
  end.

(** ** The objects in front of the routers *)

Definition reconcileEndpointExternal (infra : MessagingInfrastructure) : M () :=
  e ← endpoint;
  let spec := e_Spec e in
  let serviceName := getServiceName e in
  let ns := Namespace (i_meta infra) in
  try _ ← get_object ServiceKind ns serviceName;
  match es_Protocols spec with
  | [] => crash
  | protocol :: rest =>
      if decide (0 < length rest) then fail (Errorf "route and ingress endpoints can only handle 1 protocol")
      else if decide (protocol = MessagingProtocolAMQP)
      then fail (Errorf "route and ingress endpoints can only handle TLS-enabled AMQP protocol")
      else
        match Route spec with
        | Some r =>
            openshift ← call IsOpenshift;
            if negb openshift then fail (Errorf "route endpoints are only supported on OpenShift")
            else
              try (_, _) ← CreateOrUpdate RouteKind ns serviceName (λ route,
                match endpoint_route e r protocol route with inl err => fail err | inr route => ok (route, ()) end);
              ok ()
        | None =>
            match Ingress spec, es_Host spec with
            | Some _, None => fail (Errorf "ingress endpoints require host to be set")
            | Some _, Some host =>
                try (_, _) ← CreateOrUpdate IngressKind ns serviceName (λ ingress, ok (endpoint_ingress e host protocol ingress, ()));
                ok ()
            | None, _ => ok ()
            end
        end
  end.

Definition endpoint_hostname (infra : MessagingInfrastructure) : M string :=
  e ← endpoint;
  let spec := e_Spec e in
  let serviceName := getServiceName e in
  let ns := Namespace (i_meta infra) in
  match es_Host spec with
  | Some host => ok host
  | None =>
      if decide (is_Some (NodePort spec) ∨ is_Some (Cluster spec)) then ok (serviceName +:+ "." +:+ ns +:+ ".svc")
      else if decide (is_Some (LoadBalancer spec)) then
        try service ← get_object ServiceKind ns serviceName;
        ok (first_host (s_LoadBalancerIngress service))
      else if decide (is_Some (Route spec)) then
        openshift ← call IsOpenshift;
        if negb openshift then fail (Errorf "route endpoints are only supported on OpenShift")
        else try route ← get_object RouteKind ns serviceName; ok (r_Host route)
      else if decide (is_Some (Ingress spec)) then fail (Errorf "ingress endpoints require host to be set")
      else ok ""
  end.

(** The loop over the ports of the service; what was found stays when it fails. *)
Fixpoint add_ports (spec : MessagingEndpointSpec) (ports : list ServicePort) : M () :=
  match ports with
  | [] => ok ()
  | sp :: rest =>
      if decide (is_Some (NodePort spec) ∧ sp_NodePort sp = 0%Z) then fail (Errorf "nodePort not yet set for service")
      else
        let port := if decide (is_Some (NodePort spec)) then sp_NodePort sp else sp_Port sp in
        let port := if decide (is_Some (LoadBalancer spec) ∧ sp_NodePort sp ≠ 0%Z) then sp_NodePort sp else port in
        _ ← writes (set_res (λ e, set_Ports (es_Ports (e_Status e) ++
          [{| p_Name := sp_Name sp; p_Protocol := portNameToProtocol (sp_Name sp); p_Port := port |}]) e));
        add_ports spec rest
  end.

Definition ingress_port (protocol : string) : MessagingEndpointPort :=
  {| p_Name := protocolToPortName protocol; p_Protocol := protocol;
     p_Port := if decide (protocol = MessagingProtocolAMQPWS) then 80 else 443 |}.

Definition reconcileEndpointPorts (infra : MessagingInfrastructure) : M () :=
  _ ← writes (set_res (set_Ports []));
  e ← endpoint;
  let spec := e_Spec e in
  if decide (is_Some (NodePort spec) ∨ is_Some (Cluster spec) ∨ is_Some (LoadBalancer spec)) then
    try service ← get_object ServiceKind (Namespace (i_meta infra)) (getServiceName e);
    if decide (length (s_Ports service) = 0) then fail (Errorf "no service ports found")
    else add_ports spec (s_Ports service)
  else if decide (is_Some (Route spec) ∨ is_Some (Ingress spec)) then
    _ ← writes (set_res (set_Ports (ingress_port <$> es_Protocols spec)));
    ok ()
  else ok ().

Definition reconcileEndpointService (infra : MessagingInfrastructure) : M () :=
  e ← endpoint;
  let spec := e_Spec e in
  try (_, _) ← CreateOrUpdate ServiceKind (Namespace (i_meta infra)) (getServiceName e) (λ service, ok (endpoint_service infra e service, ()));
  try _ ← (if decide (is_Some (Route spec) ∨ is_Some (Ingress spec)) then reconcileEndpointExternal infra else ok ());
  try hostname ← endpoint_hostname infra;
  _ ← writes (set_res (set_Host hostname));
  reconcileEndpointPorts infra.

Definition create_service (infra : MessagingInfrastructure) : processor MessagingEndpoint () :=
  r ← reconcileEndpointService infra;
  match r with
  | inl err =>
      _ ← set_message (Error err);
      _ ← mark grow MessagingEndpointServiceCreated ConditionFalse (Error err);
      mret (done_, Some err, ())
  | inr _ => _ ← mark grow MessagingEndpointServiceCreated ConditionTrue ""; mret (done_, None, ())
  end.

(** ** Certificates *)

Definition getInputValue (input : InputValue) : M bytes :=
  if decide (iv_Value input ≠ "") then ok (Some (iv_Value input))
  else
    match iv_FromSecret input with
    | None => fail (Errorf "missing secret reference")
    | Some (name, key) =>
        e ← endpoint;
        try secret ← get_object SecretKind (Namespace (e_meta e)) name;
        ok (data secret key)
    end.

(** A certificate that is given goes to the shared secret, and its validity to the status. *)
Definition use_values (infra : MessagingInfrastructure) (key crt : bytes) : M processorResult :=
  e ← endpoint;
  try _ ← ReconcileEndpointCertFromValues infra e key crt;
  try info ← lift (GetCertInfo crt key);
  _ ← writes (set_res (set_Tls {| CertificateValidity := Some (ci_NotBefore info, ci_NotAfter info); CaCertificate := "" |}));
  ok done_.

(** The route needs to know the authority when it encrypts again. *)
Definition reencrypt (infra : MessagingInfrastructure) (ca : string) : M processorResult :=
  e ← endpoint;
  let ns := Namespace (i_meta infra) in
  openshift ← call IsOpenshift;
  if openshift && bool_decide ((Route (e_Spec e) ≫= TlsTermination) = Some TLSTerminationReencrypt) then
    try route ← get_object RouteKind ns (getServiceName e);
    match r_TLS route with
    | Some tls =>
        if decide (DestinationCACertificate tls = "") then
          err ← call (UpdateObject RouteKind ns (getServiceName e)
                        {| r_Labels := r_Labels route; r_Annotations := r_Annotations route; r_Host := r_Host route; r_To := r_To route;
                           r_TLS := Some {| Termination := Termination tls; DestinationCACertificate := ca |}; r_Port := r_Port route |});
          match err with Some err => fail (api_error err) | None => ok requeue end
        else ok done_
    | None => ok done_
    end
  else ok done_.

Definition self_signed (infra : MessagingInfrastructure) : M processorResult :=
  e ← endpoint;
  if decide (es_StatusHost (e_Status e) = "") then ok (requeue_after (5 * Second))
  else
    try info ← ReconcileEndpointCert certController infra e;
    try secret ← get_object SecretKind (Namespace (i_meta infra)) (GetProjectCaSecretName (Namespace (e_meta e)));
    let ca := default "" (data secret "tls.crt") in
    _ ← writes (set_res (set_Tls {| CertificateValidity := Some (ci_NotBefore info, ci_NotAfter info); CaCertificate := ca |}));
    reencrypt infra ca.

Definition openshift_cert (infra : MessagingInfrastructure) : M processorResult :=
  e ← endpoint;
  try secret ← get_object SecretKind (Namespace (i_meta infra)) (getOpenShiftCertSecret (getServiceName e));
  if decide (data secret "tls.key" = None ∨ data secret "tls.crt" = None)
  then fail (Errorf "secret not yet poulated with certificates")
  else use_values infra (data secret "tls.key") (data secret "tls.crt").

Definition reconcileEndpointTls (infra : MessagingInfrastructure) : M processorResult :=
  e ← endpoint;
  match Tls (e_Spec e) with
  | None =>
      if needs_tls e then fail (Errorf "protocol requiring TLS is enabled but no TLS configuration specified") else ok done_
  | Some t =>
      if decide (is_Some (Selfsigned t)) then self_signed infra
      else if decide (is_Some (Openshift t)) then openshift_cert infra
      else
        match External t with
        | Some (key, certificate) =>
            try key ← getInputValue key;
            try value ← getInputValue certificate;
            use_values infra key value
        | None => fail (Errorf "TLS configuration is missing certificate configuration")
        end
  end.

(** The condition is set whatever the result is, as long as there is no error. *)
Definition configure_tls (infra : MessagingInfrastructure) : processor MessagingEndpoint () :=
  r ← reconcileEndpointTls infra;
  match r with
  | inl err =>
      _ ← set_message (Error err);
      _ ← mark grow MessagingEndpointConfiguredTls ConditionFalse (Error err);
      mret (done_, Some err, ())
  | inr result =>
      e ← endpoint;
      _ ← (if decide (is_Some (Tls (e_Spec e)) ∧ es_Phase (e_Status e) ≠ MessagingEndpointActive) then call (Sleep (5 * Second)) else mret ());
      _ ← mark grow MessagingEndpointConfiguredTls ConditionTrue "";
      mret (result, None, ())
  end.

(** ** Synchronization *)

Definition synchronize_endpoint (infra : MessagingInfrastructure) : processor MessagingEndpoint () :=
  e ← endpoint;
  err ← call (SyncEndpoint infra e);
  match err with
  | Some err =>
      _ ← mark grow MessagingEndpointCreated ConditionFalse (Error err);
      _ ← set_message (Error err);
      if retried err then mret (requeue_after (10 * Second), None, ()) else mret (done_, Some err, ())
  | None => _ ← mark grow MessagingEndpointCreated ConditionTrue ""; mret (done_, None, ())
  end.

Definition finish_endpoint : processor MessagingEndpoint () :=
  e ← endpoint;
  if decide (es_StatusHost (e_Status e) = "") then
    let err := Errorf "hostname is not yet defined" in
    _ ← set_message (Error err);
    _ ← mark grow MessagingEndpointReady ConditionFalse (Error err);
    mret (requeue_after (5 * Second), None, ())
  else
    _ ← writes (set_res (set_endpoint_Phase MessagingEndpointActive));
    _ ← set_message "";
    _ ← mark grow MessagingEndpointReady ConditionTrue "";
    if negb status_equal then o ← reads current; err ← call (StatusUpdate o); mret (done_, api_error <$> err, ())
    else mret (done_, None, ()).

(** ** [Reconcile] *)

Definition reconcile_endpoint : ctl C (Result * option error) :=
  _ ← Process initialize_endpoint;
  stage reconcileFinalizer (λ _,
  stage lookup_endpoint (λ infra,
  match infra with
  | None => crash
  | Some infra =>
      stage (allocate infra) (λ _,
      stage (create_service infra) (λ _,
      stage (configure_tls infra) (λ _,
      stage (synchronize_endpoint infra) (λ _,
      r ← Process finish_endpoint; mret (Result_ r.1.1, r.1.2)))))
  end)).

Definition ReconcileEndpoint (namespace name : string) : io kube (Result * option error) :=
  Vis (GetMessagingEndpoint namespace name) (λ r,
    match r with
    | inl err => if k8errors_IsNotFound (api_error err) then Ret (no_result, None) else Ret (no_result, Some (api_error err))
    | inr (found, spare) => r ← reconcile_endpoint (new_ctx found spare); Ret r.2
    end).
End EndpointController.
