(* ===== verification/EndpointFacts.v ===== *)
(** What the controller of endpoints does and does not do, whatever it is answered, and
    what the objects it writes are like: the ports of the service of an endpoint, and that
    storing it again changes nothing. *)
From stdpp Require Import base gmap sets strings list.
From S2P Require Import Prelude ApiV1 Conditions KubeObjects Reconcile Finalizer ControllerFacts Certs CertFacts.
From S2P Require Import AddressController EndpointController.

Section Policy.
Context `{HX : !X509} `{HL : !X509Laws}.
Context (found : Resource MessagingEndpoint).
Notation ns := (Namespace (e_meta (res found))).
Notation spec := (e_Spec (res found)).
Notation svc := (getServiceName (res found)).
Notation C := (Ctx MessagingEndpoint).
Implicit Types (st : C) (tr : trace) (infra : MessagingInfrastructure).

(** ** What is allowed *)

Definition same_endpoint (e : MessagingEndpoint) : Prop := e_meta e = e_meta (res found) ∧ e_Spec e = spec.

(** The service of the endpoint is stored. *)
Definition service_stored infra tr : Prop :=
  ∃ service, Ev (Store ServiceKind (Namespace (i_meta infra)) svc service) None ∈ tr.

(** The secret of the routers holds a certificate of the endpoint and its key. *)
Definition certified infra tr : Prop :=
  ∃ secret cert, known infra secret tr ∧ holds (endpoint_config (res found)) secret cert.

Definition tls_ready infra tr : Prop :=
  match Tls spec with None => needs_tls (res found) = false | Some _ => certified infra tr end.

(** The endpoint is up: the service, the certificate and the listeners of the routers. *)
Definition serving tr : Prop :=
  ∃ infra e, bound ns infra tr ∧ same_endpoint e ∧ service_stored infra tr ∧ tls_ready infra tr ∧ Ev (SyncEndpoint infra e) None ∈ tr.

Definition endpoint_finalized : Prop := FINALIZER_NAME ∈ Finalizers found ↔ DeletionTimestamp found = None.

Definition deleted_from infra tr : Prop := ∃ e ports, same_endpoint e ∧ Ev (DeleteEndpoint infra e) (ports, None) ∈ tr.

(** An object of the endpoint was deleted, or was not there. *)
Definition gone {O} (k : okind O) infra tr : Prop :=
  ∃ r, Ev (DeleteObject k (Namespace (i_meta infra)) svc) r ∈ tr ∧ (r = None ∨ ∃ msg, r = Some (ApiNotFound msg)).

(** Nothing is left of the endpoint: the listeners, the certificate, the ingress, the route
    and the service. *)
Definition endpoint_taken_down tr : Prop :=
  unbound ns tr ∨
  ∃ infra, bound ns infra tr ∧ deleted_from infra tr ∧ uncertified infra (res found) tr ∧
    (is_Some (Ingress spec) → gone IngressKind infra tr) ∧ (is_Some (Route spec) → gone RouteKind infra tr) ∧
    gone ServiceKind infra tr.

(** What the objects that are stored have been made of. *)
Definition made_of infra {O} (k : okind O) : O → O → Prop :=
  match k with
  | ServiceKind => λ o o', ∃ e, same_endpoint e ∧ o' = endpoint_service infra e o
  | RouteKind => λ o o', ∃ e r protocol, same_endpoint e ∧ Route spec = Some r ∧ es_Protocols spec = [protocol] ∧
      endpoint_route e r protocol o = inr o'
  | IngressKind => λ o o', ∃ e host protocol, same_endpoint e ∧ is_Some (Ingress spec) ∧ es_Host spec = Some host ∧
      es_Protocols spec = [protocol] ∧ o' = endpoint_ingress e host protocol o
  | SecretKind | StatefulSetKind | ConfigMapKind | PodKind => λ _ _, False
  end.

Definition endpoint_allowed tr (ev : event kube) : Prop :=
  match ev with
  | Ev e _ =>
      match e with
      | UpdateEndpointStatus e =>
          same_endpoint (res e) ∧ DeletionTimestamp e = DeletionTimestamp found ∧
          (es_Phase (e_Status (res e)) = MessagingEndpointActive →
            es_Phase (e_Status (res found)) = MessagingEndpointActive ∨ (serving tr ∧ es_StatusHost (e_Status (res e)) ≠ ""))
      | UpdateEndpoint e =>
          same_endpoint (res e) ∧ DeletionTimestamp e = DeletionTimestamp found ∧
          (∀ f, f ≠ FINALIZER_NAME → f ∈ Finalizers e ↔ f ∈ Finalizers found) ∧
          (FINALIZER_NAME ∉ Finalizers e → is_Some (DeletionTimestamp found) ∧ endpoint_taken_down tr)
      | AllocatePorts infra e protocols =>
          same_endpoint e ∧ bound ns infra tr ∧ endpoint_finalized ∧ protocols = es_Protocols spec ∧ protocols ≠ []
      | FreePorts infra e => same_endpoint e ∧ bound ns infra tr
      | Store k sns name o' =>
          ∃ infra o, bound ns infra tr ∧ endpoint_finalized ∧ sns = Namespace (i_meta infra) ∧ name = svc ∧
            Ev (Existing k sns name) (inr o) ∈ tr ∧ made_of infra k o o'
      | UpdateObject k sns name o =>
          ∃ infra, bound ns infra tr ∧ sns = Namespace (i_meta infra) ∧
          match k in okind T return T → Prop with
          | SecretKind => λ secret', name = GetProjectSecretName (Name (i_meta infra)) ∧
              ((∃ t, Tls spec = Some t ∧ is_Some (Selfsigned t)) ∨
               ∃ secret, shared infra secret tr ∧ ∀ k, k ∉ entries (res found) → Data secret' !! k = Data secret !! k)
          | RouteKind => λ _, name = svc ∧ certified infra tr
          | _ => λ _, False
          end o
      | SyncEndpoint infra e =>
          same_endpoint e ∧ bound ns infra tr ∧ endpoint_finalized ∧ service_stored infra tr ∧ tls_ready infra tr
      | DeleteEndpoint infra e =>
          same_endpoint e ∧ bound ns infra tr ∧ is_Some (DeletionTimestamp found) ∧ FINALIZER_NAME ∈ Finalizers found
      | DeleteObject k sns name =>
          ∃ infra, bound ns infra tr ∧ deleted_from infra tr ∧ sns = Namespace (i_meta infra) ∧ name = svc ∧
          match k with SecretKind => False | _ => True end
      | e => reads_only e = true
      end
  end.

(** The status says that the endpoint is up. *)
Definition endpoint_reached tr : Prop :=
  ∃ e, serving tr ∧ Ev (UpdateEndpointStatus e) None ∈ tr ∧
    es_Phase (e_Status (res e)) = MessagingEndpointActive ∧ es_Message (e_Status (res e)) = "".

(** ** The state of a reconciliation *)

Record endpoint_inv st : Prop := {
  endpoint_inv_same : same_endpoint (res (obj st));
  endpoint_inv_deletion : DeletionTimestamp (obj st) = DeletionTimestamp found;
  endpoint_inv_phase : es_Phase (e_Status (res (obj st))) = MessagingEndpointActive →
                       es_Phase (e_Status (res found)) = MessagingEndpointActive;
}.

#[local, refine] Instance endpoint_policy : Policy MessagingEndpoint := {|
  allowed := endpoint_allowed;
  inv := endpoint_inv;
  written tr := ∃ e, Ev (UpdateEndpoint e) None ∈ tr;
  reached := endpoint_reached;
|}.
Proof.
  - intros tr X e x H. by destruct e.
  - by intros cs st [? ? ?].
  - by intros m st [[? ?] ? ?].
  - intros st tr e [[? ?] ? Hp]. split_and!; [done|done|]. intros ?. left. by apply Hp.
Defined.

Lemma endpoint_inv_current st : inv st → same_endpoint (res (current st)).
Proof. by intros [[? ?] _ _]. Qed.

(** The parts of the status that the steps set. *)
Lemma inv_ports ports st : inv st → inv (set_res (set_InternalPorts ports) st).
Proof. by intros [[? ?] ? ?]. Qed.
Lemma inv_host host st : inv st → inv (set_res (set_Host host) st).
Proof. by intros [[? ?] ? ?]. Qed.
Lemma inv_tls tls st : inv st → inv (set_res (set_Tls tls) st).
Proof. by intros [[? ?] ? ?]. Qed.
Lemma inv_status_ports f st : inv st → inv (set_res (λ e, set_Ports (f e) e) st).
Proof. by intros [[? ?] ? ?]. Qed.

Lemma same_names e : same_endpoint e → getServiceName e = svc ∧ endpoint_config e = endpoint_config (res found) ∧ entries e = entries (res found).
Proof. intros [Hm _]. unfold getServiceName, entries, endpoint_config. by rewrite Hm. Qed.

Lemma same_needs_tls e : same_endpoint e → needs_tls e = needs_tls (res found).
Proof. intros [_ Hs]. unfold needs_tls, IsEdgeTerminated. by rewrite Hs. Qed.

Hint Resolve inv_ports inv_host inv_tls inv_status_ports : go.

(** A call that can fail: the state stays as it should be, and what its value tells. *)
Definition call_ok {A} st tr (r : error + A) (post : A → Prop) : Prop := inv st ∧ ∀ a, r = inr a → post a.

Lemma call_ok_error {A} st tr e (post : A → Prop) : inv st → call_ok st tr (inl e) post.
Proof. by intros Hi. Qed.
Lemma call_ok_value {A} st tr a (post : A → Prop) : inv st → post a → call_ok st tr (inr a) post.
Proof. intros Hi Hp. split; [done|]. by intros ? [= <-]. Qed.

Hint Resolve call_ok_error call_ok_value : go.

Lemma try_ok {A B} (m : ctl C (error + A)) (k : A → ctl C (error + B)) st tr (mid : A → trace → Prop) (post : B → trace → Prop) :
  wp allowed (m st) tr (λ tr' r, call_ok r.1 tr' r.2 (λ a, mid a tr')) →
  (∀ a st' new, inv st' → mid a (tr ++ new) → wp allowed (k a st') (tr ++ new) (λ tr' r, call_ok r.1 tr' r.2 (λ b, post b tr'))) →
  wp allowed (try_ m k st) tr (λ tr' r, call_ok r.1 tr' r.2 (λ b, post b tr')).
Proof.
  intros Hm Hk. apply try_wp. eapply wp_mono; [apply wp_grows, Hm|]. intros tr' [st' [e|a]] [[Hi Hp] [new ->]]; cbn [fst snd] in *.
  - eauto with go.
  - by apply Hk, Hp.
Qed.
(** ** What was done stays done *)

Lemma service_stored_app infra tr tr' : service_stored infra tr → service_stored infra (tr ++ tr').
Proof. intros (service & H). exists service. apply elem_of_app. by left. Qed.
Lemma known_app infra secret tr tr' : known infra secret tr → known infra secret (tr ++ tr').
Proof. unfold known, shared. rewrite !elem_of_app. tauto. Qed.
Lemma certified_app infra tr tr' : certified infra tr → certified infra (tr ++ tr').
Proof. intros (secret & cert & H1 & H2). exists secret, cert. split; [by apply known_app|done]. Qed.
Lemma tls_ready_app infra tr tr' : tls_ready infra tr → tls_ready infra (tr ++ tr').
Proof. unfold tls_ready. destruct (Tls spec); [apply certified_app|done]. Qed.
Lemma deleted_from_app infra tr tr' : deleted_from infra tr → deleted_from infra (tr ++ tr').
Proof. intros (e & ports & H1 & H2). exists e, ports. rewrite elem_of_app. auto. Qed.
Lemma serving_app tr tr' : serving tr → serving (tr ++ tr').
Proof.
  intros (infra & e & H1 & H2 & H3 & H4 & H5). exists infra, e.
  split_and!; [by apply bound_app|done|by apply service_stored_app|by apply tls_ready_app|apply elem_of_app; by left].
Qed.

Lemma uncertified_app infra e tr tr' : uncertified infra e tr → uncertified infra e (tr ++ tr').
Proof. intros (secret & H1 & H2). exists secret. split; [by apply known_app|done]. Qed.
Lemma gone_app {O} (k : okind O) infra tr tr' : gone k infra tr → gone k infra (tr ++ tr').
Proof. intros (r & H1 & H2). exists r. rewrite elem_of_app. auto. Qed.

Hint Resolve service_stored_app known_app certified_app tls_ready_app deleted_from_app serving_app uncertified_app gone_app : go.

(** ** The finalizer *)

Lemma delete_object_wp {O} (k : okind O) sns name st tr Q :
  (∀ x, allowed tr (Ev (DeleteObject k sns name) x)) →
  (∀ x r, (r = inr () → x = None ∨ ∃ msg, x = Some (ApiNotFound msg)) → Q (tr ++ [Ev (DeleteObject k sns name) x]) (st, r)) →
  wp allowed (delete_object k sns name st) tr Q.
Proof.
  intros Hok HQ. unfold delete_object, ok, fail. wp_go. split; [done|]. destruct x as [[msg|msg]|]; cbn; wp_go; apply HQ; eauto. done.
Qed.

(** The objects of the endpoint can be deleted once its listeners are gone. *)
Lemma delete_some_wp {O} (k : okind O) (P : Prop) `{Decision P} infra st tr Q :
  bound ns infra tr → deleted_from infra tr → match k with SecretKind => False | _ => True end →
  (∀ new r, (r = inr () → P → gone k infra (tr ++ new)) → Q (tr ++ new) (st, r)) →
  wp allowed ((if decide P then delete_object k (Namespace (i_meta infra)) svc else Certs.ok ()) st) tr Q.
Proof.
  intros Hb Hd Hk HQ. case_decide; unfold Certs.ok; [|wp_go; rewrite <-(app_nil_r tr); by apply HQ].
  apply delete_object_wp; [intros x; by exists infra|]. intros x r Hr. apply HQ. intros Hr' _. exists x.
  split; [apply elem_of_app; right; by left|by apply Hr].
Qed.

Lemma delete_all_wp infra st tr :
  inv st → bound ns infra tr → is_Some (DeletionTimestamp found) → FINALIZER_NAME ∈ Finalizers found →
  wp allowed (delete_all infra st) tr (λ tr' r, (∃ ports, r.1 = set_res (set_InternalPorts ports) st) ∧
    (r.2 = inr () → endpoint_taken_down tr')).
Proof.
  intros Hi Hb Hdel Hfin. pose proof (endpoint_inv_current st Hi) as Hc. unfold delete_all, endpoint, fail, ok. wp_go.
  split; [done|]. destruct x as [ports [e|]]; wp_go; [by split; [exists ports|]|]. cbn [fst snd]. set (st1 := set_res _ st).
  assert (same_endpoint (res (current st1))) as Hc1 by (by apply endpoint_inv_current, inv_ports). clear Hi. set (e1 := res (current st1)) in *.
  destruct (same_names e1 Hc1) as (Hn & Hconf & Hent). rewrite Hn. pose proof Hc1 as [_ ->].
  set (tr0 := tr ++ _). assert (bound ns infra tr0 ∧ deleted_from infra tr0) as [Hb0 Hd0].
  { split; [eauto with go|]. exists (res (current st)), ports. split; [done|]. unfold tr0. set_solver. } clearbody tr0 e1. clear tr Hb.
  apply (DeleteEndpointCert_wp _ (allowed_reads)).
  { intros new secret secret' x Hsh Hk Hd. exists infra. split_and!; [eauto with go|done|done|]. right. exists secret. rewrite <-Hent. done. }
  intros new [e|[]] Hcert; cbn [fst snd]; [by split; [exists ports|]|]. specialize (Hcert eq_refl).
  assert (uncertified infra (res found) (tr0 ++ new)) as Hcert' by (unfold uncertified in *; by rewrite <-Hconf). clear Hcert.
  wp_step. apply (delete_some_wp _ _ infra); [eauto with go..|done|]. intros new1 [e|[]] Hing; cbn [fst snd]; [by split; [exists ports|]|].
  wp_step. apply (delete_some_wp _ _ infra); [eauto with go..|done|]. intros new2 [e|[]] Hroute; cbn [fst snd]; [by split; [exists ports|]|].
  apply delete_object_wp.
  { intros x. exists infra. split_and!; [eauto with go..|done|done|done]. }
  intros x r Hr. split; [by exists ports|]. cbn [fst snd]. intros ->. right. exists infra.
  split_and!; [eauto 10 with go..|]. exists x. split; [apply elem_of_app; right; by left|by apply Hr].
Qed.

Lemma deconstruct_endpoint_wp st tr :
  inv st → is_Some (DeletionTimestamp found) → FINALIZER_NAME ∈ Finalizers found →
  wp allowed (deconstruct_endpoint st) tr (λ tr' r, inv r.1 ∧ same_finalizers st r.1 ∧ (r_RequeueAfter r.2.1 = 0)%Z ∧
    (r.2.2 = None → r_Requeue r.2.1 = false → endpoint_taken_down tr')).
Proof.
  intros Hi Hdel Hfin. pose proof (endpoint_inv_current st Hi) as [Hm Hs]. unfold deconstruct_endpoint, endpoint. wp_go. rewrite Hm.
  apply LookupInfra_wp; [intros; by apply allowed_reads..|]. intros new project infra err Hl. cbn [fst snd]. destruct err as [e|].
  { destruct Hl as [-> Hl]. destruct (utilerrors_IsNotBound e || utilerrors_IsNotFound e) eqn:He; wp_go; (split_and!; [done|done|done|]);
      [|done]. intros _ _. left. by apply Hl. }
  destruct Hl as (i & -> & Hb). wp_step. eapply wp_mono; [by apply delete_all_wp|].
  intros tr' [st' r] [[ports ->] Hr]. cbn [fst snd] in *. wp_go. split_and!; [by apply inv_ports|done|done|]. cbn [fst snd].
  destruct r as [|[]]; [done|]. intros _ _. by apply Hr.
Qed.

Lemma reconcileFinalizer_wp st tr :
  inv st → Finalizers (obj st) = Finalizers found →
  wp allowed (reconcileFinalizer st) tr (λ tr' r, step_ok tr' r.1 r.2 (λ _, endpoint_finalized)).
Proof.
  intros Hi Hf. pose proof (endpoint_inv_deletion st Hi) as Hdel. unfold reconcileFinalizer. wp_go. case_decide as Hd.
  { assert (inv (set_res (set_endpoint_Phase MessagingEndpointTerminating) st)) as Hi' by (by destruct Hi as [[? ?] ? ?]).
    wp_go. split; [by apply inv_status|]. split; [done|]. split; [done|by destruct x]. }
  wp_go. eapply wp_mono; [apply (ProcessFinalizers_ok _ _ _ _ endpoint_taken_down); [done|by intros fs st' []|]|].
  { rewrite Hdel, Hf. intros Hs Hin. by apply deconstruct_endpoint_wp. }
  intros tr' [st' [result [e|]]] Hok; cbn [fst snd] in *; [destruct Hok as [Hi' _]; wp_go; eauto with go|].
  pose proof Hok as (Hi' & Hdel' & _). eapply wp_mono; [apply (write_back_ok _ _ _ st _ _ _ Hok)|]; rewrite ?Hdel, ?Hf.
  - intros e Hfs Hfin. destruct Hi' as [[Hm Hs] Hdl Hph]. by split_and!.
  - exists (current st'). apply elem_of_app. right. by left.
  - intros tr'' r (H1 & H2 & H3). split_and!; [done..|]. intros H. destruct (H3 H) as [_ Hfin]. exact Hfin.
Qed.
(** ** The infrastructure and the ports *)

Lemma initialize_endpoint_wp grow spare tr :
  wp allowed (initialize_endpoint grow (new_ctx found spare)) tr (λ _ r,
    r.2.1 = (done_, None) ∧ inv r.1 ∧ Finalizers (obj r.1) = Finalizers found).
Proof.
  unfold initialize_endpoint. wp_go. split; [done|]. split; [|done].
  split; cbn [obj set_conds set_res res new_ctx DeletionTimestamp]; [|done|]; repeat (case_match || case_decide); done.
Qed.

Lemma lookup_endpoint_wp grow st tr :
  inv st → wp allowed (lookup_endpoint grow st) tr (λ tr' r, step_ok tr' r.1 r.2 (λ x, ∃ infra, x = Some infra ∧ bound ns infra tr')).
Proof.
  intros Hi. pose proof (endpoint_inv_current st Hi) as [Hm _]. unfold lookup_endpoint, endpoint. wp_go. rewrite Hm.
  apply LookupInfra_wp; [intros; by apply allowed_reads..|]. intros new project infra err Hl. cbn [fst snd].
  destruct err as [e|]; [destruct (k8errors_IsNotFound e || utilerrors_IsNotBound e)|]; unfold set_message; wp_go;
    apply mark_wp; intros new' cs; wp_go; cbn [fst snd].
  - eauto with go.
  - eauto with go.
  - destruct Hl as (i & -> & Hb). apply step_ok_done; [eauto with go|]. exists i. eauto with go.
Qed.

(** What the steps after the lookup rely on. *)
Definition going infra tr : Prop := bound ns infra tr ∧ endpoint_finalized.

Lemma going_app infra tr tr' : going infra tr → going infra (tr ++ tr').
Proof. intros [H1 H2]. split; [eauto with go|done]. Qed.

Hint Resolve going_app : go.

Lemma allocate_wp grow infra st tr :
  inv st → going infra tr →
  wp allowed (allocate grow infra st) tr (λ tr' r, step_ok tr' r.1 r.2 (λ _, es_Protocols spec ≠ [])).
Proof.
  intros Hi [Hb Hfin]. pose proof (endpoint_inv_current st Hi) as Hc. pose proof Hc as [_ Hs].
  unfold allocate, endpoint, set_message. wp_go. rewrite Hs. destruct (es_Protocols spec) as [|protocol protocols] eqn:Hp.
  { wp_go. apply mark_wp. intros new cs. wp_go. cbn [fst snd]. eauto with go. }
  wp_go. split; [by split_and!; rewrite ?Hp|]. destruct x as [ports [e|]]; wp_go; apply mark_wp; intros new cs; wp_go; cbn [fst snd].
  - destruct (retried e); wp_go; cbn [fst snd]; [eauto with go|]. split; [|wp_go; cbn [fst snd]; eauto 10 with go].
    split; [|eauto with go]. apply endpoint_inv_current. cbn [fst snd]. eauto with go.
  - split; [eauto with go|]. by split.
Qed.

(** ** The objects in front of the routers *)

Lemma get_object_ok {O} (k : okind O) sns name st tr :
  inv st → wp allowed (get_object k sns name st) tr (λ tr' r, call_ok r.1 tr' r.2 (λ o, Ev (GetObject k sns name) (inr o) ∈ tr')).
Proof.
  intros Hi. unfold get_object. wp_go. split; [by apply allowed_reads|]. wp_go. destruct x as [e|o]; cbn [from_api]; [eauto with go|].
  apply call_ok_value; [done|set_solver].
Qed.

Lemma reconcileEndpointExternal_wp infra st tr :
  inv st → going infra tr → es_Protocols spec ≠ [] →
  wp allowed (reconcileEndpointExternal infra st) tr (λ tr' r, call_ok r.1 tr' r.2 (λ _, True)).
Proof.
  intros Hi Hg Hp. pose proof (endpoint_inv_current st Hi) as Hc. pose proof Hc as [_ Hs]. destruct (same_names _ Hc) as (Hn & _ & _).
  unfold reconcileEndpointExternal, endpoint. do 2 wp_step. rewrite Hn, Hs.
  apply (try_ok _ _ _ _ (λ _ _, True) (λ _ _, True)); [eapply wp_mono; [by apply get_object_ok|]; by intros tr' r [? ?]|].
  intros _ st' new Hi' _. set (tr0 := tr ++ new). assert (going infra tr0) as [Hb0 Hfin] by (unfold tr0; eauto with go). clearbody tr0.
  destruct (es_Protocols spec) as [|protocol [|protocol' rest]] eqn:Hproto; [done| |unfold fail; cbn [length]; rewrite decide_True by lia; wp_go; eauto with go].
  cbn [length]. rewrite decide_False by lia. unfold fail, ok. case_decide; [wp_go; eauto with go|].
  destruct (Route spec) as [r|] eqn:Hroute.
  - wp_go. split; [done|]. destruct x; cbn [negb]; wp_go; [|eauto with go].
    apply CreateOrUpdate_wp; [done|intros e; cbn; eauto with go|]. intros o. destruct (endpoint_route _ _ _ o) as [e|o'] eqn:Her; wp_go; [eauto with go|].
    intros e. split; [|destruct e; wp_go; eauto with go].
    exists infra, o. split_and!; [eauto with go|done|done|done|set_solver|]. exists (res (current st)), r, protocol. split_and!; done.
  - destruct (Ingress spec) as [u|] eqn:Hingress; [|wp_go; eauto with go]. destruct (es_Host spec) as [host|] eqn:Hh; [|wp_go; eauto with go].
    wp_go. apply CreateOrUpdate_wp; [done|intros e; cbn; eauto with go|]. intros o. wp_go. intros e. split; [|destruct e; wp_go; eauto with go].
    exists infra, o. split_and!; [eauto with go|done|done|done|set_solver|]. exists (res (current st)), host, protocol. split_and!; done.
Qed.
Lemma endpoint_hostname_wp infra st tr :
  inv st → wp allowed (endpoint_hostname infra st) tr (λ tr' r, call_ok r.1 tr' r.2 (λ _, True)).
Proof.
  intros Hi. unfold endpoint_hostname, endpoint, ok, fail, get_object. wp_go. destruct (es_Host _); [wp_go; eauto with go|].
  repeat case_decide; wp_go; try (by eauto with go); (split; [done|]); wp_go.
  - destruct x; cbn [from_api]; wp_go; eauto with go.
  - destruct x; cbn [negb]; wp_go; [|eauto with go]. split; [done|]. wp_go. destruct x; cbn [from_api]; wp_go; eauto with go.
Qed.

Lemma add_ports_wp spec' ports st tr :
  inv st → wp allowed (add_ports spec' ports st) tr (λ tr' r, call_ok r.1 tr' r.2 (λ _, True)).
Proof.
  revert st. induction ports as [|sp ports IH]; intros st Hi; cbn [add_ports]; unfold ok, fail; [wp_go; eauto with go|].
  case_decide; [wp_go; eauto with go|]. wp_go. apply IH. apply (inv_status_ports (λ e, _ ++ _)). done.
Qed.

Lemma reconcileEndpointPorts_wp infra st tr :
  inv st → wp allowed (reconcileEndpointPorts infra st) tr (λ tr' r, call_ok r.1 tr' r.2 (λ _, True)).
Proof.
  intros Hi. unfold reconcileEndpointPorts, endpoint, ok, fail, get_object. wp_go.
  assert (∀ ports, inv (set_res (set_Ports ports) (set_res (set_Ports []) st))) as Hi2 by (by destruct Hi as [[? ?] ? ?]).
  assert (inv (set_res (set_Ports []) st)) as Hi1 by (by destruct Hi as [[? ?] ? ?]).
  repeat case_decide; wp_go; [|eauto with go..]. split; [done|]. wp_go. destruct x as [e|service]; cbn [from_api]; [eauto with go|].
  case_decide; [wp_go; eauto with go|]. by apply add_ports_wp.
Qed.

Lemma create_service_wp grow infra st tr :
  inv st → going infra tr → es_Protocols spec ≠ [] →
  wp allowed (create_service grow infra st) tr (λ tr' r, step_ok tr' r.1 r.2 (λ _, service_stored infra tr')).
Proof.
  intros Hi Hg Hp. pose proof (endpoint_inv_current st Hi) as Hc. pose proof Hc as [_ Hs]. destruct (same_names _ Hc) as (Hn & _ & _).
  unfold create_service, set_message. wp_step. eapply wp_mono with (Q := λ tr' r, call_ok r.1 tr' r.2 (λ _, service_stored infra tr')).
  2: { intros tr' [st' [e|[]]] [Hi' Hst]; cbn [fst snd] in *; wp_go; apply mark_wp; intros new cs; wp_go; cbn [fst snd]; [eauto with go|].
       apply step_ok_done; [eauto with go|]. specialize (Hst () eq_refl). eauto with go. }
  unfold reconcileEndpointService, endpoint. do 2 wp_step. rewrite Hn, Hs.
  apply (try_ok _ _ _ _ (λ _ tr', service_stored infra tr') (λ _ tr', service_stored infra tr')).
  { apply CreateOrUpdate_wp; [done|intros e; cbn; eauto with go|]. intros o. unfold ok. wp_go. destruct Hg as [Hb Hfin]. intros e. split.
    - exists infra, o. split_and!; [eauto with go|done|done|done|set_solver|]. by exists (res (current st)).
    - destruct e; cbn [fst snd]; [eauto with go|]. apply call_ok_value; [done|]. eexists. apply elem_of_app. right. by left. }
  intros [o []] st1 new1 Hi1 Hst1. apply (try_ok _ _ _ _ (λ _ tr', service_stored infra tr') (λ _ tr', service_stored infra tr')).
  { case_decide; [|unfold ok; wp_go; eauto with go]. eapply wp_mono; [apply wp_grows, reconcileEndpointExternal_wp; eauto with go|].
    intros tr' r [[H1 _] [new ->]]. split; [done|]. intros _ _. eauto with go. }
  intros [] st2 new2 Hi2 Hst2. apply (try_ok _ _ _ _ (λ _ tr', service_stored infra tr') (λ _ tr', service_stored infra tr')).
  { eapply wp_mono; [apply wp_grows, endpoint_hostname_wp; done|]. intros tr' r [[H1 _] [new ->]]. split; [done|]. intros _ _. eauto with go. }
  intros host st3 new3 Hi3 Hst3. wp_go. eapply wp_mono; [apply wp_grows, reconcileEndpointPorts_wp; eauto with go|].
  intros tr' r [[H1 _] [new ->]]. split; [done|]. intros _ _. eauto with go.
Qed.

(** ** Certificates *)

(** What a result of the TLS step tells. *)
Definition tls_result infra tr (result : processorResult) : Prop :=
  Return result = false ∧ (ShouldReturn result None = false → certified infra tr).

Lemma use_values_wp infra key crt st tr :
  inv st → going infra tr →
  wp allowed (use_values infra key crt st) tr (λ tr' r, call_ok r.1 tr' r.2 (tls_result infra tr')).
Proof.
  intros Hi [Hb Hfin]. pose proof (endpoint_inv_current st Hi) as Hc. destruct (same_names _ Hc) as (_ & Hconf & Hent).
  unfold use_values, endpoint, lift, ok. do 3 wp_step. apply (FromValues_wp _ allowed_reads).
  - intros new secret secret' x Hsh Hk _ _. exists infra. split_and!; [eauto with go|done|done|]. right. exists secret. rewrite <-Hent. done.
  - intros new [e|[]] Hr; cbn [fst snd]; [eauto with go|]. destruct (Hr eq_refl) as (secret & Hkn & Hkey & Hcrt). rewrite Hconf in *. wp_go.
    destruct (GetCertInfo crt key) as [e|info] eqn:Hinfo; [eauto with go|]. wp_go. apply call_ok_value; [eauto with go|].
    unfold GetCertInfo in Hinfo. destruct (parsePemCertificate crt) as [|cert] eqn:Hp; [done|]. destruct (tls_X509KeyPair crt key) eqn:Hpair; [done|].
    split; [done|]. intros _. exists secret, cert. split; [done|]. unfold holds. by rewrite Hkey, Hcrt.
Qed.
Lemma getInputValue_wp input st tr :
  inv st → wp allowed (getInputValue input st) tr (λ tr' r, call_ok r.1 tr' r.2 (λ _, True)).
Proof.
  intros Hi. unfold getInputValue, endpoint, ok, fail, get_object. case_decide; [wp_go; eauto with go|].
  destruct (iv_FromSecret input) as [[name key]|]; wp_go; [|eauto with go]. split; [done|]. wp_go. destruct x; cbn [from_api]; wp_go; eauto with go.
Qed.

Lemma reencrypt_wp infra ca st tr :
  inv st → going infra tr → certified infra tr →
  wp allowed (reencrypt infra ca st) tr (λ tr' r, call_ok r.1 tr' r.2 (tls_result infra tr')).
Proof.
  intros Hi [Hb Hfin] Hcert. pose proof (endpoint_inv_current st Hi) as Hc. destruct (same_names _ Hc) as (Hn & _ & _).
  assert (∀ new st', inv st' → call_ok st' (tr ++ new) (inr done_) (tls_result infra (tr ++ new))) as Hdone.
  { intros new st' Hi'. apply call_ok_value; [done|]. split; [done|]. intros _. eauto with go. }
  unfold reencrypt, endpoint, ok, fail, get_object. wp_go. rewrite Hn. split; [done|].
  destruct (_ && _); wp_go; [|by apply Hdone]. split; [done|]. wp_go.
  destruct x0 as [e|route]; cbn [from_api]; [eauto with go|]. destruct (r_TLS route) as [tls|]; wp_go; [|rewrite <-app_assoc; by apply Hdone].
  case_decide; wp_go; [|rewrite <-app_assoc; by apply Hdone]. split.
  - exists infra. split_and!; eauto with go.
  - destruct x0 as [e|]; wp_go; [eauto with go|]. by apply call_ok_value.
Qed.

Lemma self_signed_wp infra t st tr :
  inv st → going infra tr → Tls spec = Some t → is_Some (Selfsigned t) →
  wp allowed (self_signed infra st) tr (λ tr' r, call_ok r.1 tr' r.2 (tls_result infra tr')).
Proof.
  intros Hi [Hb Hfin] Ht Hself. pose proof (endpoint_inv_current st Hi) as Hc. destruct (same_names _ Hc) as (_ & Hconf & _).
  unfold self_signed, endpoint. do 2 wp_step. case_decide; [unfold ok; wp_go; by apply call_ok_value|].
  wp_step. apply (ReconcileEndpointCert_wp _ allowed_reads).
  - intros new secret caSecret now secret' info x _ _ _. exists infra. split_and!; [eauto with go|done|done|]. left. by exists t.
  - intros new [e|info] Hr; cbn [fst snd]; [eauto with go|]. destruct (Hr _ eq_refl) as (secret & cert & Hkn & Hh). rewrite Hconf in Hh.
    assert (certified infra (tr ++ new)) as Hcert by (by exists secret, cert). clear Hr. unfold get_object. wp_go. split; [done|]. wp_go.
    destruct x as [e|ca]; cbn [from_api]; [eauto with go|]. wp_go. apply reencrypt_wp; [eauto with go|split; eauto with go|eauto with go].
Qed.

Lemma openshift_cert_wp infra st tr :
  inv st → going infra tr → wp allowed (openshift_cert infra st) tr (λ tr' r, call_ok r.1 tr' r.2 (tls_result infra tr')).
Proof.
  intros Hi Hg. unfold openshift_cert, endpoint, fail, get_object. wp_go. split; [done|]. wp_go.
  destruct x as [e|secret]; cbn [from_api]; [eauto with go|]. case_decide; [wp_go; eauto with go|]. apply use_values_wp; eauto with go.
Qed.

Lemma reconcileEndpointTls_wp infra st tr :
  inv st → going infra tr →
  wp allowed (reconcileEndpointTls infra st) tr (λ tr' r, call_ok r.1 tr' r.2 (λ result,
    Return result = false ∧ (ShouldReturn result None = false → tls_ready infra tr'))).
Proof.
  intros Hi Hg. pose proof (endpoint_inv_current st Hi) as Hc. pose proof Hc as [_ Hs]. unfold reconcileEndpointTls, endpoint. do 2 wp_step.
  rewrite Hs, (same_needs_tls _ Hc). unfold tls_ready. destruct (Tls spec) as [t|] eqn:Ht.
  - case_decide; [by eapply self_signed_wp|]. case_decide; [by apply openshift_cert_wp|].
    destruct (External t) as [[key certificate]|]; [|unfold fail; wp_go; eauto with go].
    apply (try_ok _ _ _ _ (λ _ _, True) (λ result tr', tls_result infra tr' result)); [by apply getInputValue_wp|]. intros k st1 new1 Hi1 _.
    apply (try_ok _ _ _ _ (λ _ _, True) (λ result tr', tls_result infra tr' result)); [by apply getInputValue_wp|]. intros crt st2 new2 Hi2 _.
    apply use_values_wp; eauto with go.
  - unfold ok, fail. destruct (needs_tls (res found)) eqn:Hn; wp_go; [eauto with go|]. by apply call_ok_value.
Qed.

Lemma configure_tls_wp grow infra st tr :
  inv st → going infra tr →
  wp allowed (configure_tls grow infra st) tr (λ tr' r, step_ok tr' r.1 r.2 (λ _, tls_ready infra tr')).
Proof.
  intros Hi Hg. unfold configure_tls, set_message, endpoint. wp_step. eapply wp_mono; [by apply reconcileEndpointTls_wp|].
  intros tr' [st' [e|result]] [Hi' Hr]; cbn [fst snd] in *.
  { wp_go. apply mark_wp. intros new cs. wp_go. cbn [fst snd]. eauto with go. }
  destruct (Hr _ eq_refl) as [Hret Htls]. do 3 wp_step.
  assert (∀ new, wp allowed ((_ ← mark grow MessagingEndpointConfiguredTls ConditionTrue ""; mret (result, None, ()) : processor MessagingEndpoint ()) st') (tr' ++ new)
    (λ tr' r, step_ok tr' r.1 r.2 (λ _, tls_ready infra tr'))) as Hend.
  { intros new. wp_step. apply mark_wp. intros new' cs. wp_go. cbn [fst snd]. split; [eauto with go|]. cbn [fst snd]. rewrite Hret.
    split; [done|]. intros H. eauto with go. }
  case_decide; wp_step; [split; [done|]; apply Hend|]. rewrite <-(app_nil_r tr'). apply Hend.
Qed.

(** ** Synchronization *)

Lemma synchronize_endpoint_wp grow infra st tr :
  inv st → going infra tr → service_stored infra tr → tls_ready infra tr →
  wp allowed (synchronize_endpoint grow infra st) tr (λ tr' r, step_ok tr' r.1 r.2 (λ _, serving tr')).
Proof.
  intros Hi [Hb Hfin] Hst Htls. pose proof (endpoint_inv_current st Hi) as Hc. unfold synchronize_endpoint, endpoint, set_message. wp_go.
  split; [by split_and!|]. destruct x as [e|]; wp_go; apply mark_wp; intros new cs; wp_go; cbn [fst snd].
  - destruct (retried e); wp_go; cbn [fst snd]; eauto with go.
  - apply step_ok_done; [eauto with go|]. apply serving_app. exists infra, (res (current st)). split_and!; [eauto with go..|set_solver].
Qed.

Lemma finish_endpoint_wp grow st tr :
  inv st → serving tr →
  wp allowed ((r ← Process (finish_endpoint grow); mret (Result_ r.1.1, r.1.2) : ctl C (Result * option error)) st) tr
    (λ tr' r, settled tr' r.2).
Proof.
  intros Hi He. apply last_ok. unfold finish_endpoint, endpoint, set_message, status_equal. do 2 wp_step. case_decide as Hh.
  { wp_go. apply mark_wp. intros new cs. wp_go. split; [done|]. cbn [fst snd]. split; [|done]. intros e. apply inv_status. eauto with go. }
  destruct Hi as [[Hm Hs] Hd _]. wp_go. apply mark_wp. intros new cs. cbn [fst snd negb andb]. wp_go.
  split; [split_and!; [done|done|right; split; [eauto with go|exact Hh]]|]. split; [done|]. split.
  - intros e. split_and!; [done|done|]. right. split; [eauto with go|exact Hh].
  - destruct x; [done|]. intros _. eexists. split_and!; [eauto with go|apply elem_of_app; right; by left|done|done].
Qed.

(** Whatever is answered, a reconciliation of an endpoint does not panic, does only what
    is allowed, and does not stop half way. *)
Lemma reconcile_endpoint_wp grow spare tr :
  wp allowed (reconcile_endpoint grow (new_ctx found spare)) tr (λ tr' r, settled tr' r.2).
Proof.
  unfold reconcile_endpoint, Process. apply ctl_wp_bind, ctl_wp_bind. eapply wp_mono; [apply wp_grows, initialize_endpoint_wp|].
  intros tr1 [st1 [r p]] [(Hr & Hi1 & Hf1) [new1 ->]]. cbn [fst snd] in *. subst r.
  cbn [is_error Requeue RequeueAfter done_ orb Z.ltb]. rewrite andb_false_r. wp_go.
  apply (stage_ok _ _ _ _ (λ _ _ _, endpoint_finalized)); [by apply reconcileFinalizer_wp|]. intros _ st2 new2 Hi2 Hfin.
  apply (stage_ok _ _ _ _ (λ _ x tr', ∃ infra, x = Some infra ∧ bound ns infra tr')); [by apply lookup_endpoint_wp|].
  intros x st3 new3 Hi3 (infra & -> & Hb). assert (going infra (((tr ++ new1) ++ new2) ++ new3)) as Hg by done. revert Hg.
  generalize (((tr ++ new1) ++ new2) ++ new3). intros tr3 Hg.
  apply (stage_ok _ _ _ _ (λ _ _ _, es_Protocols spec ≠ [])); [by apply allocate_wp|]. intros _ st4 new4 Hi4 Hp.
  apply (stage_ok _ _ _ _ (λ _ _ tr', service_stored infra tr')); [apply create_service_wp; eauto with go|]. intros _ st5 new5 Hi5 Hst.
  apply (stage_ok _ _ _ _ (λ _ _ tr', tls_ready infra tr')); [apply configure_tls_wp; eauto with go|]. intros _ st6 new6 Hi6 Htls.
  apply (stage_ok _ _ _ _ (λ _ _ tr', serving tr')); [apply synchronize_endpoint_wp; eauto with go|]. intros _ st7 new7 Hi7 Hserv.
  by apply finish_endpoint_wp.
Qed.
End Policy.

Definition port_names (ports : list ServicePort) : list string := sp_Name <$> ports.

Lemma existsb_names ports name : existsb (λ sp, bool_decide (sp_Name sp = name)) ports = bool_decide (name ∈ port_names ports).
Proof.
  apply Bool.eq_iff_eq_true. rewrite existsb_exists, bool_decide_eq_true. unfold port_names. rewrite list_elem_of_fmap. split.
  - intros (sp & Hin & Hn). apply bool_decide_eq_true in Hn. exists sp. by rewrite list_elem_of_In.
  - intros (sp & Hn & Hin). exists sp. rewrite <-list_elem_of_In. split; [done|]. by apply bool_decide_eq_true.
Qed.

(** The port a service is given for an internal port. *)
Definition new_port (ip : MessagingEndpointPort) (port : Z) : ServicePort :=
  {| sp_Name := protocolToPortName (p_Protocol ip); sp_Protocol := ProtocolTCP; sp_Port := port; sp_TargetPort := FromInt (p_Port ip); sp_NodePort := 0 |}.

Lemma add_service_port_cases ports ip :
  (add_service_port ports ip = ports ∧ (protocolToPortName (p_Protocol ip) ∈ port_names ports ∨ service_port (p_Protocol ip) = None)) ∨
  (∃ port, service_port (p_Protocol ip) = Some port ∧ protocolToPortName (p_Protocol ip) ∉ port_names ports ∧
    add_service_port ports ip = ports ++ [new_port ip port]).
Proof.
  unfold add_service_port. rewrite existsb_names. case_bool_decide; [auto|]. destruct (service_port _) as [port|] eqn:Hp; [|auto].
  right. by exists port.
Qed.

(** The ports of the service stay; ports are added for internal ports, and only where there
    was none of the name. *)
Lemma service_ports_kept ips ports :
  ∃ new, foldl add_service_port ports ips = ports ++ new ∧
    (∀ sp, sp ∈ new → sp_Name sp ∉ port_names ports ∧
      ∃ ip port, ip ∈ ips ∧ service_port (p_Protocol ip) = Some port ∧ sp = new_port ip port) ∧
    (∀ ip, ip ∈ ips → is_Some (service_port (p_Protocol ip)) → protocolToPortName (p_Protocol ip) ∈ port_names (ports ++ new)).
Proof.
  revert ports. induction ips as [|ip ips IH]; intros ports; simpl.
  { exists []. rewrite app_nil_r. split_and!; [done|set_solver|set_solver]. }
  destruct (add_service_port_cases ports ip) as [[-> Hor]|(port & Hp & Hn & ->)].
  - destruct (IH ports) as (new & -> & Hnew & Hall). exists new. split; [done|]. split.
    + intros sp Hsp. destruct (Hnew sp Hsp) as (H1 & ip' & port & H2 & H3). split; [done|]. exists ip', port. split; [by right|done].
    + intros ip' [->|Hin]%elem_of_cons Hs; [|by apply Hall]. destruct Hor as [Hin|Hno]; [|rewrite Hno in Hs; by destruct Hs].
      unfold port_names in *. rewrite fmap_app, elem_of_app. by left.
  - destruct (IH (ports ++ [new_port ip port])) as (new & -> & Hnew & Hall). exists (new_port ip port :: new). rewrite <-app_assoc. split; [done|]. split.
    + intros sp [->|Hsp]%elem_of_cons.
      * split; [done|]. exists ip, port. split; [by left|done].
      * destruct (Hnew sp Hsp) as (H1 & ip' & port' & H2 & H3). unfold port_names in *. rewrite fmap_app, elem_of_app in H1.
        split; [tauto|]. exists ip', port'. split; [by right|done].
    + rewrite <-app_assoc in Hall. intros ip' [->|Hin]%elem_of_cons Hs; [|by apply Hall].
      unfold port_names. rewrite fmap_app, elem_of_app. right. by left.
Qed.

Lemma add_service_ports_again ips ports :
  (∀ ip, ip ∈ ips → is_Some (service_port (p_Protocol ip)) → protocolToPortName (p_Protocol ip) ∈ port_names ports) →
  foldl add_service_port ports ips = ports.
Proof.
  induction ips as [|ip ips IH]; intros H; simpl; [done|].
  destruct (add_service_port_cases ports ip) as [[-> _]|(port & Hp & Hn & _)]; [apply IH; intros ip' ? ?; apply H; [by right|done]|].
  destruct Hn. apply H; [by left|by rewrite Hp].
Qed.

Lemma CreateDefaultLabels_again labels component name :
  CreateDefaultLabels (CreateDefaultLabels labels component name) component name = CreateDefaultLabels labels component name.
Proof. unfold CreateDefaultLabels. apply map_eq. intros k. rewrite !lookup_insert. repeat case_decide; done. Qed.

Lemma union_again (a b : gmap string string) : a ∪ (a ∪ b) = a ∪ b.
Proof. by rewrite (assoc (∪)), (idemp (∪)). Qed.

(** The annotations of the service. *)
Lemma annotation_again (a b : gmap string string) k v : <[k := v]> (a ∪ <[k := v]> (a ∪ b)) = <[k := v]> (a ∪ b).
Proof.
  apply map_eq. intros k'. destruct (decide (k' = k)) as [->|Hk]; [by rewrite !lookup_insert_eq|].
  rewrite !lookup_insert_ne, lookup_union, lookup_insert_ne, lookup_union by done. by destruct (a !! k'), (b !! k').
Qed.

Lemma endpoint_service_again infra e s : endpoint_service infra e (endpoint_service infra e s) = endpoint_service infra e s.
Proof.
  unfold endpoint_service at 1. cbn [ApplyServiceDefaults s_Labels s_Annotations s_Owners s_ClusterIP s_Ports s_LoadBalancerIngress]. unfold endpoint_service.
  cbn [s_Labels s_Annotations s_Owners s_ClusterIP s_Ports s_LoadBalancerIngress ApplyServiceDefaults]. f_equal.
  - apply CreateDefaultLabels_again.
  - destruct (Tls (e_Spec e)) as [t|]; [|apply union_again]. case_decide; [apply annotation_again|apply union_again].
  - destruct (service_ports_kept (InternalPorts e) (s_Ports s)) as (new & -> & _ & Hall). by apply add_service_ports_again.
Qed.

(** Two endpoints with one service. *)
Lemma service_names_collide b c spec status :
  let e ns name := {| e_meta := {| Name := name; Namespace := ns |}; e_Spec := spec; e_Status := status |} in
  getServiceName (e (b +:+ "-" +:+ c) "x") = getServiceName (e b (c +:+ "-x")).
Proof. unfold getServiceName. cbn [e_meta Name Namespace]. by rewrite !append_assoc. Qed.
