(* ===== verification/InfraController.v ===== *)
(** The controller of infrastructures
    ([pkg/controller/messaginginfra/messaginginfra_controller.go]): the finalizer, the
    authority and the certificate of the operator, the pods of routers and brokers, and
    the synchronization of all of them, step by step. The pods are the business of the
    controllers of routers and brokers, which answer with the hosts. *)
From stdpp Require Import base gmap strings pretty list.
From S2P Require Import Prelude Client ApiV1 KubeObjects Conditions Reconcile Finalizer Certs AddressController.

Definition MessagingInfrastructureReady : string := "Ready".
Definition MessagingInfrastructureCaCreated : string := "CaCreated".
Definition MessagingInfrastructureCertCreated : string := "CertCreated".
Definition MessagingInfrastructureBrokersCreated : string := "BrokersCreated".
Definition MessagingInfrastructureRoutersCreated : string := "RoutersCreated".
Definition MessagingInfrastructureSynchronized : string := "Synchronized".
Definition MessagingInfrastructureBrokersConnected : string := "BrokersConnected".

(** ** The status of an infrastructure *)

Definition set_infra_Status (f : MessagingInfrastructureStatus → MessagingInfrastructureStatus) (i : MessagingInfrastructure)
    : MessagingInfrastructure :=
  {| i_meta := i_meta i; i_NamespaceSelector := i_NamespaceSelector i; i_Router := i_Router i; i_Broker := i_Broker i; i_Status := f (i_Status i) |}.

Definition set_infra_Phase (phase : string) : MessagingInfrastructure → MessagingInfrastructure := set_infra_Status (λ s,
  {| is_Phase := phase; is_Message := is_Message s; is_Conditions := is_Conditions s; is_Routers := is_Routers s; is_Brokers := is_Brokers s |}).
Definition set_Routers (hosts : list string) : MessagingInfrastructure → MessagingInfrastructure := set_infra_Status (λ s,
  {| is_Phase := is_Phase s; is_Message := is_Message s; is_Conditions := is_Conditions s; is_Routers := hosts; is_Brokers := is_Brokers s |}).
Definition set_infra_Brokers (hosts : list string) : MessagingInfrastructure → MessagingInfrastructure := set_infra_Status (λ s,
  {| is_Phase := is_Phase s; is_Message := is_Message s; is_Conditions := is_Conditions s; is_Routers := is_Routers s; is_Brokers := hosts |}).

Definition set_i_Router (spec : MessagingInfrastructureSpecRouter) (i : MessagingInfrastructure) : MessagingInfrastructure :=
  {| i_meta := i_meta i; i_NamespaceSelector := i_NamespaceSelector i; i_Router := spec; i_Broker := i_Broker i; i_Status := i_Status i |}.
Definition set_i_Broker (spec : MessagingInfrastructureSpecBroker) (i : MessagingInfrastructure) : MessagingInfrastructure :=
  {| i_meta := i_meta i; i_NamespaceSelector := i_NamespaceSelector i; i_Router := i_Router i; i_Broker := spec; i_Status := i_Status i |}.

#[global] Instance infra_kind : Kind MessagingInfrastructure := {|
  Conditions_of i := is_Conditions (i_Status i);
  with_Conditions cs := set_infra_Status (λ s,
    {| is_Phase := is_Phase s; is_Message := is_Message s; is_Conditions := cs; is_Routers := is_Routers s; is_Brokers := is_Brokers s |});
  with_Message m := set_infra_Status (λ s,
    {| is_Phase := is_Phase s; is_Message := m; is_Conditions := is_Conditions s; is_Routers := is_Routers s; is_Brokers := is_Brokers s |});
  Update := UpdateInfrastructure;
  StatusUpdate := UpdateInfrastructureStatus;
|}.

(** The pointers to the seven conditions. *)
Record InfraPointers := {
  i_ready : Pointer;
  caCreated : Pointer;
  certCreated : Pointer;
  brokersCreated : Pointer;
  routersCreated : Pointer;
  brokersConnected : Pointer;
  synchronized : Pointer;
}.

Record finalizerResult := {
  fr_Requeue : bool;
  fr_Return : bool;
}.

(** The hosts whose pod runs. *)
Definition is_running (h : Host) : bool := negb (bool_decide (Ip h = "")).
Definition running (hosts : list Host) : list Host := filter (λ h, is_running h = true) hosts.

Definition pods_running (running all : nat) (kind : string) : string :=
  pretty running +:+ "/" +:+ pretty all +:+ " " +:+ kind +:+ " pods running".

Section InfraController.
Context `{HX : !X509} (grow : nat → nat).
Notation C := (Ctx MessagingInfrastructure).

Definition the_infra : ctl C MessagingInfrastructure := reads (λ s, res (current s)).

(** ** The finalizer *)

Definition uses (i : MessagingInfrastructure) (p : MessagingProject) : bool :=
  bool_decide (ref_Name (ps_StatusInfrastructureRef (p_Status p)) = Name (i_meta i)) &&
  bool_decide (ref_Namespace (ps_StatusInfrastructureRef (p_Status p)) = Namespace (i_meta i)).

Definition in_use (i : MessagingInfrastructure) (p : MessagingProject) : string :=
  "unable to delete MessagingInfra " +:+ Namespace (i_meta i) +:+ "/" +:+ Name (i_meta i) +:+
  ": in use by MessagingProject " +:+ Namespace (p_meta p) +:+ "/" +:+ Name (p_meta p).

Definition deconstruct_infra : ctl C (Result * option error) :=
  i ← the_infra;
  projects ← call ListMessagingProjects;
  match projects with
  | inl err => mret (no_result, Some (api_error err))
  | inr projects =>
      match find (uses i) projects with
      | Some p => mret (no_result, Some (Errorf (in_use i p)))
      | None => err ← call (DeleteClient i); mret (no_result, err)
      end
  end.

Definition reconcileFinalizers : ctl C (finalizerResult * option error) :=
  o ← reads current;
  if decide (is_Some (DeletionTimestamp o) ∧ is_Phase (i_Status (res o)) ≠ MessagingInfrastructureTerminating) then
    _ ← writes (set_res (set_infra_Phase MessagingInfrastructureTerminating));
    o ← reads current; err ← call (StatusUpdate o); mret ({| fr_Requeue := true; fr_Return := false |}, api_error <$> err)
  else
    original ← reads current;
    r ← ProcessFinalizers [{| f_Name := FINALIZER_NAME; Deconstruct := Some deconstruct_infra |}];
    match r with
    | (_, Some err) => mret ({| fr_Requeue := false; fr_Return := false |}, Some err)
    | (result, None) =>
        o ← reads current;
        if r_Requeue result && negb (bool_decide (original = o)) then
          err ← call (Update o); mret ({| fr_Requeue := false; fr_Return := true |}, api_error <$> err)
        else mret ({| fr_Requeue := r_Requeue result; fr_Return := false |}, None)
    end.

(** ** The steps *)

Definition initialize_infra : processor MessagingInfrastructure InfraPointers :=
  _ ← writes (set_res (λ i,
    if decide (is_Phase (i_Status i) = "" ∨ is_Phase (i_Status i) = MessagingInfrastructurePending)
    then set_infra_Phase MessagingInfrastructureConfiguring i else i));
  ready ← get_condition grow MessagingInfrastructureReady;
  caCreated ← get_condition grow MessagingInfrastructureCaCreated;
  certCreated ← get_condition grow MessagingInfrastructureCertCreated;
  brokersCreated ← get_condition grow MessagingInfrastructureBrokersCreated;
  routersCreated ← get_condition grow MessagingInfrastructureRoutersCreated;
  brokersConnected ← get_condition grow MessagingInfrastructureBrokersConnected;
  synchronized ← get_condition grow MessagingInfrastructureSynchronized;
  mret (done_, None, {| i_ready := ready; caCreated := caCreated; certCreated := certCreated; brokersCreated := brokersCreated;
                        routersCreated := routersCreated; brokersConnected := brokersConnected; synchronized := synchronized |}).

(** What is reported of a call that has failed. *)
Definition failed {X} (p : Pointer) (err : error) (x : X) : processor MessagingInfrastructure X :=
  _ ← set_message (Error err);
  _ ← set_condition p ConditionFalse (Error err);
  mret (done_, Some err, x).

Definition reconcile_ca (p : InfraPointers) : processor MessagingInfrastructure bytes :=
  i ← the_infra;
  r ← ReconcileCa certController i;
  match r with
  | inl err => failed (caCreated p) err None
  | inr ca => _ ← set_condition (caCreated p) ConditionTrue ""; mret (done_, None, ca)
  end.

Definition reconcile_cert (p : InfraPointers) : processor MessagingInfrastructure (bytes * bytes) :=
  i ← the_infra;
  r ← ReconcileCert certController i (i_meta i) ("enmasse-operator-" +:+ Name (i_meta i)) [];
  match r with
  | inl err => failed (certCreated p) err (None, None)
  | inr info => _ ← set_condition (certCreated p) ConditionTrue ""; mret (done_, None, ci_Certificate info)
  end.

(** The pods of the routers or the brokers. Their controllers set defaults in the
    specification they are given. *)
Definition reconcile_pods {X} (reconcile : MessagingInfrastructure → kube (X * (error + list Host)))
    (set_spec : X → MessagingInfrastructure → MessagingInfrastructure) (created : Pointer) (kind : string)
    (set : list string → MessagingInfrastructure → MessagingInfrastructure) : processor MessagingInfrastructure (list Host) :=
  i ← the_infra;
  r ← call (reconcile i);
  _ ← writes (set_res (set_spec r.1));
  match r.2 with
  | inl err => failed created err []
  | inr hosts =>
      _ ← writes (set_res (set (Hostname <$> running hosts)));
      if decide (length (running hosts) < length hosts) then
        let msg := pods_running (length (running hosts)) (length hosts) kind in
        _ ← set_message msg;
        _ ← set_condition created ConditionFalse msg;
        mret (done_, None, hosts)
      else _ ← set_condition created ConditionTrue ""; mret (done_, None, hosts)
  end.

Definition sync_all (p : InfraPointers) (routers brokers : list Host) (certificate : bytes * bytes) (ca : bytes)
    : processor MessagingInfrastructure (list ConnectorStatus) :=
  i ← the_infra;
  r ← call (SyncAll i (running routers) (running brokers) certificate ca);
  match r with
  | (_, Some err) =>
      if errors_Is err RequestTimeoutError then
        _ ← set_condition (synchronized p) ConditionFalse (Error err);
        mret (requeue_after (10 * Second), None, [])
      else mret (done_, Some err, [])
  | (statuses, None) => _ ← set_condition (synchronized p) ConditionTrue ""; mret (done_, None, statuses)
  end.

Definition all_running (routers brokers : list Host) : processor MessagingInfrastructure () :=
  if decide (length (running brokers) < length brokers ∨ length (running routers) < length routers)
  then mret (requeue_after (5 * Second), None, ())
  else mret (done_, None, ()).

Definition not_connected (p : InfraPointers) (msg : string) : processor MessagingInfrastructure () :=
  _ ← set_message msg;
  _ ← set_condition (brokersConnected p) ConditionFalse msg;
  mret (requeue_after (10 * Second), None, ()).

Definition check_connectors (p : InfraPointers) (routers brokers : list Host) (statuses : list ConnectorStatus)
    : processor MessagingInfrastructure () :=
  let expectedConnectors := length (running routers) * length (running brokers) in
  if decide (length statuses ≠ expectedConnectors) then
    not_connected p ("components not fully connected " +:+ pretty (length statuses) +:+ "/" +:+ pretty expectedConnectors +:+
                     " connectors configured")
  else
    match find (λ s, negb (cs_Connected s)) statuses with
    | Some s =>
        not_connected p ("connection between " +:+ cs_Router s +:+ " and " +:+ cs_Broker s +:+ " not ready: " +:+ cs_Message s)
    | None => _ ← set_condition (brokersConnected p) ConditionTrue ""; mret (done_, None, ())
    end.

Definition finish_infra (p : InfraPointers) : processor MessagingInfrastructure () :=
  _ ← writes (set_res (set_infra_Phase MessagingInfrastructureActive));
  _ ← set_message "";
  _ ← set_condition (i_ready p) ConditionTrue "";
  if negb status_equal then o ← reads current; err ← call (StatusUpdate o); mret (done_, api_error <$> err, ())
  else mret (done_, None, ()).

(** ** [Reconcile] *)

Definition reconcile_infra : ctl C (Result * option error) :=
  f ← reconcileFinalizers;
  let '(fresult, err) := f in
  if is_error err || fr_Requeue fresult || fr_Return fresult
  then mret ({| r_Requeue := fr_Requeue fresult; r_RequeueAfter := 0 |}, err)
  else
    stage initialize_infra (λ p,
    stage (reconcile_ca p) (λ ca,
    stage (reconcile_cert p) (λ certificate,
    stage (reconcile_pods ReconcileRouters set_i_Router (routersCreated p) "router" set_Routers) (λ routers,
    stage (reconcile_pods ReconcileBrokers set_i_Broker (brokersCreated p) "broker" set_infra_Brokers) (λ brokers,
    stage (sync_all p routers brokers certificate ca) (λ statuses,
    stage (all_running routers brokers) (λ _,
    stage (check_connectors p routers brokers statuses) (λ _,
    stage (finish_infra p) (λ _,
    mret ({| r_Requeue := false; r_RequeueAfter := 30 * Second |}, None)))))))))).

Definition ReconcileInfra (namespace name : string) : io kube (Result * option error) :=
  Vis (GetMessagingInfrastructure namespace name) (λ r,
    match r with
    | inl err => if k8errors_IsNotFound (api_error err) then Ret (no_result, None) else Ret (no_result, Some (api_error err))
    | inr (found, spare) => r ← reconcile_infra (new_ctx found spare); Ret r.2
    end).
End InfraController.
