(* ===== verification/BrokerController.v ===== *)
(** The controller of broker pods ([pkg/controller/messaginginfra/broker/controller.go]):
    one stateful set with its service and certificate per broker, and the size of the
    pool. *)
From Stdlib Require Import Ascii.
From stdpp Require Import base gmap strings list.
From S2P Require Import Prelude Go GoStrings Client ApiV1 KubeObjects Workloads Conditions Reconcile Certs InfraController.

(** ** Names *)

Definition getBrokerLabels (infra : MessagingInfrastructure) : gmap string string :=
  <["app" := "enmasse"]> (<["component" := "broker"]> (<[LABEL_INFRA := Name (i_meta infra)]> ∅)).

Definition toHost (broker : ObjectMeta) : string :=
  Name broker +:+ "-0." +:+ Name broker +:+ "." +:+ Namespace broker +:+ ".svc".

Definition toNamespacedHost (broker : ObjectMeta) : string := Name broker +:+ "-0".

(** [util.RandomBrokerName]. *)
Definition brokerNameLetters : string := "abcdefghijklmnopqrstuvwxyz0123456789".
Definition brokerNameLength : nat := 8.

Definition letter (i : Z) : ascii := default "a"%char (String.get (Z.to_nat i) brokerNameLetters).
Definition RandomBrokerName `{Sched} (t : tick) : string :=
  foldr (λ i, String (letter (intn (i :: t) (Z.of_nat (String.length brokerNameLetters))))) "" (seq 0 brokerNameLength).

(** ** The size of the pool *)

Definition setDefaultBrokerScalingStrategy (broker : MessagingInfrastructureSpecBroker) : MessagingInfrastructureSpecBroker :=
  {| sb_InitImage := sb_InitImage broker; sb_Image := sb_Image broker;
     sb_ScalingStrategy := match sb_ScalingStrategy broker with None => Some (Some 1%Z) | s => s end |}.

(** Of the strategy, the static pool size if there is one. *)
Definition numBrokersToCreate (strategy : option Z) (brokers : nat) : Z :=
  match strategy with
  | Some poolSize => if (Z.of_nat brokers <? poolSize)%Z then (poolSize - Z.of_nat brokers)%Z else 0%Z
  | None => 0%Z
  end.

Definition numBrokersToDelete (strategy : option Z) (brokers : nat) : Z :=
  match strategy with
  | Some poolSize => if (poolSize <? Z.of_nat brokers)%Z then (Z.of_nat brokers - poolSize)%Z else 0%Z
  | None => 0%Z
  end.

(** ** The objects of a broker *)

Definition apply_env (env : list (string * string)) (c : Container) : Container := foldl (λ c kv, ApplyEnvSimple c kv.1 kv.2) c env.
Definition apply_mounts (mounts : list (string * string)) (c : Container) : Container :=
  foldl (λ c kv, ApplyVolumeMountSimple c kv.1 kv.2 false) c mounts.

Definition broker_mounts : list (string * string) :=
  [("data", "/var/run/artemis"); ("init", "/opt/apache-artemis/custom"); ("certs", "/etc/enmasse-certs")].

Definition broker_env (infra : MessagingInfrastructure) : list (string * string) :=
  [("INFRA_NAME", Name (i_meta infra)); ("CERT_DIR", "/etc/enmasse-certs"); ("AMQ_NAME", "data"); ("HOME", "/var/run/artemis");
   ("ADDRESS_SPACE_TYPE", "shared"); ("GLOBAL_MAX_SIZE", "-1"); ("ADDRESS_FULL_POLICY", "FAIL")].

Definition probe_env : list (string * string) :=
  [("PROBE_ADDRESS", "readiness"); ("PROBE_USERNAME", "probe"); ("PROBE_PASSWORD", "probe"); ("PROBE_TIMEOUT", "2s")].

(** What is set in the container of a broker beside its image. *)
Definition broker_settings (infra : MessagingInfrastructure) (container : Container) : Container :=
  let c := apply_mounts broker_mounts (apply_env (broker_env infra ++ probe_env) container) in
  {| ct_Name := ct_Name c; ct_Image := ct_Image c; ct_ImagePullPolicy := ct_ImagePullPolicy c;
     ct_Command := ["/opt/apache-artemis/custom/bin/launch-broker.sh"];
     ct_Env := ct_Env c; ct_VolumeMounts := ct_VolumeMounts c;
     ct_Ports := [{| cp_Name := "amqps"; cp_ContainerPort := 5671 |}];
     ct_LivenessProbe := Some {| pr_Handler := Exec ["sh"; "-c"; "$ARTEMIS_HOME/custom/bin/probe.sh"];
                                 pr_TimeoutSeconds := 0; pr_InitialDelaySeconds := 300 |};
     ct_ReadinessProbe := Some {| pr_Handler := Exec ["sh"; "-c"; "$ARTEMIS_HOME/custom/bin/broker-probe"];
                                  pr_TimeoutSeconds := 3; pr_InitialDelaySeconds := 10 |} |}.

Section Objects.
Context `{HP : !Process_}.

Definition broker_init (infra : MessagingInfrastructure) (container : Container) : outcome Container :=
  c ← ApplyContainerImage container "broker-plugin" (sb_InitImage (i_Broker infra));
  mret (apply_mounts broker_mounts (apply_env (broker_env infra) c)).

Definition broker_container (infra : MessagingInfrastructure) (container : Container) : outcome Container :=
  c ← ApplyContainerImage container "broker" (sb_Image (i_Broker infra));
  mret (broker_settings infra c).

Definition data_claim : PersistentVolumeClaim :=
  {| pvc_Name := "data"; pvc_AccessModes := ["ReadWriteOnce"]; pvc_Storage := 2 * 10 ^ 9 |}.

(** The labels and annotations that name the infrastructure. *)
Definition infra_labels (infra : MessagingInfrastructure) (labels : gmap string string) : gmap string string :=
  <[LABEL_INFRA := Name (i_meta infra)]> labels.
Definition infra_annotations (infra : MessagingInfrastructure) (annotations : gmap string string) : gmap string string :=
  <[ANNOTATION_INFRA_NAMESPACE := Namespace (i_meta infra)]> (<[ANNOTATION_INFRA_NAME := Name (i_meta infra)]> annotations).

Definition broker_statefulset (infra : MessagingInfrastructure) (name : string) (owners : list string) (statefulset : StatefulSet)
    : outcome StatefulSet :=
  let s := ApplyStatefulSetDefaults statefulset "broker" name in
  let t := ss_Template s in
  initContainers ← ApplyContainerWithError (pt_InitContainers t) "broker-init" (broker_init infra);
  containers ← ApplyContainerWithError (pt_Containers t) "broker" (broker_container infra);
  let t := {| pt_Labels := infra_labels infra (pt_Labels t); pt_Annotations := infra_annotations infra (pt_Annotations t);
              pt_InitContainers := initContainers; pt_Containers := containers; pt_Volumes := pt_Volumes t |} in
  mret {| ss_meta := ss_meta s; ss_Created := ss_Created s; ss_Labels := infra_labels infra (ss_Labels s);
          ss_Annotations := infra_annotations infra (ss_Annotations s); ss_Owners := owners; ss_Selector := ss_Selector s;
          ss_Replicas := Some 1%Z; ss_ServiceName := name;
          ss_Template := ApplySecretVolume (ApplyEmptyDirVolume t "init") "certs" (GetCertSecretName name);
          ss_VolumeClaimTemplates := [data_claim] |}.
End Objects.

(** A service without an IP of its own, for one port of the pods with these labels. *)
Definition headless_service (component : string) (infra : MessagingInfrastructure) (selector : gmap string string) (port : Z) (name : string)
    (owners : list string) (service : Service) : Service :=
  let s := ApplyServiceDefaults component (Name (i_meta infra)) service in
  {| s_Labels := s_Labels s; s_Annotations := s_Annotations s; s_Owners := owners; s_Type := s_Type s; s_ClusterIP := "None";
     s_Selector := selector;
     s_Ports := [{| sp_Name := name; sp_Protocol := ProtocolTCP; sp_Port := port; sp_TargetPort := FromString name; sp_NodePort := 0 |}];
     s_LoadBalancerIngress := s_LoadBalancerIngress s |}.

Section BrokerController.
Context `{HX : !X509} `{HP : !Process_} `{HS : !Sched} {S : Type}.
Notation M A := (ctl S (error + A)).

(** What a computation without effects returns; a panic is one of the operator. *)
Definition returned {A} (o : outcome A) : M A :=
  match o with Ok a => ok a | Err e => fail e | Panic => crash end.

Definition reconcileBroker (infra : MessagingInfrastructure) (statefulset : ObjectMeta) : M () :=
  let name := Name statefulset in
  try (s, _) ← CreateOrUpdate StatefulSetKind (Namespace statefulset) name (λ s,
    try owners ← call (SetControllerReference (i_meta infra) (ss_Owners s));
    try s ← returned (broker_statefulset infra name owners s);
    ok (s, ()));
  try (_, _) ← CreateOrUpdate ServiceKind (Namespace (i_meta infra)) name (λ service,
    try owners ← call (SetControllerReference (i_meta infra) (s_Owners service));
    ok (headless_service "broker" infra (pt_Labels (ss_Template s)) 5671 "amqps" owners service, ()));
  try _ ← ReconcileCert certController infra statefulset (toNamespacedHost statefulset) [toHost statefulset];
  ok ().

(** ** The pool *)

(** The loop over the stateful sets that exist, and the one that creates the missing ones;
    both collect the hosts. *)
Fixpoint reconcile_existing (infra : MessagingInfrastructure) (brokers : list ObjectMeta) (hosts : gmap string bool) : M (gmap string bool) :=
  match brokers with
  | [] => ok hosts
  | broker :: rest => try _ ← reconcileBroker infra broker; reconcile_existing infra rest (<[toHost broker := true]> hosts)
  end.

Fixpoint create_brokers (t : tick) (infra : MessagingInfrastructure) (toCreate : nat) (hosts : gmap string bool) : M (gmap string bool) :=
  match toCreate with
  | 0 => ok hosts
  | Datatypes.S n =>
      let broker := {| Namespace := Namespace (i_meta infra); Name := "broker-" +:+ Name (i_meta infra) +:+ "-" +:+ RandomBrokerName (n :: t) |} in
      try _ ← reconcileBroker infra broker; create_brokers t infra n (<[toHost broker := true]> hosts)
  end.

(** The loop that deletes brokers, over those it may look at, the last one first. It
    returns the hosts that are left and how many brokers are still to be deleted. *)
Fixpoint delete_brokers (infra : MessagingInfrastructure) (brokers : list ObjectMeta) (toDelete : Z) (hosts : gmap string bool)
    : M (gmap string bool * Z) :=
  match brokers with
  | [] => ok (hosts, toDelete)
  | broker :: rest =>
      if (0 <? toDelete)%Z then
        err ← call (DeleteBroker infra (toHost broker));
        match err with
        | Some err => if errors_Is err BrokerInUseError then delete_brokers infra rest toDelete hosts else fail err
        | None =>
            err ← call (DeleteObject StatefulSetKind (Namespace broker) (Name broker));
            match err with
            | Some err => fail (api_error err)
            | None => delete_brokers infra rest (toDelete - 1) (delete (toHost broker) hosts)
            end
        end
      else ok (hosts, toDelete)
  end.

(** The IP of a host: that of the first running pod whose name begins the host. *)
Definition pod_of (pods : list Pod) (expectedHost : string) : Host :=
  {| Hostname := expectedHost;
     Ip := match find (λ pod, bool_decide (pod_Phase pod = PodRunning) && bool_decide (pod_PodIP pod ≠ "") &&
                              HasPrefix expectedHost (pod_Name pod)) pods with
           | Some pod => pod_PodIP pod
           | None => ""
           end |}.

Definition still_needed (newSize toDelete : Z) : string :=
  "unable to scale down to " +:+ fmt_d newSize +:+ " brokers: " +:+ fmt_d (newSize + toDelete) +:+ " brokers are still needed".

Definition reconcile_pool (t : tick) (infra : MessagingInfrastructure) (strategy : option Z) : M (list Host) :=
  let ns := Namespace (i_meta infra) in
  let labels := getBrokerLabels infra in
  r ← call (ListStatefulSets ns labels);
  try brokers ← lift (from_api r);
  let brokers := ss_meta <$> brokers in
  try hosts ← reconcile_existing infra brokers ∅;
  try hosts ← create_brokers (0 :: t) infra (Z.to_nat (numBrokersToCreate strategy (length brokers))) hosts;
  let toDelete := numBrokersToDelete strategy (length brokers) in
  try (hosts, remaining) ← delete_brokers infra (reverse (tail brokers)) toDelete hosts;
  if (0 <? remaining)%Z then fail (Errorf (still_needed (Z.of_nat (length brokers) - toDelete) remaining))
  else
    r ← call (ListPods ns labels);
    try pods ← lift (from_api r);
    ok (pod_of pods <$> range_keys (1 :: t) hosts).

(** [ReconcileBrokers]; the default is set in the object it is given. *)
Definition reconcile_brokers (t : tick) (infra : MessagingInfrastructure)
    : ctl S (MessagingInfrastructureSpecBroker * (error + list Host)) :=
  let infra := set_i_Broker (setDefaultBrokerScalingStrategy (i_Broker infra)) infra in
  r ← reconcile_pool t infra (default None (sb_ScalingStrategy (i_Broker infra)));
  mret (i_Broker infra, r).
End BrokerController.
