(* ===== verification/RouterController.v ===== *)
(** The controller of router pods ([pkg/controller/messaginginfra/router]): the static
    configuration, the stateful set of the routers with its services and certificate, and
    the digest of the certificates of the endpoints that the pods are annotated with. *)
From stdpp Require Import base gmap strings list sorting.
From S2P Require Import Prelude Go Json BrokerTypes Client ApiV1 KubeObjects Workloads Conditions Reconcile Certs.
From S2P Require Import InfraController BrokerController.

(** ** The configuration ([router_config.go]) *)

(** An entity: its type and its attributes, in the order of the code. *)
Notation config_entity := (string * list (string * Json))%type.

Definition generateConfig (router : MessagingInfrastructureSpecRouter) : list config_entity := [
  ("router", [("workerThreads", JInt 4); ("timestampsInUTC", JBool true); ("defaultDistribution", JStr "unavailable");
    ("mode", JStr "interior"); ("id", JStr "${HOSTNAME}"); ("allowResumableLinkRoute", JBool false)]);
  ("sslProfile", [("name", JStr "infra_tls"); ("privateKeyFile", JStr "/etc/enmasse-certs/tls.key");
    ("certFile", JStr "/etc/enmasse-certs/tls.crt"); ("caCertFile", JStr "/etc/enmasse-certs/ca.crt")]);
  ("listener", [("name", JStr "interrouter"); ("host", JStr "0.0.0.0"); ("port", JInt 55672); ("requireSsl", JBool true);
    ("role", JStr "inter-router"); ("saslMechanisms", JStr "EXTERNAL"); ("sslProfile", JStr "infra_tls"); ("authenticatePeer", JBool true)]);
  ("listener", [("name", JStr "operator-management"); ("host", JStr "0.0.0.0"); ("port", JInt 55671); ("requireSsl", JBool true);
    ("saslMechanisms", JStr "EXTERNAL"); ("sslProfile", JStr "infra_tls"); ("authenticatePeer", JBool true)]);
  ("listener", [("name", JStr "local-management"); ("host", JStr "127.0.0.1"); ("port", JInt 7777); ("authenticatePeer", JBool false)]);
  ("listener", [("name", JStr "liveness"); ("host", JStr "127.0.0.1"); ("port", JInt 7778); ("authenticatePeer", JBool false);
    ("http", JBool true); ("metrics", JBool true); ("healthz", JBool true); ("websockets", JBool false); ("httpRootDir", JStr "invalid")]);
  ("listener", [("name", JStr "cluster-internal"); ("host", JStr "0.0.0.0"); ("port", JInt 55667); ("requireSsl", JBool true);
    ("saslMechanisms", JStr "EXTERNAL"); ("sslProfile", JStr "infra_tls"); ("authenticatePeer", JBool true)])].

(** [json.Marshal] writes the keys of a map in order. *)
Definition serializeConfig (config : list config_entity) : string :=
  marshal (JArr ((λ e : config_entity, JArr [JStr e.1; JObj (merge_sort (λ a b, String.leb a.1 b.1) e.2)]) <$> config)).

(** ** Names and scaling *)

Definition ANNOTATION_ROUTER_CONFIG_DIGEST : string := "enmasse.io/router-config-digest".

Definition getRouterInfraName (infra : MessagingInfrastructure) : string := "router-" +:+ Name (i_meta infra).

Definition setDefaultRouterScalingStrategy (router : MessagingInfrastructureSpecRouter) : MessagingInfrastructureSpecRouter :=
  {| sr_Image := sr_Image router;
     sr_ScalingStrategy := match sr_ScalingStrategy router with None => Some (Some 1%Z) | s => s end |}.

(** The replicas of a static strategy, or those that are set. *)
Definition applyScalingStrategy (strategy : option Z) (replicas : option Z) : option Z :=
  match strategy with Some n => Some n | None => replicas end.

(** ** The objects of the routers *)

Definition router_mounts : list (string * string) :=
  [("certs", "/etc/enmasse-certs"); ("config", "/etc/qpid-dispatch/config"); ("project-certs", "/etc/enmasse-project-certs")].

Definition router_env (infra : MessagingInfrastructure) (meshServiceName : string) : list (string * string) :=
  [("INFRA_NAME", Name (i_meta infra)); ("QDROUTERD_CONF", "/etc/qpid-dispatch/config/qdrouterd.json"); ("QDROUTERD_CONF_TYPE", "json");
   ("QDROUTERD_AUTO_MESH_DISCOVERY", "INFER"); ("QDROUTERD_AUTO_MESH_SERVICE_NAME", meshServiceName)].

(** The ports of the routers, and those the endpoints are given. *)
Definition project_port (i : Z) : ContainerPort := {| cp_Name := "project" +:+ fmt_d i; cp_ContainerPort := i |}.
Definition router_ports : list ContainerPort :=
  [{| cp_Name := "inter-router"; cp_ContainerPort := 55672 |}; {| cp_Name := "operator"; cp_ContainerPort := 55671 |};
   {| cp_Name := "cluster"; cp_ContainerPort := 55667 |}; {| cp_Name := "management"; cp_ContainerPort := 7777 |};
   {| cp_Name := "liveness"; cp_ContainerPort := 7778 |}; {| cp_Name := "readiness"; cp_ContainerPort := 7779 |}] ++
  (project_port <$> seqZ 40000 100).

Definition healthz (port : string) (delay : Z) : Probe :=
  {| pr_Handler := HTTPGet "/healthz" "HTTP" (FromString port); pr_TimeoutSeconds := 0; pr_InitialDelaySeconds := delay |}.

(** What is set in the container of a router beside its image. *)
Definition router_settings (infra : MessagingInfrastructure) (meshServiceName : string) (container : Container) : Container :=
  let c := apply_env (router_env infra meshServiceName) (apply_mounts router_mounts container) in
  {| ct_Name := ct_Name c; ct_Image := ct_Image c; ct_ImagePullPolicy := ct_ImagePullPolicy c; ct_Command := ct_Command c;
     ct_Env := ct_Env c; ct_VolumeMounts := ct_VolumeMounts c; ct_Ports := router_ports;
     ct_LivenessProbe := Some (healthz "liveness" 30); ct_ReadinessProbe := Some (healthz "readiness" 10) |}.

Section Objects.
Context `{HP : !Process_}.

Definition router_container (infra : MessagingInfrastructure) (meshServiceName : string) (container : Container) : outcome Container :=
  c ← ApplyContainerImage container "router" (sr_Image (i_Router infra));
  mret (router_settings infra meshServiceName c).

Definition router_statefulset (infra : MessagingInfrastructure) (strategy : option Z) (configSha : string) (owners : list string)
    (statefulset : StatefulSet) : outcome StatefulSet :=
  let name := getRouterInfraName infra in
  let s := ApplyStatefulSetDefaults statefulset "router" (Name (i_meta infra)) in
  let t := ss_Template s in
  containers ← ApplyContainerWithError (pt_Containers t) "router" (router_container infra name);
  let t := {| pt_Labels := infra_labels infra (pt_Labels t); pt_Annotations := infra_annotations infra (pt_Annotations t);
              pt_InitContainers := pt_InitContainers t; pt_Containers := containers; pt_Volumes := pt_Volumes t |} in
  let t := ApplyConfigMapVolume t "config" name in
  let t := ApplySecretVolume t "certs" (GetCertSecretName name) in
  let t := ApplySecretVolume t "project-certs" (GetProjectSecretName (Name (i_meta infra))) in
  mret {| ss_meta := ss_meta s; ss_Created := ss_Created s; ss_Labels := infra_labels infra (ss_Labels s);
          ss_Annotations := <[ANNOTATION_ROUTER_CONFIG_DIGEST := configSha]> (infra_annotations infra (ss_Annotations s));
          ss_Owners := owners; ss_Selector := ss_Selector s; ss_Replicas := applyScalingStrategy strategy (ss_Replicas s);
          ss_ServiceName := name; ss_Template := t; ss_VolumeClaimTemplates := ss_VolumeClaimTemplates s |}.
End Objects.

(** The service for components of the cluster. *)
Definition cluster_service (infra : MessagingInfrastructure) (selector : gmap string string) (owners : list string) (service : Service) : Service :=
  let s := ApplyServiceDefaults "router" (Name (i_meta infra)) service in
  {| s_Labels := s_Labels s; s_Annotations := s_Annotations s; s_Owners := owners; s_Type := ServiceTypeClusterIP; s_ClusterIP := s_ClusterIP s;
     s_Selector := selector;
     s_Ports := [{| sp_Name := "cluster"; sp_Protocol := ProtocolTCP; sp_Port := 55667; sp_TargetPort := FromString "cluster"; sp_NodePort := 0 |}];
     s_LoadBalancerIngress := s_LoadBalancerIngress s |}.

(** What the digest of the certificates is computed of: the entries of the secret, in the
    order of their keys. *)
Definition cert_text (d : gmap string bytes) : string :=
  foldr (λ kv acc, kv.1 +:+ default "" kv.2 +:+ acc) "" (merge_sort (λ a b, String.leb a.1 b.1) (map_to_list d)).

(** The names of a service, in and out of its namespace. *)
Definition service_names (name namespace : string) : list string :=
  [name; name +:+ "." +:+ namespace +:+ ".svc"; "*." +:+ name +:+ "." +:+ namespace +:+ ".svc"].

(** The host of a pod of the stateful set. *)
Definition pod_host (set : ObjectMeta) (pod : string) : string := pod +:+ "." +:+ Name set +:+ "." +:+ Namespace set +:+ ".svc".

(** The expected routers, each with the IP of its pod if it runs. *)
Definition router_host (set : ObjectMeta) (pods : list Pod) (i : nat) : Host :=
  let expectedHost := pod_host set (Name set +:+ "-" +:+ fmt_d (Z.of_nat i)) in
  {| Hostname := expectedHost;
     Ip := match find (λ pod, bool_decide (pod_Phase pod = PodRunning) && bool_decide (pod_PodIP pod ≠ "") &&
                              bool_decide (pod_host set (pod_Name pod) = expectedHost)) pods with
           | Some pod => pod_PodIP pod
           | None => ""
           end |}.

Section RouterController.
Context `{HX : !X509} `{HP : !Process_} {S : Type}.
Notation M A := (ctl S (error + A)).

(** The loop over the pods whose digest is not the current one. *)
Fixpoint annotate_pods (ns digest : string) (pods : list Pod) : M () :=
  match pods with
  | [] => ok ()
  | pod :: rest =>
      if decide (default "" (pod_Annotations pod ≫= λ m, m !! ANNOTATION_CERT_DIGEST) ≠ digest) then
        match pod_Annotations pod with
        | None => crash
        | Some annotations =>
            err ← call (UpdateObject PodKind ns (pod_Name pod)
                          {| pod_Name := pod_Name pod; pod_Annotations := Some (<[ANNOTATION_CERT_DIGEST := digest]> annotations);
                             pod_Phase := pod_Phase pod; pod_PodIP := pod_PodIP pod |});
            match err with Some err => fail (api_error err) | None => annotate_pods ns digest rest end
        end
      else annotate_pods ns digest rest
  end.

(** The objects of the routers, up to the stateful set. *)
Definition apply_routers (infra : MessagingInfrastructure) (strategy : option Z) : M (string * StatefulSet) :=
  let ns := Namespace (i_meta infra) in
  let name := getRouterInfraName infra in
  let config := serializeConfig (generateConfig (i_Router infra)) in
  try (_, _) ← CreateOrUpdate ConfigMapKind ns name (λ cm,
    try owners ← call (SetControllerReference (i_meta infra) (cm_Owners cm));
    ok ({| cm_Owners := owners; cm_Data := {["qdrouterd.json" := config]} |}, ()));
  try (_, certs) ← CreateOrUpdate SecretKind ns (GetProjectSecretName (Name (i_meta infra))) (λ secret,
    try owners ← call (SetControllerReference (i_meta infra) (sec_Owners secret));
    ok (set_Owners owners secret, cert_text (Data secret)));
  try (s, _) ← CreateOrUpdate StatefulSetKind ns name (λ s,
    try owners ← call (SetControllerReference (i_meta infra) (ss_Owners s));
    try s ← returned (router_statefulset infra strategy (sha256_hex config) owners s);
    ok (s, ()));
  ok (sha256_hex certs, s).

(** The services of the routers. *)
Definition apply_services (infra : MessagingInfrastructure) (selector : gmap string string) : M () :=
  let ns := Namespace (i_meta infra) in
  let name := getRouterInfraName infra in
  try (_, _) ← CreateOrUpdate ServiceKind ns name (λ service,
    try owners ← call (SetControllerReference (i_meta infra) (s_Owners service));
    ok (headless_service "router" infra selector 55672 "inter-router" owners service, ()));
  try (_, _) ← CreateOrUpdate ServiceKind ns (name +:+ "-cluster") (λ service,
    try owners ← call (SetControllerReference (i_meta infra) (s_Owners service));
    ok (cluster_service infra selector owners service, ()));
  ok ().

Definition reconcile_set (infra : MessagingInfrastructure) (strategy : option Z) : M (list Host) :=
  let ns := Namespace (i_meta infra) in
  let name := getRouterInfraName infra in
  let set := {| Name := name; Namespace := ns |} in
  try (certSha, s) ← apply_routers infra strategy;
  let labels := pt_Labels (ss_Template s) in
  try _ ← apply_services infra labels;
  try _ ← ReconcileCert certController infra set name (tail (service_names name ns) ++ service_names (name +:+ "-cluster") ns);
  r ← call (ListPods ns labels);
  try pods ← lift (from_api r);
  try _ ← annotate_pods ns certSha pods;
  match ss_Replicas s with
  | None => crash
  | Some expectedPods => ok (router_host set pods <$> seq 0 (Z.to_nat expectedPods))
  end.

(** [ReconcileRouters]; the default is set in the object it is given. *)
Definition reconcile_routers (infra : MessagingInfrastructure) : ctl S (MessagingInfrastructureSpecRouter * (error + list Host)) :=
  let infra := set_i_Router (setDefaultRouterScalingStrategy (i_Router infra)) infra in
  r ← reconcile_set infra (default None (sr_ScalingStrategy (i_Router infra)));
  mret (i_Router infra, r).
End RouterController.
