(* ===== verification/PodFacts.v ===== *)
(** The pods of brokers and routers. The objects: making one again changes nothing, and a
    pod is found by its name. The controllers, whatever they are answered: the objects they
    store are made of those that exist; a broker is removed only when it is not used and
    there are more than asked for; the pods of the routers are annotated with the digest of
    the certificates; and the hosts that are answered are the brokers and routers that are
    wanted. Only a pod without annotations makes the operator panic. *)
From Stdlib Require Import Ascii.
From stdpp Require Import base gmap strings list sets pretty.
From S2P Require Import Prelude Go Client ApiV1 Conditions GoStrings CacheFacts KubeObjects Workloads Reconcile ControllerFacts.
From S2P Require Import Certs CertFacts InfraController BrokerController RouterController.

(** ** Lists of named things *)

Section Named.
Context {A : Type} (name_of : A → string).
Implicit Types (l : list A) (f g : A → outcome A).

(** The first element of the name is one that [f] leaves as it is. *)
Definition settled_in (name : string) f l : Prop :=
  ∃ pre v post, l = pre ++ v :: post ∧ name_of v = name ∧ Forall (λ u, name_of u ≠ name) pre ∧ f v = Ok v.

(** A change that keeps the name, and does nothing the second time. *)
Record settles f : Prop := {
  settles_name : ∀ v v', f v = Ok v' → name_of v' = name_of v;
  settles_again : ∀ v v', f v = Ok v' → f v' = Ok v';
}.

Lemma apply_fixed new name f l : settled_in name f l → apply_named name_of new name f l = Ok l.
Proof.
  intros (pre & v & post & -> & Hn & Hpre & Hf). induction Hpre as [|u pre Hu _ IH]; simpl.
  - by rewrite decide_True, Hf.
  - by rewrite decide_False, IH.
Qed.

Lemma apply_settles new name f l l' :
  settles f → name_of new = name → apply_named name_of new name f l = Ok l' → settled_in name f l'.
Proof.
  intros [Hname Hagain] Hnew. revert l'. induction l as [|v l IH]; intros l'; simpl.
  - destruct (f new) as [v| |] eqn:Hf; intros [= <-]. exists [], v, []. split_and!; [done|by rewrite (Hname _ _ Hf)|constructor|eauto].
  - case_decide as Hv.
    + destruct (f v) as [v'| |] eqn:Hf; intros [= <-]. exists [], v', l. split_and!; [done|by rewrite (Hname _ _ Hf)|constructor|eauto].
    + destruct (apply_named _ _ _ _ l) as [l2| |]; intros [= <-]. destruct (IH _ eq_refl) as (pre & u & post & -> & Hu & Hpre & Hf).
      exists (v :: pre), u, post. split_and!; [done|done|by constructor|done].
Qed.

Lemma apply_other new name f name' g l l' :
  settles g → name_of new = name' → name ≠ name' → settled_in name f l → apply_named name_of new name' g l = Ok l' → settled_in name f l'.
Proof.
  intros [Hname _] Hnew Hne (pre & v & post & -> & Hn & Hpre & Hf). revert l'. induction Hpre as [|u pre Hu Hpre IH]; intros l'; simpl.
  - rewrite decide_False by congruence. destruct (apply_named _ _ _ _ post) as [post'| |]; intros [= <-]. by exists [], v, post'.
  - case_decide as Hu'.
    + destruct (g u) as [u'| |] eqn:Hg; intros [= <-]. exists (u' :: pre), v, post. split_and!; [done|done| |done].
      constructor; [|done]. by rewrite (Hname _ _ Hg).
    + destruct (apply_named _ _ _ _ (pre ++ _)) as [l2| |]; intros [= <-]. destruct (IH _ eq_refl) as (pre' & w & post' & -> & Hw & Hpre' & Hfw).
      exists (u :: pre'), w, post'. split_and!; [done|done|by constructor|done].
Qed.

(** Changes that cannot fail are applied. *)
Lemma apply_total new name (f : A → A) l : ∃ l', apply_named name_of new name (λ v, Ok (f v)) l = Ok l'.
Proof. induction l as [|v l [l' IH]]; simpl; [by eexists|]. case_decide; [by eexists|]. rewrite IH. by eexists. Qed.

(** ** Several changes, one after the other *)

Context {B : Type} (make : string → A) (f : B → A → A).
Hypothesis (Hmake : ∀ name, name_of (make name) = name) (Hname : ∀ b v, name_of (f b v) = name_of v) (Hagain : ∀ b v, f b (f b v) = f b v).

Definition change l (kv : string * B) : list A := eat_error (apply_named name_of (make kv.1) kv.1 (λ v, Ok (f kv.2 v)) l) l.

Lemma change_settles b : settles (λ v, Ok (f b v)).
Proof. split; intros v v' [= <-]; [apply Hname|by rewrite Hagain]. Qed.

Lemma change_apply l kv : apply_named name_of (make kv.1) kv.1 (λ v, Ok (f kv.2 v)) l = Ok (change l kv).
Proof. unfold change. by destruct (apply_total (make kv.1) kv.1 (f kv.2) l) as [l' ->]. Qed.

Lemma changes_keep kvs l name b :
  name ∉ kvs.*1 → settled_in name (λ v, Ok (f b v)) l → settled_in name (λ v, Ok (f b v)) (foldl change l kvs).
Proof.
  revert l. induction kvs as [|kv kvs IH]; intros l Hni Hs; [done|]. simpl in *. apply IH; [set_solver|].
  eapply apply_other; [apply (change_settles kv.2)|apply (Hmake kv.1)|set_solver|exact Hs|apply change_apply].
Qed.

Lemma changes_settled kvs l name b :
  NoDup kvs.*1 → (name, b) ∈ kvs → settled_in name (λ v, Ok (f b v)) (foldl change l kvs).
Proof.
  revert l. induction kvs as [|kv kvs IH]; intros l Hnd Hin; [by apply not_elem_of_nil in Hin|]. simpl in *.
  apply NoDup_cons in Hnd as [Hni Hnd]. apply elem_of_cons in Hin as [<-|Hin]; [|by apply IH].
  apply changes_keep; [done|]. eapply apply_settles; [apply change_settles|apply (Hmake name)|apply (change_apply l (name, b))].
Qed.

Lemma changes_fixed kvs l : (∀ name b, (name, b) ∈ kvs → settled_in name (λ v, Ok (f b v)) l) → foldl change l kvs = l.
Proof.
  induction kvs as [|[name b] kvs IH]; intros Hs; [done|]. simpl. unfold change at 2. simpl.
  rewrite (apply_fixed (make name) name _ l) by (apply Hs; by left). apply IH. intros n c Hin. apply Hs. by right.
Qed.

Lemma changes_again kvs l : NoDup kvs.*1 → foldl change (foldl change l kvs) kvs = foldl change l kvs.
Proof. intros Hnd. apply changes_fixed. intros name b Hin. by apply changes_settled. Qed.
End Named.

(** ** Containers *)

Definition env_change : list EnvVar → string * string → list EnvVar :=
  change ev_Name (λ n, {| ev_Name := n; ev_Value := ""; ev_ValueFrom := None |})
    (λ value e, {| ev_Name := ev_Name e; ev_Value := value; ev_ValueFrom := None |}).
Definition mount_change : list VolumeMount → string * string → list VolumeMount :=
  change vm_Name (λ n, {| vm_Name := n; vm_MountPath := ""; vm_ReadOnly := false |})
    (λ path m, {| vm_Name := vm_Name m; vm_MountPath := path; vm_ReadOnly := false |}).

Lemma apply_env_list env c : apply_env env c = set_Env (λ l, foldl env_change l env) c.
Proof. revert c. induction env as [|kv env IH]; intros c; [by destruct c|]. simpl. rewrite IH. done. Qed.

Lemma apply_mounts_list mounts c : apply_mounts mounts c = set_VolumeMounts (λ l, foldl mount_change l mounts) c.
Proof. revert c. induction mounts as [|kv mounts IH]; intros c; [by destruct c|]. simpl. rewrite IH. done. Qed.

Lemma env_again env l : NoDup env.*1 → foldl env_change (foldl env_change l env) env = foldl env_change l env.
Proof. by apply changes_again. Qed.
Lemma mounts_again mounts l : NoDup mounts.*1 → foldl mount_change (foldl mount_change l mounts) mounts = foldl mount_change l mounts.
Proof. by apply changes_again. Qed.

(** The names of the settings are different. *)
Lemma broker_env_names infra : NoDup (broker_env infra).*1.
Proof. apply (bool_decide_unpack _). by vm_compute. Qed.
Lemma broker_probe_names infra : NoDup (broker_env infra ++ probe_env).*1.
Proof. apply (bool_decide_unpack _). by vm_compute. Qed.
Lemma broker_mount_names : NoDup broker_mounts.*1.
Proof. apply (bool_decide_unpack _). by vm_compute. Qed.
Lemma router_env_names infra mesh : NoDup (router_env infra mesh).*1.
Proof. apply (bool_decide_unpack _). by vm_compute. Qed.
Lemma router_mount_names : NoDup router_mounts.*1.
Proof. apply (bool_decide_unpack _). by vm_compute. Qed.

Section Images.
Context `{HP : !Process_}.

(** An image, then settings that do nothing the second time. *)
Lemma image_settles image override (f : Container → Container) :
  (∀ c, ct_Name (f c) = ct_Name c) →
  (∀ i p c, f (set_Image i p (f (set_Image i p c))) = f (set_Image i p c)) →
  settles ct_Name (λ c, c ← ApplyContainerImage c image override; mret (f c)).
Proof.
  intros Hn Ha. unfold ApplyContainerImage. destruct (GetImage image) as [r| |]; split; intros v v' H; try discriminate H;
    injection H as <-; cbn; [by rewrite Hn|]. by rewrite Ha.
Qed.

End Images.

(** Settings of environment and volume mounts beside fields that are assigned. *)
Definition assigned (env mounts : list (string * string)) (command : option (list string)) (ports : option (list ContainerPort))
    (live ready : option Probe) (c : Container) : Container :=
  {| ct_Name := ct_Name c; ct_Image := ct_Image c; ct_ImagePullPolicy := ct_ImagePullPolicy c;
     ct_Command := default (ct_Command c) command; ct_Env := foldl env_change (ct_Env c) env;
     ct_VolumeMounts := foldl mount_change (ct_VolumeMounts c) mounts; ct_Ports := default (ct_Ports c) ports;
     ct_LivenessProbe := match live with Some _ => live | None => ct_LivenessProbe c end;
     ct_ReadinessProbe := match ready with Some _ => ready | None => ct_ReadinessProbe c end |}.

Lemma assigned_again env mounts command ports live ready i p c :
  NoDup env.*1 → NoDup mounts.*1 →
  let f := assigned env mounts command ports live ready in f (set_Image i p (f (set_Image i p c))) = f (set_Image i p c).
Proof.
  intros He Hm f. unfold f, assigned, set_Image. cbn. rewrite env_again, mounts_again by done. f_equal; by destruct command, ports, live, ready.
Qed.

Lemma settings_assigned env mounts c : apply_mounts mounts (apply_env env c) = assigned env mounts None None None None c.
Proof. by rewrite apply_env_list, apply_mounts_list. Qed.
Lemma settings_assigned' env mounts c : apply_env env (apply_mounts mounts c) = assigned env mounts None None None None c.
Proof. by rewrite apply_env_list, apply_mounts_list. Qed.

Lemma assigned_settles `{HP : !Process_} image override f env mounts command ports live ready :
  (∀ c, f c = assigned env mounts command ports live ready c) → NoDup env.*1 → NoDup mounts.*1 →
  settles ct_Name (λ c, c ← ApplyContainerImage c image override; mret (f c)).
Proof. intros Hf He Hm. apply image_settles; intros; rewrite !Hf; [done|]. by apply assigned_again. Qed.

Section Containers.
Context `{HP : !Process_}.

Lemma broker_init_settles infra : settles ct_Name (broker_init infra).
Proof. eapply assigned_settles; [intros c; apply settings_assigned|apply broker_env_names|apply broker_mount_names]. Qed.

Lemma broker_container_settles infra : settles ct_Name (broker_container infra).
Proof.
  eapply (assigned_settles _ _ _ _ _ (Some _) (Some _) (Some _) (Some _)); [|apply broker_probe_names|apply broker_mount_names].
  intros c. unfold broker_settings. rewrite settings_assigned. reflexivity.
Qed.

Lemma router_container_settles infra mesh : settles ct_Name (router_container infra mesh).
Proof.
  eapply (assigned_settles _ _ _ _ _ None (Some _) (Some _) (Some _)); [|apply router_env_names|apply router_mount_names].
  intros c. unfold router_settings. rewrite settings_assigned'. reflexivity.
Qed.
End Containers.

(** ** Stateful sets *)

Lemma containers_again l name f l' :
  settles ct_Name f → ApplyContainerWithError l name f = Ok l' → ApplyContainerWithError l' name f = Ok l'.
Proof. intros Hf H. apply apply_fixed. by apply (apply_settles ct_Name _ _ _ _ _ Hf eq_refl H). Qed.

(** What a volume is made of. *)
Inductive volume_source :=
  | FromConfigMap (name : string)
  | FromSecret (name : string)
  | Empty.

Definition set_source (s : volume_source) (v : Volume) : Volume :=
  {| v_Name := v_Name v;
     v_ConfigMap := match s with FromConfigMap n => Some n | _ => v_ConfigMap v end;
     v_Secret := match s with FromSecret n => Some n | _ => v_Secret v end;
     v_EmptyDir := match s with Empty => Some () | _ => v_EmptyDir v end |}.

Definition volume_change : list Volume → string * volume_source → list Volume := change v_Name new_volume set_source.

Lemma volumes_again sources l : NoDup sources.*1 → foldl volume_change (foldl volume_change l sources) sources = foldl volume_change l sources.
Proof. apply changes_again; [done|done|]. by intros []. Qed.

(** Labels and annotations. *)
Lemma labels_again l component name : CreateDefaultLabels (CreateDefaultLabels l component name) component name = CreateDefaultLabels l component name.
Proof. unfold CreateDefaultLabels. by repeat (rewrite insert_id; [|by simplify_map_eq]). Qed.

Lemma infra_labels_again infra l component name :
  infra_labels infra (CreateDefaultLabels (infra_labels infra (CreateDefaultLabels l component name)) component name) =
  infra_labels infra (CreateDefaultLabels l component name).
Proof. unfold infra_labels, CreateDefaultLabels, LABEL_INFRA. by repeat (rewrite insert_id; [|by simplify_map_eq]). Qed.

Lemma infra_annotations_again infra l : infra_annotations infra (infra_annotations infra l) = infra_annotations infra l.
Proof. unfold infra_annotations, ANNOTATION_INFRA_NAMESPACE, ANNOTATION_INFRA_NAME. by repeat (rewrite insert_id; [|by simplify_map_eq]). Qed.

Section StatefulSets.
Context `{HP : !Process_}.

Lemma template_annotations_again infra l :
  infra_annotations infra (CreateDefaultAnnotations (infra_annotations infra (CreateDefaultAnnotations l))) =
  infra_annotations infra (CreateDefaultAnnotations l).
Proof.
  unfold infra_annotations, CreateDefaultAnnotations, ANNOTATION_INFRA_NAMESPACE, ANNOTATION_INFRA_NAME.
  destruct (LookupEnv "VERSION"), (LookupEnv "REVISION"); by repeat (rewrite insert_id; [|by simplify_map_eq]).
Qed.

Lemma broker_statefulset_again infra name owners s s' :
  broker_statefulset infra name owners s = Ok s' → broker_statefulset infra name owners s' = Ok s'.
Proof.
  unfold broker_statefulset. cbv zeta.
  destruct (ApplyContainerWithError (pt_InitContainers _) _ _) as [inits| |] eqn:Hi; [|discriminate..].
  destruct (ApplyContainerWithError (pt_Containers _) _ _) as [containers| |] eqn:Hc; [|discriminate..]. intros [= <-].
  cbn [ApplyStatefulSetDefaults ss_Template ApplySecretVolume ApplyEmptyDirVolume set_Volumes pt_InitContainers pt_Containers pt_Labels
       pt_Annotations pt_Volumes ss_meta ss_Created ss_Labels ss_Annotations ss_Owners ss_Selector].
  rewrite (containers_again _ _ _ _ (broker_init_settles infra) Hi). cbn [mbind outcome_bind].
  rewrite (containers_again _ _ _ _ (broker_container_settles infra) Hc). cbn [mbind outcome_bind]. unfold mret, outcome_ret.
  rewrite !infra_labels_again, template_annotations_again, infra_annotations_again.
  unfold ApplySecretVolume, ApplyEmptyDirVolume, set_Volumes.
  cbn [pt_Volumes pt_Labels pt_Annotations pt_InitContainers pt_Containers].
  pose proof (volumes_again [("init", Empty); ("certs", FromSecret (GetCertSecretName name))] (pt_Volumes (ss_Template s))) as Hv.
  f_equal. f_equal; [by destruct (ss_Created s)|]. f_equal. apply Hv. apply (bool_decide_unpack _). by vm_compute.
Qed.

Lemma router_annotations_again infra l sha :
  <[ANNOTATION_ROUTER_CONFIG_DIGEST := sha]> (infra_annotations infra (<[ANNOTATION_ROUTER_CONFIG_DIGEST := sha]> (infra_annotations infra l))) =
  <[ANNOTATION_ROUTER_CONFIG_DIGEST := sha]> (infra_annotations infra l).
Proof.
  unfold infra_annotations, ANNOTATION_ROUTER_CONFIG_DIGEST, ANNOTATION_INFRA_NAMESPACE, ANNOTATION_INFRA_NAME.
  by repeat (rewrite insert_id; [|by simplify_map_eq]).
Qed.

Lemma router_statefulset_again infra strategy sha owners s s' :
  router_statefulset infra strategy sha owners s = Ok s' → router_statefulset infra strategy sha owners s' = Ok s'.
Proof.
  unfold router_statefulset. cbv zeta. set (name := getRouterInfraName infra).
  destruct (ApplyContainerWithError (pt_Containers _) _ _) as [containers| |] eqn:Hc; [|discriminate..]. intros [= <-].
  cbn [ApplyStatefulSetDefaults ss_Template ApplySecretVolume ApplyConfigMapVolume set_Volumes pt_InitContainers pt_Containers pt_Labels
       pt_Annotations pt_Volumes ss_meta ss_Created ss_Labels ss_Annotations ss_Owners ss_Selector ss_Replicas ss_VolumeClaimTemplates].
  rewrite (containers_again _ _ _ _ (router_container_settles infra name) Hc). cbn [mbind outcome_bind]. unfold mret, outcome_ret.
  rewrite !infra_labels_again, template_annotations_again, router_annotations_again.
  unfold ApplySecretVolume, ApplyConfigMapVolume, set_Volumes.
  cbn [pt_Volumes pt_Labels pt_Annotations pt_InitContainers pt_Containers].
  pose proof (volumes_again [("config", FromConfigMap name); ("certs", FromSecret (GetCertSecretName name));
    ("project-certs", FromSecret (GetProjectSecretName (Name (i_meta infra))))] (pt_Volumes (ss_Template s))) as Hv.
  f_equal. f_equal; [by destruct (ss_Created s)|]. f_equal. apply Hv. apply (bool_decide_unpack _). by vm_compute.
Qed.
End StatefulSets.

(** The replicas that the strategy asks for, and one if there is none. *)
Lemma router_replicas `{!Process_} infra strategy sha owners s s' :
  router_statefulset infra strategy sha owners s = Ok s' → ss_Replicas s' = Some (default 1%Z strategy).
Proof.
  unfold router_statefulset. cbv zeta. destruct (ApplyContainerWithError _ _ _) as [containers| |]; [|discriminate..].
  intros [= <-]. by destruct strategy.
Qed.

(** ** The names of brokers *)

Section BrokerNames.
Context `{HS : !Sched}.

Lemma random_length t : String.length (RandomBrokerName t) = brokerNameLength.
Proof. done. Qed.

(** The name that [create_brokers] gives a broker. *)
Definition broker_name (infra : MessagingInfrastructure) (suffix : string) : string := "broker-" +:+ Name (i_meta infra) +:+ "-" +:+ suffix.

Lemma append_same_length (a b c d : string) : String.length a = String.length b → a +:+ c = b +:+ d → a = b.
Proof. revert b. induction a as [|x a IH]; intros [|y b]; simpl; [done..|]. intros [= Hl] [= -> H]. by rewrite (IH _ Hl H). Qed.

(** Of two brokers whose names are equally long, the host of one begins with the name of
    the pod of the other only if they are the same. *)
Lemma pod_of_one_host (b b' : ObjectMeta) :
  String.length (Name b) = String.length (Name b') → HasPrefix (toHost b) (toNamespacedHost b') = bool_decide (Name b = Name b').
Proof.
  intros Hl. unfold toHost, toNamespacedHost. case_bool_decide as Hn.
  - rewrite Hn. apply HasPrefix_spec. exists ("." +:+ Name b' +:+ "." +:+ Namespace b +:+ ".svc").
    by rewrite append_assoc.
  - apply not_true_is_false. intros [t Ht]%HasPrefix_spec. rewrite append_assoc in Ht.
    by apply append_same_length in Ht.
Qed.

Lemma find_ext_in {A} (f g : A → bool) l : (∀ x, x ∈ l → f x = g x) → find f l = find g l.
Proof.
  induction l as [|x l IH]; intros H; simpl; [done|]. rewrite (H x) by set_solver. rewrite IH; [done|]. intros y Hy. apply H. set_solver.
Qed.

(** A pod that can be reached. *)
Definition reachable (pod : Pod) : bool := bool_decide (pod_Phase pod = PodRunning) && bool_decide (pod_PodIP pod ≠ "").
Definition first_ip (pod : option Pod) : string := match pod with Some pod => pod_PodIP pod | None => "" end.

End BrokerNames.

(** ** Programs under two policies *)

Section Wp.
Context {E : Type → Type}.
Implicit Types (tr : list (event E)) (ok : list (event E) → event E → Prop).

Lemma wp_weaken ok ok' {A} (p : io E A) tr Q : (∀ new ev, ok (tr ++ new) ev → ok' (tr ++ new) ev) → wp ok p tr Q → wp ok' p tr Q.
Proof.
  revert tr. induction p as [a| |X e k IH]; intros tr Hok; simpl; [done..|]. intros H x. split.
  - specialize (Hok [] (Ev e x)). rewrite app_nil_r in Hok. apply Hok, H.
  - apply IH; [|apply H]. intros new ev. rewrite <-!app_assoc. apply Hok.
Qed.

(** All that was done was allowed where it was done. *)
Lemma wp_obeyed ok {A} (p : io E A) tr Q :
  wp ok p tr Q → wp ok p tr (λ tr' a, Q tr' a ∧ ∃ new, tr' = tr ++ new ∧ ∀ pre ev post, new = pre ++ ev :: post → ok (tr ++ pre) ev).
Proof.
  revert tr. induction p as [a| |X e k IH]; intros tr; simpl; [|done|].
  - intros H. split; [done|]. exists []. rewrite app_nil_r. split; [done|]. by intros [] ? ?.
  - intros H x. split; [apply H|]. eapply wp_mono; [apply IH, H|]. intros tr' a (HQ & new & -> & Hnew).
    split; [done|]. exists (Ev e x :: new). rewrite <-app_assoc. split; [done|]. intros [|ev0 pre] ev post [= <- Hn].
    + rewrite app_nil_r. apply H.
    + rewrite cons_middle, app_assoc. by eapply Hnew.
Qed.
End Wp.

(** ** Images *)

Section Images.
Context `{HP : !Process_} (Himages : lazyLoadImageMap ≠ Panic).

Lemma image_no_panic c name override : ApplyContainerImage c name override ≠ Panic.
Proof. unfold ApplyContainerImage, GetImage. destruct lazyLoadImageMap as [m| |]; [|done..]. simpl. by destruct (m !! name). Qed.

Lemma apply_no_panic {A} (name_of : A → string) new name f l : (∀ v, f v ≠ Panic) → apply_named name_of new name f l ≠ Panic.
Proof.
  intros Hf. induction l as [|v l IH]; simpl; [|case_decide].
  - specialize (Hf new). by destruct (f new).
  - specialize (Hf v). by destruct (f v).
  - by destruct (apply_named _ _ _ _ l).
Qed.

Lemma broker_statefulset_no_panic infra name owners s : broker_statefulset infra name owners s ≠ Panic.
Proof.
  unfold broker_statefulset. cbv zeta.
  pose proof (apply_no_panic ct_Name (new_container "broker-init") "broker-init" (broker_init infra)
    (pt_InitContainers (ss_Template (ApplyStatefulSetDefaults s "broker" name)))) as H1.
  pose proof (apply_no_panic ct_Name (new_container "broker") "broker" (broker_container infra)
    (pt_Containers (ss_Template (ApplyStatefulSetDefaults s "broker" name)))) as H2.
  unfold ApplyContainerWithError. destruct (apply_named _ (new_container "broker-init") _ _ _); [|done|].
  - simpl. destruct (apply_named _ (new_container "broker") _ _ _); [done|done|]. destruct H2; [|done]. intros v. unfold broker_container.
    pose proof (image_no_panic v "broker" (sb_Image (i_Broker infra))). by destruct (ApplyContainerImage _ _ _).
  - destruct H1; [|done]. intros v. unfold broker_init.
    pose proof (image_no_panic v "broker-plugin" (sb_InitImage (i_Broker infra))). by destruct (ApplyContainerImage _ _ _).
Qed.

Lemma router_statefulset_no_panic infra strategy sha owners s : router_statefulset infra strategy sha owners s ≠ Panic.
Proof.
  unfold router_statefulset. cbv zeta.
  pose proof (apply_no_panic ct_Name (new_container "router") "router" (router_container infra (getRouterInfraName infra))
    (pt_Containers (ss_Template (ApplyStatefulSetDefaults s "router" (Name (i_meta infra)))))) as H.
  unfold ApplyContainerWithError. destruct (apply_named _ _ _ _ _); [done|done|]. destruct H; [|done]. intros v. unfold router_container.
  pose proof (image_no_panic v "router" (sr_Image (i_Router infra))). by destruct (ApplyContainerImage _ _ _).
Qed.
End Images.

(** ** Brokers *)

Section Brokers.
Context `{HX : !X509} `{HL : !X509Laws} `{HP : !Process_} `{HS : !Sched}.
Context (Himages : lazyLoadImageMap ≠ Panic) (infra : MessagingInfrastructure) {S : Type}.
Notation ns := (Namespace (i_meta infra)).
Implicit Types (s : S) (tr : trace) (b : ObjectMeta).

(** The objects of a broker are made of those that exist: the set, the service for the
    pods of the set, and the certificate, signed by the authority of the infrastructure
    for the names of the broker. *)
Definition broker_stores (known : ObjectMeta → Prop) tr (ev : event kube) : Prop :=
  match ev with
  | Ev e _ =>
      match e with
      | Store k sns name o =>
          match k in okind T return T → Prop with
          | StatefulSetKind => λ set', known {| Name := name; Namespace := sns |} ∧ ∃ set owners,
              Ev (Existing StatefulSetKind sns name) (inr set) ∈ tr ∧ broker_statefulset infra name owners set = Ok set'
          | ServiceKind => λ service', sns = ns ∧ ∃ b set service owners, known b ∧ name = Name b ∧
              Ev (Store StatefulSetKind (Namespace b) name set) None ∈ tr ∧ Ev (Existing ServiceKind sns name) (inr service) ∈ tr ∧
              service' = headless_service "broker" infra (pt_Labels (ss_Template set)) 5671 "amqps" owners service
          | SecretKind => λ secret', sns = ns ∧ ∃ b caSecret secret now info, known b ∧ name = GetCertSecretName (Name b) ∧
              Ev (GetObject SecretKind sns (Name (i_meta infra) +:+ "-ca")) (inr caSecret) ∈ tr ∧
              applied certController secret caSecret component_config (toNamespacedHost b) [toHost b] now secret' info
          | _ => λ _, False
          end o
      | e => reads_only e = true
      end
  end.

(** All objects of the broker are stored. *)
Definition broker_made b tr : Prop :=
  (∃ set, Ev (Store StatefulSetKind (Namespace b) (Name b) set) None ∈ tr) ∧
  (∃ service, Ev (Store ServiceKind ns (Name b) service) None ∈ tr) ∧
  (∃ secret, store_cert infra b secret None ∈ tr).

Lemma broker_stores_reads known tr X (e : kube X) x : reads_only e = true → broker_stores known tr (Ev e x).
Proof. by destruct e. Qed.

Lemma broker_made_app b tr new : broker_made b tr → broker_made b (tr ++ new).
Proof.
  intros ([set H1] & [service H2] & [secret H3]).
  split_and!; [exists set|exists service|exists secret]; rewrite elem_of_app; auto.
Qed.

Lemma reconcileBroker_wp (known : ObjectMeta → Prop) b s tr :
  known b → wp (broker_stores known) (reconcileBroker infra b s) tr (λ tr' r, r.1 = s ∧ (r.2 = inr () → broker_made b tr')).
Proof.
  intros Hb. destruct b as [name bns]. unfold reconcileBroker, Certs.ok, returned. cbn [Name Namespace]. wp_step.
  apply CreateOrUpdate_wp; [done|done|]. intros set. repeat wp_step. split; [done|]. destruct x as [e|owners]; repeat wp_step; [done|].
  pose proof (broker_statefulset_no_panic Himages infra name owners set) as Hp.
  destruct (broker_statefulset infra name owners set) as [set'|e|] eqn:Hset; [|done|done]. repeat wp_step. intros e.
  split; [split; [done|]; exists set, owners; split; [set_solver|done]|]. destruct e as [e|]; [done|]. wp_step.
  apply CreateOrUpdate_wp; [done|done|]. intros service. repeat wp_step. split; [done|]. destruct x as [e|owners']; repeat wp_step; [done|].
  intros e. split; [split; [done|]; exists {| Name := name; Namespace := bns |}, set', service, owners'; split_and!; try done; set_solver|].
  destruct e as [e|]; [done|]. wp_step. apply ReconcileCert_wp; [apply broker_stores_reads| |].
  - intros new caSecret secret now secret' info x Hca Happ. split; [done|].
    exists {| Name := name; Namespace := bns |}, caSecret, secret, now, info. split_and!; [done|done|set_solver|done].
  - intros new [e|info] Hr; cbn [fst snd]; [done|]. wp_step. split; [done|]. intros _. destruct (Hr _ eq_refl) as (secret' & Hst & _).
    split_and!; [exists set'; set_solver|eexists; apply elem_of_app; left; apply elem_of_app; right; by left|exists secret'; set_solver].
Qed.

(** ** The pool *)

(** The next broker, and then the others. *)
Lemma next_broker_wp (known : ObjectMeta → Prop) b brokers (hosts : gmap string bool) (rest : ctl S (error + gmap string bool)) s tr :
  known b →
  (∀ tr', wp (broker_stores known) (rest s) tr' (λ tr' r, r.1 = s ∧ ∀ hosts', r.2 = inr hosts' →
    dom hosts' = dom (<[toHost b := true]> hosts) ∪ list_to_set (toHost <$> brokers) ∧ Forall (λ b, broker_made b tr') brokers)) →
  wp (broker_stores known) (try_ (reconcileBroker infra b) (λ _, rest) s) tr (λ tr' r, r.1 = s ∧ ∀ hosts', r.2 = inr hosts' →
    dom hosts' = dom hosts ∪ list_to_set (toHost <$> b :: brokers) ∧ Forall (λ b, broker_made b tr') (b :: brokers)).
Proof.
  intros Hb IH. wp_step. eapply wp_mono; [by apply reconcileBroker_wp|]. intros tr1 [s1 [e|[]]] [-> Hmade]; cbn [fst snd]; [done|].
  eapply wp_mono; [apply wp_grows, IH|]. intros tr2 r [[-> H] [new ->]]. split; [done|]. intros hosts' Hr.
  destruct (H _ Hr) as [Hd Hall]. split; [rewrite Hd, dom_insert_L; clear; set_solver|]. constructor; [|done].
  apply broker_made_app. by apply Hmade.
Qed.

Lemma no_broker_wp known (hosts : gmap string bool) s tr :
  wp (broker_stores known) (Certs.ok (S := S) hosts s) tr (λ tr' r, r.1 = s ∧ ∀ hosts', r.2 = inr hosts' →
    dom hosts' = dom hosts ∪ list_to_set (toHost <$> []) ∧ Forall (λ b, broker_made b tr') []).
Proof. split; [done|]. intros hosts' [= <-]. split; [set_solver|constructor]. Qed.

Lemma reconcile_existing_wp (known : ObjectMeta → Prop) brokers hosts s tr :
  Forall known brokers →
  wp (broker_stores known) (reconcile_existing infra brokers hosts s) tr (λ tr' r, r.1 = s ∧ ∀ hosts', r.2 = inr hosts' →
    dom hosts' = dom hosts ∪ list_to_set (toHost <$> brokers) ∧ Forall (λ b, broker_made b tr') brokers).
Proof.
  intros Hk. revert hosts tr. induction Hk as [|b brokers Hb Hk IH]; intros hosts tr; [apply no_broker_wp|].
  apply next_broker_wp; [done|]. apply IH.
Qed.

(** The brokers that are created, as the random numbers will have it. *)
Definition created_broker (t : tick) (n : nat) : ObjectMeta :=
  {| Namespace := ns; Name := broker_name infra (RandomBrokerName (n :: t)) |}.
Fixpoint created_brokers (t : tick) (toCreate : nat) : list ObjectMeta :=
  match toCreate with 0 => [] | Datatypes.S n => created_broker t n :: created_brokers t n end.

Lemma create_brokers_wp (known : ObjectMeta → Prop) t n hosts s tr :
  Forall known (created_brokers t n) →
  wp (broker_stores known) (create_brokers t infra n hosts s) tr (λ tr' r, r.1 = s ∧ ∀ hosts', r.2 = inr hosts' →
    dom hosts' = dom hosts ∪ list_to_set (toHost <$> created_brokers t n) ∧ Forall (λ b, broker_made b tr') (created_brokers t n)).
Proof.
  revert hosts tr. induction n as [|n IH]; intros hosts tr Hk; [apply no_broker_wp|]. inversion Hk; subst.
  apply (next_broker_wp known (created_broker t n)); [done|]. intros tr'. by apply IH.
Qed.

(** The number of sets that were deleted. *)
Definition is_removal (ev : event kube) : bool :=
  match ev with
  | Ev e x => match e in kube X return X → bool with DeleteObject _ _ _ => λ err, negb (bool_decide (is_Some err)) | _ => λ _, false end x
  end.
Definition removals tr : Z := Z.of_nat (length (filter (λ ev, is_removal ev = true) tr)).

Lemma removals_app tr tr' : removals (tr ++ tr') = (removals tr + removals tr')%Z.
Proof. unfold removals. rewrite filter_app, length_app. lia. Qed.

(** No set is deleted while brokers are reconciled. *)
Lemma stores_remove_nothing known tr new :
  (∀ pre ev post, new = pre ++ ev :: post → broker_stores known (tr ++ pre) ev) → removals new = 0%Z.
Proof.
  induction new as [|ev new IH] using rev_ind; intros H; [done|]. rewrite removals_app, IH.
  - specialize (H new ev [] eq_refl). destruct ev as [X e x]. by destruct e.
  - intros pre ev' post ->. apply (H pre ev' (post ++ [ev])). by rewrite <-app_assoc.
Qed.

Context (t : tick) (strategy : option Z).

Definition listed (sets : list StatefulSet) tr : Prop := Ev (ListStatefulSets ns (getBrokerLabels infra)) (inr sets) ∈ tr.
Definition missing_brokers (sets : list StatefulSet) : list ObjectMeta :=
  created_brokers (0 :: t) (Z.to_nat (numBrokersToCreate strategy (length sets))).
Definition in_pool (sets : list StatefulSet) b : Prop := b ∈ (ss_meta <$> sets) ++ missing_brokers sets.

Definition unused_broker b tr : Prop := Ev (DeleteBroker infra (toHost b)) None ∈ tr.
Definition used_broker b tr : Prop := ∃ err, errors_Is err BrokerInUseError = true ∧ Ev (DeleteBroker infra (toHost b)) (Some err) ∈ tr.
Definition removed_broker b tr : Prop := unused_broker b tr ∧ Ev (DeleteObject StatefulSetKind (Namespace b) (Name b)) None ∈ tr.

(** Beside the objects of the brokers that exist and of those that are missing, sets are
    deleted: as long as there are too many, never the first, and right after the client
    has let the broker go. *)
Definition pool_allowed tr (ev : event kube) : Prop :=
  match ev with
  | Ev e _ =>
      match e with
      | DeleteBroker i host => i = infra ∧ ∃ sets b, listed sets tr ∧ b ∈ tail (ss_meta <$> sets) ∧ host = toHost b ∧
          (removals tr < numBrokersToDelete strategy (length sets))%Z ∧ Forall (λ b, broker_made b tr) (ss_meta <$> sets)
      | DeleteObject k sns name =>
          match k with
          | StatefulSetKind => ∃ tr', tr = tr' ++ [Ev (DeleteBroker infra (toHost {| Name := name; Namespace := sns |})) None]
          | _ => False
          end
      | _ => ∃ known, broker_stores known tr ev ∧ ∀ b, known b → ∃ sets, listed sets tr ∧ in_pool sets b
      end
  end.

Lemma pool_allowed_reads tr X (e : kube X) x : reads_only e = true → pool_allowed tr (Ev e x).
Proof. intros H. assert (∃ known, broker_stores known tr (Ev e x) ∧ ∀ b, known b → ∃ sets, listed sets tr ∧ in_pool sets b) as H'.
  { exists (λ _, False). split; [by apply broker_stores_reads|done]. } by destruct e. Qed.

Lemma listed_app sets tr new : listed sets tr → listed sets (tr ++ new).
Proof. unfold listed. rewrite elem_of_app. auto. Qed.

(** What is allowed while the brokers that were listed are reconciled. *)
Lemma stores_allowed sets tr ev : listed sets tr → broker_stores (in_pool sets) tr ev → pool_allowed tr ev.
Proof.
  intros Hs H. assert (∃ known, broker_stores known tr ev ∧ ∀ b, known b → ∃ sets, listed sets tr ∧ in_pool sets b) as H'.
  { exists (in_pool sets). split; [done|]. eauto. } destruct ev as [X e x]. by destruct e.
Qed.

Definition deleted_from (brokers : list ObjectMeta) (toDelete : Z) (hosts hosts' : gmap string bool) (remaining : Z) tr : Prop :=
  ∃ removed, removed `sublist_of` brokers ∧ remaining = (toDelete - Z.of_nat (length removed))%Z ∧
    dom hosts' = dom hosts ∖ list_to_set (toHost <$> removed) ∧ Forall (λ b, removed_broker b tr) removed ∧
    (0 <= remaining)%Z ∧ ((0 < remaining)%Z → Forall (λ b, b ∈ removed ∨ used_broker b tr) brokers).

Lemma deleted_none brokers toDelete hosts tr :
  (0 <= toDelete)%Z → (brokers = [] ∨ toDelete = 0%Z) → deleted_from brokers toDelete hosts hosts toDelete tr.
Proof.
  intros Hnn H. exists []. split_and!; [apply sublist_nil_l|simpl; lia|set_solver|constructor|done|].
  destruct H as [-> | ->]; [constructor|lia].
Qed.

Lemma deleted_used b brokers toDelete hosts hosts' remaining tr :
  used_broker b tr → deleted_from brokers toDelete hosts hosts' remaining tr → deleted_from (b :: brokers) toDelete hosts hosts' remaining tr.
Proof.
  intros Hb (removed & Hs & Hr & Hd & Hall & Hnn & Hu). exists removed. split_and!; try done; [by apply sublist_cons|].
  intros Hpos. constructor; [by right|by apply Hu].
Qed.

Lemma deleted_unused b brokers toDelete hosts hosts' remaining tr :
  removed_broker b tr → deleted_from brokers (toDelete - 1) (delete (toHost b) hosts) hosts' remaining tr →
  deleted_from (b :: brokers) toDelete hosts hosts' remaining tr.
Proof.
  intros Hb (removed & Hs & Hr & Hd & Hall & Hnn & Hu). exists (b :: removed). split_and!; [by apply sublist_skip|simpl; lia| |by constructor|done|].
  - rewrite Hd, dom_delete_L. clear. set_solver.
  - intros Hpos. constructor; [left; by left|]. eapply Forall_impl; [by apply Hu|]. intros b' [H|H]; [left; by right|by right].
Qed.

Lemma used_broker_app b tr new : used_broker b tr → used_broker b (tr ++ new).
Proof. intros (err & H1 & H2). exists err. rewrite elem_of_app. auto. Qed.
Lemma removed_broker_app b tr new : removed_broker b tr → removed_broker b (tr ++ new).
Proof. intros [H1 H2]. unfold removed_broker, unused_broker. rewrite !elem_of_app. auto. Qed.
Lemma made_app (brokers : list ObjectMeta) tr new : Forall (λ b, broker_made b tr) brokers → Forall (λ b, broker_made b (tr ++ new)) brokers.
Proof. intros H. eapply Forall_impl; [exact H|]. intros b. apply broker_made_app. Qed.

Lemma delete_brokers_wp sets brokers toDelete hosts s tr :
  listed sets tr → Forall (λ b, b ∈ tail (ss_meta <$> sets)) brokers → Forall (λ b, broker_made b tr) (ss_meta <$> sets) →
  (0 <= toDelete)%Z → (removals tr + toDelete = numBrokersToDelete strategy (length sets))%Z →
  wp pool_allowed (delete_brokers infra brokers toDelete hosts s) tr (λ tr' r, r.1 = s ∧ ∀ hosts' remaining,
    r.2 = inr (hosts', remaining) → deleted_from brokers toDelete hosts hosts' remaining tr').
Proof.
  intros Hl Hk. revert toDelete hosts tr Hl. induction Hk as [|b brokers Hb Hk IH]; intros toDelete hosts tr Hl Hm Hnn Hc; cbn [delete_brokers].
  { split; [done|]. intros hosts' remaining [= <- <-]. apply deleted_none; auto. }
  destruct (Z.ltb_spec 0 toDelete); [|split; [done|]; intros hosts' remaining [= <- <-]; apply deleted_none; [done|right; lia]].
  repeat wp_step. split; [split; [done|]; exists sets, b; split_and!; [done|done|done|lia|done]|]. destruct x as [err|].
  - destruct (errors_Is err BrokerInUseError) eqn:He; [|done].
    eapply wp_mono; [apply wp_grows, IH; [by apply listed_app|by apply made_app|done|rewrite removals_app; unfold removals at 2; simpl; lia]|].
    intros tr' r [[-> H'] [new ->]]. split; [done|]. intros hosts' remaining Hr. apply deleted_used; [|by apply H'].
    apply used_broker_app. exists err. split; [done|]. apply elem_of_app. right. by left.
  - repeat wp_step. split; [exists tr; by destruct b|]. destruct x as [err|]; [done|].
    eapply wp_mono; [apply wp_grows, IH; [by apply listed_app, listed_app|by apply made_app, made_app|lia|]|].
    { rewrite !removals_app. unfold removals at 2 3. simpl. lia. }
    intros tr' r [[-> H'] [new ->]]. split; [done|]. intros hosts' remaining Hr. apply deleted_unused; [|by apply H'].
    apply removed_broker_app. unfold removed_broker, unused_broker. rewrite !elem_of_app. split; [left; right; by left|right; by left].
Qed.

(** The pool when all is done, of the sets that were listed: all wanted brokers have their
    objects, as many as there are too many were removed, and the hosts are those that are
    left, with the IPs of their pods. *)
Definition pool_brokers (sets : list StatefulSet) : list ObjectMeta := (ss_meta <$> sets) ++ missing_brokers sets.
Definition pool_done (sets : list StatefulSet) (hosts : list Host) tr : Prop := ∃ removed pods,
  listed sets tr ∧ Ev (ListPods ns (getBrokerLabels infra)) (inr pods) ∈ tr ∧
  Forall (λ b, broker_made b tr) (pool_brokers sets) ∧
  removed `sublist_of` reverse (tail (ss_meta <$> sets)) ∧ Z.of_nat (length removed) = numBrokersToDelete strategy (length sets) ∧
  Forall (λ b, removed_broker b tr) removed ∧
  NoDup (Hostname <$> hosts) ∧ Forall (λ h, h = pod_of pods (Hostname h)) hosts ∧
  (∀ name, name ∈ Hostname <$> hosts ↔ name ∈ toHost <$> pool_brokers sets ∧ name ∉ toHost <$> removed).

Lemma to_delete_pos n : (0 <= numBrokersToDelete strategy n)%Z.
Proof. unfold numBrokersToDelete. destruct strategy as [size|]; [|done]. destruct (Z.ltb_spec size (Z.of_nat n)); lia. Qed.

Lemma hostnames pods (names : list string) : Hostname <$> (pod_of pods <$> names) = names.
Proof. rewrite <-list_fmap_compose. apply list_fmap_id. Qed.

Lemma making_wp {A} (p : io kube A) sets tr Q :
  listed sets tr → removals tr = 0%Z → wp (broker_stores (in_pool sets)) p tr Q →
  wp pool_allowed p tr (λ tr' r, Q tr' r ∧ listed sets tr' ∧ removals tr' = 0%Z ∧ ∃ new, tr' = tr ++ new).
Proof.
  intros Hl H0 H. eapply wp_weaken; [intros new ev; by apply (stores_allowed sets), listed_app|].
  eapply wp_mono; [by apply wp_obeyed|]. intros tr' r (HQ & new & -> & Hnew). split_and!; [done|by apply listed_app| |by exists new].
  rewrite removals_app, H0. by apply stores_remove_nothing in Hnew.
Qed.

Lemma reconcile_pool_wp s tr :
  removals tr = 0%Z →
  wp pool_allowed (reconcile_pool t infra strategy s) tr (λ tr' r, r.1 = s ∧ ∀ hosts, r.2 = inr hosts → ∃ sets, pool_done sets hosts tr').
Proof.
  intros H0. unfold reconcile_pool, Certs.ok, Certs.fail, lift. repeat wp_step. split; [by apply pool_allowed_reads|].
  destruct x as [e|sets]; cbn [from_api]; repeat wp_step; [done|]. rewrite length_fmap.
  eapply wp_mono; [apply (making_wp _ sets), reconcile_existing_wp|].
  { apply elem_of_app. right. by left. }
  { by rewrite removals_app, H0. }
  { apply Forall_forall. intros b Hb. apply elem_of_app. by left. }
  intros tr1 [s1 [e|hosts1]] ((-> & Hh1) & Hl & Hr1 & _); cbn [fst snd]; [done|]. destruct (Hh1 _ eq_refl) as [Hd1 Hm1]. repeat wp_step.
  eapply wp_mono; [apply (making_wp _ sets), create_brokers_wp; [done|done|]|].
  { apply Forall_forall. intros b Hb. apply elem_of_app. by right. }
  intros tr2 [s2 [e|hosts2]] ((-> & Hh2) & Hl2 & Hr2 & new & ->); cbn [fst snd]; [done|]. destruct (Hh2 _ eq_refl) as [Hd2 Hm2]. repeat wp_step.
  eapply wp_mono; [apply wp_grows, (delete_brokers_wp sets); [done| |by apply made_app|apply to_delete_pos|by rewrite Hr2]|].
  { apply Forall_forall. intros b. by rewrite elem_of_reverse. }
  intros tr3 [s3 [e|[hosts3 remaining]]] [(-> & H) [new' ->]]; cbn [fst snd]; [done|].
  destruct (H _ _ eq_refl) as (removed & Hsub & Hrem & Hd3 & Hall & Hnn & _). destruct (Z.ltb_spec 0 remaining); [done|]. repeat wp_step.
  split; [by apply pool_allowed_reads|]. destruct x as [e|pods]; cbn [from_api]; repeat wp_step; [done|]. split; [done|]. intros hosts [= <-].
  exists sets, removed, pods. unfold pool_brokers. rewrite hostnames. split_and!.
  - by do 2 apply listed_app.
  - apply elem_of_app. right. by left.
  - do 2 apply made_app. apply Forall_app. split; [by apply made_app|done].
  - done.
  - lia.
  - eapply Forall_impl; [exact Hall|]. intros b. apply removed_broker_app.
  - apply NoDup_range_keys.
  - apply Forall_fmap, Forall_forall. done.
  - intros name. rewrite elem_of_range_keys, <-elem_of_dom, Hd3, Hd2, Hd1, fmap_app, elem_of_difference, elem_of_app, !elem_of_union, !elem_of_list_to_set.
    clear. set_solver.
Qed.

(** ** The size of the pool *)

Lemma length_created t' n : length (created_brokers t' n) = n.
Proof. induction n; simpl; congruence. Qed.

(** As long as no two brokers have the same host. *)
Lemma pool_size size hosts tr sets :
  strategy = Some size → (0 <= size)%Z → pool_done sets hosts tr → NoDup (toHost <$> pool_brokers sets) →
  Z.of_nat (length hosts) = size ∧ (sets ≠ [] → (1 <= size)%Z).
Proof.
  unfold pool_done, pool_brokers. intros Hs Hnn (removed & pods & _ & _ & _ & Hsub & Hlen & _ & Hnd & _ & Hnames) Hall.
  assert ((toHost <$> removed) `sublist_of` reverse (toHost <$> tail (ss_meta <$> sets))) as Hsub'.
  { rewrite <-fmap_reverse. clear -Hsub. induction Hsub; simpl; [constructor|by apply sublist_skip|by apply sublist_cons]. }
  assert (removed ⊆ ss_meta <$> sets) as Hin.
  { intros b Hb. eapply sublist_subseteq in Hb; [|exact Hsub]. rewrite elem_of_reverse in Hb. destruct (ss_meta <$> sets); [by apply not_elem_of_nil in Hb|]. by apply elem_of_cons; right. }
  assert (length (Hostname <$> hosts) + length (toHost <$> removed) = length (toHost <$> (ss_meta <$> sets) ++ missing_brokers sets)) as Hsum.
  { rewrite <-length_app. apply Permutation_length, NoDup_Permutation; [|done|].
    - apply NoDup_app. split_and!; [done|intros name Hname; apply Hnames in Hname; tauto|].
      eapply sublist_NoDup; [|exact Hsub']. rewrite reverse_Permutation. rewrite fmap_app in Hall. apply NoDup_app in Hall as [Hall _].
      destruct sets; [constructor|]. by apply NoDup_cons in Hall as [_ ?].
    - intros name. rewrite elem_of_app, Hnames. destruct (decide (name ∈ toHost <$> removed)) as [Hr|Hr]; [|tauto].
      apply list_elem_of_fmap in Hr as Hr'. destruct Hr' as (b & -> & Hb). split; [intros _|tauto].
      apply list_elem_of_fmap. exists b. split; [done|]. apply elem_of_app. left. by apply Hin. }
  assert (length (tail (ss_meta <$> sets)) = length sets - 1) as Htail by (destruct sets; simpl; rewrite ?length_fmap; lia).
  apply sublist_length in Hsub. rewrite length_reverse, Htail in Hsub.
  rewrite !length_fmap, length_app, length_fmap in Hsum. unfold missing_brokers in Hsum. rewrite length_created in Hsum.
  unfold numBrokersToCreate, numBrokersToDelete in *. rewrite Hs in *.
  assert (sets ≠ [] → 1 ≤ length sets) as Hne by (destruct sets; simpl; [done|lia]).
  destruct (Z.ltb_spec (Z.of_nat (length sets)) size), (Z.ltb_spec size (Z.of_nat (length sets))); split; lia || intros ?; try lia.
  all: specialize (Hne ltac:(done)); lia.
Qed.
End Brokers.

(** ** Programs that may panic *)

Section Wp.
Context {E : Type → Type}.
Implicit Types (tr : list (event E)) (ok : list (event E) → event E → Prop).

(** As [wp], but the program may also panic, if [C] holds of what was done before. *)
Fixpoint wp_crash ok (C : list (event E) → Prop) {A} (p : io E A) tr (Q : list (event E) → A → Prop) : Prop :=
  match p with
  | Ret a => Q tr a
  | Crash => C tr
  | Vis e k => ∀ x, ok tr (Ev e x) ∧ wp_crash ok C (k x) (tr ++ [Ev e x]) Q
  end.

Lemma wp_no_crash ok C {A} (p : io E A) tr Q : wp ok p tr Q → wp_crash ok C p tr Q.
Proof. revert tr. induction p as [a| |X e k IH]; intros tr; simpl; [done..|]. intros H x. split; [apply H|apply IH, H]. Qed.

Lemma wp_crash_bind ok C {A B} (p : io E A) (f : A → io E B) tr Q :
  wp_crash ok C p tr (λ tr' a, wp_crash ok C (f a) tr' Q) → wp_crash ok C (p ≫= f) tr Q.
Proof. revert tr. induction p as [a| |X e k IH]; intros tr; simpl; [done..|]. intros H x. split; [apply H|apply IH, H]. Qed.

Lemma wp_crash_mono ok C {A} (p : io E A) tr (Q Q' : list (event E) → A → Prop) :
  wp_crash ok C p tr Q → (∀ tr' a, Q tr' a → Q' tr' a) → wp_crash ok C p tr Q'.
Proof.
  intros H HQ. revert tr H. induction p as [a| |X e k IH]; intros tr; simpl; [apply HQ|done|].
  intros H x. split; [apply H|apply IH, H].
Qed.

Lemma wp_crash_run ok C {A} {W} (handle : ∀ X, E X → W → W * X) (p : io E A) w tr Q :
  wp_crash ok C p tr Q → obeys ok tr →
  ∃ w' tr' r, run handle p w tr = (w', tr', r) ∧ obeys ok tr' ∧ match r with Some a => Q tr' a | None => C tr' end.
Proof.
  revert w tr. induction p as [a| |X e k IH]; intros w tr H Htr; simpl in *; [by eexists _, _, (Some a)|by eexists _, _, None|].
  destruct (handle X e w) as [w' x]. apply IH; [apply H|]. apply obeys_snoc; [done|]. apply H.
Qed.
End Wp.

Lemma try_wp_crash {S A B} ok C (m : ctl S (error + A)) (k : A → ctl S (error + B)) s tr Q :
  wp_crash ok C (m s) tr (λ tr' r, match r.2 with inl e => Q tr' (r.1, inl e) | inr a => wp_crash ok C (k a r.1) tr' Q end) →
  wp_crash ok C (try_ m k s) tr Q.
Proof. intros H. apply wp_crash_bind. eapply wp_crash_mono; [exact H|]. by intros tr' [s' [e|a]]. Qed.

Section Routers.
Context `{HX : !X509} `{HL : !X509Laws} `{HP : !Process_}.
Context (Himages : lazyLoadImageMap ≠ Panic) (infra : MessagingInfrastructure) (strategy : option Z) {S : Type}.
Notation ns := (Namespace (i_meta infra)).
Notation name := (getRouterInfraName infra).
Notation secret_name := (GetProjectSecretName (Name (i_meta infra))).
Notation config := (serializeConfig (generateConfig (i_Router infra))).
Implicit Types (s : S) (tr : trace).

(** The set of the routers and the secret with the certificates of the endpoints, as they
    were found and stored. *)
Definition routers_stored (set : StatefulSet) tr : Prop := Ev (Store StatefulSetKind ns name set) None ∈ tr.
Definition certs_found (secret : Secret) tr : Prop := Ev (Existing SecretKind ns secret_name) (inr secret) ∈ tr.
Definition digest_in (secret : Secret) : string := sha256_hex (cert_text (Data secret)).

Definition pods_found (pods : list Pod) tr : Prop :=
  ∃ set, routers_stored set tr ∧ Ev (ListPods ns (pt_Labels (ss_Template set))) (inr pods) ∈ tr.

Definition digest_of_pod (pod : Pod) : string := default "" (pod_Annotations pod ≫= λ m, m !! ANNOTATION_CERT_DIGEST).
Definition annotated (digest : string) (annotations : gmap string string) (pod : Pod) : Pod :=
  {| pod_Name := pod_Name pod; pod_Annotations := Some (<[ANNOTATION_CERT_DIGEST := digest]> annotations);
     pod_Phase := pod_Phase pod; pod_PodIP := pod_PodIP pod |}.

(** The names of the routers in their certificate. *)
Definition router_names : list string := tail (service_names name ns) ++ service_names (name +:+ "-cluster") ns.

(** What is allowed: the configuration is stored as it was generated; of the secret with
    the certificates only the owners are changed; the set is made of the one that exists,
    with the digest of the configuration; the services select the pods of the set; the
    certificate is signed by the authority; and pods get the digest of the certificates,
    if they have another one. *)
Definition router_allowed tr (ev : event kube) : Prop :=
  match ev with
  | Ev e _ =>
      match e with
      | Store k sns n o => sns = ns ∧
          match k in okind T return T → Prop with
          | ConfigMapKind => λ cm, n = name ∧ cm_Data cm = {["qdrouterd.json" := config]}
          | SecretKind => λ secret',
              (n = secret_name ∧ ∃ secret owners, certs_found secret tr ∧ secret' = set_Owners owners secret) ∨
              (n = GetCertSecretName name ∧ ∃ caSecret secret now info,
                Ev (GetObject SecretKind ns (Name (i_meta infra) +:+ "-ca")) (inr caSecret) ∈ tr ∧
                applied certController secret caSecret component_config name router_names now secret' info)
          | StatefulSetKind => λ set', n = name ∧ ∃ set owners, Ev (Existing StatefulSetKind ns n) (inr set) ∈ tr ∧
              router_statefulset infra strategy (sha256_hex config) owners set = Ok set'
          | ServiceKind => λ service', ∃ set service owners, routers_stored set tr ∧ Ev (Existing ServiceKind ns n) (inr service) ∈ tr ∧
              ((n = name ∧ service' = headless_service "router" infra (pt_Labels (ss_Template set)) 55672 "inter-router" owners service) ∨
               (n = name +:+ "-cluster" ∧ service' = cluster_service infra (pt_Labels (ss_Template set)) owners service))
          | _ => λ _, False
          end o
      | UpdateObject k sns n o => sns = ns ∧
          match k in okind T return T → Prop with
          | PodKind => λ pod', ∃ secret pods pod annotations, certs_found secret tr ∧ pods_found pods tr ∧ pod ∈ pods ∧ n = pod_Name pod ∧
              pod_Annotations pod = Some annotations ∧ digest_of_pod pod ≠ digest_in secret ∧
              pod' = annotated (digest_in secret) annotations pod
          | _ => λ _, False
          end o
      | e => reads_only e = true
      end
  end.

Lemma router_allowed_reads tr X (e : kube X) x : reads_only e = true → router_allowed tr (Ev e x).
Proof. by destruct e. Qed.

(** The only panic: a pod without annotations that has not got the digest. *)
Definition bare_pod tr : Prop := ∃ secret pods pod, certs_found secret tr ∧ pods_found pods tr ∧ pod ∈ pods ∧
  pod_Annotations pod = None ∧ digest_in secret ≠ "".

(** The pod has the digest, or got it. *)
Definition has_digest (digest : string) tr (pod : Pod) : Prop :=
  digest_of_pod pod = digest ∨ ∃ annotations, Ev (UpdateObject PodKind ns (pod_Name pod) (annotated digest annotations pod)) None ∈ tr.

Lemma apply_routers_wp s tr :
  wp router_allowed (apply_routers infra strategy s) tr (λ tr' r, r.1 = s ∧ ∀ digest set, r.2 = inr (digest, set) →
    routers_stored set tr' ∧ (∃ secret, certs_found secret tr' ∧ digest = digest_in secret) ∧ ss_Replicas set = Some (default 1%Z strategy)).
Proof.
  unfold apply_routers, Certs.ok, returned. wp_step.
  apply CreateOrUpdate_wp; [done|done|]. intros cm. repeat wp_step. split; [done|]. destruct x as [e|owners]; repeat wp_step; [done|].
  intros e. split; [done|]. destruct e as [e|]; [done|]. wp_step.
  apply CreateOrUpdate_wp; [done|done|]. intros secret. repeat wp_step. split; [done|]. destruct x as [e|owners']; repeat wp_step; [done|].
  intros e. split; [split; [done|]; left; split; [done|]; exists secret, owners'; split; [unfold certs_found; set_solver|done]|].
  destruct e as [e|]; [done|]. wp_step.
  apply CreateOrUpdate_wp; [done|done|]. intros set. repeat wp_step. split; [done|]. destruct x as [e|owners'']; repeat wp_step; [done|].
  pose proof (router_statefulset_no_panic Himages infra strategy (sha256_hex config) owners'' set) as Hp.
  destruct (router_statefulset _ _ _ _ set) as [set'|e|] eqn:Hset; [|done|done]. repeat wp_step. intros e.
  split; [split_and!; [done|done|]; exists set, owners''; split; [set_solver|done]|]. destruct e as [e|]; [done|]. wp_step.
  split; [done|]. intros digest set0 [= <- <-]. split_and!; [apply elem_of_app; right; by left| |by eapply router_replicas].
  exists secret. split; [unfold certs_found; set_solver|done].
Qed.

Lemma apply_services_wp set s tr :
  routers_stored set tr →
  wp router_allowed (apply_services infra (pt_Labels (ss_Template set)) s) tr (λ tr' r, r.1 = s).
Proof.
  intros Hset. unfold apply_services, Certs.ok. wp_step.
  apply CreateOrUpdate_wp; [done|done|]. intros service. repeat wp_step. split; [done|]. destruct x as [e|owners]; repeat wp_step; [done|].
  intros e. split.
  { split; [done|]. exists set, service, owners. unfold routers_stored in *. split_and!; [set_solver|set_solver|by left]. }
  destruct e as [e|]; [done|]. wp_step.
  apply CreateOrUpdate_wp; [done|done|]. intros service'. repeat wp_step. split; [done|]. destruct x as [e|owners']; repeat wp_step; [done|].
  intros e. split; [|by destruct e].
  split; [done|]. exists set, service', owners'. unfold routers_stored in *. split_and!; [set_solver|set_solver|by right].
Qed.

Lemma certs_found_app secret tr new : certs_found secret tr → certs_found secret (tr ++ new).
Proof. unfold certs_found. rewrite elem_of_app. auto. Qed.
Lemma routers_stored_app set tr new : routers_stored set tr → routers_stored set (tr ++ new).
Proof. unfold routers_stored. rewrite elem_of_app. auto. Qed.
Lemma pods_found_app pods tr new : pods_found pods tr → pods_found pods (tr ++ new).
Proof. intros (set & H1 & H2). exists set. split; [by apply routers_stored_app|]. apply elem_of_app. by left. Qed.
Lemma has_digest_app digest tr new pod : has_digest digest tr pod → has_digest digest (tr ++ new) pod.
Proof. intros [H|[m H]]; [by left|]. right. exists m. apply elem_of_app. by left. Qed.

Lemma annotate_pods_wp secret all pods s tr :
  certs_found secret tr → pods_found all tr → pods ⊆ all →
  wp_crash router_allowed bare_pod (annotate_pods ns (digest_in secret) pods s) tr (λ tr' r, r.1 = s ∧ (∃ new, tr' = tr ++ new) ∧
    (r.2 = inr () → Forall (has_digest (digest_in secret) tr') pods)).
Proof.
  revert tr. induction pods as [|pod pods IH]; intros tr Hc Hp Hsub; cbn [annotate_pods].
  { split_and!; [done|exists []; by rewrite app_nil_r|constructor]. }
  assert (pod ∈ all ∧ pods ⊆ all) as [Hin Hsub'] by set_solver. case_decide as Hd; fold (digest_of_pod pod) in Hd.
  - destruct (pod_Annotations pod) as [annotations|] eqn:Ha.
    + intros x. split.
      { split; [done|]. exists secret, all, pod, annotations. by split_and!. }
      cbn [bind_io snd fst]. destruct x as [e|]; [split_and!; [done|by eexists|done]|].
      eapply wp_crash_mono; [apply IH; [by apply certs_found_app|by apply pods_found_app|done]|].
      intros tr' r (-> & [new ->] & H). split_and!; [done|eexists; by rewrite <-app_assoc|]. intros Hr. constructor; [|by apply H].
      apply has_digest_app. right. exists annotations. apply elem_of_app. right. by left.
    + exists secret, all, pod. split_and!; [done..|]. intros He. destruct Hd. unfold digest_of_pod. by rewrite Ha, He.
  - eapply wp_crash_mono; [by apply IH|]. intros tr' r (-> & Hn & H). split_and!; [done|done|]. intros Hr.
    constructor; [by left|by apply H].
Qed.

(** The routers when all is done: as many hosts as replicas, each with the IP of its pod,
    and all pods have the digest of the certificates. *)
Definition routers_done (hosts : list Host) tr : Prop := ∃ secret pods,
  certs_found secret tr ∧ pods_found pods tr ∧ Forall (has_digest (digest_in secret) tr) pods ∧
  (∃ secret', store_cert infra {| Name := name; Namespace := ns |} secret' None ∈ tr) ∧
  hosts = router_host {| Name := name; Namespace := ns |} pods <$> seq 0 (Z.to_nat (default 1%Z strategy)).

Lemma reconcile_set_wp s tr :
  wp_crash router_allowed bare_pod (reconcile_set infra strategy s) tr (λ tr' r, r.1 = s ∧ ∀ hosts, r.2 = inr hosts → routers_done hosts tr').
Proof.
  unfold reconcile_set, Certs.ok, lift. apply try_wp_crash.
  eapply wp_crash_mono; [apply wp_no_crash, apply_routers_wp|]. intros tr1 [s1 [e|[digest set]]] [-> H1]; cbn [fst snd]; [done|].
  destruct (H1 _ _ eq_refl) as (Hset & (secret & Hc & ->) & Hrep). rewrite Hrep. apply try_wp_crash.
  eapply wp_crash_mono; [by apply wp_no_crash, wp_grows, apply_services_wp|].
  intros tr2 [s2 [e|[]]] [-> [new2 ->]]; cbn [fst snd]; [done|]. apply try_wp_crash. apply wp_no_crash.
  apply ReconcileCert_wp; [apply router_allowed_reads| |].
  { intros new caSecret secret0 now secret' info x Hca Happ. split; [done|]. right. split; [done|]. exists caSecret, secret0, now, info.
    split; [set_solver|done]. }
  intros new3 [e|info] Hr; cbn [fst snd]; [done|]. destruct (Hr _ eq_refl) as (secret' & Hst & _). clear Hr. intros x. split; [done|].
  cbn [bind_io snd fst]. apply try_wp_crash. destruct x as [e|pods]; cbn [from_api fst snd wp_crash mret ctl_ret]; [done|].
  apply try_wp_crash. set (tr4 := _ ++ [Ev (ListPods _ _) _]).
  assert (certs_found secret tr4) as Hc4 by (by do 3 apply certs_found_app).
  assert (pods_found pods tr4) as Hp4.
  { exists set. split; [by do 3 apply routers_stored_app|]. apply elem_of_app. right. by left. }
  eapply wp_crash_mono; [by apply (annotate_pods_wp secret pods)|]. intros tr5 [s5 [e|[]]] (-> & [new5 ->] & Hall); cbn [fst snd]; [done|].
  split; [done|]. intros hosts [= <-]. exists secret, pods.
  split_and!; [by apply certs_found_app|by apply pods_found_app|by apply Hall| |done].
  exists secret'. apply elem_of_app. left. apply elem_of_app. left. apply elem_of_app. by right.
Qed.
End Routers.

(** ** The hosts of the routers *)

Lemma append_cancel_r (a b c : string) : a +:+ c = b +:+ c → a = b.
Proof.
  assert (∀ s t, String.length (s +:+ t) = String.length s + String.length t) as Hl by (intros s t; induction s; simpl; [done|by f_equal]).
  intros H. pose proof (f_equal String.length H) as H'. rewrite !Hl in H'. apply append_same_length in H; [done|lia].
Qed.

Lemma router_host_ip set pods i :
  router_host set pods i = {| Hostname := pod_host set (Name set +:+ "-" +:+ fmt_d (Z.of_nat i));
    Ip := first_ip (find (λ pod, reachable pod && bool_decide (pod_Name pod = Name set +:+ "-" +:+ fmt_d (Z.of_nat i))) pods) |}.
Proof.
  unfold router_host, first_ip. f_equal. erewrite find_ext_in; [done|]. intros pod _. unfold reachable. f_equal. apply bool_decide_ext.
  unfold pod_host. split; [apply append_cancel_r|by intros ->].
Qed.

Lemma routers_distinct set pods n : NoDup (Hostname <$> (router_host set pods <$> seq 0 n)).
Proof.
  rewrite <-list_fmap_compose. apply NoDup_fmap_2_strong; [|apply NoDup_seq]. intros i j _ _. cbn [compose Hostname router_host].
  intros H. apply append_cancel_r in H. apply (inj (String.append (Name set))) in H. injection H as H.
  apply (inj (pretty (A := Z)) (Z.of_nat i) (Z.of_nat j)) in H. lia.
Qed.

(** Different certificates may have the same digest: the text it is computed of does not
    say where a key ends. *)
Lemma cert_text_ambiguous :
  ∃ d d' : gmap string bytes, d ≠ d' ∧ cert_text d = cert_text d'.
Proof. exists {["a" := Some "bc"]}, {["ab" := Some "c"]}. split; [|by vm_compute]. intros H. by apply (f_equal (lookup "a")) in H. Qed.
