(* ===== verification/Composition.v ===== *)
(** Programs composed: where the controller of infrastructures calls those of routers and
    brokers, their programs are run, and what the two levels promise holds of the runs of
    the whole. *)
From stdpp Require Import base gmap sets strings list.
From S2P Require Import Prelude Go Client ApiV1 KubeObjects Workloads Conditions Reconcile ControllerFacts Certs CertFacts.
From S2P Require Import InfraController BrokerController RouterController PodFacts.

(** ** Runs of parts *)

Section Runs.
Context {E : Type → Type} {W : Type} (handle : ∀ X, E X → W → W * X).
Implicit Types (tr : list (event E)).

Lemma run_bind {A B} (p : io E A) (f : A → io E B) w tr :
  run handle (p ≫= f) w tr =
    match run handle p w tr with (w', tr', Some a) => run handle (f a) w' tr' | (w', tr', None) => (w', tr', None) end.
Proof.
  revert w tr. induction p as [a| |X e k IH]; intros w tr; simpl; [done..|]. destruct (handle X e w) as [w' x]. apply IH.
Qed.

Lemma run_after {A} (p : io E A) w tr tr' :
  run handle p w (tr ++ tr') = match run handle p w tr' with (w', new, r) => (w', tr ++ new, r) end.
Proof.
  revert w tr'. induction p as [a| |X e k IH]; intros w tr'; simpl; [done..|]. destruct (handle X e w) as [w' x].
  rewrite <-app_assoc. apply IH.
Qed.

(** ** Programs in place of effects *)

Context (impl : ∀ X, E X → io E X).

Fixpoint fulfil {A} (p : io E A) : io E A :=
  match p with
  | Ret a => Ret a
  | Crash => Crash
  | Vis e k => impl _ e ≫= λ x, fulfil (k x)
  end.

(** What the runs of the programs promise, of the answers and of what was done. *)
Context (promise : ∀ X, E X → X → list (event E) → Prop).

(** What was done above, by what was done below. *)
Inductive realized : list (event E) → list (event E) → Prop :=
  | realized_nil : realized [] []
  | realized_snoc tr tr' X (e : E X) x new : realized tr tr' → promise X e x new → realized (tr ++ [Ev e x]) (tr' ++ new).

(** What was done above is in what was done below, and only the runs of programs add to
    it. *)
Definition promised (ev : event E) (new : list (event E)) : Prop := match ev with Ev e x => promise _ e x new end.

Lemma realized_sub tr tr' ev : realized tr tr' → ev ∈ tr → ∃ new, promised ev new ∧ new ⊆ tr'.
Proof.
  induction 1 as [|tr tr' X e x new Hr IH Hp]; intros Hin; [by apply not_elem_of_nil in Hin|].
  apply elem_of_app in Hin as [Hin|Hin].
  - destruct (IH Hin) as (new' & Hp' & Hsub). exists new'. split; [done|]. set_solver.
  - apply list_elem_of_singleton in Hin as ->. exists new. split; [done|]. set_solver.
Qed.

Lemma realized_by tr tr' ev : realized tr tr' → ev ∈ tr' → ∃ ev' new, ev' ∈ tr ∧ promised ev' new ∧ ev ∈ new.
Proof.
  induction 1 as [|tr tr' X e x new Hr IH Hp]; intros Hin; [by apply not_elem_of_nil in Hin|].
  apply elem_of_app in Hin as [Hin|Hin].
  - destruct (IH Hin) as (ev' & new' & Hin' & Hp'). exists ev', new'. split; [set_solver|done].
  - exists (Ev e x), new. split_and!; [set_solver|done|done].
Qed.

(** The promise is kept, and [panics] holds of what was done when they panic. *)
Context (panics : list (event E) → Prop).
Context (Himpl : ∀ X (e : E X) w, ∃ w' new r, run handle (impl X e) w [] = (w', new, r) ∧
                   match r with Some x => promise X e x new | None => panics new end).

(** A program that obeys a policy does so when its effects are run as programs. *)
Lemma fulfil_run ok {A} (p : io E A) tr tr' Q w :
  wp ok p tr Q → obeys ok tr → realized tr tr' →
  ∃ w' new r, run handle (fulfil p) w tr' = (w', tr' ++ new, r) ∧
    match r with
    | Some a => ∃ tr1, realized tr1 (tr' ++ new) ∧ obeys ok tr1 ∧ Q tr1 a
    | None => ∃ before sub, new = before ++ sub ∧ panics sub
    end.
Proof.
  revert tr tr' w. induction p as [a| |X e k IH]; intros tr tr' w H Hobeys Hreal; simpl in *; [|done|].
  { exists w, [], (Some a). rewrite app_nil_r. split; [done|]. by exists tr. }
  rewrite run_bind, <-(app_nil_r tr'), run_after. destruct (Himpl X e w) as (w1 & sub & [x|] & -> & Hsub).
  - destruct (IH x (tr ++ [Ev e x]) (tr' ++ sub) w1) as (w2 & new & r & Hrun & Hr); [apply H|apply obeys_snoc; [done|apply H]|by constructor|].
    exists w2, (sub ++ new), r. rewrite app_nil_r, app_assoc. split; [done|]. destruct r as [a|]; [done|].
    destruct Hr as (before & sub' & -> & Hp). exists (sub ++ before), sub'. split; [by rewrite app_assoc|done].
  - exists w1, sub, None. rewrite app_nil_r. split; [done|]. by exists [], sub.
Qed.
End Runs.

(** ** The pods of an infrastructure *)

Section Pods.
Context `{HX : !X509} `{HL : !X509Laws} `{HP : !Process_} `{HS : !Sched}.
Context (Himages : lazyLoadImageMap ≠ Panic) (t : tick).

(** The controllers of routers and brokers have no state of their own. *)
Definition value {A} (m : ctl () A) : io kube A := r ← m (); Ret r.2.

Definition pods_impl (X : Type) (e : kube X) : io kube X :=
  match e in kube T return io kube T with
  | ReconcileRouters infra => value (reconcile_routers infra)
  | ReconcileBrokers infra => value (reconcile_brokers t infra)
  | e => Vis e Ret
  end.

(** The infrastructure with the defaults, and the number of pods that is asked for. *)
Definition with_routers (infra : MessagingInfrastructure) : MessagingInfrastructure :=
  set_i_Router (setDefaultRouterScalingStrategy (i_Router infra)) infra.
Definition with_brokers (infra : MessagingInfrastructure) : MessagingInfrastructure :=
  set_i_Broker (setDefaultBrokerScalingStrategy (i_Broker infra)) infra.
Definition router_strategy (infra : MessagingInfrastructure) : option Z := default None (sr_ScalingStrategy (i_Router (with_routers infra))).
Definition broker_strategy (infra : MessagingInfrastructure) : option Z := default None (sb_ScalingStrategy (i_Broker (with_brokers infra))).

Definition pods_promise (X : Type) (e : kube X) : X → trace → Prop :=
  match e in kube T return T → trace → Prop with
  | ReconcileRouters infra => λ x new, x.1 = i_Router (with_routers infra) ∧
      obeys (router_allowed (with_routers infra) (router_strategy infra)) new ∧
      (∀ hosts, x.2 = inr hosts → routers_done (with_routers infra) (router_strategy infra) hosts new)
  | ReconcileBrokers infra => λ x new, x.1 = i_Broker (with_brokers infra) ∧
      obeys (pool_allowed (with_brokers infra) t (broker_strategy infra)) new ∧
      (∀ hosts, x.2 = inr hosts → ∃ sets, pool_done (with_brokers infra) t (broker_strategy infra) sets hosts new)
  | e => λ x new, new = [Ev e x]
  end.

Definition pods_panic (new : trace) : Prop := ∃ infra, bare_pod infra new.

Lemma routers_run {W} (handle : ∀ X, kube X → W → W * X) infra w : ∃ w' new r,
  run handle (value (reconcile_routers infra)) w [] = (w', new, r) ∧
  match r with Some x => pods_promise _ (ReconcileRouters infra) x new | None => bare_pod (with_routers infra) new end.
Proof.
  destruct (wp_crash_run (router_allowed (with_routers infra) (router_strategy infra)) (bare_pod (with_routers infra)) handle
    (value (reconcile_routers infra)) w [] (λ tr x, x.1 = i_Router (with_routers infra) ∧
      (∀ hosts, x.2 = inr hosts → routers_done (with_routers infra) (router_strategy infra) hosts tr))) as (w' & new & r & Hrun & Hob & Hr).
  - apply wp_crash_bind, wp_crash_bind. eapply wp_crash_mono; [by apply (reconcile_set_wp Himages)|].
    intros tr [s r] [_ H]. by split.
  - apply obeys_nil.
  - exists w', new, r. split; [done|]. destruct r as [x|]; [by destruct Hr|done].
Qed.

Lemma brokers_run {W} (handle : ∀ X, kube X → W → W * X) infra w : ∃ w' new x,
  run handle (value (reconcile_brokers t infra)) w [] = (w', new, Some x) ∧ pods_promise _ (ReconcileBrokers infra) x new.
Proof.
  destruct (wp_run handle (pool_allowed (with_brokers infra) t (broker_strategy infra)) (value (reconcile_brokers t infra)) w []
    (λ tr x, x.1 = i_Broker (with_brokers infra) ∧
      (∀ hosts, x.2 = inr hosts → ∃ sets, pool_done (with_brokers infra) t (broker_strategy infra) sets hosts tr)))
    as (w' & new & x & Hrun & Hx & Hob).
  - apply wp_bind, wp_bind. eapply wp_mono; [by apply (reconcile_pool_wp Himages)|]. intros tr [s r] [_ H]. by split.
  - apply obeys_nil.
  - exists w', new, x. split; [done|]. by destruct Hx.
Qed.

Lemma pods_impl_run {W} (handle : ∀ X, kube X → W → W * X) X (e : kube X) w : ∃ w' new r,
  run handle (pods_impl X e) w [] = (w', new, r) ∧ match r with Some x => pods_promise X e x new | None => pods_panic new end.
Proof.
  destruct e.
  all: try (destruct (routers_run handle infra w) as (w' & new & r & Hrun & H); exists w', new, r; split; [done|]; destruct r; [done|by eexists]).
  all: try (destruct (brokers_run handle infra w) as (w' & new & x & Hrun & H); exists w', new, (Some x); by split).
  all: cbn [pods_impl run]; destruct (handle _ _ w) as [w' x]; eexists w', _, (Some x); by split.
Qed.

(** Only the controller of infrastructures writes their status. *)
Definition writes_status (ev : event kube) : bool :=
  match ev with Ev e _ => match e with UpdateInfrastructureStatus _ => true | _ => false end end.

Lemma status_written_above tr tr' ev : realized pods_promise tr tr' → ev ∈ tr' → writes_status ev = true → ev ∈ tr.
Proof.
  intros Hr Hin Hw. destruct (realized_by _ _ _ _ Hr Hin) as ([X e x] & new & Htr & Hp & Hnew).
  assert (new = [Ev e x] → ev ∈ tr) as Hone by (intros ->; apply list_elem_of_singleton in Hnew as ->; done).
  assert (∀ ok, obeys ok new → ∃ pre, ok pre ev) as Hob.
  { intros ok Hok. apply list_elem_of_split in Hnew as (pre & post & ->). exists pre. by eapply Hok. }
  destruct ev as [X' e' x']. destruct e'; try discriminate Hw.
  destruct e; try (by apply Hone); exfalso.
  - destruct Hp as (_ & Hok & _). by destruct (Hob _ Hok) as [pre H].
  - destruct Hp as (_ & Hok & _). by destruct (Hob _ Hok) as (pre & known & H & _).
Qed.
End Pods.
