(* ===== verification/InfraCtlFacts.v ===== *)
(** What the controller of infrastructures does and does not do, whatever it is
    answered. *)
From stdpp Require Import base gmap sets strings list.
From S2P Require Import Prelude Client ApiV1 KubeObjects Conditions Reconcile Finalizer ControllerFacts Certs CertFacts.
From S2P Require Import AddressController InfraController.

Lemma running_all hosts : ¬ (length (running hosts) < length hosts) → running hosts = hosts.
Proof.
  unfold running. induction hosts as [|h hosts IH]; [done|]. intros Hl. rewrite filter_cons in *. case_decide as Hr; simpl in *.
  - f_equal. apply IH. lia.
  - pose proof (length_filter (λ h, is_running h = true) hosts). lia.
Qed.

(** ** Reports of connections *)

(** The pair of a router and a broker that a status is about. *)
Definition about (s : ConnectorStatus) : string * string := (cs_Router s, cs_Broker s).

(** The statuses are about pairs of these routers and brokers, and none about the same. *)
Definition of_pairs (routers brokers : list Host) (statuses : list ConnectorStatus) : Prop :=
  NoDup (about <$> statuses) ∧
  ∀ s, s ∈ statuses → cs_Router s ∈ Hostname <$> routers ∧ cs_Broker s ∈ Hostname <$> brokers.

(** Every one of the routers was reported to be connected to every one of the brokers. *)
Definition each_connected (routers brokers : list Host) (statuses : list ConnectorStatus) : Prop :=
  ∀ r b, r ∈ routers → b ∈ brokers →
    ∃ s, s ∈ statuses ∧ cs_Router s = Hostname r ∧ cs_Broker s = Hostname b ∧ cs_Connected s = true.

(** As many connections as there are pairs are all of them. *)
Lemma all_pairs routers brokers statuses :
  length statuses = length routers * length brokers → Forall (λ s, cs_Connected s = true) statuses →
  of_pairs routers brokers statuses → each_connected routers brokers statuses.
Proof.
  intros Hlen Hcon [Hnd Hin] r b Hr Hb. set (pairs := list_prod (Hostname <$> routers) (Hostname <$> brokers)).
  assert ((about <$> statuses) ⊆+ pairs) as Hsub.
  { apply NoDup_submseteq; [done|]. intros p (s & -> & Hs)%list_elem_of_fmap. apply list_elem_of_In, in_prod; apply list_elem_of_In; by apply Hin. }
  assert ((Hostname r, Hostname b) ∈ about <$> statuses) as (s & Heq & Hs)%list_elem_of_fmap.
  { rewrite (submseteq_length_Permutation _ _ Hsub).
    - apply list_elem_of_In, in_prod; apply list_elem_of_In; by apply list_elem_of_fmap_2.
    - unfold pairs. rewrite length_prod, !length_fmap. lia. }
  injection Heq as -> ->. exists s. split_and!; [done..|]. by apply (proj1 (Forall_forall _ _) Hcon).
Qed.

Section Policy.
Context `{HX : !X509} `{HL : !X509Laws}.
Context (found : Resource MessagingInfrastructure).
Notation meta := (i_meta (res found)).
Notation C := (Ctx MessagingInfrastructure).
Implicit Types (st : C) (tr : trace).

(** ** What is allowed *)

Definition same_infra (i : MessagingInfrastructure) : Prop :=
  i_meta i = meta ∧ i_NamespaceSelector i = i_NamespaceSelector (res found).

(** No project was bound to the infrastructure. *)
Definition unused tr : Prop := ∃ projects, Ev ListMessagingProjects (inr projects) ∈ tr ∧ existsb (uses (res found)) projects = false.

Definition infra_taken_down tr : Prop := unused tr ∧ ∃ i, same_infra i ∧ Ev (DeleteClient i) None ∈ tr.

Definition infra_finalized : Prop := FINALIZER_NAME ∈ Finalizers found ↔ DeletionTimestamp found = None.

(** The authority and the certificate of the operator are stored. *)
Definition ca_stored (ca : bytes) tr : Prop :=
  ∃ secret, ca = data secret "tls.crt" ∧ Ev (Store SecretKind (Namespace meta) (Name meta +:+ "-ca") secret) None ∈ tr.
Definition cert_stored (certificate : bytes * bytes) tr : Prop :=
  ∃ secret, certificate = (data secret "tls.crt", data secret "tls.key") ∧
    Ev (Store SecretKind (Namespace meta) (GetCertSecretName (Name meta)) secret) None ∈ tr.

(** The controllers of routers and brokers have answered with the hosts. *)
Definition pods (routers brokers : list Host) tr : Prop :=
  (∃ i spec, same_infra i ∧ Ev (ReconcileRouters i) (spec, inr routers) ∈ tr) ∧
  (∃ i spec, same_infra i ∧ Ev (ReconcileBrokers i) (spec, inr brokers) ∈ tr).

(** All pods run, and the client has reported as many connections as there are pairs of a
    router and a broker, none of them down: so, if each report is about another pair, every
    router is connected to every broker. *)
Definition fully_connected tr : Prop :=
  ∃ routers brokers i certificate ca statuses, pods routers brokers tr ∧ Forall (λ h, is_running h = true) (routers ++ brokers) ∧
    same_infra i ∧ Ev (SyncAll i routers brokers certificate ca) (statuses, None) ∈ tr ∧
    length statuses = length routers * length brokers ∧ Forall (λ s, cs_Connected s = true) statuses ∧
    (of_pairs routers brokers statuses → each_connected routers brokers statuses).

Definition infra_allowed tr (ev : event kube) : Prop :=
  match ev with
  | Ev e _ =>
      match e with
      | UpdateInfrastructureStatus i =>
          same_infra (res i) ∧ DeletionTimestamp i = DeletionTimestamp found ∧
          (is_Phase (i_Status (res i)) = MessagingInfrastructureActive →
            is_Phase (i_Status (res found)) = MessagingInfrastructureActive ∨ fully_connected tr)
      | UpdateInfrastructure i =>
          same_infra (res i) ∧ DeletionTimestamp i = DeletionTimestamp found ∧
          (∀ f, f ≠ FINALIZER_NAME → f ∈ Finalizers i ↔ f ∈ Finalizers found) ∧
          (FINALIZER_NAME ∉ Finalizers i → is_Some (DeletionTimestamp found) ∧ infra_taken_down tr)
      | Store k sns name o =>
          match k in okind T return T → Prop with
          | SecretKind => λ secret', infra_finalized ∧ sns = Namespace meta ∧
              ((name = Name meta +:+ "-ca" ∧ ∃ secret now, Ev (Existing SecretKind sns name) (inr secret) ∈ tr ∧
                  ca_applied certController secret now secret') ∨
               (name = GetCertSecretName (Name meta) ∧ (∃ ca, ca_stored ca tr) ∧ ∃ caSecret secret now info,
                  Ev (GetObject SecretKind sns (Name meta +:+ "-ca")) (inr caSecret) ∈ tr ∧
                  applied certController secret caSecret component_config ("enmasse-operator-" +:+ Name meta) [] now secret' info))
          | _ => λ _, False
          end o
      | ReconcileRouters i | ReconcileBrokers i => same_infra i ∧ infra_finalized ∧ ∃ ca certificate, ca_stored ca tr ∧ cert_stored certificate tr
      | SyncAll i routers brokers certificate ca =>
          same_infra i ∧ infra_finalized ∧ ca_stored ca tr ∧ cert_stored certificate tr ∧
          ∃ allrouters allbrokers, pods allrouters allbrokers tr ∧ routers = running allrouters ∧ brokers = running allbrokers
      | DeleteClient i => same_infra i ∧ is_Some (DeletionTimestamp found) ∧ FINALIZER_NAME ∈ Finalizers found ∧ unused tr
      | e => reads_only e = true
      end
  end.

(** ** The state of a reconciliation *)

Record infra_inv st : Prop := {
  infra_inv_same : same_infra (res (obj st));
  infra_inv_deletion : DeletionTimestamp (obj st) = DeletionTimestamp found;
  infra_inv_phase : is_Phase (i_Status (res (obj st))) = MessagingInfrastructureActive →
                    is_Phase (i_Status (res found)) = MessagingInfrastructureActive;
}.

(** The controller is always called again, after the finalizers have been written or
    after some time. *)
#[local, refine] Instance infra_policy : Policy MessagingInfrastructure := {|
  allowed := infra_allowed;
  inv := infra_inv;
  written tr := ∃ i, Ev (UpdateInfrastructure i) None ∈ tr;
  reached tr := False;
|}.
Proof.
  - intros tr X e x H. by destruct e.
  - by intros cs st [? ? ?].
  - by intros m st [[? ?] ? ?].
  - intros st tr e [[? ?] ? Hp]. split_and!; [done|done|]. intros ?. left. by apply Hp.
Defined.

Lemma infra_inv_current st : inv st → same_infra (res (current st)).
Proof. by intros [[? ?] _ _]. Qed.

(** ** The finalizer *)

Lemma same_infra_uses i p : same_infra i → uses i p = uses (res found) p.
Proof. intros [Hm _]. unfold uses. by rewrite Hm. Qed.

Lemma find_existsb {A} (f : A → bool) l : find f l = None → existsb f l = false.
Proof. intros H. apply not_true_is_false. intros (x & Hx & Hf)%existsb_exists. by rewrite (find_none _ _ H _ Hx) in Hf. Qed.

Lemma deconstruct_infra_wp st tr :
  inv st → is_Some (DeletionTimestamp found) → FINALIZER_NAME ∈ Finalizers found →
  wp allowed (deconstruct_infra st) tr (λ tr' r, r.1 = st ∧ (r_RequeueAfter r.2.1 = 0)%Z ∧
    (r.2.2 = None → r_Requeue r.2.1 = false → infra_taken_down tr')).
Proof.
  intros Hi Hdel Hfin. pose proof (infra_inv_current st Hi) as Hc. unfold deconstruct_infra, the_infra. wp_go. split; [done|].
  destruct x as [|projects]; wp_go; [done|]. destruct (find _ projects) eqn:Hf; wp_go; [done|].
  assert (existsb (uses (res found)) projects = false) as He.
  { apply find_existsb in Hf. revert Hf Hc. generalize (res (current st)). intros i Hf Hc. rewrite <-Hf. clear Hf.
    induction projects as [|p ps IH]; simpl; [done|]. by rewrite IH, (same_infra_uses _ p Hc). }
  assert (∀ new, unused ((tr ++ [Ev ListMessagingProjects (inr projects)]) ++ new)) as Hun.
  { intros new. exists projects. split; [set_solver|done]. }
  split; [split_and!; [done..|rewrite <-(app_nil_r (_ ++ _)); apply Hun]|]. split_and!; [done..|]. cbn [fst snd]. intros -> _.
  split; [apply Hun|]. exists (res (current st)). split; [done|]. apply elem_of_app. right. by left.
Qed.

Lemma reconcileFinalizers_wp st tr :
  inv st → Finalizers (obj st) = Finalizers found →
  wp allowed (reconcileFinalizers st) tr (λ tr' r, inv r.1 ∧
    (r.2.2 = None → fr_Return r.2.1 = true → ∃ i, Ev (UpdateInfrastructure i) None ∈ tr') ∧
    (r.2.2 = None → fr_Requeue r.2.1 = false → fr_Return r.2.1 = false → infra_finalized)).
Proof.
  intros Hi Hf. pose proof (infra_inv_deletion st Hi) as Hdel. unfold reconcileFinalizers. wp_go. case_decide as Hd.
  { assert (inv (set_res (set_infra_Phase MessagingInfrastructureTerminating) st)) as Hi' by (by destruct Hi as [[? ?] ? ?]).
    wp_go. split; [by apply inv_status|]. by split_and!. }
  wp_go. eapply wp_mono; [apply (ProcessFinalizers_ok _ _ _ _ infra_taken_down); [done|by intros fs st' []|]|].
  { rewrite Hdel, Hf. intros Hs Hin. eapply wp_mono; [by apply deconstruct_infra_wp|]. intros tr' r (-> & Ha & Ht). by split_and!. }
  unfold finalizers_ok. rewrite Hdel, Hf. intros tr' [st' [result err]] (Hi' & Hdel' & Hno & Hyes). cbn [fst snd] in *.
  destruct err as [e|]; wp_go; [by split_and!|]. destruct (r_Requeue result); cbn [andb]; wp_go.
  - destruct (Hyes eq_refl eq_refl) as [Hfs Hfin]. case_bool_decide; cbn [negb]; wp_go; [by split_and!|].
    pose proof Hi' as [[Hm Hs] Hdl Hph]. split; [by split_and!|]. split; [done|]. cbn [fst snd]. split; [|done].
    intros He _. destruct x; [done|]. exists (current st'). apply elem_of_app. right. by left.
  - destruct (Hno eq_refl eq_refl) as [-> Hfin]. by split_and!.
Qed.
(** ** The other steps *)

Lemma failed_wp {X} p err (x : X) st tr next :
  inv st → wp allowed (failed p err x st) tr (λ tr' r, step_ok tr' r.1 r.2 (next r.1 tr')).
Proof. intros Hi. unfold failed, set_message. wp_go. cbn [fst snd]. eauto with go. Qed.

Lemma initialize_infra_wp grow st tr :
  inv st → wp allowed (initialize_infra grow st) tr (λ tr' r, step_ok tr' r.1 r.2 (λ _, True)).
Proof.
  intros [[Hm Hs] Hd Hp]. unfold initialize_infra. wp_go. apply step_ok_done; [|done].
  split; cbn [obj set_conds set_res res DeletionTimestamp]; [|done|]; case_decide; done.
Qed.

Lemma ca_stored_app ca tr tr' : ca_stored ca tr → ca_stored ca (tr ++ tr').
Proof. intros (secret & H1 & H2). exists secret. rewrite elem_of_app. auto. Qed.
Lemma cert_stored_app certificate tr tr' : cert_stored certificate tr → cert_stored certificate (tr ++ tr').
Proof. intros (secret & H1 & H2). exists secret. rewrite elem_of_app. auto. Qed.
Lemma pods_app routers brokers tr tr' : pods routers brokers tr → pods routers brokers (tr ++ tr').
Proof. intros [(i & spec & H1 & H2) (j & spec' & H3 & H4)]. split; [exists i, spec|exists j, spec']; rewrite elem_of_app; auto. Qed.

Hint Resolve ca_stored_app cert_stored_app pods_app : go.

Lemma reconcile_ca_wp p st tr :
  inv st → infra_finalized →
  wp allowed (reconcile_ca p st) tr (λ tr' r, step_ok tr' r.1 r.2 (λ ca, ca_stored ca tr')).
Proof.
  intros Hi Hfin. pose proof (infra_inv_current st Hi) as [Hm _]. unfold reconcile_ca, the_infra. wp_go.
  apply ReconcileCa_wp; [by intros; apply allowed_reads|rewrite Hm|rewrite Hm].
  - intros new secret now secret' x Hex Hca. split_and!; [done|done|]. left. split; [done|]. exists secret, now. split; [set_solver|done].
  - intros new [e|ca] Hr; cbn [fst snd]; [by apply (failed_wp _ _ _ _ _ (λ _ tr' ca, ca_stored ca tr'))|]. wp_go. cbn [fst snd].
    apply step_ok_done; [eauto with go|]. destruct (Hr _ eq_refl) as (secret' & -> & Hst). exists secret'. split; [done|set_solver].
Qed.

Lemma reconcile_cert_wp p ca st tr :
  inv st → infra_finalized → ca_stored ca tr →
  wp allowed (reconcile_cert p st) tr (λ tr' r, step_ok tr' r.1 r.2 (λ certificate, cert_stored certificate tr')).
Proof.
  intros Hi Hfin Hca. pose proof (infra_inv_current st Hi) as [Hm _]. unfold reconcile_cert, the_infra. wp_go.
  apply ReconcileCert_wp; [by intros; apply allowed_reads|rewrite Hm|rewrite Hm]; unfold store_cert; rewrite Hm.
  - intros new caSecret secret now secret' info x Hex Happ. split_and!; [done|done|]. right. split; [done|].
    split; [exists ca; eauto with go|]. exists caSecret, secret, now, info. split; [set_solver|done].
  - intros new [e|info] Hr; cbn [fst snd]; [by apply (failed_wp _ _ _ _ _ (λ _ tr' certificate, cert_stored certificate tr'))|].
    wp_go. cbn [fst snd]. apply step_ok_done; [eauto with go|]. destruct (Hr _ eq_refl) as (secret' & Hst & ->). exists secret'.
    split; [done|set_solver].
Qed.

Lemma reconcile_pods_wp {X} (reconcile : _ → kube (X * _)) set_spec created kind set st tr :
  inv st → (∀ hosts st', inv st' → inv (set_res (set hosts) st')) → (∀ spec st', inv st' → inv (set_res (set_spec spec) st')) →
  (∀ x, allowed tr (Ev (reconcile (res (current st))) x)) →
  wp allowed (reconcile_pods reconcile set_spec created kind set st) tr
    (λ tr' r, step_ok tr' r.1 r.2 (λ hosts, ∃ spec, Ev (reconcile (res (current st))) (spec, inr hosts) ∈ tr')).
Proof.
  intros Hi Hset Hspec Hok. unfold reconcile_pods, the_infra, set_message. wp_go. split; [apply Hok|]. destruct x as [spec [e|hosts]]; wp_go.
  { apply (failed_wp _ _ _ _ _ (λ _ tr' hosts, ∃ spec, Ev (reconcile (res (current st))) (spec, inr hosts) ∈ tr')). by apply Hspec. }
  case_decide; wp_go; cbn [fst snd]; (apply step_ok_done; [eauto 6 with go|exists spec; set_solver]).
Qed.

Lemma sync_all_wp p routers brokers certificate ca st tr :
  inv st → infra_finalized → ca_stored ca tr → cert_stored certificate tr → pods routers brokers tr →
  wp allowed (sync_all p routers brokers certificate ca st) tr (λ tr' r, step_ok tr' r.1 r.2 (λ statuses,
    ∃ i, same_infra i ∧ Ev (SyncAll i (running routers) (running brokers) certificate ca) (statuses, None) ∈ tr')).
Proof.
  intros Hi Hfin Hca Hcert Hpods. pose proof (infra_inv_current st Hi) as Hc. unfold sync_all, the_infra. wp_go.
  split; [by split_and!; [..|exists routers, brokers]|].
  destruct x as [statuses [e|]]; [destruct (errors_Is e RequestTimeoutError)|]; wp_go; cbn [fst snd]; [eauto with go..|].
  apply step_ok_done; [eauto with go|]. exists (res (current st)). split; [done|set_solver].
Qed.

Lemma all_running_wp routers brokers st tr :
  inv st → wp allowed (all_running routers brokers st) tr (λ tr' r, step_ok tr' r.1 r.2 (λ _,
    running routers = routers ∧ running brokers = brokers)).
Proof.
  intros Hi. unfold all_running. case_decide; wp_go; [eauto with go|]. apply step_ok_done; [done|]. split; apply running_all; lia.
Qed.

Lemma check_connectors_wp p routers brokers statuses st tr :
  inv st → wp allowed (check_connectors p routers brokers statuses st) tr (λ tr' r, step_ok tr' r.1 r.2 (λ _,
    length statuses = length (running routers) * length (running brokers) ∧ Forall (λ s, cs_Connected s = true) statuses)).
Proof.
  intros Hi. unfold check_connectors, not_connected, set_message. case_decide as Hl; [wp_go; eauto with go|].
  destruct (find _ statuses) as [s|] eqn:Hf; wp_go; [eauto with go|]. apply step_ok_done; [eauto with go|].
  split; [done|]. apply Forall_forall. intros s Hs. apply list_elem_of_In in Hs. apply (find_none _ _ Hf) in Hs. by apply negb_false_iff in Hs.
Qed.

Lemma fully_connected_app tr tr' : fully_connected tr → fully_connected (tr ++ tr').
Proof.
  intros (routers & brokers & i & certificate & ca & statuses & H1 & H2 & H3 & H4 & H5). exists routers, brokers, i, certificate, ca, statuses.
  split_and!; [eauto with go|done|done|apply elem_of_app; by left|apply H5..].
Qed.

Lemma finish_infra_wp p st tr :
  inv st → fully_connected tr →
  wp allowed (stage (finish_infra p) (λ _, mret ({| r_Requeue := false; r_RequeueAfter := 30 * Second |}, None)) st) tr
    (λ tr' r, settled tr' r.2).
Proof.
  intros [[Hm Hs] Hd _] Hc. apply stage_wp. unfold finish_infra, set_message, status_equal. cbn [negb]. wp_go.
  split; [split_and!; [done|done|right; by apply fully_connected_app]|].
  destruct x0 as [e|]; cbn [fmap option_fmap option_map is_error orb Requeue RequeueAfter Return done_ Z.ltb Z.compare].
  - intros e'. split; [split_and!; [done|done|]; right; by do 2 apply fully_connected_app|]. by intros He.
  - wp_go. by intros _ _.
Qed.

(** The last steps, once the pods are known. *)
Lemma connect_wp p routers brokers certificate ca st tr :
  inv st → infra_finalized → ca_stored ca tr → cert_stored certificate tr → pods routers brokers tr →
  wp allowed (stage (sync_all p routers brokers certificate ca) (λ statuses,
    stage (all_running routers brokers) (λ _,
    stage (check_connectors p routers brokers statuses) (λ _,
    stage (finish_infra p) (λ _,
    mret ({| r_Requeue := false; r_RequeueAfter := 30 * Second |}, None))))) st) tr (λ tr' r, settled tr' r.2).
Proof.
  intros Hi6 Hfin Hca Hcert Hpods.
  apply (stage_ok _ _ _ _ (λ _ statuses tr', ∃ i, same_infra i ∧ Ev (SyncAll i (running routers) (running brokers) certificate ca) (statuses, None) ∈ tr'));
    [by apply sync_all_wp|]. intros statuses st7 new7 Hi7 (i & Hi & Hsync).
  apply (stage_ok _ _ _ _ (λ _ _ _, running routers = routers ∧ running brokers = brokers)); [by apply all_running_wp|]. intros _ st8 new8 Hi8 [Hr8 Hb8].
  apply (stage_ok _ _ _ _ (λ _ _ _, length statuses = length (running routers) * length (running brokers) ∧ Forall (λ s, cs_Connected s = true) statuses));
    [by apply check_connectors_wp|]. intros _ st9 new9 Hi9 [Hl9 Hs9]. rewrite Hr8, Hb8 in *.
  apply finish_infra_wp; [done|]. exists routers, brokers, i, certificate, ca, statuses.
  split_and!; [eauto with go| |done|do 2 (apply elem_of_app; left); exact Hsync|done|done|by apply all_pairs].
  rewrite <-Hr8, <-Hb8 at 1. unfold running. rewrite <-filter_app. apply Forall_forall. intros h Hh. by apply list_elem_of_filter in Hh as [? _].
Qed.

(** The pods of one kind. *)
Lemma pods_stage {X} (reconcile : _ → kube (X * _)) set_spec created kind set k ca certificate st tr :
  inv st → (∀ hosts st', inv st' → inv (set_res (set hosts) st')) → (∀ spec st', inv st' → inv (set_res (set_spec spec) st')) → infra_finalized → ca_stored ca tr → cert_stored certificate tr →
  (∀ i x, same_infra i → allowed tr (Ev (reconcile i) x)) →
  (∀ hosts st' new, inv st' → (∃ i spec, same_infra i ∧ Ev (reconcile i) (spec, inr hosts) ∈ tr ++ new) →
    wp allowed (k hosts st') (tr ++ new) (λ tr' r, settled tr' r.2)) →
  wp allowed (stage (reconcile_pods reconcile set_spec created kind set) k st) tr (λ tr' r, settled tr' r.2).
Proof.
  intros Hi Hset Hspec Hfin Hca Hcert Hok Hk. pose proof (infra_inv_current st Hi) as Hc.
  apply (stage_ok _ _ _ _ (λ _ hosts tr', ∃ i spec, same_infra i ∧ Ev (reconcile i) (spec, inr hosts) ∈ tr')).
  - eapply wp_mono; [apply reconcile_pods_wp; [done|done|done|intros x; by apply Hok]|].
    intros tr' r (H1 & H2 & H3). split_and!; [done..|]. intros H. destruct (H3 H) as [spec Hs]. eauto.
  - intros hosts st' new Hi' H. by apply Hk.
Qed.

(** Whatever is answered, a reconciliation of an infrastructure does not panic, does only
    what is allowed, and sees to it that it is called again. *)
Lemma reconcile_infra_wp grow spare tr :
  wp allowed (reconcile_infra grow (new_ctx found spare)) tr (λ tr' r, settled tr' r.2).
Proof.
  unfold reconcile_infra. wp_step. eapply wp_mono; [apply wp_grows, reconcileFinalizers_wp; [by repeat split|done]|].
  intros tr1 [st1 [fresult err]] [(Hi1 & Hret & Hfin) [new1 ->]]. cbn [fst snd] in *.
  destruct err as [e|]; cbn [is_error orb]; [wp_go; by intros|].
  destruct (fr_Requeue fresult) eqn:Hq; cbn [orb]; [wp_go; by intros|].
  destruct (fr_Return fresult) eqn:Hr; [wp_go; intros _ _ _; left; by apply Hret|]. specialize (Hfin eq_refl eq_refl eq_refl).
  apply (stage_ok _ _ _ _ (λ _ _ _, True)); [by apply initialize_infra_wp|]. intros p st2 new2 Hi2 _.
  apply (stage_ok _ _ _ _ (λ _ ca tr', ca_stored ca tr')); [by apply reconcile_ca_wp|]. intros ca st3 new3 Hi3 Hca.
  apply (stage_ok _ _ _ _ (λ _ certificate tr', cert_stored certificate tr')); [by eapply reconcile_cert_wp|]. intros certificate st4 new4 Hi4 Hcert.
  apply (pods_stage _ _ _ _ _ _ ca certificate); [done|by intros hosts st' [[? ?] ? ?]|by intros spec st' [[? ?] ? ?]|done|eauto with go|done| |].
  { intros i x Hi. split_and!; [done..|]. exists ca, certificate. eauto with go. }
  intros routers st5 new5 Hi5 Hrouters.
  apply (pods_stage _ _ _ _ _ _ ca certificate); [done|by intros hosts st' [[? ?] ? ?]|by intros spec st' [[? ?] ? ?]|done|eauto with go|eauto with go| |].
  { intros i x Hi. split_and!; [done..|]. exists ca, certificate. eauto with go. }
  intros brokers st6 new6 Hi6 Hbrokers. apply connect_wp; [done|done|eauto 10 with go|eauto 10 with go|].
  split; [|done]. destruct Hrouters as (i & spec & H1 & H2). exists i, spec. split; [done|]. apply elem_of_app. by left.
Qed.
End Policy.
