(* ===== verification/ControllerSim.v ===== *)
(** A simulated cluster, in which the controllers can be run: a certificate is a text that
    spells its fields, the API server has the objects it is given, and the client of the
    infrastructure does what it is asked. *)
From Stdlib Require Import Ascii.
From stdpp Require Import base gmap strings countable list.
From S2P Require Import Prelude Client ApiV1 KubeObjects Conditions Reconcile Certs.

(** ** Certificates *)

#[global, refine] Instance PrivateKey_countable : Countable PrivateKey :=
  inj_countable (λ k, (Modulus k, PublicExponent k, PrivateExponent k, Primes k))
    (λ '(n, e, d, ps), match decide (valid_key n e d ps = true) with
      | left H => Some {| Modulus := n; PublicExponent := e; PrivateExponent := d; Primes := ps; Validated := H |}
      | right _ => None
      end) _.
Proof. intros [n e d ps H]. simpl. destruct (decide _) as [H'|]; [|done]. do 2 f_equal. apply proof_irrel. Defined.

#[global, refine] Instance Certificate_countable : Countable Certificate :=
  inj_countable' (λ c, (SerialNumber c, CommonName c, NotBefore c, NotAfter c, DNSNames c, IsCA c))
    (λ '(n, cn, nb, na, dns, ca),
      {| SerialNumber := n; CommonName := cn; NotBefore := nb; NotAfter := na; DNSNames := dns; IsCA := ca |}) _.
Proof. by intros []. Defined.

(** Numbers as texts. *)
Fixpoint digits (p : positive) : string :=
  match p with xH => "" | xO p => String "0"%char (digits p) | xI p => String "1"%char (digits p) end.
Fixpoint number (s : string) : positive :=
  match s with "" => xH | String c s => if decide (c = "0"%char) then xO (number s) else xI (number s) end.

Lemma number_digits p : number (digits p) = p.
Proof. induction p as [p IH|p IH|]; simpl; rewrite ?IH; done. Qed.

Definition spell {A} `{Countable A} (a : A) : string := digits (encode a).
Definition unspell {A} `{Countable A} (s : string) : option A := decode (number s).

Lemma unspell_spell {A} `{Countable A} (a : A) : unspell (spell a) = Some a.
Proof. unfold unspell, spell. by rewrite number_digits, decode_encode. Qed.

#[global] Arguments spell : simpl never.
#[global] Arguments unspell : simpl never.

Definition sim_decode (s : string) : option string :=
  match s with String c block => if decide (c = "P"%char) then Some block else None | _ => None end.

(** The certificate and the public key it is for. *)
Definition sim_cert (s : string) : option (Certificate * (Z * Z)) := unspell s.

#[global] Instance sim_x509 : X509 := {|
  pem_Encode _ block := String "P"%char block;
  pem_Decode := sim_decode;
  x509_CreateCertificate template _ pub _ := inr (spell (encoded template, pub));
  x509_ParseCertificate s := match sim_cert s with Some (c, _) => inr c | None => inl (Errorf "malformed certificate") end;
  x509_MarshalPKCS1PrivateKey k := spell k;
  x509_ParsePKCS1PrivateKey s := match unspell s with Some k => inr k | None => inl (Errorf "malformed key") end;
  tls_X509KeyPair cert key :=
    match sim_decode (default "" cert) ≫= sim_cert, sim_decode (default "" key) ≫= unspell with
    | Some (_, pub), Some k => if decide (pub = PublicKey k) then None else Some (Errorf "private key does not match public key")
    | _, _ => Some (Errorf "failed to find PEM data")
    end;
  sha256_hex s := s;
|}.

#[global] Instance sim_x509_laws : X509Laws.
Proof.
  split; simpl.
  - done.
  - intros template parent pub signer der [= <-]. unfold sim_cert. by rewrite unspell_spell.
  - intros k. by rewrite unspell_spell.
  - intros template parent k signer der [= <-]. unfold sim_cert. rewrite !unspell_spell. by rewrite decide_True.
Qed.

(** ** The cluster *)

Record SimCluster := {
  cl_clock : Z;
  cl_address : Resource MessagingAddress;
  cl_endpoint : Resource MessagingEndpoint;
  cl_project : Resource MessagingProject;
  cl_infra : Resource MessagingInfrastructure;
  cl_secrets : gmap string Secret;
}.

Definition set_secret (name : string) (s : Secret) (w : SimCluster) : SimCluster :=
  {| cl_clock := cl_clock w; cl_address := cl_address w; cl_endpoint := cl_endpoint w; cl_project := cl_project w;
     cl_infra := cl_infra w; cl_secrets := <[name := s]> (cl_secrets w) |}.
Definition tick (w : SimCluster) : SimCluster :=
  {| cl_clock := cl_clock w + 1; cl_address := cl_address w; cl_endpoint := cl_endpoint w; cl_project := cl_project w;
     cl_infra := cl_infra w; cl_secrets := cl_secrets w |}.

Definition new_secret (name : string) : Secret :=
  {| sec_Name := name; sec_Labels := ∅; sec_Annotations := ∅; sec_Owners := []; Data := ∅ |}.

Definition sim_service : Service :=
  {| s_Labels := ∅; s_Annotations := ∅; s_Owners := []; s_Type := ServiceTypeClusterIP; s_ClusterIP := ""; s_Selector := ∅;
     s_Ports := [{| sp_Name := "amqps"; sp_Protocol := ProtocolTCP; sp_Port := 5671; sp_TargetPort := FromInt 40000; sp_NodePort := 0 |}];
     s_LoadBalancerIngress := [] |}.
Definition sim_route : RouteObject :=
  {| r_Labels := ∅; r_Annotations := ∅; r_Host := "route.example.com"; r_To := ("", ""); r_TLS := None; r_Port := None |}.
Definition sim_ingress : IngressObject := {| in_Labels := ∅; in_Annotations := ∅; in_Rules := []; in_TLS := [] |}.

Definition find_object {O} (k : okind O) (name : string) (w : SimCluster) : ApiError + O :=
  match k with
  | ServiceKind => inr sim_service
  | RouteKind => inr sim_route
  | IngressKind => inr sim_ingress
  | SecretKind => match cl_secrets w !! name with Some s => inr s | None => inl (ApiNotFound "secret not found") end
  | StatefulSetKind | ConfigMapKind | PodKind => inl (ApiNotFound "not found")
  end.

Definition existing {O} (k : okind O) (name : string) (w : SimCluster) : ApiError + O :=
  match k in okind T return ApiError + T with
  | ServiceKind => inr {| s_Labels := ∅; s_Annotations := ∅; s_Owners := []; s_Type := ""; s_ClusterIP := ""; s_Selector := ∅; s_Ports := []; s_LoadBalancerIngress := [] |}
  | RouteKind => inr sim_route
  | IngressKind => inr sim_ingress
  | SecretKind => inr (default (new_secret name) (cl_secrets w !! name))
  | StatefulSetKind | ConfigMapKind | PodKind => inl (ApiNotFound "not found")
  end.

Definition put_object {O} (k : okind O) (name : string) : O → SimCluster → SimCluster :=
  match k with SecretKind => λ s, set_secret name s | _ => λ _ w, w end.

Definition sim_key : PrivateKey := {| Modulus := 3233; PublicExponent := 17; PrivateExponent := 2753; Primes := [61; 53]%Z; Validated := eq_refl |}.
Definition sim_host (name : string) : Host := {| Hostname := name; Ip := "10.0.0.1" |}.

Definition sim (X : Type) (e : kube X) (w : SimCluster) : SimCluster * X :=
  match e in kube T return SimCluster * T with
  | Now => (tick w, cl_clock w)
  | Sleep _ => (w, ())
  | IsOpenshift => (w, true)
  | GetMessagingAddress _ _ => (w, inr (cl_address w, 0))
  | GetMessagingEndpoint _ _ => (w, inr (cl_endpoint w, 0))
  | GetMessagingProject _ _ => (w, inr (cl_project w, 0))
  | GetMessagingInfrastructure _ _ => (w, inr (cl_infra w, 0))
  | ListMessagingAddresses _ => (w, inr [res (cl_address w)])
  | ListMessagingEndpoints _ => (w, inr [res (cl_endpoint w)])
  | ListMessagingProjects => (w, inr [res (cl_project w)])
  | ListMessagingInfrastructures => (w, inr [res (cl_infra w)])
  | UpdateAddress _ | UpdateAddressStatus _ | UpdateEndpoint _ | UpdateEndpointStatus _
  | UpdateProject _ | UpdateProjectStatus _ | UpdateInfrastructure _ | UpdateInfrastructureStatus _ => (w, None)
  | GetObject k _ name => (w, find_object k name w)
  | UpdateObject k _ name o => (put_object k name o w, None)
  | DeleteObject _ _ _ => (w, None)
  | Existing k _ name => (w, existing k name w)
  | Store k _ name o => (put_object k name o w, None)
  | SetControllerReference owner owners => (w, inr (Name owner :: owners))
  | GenerateKey => (w, inr sim_key)
  | Pkcs12Encode _ _ _ => (w, inr "keystore")
  | Pkcs12EncodeTrustStore _ => (w, inr "truststore")
  | ScheduleAddress _ _ => (w, ([{| ab_State := MessagingAddressBrokerScheduled; ab_Host := "broker-0" |}], None))
  | SyncAddress _ _ | DeleteAddress _ _ => (w, None)
  | ScheduleProject _ _ => (w, (Some {| ab_State := MessagingAddressBrokerScheduled; ab_Host := "broker-0" |}, None))
  | SyncProject _ _ | DeleteProject _ _ => (w, None)
  | AllocatePorts _ e _ => (w, (es_InternalPorts (e_Status e), None))
  | FreePorts _ _ => (w, [])
  | SyncEndpoint _ _ => (w, None)
  | DeleteEndpoint _ _ => (w, ([], None))
  | ReconcileRouters i => (w, (i_Router i, inr [sim_host "router-0"]))
  | ReconcileBrokers i => (w, (i_Broker i, inr [sim_host "broker-0"; sim_host "broker-1"]))
  | SyncAll _ routers brokers _ _ =>
      (w, (r ← routers; (λ b, {| cs_Router := Hostname r; cs_Broker := Hostname b; cs_Connected := true; cs_Message := "" |}) <$> brokers, None))
  | DeleteClient _ | DeleteBroker _ _ => (w, None)
  | ListStatefulSets _ _ => (w, inr [])
  | ListPods _ _ => (w, inr [])
  end.

(** ** Objects *)

Definition sim_meta (ns name : string) : ObjectMeta := {| Name := name; Namespace := ns |}.

Definition alive {A} (a : A) : Resource A := {| res := a; DeletionTimestamp := None; Finalizers := ["enmasse.io/operator"] |}.
Definition dying {A} (t : Z) (a : A) : Resource A := {| res := a; DeletionTimestamp := Some t; Finalizers := ["enmasse.io/operator"] |}.

Definition queue_spec (dead : string) : MessagingAddressSpec :=
  {| Address := None; Anycast := None; Multicast := None;
     Queue := Some {| DeadLetterAddress := dead; ExpiryAddress := "" |}; Topic := None; Subscription := None; DeadLetter := None |}.

Definition an_address (phase : string) (spec : MessagingAddressSpec) : MessagingAddress :=
  {| a_meta := sim_meta "app" "orders"; a_Spec := spec;
     a_Status := {| as_Phase := phase; as_Message := ""; as_Conditions := [];
                    as_Brokers := [{| ab_State := MessagingAddressBrokerScheduled; ab_Host := "broker-0" |}]; as_Type := "" |} |}.

Definition an_endpoint (name phase : string) : MessagingEndpoint :=
  {| e_meta := sim_meta "app" name;
     e_Spec := {| Tls := Some {| Protocols := None; Ciphers := None; Selfsigned := Some (); Openshift := None; External := None |};
                  Annotations := ∅; es_Protocols := [MessagingProtocolAMQPS]; es_Host := None; Cluster := Some (); Ingress := None;
                  Route := None; NodePort := None; LoadBalancer := None |};
     e_Status := {| es_Phase := phase; es_Type := ""; es_Message := ""; es_Conditions := []; es_StatusHost := name +:+ ".example.com"; es_Ports := [];
                    es_Tls := None;
                    es_InternalPorts := [{| p_Name := "app-" +:+ name; p_Protocol := MessagingProtocolAMQPS; p_Port := 40000 |}] |} |}.

Definition a_project (phase : string) (ref : MessagingInfrastructureReference) : MessagingProject :=
  {| p_meta := sim_meta "app" "default"; p_Spec := {| ps_MessagingInfrastructureRef := None; ps_Capabilities := [] |};
     p_Status := {| ps_Phase := phase; ps_Message := ""; ps_StatusInfrastructureRef := ref; ps_Conditions := [];
                    ps_StatusCapabilities := []; ps_Broker := None |} |}.

Definition default_router : MessagingInfrastructureSpecRouter := {| sr_Image := None; sr_ScalingStrategy := None |}.
Definition default_broker : MessagingInfrastructureSpecBroker := {| sb_InitImage := None; sb_Image := None; sb_ScalingStrategy := None |}.

Definition an_infra (name phase : string) (selector : option (list string)) : MessagingInfrastructure :=
  {| i_meta := sim_meta "infra" name; i_NamespaceSelector := selector; i_Router := default_router; i_Broker := default_broker;
     i_Status := {| is_Phase := phase; is_Message := ""; is_Conditions := []; is_Routers := []; is_Brokers := [] |} |}.

Definition no_ref : MessagingInfrastructureReference := {| ref_Name := ""; ref_Namespace := "" |}.

(** An hour in which the operator has just been started. *)
Definition cluster : SimCluster :=
  {| cl_clock := 1000 * Hour;
     cl_address := alive (an_address "" (queue_spec ""));
     cl_endpoint := alive (an_endpoint "messaging" "");
     cl_project := alive (a_project "" {| ref_Name := "default-infra"; ref_Namespace := "infra" |});
     cl_infra := alive (an_infra "default-infra" MessagingInfrastructureActive None);
     cl_secrets := <["default-infra.project-certs" := new_secret "default-infra.project-certs"]> ∅ |}.
