(* ===== verification/Convergence.v ===== *)
(** Reconciliations that are not disturbed: when the API server stores what it is given and
    the client of the infrastructure succeeds, an address becomes [Active], and one that is
    deleted loses its finalizer, after a few reconciliations. *)
From stdpp Require Import base gmap strings list.
From S2P Require Import Prelude ApiV1 KubeObjects Conditions Reconcile Finalizer AddressController AddressFacts ControllerSim.

(** ** A logic for answers that are good *)

Section Served.
Context {C : Type} (good : event kube → Prop) (stored : event kube → C → C).

(** As long as the answers are good, the program returns without a panic, and [Q] holds of
    what is stored in the end and of the value. *)
Fixpoint served {A} (p : io kube A) (c : C) (Q : C → A → Prop) : Prop :=
  match p with
  | Ret a => Q c a
  | Crash => False
  | Vis e k => ∀ x, good (Ev e x) → served (k x) (stored (Ev e x) c) Q
  end.

Lemma served_bind {A B} (p : io kube A) (f : A → io kube B) c Q :
  served p c (λ c' a, served (f a) c' Q) → served (p ≫= f) c Q.
Proof. revert c. induction p as [a| |X e k IH]; intros c; simpl; [done..|]. intros H x Hx. by apply IH, H. Qed.

Lemma served_mono {A} (p : io kube A) c (Q Q' : C → A → Prop) :
  served p c Q → (∀ c' a, Q c' a → Q' c' a) → served p c Q'.
Proof.
  intros H HQ. revert c H. induction p as [a| |X e k IH]; intros c; simpl; [apply HQ|done|].
  intros H x Hx. by apply IH, H.
Qed.

Lemma served_ctl_bind {S A B} (m : ctl S A) (f : A → ctl S B) s c Q :
  served (m s) c (λ c' r, served (f r.2 r.1) c' Q) → served ((m ≫= f) s) c Q.
Proof. apply served_bind. Qed.

Lemma served_call {S A} (e : kube A) (s : S) c (Q : C → S * A → Prop) :
  (∀ x, good (Ev e x) → Q (stored (Ev e x) c) (s, x)) → served (call e s) c Q.
Proof. done. Qed.

Lemma served_ret {S A} (a : A) (s : S) c (Q : C → S * A → Prop) : Q c (s, a) → served (mret (M := ctl S) a s) c Q.
Proof. done. Qed.

Lemma served_reads {S A} (f : S → A) (s : S) c (Q : C → S * A → Prop) : Q c (s, f s) → served (reads f s) c Q.
Proof. done. Qed.

Lemma served_writes {S} (f : S → S) (s : S) c (Q : C → S * () → Prop) : Q c (f s, ()) → served (writes f s) c Q.
Proof. done. Qed.

(** ** Runs *)

Context {W : Type} (handle : ∀ X, kube X → W → W * X) (cell : W → C).

(** The world gives good answers and stores what it is given. *)
Definition serves : Prop :=
  ∀ X (e : kube X) w, good (Ev e (handle X e w).2) ∧ cell (handle X e w).1 = stored (Ev e (handle X e w).2) (cell w).

Lemma served_run {A} (p : io kube A) w tr Q :
  serves → served p (cell w) Q → ∃ w' tr' a, run handle p w tr = (w', tr', Some a) ∧ Q (cell w') a.
Proof.
  intros Hs. revert w tr. induction p as [a| |X e k IH]; intros w tr H; simpl in *; [by eexists _, _, _|done|].
  destruct (Hs X e w) as [Hg Hc]. destruct (handle X e w) as [w' x]. apply IH. cbn [fst snd] in *. rewrite Hc. by apply H.
Qed.
End Served.

Ltac served_step :=
  lazymatch goal with
  | |- served _ _ ((_ ≫= _) _) _ _ => apply served_ctl_bind
  | |- served _ _ (call _ _) _ _ => apply served_call; intros ? ?
  | |- served _ _ (mret _ _) _ _ => apply served_ret
  | |- served _ _ (reads _ _) _ _ => apply served_reads
  | |- served _ _ (writes _ _) _ _ => apply served_writes
  end; cbn [fst snd].

(** ** An API server and a client that do what they are asked *)

(** What an update stores: everything but the status, or the status only. *)
Definition updated (a c : Resource MessagingAddress) : Resource MessagingAddress :=
  {| res := {| a_meta := a_meta (res a); a_Spec := a_Spec (res a); a_Status := a_Status (res c) |};
     DeletionTimestamp := DeletionTimestamp c; Finalizers := Finalizers a |}.
Definition status_updated (a c : Resource MessagingAddress) : Resource MessagingAddress :=
  {| res := {| a_meta := a_meta (res c); a_Spec := a_Spec (res c); a_Status := a_Status (res a) |};
     DeletionTimestamp := DeletionTimestamp c; Finalizers := Finalizers c |}.

Definition address_stored (ev : event kube) (c : Resource MessagingAddress) : Resource MessagingAddress :=
  match ev with
  | Ev e _ => match e with UpdateAddress a => updated a c | UpdateAddressStatus a => status_updated a c | _ => c end
  end.

(** The answers to the calls for an address: the project is bound, the list of addresses is
    as it has to be, and nothing fails. *)
Definition address_good (listed : list MessagingAddress → Prop) (ev : event kube) : Prop :=
  match ev with
  | Ev e x =>
      match e in kube T return T → Prop with
      | GetMessagingProject _ _ => λ x, ∃ project spare, x = inr (project, spare) ∧ IsBound (res project) = true
      | GetMessagingInfrastructure _ _ => λ x, ∃ infra spare, x = inr (infra, spare)
      | ListMessagingAddresses _ => λ x, ∃ items, x = inr items ∧ listed items
      | UpdateAddress _ | UpdateAddressStatus _ => λ x, x = None
      | ScheduleAddress _ _ => λ x, x.1 ≠ [] ∧ x.2 = None
      | SyncAddress _ _ | DeleteAddress _ _ => λ x, x = None
      | _ => λ _, True
      end x
  end.

(** Use what is known of an answer. *)
Ltac answered :=
  repeat match goal with
    | H : address_good _ _ |- _ => cbn in H
    | H : ∃ _, _ |- _ => destruct H
    | H : _ ∧ _ |- _ => destruct H
    end; subst; cbn [fst snd] in *.

(** The addresses that [spec] refers to are there. *)
Definition provided (spec : MessagingAddressSpec) (items : list MessagingAddress) : Prop :=
  (∀ q, Queue spec = Some q → DeadLetterAddress q ≠ "" → existsb (is_dead_letter (DeadLetterAddress q)) items = true) ∧
  (∀ q, Queue spec = Some q → ExpiryAddress q ≠ "" → existsb (is_dead_letter (ExpiryAddress q)) items = true) ∧
  (∀ sub, Subscription spec = Some sub → existsb (is_topic (Topic_ sub)) items = true).

(** No address refers to [a]. *)
Definition released (a : MessagingAddress) (items : list MessagingAddress) : Prop :=
  existsb (subscribes a) items = false ∧ existsb (dead_letters a) items = false.

Section Address.
Context (listed : list MessagingAddress → Prop) (grow : nat → nat).
Notation C := (Ctx MessagingAddress).
Notation cell := (Resource MessagingAddress).
Notation srv := (served (address_good listed) address_stored).
Implicit Types (st : C) (c : cell).

Lemma served_get_condition t st c (Q : cell → C * Pointer → Prop) :
  (∀ cs p, Q c (set_conds cs st, p)) → srv (get_condition grow t st) c Q.
Proof.
  intros HQ. unfold get_condition. repeat served_step. destruct (GetCondition _ _ _ _) as [cs p]. repeat served_step. apply HQ.
Qed.

Lemma served_set_condition p status msg st c (Q : cell → C * () → Prop) :
  (∀ cs, Q c (set_conds cs st, ())) → srv (set_condition p status msg st) c Q.
Proof. intros HQ. unfold set_condition. repeat served_step. apply HQ. Qed.

(** A step that goes on to the next one, one that writes the status to be called again, and
    one that returns. *)
Lemma served_stage_done {X} (p : processor MessagingAddress X) k st c Q :
  srv (p st) c (λ c' r, r.2.1 = (done_, None) ∧ srv (k r.2.2 r.1) c' Q) → srv (stage p k st) c Q.
Proof.
  intros H. unfold stage, Process. do 2 apply served_ctl_bind. eapply served_mono; [exact H|].
  intros c' [st' [[result err] x]] [[= -> ->] Hk]. cbn [fst snd]. by repeat served_step.
Qed.

Lemma served_stage_requeue {X} (p : processor MessagingAddress X) k st c (Q : cell → C * (Result * option error) → Prop) :
  srv (p st) c (λ c' r, r.2.1 = (requeue, None) ∧ Q (status_updated (current r.1) c') (r.1, (Result_ requeue, None))) →
  srv (stage p k st) c Q.
Proof.
  intros H. unfold stage, Process. do 2 apply served_ctl_bind. eapply served_mono; [exact H|].
  intros c' [st' [[result err] x]] [[= -> ->] HQ]. cbn [fst snd]. unfold status_equal. cbn [negb andb orb is_error Requeue requeue]. repeat served_step. answered. exact HQ.
Qed.

Lemma served_stage_return {X} (p : processor MessagingAddress X) k st c (Q : cell → C * (Result * option error) → Prop) :
  srv (p st) c (λ c' r, r.2.1 = (return_, None) ∧ Q c' (r.1, (Result_ return_, None))) → srv (stage p k st) c Q.
Proof.
  intros H. unfold stage, Process. do 2 apply served_ctl_bind. eapply served_mono; [exact H|].
  intros c' [st' [[result err] x]] [[= -> ->] HQ]. cbn [fst snd]. by repeat served_step.
Qed.

(** The object a reconciliation works on is the one that is stored, but for the status. *)
Record tracks st c : Prop := {
  tr_meta : a_meta (res (obj st)) = a_meta (res c);
  tr_spec : a_Spec (res (obj st)) = a_Spec (res c);
  tr_deletion : DeletionTimestamp (obj st) = DeletionTimestamp c;
  tr_finalizers : Finalizers (obj st) = Finalizers c;
  tr_brokers : as_Brokers (a_Status (res (obj st))) = as_Brokers (a_Status (res c));
}.

Lemma tracks_conds cs st c : tracks st c → tracks (set_conds cs st) c.
Proof. by intros []. Qed.

Lemma tracks_new c spare : tracks (new_ctx c spare) c.
Proof. done. Qed.

(** Steps through the conditions. *)
Ltac served_go :=
  repeat first
    [ served_step
    | apply served_get_condition; intros ? ?; cbn [fst snd]
    | apply served_set_condition; intros ?; cbn [fst snd] ].

Lemma initialize_served st c :
  tracks st c → as_Phase (a_Status (res (obj st))) = as_Phase (a_Status (res c)) →
  srv (initialize grow st) c (λ c' r, c' = c ∧ r.2.1 = (done_, None) ∧ tracks r.1 c ∧
    (as_Phase (a_Status (res (obj r.1))) = MessagingAddressTerminating ↔ as_Phase (a_Status (res c)) = MessagingAddressTerminating)).
Proof.
  intros [] Hp. unfold initialize. served_go. rewrite <-Hp.
  split_and!; [done|done|split|]; cbn [obj set_conds set_res res DeletionTimestamp Finalizers]; try done.
  all: destruct (decide (as_Phase (a_Status (res (obj st))) = "")) as [He|He]; cbn [set_Phase set_Status a_Spec];
    destruct (address_type (a_Spec (res (obj st)))); cbn; try done.
  all: rewrite He; split; discriminate.
Qed.

(** Finalizers that have changed are written, and nothing else is. *)
Definition with_Finalizers (fs : list string) (c : cell) : cell :=
  {| res := res c; DeletionTimestamp := DeletionTimestamp c; Finalizers := fs |}.

Lemma finalizers_written st c fs :
  tracks st c → fs ≠ Finalizers c →
  srv ((o ← reads current;
        if true && negb (bool_decide (current st = o)) then
          if negb (bool_decide (a_Status (res (current st)) = a_Status (res o))) then
            err ← call (StatusUpdate o); mret (requeue, api_error <$> err, ())
          else err ← call (Update o); mret (return_, api_error <$> err, ())
        else mret ({| Requeue := true; RequeueAfter := 0; Return := false |}, None, ()) : processor MessagingAddress ())
       (SetFinalizers fs st)) c (λ c' r, r.2.1 = (return_, None) ∧ c' = with_Finalizers fs c).
Proof.
  intros [Hm Hs Hd Hf _] Hne. served_go. cbn [andb]. rewrite bool_decide_eq_false_2; cbn [negb].
  2:{ intros Heq. apply (f_equal Finalizers) in Heq. cbn in Heq. congruence. }
  rewrite bool_decide_eq_true_2 by done. cbn [negb]. served_go. answered. split; [done|].
  unfold address_stored, updated, with_Finalizers. cbn. rewrite Hm, Hs. by destruct c as [[] ? ?].
Qed.

(** ** The steps of an address that is not being deleted *)

Lemma finalizer_added st c :
  tracks st c → DeletionTimestamp c = None → FINALIZER_NAME ∉ Finalizers c →
  srv (finalize st) c (λ c' r, r.2.1 = (return_, None) ∧ c' = with_Finalizers (Finalizers c ++ [FINALIZER_NAME]) c).
Proof.
  intros Ht Hdel Hno. pose proof Ht as [_ _ Hd Hf _]. unfold finalize, ProcessFinalizers. served_go. cbn [current DeletionTimestamp].
  rewrite Hd, Hdel. rewrite decide_False by (intros [[? [=]] _]). served_go. rewrite Hd, Hdel.
  unfold add_missing. cbn [foldl fst snd f_Name].
  destruct (hasFinalizer FINALIZER_NAME (Finalizers (obj st))) eqn:Hh; [apply hasFinalizer_spec in Hh; congruence|].
  served_go. cbn [r_Requeue]. rewrite Hf. apply finalizers_written; [done|]. intros Heq.
  apply (f_equal length) in Heq. rewrite length_app in Heq. simpl in Heq. lia.
Qed.

Lemma finalizer_present st c :
  tracks st c → DeletionTimestamp c = None → FINALIZER_NAME ∈ Finalizers c →
  srv (finalize st) c (λ c' r, r = (st, (done_, None, ())) ∧ c' = c).
Proof.
  intros [_ _ Hd Hf _] Hdel Hin. unfold finalize, ProcessFinalizers. served_go. cbn [current DeletionTimestamp].
  rewrite Hd, Hdel. rewrite decide_False by (intros [[? [=]] _]). served_go. rewrite Hd, Hdel.
  unfold add_missing. cbn [foldl fst snd f_Name]. rewrite Hf, (proj2 (hasFinalizer_spec _ _) Hin). by served_go.
Qed.

Lemma LookupInfra_served ns st c :
  srv (LookupInfra ns st) c (λ c' r, r.1 = st ∧ c' = c ∧ ∃ project infra, r.2 = (Some project, Some infra, None)).
Proof.
  unfold LookupInfra. served_go. answered.
  match goal with H : IsBound _ = true |- _ => rewrite H end. cbn [negb]. served_go. answered. served_go. eauto.
Qed.

Lemma lookup_served p st c :
  srv (lookup p st) c (λ c' r, c' = c ∧ ∃ infra cs, r = (set_conds cs st, (done_, None, Some infra))).
Proof.
  unfold lookup, address. served_go. eapply served_mono; [apply LookupInfra_served|].
  intros c' [st' r] (-> & -> & project & infra & ->). cbn [fst snd]. served_go. eauto.
Qed.

Lemma matchAny_served ns matches st c (Q : cell → C * (bool * option error) → Prop) :
  (∀ items, listed items → Q c (st, (existsb matches items, None))) → srv (matchAnyAddress ns matches st) c Q.
Proof. intros HQ. unfold matchAnyAddress. served_go. answered. served_go. by apply HQ. Qed.

(** A step that has only touched the conditions. *)
Notation noted st c := (λ c' r, c' = c ∧ ∃ cs, r = (set_conds cs st, (done_, None, ()))).

Lemma require_served p matches msg k st c :
  (∀ items, listed items → existsb matches items = true) → srv (k st) c (noted st c) →
  srv (require p matches msg k st) c (noted st c).
Proof.
  intros Hm Hk. unfold require, address. served_go. apply matchAny_served. intros items Hi. cbn [fst snd]. by rewrite Hm.
Qed.

Definition needs_met (spec : MessagingAddressSpec) : Prop :=
  (∀ sub, Subscription spec = Some sub → Topic_ sub ≠ "") ∧ ∀ items, listed items → provided spec items.

Lemma validate_served p st c :
  a_Spec (res (obj st)) = a_Spec (res c) → needs_met (a_Spec (res c)) → srv (validate p st) c (noted st c).
Proof.
  intros Hs [Hsub Hp]. unfold validate, address. served_go. cbn [current res with_Conditions address_kind set_Status a_Spec]. rewrite Hs.
  assert (srv ((_ ← set_condition (validated p) ConditionTrue ""; mret (done_, None, ()) : processor MessagingAddress ()) st) c (noted st c))
    as Hvalid by (served_go; eauto).
  set (valid := _ ≫= _) in *. clearbody valid.
  set (subscription := match Subscription _ with Some _ => _ | None => _ end).
  assert (srv (subscription st) c (noted st c)) as Hs'.
  { subst subscription. destruct (Subscription _) as [sub|] eqn:Hsb; [|done]. rewrite decide_False by (by apply Hsub).
    apply require_served; [|done]. intros items Hi. by apply (Hp items Hi). }
  destruct (Queue _) as [q|] eqn:Hq; [|done]. case_decide; [|done].
  assert (srv ((if decide (ExpiryAddress q ≠ "")
    then require p (is_dead_letter (ExpiryAddress q)) ("unable to find expiryAddress " +:+ ExpiryAddress q) valid
    else valid) st) c (noted st c)) as He.
  { case_decide; [|done]. apply require_served; [|done]. intros items Hi. by apply (Hp items Hi). }
  destruct (decide (DeadLetterAddress q ≠ "")); [|done]. apply require_served; [|done]. intros items Hi. by apply (Hp items Hi).
Qed.

(** An address that has to be scheduled. *)
Definition unscheduled (a : MessagingAddress) : bool :=
  bool_decide (as_Brokers (a_Status a) = []) && bool_decide (Anycast (a_Spec a) = None) && bool_decide (Multicast (a_Spec a) = None).

Lemma schedule_served p infra st c :
  tracks st c →
  srv (schedule p (Some infra) st) c (λ c' r, c' = c ∧
    if unscheduled (res c) then r.2 = (requeue, None, ()) ∧ ∃ bs cs, bs ≠ [] ∧ r.1 = set_conds cs (set_res (set_Brokers bs) st)
    else ∃ cs, r = (set_conds cs st, (done_, None, ()))).
Proof.
  intros [_ Hs _ _ Hb]. unfold schedule, address, unscheduled. served_go.
  cbn [current res with_Conditions address_kind set_Status a_Spec a_Status as_Brokers]. rewrite Hs, Hb.
  destruct (as_Brokers (a_Status (res c))) as [|b bs]; cbn [length]; [|rewrite decide_True by lia; served_go; split; [done|]; rewrite (bool_decide_eq_false_2 (_ :: _ = [])) by done; cbn [andb]; eauto].
  rewrite decide_False by lia. rewrite bool_decide_eq_true_2 by done. cbn [andb].
  destruct (Anycast (a_Spec (res c))) as [u|].
  { rewrite decide_True by eauto. served_go. split; [done|]. rewrite (bool_decide_eq_false_2 (Some u = None)) by done. cbn [andb]. eauto. }
  destruct (Multicast (a_Spec (res c))) as [u|].
  { rewrite decide_True by eauto. served_go. split; [done|]. rewrite (bool_decide_eq_false_2 (Some u = None)), andb_false_r by done. eauto. }
  rewrite decide_False by (intros [[? [=]]|[? [=]]]). served_go. answered. destruct x as [bs err]. cbn [fst snd] in *. subst.
  served_go. split; [done|]. split; [done|]. eauto.
Qed.

Lemma synchronize_served p infra st c :
  srv (synchronize p infra st) c (λ c' r, c' = c ∧ ∃ cs, r = (set_conds cs (set_res activate st), (done_, None, ()))).
Proof. unfold synchronize, address. served_go. answered. served_go. eauto. Qed.

(** What the last step stores. *)
Definition configured_as c c' : Prop :=
  a_meta (res c') = a_meta (res c) ∧ a_Spec (res c') = a_Spec (res c) ∧ DeletionTimestamp c' = DeletionTimestamp c ∧
  Finalizers c' = Finalizers c ∧ as_Phase (a_Status (res c')) = MessagingAddressActive ∧ as_Message (a_Status (res c')) = "".

Lemma finish_served p st c :
  srv ((r ← Process (finish p); mret (Result_ r.1.1, r.1.2) : ctl C (Result * option error)) st) c
    (λ c' r, r.2 = (no_result, None) ∧ configured_as c c' ∧ as_Brokers (a_Status (res c')) = as_Brokers (a_Status (res (obj st)))).
Proof.
  unfold Process, finish, set_message, status_equal. served_go. cbn [negb]. served_go. answered. cbn [negb andb orb is_error fmap option_fmap option_map].
  served_go. done.
Qed.
(** ** Reconciliations of an address that is not being deleted *)

Lemma initialized {X} (k : processorResult * option error * Pointers → ctl C X) spare c Q :
  (∀ st p, tracks st c →
    (as_Phase (a_Status (res (obj st))) = MessagingAddressTerminating ↔ as_Phase (a_Status (res c)) = MessagingAddressTerminating) →
    srv (k (done_, None, p) st) c Q) →
  srv ((r ← Process (initialize grow); k r) (new_ctx c spare)) c Q.
Proof.
  intros Hk. unfold Process. do 2 apply served_ctl_bind. eapply served_mono; [by apply initialize_served|].
  intros c' [st [[result err] p]] (-> & [= -> ->] & Ht & Hp). cbn. by apply Hk.
Qed.

(** What a reconciliation does: it adds the finalizer, schedules the address or configures it. *)
Definition progressed c c' : Prop :=
  a_meta (res c') = a_meta (res c) ∧ a_Spec (res c') = a_Spec (res c) ∧ DeletionTimestamp c' = DeletionTimestamp c ∧
  if decide (FINALIZER_NAME ∈ Finalizers c) then
    Finalizers c' = Finalizers c ∧ as_Brokers (a_Status (res c')) ≠ [] ∧ unscheduled (res c) = true ∨
    configured_as c c' ∧ unscheduled (res c) = false ∧
    as_Brokers (a_Status (res c')) = (λ b, {| ab_State := MessagingAddressBrokerActive; ab_Host := ab_Host b |}) <$> as_Brokers (a_Status (res c))
  else c' = with_Finalizers (Finalizers c ++ [FINALIZER_NAME]) c.

Lemma reconcile_served spare c :
  DeletionTimestamp c = None → needs_met (a_Spec (res c)) →
  srv (reconcile grow (new_ctx c spare)) c (λ c' _, progressed c c').
Proof.
  intros Hd Hn. unfold reconcile. apply initialized. intros st p Ht _. unfold progressed. cbn [fst snd].
  destruct (decide (FINALIZER_NAME ∈ Finalizers c)) as [Hin|Hno].
  2:{ apply served_stage_return. eapply served_mono; [by apply finalizer_added|]. intros c' r [-> ->]. done. }
  apply served_stage_done. eapply served_mono; [by apply finalizer_present|]. intros c' r [-> ->]. split; [done|]. cbn [fst snd].
  apply served_stage_done. eapply served_mono; [apply lookup_served|]. intros c' r [-> (infra & cs & ->)]. split; [done|]. cbn [fst snd].
  apply served_stage_done. eapply served_mono; [apply validate_served; [apply Ht|done]|]. intros c' r [-> (cs1 & ->)]. split; [done|]. cbn [fst snd].
  pose proof (schedule_served p infra (set_conds cs1 (set_conds cs st)) c (tracks_conds _ _ _ (tracks_conds _ _ _ Ht))) as Hs.
  destruct (unscheduled (res c)) eqn:Hu.
  - apply served_stage_requeue. eapply served_mono; [exact Hs|]. intros c' [st' r] [-> [-> (bs & cs2 & Hbs & ->)]].
    split; [done|]. split_and!; [done..|]. by left.
  - apply served_stage_done. eapply served_mono; [exact Hs|]. intros c' r [-> (cs2 & ->)]. split; [done|]. cbn [fst snd].
    apply served_stage_done. eapply served_mono; [apply synchronize_served|]. intros c' r [-> (cs3 & ->)]. split; [done|]. cbn [fst snd].
    eapply served_mono; [apply finish_served|]. intros c' r (_ & Hc & Hb). pose proof Hc as (? & ? & ? & _).
    split_and!; [done..|]. right. split_and!; [done|done|]. rewrite Hb. cbn. by rewrite (tr_brokers _ _ Ht).
Qed.
(** ** Reconciliations of an address that is being deleted *)

Lemma released_same c a items : same c a → released (res c) items → released a items.
Proof.
  intros Ha [H1 H2]. split; [rewrite <-H1|rewrite <-H2]; clear H1 H2; induction items as [|b items IH]; cbn; [done| |done|];
    rewrite IH; destruct (same_matches c a b Ha) as (_ & H1 & H2); by rewrite ?H1, ?H2.
Qed.

Lemma refuse_served matches msg st c :
  (∀ items, listed items → existsb (matches (res (current st))) items = false) →
  srv (refuse matches msg st) c (λ c' r, r = (st, None) ∧ c' = c).
Proof.
  intros Hm. unfold refuse, address. served_go. apply matchAny_served. intros items Hi. cbn [fst snd]. rewrite Hm by done. by served_go.
Qed.

Lemma deconstruct_served st c :
  (∀ items, listed items → released (res (current st)) items) →
  srv (deconstruct st) c (λ c' r, r = (st, (no_result, None)) ∧ c' = c).
Proof.
  intros Hr. unfold deconstruct, check_references, address. served_go. eapply served_mono; [apply LookupInfra_served|].
  intros c' [st' r] (-> & -> & project & infra & ->). cbn [fst snd]. served_go.
  eapply (served_mono _ _ _ _ (λ c' r, r = (st, None) ∧ c' = c)).
  - case_decide; [apply refuse_served, Hr|]. case_decide; [apply refuse_served, Hr|]. by served_go.
  - intros c' r' [-> ->]. cbn [fst snd]. served_go. by answered.
Qed.

(** First the phase changes, then the finalizer is removed. *)
Definition receded c c' : Prop :=
  a_meta (res c') = a_meta (res c) ∧ a_Spec (res c') = a_Spec (res c) ∧ DeletionTimestamp c' = DeletionTimestamp c ∧
  if decide (as_Phase (a_Status (res c)) = MessagingAddressTerminating)
  then Finalizers c' = filter (λ f, f ≠ FINALIZER_NAME) (Finalizers c)
  else Finalizers c' = Finalizers c ∧ as_Phase (a_Status (res c')) = MessagingAddressTerminating.

Lemma reconcile_deleted spare c :
  is_Some (DeletionTimestamp c) → FINALIZER_NAME ∈ Finalizers c → (∀ items, listed items → released (res c) items) →
  srv (reconcile grow (new_ctx c spare)) c (λ c' _, receded c c').
Proof.
  intros [t Hd] Hin Hr. unfold reconcile. apply initialized. intros st p Ht Hp. unfold receded.
  pose proof Ht as [Hm Hs Hdel Hf _]. destruct (decide (as_Phase (a_Status (res c)) = _)) as [Hph|Hph]; cbn [fst snd].
  - apply served_stage_return. unfold finalize, ProcessFinalizers. served_go. cbn [current DeletionTimestamp res].
    rewrite decide_False by (intros [_ Hno]; by apply Hno, Hp). served_go. rewrite Hdel, Hd, Hf. cbn [process_deletion f_Name Deconstruct].
    rewrite (proj2 (hasFinalizer_spec _ _) Hin). served_go. eapply served_mono; [apply deconstruct_served|].
    { intros items Hi. by apply (released_same c), Hr. }
    intros c' r' [-> ->]. cbn [fst snd]. change (negb _ && _) with true. cbn match. served_go. cbn [r_Requeue]. rewrite removeFinalizer_spec.
    eapply served_mono; [apply finalizers_written; [done|]|].
    + intros Heq. rewrite <-Heq in Hin. by apply list_elem_of_filter in Hin as [? _].
    + intros c' r [-> ->]. by split_and!.
  - apply served_stage_requeue. unfold finalize. served_go. cbn [current DeletionTimestamp res].
    rewrite decide_True by (split; [by rewrite Hdel, Hd|]; intros ?; by apply Hph, Hp). served_go. answered. by split_and!.
Qed.
End Address.

(** ** Repeated reconciliations *)

Section Repeated.
Context {W : Type} (handle : ∀ X, kube X → W → W * X) (cell : W → Resource MessagingAddress).
Context (listed : list MessagingAddress → Prop) (grow : nat → nat) (ns name : string).

(** A world that answers as it should: it stores and returns the address, whose project is
    bound, and no call fails. *)
Record undisturbed : Prop := {
  ud_serves : serves (address_good listed) address_stored handle cell;
  ud_get : ∀ w, ∃ spare, (handle _ (GetMessagingAddress ns name) w).2 = inr (cell w, spare);
}.

Definition reconciliations (n : nat) (w : W) : W :=
  Nat.iter n (λ w, (run handle (Reconcile grow ns name) w []).1.1) w.

Lemma reconciled_once w (P : Resource MessagingAddress → Resource MessagingAddress → Prop) :
  undisturbed →
  (∀ spare, served (address_good listed) address_stored (reconcile grow (new_ctx (cell w) spare)) (cell w) (λ c _, P (cell w) c)) →
  P (cell w) (cell (reconciliations 1 w)).
Proof.
  intros [Hs Hg] HP. cbn. destruct (Hg w) as [spare Hget]. destruct (Hs _ (GetMessagingAddress ns name) w) as [_ Hc].
  destruct (handle _ (GetMessagingAddress ns name) w) as [w1 x]. cbn [fst snd address_stored] in *. subst x. rewrite <-Hc in *.
  destruct (served_run _ _ handle cell (r ← reconcile grow (new_ctx (cell w1) spare); Ret r.2) w1
    [Ev (GetMessagingAddress ns name) (inr (cell w1, spare))] (λ c _, P (cell w1) c) Hs) as (w' & tr & r & Hrun & HQ).
  - apply served_bind. eapply served_mono; [apply HP|]. done.
  - change ([] ++ ?l) with l. by rewrite Hrun.
Qed.

Lemma reconciliations_S n w : reconciliations (S n) w = reconciliations 1 (reconciliations n w).
Proof. done. Qed.

(** What the first reconciliations establish, one after the other. *)
Record advanced (n : nat) (c0 c : Resource MessagingAddress) : Prop := {
  adv_meta : a_meta (res c) = a_meta (res c0);
  adv_spec : a_Spec (res c) = a_Spec (res c0);
  adv_deletion : DeletionTimestamp c = DeletionTimestamp c0;
  adv_finalizer : 1 ≤ n → FINALIZER_NAME ∈ Finalizers c;
  adv_scheduled : 2 ≤ n → unscheduled (res c) = false;
  adv_active : 3 ≤ n → as_Phase (a_Status (res c)) = MessagingAddressActive ∧ as_Message (a_Status (res c)) = "" ∧
    Forall (λ b, ab_State b = MessagingAddressBrokerActive) (as_Brokers (a_Status (res c)));
}.

Lemma progressed_scheduled c c' : progressed c c' → FINALIZER_NAME ∈ Finalizers c → unscheduled (res c') = false.
Proof.
  intros (_ & Hs & _ & H) Hin. rewrite decide_True in H by done. unfold unscheduled in *. rewrite Hs in *.
  destruct H as [(_ & Hb & _)|(_ & Hu & ->)]; [by rewrite bool_decide_eq_false_2|].
  by destruct (as_Brokers (a_Status (res c))).
Qed.

Lemma progressed_advanced n c0 c c' : advanced n c0 c → progressed c c' → advanced (S n) c0 c'.
Proof.
  intros [Hm Hs Hd Hf Hsch Ha] Hp. pose proof Hp as (Hm' & Hs' & Hd' & H). split; [congruence..| | |].
  - intros _. case_decide; [|subst c'; apply elem_of_app; right; by left].
    destruct H as [(-> & _)|((_ & _ & _ & -> & _) & _)]; done.
  - intros Hn. apply (progressed_scheduled c); [done|]. apply Hf. lia.
  - intros Hn. rewrite decide_True in H by (apply Hf; lia). rewrite Hsch in H by lia.
    destruct H as [(_ & _ & [=])|((_ & _ & _ & _ & Hph & Hmsg) & _ & ->)]. split_and!; [done..|]. by apply Forall_fmap, Forall_true.
Qed.

Lemma reconciliations_advanced n w :
  undisturbed → DeletionTimestamp (cell w) = None → needs_met listed (a_Spec (res (cell w))) →
  advanced n (cell w) (cell (reconciliations n w)).
Proof.
  intros Hu Hd Hn. induction n as [|n IH]; [by split; [..|lia|lia|lia]|]. rewrite reconciliations_S.
  eapply progressed_advanced; [exact IH|]. apply (reconciled_once _ progressed); [done|]. intros spare. apply reconcile_served.
  - by rewrite (adv_deletion _ _ _ IH).
  - by rewrite (adv_spec _ _ _ IH).
Qed.

Lemma reconciliations_deleted w :
  undisturbed → is_Some (DeletionTimestamp (cell w)) → FINALIZER_NAME ∈ Finalizers (cell w) →
  (∀ items, listed items → released (res (cell w)) items) →
  ∃ n, n ≤ 2 ∧ Finalizers (cell (reconciliations n w)) = filter (λ f, f ≠ FINALIZER_NAME) (Finalizers (cell w)).
Proof.
  intros Hu Hd Hin Hr. assert (receded (cell w) (cell (reconciliations 1 w))) as (Hm & Hs & Hdel & H).
  { apply (reconciled_once w receded); [done|]. intros spare. by apply reconcile_deleted. }
  case_decide; [exists 1; by split; [lia|]|]. destruct H as [Hf Hph]. exists 2. split; [lia|].
  assert (receded (cell (reconciliations 1 w)) (cell (reconciliations 1 (reconciliations 1 w)))) as (_ & _ & _ & H2).
  { apply (reconciled_once (reconciliations 1 w) receded); [done|]. intros spare. apply reconcile_deleted; [by rewrite Hdel|by rewrite Hf|].
    intros items Hi. apply (released_same (cell w)); [by split|by apply Hr]. }
  rewrite decide_True in H2 by done. by rewrite reconciliations_S, H2, Hf.
Qed.
End Repeated.

(** C40. When the API server stores what it is given, the project of the namespace is bound,
    the addresses an address refers to are there and no call of the client fails, then three
    reconciliations are enough: after them and after any further ones, the address has its
    finalizer, its phase is [Active] without a message, and all its brokers are active, with
    its metadata and specification as they were. When it is being deleted and no address
    refers to it, two reconciliations are enough to remove the finalizer, and no other. *)
Theorem address_converges {W} (handle : ∀ X, kube X → W → W * X) cell listed grow ns name w :
  undisturbed handle cell listed ns name →
  (DeletionTimestamp (cell w) = None → needs_met listed (a_Spec (res (cell w))) →
    ∀ n, 3 ≤ n → let c := cell (reconciliations handle grow ns name n w) in
      a_meta (res c) = a_meta (res (cell w)) ∧ a_Spec (res c) = a_Spec (res (cell w)) ∧ FINALIZER_NAME ∈ Finalizers c ∧
      as_Phase (a_Status (res c)) = MessagingAddressActive ∧ as_Message (a_Status (res c)) = "" ∧
      Forall (λ b, ab_State b = MessagingAddressBrokerActive) (as_Brokers (a_Status (res c)))) ∧
  (is_Some (DeletionTimestamp (cell w)) → FINALIZER_NAME ∈ Finalizers (cell w) →
    (∀ items, listed items → released (res (cell w)) items) →
    ∃ n, n ≤ 2 ∧ Finalizers (cell (reconciliations handle grow ns name n w)) = filter (λ f, f ≠ FINALIZER_NAME) (Finalizers (cell w))).
Proof.
  intros Hu. split.
  - intros Hd Hn n Hle. destruct (reconciliations_advanced handle cell listed grow ns name n w Hu Hd Hn) as [Hm Hs _ Hf _ Ha].
    destruct (Ha Hle) as (Hp & Hmsg & Hb). split_and!; [done|done|apply Hf; lia|done..].
  - intros Hd Hin Hr. by apply (reconciliations_deleted handle cell listed).
Qed.

(** ** A run *)

(** The simulated cluster, with an API server that stores the address. *)
Definition stored_sim (X : Type) (e : kube X) (c : Resource MessagingAddress) : Resource MessagingAddress * X :=
  let x := match e in kube T return T with GetMessagingAddress _ _ => inr (c, 0) | e => (sim _ e cluster).2 end in
  (address_stored (Ev e x) c, x).

(** A queue without brokers and finalizer, and one that is being deleted. *)
Definition new_queue : Resource MessagingAddress :=
  {| res := {| a_meta := sim_meta "app" "orders"; a_Spec := queue_spec "";
               a_Status := {| as_Phase := ""; as_Message := ""; as_Conditions := []; as_Brokers := []; as_Type := "" |} |};
     DeletionTimestamp := None; Finalizers := ["other"] |}.
Definition dying_queue : Resource MessagingAddress :=
  {| res := res new_queue; DeletionTimestamp := Some 1%Z; Finalizers := [FINALIZER_NAME; "other"] |}.

Lemma stored_sim_undisturbed : undisturbed stored_sim (λ c, c) (λ items, items = [res (cl_address cluster)]) "app" "orders".
Proof. split; [|by exists 0]. intros X e c. split; [|done]. by destruct e; cbn; eauto. Qed.

Lemma new_queue_needs_met : needs_met (λ items, items = [res (cl_address cluster)]) (queue_spec "").
Proof. split; [discriminate|]. intros items ->. by split_and!; intros q [= <-]. Qed.

Lemma dying_queue_released items : items = [res (cl_address cluster)] → released (res dying_queue) items.
Proof. by intros ->. Qed.

Lemma address_converges_witness :
  as_Phase (a_Status (res (reconciliations stored_sim Nat.double "app" "orders" 3 new_queue))) = MessagingAddressActive ∧
  ∃ n, n ≤ 2 ∧ Finalizers (reconciliations stored_sim Nat.double "app" "orders" n dying_queue) =
    filter (λ f, f ≠ FINALIZER_NAME) (Finalizers dying_queue).
Proof.
  split.
  - exact (proj1 (proj2 (proj2 (proj2 (proj1 (address_converges stored_sim (λ c, c) _ Nat.double _ _ new_queue stored_sim_undisturbed)
      eq_refl new_queue_needs_met 3 (le_n 3)))))).
  - exact (proj2 (address_converges stored_sim (λ c, c) _ Nat.double _ _ dying_queue stored_sim_undisturbed)
      (ex_intro _ 1%Z eq_refl) (list_elem_of_here _ _) dying_queue_released).
Defined.
