(* ===== verification/ControllerProps.v ===== *)
(** The properties of the messaging controllers and of the certificates they manage. *)
From stdpp Require Import base gmap sets strings list.
From S2P Require Import Prelude Client ApiV1 KubeObjects Conditions Reconcile Finalizer ControllerFacts Certs CertFacts.
From S2P Require Import AddressController AddressFacts ProjectController ProjectFacts EndpointController EndpointFacts.
From S2P Require Import InfraController InfraCtlFacts ControllerSim.

(** ** Reconciliations *)

(** A reconciliation of an object: what is said of it when there is no such object, and
    what it does otherwise. *)
Lemma run_reconcile {W X} (handle : ∀ T, kube T → W → W * T) (get : kube (ApiError + X)) (body : X → io kube (Result * option error))
    (ok : X → trace → event kube → Prop) (Q : X → trace → Result * option error → Prop) w :
  (∀ x, ok x [] (Ev get (inr x))) → (∀ x, wp (ok x) (body x) [Ev get (inr x)] (Q x)) →
  ∃ w' tr r, run handle (Vis get (λ r, match r with
      | inl err => if k8errors_IsNotFound (api_error err) then Ret (no_result, None) else Ret (no_result, Some (api_error err))
      | inr x => body x end)) w [] = (w', tr, Some r) ∧
    match (handle _ get w).2 with
    | inl err => tr = [Ev get (inl err)] ∧ r = (no_result, if k8errors_IsNotFound (api_error err) then None else Some (api_error err))
    | inr x => obeys (ok x) tr ∧ Q x tr r
    end.
Proof.
  intros Hget Hbody. cbn [run]. destruct (handle _ get w) as [w1 [err|x]]; cbn [snd].
  - destruct err; cbn; by eexists _, _, _.
  - destruct (wp_run handle (ok x) (body x) w1 ([] ++ [Ev get (inr x)]) (Q x)) as (w' & tr & r & H1 & H2 & H3).
    + apply Hbody.
    + apply obeys_snoc; [apply obeys_nil|apply Hget].
    + exists w', tr, r. by split_and!.
Qed.

Lemma wp_value {S A} ok (p : io kube (S * A)) tr Q :
  wp ok p tr (λ tr' r, Q tr' r.2) → wp ok (r ← p; Ret r.2) tr Q.
Proof. intros H. apply wp_bind. eapply wp_mono; [exact H|]. done. Qed.

(** What a reconciliation has done when it returns and is not called again by itself. *)
Definition not_called_again (r : Result * option error) : Prop :=
  r.2 = None ∧ r_Requeue r.1 = false ∧ (r_RequeueAfter r.1 <= 0)%Z.

(** C12. Whatever the API server and the clients of the infrastructures answer, a
    reconciliation of an address returns and does only what is allowed: the address is
    scheduled and configured only when it has its finalizer or is being deleted without it,
    with the infrastructure its project is bound to and when the addresses it refers to
    exist; its status becomes [Active] only
    after the client has confirmed it; it is deleted from the infrastructure only when it
    is being deleted and nothing refers to it; and the finalizer is removed only when that
    has succeeded or there is no project that is bound. A reconciliation that is not called
    again has written the finalizers or has reached an [Active] address. *)
Theorem address_reconciled {W} (handle : ∀ T, kube T → W → W * T) grow namespace name w :
  ∃ w' tr r, run handle (Reconcile grow namespace name) w [] = (w', tr, Some r) ∧
    match (handle _ (GetMessagingAddress namespace name) w).2 with
    | inl err => tr = [Ev (GetMessagingAddress namespace name) (inl err)] ∧
        r = (no_result, if k8errors_IsNotFound (api_error err) then None else Some (api_error err))
    | inr (found, _) => obeys (address_allowed found) tr ∧
        (not_called_again r → (∃ a, Ev (UpdateAddress a) None ∈ tr) ∨ address_reached found tr)
    end.
Proof.
  destruct (run_reconcile handle (GetMessagingAddress namespace name)
    (λ x, r ← reconcile grow (new_ctx x.1 x.2); Ret r.2) (λ x, address_allowed x.1)
    (λ x tr r, not_called_again r → (∃ a, Ev (UpdateAddress a) None ∈ tr) ∨ address_reached x.1 tr) w)
    as (w' & tr & r & H1 & H2).
  - done.
  - intros x. apply wp_value. eapply wp_mono; [apply (reconcile_wp x.1)|]. intros tr r H (He & Hq & Ha). by apply H.
  - exists w', tr, r. split.
    + rewrite <-H1. unfold Reconcile. cbn [run]. by destruct (handle _ _ w) as [w1 [err|[found spare]]].
    + by destruct (handle _ _ w).2 as [err|[found spare]].
Qed.

(** C13. Whatever is answered, a reconciliation of an endpoint returns and does only what
    is allowed: ports are allocated, objects stored and listeners configured only when the
    endpoint has its finalizer or is being deleted without it, and with the infrastructure
    its project is bound to; the service, route and
    ingress that are stored are made of the ones that exist and of the specification; the
    listeners are configured only after the service is stored and, when the endpoint has
    TLS, the secret of the routers holds a certificate with its key; the status of an
    endpoint that was not [Active] becomes [Active] only after that, with a host, while one
    that was found [Active] keeps this phase, also when it loses its host; objects are
    deleted only after the listeners; and the finalizer is removed only when there is no
    project that is bound, or the listeners, the key and the certificate in the secret of
    the routers, the ingress and the route, if the endpoint has them, and the service are
    all gone. A reconciliation that is not called again has written the finalizers or
    has reached an [Active] endpoint. *)
Theorem endpoint_reconciled `{HX : !X509} `{HL : !X509Laws} {W} (handle : ∀ T, kube T → W → W * T) grow namespace name w :
  ∃ w' tr r, run handle (ReconcileEndpoint grow namespace name) w [] = (w', tr, Some r) ∧
    match (handle _ (GetMessagingEndpoint namespace name) w).2 with
    | inl err => tr = [Ev (GetMessagingEndpoint namespace name) (inl err)] ∧
        r = (no_result, if k8errors_IsNotFound (api_error err) then None else Some (api_error err))
    | inr (found, _) => obeys (endpoint_allowed found) tr ∧
        (not_called_again r → (∃ e, Ev (UpdateEndpoint e) None ∈ tr) ∨ endpoint_reached found tr)
    end.
Proof.
  destruct (run_reconcile handle (GetMessagingEndpoint namespace name)
    (λ x, r ← reconcile_endpoint grow (new_ctx x.1 x.2); Ret r.2) (λ x, endpoint_allowed x.1)
    (λ x tr r, not_called_again r → (∃ e, Ev (UpdateEndpoint e) None ∈ tr) ∨ endpoint_reached x.1 tr) w)
    as (w' & tr & r & H1 & H2).
  - done.
  - intros x. apply wp_value. eapply wp_mono; [apply (reconcile_endpoint_wp x.1)|]. intros tr r H (He & Hq & Ha). by apply H.
  - exists w', tr, r. split.
    + rewrite <-H1. unfold ReconcileEndpoint. cbn [run]. by destruct (handle _ _ w) as [w1 [err|[found spare]]].
    + by destruct (handle _ _ w).2 as [err|[found spare]].
Qed.

(** C18. Whatever is answered, a reconciliation of a project returns and does only what is
    allowed: it is scheduled and configured only with the infrastructure it is bound to or
    has been given by [findBestMatch], which its status then refers to; its authority is
    stored only after that, renewed with the key it had; its status becomes [Active] only
    after both; it is deleted from the infrastructure only when it is being deleted and its
    namespace has no addresses and no endpoints; and the finalizer is removed only when
    that has succeeded or the project was never bound. A reconciliation that is not called
    again has written the finalizers or has reached an [Active] project. Projects of any
    other name than [default] are left alone. *)
Theorem project_reconciled `{HX : !X509} `{HL : !X509Laws} {W} (handle : ∀ T, kube T → W → W * T) grow namespace w :
  (∃ w' tr r, run handle (ReconcileProject grow namespace PROJECT_RESOURCE_NAME) w [] = (w', tr, Some r) ∧
    match (handle _ (GetMessagingProject namespace PROJECT_RESOURCE_NAME) w).2 with
    | inl err => tr = [Ev (GetMessagingProject namespace PROJECT_RESOURCE_NAME) (inl err)] ∧
        r = (no_result, if k8errors_IsNotFound (api_error err) then None else Some (api_error err))
    | inr (found, _) => obeys (project_allowed found) tr ∧
        (not_called_again r → (∃ p, Ev (UpdateProject p) None ∈ tr) ∨ project_reached found tr)
    end) ∧
  (∀ name, name ≠ PROJECT_RESOURCE_NAME → run handle (ReconcileProject grow namespace name) w [] = (w, [], Some (no_result, None))).
Proof.
  split; [|intros name Hn; unfold ReconcileProject; by rewrite decide_True].
  destruct (run_reconcile handle (GetMessagingProject namespace PROJECT_RESOURCE_NAME)
    (λ x, r ← reconcile_project grow (new_ctx x.1 x.2); Ret r.2) (λ x, project_allowed x.1)
    (λ x tr r, not_called_again r → (∃ p, Ev (UpdateProject p) None ∈ tr) ∨ project_reached x.1 tr) w)
    as (w' & tr & r & H1 & H2).
  - done.
  - intros x. apply wp_value. eapply wp_mono; [apply (reconcile_project_wp x.1)|]. intros tr r H (He & Hq & Ha). by apply H.
  - exists w', tr, r. split.
    + rewrite <-H1. unfold ReconcileProject. rewrite decide_False by tauto. cbn [run]. by destruct (handle _ _ w) as [w1 [err|[found spare]]].
    + by destruct (handle _ _ w).2 as [err|[found spare]].
Qed.

(** C23. Whatever is answered, a reconciliation of an infrastructure returns and does only
    what is allowed: the pods are reconciled only with the authority and the certificate of
    the operator stored; all is synchronized with exactly the routers and brokers that run,
    with that certificate and authority; the status of an infrastructure that was not
    [Active] becomes [Active] only when all pods run and the client has reported as many
    connections as there are pairs of a router and a broker, none of them down, so that
    every router is connected to every broker if each report is about another pair, while
    one that was found [Active] keeps this phase, also when pods fail; the client is deleted
    only when no project is bound to the infrastructure, and the finalizer is removed only
    after that. It is always called again, unless it has written the finalizers. *)
Theorem infra_reconciled `{HX : !X509} `{HL : !X509Laws} {W} (handle : ∀ T, kube T → W → W * T) grow namespace name w :
  ∃ w' tr r, run handle (ReconcileInfra grow namespace name) w [] = (w', tr, Some r) ∧
    match (handle _ (GetMessagingInfrastructure namespace name) w).2 with
    | inl err => tr = [Ev (GetMessagingInfrastructure namespace name) (inl err)] ∧
        r = (no_result, if k8errors_IsNotFound (api_error err) then None else Some (api_error err))
    | inr (found, _) => obeys (infra_allowed found) tr ∧
        (not_called_again r → ∃ i, Ev (UpdateInfrastructure i) None ∈ tr)
    end.
Proof.
  destruct (run_reconcile handle (GetMessagingInfrastructure namespace name)
    (λ x, r ← reconcile_infra grow (new_ctx x.1 x.2); Ret r.2) (λ x, infra_allowed x.1)
    (λ x tr r, not_called_again r → ∃ i, Ev (UpdateInfrastructure i) None ∈ tr) w)
    as (w' & tr & r & H1 & H2).
  - done.
  - intros x. apply wp_value. eapply wp_mono; [apply (reconcile_infra_wp x.1)|]. intros tr r H (He & Hq & Ha). by destruct H.
  - exists w', tr, r. split.
    + rewrite <-H1. unfold ReconcileInfra. cbn [run]. by destruct (handle _ _ w) as [w1 [err|[found spare]]].
    + by destruct (handle _ _ w).2 as [err|[found spare]].
Qed.

(** ** Certificates *)

(** The calls of a trace that read or compute. *)
Definition only_reads (tr : trace) (ev : event kube) : Prop := match ev with Ev e _ => reads_only e = true end.

Lemma only_reads_reads tr X (e : kube X) x : reads_only e = true → only_reads tr (Ev e x).
Proof. done. Qed.

Lemma seconds_bounds t : (t - Second < seconds t <= t)%Z.
Proof. unfold seconds. pose proof (Z.div_mod t Second ltac:(done)). pose proof (Z.mod_pos_bound t Second ltac:(done)). lia. Qed.

(** What [applyCertSecret] makes sure of, for a controller whose certificates live for at
    least two hours. *)
Lemma applied_current `{HX : !X509} `{HL : !X509Laws} c secret caSecret config commonName dnsNames now secret' info :
  applied c secret caSecret config commonName dnsNames now secret' info → (2 * Hour <= certExpirationTime c)%Z →
  ∃ cert caExpiry, getCertExpiryDate (data caSecret "tls.crt") = inr caExpiry ∧ holds config secret' cert ∧
    digest_of secret' = getDigest (data caSecret "tls.crt") ∧ is_Some (Data secret' !! cfg_key config) ∧
    (now + Hour <= NotAfter cert ∨ NotAfter cert = seconds caExpiry)%Z ∧
    (∀ k, is_Some (data secret (cfg_key config)) → parsePemKey (data secret (cfg_key config)) = inr k →
      parsePemKey (data secret' (cfg_key config)) = inr k).
Proof.
  intros (cert & caExpiry & Hca & H) Hexp. exists cert, caExpiry. split; [done|].
  destruct H as [(Hkey & Hd & _ & Hh & Hdig & Hnow & _)|(Hren & _ & _)].
  - split_and!; [done|done|by rewrite Hd|by left|]. intros k _ Hk. unfold data in *. by rewrite Hd.
  - destruct Hren as [(k & n & Hkeeps & _ & Hkey & _) (serial & _ & Hcert) Hh Hk' Hdig _ _].
    split_and!; [done|done|done| |].
    + rewrite Hcert. unfold encoded. cbn [NotAfter]. destruct (has_key (cfg_key config) secret); [|left; pose proof (seconds_bounds (now + certExpirationTime c)); unfold Hour, Second in *; lia].
      destruct (Z.min_spec caExpiry (now + certExpirationTime c)) as [[? ->]|[? ->]]; [by right|].
      left. pose proof (seconds_bounds (now + certExpirationTime c)). unfold Hour, Second in *. lia.
    + intros k' [p Hp] Hk2. destruct Hkeeps as [Hnone|Hk3]; [congruence|]. rewrite Hkey, parse_encoded_key. congruence.
Qed.

(** C30. [applyCertSecret] returns whatever is answered and changes nothing but the secret
    it is given. When it succeeds, the secret holds a certificate and the key it goes with,
    and the digest of the authority; the certificate is valid for another hour, or expires
    with the authority; and the key the secret had is kept. The key and the certificate have
    entries of their own in the secret, and certificates are issued for two hours at least. *)
Theorem certificate_current `{HX : !X509} `{HL : !X509Laws} {W} (handle : ∀ T, kube T → W → W * T) c secret caSecret config commonName dnsNames w :
  separate config → (2 * Hour <= certExpirationTime c)%Z →
  ∃ w' tr r, run handle (applyCertSecret c secret caSecret config commonName dnsNames ()) w [] = (w', tr, Some ((), r)) ∧
    obeys only_reads tr ∧
    ∀ secret' info, r = inr (secret', info) → ∃ now cert caExpiry, Ev Now now ∈ tr ∧
      getCertExpiryDate (data caSecret "tls.crt") = inr caExpiry ∧ holds config secret' cert ∧
      digest_of secret' = getDigest (data caSecret "tls.crt") ∧
      (now + Hour <= NotAfter cert ∨ NotAfter cert = seconds caExpiry)%Z ∧
      (∀ k, is_Some (data secret (cfg_key config)) → parsePemKey (data secret (cfg_key config)) = inr k →
        parsePemKey (data secret' (cfg_key config)) = inr k).
Proof.
  intros Hsep Hexp.
  destruct (wp_run handle only_reads (applyCertSecret c secret caSecret config commonName dnsNames ()) w []
    (λ tr r, ∀ secret' info, r.2 = inr (secret', info) → ∃ now, Ev Now now ∈ tr ∧ applied c secret caSecret config commonName dnsNames now secret' info))
    as (w' & tr & [[] r] & H1 & H2 & H3).
  - apply (applyCertSecret_wp _ only_reads_reads); [done|]. intros new r Hr secret' info Heq. destruct (Hr _ _ Heq) as (now & Hnow & Ha).
    exists now. split; [|done]. exact Hnow.
  - apply obeys_nil.
  - exists w', tr, r. split_and!; [done|done|]. intros secret' info Hr. destruct (H2 _ _ Hr) as (now & Hnow & Ha).
    destruct (applied_current _ _ _ _ _ _ _ _ _ Ha Hexp) as (cert & caExpiry & K1 & K2 & K3 & _ & K4 & K5). by exists now, cert, caExpiry.
Qed.

(** C33. What [applyCertSecret] has left is not touched again: as long as the certificate
    is valid for another hour and the authority is the same, looking at it again, for
    whatever name, asks for the time and returns the secret with its default labels. *)
Theorem certificate_stable `{HX : !X509} `{HL : !X509Laws} {W} (handle : ∀ T, kube T → W → W * T) c secret caSecret config commonName dnsNames w w' tr secret' info :
  separate config → (2 * Hour <= certExpirationTime c)%Z →
  run handle (applyCertSecret c secret caSecret config commonName dnsNames ()) w [] = (w', tr, Some ((), inr (secret', info))) →
  ∃ cert, holds config secret' cert ∧ ∀ now name names, (now + Hour <= NotAfter cert)%Z →
    ∃ k info', applyCertSecret c secret' caSecret config name names () = Vis Now k ∧
      k now = Ret ((), inr (ApplyDefaultLabels "" (sec_Name secret') secret', info')) ∧ ci_NotAfter info' = NotAfter cert.
Proof.
  intros Hsep Hexp Hrun.
  destruct (wp_run handle only_reads (applyCertSecret c secret caSecret config commonName dnsNames ()) w []
    (λ tr r, ∀ secret' info, r.2 = inr (secret', info) → ∃ now, applied c secret caSecret config commonName dnsNames now secret' info))
    as (w2 & tr2 & [[] r] & H1 & H2 & H3).
  - apply (applyCertSecret_wp _ only_reads_reads); [done|]. intros new r Hr s i Heq. destruct (Hr _ _ Heq) as (now & _ & Ha). by exists now.
  - apply obeys_nil.
  - rewrite Hrun in H1. injection H1 as <- <- <-. destruct (H2 _ _ eq_refl) as (now & Ha).
    destruct (applied_current _ _ _ _ _ _ _ _ _ Ha Hexp) as (cert & caExpiry & K1 & K2 & K3 & K4 & _). exists cert. split; [done|].
    intros now' name names' Hnow. by eapply applyCertSecret_again.
Qed.

(** What is written to the secret that the endpoints share, given what was read of it. *)
Definition shared_writes (infra : MessagingInfrastructure) (P : Secret → Secret → Prop) (tr : trace) (ev : event kube) : Prop :=
  match ev with
  | Ev e _ =>
      match e with
      | UpdateObject k ns name o =>
          ns = Namespace (i_meta infra) ∧ name = GetProjectSecretName (Name (i_meta infra)) ∧
          match k in okind T return T → Prop with
          | SecretKind => λ secret', ∃ secret, shared infra secret tr ∧ P secret secret'
          | _ => λ _, False
          end o
      | e => reads_only e = true
      end
  end.

Lemma shared_writes_reads infra P tr X (e : kube X) x : reads_only e = true → shared_writes infra P tr (Ev e x).
Proof. by destruct e. Qed.

Lemma run_obeys {W A} (handle : ∀ T, kube T → W → W * T) ok (p : io kube A) w :
  wp ok p [] (λ _ _, True) → ∃ w' tr r, run handle p w [] = (w', tr, Some r) ∧ obeys ok tr.
Proof. intros H. destruct (wp_run handle ok p w [] _ H) as (w' & tr & r & H1 & _ & H2); [apply obeys_nil|]. by exists w', tr, r. Qed.

(** C34. The certificates of endpoints share one secret. A certificate that is given and
    the deletion of an endpoint change the two entries of the endpoint and keep all others,
    but a certificate that the controller issues or renews removes every other entry of the
    secret, hence the certificates of all other endpoints. *)
Theorem endpoint_certificates_dropped `{HX : !X509} `{HL : !X509Laws} {W} (handle : ∀ T, kube T → W → W * T) c infra e key value w :
  (∃ w' tr r, run handle (ReconcileEndpointCert c infra e ()) w [] = (w', tr, Some r) ∧
    obeys (shared_writes infra (λ _ secret', ∀ k, k ∉ entries e → Data secret' !! k = None)) tr) ∧
  (∃ w' tr r, run handle (ReconcileEndpointCertFromValues infra e key value ()) w [] = (w', tr, Some r) ∧
    obeys (shared_writes infra (λ secret secret', data secret' (cfg_key (endpoint_config e)) = key ∧ data secret' (cfg_crt (endpoint_config e)) = value ∧
      ∀ k, k ∉ entries e → Data secret' !! k = Data secret !! k)) tr) ∧
  (∃ w' tr r, run handle (DeleteEndpointCert infra e ()) w [] = (w', tr, Some r) ∧
    obeys (shared_writes infra (λ secret secret', ∀ k, Data secret' !! k = if decide (k ∈ entries e) then None else Data secret !! k)) tr).
Proof.
  split_and!.
  - apply run_obeys, (ReconcileEndpointCert_wp _ (shared_writes_reads infra _)); [|done].
    intros new secret caSecret now secret' info x Hsh (cert & caExpiry & _ & [(_ & Heq & _)|(Hren & _)]) Hne; [congruence|].
    split_and!; [done|done|]. exists secret. split; [done|]. intros k Hk. apply (renewed_others _ _ _ _ _ _ _ _ Hren).
    destruct (decide (k = "")); [by left|]. right. unfold entries, names in *. rewrite !not_elem_of_cons in *. naive_solver.
  - apply run_obeys, (FromValues_wp _ (shared_writes_reads infra _)); [|done].
    intros new secret secret' x Hsh Hk Hkey Hval. split_and!; [done|done|]. by exists secret.
  - apply run_obeys, (DeleteEndpointCert_wp _ (shared_writes_reads infra _)); [|done].
    intros new secret secret' x Hsh Hk Hd. split_and!; [done|done|]. exists secret. split; [done|]. intros k. case_decide; [by apply Hd|by apply Hk].
Qed.

(** ** The choice of an infrastructure *)

(** [findBestMatch] finds an infrastructure exactly when an active one serves the
    namespace, but what it returns is the last infrastructure of the list, whether that one
    is active and serves the namespace or not: the pointer it keeps is to the variable of
    the loop. *)
Theorem best_match_is_last namespace infras :
  findBestMatch namespace infras = (if existsb (serves namespace) infras then last infras else None) ∧
  ∀ infra, is_active infra = false → existsb (serves namespace) infras = true →
    findBestMatch namespace (infras ++ [infra]) = Some infra.
Proof.
  split; [apply findBestMatch_last|]. intros infra Ha Hs. rewrite findBestMatch_last, existsb_app, Hs. cbn [orb]. by rewrite last_snoc.
Qed.

(** ** The service of an endpoint *)

(** C38. The service of an endpoint has a port for each internal port of a known protocol;
    the ports it had are as they were, and the ports that are added have new names and the
    internal port as their target. Making the service again changes nothing. *)
Theorem endpoint_service_settles infra e service :
  endpoint_service infra e (endpoint_service infra e service) = endpoint_service infra e service ∧
  ∃ new, s_Ports (endpoint_service infra e service) = s_Ports service ++ new ∧
    (∀ sp, sp ∈ new → sp_Name sp ∉ port_names (s_Ports service) ∧
      ∃ ip port, ip ∈ InternalPorts e ∧ service_port (p_Protocol ip) = Some port ∧ sp = new_port ip port) ∧
    (∀ ip, ip ∈ InternalPorts e → is_Some (service_port (p_Protocol ip)) →
      protocolToPortName (p_Protocol ip) ∈ port_names (s_Ports (endpoint_service infra e service))).
Proof.
  split; [apply endpoint_service_again|]. destruct (service_ports_kept (InternalPorts e) (s_Ports service)) as (new & Hp & Hnew & Hall).
  exists new. unfold endpoint_service. cbn [s_Ports ApplyServiceDefaults]. rewrite Hp. by split_and!.
Qed.

(** The port of secure WebSockets. *)
Lemma websocket_port_is_433 : service_port MessagingProtocolAMQPWSS = Some 433%Z ∧ p_Port (ingress_port MessagingProtocolAMQPWSS) = 443%Z.
Proof. done. Qed.

(** ** Errors that are mistaken *)

(** When the namespace of an address has no project, the controller looks for the
    error of the API server, but [LookupInfra] returns an error of its own: the condition
    [FoundProject] is set to true, and the error that the project is missing is returned
    and neither reported in the message nor tried again after a while. *)
Theorem missing_project_reported_found p st :
  let ns := Namespace (a_meta (res (current st))) in
  ∃ k, lookup p st = Vis (GetMessagingProject ns PROJECT_RESOURCE_NAME) k ∧
    ∀ msg, ∃ k', k (inl (ApiNotFound msg)) = Vis Now k' ∧
      ∀ now, k' now = Ret (set_conds (SetStatus now ConditionTrue "" "" (foundProject p) (conds st).1, (conds st).2) st,
        (done_, Some (NotFoundError "MessagingProject" PROJECT_RESOURCE_NAME ns), None)).
Proof. eexists. split; [reflexivity|]. intros msg. eexists. split; [reflexivity|]. reflexivity. Qed.

(** ** Runs *)

(** The cluster once the authority of the project is there. *)
Definition with_authority : SimCluster := (run sim (ReconcileProject Nat.double "app" "default") cluster []).1.1.

Lemma done_not_called_again : not_called_again (no_result, None).
Proof. by split_and!. Qed.

(** An endpoint is reconciled. *)
Lemma endpoint_reconciled_witness :
  ∃ tr, (run sim (ReconcileEndpoint Nat.double "app" "messaging") with_authority []).1.2 = tr ∧
    obeys (endpoint_allowed (cl_endpoint with_authority)) tr ∧
    ((∃ e, Ev (UpdateEndpoint e) None ∈ tr) ∨ endpoint_reached (cl_endpoint with_authority) tr).
Proof.
  destruct (endpoint_reconciled sim Nat.double "app" "messaging" with_authority) as (w' & tr & r & H1 & H2 & H3).
  assert ((run sim (ReconcileEndpoint Nat.double "app" "messaging") with_authority []).2 = Some (no_result, None)) as Hr by (by vm_compute).
  rewrite H1 in Hr |- *. injection Hr as Hr. exists tr. split; [reflexivity|]. split; [exact H2|]. apply H3. rewrite Hr. exact done_not_called_again.
Defined.

(** A project is reconciled, and one of another name is not. *)
Lemma project_reconciled_witness :
  (∃ tr, (run sim (ReconcileProject Nat.double "app" "default") cluster []).1.2 = tr ∧
    obeys (project_allowed (cl_project cluster)) tr ∧
    ((∃ p, Ev (UpdateProject p) None ∈ tr) ∨ project_reached (cl_project cluster) tr)) ∧
  run sim (ReconcileProject Nat.double "app" "other") cluster [] = (cluster, [], Some (no_result, None)).
Proof.
  destruct (project_reconciled sim Nat.double "app" cluster) as [(w' & tr & r & H1 & H2 & H3) Hother].
  split; [|exact (Hother "other" ltac:(done))].
  assert ((run sim (ReconcileProject Nat.double "app" "default") cluster []).2 = Some (no_result, None)) as Hr by (by vm_compute).
  change "default" with PROJECT_RESOURCE_NAME in *.
  rewrite H1 in Hr |- *. injection Hr as Hr. exists tr. split; [reflexivity|]. split; [exact H2|]. apply H3. rewrite Hr. exact done_not_called_again.
Defined.

(** An infrastructure is reconciled. *)
Lemma infra_reconciled_witness :
  ∃ tr, (run sim (ReconcileInfra Nat.double "infra" "default-infra") cluster []).1.2 = tr ∧ obeys (infra_allowed (cl_infra cluster)) tr.
Proof.
  destruct (infra_reconciled sim Nat.double "infra" "default-infra" cluster) as (w' & tr & r & H1 & H2 & _).
  rewrite H1. exists tr. split; [reflexivity|]. exact H2.
Defined.

(** The authority that was issued for the project. *)
Definition the_authority : Secret := default (new_secret "") (cl_secrets with_authority !! "app-project-ca").
Definition shared_config : certConfig := endpoint_config (an_endpoint "messaging" "").

(** A certificate is issued. *)
Definition issued_secret : Secret * CertInfo :=
  match (run sim (applyCertSecret certController (new_secret "s") the_authority shared_config "host" ["host"] ()) with_authority []).2 with
  | Some (_, inr r) => r
  | _ => (new_secret "", {| ci_Certificate := (None, None); ci_NotBefore := 0; ci_NotAfter := 0 |})
  end.

Lemma issued_secret_run :
  (run sim (applyCertSecret certController (new_secret "s") the_authority shared_config "host" ["host"] ()) with_authority []).2 =
  Some ((), inr issued_secret).
Proof. by vm_compute. Qed.

Lemma certificate_current_witness :
  ∃ now cert, holds shared_config issued_secret.1 cert ∧ digest_of issued_secret.1 = getDigest (data the_authority "tls.crt") ∧
    ∃ caExpiry, (now + Hour <= NotAfter cert ∨ NotAfter cert = seconds caExpiry)%Z.
Proof.
  destruct (certificate_current sim certController (new_secret "s") the_authority shared_config "host" ["host"] with_authority)
    as (w' & tr & r & H1 & _ & H3); [apply endpoint_config_separate|done|].
  pose proof issued_secret_run as Hr. rewrite H1 in Hr. injection Hr as Hr. destruct issued_secret as [secret' info].
  destruct (H3 _ _ Hr) as (now & cert & caExpiry & _ & _ & K1 & K2 & K3 & _). exists now, cert. split; [exact K1|]. split; [exact K2|].
  exists caExpiry. exact K3.
Defined.

Lemma certificate_stable_witness :
  ∃ cert, holds shared_config issued_secret.1 cert ∧ ∀ now name names, (now + Hour <= NotAfter cert)%Z →
    ∃ k info', applyCertSecret certController issued_secret.1 the_authority shared_config name names () = Vis Now k ∧
      k now = Ret ((), inr (ApplyDefaultLabels "" (sec_Name issued_secret.1) issued_secret.1, info')) ∧ ci_NotAfter info' = NotAfter cert.
Proof.
  pose proof issued_secret_run as Hr.
  destruct (run sim (applyCertSecret certController (new_secret "s") the_authority shared_config "host" ["host"] ()) with_authority [])
    as [[w' tr] r] eqn:Hrun. cbn [snd] in Hr. subst r. rewrite (surjective_pairing issued_secret) in Hrun.
  exact (certificate_stable sim certController (new_secret "s") the_authority shared_config "host" ["host"] with_authority w' tr _ _
    (endpoint_config_separate _) ltac:(done) Hrun).
Defined.

Lemma endpoint_certificates_dropped_witness :
  ∃ w' tr r, run sim (ReconcileEndpointCert certController (res (cl_infra cluster)) (an_endpoint "second" "") ()) with_authority [] = (w', tr, Some r) ∧
    obeys (shared_writes (res (cl_infra cluster)) (λ _ secret', ∀ k, k ∉ entries (an_endpoint "second" "") → Data secret' !! k = None)) tr.
Proof.
  destruct (endpoint_certificates_dropped sim certController (res (cl_infra cluster)) (an_endpoint "second" "") None None with_authority) as [H _].
  exact H.
Defined.

Lemma best_match_is_last_witness :
  findBestMatch "app" [an_infra "first" MessagingInfrastructureActive (Some ["app"]); an_infra "second" "Configuring" None] =
  Some (an_infra "second" "Configuring" None).
Proof.
  destruct (best_match_is_last "app" [an_infra "first" MessagingInfrastructureActive (Some ["app"])]) as [_ H]. apply H; reflexivity.
Defined.

(** The certificate of the second endpoint removes that of the first. *)
Lemma second_endpoint_drops_first :
  let certs e w := (run sim (ReconcileEndpointCert certController (res (cl_infra cluster)) (an_endpoint e "") ()) w []).1.1 in
  let shared w e := match cl_secrets w !! "default-infra.project-certs" with
                    | Some s => bool_decide (is_Some (data s (cfg_crt (endpoint_config (an_endpoint e ""))))) | None => false end in
  let w1 := certs "first" with_authority in
  let w2 := certs "second" w1 in
  (shared w1 "first", shared w2 "first", shared w2 "second") = (true, false, true).
Proof. by vm_compute. Qed.

(** A first certificate may outlive the authority. *)
Lemma certificate_outlives_authority :
  let late := {| cl_clock := cl_clock cluster + (24 * 30 - 2) * Hour; cl_address := cl_address cluster; cl_endpoint := cl_endpoint cluster;
                 cl_project := cl_project cluster; cl_infra := cl_infra cluster; cl_secrets := cl_secrets with_authority |} in
  match (run sim (applyCertSecret certController (new_secret "s") the_authority shared_config "host" ["host"] ()) late []).2,
        getCertExpiryDate (data the_authority "tls.crt") with
  | Some (_, inr (_, info)), inr caExpiry => (caExpiry <? ci_NotAfter info)%Z = true
  | _, _ => False
  end.
Proof. by vm_compute. Qed.

(** The requests to configure an address, and the phases that are written. *)
Definition is_sync_address (ev : event kube) : bool := match ev with Ev e _ => match e with SyncAddress _ _ => true | _ => false end end.
Definition address_phase (ev : event kube) : option string :=
  match ev with Ev e _ => match e with UpdateAddressStatus a => Some (as_Phase (a_Status (res a))) | _ => None end end.

(** An address that is being deleted and has lost the finalizer of the operator, but not
    another one, is configured again and becomes [Active]. *)
Lemma deleted_address_configured :
  let w := {| cl_clock := cl_clock cluster;
              cl_address := {| res := an_address MessagingAddressTerminating (queue_spec ""); DeletionTimestamp := Some 1%Z; Finalizers := ["other"] |};
              cl_endpoint := cl_endpoint cluster; cl_project := cl_project cluster; cl_infra := cl_infra cluster; cl_secrets := ∅ |} in
  let tr := (run sim (Reconcile Nat.double "app" "orders") w []).1.2 in
  existsb is_sync_address tr = true ∧ omap address_phase tr = [MessagingAddressActive].
Proof. vm_compute. by split. Qed.

(** The statuses of endpoints that are written. *)
Definition endpoint_statuses (ev : event kube) : option MessagingEndpointStatus :=
  match ev with Ev e _ => match e with UpdateEndpointStatus e => Some (e_Status (res e)) | _ => None end end.

(** The condition that TLS is configured is set before the endpoint has a host and hence a
    certificate. *)
Lemma tls_configured_without_host :
  let e := an_endpoint "messaging" "" in
  let spec := e_Spec e in
  let balanced := {| e_meta := e_meta e;
    e_Spec := {| Tls := Tls spec; Annotations := ∅; es_Protocols := es_Protocols spec; es_Host := None; Cluster := None; Ingress := None;
                 Route := None; NodePort := None; LoadBalancer := Some () |};
    e_Status := e_Status e |} in
  let w := {| cl_clock := cl_clock cluster; cl_address := cl_address cluster; cl_endpoint := alive balanced;
              cl_project := cl_project cluster; cl_infra := cl_infra cluster; cl_secrets := cl_secrets with_authority |} in
  let r := run sim (ReconcileEndpoint Nat.double "app" "messaging") w [] in
  r.2 = Some ({| r_Requeue := false; r_RequeueAfter := 5 * Second |}, None) ∧
  ((λ s, (es_StatusHost s, es_Tls s, c_Status <$> filter (λ c, c_Type c = MessagingEndpointConfiguredTls) (es_Conditions s))) <$>
    omap endpoint_statuses r.1.2) = [("", None, [ConditionTrue])].
Proof. vm_compute. by split. Qed.
