(* ===== verification/PodProps.v ===== *)
(** The theorems on the pods of routers and brokers, and on the controller of
    infrastructures together with the controllers of its pods, with a simulated cluster
    in which they run. *)
From stdpp Require Import base gmap sets strings list.
From S2P Require Import Prelude Go GoStrings Client ApiV1 KubeObjects Workloads Conditions Reconcile ControllerFacts Certs CertFacts.
From S2P Require Import InfraController InfraCtlFacts BrokerController RouterController PodFacts Composition.
From S2P Require Import ControllerSim ControllerProps.

(** C29. Whatever is answered, a reconciliation of the brokers of an infrastructure returns,
    provided that the table of images can be loaded. It does only what is allowed: a set, a
    service and a certificate are stored for the brokers that exist and for those that are
    missing, made of the objects that exist; a set is deleted only right after the client
    has let go of its broker, never the first, and never more than there are too many. When
    it succeeds, all wanted brokers have their objects, as many as are too many are gone,
    and the hosts are exactly the others. If no two of the brokers have the same host, there
    are as many as the strategy asks for, which is never none once there are brokers. *)
Theorem pool_reconciled `{HX : !X509} `{HL : !X509Laws} `{HP : !Process_} `{HS : !Sched} {W} (handle : ∀ T, kube T → W → W * T) t infra w :
  lazyLoadImageMap ≠ Panic →
  ∃ w' tr r, run handle (value (reconcile_brokers t infra)) w [] = (w', tr, Some (setDefaultBrokerScalingStrategy (i_Broker infra), r)) ∧
    obeys (pool_allowed (with_brokers infra) t (broker_strategy infra)) tr ∧
    ∀ hosts, r = inr hosts → ∃ sets, pool_done (with_brokers infra) t (broker_strategy infra) sets hosts tr ∧
      ∀ size, broker_strategy infra = Some size → (0 <= size)%Z →
        NoDup (toHost <$> pool_brokers (with_brokers infra) t (broker_strategy infra) sets) →
        Z.of_nat (length hosts) = size ∧ (sets ≠ [] → (1 <= size)%Z).
Proof.
  intros Himages. destruct (brokers_run Himages t handle infra w) as (w' & tr & [spec r] & Hrun & Hspec & Hob & Hdone).
  cbn [fst snd] in *. subst spec. exists w', tr, r. split_and!; [done|done|]. intros hosts Hr.
  destruct (Hdone _ Hr) as [sets Hsets]. exists sets. split; [done|]. intros size Hs Hnn Hnd. by eapply pool_size.
Qed.

(** A pod is found for the host of a broker exactly when it is the pod of that broker,
    provided that the names of all brokers are equally long, as those that are generated
    are: the comparison of the beginning of the host with the name of the pod matches no
    other. *)
Theorem broker_pod_found (brokers : list ObjectMeta) pods b n :
  Forall (λ b, String.length (Name b) = n) brokers → Forall (λ pod, ∃ b', b' ∈ brokers ∧ pod_Name pod = toNamespacedHost b') pods → b ∈ brokers →
  pod_of pods (toHost b) = {| Hostname := toHost b;
    Ip := first_ip (find (λ pod, reachable pod && bool_decide (pod_Name pod = toNamespacedHost b)) pods) |}.
Proof.
  intros Hlen Hpods Hb. unfold pod_of. f_equal. unfold first_ip. rewrite Forall_forall in Hlen. rewrite Forall_forall in Hpods.
  erewrite find_ext_in; [done|]. intros pod Hpod. destruct (Hpods pod Hpod) as (b' & Hb' & ->). unfold reachable. f_equal.
  rewrite pod_of_one_host by (by rewrite !Hlen). apply bool_decide_ext. unfold toNamespacedHost. split; [by intros ->|].
  intros H. symmetry. apply (append_same_length _ _ "-0" "-0"); [by rewrite !Hlen|done].
Qed.

(** C35. Whatever is answered, a reconciliation of the routers of an infrastructure returns,
    provided that the table of images can be loaded, or panics on a pod without
    annotations. It does only what is allowed: the configuration is stored as generated,
    of the secret with the certificates of the endpoints only the owners change, the set is
    made of the one that exists, the services select the pods of the set, the certificate is
    signed by the authority, and pods get the digest of the certificates if they have
    another. When it succeeds all pods have the digest, and the hosts are as many as the
    strategy asks for, all different, each with the IP of its own pod if that runs. *)
Theorem routers_reconciled `{HX : !X509} `{HL : !X509Laws} `{HP : !Process_} {W} (handle : ∀ T, kube T → W → W * T) infra w :
  lazyLoadImageMap ≠ Panic →
  ∃ w' tr r, run handle (value (reconcile_routers infra)) w [] = (w', tr, r) ∧
    match r with
    | Some (spec, r) => spec = setDefaultRouterScalingStrategy (i_Router infra) ∧
        obeys (router_allowed (with_routers infra) (router_strategy infra)) tr ∧
        ∀ hosts, r = inr hosts → routers_done (with_routers infra) (router_strategy infra) hosts tr ∧
          length hosts = Z.to_nat (default 1%Z (router_strategy infra)) ∧ NoDup (Hostname <$> hosts) ∧
          ∃ pods, pods_found (with_routers infra) pods tr ∧
            ∀ i h, hosts !! i = Some h → let pod := getRouterInfraName infra +:+ "-" +:+ fmt_d (Z.of_nat i) in
              Ip h = first_ip (find (λ p, reachable p && bool_decide (pod_Name p = pod)) pods)
    | None => bare_pod (with_routers infra) tr
    end.
Proof.
  intros Himages. destruct (routers_run (HS := sched_id) Himages [] handle infra w) as (w' & tr & [[spec r]|] & Hrun & H); [|by exists w', tr, None].
  destruct H as (Hspec & Hob & Hdone). exists w', tr, (Some (spec, r)). split_and!; [done..|]. intros hosts Hr. pose proof (Hdone _ Hr) as Hd.
  split; [done|]. destruct Hd as (secret & pods & _ & Hpods & _ & _ & ->). split_and!; [by rewrite length_fmap, length_seq|apply routers_distinct|].
  exists pods. split; [done|]. intros i h Hi. apply list_lookup_fmap_Some in Hi as (j & -> & Hj). apply lookup_seq in Hj as [-> _].
  by rewrite router_host_ip.
Qed.

(** C36. The sets of brokers and routers settle: what is made of a set that was made, with
    the same owners, is that set, so that a further reconciliation changes nothing; and a
    set of routers has the replicas that the strategy asks for, or one. *)
Theorem workloads_settle `{HP : !Process_} infra owners set set' :
  (∀ name, broker_statefulset infra name owners set = Ok set' → broker_statefulset infra name owners set' = Ok set') ∧
  (∀ strategy sha, router_statefulset infra strategy sha owners set = Ok set' →
    router_statefulset infra strategy sha owners set' = Ok set' ∧ ss_Replicas set' = Some (default 1%Z strategy)).
Proof.
  split; [intros name; apply broker_statefulset_again|]. intros strategy sha H. split; [by eapply router_statefulset_again|by eapply router_replicas].
Qed.

(** ** Infrastructures with their pods *)

(** The pods below: the routers and brokers that were reconciled in what was done, all of
    them run, and the client has reported as many connections as there are pairs of them,
    none of them down: so, if each report is about another pair, every router is connected
    to every broker. *)
Definition connected_pods `{HX : !X509} `{HP : !Process_} `{HS : !Sched} (t : Go.tick) (found : Resource MessagingInfrastructure) (tr : trace) : Prop :=
  ∃ i1 i2 routers brokers sub1 sub2 sets,
    same_infra found i1 ∧ routers_done (with_routers i1) (router_strategy i1) routers sub1 ∧ sub1 ⊆ tr ∧
    same_infra found i2 ∧ pool_done (with_brokers i2) t (broker_strategy i2) sets brokers sub2 ∧ sub2 ⊆ tr ∧
    Forall (λ h, is_running h = true) (routers ++ brokers) ∧
    ∃ i certificate ca statuses, same_infra found i ∧ Ev (SyncAll i routers brokers certificate ca) (statuses, None) ∈ tr ∧
      length statuses = length routers * length brokers ∧ Forall (λ s, cs_Connected s = true) statuses ∧
      (of_pairs routers brokers statuses → each_connected routers brokers statuses).

Lemma fully_connected_below `{HX : !X509} `{HP : !Process_} `{HS : !Sched} t found pre tr tr' :
  fully_connected found pre → pre ⊆ tr → realized (pods_promise t) tr tr' → connected_pods t found tr'.
Proof.
  intros (routers & brokers & i & certificate & ca & statuses & Hpods & Hrun & Hi & Hsync & Hlen & Hcon & Hall) Hpre Hreal.
  destruct Hpods as [(i1 & spec1 & Hi1 & Hr) (i2 & spec2 & Hi2 & Hb)].
  destruct (realized_sub _ _ _ _ Hreal (Hpre _ Hr)) as (sub1 & (_ & _ & H1) & Hs1).
  destruct (realized_sub _ _ _ _ Hreal (Hpre _ Hb)) as (sub2 & (_ & _ & H2) & Hs2).
  destruct (realized_sub _ _ _ _ Hreal (Hpre _ Hsync)) as (sub3 & H3 & Hs3). cbn in H3. subst sub3.
  destruct (H2 brokers eq_refl) as [sets H2']. exists i1, i2, routers, brokers, sub1, sub2, sets.
  split_and!; [done|by apply H1|done..|]. exists i, certificate, ca, statuses. split_and!; [done|apply Hs3; by left|done..].
Qed.

(** C15. A reconciliation of an infrastructure, in which the routers and brokers are
    reconciled by their controllers, returns whatever is answered, or panics on a pod of a
    router without annotations. What it does is what the controller of infrastructures is
    allowed to do, with what the controllers of the pods are allowed to do in place of
    their calls. The status of an infrastructure that was not [Active] becomes [Active]
    only when the routers and brokers that were just reconciled all run, and the client has
    reported as many connections as there are pairs of them, none of them down, so that
    every one of these routers is connected to every one of these brokers if each report is
    about another pair. One that was found [Active] keeps this phase, also when pods fail. *)
Theorem infra_with_pods `{HX : !X509} `{HL : !X509Laws} `{HP : !Process_} `{HS : !Sched} {W} (handle : ∀ T, kube T → W → W * T)
    grow namespace name t w :
  lazyLoadImageMap ≠ Panic →
  ∃ w' tr' r, run handle (fulfil (pods_impl t) (ReconcileInfra grow namespace name)) w [] = (w', tr', r) ∧
    match r, (handle _ (GetMessagingInfrastructure namespace name) w).2 with
    | None, _ => ∃ before sub infra, tr' = before ++ sub ∧ bare_pod infra sub
    | Some r, inl err => tr' = [Ev (GetMessagingInfrastructure namespace name) (inl err)] ∧
        r = (no_result, if k8errors_IsNotFound (api_error err) then None else Some (api_error err))
    | Some r, inr (found, _) =>
        (∃ tr, realized (pods_promise t) tr tr' ∧ obeys (infra_allowed found) tr ∧
          (not_called_again r → ∃ i, Ev (UpdateInfrastructure i) None ∈ tr)) ∧
        (∀ i x, Ev (UpdateInfrastructureStatus i) x ∈ tr' → is_Phase (i_Status (res i)) = MessagingInfrastructureActive →
          is_Phase (i_Status (res found)) ≠ MessagingInfrastructureActive → connected_pods t found tr')
    end.
Proof.
  intros Himages. unfold ReconcileInfra. cbn [fulfil pods_impl]. rewrite run_bind. cbn [run].
  destruct (handle _ (GetMessagingInfrastructure namespace name) w) as [w1 [err|[found spare]]]; cbn [snd].
  { exists w1, [Ev (GetMessagingInfrastructure namespace name) (inl err)]. destruct err; eexists (Some _); by split. }
  set (get := Ev (GetMessagingInfrastructure namespace name) (inr (found, spare))).
  destruct (fulfil_run handle (pods_impl t) (pods_promise t) pods_panic (pods_impl_run Himages t handle) (infra_allowed found)
    (r ← reconcile_infra grow (new_ctx found spare); Ret r.2) [get] [get]
    (λ tr r, not_called_again r → ∃ i, Ev (UpdateInfrastructure i) None ∈ tr) w1) as (w' & new & r & Hrun & Hr).
  - apply wp_value. eapply wp_mono; [apply (reconcile_infra_wp found)|]. intros tr r H (He & Hq & Ha). by destruct H.
  - apply (obeys_snoc _ []); [apply obeys_nil|done].
  - apply (realized_snoc _ [] []); [constructor|done].
  - exists w', ([get] ++ new), r. split; [done|]. destruct r as [r|].
    + destruct Hr as (tr & Hreal & Hob & Hq). split; [by exists tr|]. intros i x Hin Hact Hnot.
      apply (status_written_above t tr) in Hin; [|done|done]. apply list_elem_of_split in Hin as (pre & post & ->).
      destruct (Hob pre _ post eq_refl) as (_ & _ & H). destruct (H Hact) as [?|Hfull]; [done|].
      eapply fully_connected_below; [done| |done]. set_solver.
    + destruct Hr as (before & sub & -> & [infra Hp]). exists ([get] ++ before), sub, infra. split; [by rewrite app_assoc|done].
Qed.

(** ** A cluster with pods *)

Definition a_set (name : string) : StatefulSet :=
  {| ss_meta := sim_meta "infra" name; ss_Created := false; ss_Labels := ∅; ss_Annotations := ∅; ss_Owners := []; ss_Selector := None;
     ss_Replicas := None; ss_ServiceName := "";
     ss_Template := {| pt_Labels := ∅; pt_Annotations := ∅; pt_InitContainers := []; pt_Containers := []; pt_Volumes := [] |};
     ss_VolumeClaimTemplates := [] |}.

Definition a_pod (name ip : string) : Pod :=
  {| pod_Name := name; pod_Annotations := Some ∅; pod_Phase := PodRunning; pod_PodIP := ip |}.

Definition sim_sets : list StatefulSet :=
  [a_set "broker-default-infra-aaaaaaaa"; a_set "broker-default-infra-bbbbbbbb"; a_set "broker-default-infra-cccccccc"].
Definition broker_pods : list Pod :=
  [a_pod "broker-default-infra-cccccccc-0" "10.0.1.3"; a_pod "broker-default-infra-aaaaaaaa-0" "10.0.1.1"].
Definition router_pods : list Pod := [a_pod "router-default-infra-1" "10.0.2.1"; a_pod "router-default-infra-0" "10.0.2.0"].

(** The last of three brokers is used, and all wanted pods run. *)
Definition pods_sim (X : Type) (e : kube X) : SimCluster → SimCluster * X :=
  match e in kube T return SimCluster → SimCluster * T with
  | ListStatefulSets _ _ => λ w, (w, inr sim_sets)
  | ListPods _ labels => λ w, (w, inr (if decide (labels !! "component" = Some "broker") then broker_pods else router_pods))
  | DeleteBroker _ host => λ w,
      (w, if decide (host = toHost (sim_meta "infra" "broker-default-infra-cccccccc")) then Some BrokerInUseError else None)
  | Existing k _ name => λ w, (w,
      match k in okind T return ApiError + T with
      | StatefulSetKind => inr (a_set name)
      | ConfigMapKind => inr {| cm_Owners := []; cm_Data := ∅ |}
      | k => existing k name w
      end)
  | e => sim _ e
  end.

#[local] Instance sim_process : Process_ := {|
  LookupEnv name := None;
  load_images file := Some (<["broker" := "quay.io/broker:latest"]> (<["broker-plugin" := "quay.io/plugin"]> (<["router" := "quay.io/router"]> ∅)));
|}.
#[local] Existing Instance sched_id.

Lemma sim_images : lazyLoadImageMap ≠ Panic.
Proof. done. Qed.

(** Two of each. *)
Definition two_of_each : MessagingInfrastructure :=
  {| i_meta := sim_meta "infra" "default-infra"; i_NamespaceSelector := None;
     i_Router := {| sr_Image := None; sr_ScalingStrategy := Some (Some 2%Z) |};
     i_Broker := {| sb_InitImage := None; sb_Image := None; sb_ScalingStrategy := Some (Some 2%Z) |};
     i_Status := {| is_Phase := ""; is_Message := ""; is_Conditions := []; is_Routers := []; is_Brokers := [] |} |}.
Definition pod_cluster : SimCluster :=
  {| cl_clock := 1000 * Hour; cl_address := cl_address cluster; cl_endpoint := cl_endpoint cluster; cl_project := cl_project cluster;
     cl_infra := alive two_of_each; cl_secrets := cl_secrets cluster |}.
Definition pod_cluster_ca : SimCluster := (run pods_sim (ReconcileCa certController two_of_each ()) pod_cluster []).1.1.

Definition first_broker : Host := {| Hostname := toHost (sim_meta "infra" "broker-default-infra-aaaaaaaa"); Ip := "10.0.1.1" |}.
Definition last_broker : Host := {| Hostname := toHost (sim_meta "infra" "broker-default-infra-cccccccc"); Ip := "10.0.1.3" |}.
Definition the_routers : list Host :=
  [{| Hostname := "router-default-infra-0.router-default-infra.infra.svc"; Ip := "10.0.2.0" |};
   {| Hostname := "router-default-infra-1.router-default-infra.infra.svc"; Ip := "10.0.2.1" |}].

Lemma pool_reconciled_witness :
  ∃ tr sets, (run pods_sim (value (reconcile_brokers [] two_of_each)) pod_cluster_ca []).1.2 = tr ∧
    obeys (pool_allowed (with_brokers two_of_each) [] (Some 2%Z)) tr ∧
    pool_done (with_brokers two_of_each) [] (Some 2%Z) sets [last_broker; first_broker] tr.
Proof.
  destruct (pool_reconciled pods_sim [] two_of_each pod_cluster_ca sim_images) as (w' & tr & r & H1 & H2 & H3).
  assert ((run pods_sim (value (reconcile_brokers [] two_of_each)) pod_cluster_ca []).2 =
    Some (i_Broker two_of_each, inr [last_broker; first_broker])) as Hr by (by vm_compute).
  rewrite H1 in Hr |- *. injection Hr as Hr. destruct (H3 _ Hr) as (sets & Hdone & _). exists tr, sets. split; [reflexivity|]. exact (conj H2 Hdone).
Defined.

Lemma broker_pod_found_witness :
  pod_of broker_pods (toHost (sim_meta "infra" "broker-default-infra-aaaaaaaa")) = first_broker.
Proof.
  rewrite (broker_pod_found (ss_meta <$> sim_sets) broker_pods (sim_meta "infra" "broker-default-infra-aaaaaaaa") 29); [reflexivity|..].
  - repeat constructor.
  - constructor; [|constructor; [|constructor]].
    + exists (sim_meta "infra" "broker-default-infra-cccccccc"). split; [right; right; by left|reflexivity].
    + exists (sim_meta "infra" "broker-default-infra-aaaaaaaa"). split; [by left|reflexivity].
  - by left.
Defined.

Lemma routers_reconciled_witness :
  ∃ tr, (run pods_sim (value (reconcile_routers two_of_each)) pod_cluster_ca []).1.2 = tr ∧
    obeys (router_allowed (with_routers two_of_each) (Some 2%Z)) tr ∧
    routers_done (with_routers two_of_each) (Some 2%Z) the_routers tr.
Proof.
  destruct (routers_reconciled pods_sim two_of_each pod_cluster_ca sim_images) as (w' & tr & r & H1 & H2).
  assert ((run pods_sim (value (reconcile_routers two_of_each)) pod_cluster_ca []).2 = Some (i_Router two_of_each, inr the_routers)) as Hr
    by (by vm_compute).
  rewrite H1 in Hr |- *. cbn [snd] in Hr. subst r. destruct H2 as (_ & H2 & H3). exists tr. split; [reflexivity|].
  exact (conj H2 (proj1 (H3 _ eq_refl))).
Defined.

Definition made {A} (a : A) (o : outcome A) : A := match o with Ok a' => a' | _ => a end.
Definition a_router_set : StatefulSet := made (a_set "") (router_statefulset two_of_each (Some 2%Z) "sha" ["owner"] (a_set "router-default-infra")).

Lemma workloads_settle_witness :
  router_statefulset two_of_each (Some 2%Z) "sha" ["owner"] a_router_set = Ok a_router_set ∧ ss_Replicas a_router_set = Some 2%Z.
Proof.
  refine (proj2 (workloads_settle two_of_each ["owner"] (a_set "router-default-infra") a_router_set) (Some 2%Z) "sha" _). vm_compute. reflexivity.
Defined.

(** The infrastructure of the cluster becomes [Active]. *)
Definition reconciled_trace : trace :=
  (run pods_sim (fulfil (pods_impl []) (ReconcileInfra Nat.double "infra" "default-infra")) pod_cluster []).1.2.
Definition activates (ev : event kube) : bool :=
  match ev with Ev e _ => match e with
    | UpdateInfrastructureStatus i => bool_decide (is_Phase (i_Status (res i)) = MessagingInfrastructureActive) | _ => false end end.

Lemma activated tr : existsb activates tr = true →
  ∃ i x, Ev (UpdateInfrastructureStatus i) x ∈ tr ∧ is_Phase (i_Status (res i)) = MessagingInfrastructureActive.
Proof.
  intros ([X e x] & Hin & H)%existsb_exists. apply list_elem_of_In in Hin. destruct e; try discriminate H.
  apply bool_decide_eq_true in H. by eexists _, _.
Qed.

Lemma reconciled_active : existsb activates reconciled_trace = true.
Proof. by vm_compute. Qed.

Lemma reconciled_result :
  (run pods_sim (fulfil (pods_impl []) (ReconcileInfra Nat.double "infra" "default-infra")) pod_cluster []).2 =
  Some ({| r_Requeue := false; r_RequeueAfter := 30 * Second |}, None).
Proof. by vm_compute. Qed.

Lemma infra_with_pods_witness : connected_pods [] (cl_infra pod_cluster) reconciled_trace.
Proof.
  destruct (activated reconciled_trace reconciled_active) as (i & x & Hin & Hph). revert Hin. unfold reconciled_trace.
  pose proof reconciled_result as Hr. revert Hr.
  destruct (infra_with_pods pods_sim Nat.double "infra" "default-infra" [] pod_cluster sim_images) as (w' & tr & r & H1 & H2).
  rewrite H1. cbn [fst snd]. intros -> Hin. apply (proj2 H2 i x Hin Hph). discriminate.
Defined.
