(* ===== verification/Watchers.v ===== *)
(** The watchers of the console ([pkg/consolegraphql/watchers]), which feed the cache with
    the objects of the API server: a list when they begin, then the events of a watch, and
    all over again when something fails. The code is generated from one template for seven
    kinds. Also the handler of the events of agents, who tell of connections, links and
    metrics, and the manager of the watchers. *)
From stdpp Require Import base gmap strings list.
From S2P Require Import Prelude Go GoStrings Reconcile Cache.

(** The kinds that are watched. *)
Inductive watched :=
  | WNamespace
  | WAddressSpace
  | WAddress
  | WAddressPlan
  | WAddressSpacePlan
  | WAddressSpaceSchema
  | WAuthenticationService.

#[global] Instance watched_eq_dec : EqDecision watched.
Proof. solve_decision. Defined.

Definition kind_name (w : watched) : string :=
  match w with
  | WNamespace => "Namespace"
  | WAddressSpace => "AddressSpace"
  | WAddress => "Address"
  | WAddressPlan => "AddressPlan"
  | WAddressSpacePlan => "AddressSpacePlan"
  | WAddressSpaceSchema => "AddressSpaceSchema"
  | WAuthenticationService => "AuthenticationService"
  end.

(** [tp.SchemeGroupVersion], as a text. *)
Definition group_version (w : watched) : string :=
  match w with
  | WNamespace => "v1"
  | WAddressSpace | WAddress | WAddressSpaceSchema => "enmasse.io/v1beta1"
  | WAddressPlan | WAddressSpacePlan => "admin.enmasse.io/v1beta2"
  | WAuthenticationService => "admin.enmasse.io/v1beta1"
  end.

(** [watch.EventType]. *)
Definition Added : string := "ADDED".
Definition Modified : string := "MODIFIED".
Definition Deleted : string := "DELETED".
Definition ErrorType : string := "ERROR".

(** The fields of a watcher that change, and how often the channel [watching] was closed. *)
Record watcher := {
  watchingStarted : bool;
  restartCounter : Z;
  closed : nat;
}.

(** How a call of [doWatch] ends: with [nil], with an error, or not yet. *)
Inductive watch_end :=
  | Stopped
  | Failed (err : error)
  | Receiving.

(** Where the goroutine of [Watch] is: at its end, in a watch, or before another round. *)
Inductive watching :=
  | Ended
  | Waiting
  | Restarting.

Section Watchers.
(** The rest of a resource, in which an address has its [Spec.Address], and the metrics
    that the holders of addresses and address spaces have beside the resource. *)
Context {V Met : Type} `{EV : !EqDecision V} (spec_Address : V → string) (no_metrics : Met).
Notation obj := (object (V * Met)).
Context `{HS : !Sched} (fmt_v : obj → string).

Record resource := {
  res_meta : meta;
  res_rest : V;
}.
#[global] Instance resource_eq_dec : EqDecision resource.
Proof. solve_decision. Defined.

(** [%+v] of a resource. *)
Context (fmt_resource : resource → string).

(** The object of the cache for a resource, with these metrics; only the holders have
    metrics. *)
Definition holder (w : watched) (v : resource) (met : Met) : obj :=
  match w with
  | WNamespace => CoreNamespace (res_meta v) (res_rest v, met)
  | WAddressSpace => AddressSpaceHolder (res_meta v) (res_rest v, met)
  | WAddress => AddressHolder (res_meta v) (spec_Address (res_rest v)) (res_rest v, met)
  | WAddressPlan => AddressPlan (res_meta v) (res_rest v, met)
  | WAddressSpacePlan => AddressSpacePlan (res_meta v) (res_rest v, met)
  | WAddressSpaceSchema => AddressSpaceSchema (res_meta v) (res_rest v, met)
  | WAuthenticationService => AuthenticationService (res_meta v) (res_rest v, met)
  end.

(** The assertion of the type of an object. *)
Definition held (w : watched) (o : obj) : option (resource * Met) :=
  match w, o with
  | WNamespace, CoreNamespace m r | WAddressSpace, AddressSpaceHolder m r | WAddress, AddressHolder m _ r
  | WAddressPlan, AddressPlan m r | WAddressSpacePlan, AddressSpacePlan m r | WAddressSpaceSchema, AddressSpaceSchema m r
  | WAuthenticationService, AuthenticationService m r => Some ({| res_meta := m; res_rest := r.1 |}, r.2)
  | _, _ => None
  end.

(** [create] and [update], those of the holders included; [None] is that nothing has
    changed. The code changes the object in place, before the transaction inserts it: the
    cache is the same in the end, because the key of the object stays and [Update] cannot
    fail after that; who has a pointer to the object sees the change too. *)
Definition create (w : watched) (v : resource) : obj := holder w v no_metrics.

Definition update (w : watched) (v : resource) (existing : obj) : outcome (option obj) :=
  match held w existing with
  | None => Panic
  | Some (v', met) => if decide (v' = v) then Ok None else Ok (Some (holder w v met))
  end.

Definition updateGroupVersionKind (w : watched) (v : resource) : resource :=
  let m := res_meta v in
  if decide (Kind m = "" ∨ APIVersion m = "")
  then {| res_meta := {| APIVersion := group_version w; Kind := kind_name w; Namespace := Namespace m; Name := Name m |};
          res_rest := res_rest v |}
  else v.

(** ** The calls of a watcher *)

(** What can be received: an event with its object, or the name of the type of an object
    that is none of the resources; that the channel of the watch is closed; that the
    channel [stopchan] is. *)
Inductive input :=
  | WatchEvent (type : string) (object : string + resource)
  | WatchClosed
  | StopReceived.

(** The calls of the API server and of the cache. *)
Inductive cop : Type → Type :=
  | ListResources : cop (error + list resource)
  | StartWatch : cop (option error)
  | Receive : cop input
  | CacheKeyCreator (idxName : string) : cop (outcome (KeyCreator (V * Met)))
  | CacheGet (idxName keyPrefix : string) (f : ObjectFilter (R := V * Met) (gmap string obj)) : cop (gmap string obj * outcome (list obj))
  | CacheAdd (o : obj) : cop (outcome ())
  | CacheUpdate (mutator : obj → outcome (option obj)) (o : obj) : cop (outcome ())
  | CacheDelete (o : obj) : cop (outcome ()).

(** A call of the cache, and what is done when it has succeeded. *)
Definition or_fail {A B} (e : cop (outcome A)) (k : A → io cop (error + B)) : io cop (error + B) :=
  Vis e (λ r, match r with Ok a => k a | Err err => Ret (inl err) | Panic => Crash end).

(** ** [doWatch] *)

(** The filter that collects the objects that are there. *)
Definition collect (keyCreator : KeyCreator (V * Met)) : ObjectFilter (R := V * Met) (gmap string obj) := λ o curr,
  match keyCreator o with
  | (_, _, Some err) => (curr, Err err)
  | (false, _, None) => (curr, Err (Errorf ("failed to generate key for existing object " +:+ fmt_v o)))
  | (true, key, None) => (<[key := o]> curr, Ok (false, true))
  end.

(** The loop over what was listed; of what was there, it returns what was not listed. *)
Fixpoint populate (w : watched) (keyCreator : KeyCreator (V * Met)) (items : list resource) (curr : gmap string obj)
    : io cop (error + gmap string obj) :=
  match items with
  | [] => Ret (inr curr)
  | res :: items' =>
      let copy := updateGroupVersionKind w res in
      let candidate := create w copy in
      match keyCreator candidate with
      | (_, _, Some err) => Ret (inl err)
      | (false, _, None) => Ret (inl (Errorf ("failed to generate key for new object " +:+ fmt_resource copy)))
      | (true, key, None) =>
          match curr !! key with
          | Some existing => or_fail (CacheUpdate (update w copy) existing) (λ _, populate w keyCreator items' (delete key curr))
          | None => or_fail (CacheAdd candidate) (λ _, populate w keyCreator items' curr)
          end
      end
  end.

Fixpoint remove_stale (stale : list obj) : io cop (error + ()) :=
  match stale with
  | [] => Ret (inr ())
  | o :: stale' => or_fail (CacheDelete o) (λ _, remove_stale stale')
  end.

(** What is done with an event. *)
Definition handle_event (w : watched) (type : string) (res : resource) : option (cop (outcome ())) :=
  let copy := updateGroupVersionKind w res in
  if decide (type = Added) then Some (CacheAdd (create w copy))
  else if decide (type = Modified) then Some (CacheUpdate (update w copy) (create w copy))
  else if decide (type = Deleted) then Some (CacheDelete (create w copy))
  else None.

(** The loop that receives, for [n] turns. *)
Fixpoint receive (w : watched) (n : nat) : io cop watch_end :=
  match n with
  | 0 => Ret Receiving
  | S n' =>
      Vis Receive (λ i,
        match i with
        | StopReceived => Ret Stopped
        | WatchClosed => Ret (Failed (Errorf "watch ended due to channel error"))
        | WatchEvent type object =>
            if decide (type = ErrorType) then Ret (Failed (Errorf "watch ended in error"))
            else match object with
            | inl T => Ret (Failed (Errorf ("Watch error - object of unexpected type, " +:+ T +:+ ", received")))
            | inr res =>
                match handle_event w type res with
                | None => receive w n'
                | Some e => Vis e (λ r, match r with Ok _ => receive w n' | Err err => Ret (Failed err) | Panic => Crash end)
                end
            end
        end)
  end.

Definition started (kw : watcher) : watcher :=
  if watchingStarted kw then kw
  else {| watchingStarted := true; restartCounter := restartCounter kw; closed := S (closed kw) |}.

Definition watch_template (w : watched) (t : tick) (n : nat) (kw : watcher) : io cop (watcher * watch_end) :=
  Vis ListResources (λ listed, match listed with inl err => Ret (kw, Failed err) | inr resourceList =>
  Vis (CacheKeyCreator PrimaryObjectIndex) (λ r, match r with Panic => Crash | Err err => Ret (kw, Failed err) | Ok keyCreator =>
  (* the error of Get is not looked at *)
  Vis (CacheGet PrimaryObjectIndex (kind_name w +:+ "/") (collect keyCreator)) (λ got, match got.2 with Panic => Crash | _ =>
  r ← populate w keyCreator resourceList got.1;
  match r with inl err => Ret (kw, Failed err) | inr curr =>
  r ← remove_stale (range_values t curr);
  match r with inl err => Ret (kw, Failed err) | inr _ =>
  Vis StartWatch (λ err, match err with Some err => Ret (kw, Failed err) | None =>
  r ← receive w n; Ret (started kw, r)
  end) end end end) end) end).

(** The methods of the seven types that are generated. *)
Definition NamespaceWatcher_doWatch := watch_template WNamespace.
Definition AddressSpaceWatcher_doWatch := watch_template WAddressSpace.
Definition AddressWatcher_doWatch := watch_template WAddress.
Definition AddressPlanWatcher_doWatch := watch_template WAddressPlan.
Definition AddressSpacePlanWatcher_doWatch := watch_template WAddressSpacePlan.
Definition AddressSpaceSchemaWatcher_doWatch := watch_template WAddressSpaceSchema.
Definition AuthenticationServiceWatcher_doWatch := watch_template WAuthenticationService.

Definition doWatch (w : watched) : tick → nat → watcher → io cop (watcher * watch_end) :=
  match w with
  | WNamespace => NamespaceWatcher_doWatch
  | WAddressSpace => AddressSpaceWatcher_doWatch
  | WAddress => AddressWatcher_doWatch
  | WAddressPlan => AddressPlanWatcher_doWatch
  | WAddressSpacePlan => AddressSpacePlanWatcher_doWatch
  | WAddressSpaceSchema => AddressSpaceSchemaWatcher_doWatch
  | WAuthenticationService => AuthenticationServiceWatcher_doWatch
  end.

(** ** [Watch] *)

(** [atomicInc] of an [int32]. *)
Definition atomicInc (i : Z) : Z := ((i + 1 + 2^31) mod 2^32 - 2^31)%Z.

Definition restarted (kw : watcher) : watcher :=
  {| watchingStarted := watchingStarted kw; restartCounter := atomicInc (restartCounter kw); closed := closed kw |}.

(** The deferred function that closes [watching] when [doWatch] never did. *)
Definition finish_watching (kw : watcher) : watcher :=
  {| watchingStarted := watchingStarted kw; restartCounter := restartCounter kw;
     closed := if watchingStarted kw then closed kw else S (closed kw) |}.

(** The goroutine of [Watch], for a number of rounds. *)
Fixpoint Watch (w : watched) (t : tick) (n rounds : nat) (kw : watcher) : io cop (watcher * watching) :=
  match rounds with
  | 0 => Ret (kw, Restarting)
  | S rounds' =>
      r ← doWatch w (rounds' :: t) n kw;
      match r with
      | (kw, Failed _) => Watch w t n rounds' (restarted kw)
      | (kw, Stopped) => Ret (finish_watching kw, Ended)
      | (kw, Receiving) => Ret (kw, Waiting)
      end
  end.

Definition NewWatcher (w : watched) (client : bool) : error + watcher :=
  if client then inr {| watchingStarted := false; restartCounter := 0; closed := 0 |}
  else inl (Errorf ("Client must be configured using the " +:+ kind_name w +:+ "WatcherConfig or " +:+ kind_name w +:+ "WatcherClient")).
End Watchers.

(** ** The agents *)

(** What an agent says of an address, of a connection and of its links. The counters, from
    which the metrics are made, and the fields that are only copied are opaque. *)
Section Agents.
Context {V Met Cnt : Type}.
Notation obj := (object (V * Met)).

Record AgentAddressLink := {
  al_Address : string;
  al_Uuid : string;
  al_rest : Cnt;
}.
Record AgentConnection := {
  ac_Uuid : string;
  ac_AddressSpace : string;
  ac_AddressSpaceNamespace : string;
  ac_AddressSpaceType : string;
  ac_Senders : list AgentAddressLink;
  ac_Receivers : list AgentAddressLink;
  ac_rest : Cnt;
}.
Record AgentAddress := {
  aa_Name : string;
  aa_AddressSpaceNamespace : string;
  aa_rest : Cnt;
}.
Inductive AgentObject :=
  | AnAgentConnection (c : AgentConnection)
  | AnAgentAddress (a : AgentAddress)
  | OtherAgentObject.
Record AgentEvent := {
  ae_AddressSpace : string;
  ae_AddressSpaceNamespace : string;
  ae_Type : string;
  ae_Object : AgentObject;
}.

(** The rest of a connection and, with its role, of a link; and how the metrics change. *)
Class AgentFields := {
  connection_rest : AgentConnection → V;
  link_rest : string → V;
  spec_Role : V → string;
  updateConnectionMetrics : Z → AgentConnection → Met → Met;
  updateAddressMetrics : Z → AgentAddress → V → Met → Met;
  link_metrics : Z → string → string → AgentAddressLink → Met → Met;
}.
Context `{AF : !AgentFields} (no_metrics : Met).

Definition toConnectionObject (c : AgentConnection) : obj :=
  Connection {| APIVersion := ""; Kind := "Connection"; Namespace := ac_AddressSpaceNamespace c; Name := ac_Uuid c |}
    (ac_AddressSpace c) (connection_rest c, no_metrics).

Definition toLinkObject (l : AgentAddressLink) (role : string) (c : AgentConnection) : obj :=
  Link {| APIVersion := ""; Kind := "Link"; Namespace := ac_AddressSpaceNamespace c; Name := al_Uuid l |}
    {| ls_Connection := ac_Uuid c; ls_AddressSpace := ac_AddressSpace c; ls_Address := al_Address l |}
    (link_rest role, no_metrics).

Definition toLinkObjects (c : AgentConnection) : list obj :=
  ((λ l, toLinkObject l "sender" c) <$> ac_Senders c) ++ ((λ l, toLinkObject l "receiver" c) <$> ac_Receivers c).

(** The UID of a link, which is its name, as [toLinkObject] makes them. *)
Definition link_UID (o : obj) : option string := match o with Link m _ _ => Some (Name m) | _ => None end.

(** [remove]: the last element takes the place of the one that is removed. *)
Definition swap_remove {A} (i : nat) (s : list A) : list A :=
  match last s with Some x => take (length s - 1) (<[i := x]> s) | None => s end.

Fixpoint link_index (uid : string) (links : list obj) : option nat :=
  match links with
  | [] => None
  | l :: links' => if decide (link_UID l = Some uid) then Some 0 else S <$> link_index uid links'
  end.

(** [resolveLinks]: the orphans, the new links and those to update. *)
Fixpoint resolve_each (currentLinks existingLinks orphans newLinks updatingLinks : list obj)
    : outcome (list obj * list obj * list obj) :=
  match existingLinks with
  | [] => Ok (orphans, newLinks, updatingLinks)
  | existingLink :: rest =>
      match link_UID existingLink with
      | None => Panic
      | Some uid =>
          if existsb (λ l, bool_decide (link_UID l = Some uid)) currentLinks
          then resolve_each currentLinks rest orphans
                 (match link_index uid newLinks with Some i => swap_remove i newLinks | None => newLinks end)
                 (updatingLinks ++ [existingLink])
          else resolve_each currentLinks rest (orphans ++ [existingLink]) newLinks updatingLinks
      end
  end.
Definition resolveLinks (currentLinks existingLinks : list obj) : outcome (list obj * list obj * list obj) :=
  resolve_each currentLinks existingLinks [] currentLinks [].

(** [buildLinkMaps]; of links with the same id the last one stays. *)
Definition buildLinkMap (links : list AgentAddressLink) : gmap string AgentAddressLink :=
  foldl (λ m l, <[al_Uuid l := l]> m) ∅ links.

Definition updateLinkMetrics (addressSpaceType : string) (agentLinks : gmap string AgentAddressLink) (rateMetricName : string) (now : Z)
    (m : meta) (spec : LinkSpec) (r : V * Met) : outcome obj :=
  match agentLinks !! Name m with
  | None => Ok (Link m spec r)
  | Some l =>
      if decide (addressSpaceType = "standard" ∨ addressSpaceType = "brokered")
      then Ok (Link m spec (r.1, link_metrics now addressSpaceType rateMetricName l r.2))
      else Panic
  end.

Fixpoint updateAllLinks (addressSpaceType : string) (targetLinks : list obj) (agentSendingLinks agentReceivingLinks : gmap string AgentAddressLink)
    (now : Z) : outcome (list obj) :=
  match targetLinks with
  | [] => Ok []
  | Link m spec r :: rest =>
      o ← (if decide (spec_Role r.1 = "sender")
           then updateLinkMetrics addressSpaceType agentSendingLinks "enmasse_messages_in" now m spec r
           else updateLinkMetrics addressSpaceType agentReceivingLinks "enmasse_messages_out" now m spec r);
      os ← updateAllLinks addressSpaceType rest agentSendingLinks agentReceivingLinks now;
      Ok (o :: os)
  | _ :: _ => Panic
  end.

(** The calls of an agent's handler. *)
Inductive aop : Type → Type :=
  | AgentGet (keyPrefix : string) : aop (outcome (list obj))
  | AgentAdd (os : list obj) : aop (outcome ())
  | AgentDelete (os : list obj) : aop (outcome ())
  | AgentDeleteByPrefix (keyPrefix : string) : aop (outcome ()).

(** A call, and what is done when it has succeeded. *)
Definition agent_call {A} (e : aop (outcome A)) (k : A → io aop (option error)) : io aop (option error) :=
  Vis e (λ r, match r with Ok a => k a | Err err => Ret (Some err) | Panic => Crash end).

(** The links of a connection that was stored. *)
Definition handle_links (target : AgentConnection) (now : Z) (m : meta) (AddressSpace : string) : io aop (option error) :=
  agent_call (AgentGet ("Link/" +:+ Namespace m +:+ "/" +:+ AddressSpace +:+ "/" +:+ Name m)) (λ existingLinks,
  match resolveLinks (toLinkObjects target) existingLinks with
  | Ok (orphans, newLinks, updatingLinks) =>
      let update links := updateAllLinks (ac_AddressSpaceType target) links
        (buildLinkMap (ac_Senders target)) (buildLinkMap (ac_Receivers target)) now in
      let rest : io aop (option error) :=
        match update updatingLinks, update newLinks with
        | Ok pending, Ok more => agent_call (AgentAdd (pending ++ more)) (λ _, Ret None)
        | _, _ => Crash
        end in
      match orphans with [] => rest | _ => agent_call (AgentDelete orphans) (λ _, rest) end
  | _ => Crash
  end).

Definition handle_connection (target : AgentConnection) (now : Z) : io aop (option error) :=
  agent_call (AgentGet ("Connection/" +:+ ac_AddressSpaceNamespace target +:+ "/" +:+ ac_AddressSpace target +:+ "/" +:+ ac_Uuid target))
    (λ objs, match (match objs with [] => toConnectionObject target | o :: _ => o end) with
    | Connection m AddressSpace r =>
        agent_call (AgentAdd [Connection m AddressSpace (r.1, updateConnectionMetrics now target r.2)])
          (λ _, handle_links target now m AddressSpace)
    | _ => Crash
    end).

(** The first object whose key begins with that of the address; there may be none. *)
Definition handle_address (target : AgentAddress) (now : Z) : io aop (option error) :=
  agent_call (AgentGet ("Address/" +:+ aa_AddressSpaceNamespace target +:+ "/" +:+ aa_Name target)) (λ objs,
    match objs with
    | [] => Ret None
    | AddressHolder m a r :: _ =>
        agent_call (AgentAdd [AddressHolder m a (r.1, updateAddressMetrics now target r.1 r.2)]) (λ _, Ret None)
    | _ :: _ => Crash
    end).

Definition AgentEventTypeRestart : string := "restart".
Definition AgentEventInsertOrUpdateType : string := "insertOrUpdate".
Definition AgentEventTypeDelete : string := "delete".

Definition handleEvent (event : AgentEvent) (now : Z) : io aop (option error) :=
  let in_space kind := kind +:+ "/" +:+ ae_AddressSpaceNamespace event +:+ "/" +:+ ae_AddressSpace event +:+ "/" in
  if decide (ae_Type event = AgentEventTypeRestart) then
    agent_call (AgentDeleteByPrefix (in_space "Connection")) (λ _,
    agent_call (AgentDeleteByPrefix (in_space "Link")) (λ _, Ret None))
  else if decide (ae_Type event = AgentEventInsertOrUpdateType) then
    match ae_Object event with
    | AnAgentConnection target => handle_connection target now
    | AnAgentAddress target => handle_address target now
    | OtherAgentObject => Crash
    end
  else if decide (ae_Type event = AgentEventTypeDelete) then
    match ae_Object event with
    | AnAgentConnection target =>
        let key := "/" +:+ ac_AddressSpaceNamespace target +:+ "/" +:+ ac_AddressSpace target +:+ "/" +:+ ac_Uuid target in
        agent_call (AgentDeleteByPrefix ("Connection" +:+ key)) (λ _,
        agent_call (AgentDeleteByPrefix ("Link" +:+ key)) (λ _, Ret None))
    | AnAgentAddress _ => Ret None
    | OtherAgentObject => Crash
    end
  else Crash.
End Agents.
Arguments aop : clear implicits.
Arguments AgentFields : clear implicits.

(** ** Metrics *)

(** The mutator of [UpdateAllMetrics]: the object with other values of its metrics. *)
Definition metrics_mutator {V Met} (f : Met → Met) (current : object (V * Met)) : outcome (option (object (V * Met))) :=
  let g r := (r.1, f r.2) in
  Ok (Some match current with
  | CoreNamespace m r => CoreNamespace m r
  | AddressSpaceHolder m r => AddressSpaceHolder m (g r)
  | AddressHolder m a r => AddressHolder m a (g r)
  | Connection m s r => Connection m s (g r)
  | Link m s r => Link m s (g r)
  | o => o
  end).

(** ** The manager *)

(** What the manager creates: a watcher for each kind, and that of the agents. *)
Inductive creator :=
  | Creator (w : watched)
  | AgentCreator.

#[global] Instance creator_eq_dec : EqDecision creator.
Proof. solve_decision. Defined.

Definition creators : list creator :=
  [Creator WAddressSpace; Creator WAddress; Creator WNamespace; Creator WAddressSpacePlan; Creator WAddressPlan;
   Creator WAuthenticationService; Creator WAddressSpaceSchema; AgentCreator].

Inductive command :=
  | beginWatching
  | endWatching.

(** The manager with the variables of its goroutine: [cancelTask] is whether there is one.
    A watcher is its creator and a number of its own; [running] are those whose goroutines
    were started and not yet shut down. *)
Record resourceManager := {
  isWatching : bool;
  cancelTask : bool;
  resourcewatchers : list (creator * nat);
  running : list (creator * nat);
  created : nat;
}.

(** [New]. *)
Definition NewManager : resourceManager :=
  {| isWatching := false; cancelTask := false; resourcewatchers := []; running := []; created := 0 |}.

(** The loop of [beginAllWatchers], where [fails] says which creators fail; [Watch] starts
    the goroutine and returns [nil]. *)
Fixpoint begin_each (fails : creator → option error) (cs : list creator) (rm : resourceManager) : resourceManager * option error :=
  match cs with
  | [] => (rm, None)
  | f :: cs' =>
      match fails f with
      | Some err => (rm, Some err)
      | None =>
          let watcher := (f, created rm) in
          begin_each fails cs' {| isWatching := isWatching rm; cancelTask := cancelTask rm;
            resourcewatchers := resourcewatchers rm ++ [watcher]; running := running rm ++ [watcher]; created := S (created rm) |}
      end
  end.

Definition beginAllWatchers (fails : creator → option error) (rm : resourceManager) : resourceManager * option error :=
  begin_each fails creators {| isWatching := isWatching rm; cancelTask := cancelTask rm;
    resourcewatchers := []; running := running rm; created := created rm |}.

(** [Shutdown] of each; it waits until the goroutine has ended. *)
Definition endAllWatchers (rm : resourceManager) : resourceManager :=
  {| isWatching := isWatching rm; cancelTask := cancelTask rm; resourcewatchers := [];
     running := filter (λ w, w ∉ resourcewatchers rm) (running rm); created := created rm |}.

Definition set_isWatching (b : bool) (rm : resourceManager) : resourceManager :=
  {| isWatching := b; cancelTask := cancelTask rm; resourcewatchers := resourcewatchers rm; running := running rm; created := created rm |}.
Definition set_cancelTask (b : bool) (rm : resourceManager) : resourceManager :=
  {| isWatching := isWatching rm; cancelTask := b; resourcewatchers := resourcewatchers rm; running := running rm; created := created rm |}.

(** A turn of the goroutine of [Start], with a command or that the channel is closed; and
    whether it goes on. *)
Definition manage (fails : creator → option error) (rm : resourceManager) (event : option command) : resourceManager * bool :=
  let rm := set_cancelTask false rm in
  let ended := if isWatching rm then set_isWatching false (endAllWatchers rm) else rm in
  match event with
  | None => (ended, false)
  | Some beginWatching =>
      if isWatching rm then (rm, true)
      else match beginAllWatchers fails rm with
      | (rm, Some _) => (set_cancelTask true rm, true)
      | (rm, None) => (set_isWatching true rm, true)
      end
  | Some endWatching => (ended, true)
  end.

(** Commands one after the other, each with the creators that fail at it. *)
Definition managed (evs : list ((creator → option error) * command)) (rm : resourceManager) : resourceManager :=
  foldl (λ rm ev, (manage ev.1 rm (Some ev.2)).1) rm evs.
