(* ===== verification/WatcherFacts.v ===== *)
(** What the watchers do to the cache, while each other and the rest of the console go on:
    the resources of a kind in the cache are those that were listed last, with the events
    of the watch applied. What the events of agents do to it, and the manager. *)
From stdpp Require Import base gmap sets strings list.
From S2P Require Import Prelude Go GoStrings Reconcile Cache CacheFacts ConsoleSim Watchers.

(** The prefix of the keys of a kind. *)
Definition prefix (w : watched) : string := kind_name w +:+ "/".

Lemma prefix_inj w w' k : HasPrefix k (prefix w) = true → HasPrefix k (prefix w') = true → w = w'.
Proof.
  intros [t ->]%HasPrefix_spec [t' H]%HasPrefix_spec. unfold prefix in H. by destruct w, w'; cbn in H; try discriminate H.
Qed.

Section Facts.
Context {V Met : Type} `{EV : !EqDecision V} (spec_Address : V → string) (no_metrics : Met) `{HS : !Sched}.
Notation R := (V * Met)%type.
Notation obj := (object R).
Context (fmt_v : obj → string) (fmt_resource : resource (V := V) → string) `{HM : !MemDB R} `{HL : !MemDBLaws R}.
Notation resource := (resource (V := V)).
Notation contents := (gmap string resource).
Notation cop := (cop (V := V) (Met := Met)).
Notation cache := (MemdbCache (R := R)).
Implicit Types (c : cache) (o : obj) (v : resource) (m : contents) (w : watched) (met : Met).

(** ** Objects and their keys *)

(** The kind of an object is that of its type. *)
Definition kind_ok o : Prop :=
  match o with
  | CoreNamespace mt _ => Kind mt = "Namespace"
  | AddressSpaceHolder mt _ => Kind mt = "AddressSpace"
  | AddressHolder mt a r => Kind mt = "Address" ∧ a = spec_Address r.1
  | Connection mt _ _ => Kind mt = "Connection"
  | Link mt _ _ => Kind mt = "Link"
  | AddressPlan mt _ => Kind mt = "AddressPlan"
  | AddressSpacePlan mt _ => Kind mt = "AddressSpacePlan"
  | AddressSpaceSchema mt _ => Kind mt = "AddressSpaceSchema"
  | AuthenticationService mt _ => Kind mt = "AuthenticationService"
  | OtherObject _ => False
  end.

Definition primary o : option string :=
  match primaryUniqueKeyCreator o with (true, k, None) => Some k | _ => None end.

(** The key of a resource. *)
Definition key_of w v : option string := primary (create spec_Address no_metrics w v).
Definition of_kind w v : Prop := Kind (res_meta (updateGroupVersionKind w v)) = kind_name w.
Definition norm_key w v : option string := key_of w (updateGroupVersionKind w v).

Lemma holder_primary w v met : primary (holder spec_Address w v met) = key_of w v.
Proof. by destruct w. Qed.

Lemma holder_kind w v met : Kind (res_meta v) = kind_name w → kind_ok (holder spec_Address w v met).
Proof. by destruct w. Qed.

Lemma held_holder w v met : held w (holder spec_Address w v met) = Some (v, met).
Proof. by destruct w, v. Qed.

Lemma held_other w o : kind_ok o → ∀ k, primary o = Some k → HasPrefix k (prefix w) = bool_decide (is_Some (held w o)).
Proof.
  intros Hk k Hp. unfold primary in Hp. destruct o; cbn [primaryUniqueKeyCreator] in Hp; cbn [kind_ok] in Hk; try (destruct (_ <? _)%Z; [done|]); try done.
  all: try (match type of Hk with _ ∧ _ => destruct Hk as [Hk _] end); injection Hp as <-; rewrite Hk; by destruct w.
Qed.

Lemma held_is_holder w o v met : kind_ok o → held w o = Some (v, met) → o = holder spec_Address w v met ∧ Kind (res_meta v) = kind_name w.
Proof. intros Hk H. destruct w, o; try discriminate H; cbn in Hk; injection H as <- <-; try (match type of Hk with _ ∧ _ => destruct Hk as [Hk ->] end); by destruct r. Qed.

Lemma key_prefix w v k : Kind (res_meta v) = kind_name w → key_of w v = Some k → HasPrefix k (prefix w) = true.
Proof.
  intros Hk Hkey. rewrite (held_other w (create spec_Address no_metrics w v)) by (done || by apply holder_kind).
  unfold create. rewrite held_holder. by apply bool_decide_eq_true_2.
Qed.

(** ** The cache *)

Definition object_schema : list (IndexSpecifier R) :=
  [{| is_Name := PrimaryObjectIndex; AllowMissing := false; keyCreator := primaryUniqueKeyCreator |};
   {| is_Name := AddressLinkObjectIndex; AllowMissing := true; keyCreator := addressLinkKeyCreator |}].

Record cache_ok c : Prop := {
  co_wf : cache_wf c;
  co_schema : schema c = object_schema;
  co_kinds : ∀ k o, view c !! k = Some o → kind_ok o;
}.

(** The cache at the beginning. *)
Lemma created_cache_ok : ∃ c, CreateObjectCache = Ok c ∧ cache_ok c ∧ view c = ∅.
Proof.
  destruct CreateObjectCache_ok as (c & Hc & Hw & Hv & _). exists c. split_and!; [done| |done]. split; [done| |].
  - unfold CreateObjectCache, Init in Hc. cbn in Hc. destruct (NewMemDB _); [|discriminate..]. by injection Hc as <-.
  - intros k o. by rewrite Hv, lookup_empty.
Qed.

(** The resources of a kind, by their keys. *)
Definition own w c : contents := omap (λ o, fst <$> held w o) (view c).

Lemma primary_key_ok c o : cache_ok c → primary_key c o = primary o.
Proof. intros Hc. unfold primary_key, object_key. by rewrite (co_schema _ Hc). Qed.

Lemma cached_key c k o : cache_ok c → view c !! k = Some o → primary o = Some k.
Proof. intros Hc H. apply lookup_view in H as [_ H]; [|apply Hc]. by rewrite <-(primary_key_ok c). Qed.

Lemma own_lookup w c k v : cache_ok c → own w c !! k = Some v ↔ ∃ met, view c !! k = Some (holder spec_Address w v met).
Proof.
  intros Hc. unfold own. rewrite lookup_omap_Some. split.
  - intros (o & Hh & Ho). destruct (held w o) as [[v' met]|] eqn:Hheld; [|done]. injection Hh as ->. exists met.
    by destruct (held_is_holder w o v met (co_kinds _ Hc _ _ Ho) Hheld) as [<- _].
  - intros [met Ho]. eexists. split; [|exact Ho]. by rewrite held_holder.
Qed.

(** Under a key of the kind there is a resource of the kind. *)
Lemma own_here w c k o : cache_ok c → HasPrefix k (prefix w) = true → view c !! k = Some o →
  ∃ v met, o = holder spec_Address w v met ∧ own w c !! k = Some v.
Proof.
  intros Hc Hp Ho. pose proof (co_kinds _ Hc _ _ Ho) as Hk. rewrite (held_other w o Hk k (cached_key c k o Hc Ho)) in Hp.
  apply bool_decide_eq_true in Hp as [[v met] Hh]. destruct (held_is_holder w o v met Hk Hh) as [-> _]. exists v, met.
  split; [done|]. apply own_lookup; eauto.
Qed.

Lemma own_key w c k v : cache_ok c → own w c !! k = Some v →
  key_of w v = Some k ∧ Kind (res_meta v) = kind_name w ∧ HasPrefix k (prefix w) = true.
Proof.
  intros Hc Hv. apply own_lookup in Hv as [met Ho]; [|done]. pose proof (cached_key _ _ _ Hc Ho) as Hkey. rewrite holder_primary in Hkey.
  destruct (held_is_holder w _ v met (co_kinds _ Hc _ _ Ho)) as [_ Hkind]; [apply held_holder|]. split_and!; [done|done|by eapply key_prefix].
Qed.

Lemma own_absent w c k : cache_ok c → HasPrefix k (prefix w) = true → own w c !! k = None ↔ view c !! k = None.
Proof.
  intros Hc Hp. split; intros H.
  - destruct (view c !! k) as [o|] eqn:Ho; [|done]. destruct (own_here w c k o Hc Hp Ho) as (v & met & _ & Hv). congruence.
  - apply eq_None_not_Some. intros [v Hv]. apply own_lookup in Hv as [met Hv]; [congruence|done].
Qed.

(** The objects of other kinds are as they were. *)
Definition others w c c' : Prop := ∀ k, HasPrefix k (prefix w) = false → view c' !! k = view c !! k.

Lemma others_own w w' c c' : cache_ok c → cache_ok c' → others w c c' → w' ≠ w → own w' c' = own w' c.
Proof.
  intros Hc Hc' Ho Hne. apply map_eq. intros k. destruct (HasPrefix k (prefix w)) eqn:Hp.
  - assert (∀ c0, cache_ok c0 → own w' c0 !! k = None) as Hn; [|by rewrite !Hn].
    intros c0 H0. apply eq_None_not_Some. intros [v Hv]. destruct (own_key w' c0 k v H0 Hv) as (_ & _ & Hp').
    apply Hne. by apply (prefix_inj w' w k).
  - unfold own. by rewrite !lookup_omap, (Ho k Hp).
Qed.

(** ** The operations of the cache *)

(** A change of the map under a key of the kind. *)
Lemma view_changed w c c' k (new : option obj) :
  cache_ok c → cache_wf c' → schema c' = schema c → HasPrefix k (prefix w) = true →
  view c' = partial_alter (λ _, new) k (view c) → (∀ o, new = Some o → kind_ok o) →
  cache_ok c' ∧ others w c c' ∧ own w c' = partial_alter (λ _, new ≫= λ o, fst <$> held w o) k (own w c).
Proof.
  intros Hc Hwf Hs Hp Hv Hnew. assert (cache_ok c') as Hc'.
  { split; [done|by rewrite Hs; apply Hc|]. intros k' o. rewrite Hv. destruct (decide (k' = k)) as [->|Hne].
    - rewrite lookup_partial_alter_eq. apply Hnew.
    - rewrite lookup_partial_alter_ne by done. apply (co_kinds _ Hc). }
  split_and!; [done| |].
  - intros k' Hp'. rewrite Hv, lookup_partial_alter_ne; [done|]. intros ->. congruence.
  - unfold own. apply map_eq. intros k'. rewrite lookup_omap, Hv. destruct (decide (k' = k)) as [->|Hne].
    + by rewrite !lookup_partial_alter_eq.
    + by rewrite !lookup_partial_alter_ne, lookup_omap by done.
Qed.

Lemma addable_ok c o k : cache_ok c → kind_ok o → primary o = Some k → (∀ w, is_Some (held w o) → addable c o = true).
Proof.
  intros Hc Hk Hp w Hh. unfold addable. rewrite primary_key_ok, Hp, bool_decide_eq_true_2 by (done || eauto). rewrite (co_schema _ Hc).
  unfold object_schema, indexable, FromObject. cbn [forallb keyCreator AllowMissing].
  unfold primary in Hp. destruct (primaryUniqueKeyCreator o) as [[[] key] []]; try discriminate Hp.
  destruct w, o; try (by destruct Hh); done.
Qed.

Lemma Add_own w c v met c' x : cache_ok c → Kind (res_meta v) = kind_name w → Add [holder spec_Address w v met] c = (c', x) →
  cache_ok c' ∧ others w c c' ∧
  match key_of w v with
  | Some k => x = Ok () ∧ own w c' = <[k := v]> (own w c)
  | None => (∃ e, x = Err e) ∧ c' = c
  end.
Proof.
  intros Hc Hkind HA. set (o := holder spec_Address w v met) in *. pose proof (holder_kind w v met Hkind) as Hk.
  pose proof (Add_refines c [o] (co_wf _ Hc)) as H. rewrite HA in H. cbn [each_map] in H. unfold map_insert in H.
  assert (primary o = key_of w v) as Hpo by apply holder_primary.
  rewrite primary_key_ok, Hpo in H by done. destruct (key_of w v) as [k|] eqn:Hkey; cbn in H.
  - rewrite (addable_ok c o k Hc Hk Hpo w) in H by (unfold o; rewrite held_holder; eauto). cbn in H.
    destruct H as (c1 & [= -> ->] & Hwf & Hs & Hv).
    destruct (view_changed w c c1 k (Some o) Hc Hwf Hs) as (H1 & H2 & H3); [by eapply key_prefix|done|by intros ? [= <-]|].
    split_and!; [done|done|done|]. rewrite H3. cbn. unfold o. by rewrite held_holder.
  - destruct H as [e [= -> ->]]. split_and!; [done|done|eauto|done].
Qed.

Lemma Delete_own w c v met c' x : cache_ok c → Kind (res_meta v) = kind_name w → cache_Delete [holder spec_Address w v met] c = (c', x) →
  cache_ok c' ∧ others w c c' ∧
  match key_of w v ≫= λ k, (λ _, k) <$> own w c !! k with
  | Some k => x = Ok () ∧ own w c' = delete k (own w c)
  | None => (∃ e, x = Err e) ∧ c' = c
  end.
Proof.
  intros Hc Hkind HD. set (o := holder spec_Address w v met) in *.
  pose proof (Delete_refines c [o] (co_wf _ Hc)) as H. rewrite HD in H. cbn [each_map] in H. unfold map_delete in H.
  assert (primary o = key_of w v) as Hpo by apply holder_primary. rewrite primary_key_ok, Hpo in H by done.
  destruct (key_of w v) as [k|] eqn:Hkey; cbn in H |- *; [|destruct H as [e [= -> ->]]; split_and!; [done|done|eauto|done]].
  pose proof (key_prefix w v k Hkind Hkey) as Hp. pose proof (own_absent w c k Hc Hp) as Habs.
  destruct (own w c !! k) as [v'|] eqn:Hown; cbn.
  - rewrite decide_True in H. 2: { destruct (view c !! k); [eauto|]. destruct Habs as [_ Habs]. by specialize (Habs eq_refl). }
    cbn in H. destruct H as (c1 & [= -> ->] & Hwf & Hs & Hv).
    by destruct (view_changed w c c1 k None Hc Hwf Hs Hp Hv) as (H1 & H2 & H3).
  - rewrite decide_False in H by (rewrite (proj1 Habs eq_refl); by intros []).
    cbn in H. destruct H as [e [= -> ->]]. split_and!; [done|done|eauto|done].
Qed.

(** The mutator is only called for the object with the key. *)
Lemma Update_ext c mutator mutator' o :
  cache_ok c → (∀ k o', primary o = Some k → view c !! k = Some o' → mutator o' = mutator' o') →
  Update fmt_v mutator [o] c = Update fmt_v mutator' [o] c.
Proof.
  intros Hc Hm. unfold Update. destruct (find_index PrimaryObjectIndex (schema c)) as [ix|] eqn:Hix; [|done].
  cbn [each_txn]. f_equal. f_equal. unfold update_one. destruct (primary o) as [k|] eqn:Hp.
  - rewrite <-(primary_key_ok c) in Hp by done. rewrite (proj1 (primary_getKey c ix o k Hix) Hp), substring_terminated.
    destruct (First_ok (db c) (FromArgs k)) as (r & Hr & Hro). unfold PrimaryObjectIndex. rewrite Hr. cbn.
    destruct r as [o'|]; [|done]. rewrite (Hm k o'); [done|done|]. apply lookup_view; [apply Hc|].
    destruct (proj1 (Hro o') eq_refl) as [Hin Hk]. split; [done|]. rewrite (stored_object_key c "id") in Hk by apply Hc.
    unfold primary_key. change PrimaryObjectIndex with "id". destruct (object_key c "id" o') as [k'|]; [|done].
    injection Hk as Hk%NUL_inj. by subst.
  - destruct (getKeyForObject o ix) as [[[] key] [err|]] eqn:Hg; try done. exfalso.
    rewrite <-(primary_key_ok c) in Hp by done. unfold primary_key, object_key in Hp. rewrite Hix in Hp. cbn in Hp.
    unfold getKeyForObject, FromObject in Hg. by destruct (keyCreator ix o) as [[[] k'] []].
Qed.

(** A mutator that leaves alone what it would panic on. *)
Definition safe_update w v o : outcome (option obj) := match update spec_Address w v o with Panic => Ok None | r => r end.

Lemma safe_update_holder w v v1 met1 :
  safe_update w v (holder spec_Address w v1 met1) = Ok (if decide (v1 = v) then None else Some (holder spec_Address w v met1)).
Proof. unfold safe_update, update. rewrite held_holder. by case_decide. Qed.

(** The map after an update. *)
Lemma map_update_own w c v o k v1 met1 :
  cache_ok c → Kind (res_meta v) = kind_name w → key_of w v = Some k → primary o = Some k →
  view c !! k = Some (holder spec_Address w v1 met1) →
  map_update c (safe_update w v) o (view c) = Some (<[k := holder spec_Address w v met1]> (view c)).
Proof.
  intros Hc Hkind Hkey Hp Hview. unfold map_update. rewrite (primary_key_ok c o Hc), Hp. cbn. rewrite Hview. cbn. rewrite safe_update_holder.
  case_decide as Hv; [subst v1; by rewrite insert_id|]. rewrite primary_key_ok, holder_primary, Hkey, decide_True by done. unfold map_insert.
  rewrite primary_key_ok, holder_primary, Hkey by done. cbn.
  by rewrite (addable_ok c _ k Hc (holder_kind w v met1 Hkind)) with (w := w) by (rewrite ?holder_primary, ?held_holder; eauto).
Qed.

Lemma Update_own w c v0 met0 v c' x :
  cache_ok c → Kind (res_meta v) = kind_name w → key_of w v0 = key_of w v →
  Update fmt_v (update spec_Address w v) [holder spec_Address w v0 met0] c = (c', x) →
  cache_ok c' ∧ others w c c' ∧
  match key_of w v ≫= λ k, (λ _, k) <$> own w c !! k with
  | Some k => x = Ok () ∧ own w c' = <[k := v]> (own w c)
  | None => (∃ e, x = Err e) ∧ c' = c
  end.
Proof.
  intros Hc Hkind Hsame HU. set (o := holder spec_Address w v0 met0) in *.
  assert (primary o = key_of w v) as Hpo by (rewrite <-Hsame; apply holder_primary).
  rewrite (Update_ext c _ (safe_update w v) o Hc) in HU.
  2: { intros k o' Hk Ho'. rewrite Hpo in Hk. destruct (own_here w c k o' Hc (key_prefix w v k Hkind Hk) Ho') as (v1 & met1 & -> & _).
       rewrite safe_update_holder. unfold update. rewrite held_holder. by case_decide. }
  pose proof (Update_refines fmt_v c (safe_update w v) [o] (co_wf _ Hc)) as H. rewrite HU in H. cbn [each_map] in H.
  specialize (H ltac:(intros o'; unfold safe_update; by destruct (update _ _ _ _))).
  destruct (key_of w v) as [k|] eqn:Hkey; cbn.
  2: { unfold map_update in H. rewrite (primary_key_ok c o Hc), Hpo in H. cbn in H. destruct H as [e [= -> ->]].
       split_and!; [done|done|eauto|done]. }
  pose proof (key_prefix w v k Hkind Hkey) as Hp. destruct (view c !! k) as [o'|] eqn:Hview.
  - destruct (own_here w c k o' Hc Hp Hview) as (v1 & met1 & -> & Hown). rewrite Hown. cbn.
    rewrite (map_update_own w c v o k v1 met1) in H by done. cbn in H. destruct H as (c1 & [= -> ->] & Hwf & Hs & Hv).
    destruct (view_changed w c c1 k (Some (holder spec_Address w v met1)) Hc Hwf Hs Hp Hv) as (H1 & H2 & H3).
    { intros ? [= <-]. by apply holder_kind. }
    split_and!; [done|done|done|]. rewrite H3. cbn. by rewrite held_holder.
  - rewrite (proj2 (own_absent w c k Hc Hp) Hview). cbn. unfold map_update in H. rewrite (primary_key_ok c o Hc), Hpo in H. cbn in H.
    rewrite Hview in H. cbn in H. destruct H as [e [= -> ->]]. split_and!; [done|done|eauto|done].
Qed.

(** ** What is there *)

Definition put (curr : gmap string obj) o : gmap string obj := match primary o with Some k => <[k := o]> curr | None => curr end.

Lemma put_all l curr k o :
  (∀ o o', o ∈ l → o' ∈ l → primary o = primary o' → o = o') → (∀ o, o ∈ l → is_Some (primary o)) →
  foldl put curr l !! k = Some o ↔ (o ∈ l ∧ primary o = Some k) ∨ (Some k ∉ primary <$> l ∧ curr !! k = Some o).
Proof.
  revert curr. induction l as [|o1 l IH]; intros curr Hinj Hall; cbn [foldl]; [set_solver|].
  rewrite IH; [|intros; apply Hinj; [by right|by right|done]|intros; apply Hall; by right].
  destruct (Hall o1) as [k1 Hk1]; [by left|]. unfold put. rewrite Hk1, fmap_cons, Hk1, elem_of_cons, not_elem_of_cons.
  destruct (decide (k = k1)) as [->|Hne].
  - rewrite lookup_insert_eq. split.
    + intros [[Ho Hk]|[Hn [= ->]]]; left; auto.
    + intros [[[->|Ho] Hk]|[[Hn _] _]]; [|by left|done]. destruct (decide (Some k1 ∈ primary <$> l)) as [Hin|Hn]; [|by right].
      apply list_elem_of_fmap in Hin as (o2 & Ho2 & Hin). left. assert (o1 = o2) as ->; [|done]. apply Hinj; [by left|by right|congruence].
  - rewrite lookup_insert_ne by done. split.
    + intros [[Ho Hk]|[Hn Hc]]; [left; auto|]. right. split; [|done]. split; [congruence|done].
    + intros [[[->|Ho] Hk]|[[_ Hn] Hc]]; [congruence|by left|by right].
Qed.

Lemma collect_loop name ix pre itr objs curr :
  keyCreator ix = primaryUniqueKeyCreator → (∀ o, o ∈ itr → is_Some (primary o)) →
  get_loop name (Some ix) pre (Some (collect fmt_v primaryUniqueKeyCreator)) itr objs curr =
    (foldl put curr (take_while (λ o, match getKeyForObject o ix with (_, k, _) => HasPrefix k pre end) itr), Ok objs).
Proof.
  intros Hix. revert curr. induction itr as [|o itr IH]; intros curr Hall; [done|]. destruct (Hall o) as [k Hk]; [by left|].
  assert (primaryUniqueKeyCreator o = (true, k, None)) as Hkey.
  { unfold primary in Hk. by destruct (primaryUniqueKeyCreator o) as [[[] ?] []]; simplify_eq. }
  cbn [get_loop take_while]. unfold getKeyForObject, FromObject. rewrite Hix, Hkey. destruct (HasPrefix (k +:+ NUL) pre); [|done].
  unfold collect at 1. rewrite Hkey. cbn [foldl]. rewrite IH by (intros; apply Hall; by right).
  assert (put curr o = <[k := o]> curr) as -> by (unfold put; by rewrite Hk). do 2 f_equal. unfold getKeyForObject, FromObject. by rewrite Hix.
Qed.

Lemma Get_own w c :
  cache_ok c → ∃ curr, Get c PrimaryObjectIndex (prefix w) (Some (collect fmt_v primaryUniqueKeyCreator)) ∅ = (curr, Ok []) ∧
    ∀ k o, curr !! k = Some o ↔ view c !! k = Some o ∧ HasPrefix k (prefix w) = true.
Proof.
  intros Hc. pose proof (co_wf _ Hc) as Hw. pose proof (unique_primary c) as Hu.
  assert (PrimaryObjectIndex ∈ is_Name <$> schema c) as Hn by apply Hw.
  destruct (scan_spec c PrimaryObjectIndex Hw Hn Hu) as [Hasc Hscan].
  unfold Get. go_simpl. rewrite (LowerBound_scan c PrimaryObjectIndex) by done. set (itr := filter _ (scan _ _)).
  set (ix := {| is_Name := PrimaryObjectIndex; AllowMissing := false; keyCreator := primaryUniqueKeyCreator |} : IndexSpecifier R).
  assert (find_index PrimaryObjectIndex (schema c) = Some ix) as -> by (by rewrite (co_schema _ Hc)).
  assert (∀ o, stored_key (db c) PrimaryObjectIndex o = (λ k, k +:+ NUL) <$> primary o) as Hst.
  { intros o. rewrite stored_object_key by done. by rewrite <-(primary_key_ok c). }
  assert (∀ o, o ∈ itr → o ∈ scan c PrimaryObjectIndex ∧
    ∃ k, stored_key (db c) PrimaryObjectIndex o = Some k ∧ bytes_le (FromArgs (prefix w)) k = true) as Hitr.
  { intros o [Hb Ho]%list_elem_of_filter. split; [done|]. destruct (stored_key _ _ _) as [k|]; naive_solver. }
  assert (∀ o, o ∈ itr → is_Some (primary o)) as Hsome.
  { intros o Ho. destruct (Hitr o Ho) as (_ & k & Hk & _). rewrite Hst in Hk. destruct (primary o); [eauto|done]. }
  rewrite (collect_loop _ ix) by done. eexists. split; [done|]. intros k o.
  rewrite (take_while_ext _ (λ o, match stored_key (db c) PrimaryObjectIndex o with Some k => HasPrefix k (prefix w) | None => false end)).
  2: { intros o' Ho'. rewrite Hst. destruct (Hsome o' Ho') as [k' Hk']. rewrite Hk'. cbn. unfold getKeyForObject, FromObject. cbn.
       unfold primary in Hk'. by destruct (primaryUniqueKeyCreator o') as [[[] ?] []]; simplify_eq. }
  rewrite (take_while_prefix (stored_key (db c) PrimaryObjectIndex) (prefix w) itr).
  2: { apply ascending_filter; [done|]. intros o' Ho'. by apply Hscan. }
  2: { intros o' Ho'. destruct (Hitr o' Ho') as (_ & k' & Hk' & Hle). exists k'. split; [done|]. eapply bytes_le_trans; [|exact Hle].
       apply bytes_le_prefix. }
  rewrite put_all.
  - rewrite lookup_empty. unfold itr. rewrite list_filter_filter, !list_elem_of_filter, Hscan. rewrite lookup_view, primary_key_ok by done.
    pose proof (prefix_terminated k (prefix w)) as Hterm. rewrite Hst. destruct (primary o) as [k'|]; cbn; [|naive_solver].
    split.
    + intros [[[[H1 H2] [H3 _]] [= ->]]|[_ [=]]]. by rewrite <-Hterm.
    + intros [[H3 [= ->]] H1]. left. rewrite <-Hterm in H1. destruct H1. split_and!; [done|done|done|eauto|done].
  - intros o1 o2 [_ H1]%list_elem_of_filter [_ H2]%list_elem_of_filter Heq. apply Hitr in H1 as [H1%Hscan (k1 & Hk1 & _)].
    apply Hitr in H2 as [H2%Hscan _]. apply (Hu o1 o2 k1); [apply H1|apply H2|done|]. by rewrite Hst, <-Heq, <-Hst.
  - intros o' [_ Ho']%list_elem_of_filter. by apply Hsome.
Qed.

(** ** Watchers among others *)

Notation wtrace := (list (event cop)).
Implicit Types (tr : wtrace).

(** What a call may be answered and leave the cache as. The API server answers with
    resources of the kind that is watched. *)
Definition cache_answers w {X} (e : cop X) c c' : X → Prop :=
  match e in Watchers.cop T return T → Prop with
  | ListResources => λ x, c' = c ∧ match x with inr items => Forall (of_kind w) items | inl _ => True end
  | StartWatch => λ _, c' = c
  | Receive => λ x, c' = c ∧ match x with WatchEvent _ (inr v) => of_kind w v | _ => True end
  | CacheKeyCreator idxName => λ x, c' = c ∧ x = GetKeyCreator c idxName
  | CacheGet idxName keyPrefix f => λ x, c' = c ∧ x = Get c idxName keyPrefix (Some f) ∅
  | CacheAdd o => λ x, Add [o] c = (c', x)
  | CacheUpdate mutator o => λ x, Update fmt_v mutator [o] c = (c', x)
  | CacheDelete o => λ x, cache_Delete [o] c = (c', x)
  end.

Definition lists (ev : event cop) : bool := match ev with Ev e _ => match e with ListResources => true | _ => false end end.

(** What others may have done to the resources of the kind: they have only changed those at
    the keys [D1], which grow, and have not removed any. *)
Definition disturbed m (D : gset string) m1 (D1 : gset string) : Prop :=
  D ⊆ D1 ∧ (∀ k, k ∉ D1 → m1 !! k = m !! k) ∧ ∀ k, is_Some (m !! k) → is_Some (m1 !! k).

Lemma disturbed_refl m D : disturbed m D m D.
Proof. done. Qed.

Lemma disturbed_trans m D m1 D1 m2 D2 : disturbed m D m1 D1 → disturbed m1 D1 m2 D2 → disturbed m D m2 D2.
Proof. intros (H1 & H2 & H3) (H4 & H5 & H6). split_and!; [set_solver| |auto]. intros k Hk. rewrite H5 by done. apply H2. set_solver. Qed.

(** The keys that are disturbed are forgotten when the resources are listed. *)
Definition since_list (ev : event cop) (D : gset string) : gset string := if lists ev then ∅ else D.

(** Whatever others do to the cache between the calls, as long as they disturb the resources
    [m] of the kind at the keys [D] only: the program does not panic, leaves the objects of
    other kinds alone, and [Q] holds in the end. *)
Fixpoint wp_own w {A} (p : io cop A) tr m (D : gset string) (Q : wtrace → contents → gset string → A → Prop) : Prop :=
  match p with
  | Ret a => ∀ m1 D1, disturbed m D m1 D1 → Q tr m1 D1 a
  | Crash => False
  | Vis e k => ∀ c c' x D1, cache_ok c → disturbed m D (own w c) D1 → cache_answers w e c c' x →
      cache_ok c' ∧ others w c c' ∧ wp_own w (k x) (tr ++ [Ev e x]) (own w c') (since_list (Ev e x) D1) Q
  end.

Lemma wp_own_disturbed w {A} (p : io cop A) tr m D m1 D1 Q : wp_own w p tr m D Q → disturbed m D m1 D1 → wp_own w p tr m1 D1 Q.
Proof.
  intros H Hd. destruct p as [a| |X e k]; simpl in *; [|done|].
  - intros m2 D2 H2. eapply H, disturbed_trans; eauto.
  - intros c c' x D2 Hc H2. apply H; [done|]. by eapply disturbed_trans.
Qed.

Lemma wp_own_bind w {A B} (p : io cop A) (f : A → io cop B) tr m D Q :
  wp_own w p tr m D (λ tr' m' D' a, wp_own w (f a) tr' m' D' Q) → wp_own w (p ≫= f) tr m D Q.
Proof.
  revert tr m D. induction p as [a| |X e k IH]; intros tr m D; simpl; [|done|].
  - intros H. by apply H.
  - intros H c c' x D1 Hc Hm Hx. destruct (H c c' x D1 Hc Hm Hx) as (H1 & H2 & H3). split_and!; [done|done|]. by apply IH.
Qed.

Lemma wp_own_mono w {A} (p : io cop A) tr m D (Q Q' : wtrace → contents → gset string → A → Prop) :
  wp_own w p tr m D Q → (∀ tr' m' D' a, Q tr' m' D' a → Q' tr' m' D' a) → wp_own w p tr m D Q'.
Proof.
  intros H HQ. revert tr m D H. induction p as [a| |X e k IH]; intros tr m D; simpl; [auto|done|]. intros H c c' x D1 Hc Hm Hx.
  destruct (H c c' x D1 Hc Hm Hx) as (H1 & H2 & H3). split_and!; [done|done|]. by apply IH.
Qed.

Lemma others_refl w c : others w c c.
Proof. done. Qed.

(** The calls, by what they do to the resources. *)
Lemma add_wp w {A} v met (k : outcome () → io cop A) tr m D Q :
  Kind (res_meta v) = kind_name w →
  (∀ x m1 D1, disturbed m D m1 D1 → match key_of w v with Some key => x = Ok () | None => ∃ e, x = Err e end →
    wp_own w (k x) (tr ++ [Ev (CacheAdd (holder spec_Address w v met)) x])
      (match key_of w v with Some key => <[key := v]> m1 | None => m1 end) D1 Q) →
  wp_own w (Vis (CacheAdd (holder spec_Address w v met)) k) tr m D Q.
Proof.
  intros Hk H c c' x D1 Hc Hd Hx. destruct (Add_own w c v met c' x Hc Hk Hx) as (H1 & H2 & H3). split_and!; [done|done|].
  specialize (H x _ _ Hd). destruct (key_of w v) as [key|]; destruct H3 as [H3 H4]; [rewrite H4|rewrite H4]; by apply H.
Qed.

(** The key of a resource that is there. *)
Definition present w m v : option string := key_of w v ≫= λ k, (λ _, k) <$> m !! k.

Lemma update_wp w {A} v0 met0 v (k : outcome () → io cop A) tr m D Q :
  Kind (res_meta v) = kind_name w → key_of w v0 = key_of w v →
  (∀ x m1 D1, disturbed m D m1 D1 → match present w m1 v with Some key => x = Ok () | None => ∃ e, x = Err e end →
    wp_own w (k x) (tr ++ [Ev (CacheUpdate (update spec_Address w v) (holder spec_Address w v0 met0)) x])
      (match present w m1 v with Some key => <[key := v]> m1 | None => m1 end) D1 Q) →
  wp_own w (Vis (CacheUpdate (update spec_Address w v) (holder spec_Address w v0 met0)) k) tr m D Q.
Proof.
  intros Hk Hs H c c' x D1 Hc Hd Hx. destruct (Update_own w c v0 met0 v c' x Hc Hk Hs Hx) as (H1 & H2 & H3). split_and!; [done|done|].
  specialize (H x _ _ Hd). unfold present in *. destruct (key_of w v ≫= _) as [key|]; destruct H3 as [H3 H4]; rewrite H4; by apply H.
Qed.

Lemma delete_wp w {A} v met (k : outcome () → io cop A) tr m D Q :
  Kind (res_meta v) = kind_name w →
  (∀ x m1 D1, disturbed m D m1 D1 → match present w m1 v with Some key => x = Ok () | None => ∃ e, x = Err e end →
    wp_own w (k x) (tr ++ [Ev (CacheDelete (holder spec_Address w v met)) x])
      (match present w m1 v with Some key => delete key m1 | None => m1 end) D1 Q) →
  wp_own w (Vis (CacheDelete (holder spec_Address w v met)) k) tr m D Q.
Proof.
  intros Hk H c c' x D1 Hc Hd Hx. destruct (Delete_own w c v met c' x Hc Hk Hx) as (H1 & H2 & H3). split_and!; [done|done|].
  specialize (H x _ _ Hd). unfold present in *. destruct (key_of w v ≫= _) as [key|]; destruct H3 as [H3 H4]; rewrite H4; by apply H.
Qed.

(** ** The loops *)

Definition insert_key w m v : contents := match key_of w v with Some k => <[k := v]> m | None => m end.

(** What is there belongs to resources of the kind that are there. *)
Definition current w (curr : gmap string obj) m : Prop :=
  ∀ k o, curr !! k = Some o → ∃ v met, o = holder spec_Address w v met ∧ key_of w v = Some k ∧ Kind (res_meta v) = kind_name w ∧ is_Some (m !! k).

Definition listed_as w (items : list resource) : list resource := updateGroupVersionKind w <$> items.

(** Events between a watcher and the cache. *)
Definition cache_call (ev : event cop) : bool :=
  match ev with Ev e _ => match e with ListResources | StartWatch | Receive => false | _ => true end end.
Definition calls_only tr tr' : Prop := ∃ new, tr' = tr ++ new ∧ Forall (λ ev, cache_call ev = true) new.

Lemma calls_only_refl tr : calls_only tr tr.
Proof. exists []. by rewrite app_nil_r. Qed.
Lemma calls_only_step tr ev tr' : cache_call ev = true → calls_only (tr ++ [ev]) tr' → calls_only tr tr'.
Proof. intros Hev (new & -> & Hnew). exists (ev :: new). rewrite <-app_assoc. split; [done|]. by constructor. Qed.

Definition dropped w (items : list resource) (curr curr' : gmap string obj) : Prop :=
  ∀ k, curr' !! k = if decide (Some k ∈ norm_key w <$> items) then None else curr !! k.

Lemma dropped_cons w v items k curr curr' :
  norm_key w v = Some k → dropped w items (delete k curr) curr' → dropped w (v :: items) curr curr'.
Proof.
  intros Hk H k'. rewrite H, fmap_cons, Hk. destruct (decide (k' = k)) as [->|Hne].
  - rewrite lookup_delete_eq, (decide_True (P := Some k ∈ Some k :: _)) by (by left). by destruct (decide _).
  - rewrite lookup_delete_ne by done. destruct (decide (Some k' ∈ norm_key w <$> items)) as [Hin|Hin].
    + by rewrite decide_True by (by right).
    + rewrite decide_False; [done|]. intros [[= ->]|?]%elem_of_cons; done.
Qed.

Lemma current_disturbed w curr m D m1 D1 : current w curr m → disturbed m D m1 D1 → current w curr m1.
Proof. intros Hcur (_ & _ & Hd) k o Ho. destruct (Hcur k o Ho) as (v & met & ? & ? & ? & ?). exists v, met. auto. Qed.

Lemma current_step w curr m key v : current w curr m → current w (delete key curr) (<[key := v]> m).
Proof.
  intros H k o Ho. apply lookup_delete_Some in Ho as [Hne Ho]. destruct (H k o Ho) as (v0 & met & ? & ? & ? & ?).
  exists v0, met. split_and!; [done..|]. by rewrite lookup_insert_ne.
Qed.

Lemma inserted_lookup w l m k :
  foldl (insert_key w) m l !! k = if decide (Some k ∈ key_of w <$> l) then foldl (insert_key w) ∅ l !! k else m !! k.
Proof.
  induction l as [|v l IH] using rev_ind; [by rewrite decide_False by apply not_elem_of_nil|].
  rewrite !foldl_snoc, fmap_app. unfold insert_key at 1 3. cbn [fmap list_fmap]. destruct (key_of w v) as [k1|] eqn:Hk.
  - destruct (decide (k = k1)) as [->|Hne].
    + rewrite !lookup_insert_eq, decide_True; [done|]. apply elem_of_app. right. by left.
    + rewrite !lookup_insert_ne, IH by done. apply decide_ext. set_solver.
  - rewrite IH. apply decide_ext. set_solver.
Qed.

(** What [populate] has done, except where others were. *)
Definition populated w items curr m D tr tr' m' (D' : gset string) (r : error + gmap string obj) : Prop :=
  calls_only tr tr' ∧ D ⊆ D' ∧
  match r with
  | inr curr' => Forall (λ v, is_Some (norm_key w v)) items ∧
      (∀ k, k ∉ D' → m' !! k = foldl (insert_key w) m (listed_as w items) !! k) ∧ current w curr' m' ∧ dropped w items curr curr'
  | inl _ => Exists (λ v, norm_key w v = None) items
  end.

Lemma populated_step w res items curr m D m1 D1 key tr ev tr' m' D' r :
  norm_key w res = Some key → cache_call ev = true → disturbed m D m1 D1 →
  populated w items (delete key curr) (<[key := updateGroupVersionKind w res]> m1) D1 (tr ++ [ev]) tr' m' D' r →
  populated w (res :: items) curr m D tr tr' m' D' r.
Proof.
  intros Hkey Hev (Hd1 & Hd2 & _) (Ht & HD & Hr). split_and!; [by eapply calls_only_step|set_solver|].
  destruct r as [err|curr']; [by right|]. destruct Hr as (H1 & H2 & H3 & H4). split_and!; [constructor; [by eexists|done]| |done|by eapply dropped_cons].
  intros k Hk. rewrite H2 by done. change (listed_as w (res :: items)) with (updateGroupVersionKind w res :: listed_as w items). cbn [foldl].
  assert (insert_key w m (updateGroupVersionKind w res) = <[key := updateGroupVersionKind w res]> m) as ->
    by (unfold insert_key; unfold norm_key in Hkey; by rewrite Hkey).
  rewrite (inserted_lookup w _ (<[key := _]> m1)), (inserted_lookup w _ (<[key := _]> m)). case_decide; [done|].
  destruct (decide (k = key)) as [->|Hne]; [by rewrite !lookup_insert_eq|]. rewrite !lookup_insert_ne by done. apply Hd2. set_solver.
Qed.

Lemma populate_wp w items curr tr m D :
  Forall (of_kind w) items → current w curr m →
  wp_own w (populate spec_Address no_metrics fmt_resource w primaryUniqueKeyCreator items curr) tr m D (populated w items curr m D tr).
Proof.
  intros Hk. revert curr tr m D. induction Hk as [|res items Hkind Hk IH]; intros curr tr m D Hcur; cbn [populate].
  { intros m1 D1 Hd. split_and!; [apply calls_only_refl|apply Hd|done|apply Hd|by eapply current_disturbed|].
    intros k. by rewrite decide_False by apply not_elem_of_nil. }
  unfold or_fail. assert (norm_key w res = primary (create spec_Address no_metrics w (updateGroupVersionKind w res))) as Hnk by done.
  unfold primary in Hnk. destruct (primaryUniqueKeyCreator _) as [[[] key] [err|]] eqn:Hkey;
    try (intros m1 D1 Hd; split_and!; [apply calls_only_refl|apply Hd|by constructor]).
  assert (norm_key w res = Some key) as Hkey' by done. unfold norm_key in Hkey'.
  destruct (curr !! key) as [existing|] eqn:Hex.
  - destruct (Hcur key existing Hex) as (v0 & met0 & -> & Hk0 & Hkind0 & Hsome).
    apply update_wp; [done|congruence|]. intros x m1 D1 Hd. unfold present. rewrite Hkey'. cbn.
    destruct (proj2 (proj2 Hd) key Hsome) as [v1 ->]. cbn. intros ->.
    eapply wp_own_mono; [eapply IH, current_step, current_disturbed; eauto|]. intros tr' m' D' r. by apply populated_step.
  - apply (add_wp w (updateGroupVersionKind w res) no_metrics); [done|]. intros x m1 D1 Hd. rewrite Hkey'. intros ->.
    eapply wp_own_mono; [eapply (IH curr); rewrite <-(delete_id curr key Hex); eapply current_step, current_disturbed; eauto|].
    intros tr' m' D' r Hr. eapply populated_step; [done| |done|]; [|rewrite delete_id by done; exact Hr]. done.
Qed.

(** What is stale: objects of resources of the kind that are there, each once. *)
Definition stale_in w m (stale : list obj) : Prop :=
  NoDup (primary <$> stale) ∧
  Forall (λ o, ∃ v met k, o = holder spec_Address w v met ∧ key_of w v = Some k ∧ Kind (res_meta v) = kind_name w ∧ is_Some (m !! k)) stale.

Lemma stale_in_disturbed w m D m1 D1 stale : stale_in w m stale → disturbed m D m1 D1 → stale_in w m1 stale.
Proof.
  intros [Hnd Hall] (_ & _ & Hd). split; [done|]. eapply Forall_impl; [exact Hall|]. intros o (v & met & k & ? & ? & ? & ?).
  exists v, met, k. auto.
Qed.

Lemma remove_stale_wp w stale tr m D :
  stale_in w m stale →
  wp_own w (remove_stale stale) tr m D (λ tr' m' D' r, calls_only tr tr' ∧ D ⊆ D' ∧ r = inr () ∧
    ∀ k, k ∉ D' → m' !! k = if decide (Some k ∈ primary <$> stale) then None else m !! k).
Proof.
  revert tr m D. induction stale as [|o stale IH]; intros tr m D Hst; cbn [remove_stale].
  { intros m1 D1 (Hd1 & Hd2 & _). split_and!; [apply calls_only_refl|done|done|]. intros k Hk. rewrite decide_False by apply not_elem_of_nil. by apply Hd2. }
  pose proof Hst as [Hnd Hall]. inversion Hall as [|? ? (v & met & k & -> & Hk & Hkind & [v' Hm]) _]; subst.
  rewrite fmap_cons, holder_primary, Hk in Hnd. apply NoDup_cons in Hnd as [Hni Hnd]. unfold or_fail. apply delete_wp; [done|].
  intros x m1 D1 Hd. unfold present. rewrite Hk. cbn. destruct (proj2 (proj2 Hd) k (mk_is_Some _ _ Hm)) as [v1 ->]. cbn. intros ->.
  eapply wp_own_mono; [apply IH; split; [done|]|].
  { destruct (stale_in_disturbed w m D m1 D1 _ Hst Hd) as [_ Hall1]. apply Forall_cons in Hall1 as [_ Hall1].
    apply Forall_forall. intros o Ho. destruct (proj1 (Forall_forall _ _) Hall1 o Ho) as (v2 & met2 & k2 & -> & Hk2 & Hkind2 & Hs).
    exists v2, met2, k2. split_and!; [done..|]. rewrite lookup_delete_ne; [done|]. intros ->. apply Hni.
    apply list_elem_of_fmap. eexists. split; [|exact Ho]. by rewrite holder_primary. }
  intros tr' m' D' r (Ht & HD & -> & H). destruct Hd as (Hd1 & Hd2 & _).
  split_and!; [eapply calls_only_step; [|exact Ht]; done|set_solver|done|]. intros k' Hk'. rewrite H, ?fmap_cons, holder_primary, Hk by done.
  destruct (decide (k' = k)) as [->|Hne].
  - rewrite lookup_delete_eq, (decide_True (P := Some k ∈ Some k :: _)) by (by left). by destruct (decide _).
  - rewrite lookup_delete_ne, Hd2 by (done || set_solver). apply decide_ext. rewrite elem_of_cons. naive_solver.
Qed.

(** ** The events of a watch *)

(** The key of a resource that is there, or may be, because its key was disturbed. *)
Definition expected w (D : gset string) m v : option string :=
  k ← key_of w v; if decide (k ∈ D ∨ is_Some (m !! k)) then Some k else None.

Definition apply_event w D m (ev : string * resource) : option contents :=
  let v := updateGroupVersionKind w ev.2 in
  if decide (ev.1 = Added) then k ← key_of w v; Some (<[k := v]> m)
  else if decide (ev.1 = Modified) then k ← expected w D m v; Some (<[k := v]> m)
  else if decide (ev.1 = Deleted) then k ← expected w D m v; Some (delete k m)
  else Some m.

Fixpoint apply_events w D m (evs : list (string * resource)) : option contents :=
  match evs with
  | [] => Some m
  | ev :: evs' => m' ← apply_event w D m ev; apply_events w D m' evs'
  end.

Lemma apply_event_mono w D D' m ev m' : D ⊆ D' → apply_event w D m ev = Some m' → apply_event w D' m ev = Some m'.
Proof.
  intros HD. assert (∀ v k, expected w D m v = Some k → expected w D' m v = Some k) as H.
  { intros v k. unfold expected. destruct (key_of w v); cbn; [|done]. case_decide as H; [|done]. by rewrite decide_True by set_solver. }
  unfold apply_event. repeat case_decide; try done;
    (destruct (expected w D m _) as [k|] eqn:E; cbn; [|done]; by rewrite (H _ _ E)).
Qed.

Lemma apply_events_mono w D D' m evs m' : D ⊆ D' → apply_events w D m evs = Some m' → apply_events w D' m evs = Some m'.
Proof.
  intros HD. revert m. induction evs as [|ev evs IH]; intros m; cbn; [done|]. destruct (apply_event w D m ev) as [m1|] eqn:E; cbn; [|done].
  rewrite (apply_event_mono w D D' m ev m1 HD E). apply IH.
Qed.

(** The same resources, except at some keys. *)
Definition agree (D : gset string) m m' : Prop := ∀ k, k ∉ D → m' !! k = m !! k.

Lemma agree_disturbed D D1 m m' m1 : agree D m m' → disturbed m' D m1 D1 → agree D1 m m1.
Proof. intros H (H1 & H2 & _) k Hk. rewrite H2 by done. apply H. set_solver. Qed.

Lemma agree_insert D m m' k v : agree D m m' → agree D (<[k := v]> m) (<[k := v]> m').
Proof. intros H k' Hk'. destruct (decide (k = k')) as [->|Hne]; [by rewrite !lookup_insert_eq|]. rewrite !lookup_insert_ne by done. auto. Qed.

Lemma agree_delete D m m' k : agree D m m' → agree D (delete k m) (delete k m').
Proof. intros H k' Hk'. destruct (decide (k = k')) as [->|Hne]; [by rewrite !lookup_delete_eq|]. rewrite !lookup_delete_ne by done. auto. Qed.

(** What is there is expected. *)
Lemma present_expected w D m m' v k : agree D m m' → present w m' v = Some k → expected w D m v = Some k.
Proof.
  intros Ha Hp. unfold present, expected in *. destruct (key_of w v) as [k'|]; [|done]. cbn in *.
  destruct (m' !! k') as [v'|] eqn:E; [|done]. injection Hp as ->. rewrite decide_True; [done|].
  destruct (decide (k ∈ D)); [by left|]. right. rewrite <-Ha by done. eauto.
Qed.

(** The events of a trace. *)
Definition received_one (ev : event cop) : option (string * resource) :=
  match ev with
  | Ev e x =>
      match e in Watchers.cop T return T → option (string * resource) with
      | Receive => λ i, match i with
          | WatchEvent type (inr v) => if decide (type = ErrorType) then None else Some (type, v)
          | _ => None
          end
      | _ => λ _, None
      end x
  end.
Definition received tr : list (string * resource) := omap received_one tr.

Definition starts (ev : event cop) : bool :=
  match ev with Ev e x => match e in Watchers.cop T return T → bool with StartWatch => λ err, negb (bool_decide (is_Some err)) | _ => λ _, false end x end.

(** All events were applied, except at the keys that were disturbed; or there was an error. *)
Definition follows w D m (evs : list (string * resource)) m' (r : watch_end) : Prop :=
  (∃ m1, apply_events w D m evs = Some m1 ∧ agree D m1 m') ∨ ∃ e, r = Failed e.

Lemma follows_cons w D D' m m1 m' ev evs r :
  D ⊆ D' → apply_event w D m ev = Some m1 → follows w D' m1 evs m' r → follows w D' m (ev :: evs) m' r.
Proof.
  intros HD H [(m2 & H1 & H2)|He]; [left|by right]. exists m2. split; [|done]. cbn. by rewrite (apply_event_mono w D D' m ev m1 HD H).
Qed.

Lemma follows_disturbed w D m evs m' r m1 D1 : follows w D m evs m' r → disturbed m' D m1 D1 → follows w D1 m evs m1 r.
Proof.
  intros [(m2 & H1 & H2)|He] Hd; [left|by right]. exists m2. split; [eapply apply_events_mono; [apply Hd|done]|by eapply agree_disturbed].
Qed.

(** The part of a trace after a watch has started. *)
Definition only_receives tr tr' (evs : list (string * resource)) : Prop :=
  ∃ new, tr' = tr ++ new ∧ Forall (λ ev, lists ev = false ∧ starts ev = false) new ∧ received new = evs.

Lemma only_receives_step tr ev tr' evs :
  lists ev = false → starts ev = false → only_receives (tr ++ [ev]) tr' evs →
  only_receives tr tr' (match received_one ev with Some x => x :: evs | None => evs end).
Proof.
  intros Hl Hs (new & -> & Hnew & <-). exists (ev :: new). rewrite <-app_assoc. split_and!; [done|by constructor|].
  unfold received. cbn. by destruct (received_one ev).
Qed.

Lemma only_receives_refl tr : only_receives tr tr [].
Proof. exists []. by rewrite app_nil_r. Qed.

(** A call for an event, that is applied or refused. *)
Lemma event_wp w {A} type v e (k : outcome () → io cop A) tr m0 m D Q :
  of_kind w v → handle_event spec_Address no_metrics w type v = Some e → agree D m0 m →
  (∀ m1 m' D1, D ⊆ D1 → apply_event w D1 m0 (type, v) = Some m1 → agree D1 m1 m' → wp_own w (k (Ok ())) (tr ++ [Ev e (Ok ())]) m' D1 Q) →
  (∀ m' D1 err, D ⊆ D1 → wp_own w (k (Err err)) (tr ++ [Ev e (Err err)]) m' D1 Q) →
  wp_own w (Vis e k) tr m D Q.
Proof.
  intros Hk He Ha H Herr. unfold handle_event, apply_event in *. cbn [fst snd] in *.
  assert (∀ m1 D1, disturbed m D m1 D1 → agree D1 m0 m1 ∧ D ⊆ D1) as Hda.
  { intros m1 D1 Hd. split; [by eapply agree_disturbed|apply Hd]. }
  repeat case_decide; simplify_eq.
  - apply add_wp; [done|]. intros x m1 D1 [Hd HD]%Hda. destruct (key_of w (updateGroupVersionKind w v)) as [key|] eqn:Hkey; [|intros [err ->]; by apply Herr].
    intros ->. eapply H; [done|done|]. by apply agree_insert.
  - apply update_wp; [done|done|]. intros x m1 D1 [Hd HD]%Hda. destruct (present w m1 _) as [key|] eqn:Hp; [|intros [err ->]; by apply Herr].
    intros ->. eapply H; [done|by rewrite (present_expected w D1 m0 m1 _ key)|]. by apply agree_insert.
  - apply delete_wp; [done|]. intros x m1 D1 [Hd HD]%Hda. destruct (present w m1 _) as [key|] eqn:Hp; [|intros [err ->]; by apply Herr].
    intros ->. eapply H; [done|by rewrite (present_expected w D1 m0 m1 _ key)|]. by apply agree_delete.
Qed.

Lemma handle_event_quiet w type v e x : handle_event spec_Address no_metrics w type v = Some e →
  lists (Ev e x) = false ∧ starts (Ev e x) = false ∧ received_one (Ev e x) = None.
Proof. unfold handle_event. intros He. repeat case_decide; by simplify_eq. Qed.

Lemma receive_wp w n tr m0 m D :
  agree D m0 m →
  wp_own w (receive spec_Address no_metrics w n) tr m D (λ tr' m' D' r, ∃ evs, only_receives tr tr' evs ∧ D ⊆ D' ∧ follows w D' m0 evs m' r).
Proof.
  revert tr m0 m D. induction n as [|n IH]; intros tr m0 m D Ha; cbn [receive].
  { intros m1 D1 Hd. exists []. split_and!; [apply only_receives_refl|apply Hd|]. left. exists m0. split; [done|by eapply agree_disturbed]. }
  intros c c' x D1 Hc Hd [-> Hx]. split_and!; [done|apply others_refl|]. set (tr1 := tr ++ [_]). cbn [since_list lists].
  pose proof (agree_disturbed _ _ _ _ _ Ha Hd) as Ha1. destruct Hd as (HD & _ & _).
  assert (∀ tr' evs, only_receives tr1 tr' evs →
    only_receives tr tr' (match received_one (Ev Receive x) with Some y => y :: evs | None => evs end)) as Hrec
    by (intros tr' evs; by apply only_receives_step).
  assert (received_one (Ev Receive x) = None → ∀ r, wp_own w (Ret r) tr1 (own w c) D1 (λ tr' m' D' r,
    ∃ evs, only_receives tr tr' evs ∧ D ⊆ D' ∧ follows w D' m0 evs m' r)) as Hend.
  { intros Hn r m2 D2 Hd2. exists []. specialize (Hrec tr1 [] (only_receives_refl tr1)). rewrite Hn in Hrec.
    split_and!; [done|destruct Hd2; set_solver|]. left. exists m0. split; [done|by eapply agree_disturbed]. }
  destruct x as [type [T|v]| |]; [| |by apply Hend|by apply Hend].
  { case_decide; by apply Hend. }
  case_decide as Ht; [apply Hend; cbn; by rewrite decide_True|].
  assert (received_one (Ev Receive (WatchEvent type (inr v))) = Some (type, v)) as Hone by (cbn; by rewrite decide_False).
  rewrite Hone in Hrec. destruct (handle_event _ _ w type v) as [e|] eqn:He.
  - eapply (event_wp w type v e _ _ m0); [exact Hx|exact He|exact Ha1| |].
    + intros m1 m' D2 HD2 Happ Ha2. eapply wp_own_mono; [by apply IH|]. intros tr' m2 D' r (evs & Hr & HD' & Hf).
      exists ((type, v) :: evs). split_and!; [|set_solver|by eapply follows_cons]. apply Hrec.
      destruct (handle_event_quiet w type v e (Ok ()) He) as (Hl & Hs & Hn).
      pose proof (only_receives_step tr1 _ tr' evs Hl Hs Hr) as H. by rewrite Hn in H.
    + intros m' D2 err HD2 m2 D3 [Hd3 _]. exists [(type, v)]. split_and!; [|set_solver|right; by eexists]. apply Hrec.
      destruct (handle_event_quiet w type v e (Err err) He) as (Hl & Hs & Hn).
      pose proof (only_receives_step tr1 _ _ [] Hl Hs (only_receives_refl _)) as H. by rewrite Hn in H.
  - eapply wp_own_mono; [by apply IH|]. intros tr' m' D' r (evs & Hr & HD' & Hf). exists ((type, v) :: evs).
    split_and!; [by apply Hrec|set_solver|]. eapply follows_cons; [exact HD'| |exact Hf].
    unfold handle_event, apply_event in *. cbn [fst snd] in *. by repeat case_decide.
Qed.

(** ** A round *)

(** The resources that were listed. *)
Definition mirror w (items : list resource) : contents := foldl (insert_key w) ∅ (listed_as w items).

Lemma mirror_lookup w items m1 m curr curr' m2 t k :
  m1 !! k = foldl (insert_key w) m (listed_as w items) !! k → (∀ k, is_Some (curr !! k) ↔ is_Some (m !! k)) →
  current w curr' m1 → dropped w items curr curr' →
  m2 !! k = (if decide (Some k ∈ primary <$> range_values t curr') then None else m1 !! k) → m2 !! k = mirror w items !! k.
Proof.
  intros Hm1 Hcurr Hcur Hdrop ->.
  assert (norm_key w <$> items = key_of w <$> listed_as w items) as Hkeys by (unfold listed_as; by rewrite <-list_fmap_compose).
  assert (Some k ∈ primary <$> range_values t curr' ↔ is_Some (curr' !! k)) as Hst.
  { rewrite list_elem_of_fmap. split.
    - intros (o & Hp & Ho). apply elem_of_range_values in Ho as [k' Hk']. destruct (Hcur k' o Hk') as (v & met & -> & Hkey & _).
      rewrite holder_primary, Hkey in Hp. injection Hp as ->. eauto.
    - intros [o Ho]. exists o. destruct (Hcur k o Ho) as (v & met & -> & Hkey & _). rewrite holder_primary. split; [done|].
      apply elem_of_range_values. eauto. }
  specialize (Hdrop k). rewrite Hkeys in Hdrop. unfold mirror. rewrite Hm1, (inserted_lookup w _ m), (inserted_lookup w _ ∅).
  destruct (decide (Some k ∈ key_of w <$> listed_as w items)) as [Hin|Hin].
  - by rewrite decide_False by (rewrite Hst, Hdrop; by intros []).
  - rewrite lookup_empty. case_decide as Hs; [done|]. apply eq_None_not_Some. rewrite <-Hcurr, <-Hdrop, <-Hst. done.
Qed.

Lemma stale_ok w t curr' m1 : current w curr' m1 → stale_in w m1 (range_values t curr').
Proof.
  intros Hcur. split.
  - assert (primary <$> range_values t curr' = Some <$> range_keys t curr') as ->.
    { unfold range_values, range_keys. rewrite <-!list_fmap_compose. apply list_fmap_ext. intros i [k o] Hi. cbn.
      apply list_elem_of_lookup_2, elem_of_range in Hi. destruct (Hcur k o Hi) as (v & met & -> & Hkey & _). by rewrite holder_primary. }
    apply NoDup_fmap_2; [apply _|]. apply NoDup_range_keys.
  - apply Forall_forall. intros o Ho. apply elem_of_range_values in Ho as [k Hk]. destruct (Hcur k o Hk) as (v & met & ? & ? & ? & ?).
    exists v, met, k. by split_and!.
Qed.

(** Why a round ends before the watch has started. *)
Definition excused w (new : wtrace) : Prop :=
  (∃ e, Ev ListResources (inl e) ∈ new) ∨
  (∃ items, Ev ListResources (inr items) ∈ new ∧ Exists (λ v, norm_key w v = None) items) ∨
  (∃ e, Ev StartWatch (Some e) ∈ new).

(** What one call of [doWatch] has done when it ends: it has failed with an excuse, or the
    watch has started, and the resources are those that were listed, with the events
    applied, except at the keys [D] that were disturbed. *)
Definition round_ok w kw (new : wtrace) m D (r : watcher * watch_end) : Prop :=
  (∃ x rest, new = Ev ListResources x :: rest ∧ Forall (λ ev, lists ev = false) rest) ∧
  ((r.1 = kw ∧ existsb starts new = false ∧ (∃ e, r.2 = Failed e) ∧ excused w new) ∨
   (r.1 = started kw ∧ existsb starts new = true ∧
    ∃ items, Ev ListResources (inr items) ∈ new ∧ Forall (λ v, is_Some (norm_key w v)) items ∧
      follows w D (mirror w items) (received new) m r.2)).

Lemma calls_quiet new : Forall (λ ev, cache_call ev = true) new →
  Forall (λ ev, lists ev = false) new ∧ existsb starts new = false ∧ received new = [].
Proof.
  induction 1 as [|[X e x] new Hev _ (IH1 & IH2 & IH3)]; [done|]. unfold received in *.
  destruct e; try discriminate Hev; cbn; rewrite IH2, IH3; (split_and!; [by constructor|done|done]).
Qed.

(** What a round does after it has listed [items]. *)
Definition filled w kw items (new : wtrace) m D (r : watcher * watch_end) : Prop :=
  Forall (λ ev, lists ev = false) new ∧
  ((r.1 = kw ∧ existsb starts new = false ∧ (∃ e, r.2 = Failed e) ∧
    (Exists (λ v, norm_key w v = None) items ∨ ∃ e, Ev StartWatch (Some e) ∈ new)) ∨
   (r.1 = started kw ∧ existsb starts new = true ∧ Forall (λ v, is_Some (norm_key w v)) items ∧
    follows w D (mirror w items) (received new) m r.2)).

Lemma received_app tr1 tr2 : received (tr1 ++ tr2) = received tr1 ++ received tr2.
Proof. apply omap_app. Qed.

(** The watch, when the cache holds what was listed. *)
Lemma following_wp w kw n items calls tr m D :
  Forall (λ v, is_Some (norm_key w v)) items → Forall (λ ev, cache_call ev = true) calls → agree D (mirror w items) m →
  wp_own w (Vis StartWatch (λ err, match err with Some err => Ret (kw, Failed err) | None =>
    r ← receive spec_Address no_metrics w n; Ret (started kw, r) end)) (tr ++ calls) m D
    (λ tr' m' D' r, ∃ new, tr' = tr ++ new ∧ filled w kw items new m' D' r).
Proof.
  intros Hkeys Hcalls Ha. destruct (calls_quiet calls Hcalls) as (Hl & Hs & Hr). intros c c' err D1 Hc Hd ->. split_and!; [done|apply others_refl|].
  rewrite <-app_assoc. destruct err as [e|].
  - intros m2 D2 _. eexists. split; [done|]. split; [apply Forall_app; split; [done|by repeat constructor]|]. left. rewrite existsb_app, Hs.
    split_and!; [done|done|by eexists|]. right. exists e. apply elem_of_app. right. by left.
  - apply wp_own_bind. eapply wp_own_mono; [eapply receive_wp, agree_disturbed; eauto|].
    intros tr' m' D' r (evs & (new & -> & Hnew & <-) & _ & Hf). intros m2 D2 Hd2.
    rewrite <-app_assoc. eexists. split; [done|]. split.
    + rewrite !Forall_app. split_and!; [done|by repeat constructor|]. eapply Forall_impl; [exact Hnew|]. naive_solver.
    + right. rewrite !existsb_app, Hs. split_and!; [done|done|done|]. rewrite !received_app, Hr. by eapply follows_disturbed.
Qed.

Lemma filled_wp w t n kw items curr tr m D :
  Forall (of_kind w) items → current w curr m → (∀ k, is_Some (curr !! k) ↔ is_Some (m !! k)) →
  wp_own w (r ← populate spec_Address no_metrics fmt_resource w primaryUniqueKeyCreator items curr;
    match r with inl err => Ret (kw, Failed err) | inr curr =>
    r ← remove_stale (range_values t curr);
    match r with inl err => Ret (kw, Failed err) | inr _ =>
    Vis StartWatch (λ err, match err with Some err => Ret (kw, Failed err) | None =>
    r ← receive spec_Address no_metrics w n; Ret (started kw, r) end) end end) tr m D
    (λ tr' m' D' r, ∃ new, tr' = tr ++ new ∧ filled w kw items new m' D' r).
Proof.
  intros Hkind Hcur Hdom. apply wp_own_bind. eapply wp_own_mono; [by apply populate_wp|].
  intros tr1 m1 D1 [e|curr'] [(calls1 & -> & Hcalls1) [HD1 Hr1]].
  { intros m2 D2 _. destruct (calls_quiet _ Hcalls1) as (? & ? & ?). eexists. split; [done|]. split; [done|]. left.
    split_and!; [done|done|by eexists|by left]. }
  destruct Hr1 as (Hkeys & Hm1 & Hcur1 & Hdrop). apply wp_own_bind. eapply wp_own_mono; [apply remove_stale_wp, stale_ok, Hcur1|].
  intros tr2 m2 D2 r2 ((calls2 & -> & Hcalls2) & HD2 & -> & Hm2). rewrite <-app_assoc. apply following_wp; [done|by apply Forall_app|].
  intros k Hk. eapply mirror_lookup; [|done|done|done|by apply Hm2]. apply Hm1. set_solver.
Qed.

Lemma filled_round w kw items (head new : wtrace) m D r :
  Forall (λ ev, cache_call ev = true) head → filled w kw items new m D r →
  round_ok w kw (Ev ListResources (inr items) :: head ++ new) m D r.
Proof.
  intros Hhead [Hl Hr]. destruct (calls_quiet head Hhead) as (Hl' & Hs & Hrec). split; [eexists _, _; split; [done|by apply Forall_app]|].
  cbn [existsb starts orb]. rewrite existsb_app, Hs. unfold excused. destruct Hr as [(? & ? & ? & He)|(? & ? & ? & Hf)]; [left|right].
  - split_and!; [done..|]. right. destruct He as [He|[e He]]; [left; exists items; split; [by left|done]|right; exists e; set_solver].
  - split_and!; [done..|]. exists items. split_and!; [by left|done|]. change (received (?e :: ?l)) with (received l). by rewrite received_app, Hrec.
Qed.

Lemma GetKeyCreator_ok c : cache_ok c → GetKeyCreator c PrimaryObjectIndex = Ok primaryUniqueKeyCreator.
Proof. intros Hc. unfold GetKeyCreator. by rewrite (co_schema _ Hc). Qed.

(** What [Get] collects is what is there. *)
Lemma collected w c curr : cache_ok c →
  (∀ k o, curr !! k = Some o ↔ view c !! k = Some o ∧ HasPrefix k (prefix w) = true) →
  current w curr (own w c) ∧ ∀ k, is_Some (curr !! k) ↔ is_Some (own w c !! k).
Proof.
  intros Hc Hcurr. split.
  - intros k o Ho. apply Hcurr in Ho as [Ho Hp]. destruct (own_here w c k o Hc Hp Ho) as (v & met & -> & Hv).
    destruct (own_key w c k v Hc Hv) as (Hk & Hkind & _). exists v, met. eauto.
  - intros k. split; intros [x Hx].
    + apply Hcurr in Hx as [Hx Hp]. destruct (own_here w c k x Hc Hp Hx) as (v & met & _ & Hv). eauto.
    + destruct (own_key w c k x Hc Hx) as (_ & _ & Hp). apply own_lookup in Hx as [met Hx]; [|done]. eexists. by apply Hcurr.
Qed.

Lemma template_wp w t n kw tr m D :
  wp_own w (watch_template spec_Address no_metrics fmt_v fmt_resource w t n kw) tr m D
    (λ tr' m' D' r, ∃ new, tr' = tr ++ new ∧ round_ok w kw new m' D' r).
Proof.
  unfold watch_template. intros c1 c1' listed D1 Hc1 _ [-> Hlisted]. split_and!; [done|apply others_refl|].
  destruct listed as [e|items].
  { intros m2 D2 _. eexists. split; [done|]. split; [by eexists _, []|]. left. split_and!; [done|done|by eexists|]. left. exists e. by left. }
  intros c2 c2' r2 D2 Hc2 _ [-> ->]. split_and!; [done|apply others_refl|]. rewrite (GetKeyCreator_ok c2 Hc2).
  intros c3 c3' r3 D3 Hc3 _ [-> ->]. split_and!; [done|apply others_refl|].
  destruct (Get_own w c3 Hc3) as (curr & Hget & Hcurr). unfold prefix in Hget. rewrite Hget. cbn [fst snd].
  destruct (collected w c3 curr Hc3 Hcurr) as [Hcur Hdom]. eapply wp_own_mono; [by apply filled_wp|].
  intros tr' m' D' r (new & -> & Hf). rewrite <-!app_assoc. eexists. split; [done|].
  apply (filled_round w kw items [_; _]); [by repeat constructor|done].
Qed.

Lemma doWatch_template w : doWatch spec_Address no_metrics fmt_v fmt_resource w = watch_template spec_Address no_metrics fmt_v fmt_resource w.
Proof. by destruct w. Qed.

(** ** The rounds *)

(** The part of a trace from the last list on. *)
Fixpoint last_round tr : wtrace :=
  match tr with
  | [] => []
  | ev :: tr' => if existsb lists tr' then last_round tr' else if lists ev then ev :: tr' else []
  end.

Lemma last_round_app tr1 x rest :
  Forall (λ ev, lists ev = false) rest → last_round (tr1 ++ Ev ListResources x :: rest) = Ev ListResources x :: rest.
Proof.
  intros Hrest. induction tr1 as [|ev tr1 IH]; cbn.
  - replace (existsb lists rest) with false; [done|]. by induction Hrest as [|ev rest' Hev _ IH]; cbn; rewrite ?Hev.
  - by rewrite existsb_app, orb_true_r.
Qed.

(** The channel [watching] was closed when the watch had started, and not again. *)
Definition watcher_wf (kw : watcher) : Prop := closed kw = if watchingStarted kw then 1 else 0.

Lemma started_wf kw : watcher_wf kw → watcher_wf (started kw) ∧ watchingStarted (started kw) = true.
Proof. unfold watcher_wf, started. intros H. destruct (watchingStarted kw) eqn:E; cbn; [by rewrite E|by rewrite H]. Qed.

(** The resources in the cache are those that were listed last, with the events applied,
    except at the keys [D] that were disturbed since. *)
Definition mirrors w D tr m : Prop :=
  ∃ items m1, Ev ListResources (inr items) ∈ last_round tr ∧ apply_events w D (mirror w items) (received (last_round tr)) = Some m1 ∧ agree D m1 m.

(** There is no such exception when nothing was disturbed. *)
Lemma mirrors_exactly w tr m : mirrors w ∅ tr m ↔
  ∃ items, Ev ListResources (inr items) ∈ last_round tr ∧ apply_events w ∅ (mirror w items) (received (last_round tr)) = Some m.
Proof.
  split.
  - intros (items & m1 & H1 & H2 & H3). exists items. split; [done|]. rewrite H2. f_equal. apply map_eq. intros k. symmetry. apply H3. set_solver.
  - intros (items & H1 & H2). by exists items, m.
Qed.

Lemma mirrors_disturbed w D tr m m1 D1 : mirrors w D tr m → disturbed m D m1 D1 → mirrors w D1 tr m1.
Proof.
  intros (items & m2 & H1 & H2 & H3) Hd. exists items, m2. split_and!; [done|eapply apply_events_mono; [apply Hd|done]|by eapply agree_disturbed].
Qed.

(** The rounds that were begun. *)
Definition rounds_of tr : nat := length (filter (λ ev, lists ev = true) tr).

Definition restarts (n : nat) (i : Z) : Z := Nat.iter n atomicInc i.

(** What [Watch] has done: all its rounds have failed, or it follows the last. *)
Definition watch_ok w rounds kw (new : wtrace) m D (r : watcher * watching) : Prop :=
  watcher_wf r.1 ∧
  match r.2 with
  | Restarting => rounds_of new = rounds ∧ restartCounter r.1 = restarts rounds (restartCounter kw)
  | Ended | Waiting => mirrors w D new m ∧ closed r.1 = 1 ∧ restartCounter r.1 = restarts (rounds_of new - 1) (restartCounter kw)
  end.

Lemma restarts_S n i : restarts (S n) i = restarts n (atomicInc i).
Proof. unfold restarts. by rewrite Nat.iter_succ_r. Qed.

Lemma round_follows w kw new m D r tr : round_ok w kw new m D r → (∀ e, r.2 ≠ Failed e) →
  mirrors w D (tr ++ new) m ∧ r.1 = started kw.
Proof.
  intros [(x & rest & -> & Hrest) H] Hne. destruct H as [(_ & _ & [e He] & _)|(Hr & _ & items & Hin & _ & Hf)]; [by destruct (Hne e)|].
  split; [|done]. destruct Hf as [(m1 & Hf & Ha)|[e He]]; [|by destruct (Hne e)]. exists items, m1. by rewrite last_round_app.
Qed.

Lemma rounds_of_app tr1 tr2 : rounds_of (tr1 ++ tr2) = rounds_of tr1 + rounds_of tr2.
Proof. unfold rounds_of. by rewrite filter_app, length_app. Qed.

Lemma round_once w kw new m D r : round_ok w kw new m D r → rounds_of new = 1.
Proof.
  intros [(x & rest & -> & Hrest) _]. unfold rounds_of. rewrite filter_cons_True by done. cbn. f_equal.
  induction Hrest as [|ev rest Hev _ IH]; [done|]. by rewrite filter_cons_False by (by rewrite Hev).
Qed.

Lemma last_round_none tr : existsb lists tr = false → last_round tr = [].
Proof. destruct tr as [|ev tr]; [done|]. cbn. intros [-> ->]%orb_false_iff. done. Qed.

Lemma mirrors_app w D tr1 tr2 m : mirrors w D tr2 m → mirrors w D (tr1 ++ tr2) m ∧ 1 ≤ rounds_of tr2.
Proof.
  intros (items & m1 & Hin & Hf). assert (existsb lists tr2 = true) as Hex.
  { destruct (existsb lists tr2) eqn:E; [done|]. rewrite last_round_none in Hin by done. by apply elem_of_nil in Hin. }
  split.
  - exists items, m1. assert (last_round (tr1 ++ tr2) = last_round tr2) as ->; [|done].
    induction tr1 as [|ev tr1 IH]; [done|]. cbn. by rewrite existsb_app, Hex, orb_true_r.
  - apply existsb_exists in Hex as (ev & Hev%list_elem_of_In & Hl). unfold rounds_of.
    destruct (filter (λ ev, lists ev = true) tr2) eqn:E; cbn; [|lia]. assert (ev ∈ filter (λ ev, lists ev = true) tr2) as H by by apply list_elem_of_filter.
    rewrite E in H. by apply elem_of_nil in H.
Qed.

Lemma round_watcher w kw new m D r : round_ok w kw new m D r → watcher_wf kw → watcher_wf r.1 ∧ restartCounter r.1 = restartCounter kw.
Proof.
  intros [_ H] Hw. destruct H as [(-> & _)|(-> & _)]; [done|]. split; [by apply started_wf|]. unfold started. by destruct (watchingStarted kw).
Qed.

Lemma watch_ok_disturbed w rounds kw new m D r m1 D1 : watch_ok w rounds kw new m D r → disturbed m D m1 D1 → watch_ok w rounds kw new m1 D1 r.
Proof.
  intros [Hw Hr] Hd. split; [done|]. destruct r.2; [..|done]; destruct Hr as (Hm & Hr); (split; [by eapply mirrors_disturbed|done]).
Qed.

(** One more round, that has failed. *)
Lemma watch_ok_again w rounds kw kw1 new1 new2 m1 D1 e m D r :
  round_ok w kw new1 m1 D1 (kw1, Failed e) → restartCounter kw1 = restartCounter kw →
  watch_ok w rounds (restarted kw1) new2 m D r → watch_ok w (S rounds) kw (new1 ++ new2) m D r.
Proof.
  intros Hround Hc1 [Hw2 Hr2]. pose proof (round_once w kw new1 m1 D1 _ Hround) as Hone. split; [done|]. rewrite rounds_of_app, Hone. destruct r.2.
  1, 2: destruct Hr2 as (Hm2 & Hcl & ->); destruct (mirrors_app w D new1 new2 m Hm2) as [Hm Hge]; split_and!; [done..|];
    cbn [restarted restartCounter]; rewrite Hc1, <-restarts_S; f_equal; lia.
  destruct Hr2 as [-> ->]. split; [done|]. cbn [restarted restartCounter]. by rewrite Hc1, <-restarts_S.
Qed.

(** The last round, that has not failed. *)
Lemma watch_ok_last w rounds kw kw1 new m D r kw2 (e : watching) :
  round_ok w kw new m D (kw1, r) → (∀ e, r ≠ Failed e) → watcher_wf kw → closed kw2 = closed kw1 → watchingStarted kw2 = watchingStarted kw1 →
  restartCounter kw2 = restartCounter kw1 → e ≠ Restarting → watch_ok w rounds kw new m D (kw2, e).
Proof.
  intros Hround Hne Hw H1 H2 H3 He. destruct (round_follows w kw new m D _ [] Hround Hne) as [Hm Hs]. cbn [fst] in Hs. subst kw1.
  pose proof (round_once w kw new m D _ Hround) as Hone. destruct (started_wf kw Hw) as [Hw2 Hst].
  destruct (round_watcher w kw new m D _ Hround Hw) as [_ Hc]. cbn [fst] in Hc. unfold watcher_wf in Hw2. rewrite Hst in Hw2.
  split; cbn [fst snd]; [unfold watcher_wf; by rewrite H1, H2, Hst|]. rewrite H1, H3, Hone, Hc. by destruct e.
Qed.

Lemma Watch_wp w t n rounds kw tr m D :
  watcher_wf kw →
  wp_own w (Watch spec_Address no_metrics fmt_v fmt_resource w t n rounds kw) tr m D
    (λ tr' m' D' r, ∃ new, tr' = tr ++ new ∧ watch_ok w rounds kw new m' D' r).
Proof.
  revert kw tr m D. induction rounds as [|rounds IH]; intros kw tr m D Hw; cbn [Watch].
  { intros m1 D1 _. exists []. by rewrite app_nil_r. }
  rewrite doWatch_template. apply wp_own_bind. eapply wp_own_mono; [apply template_wp|].
  intros tr1 m1 D1 [kw1 r1] (new1 & -> & Hround). destruct (round_watcher w kw new1 m1 D1 _ Hround Hw) as [Hw1 Hc1]. cbn [fst] in *.
  destruct r1 as [|e|].
  - intros m2 D2 Hd. exists new1. split; [done|]. eapply watch_ok_disturbed; [|exact Hd].
    destruct (round_follows w kw new1 m1 D1 _ [] Hround ltac:(done)) as [_ Hs]. cbn [fst] in Hs. subst kw1.
    destruct (started_wf kw Hw) as [_ Hst].
    eapply watch_ok_last; [exact Hround|done|done|..]; cbn; by rewrite ?Hst.
  - eapply wp_own_mono; [by apply IH|]. intros tr2 m2 D2 r2 (new2 & -> & Hr2). exists (new1 ++ new2). rewrite app_assoc. split; [done|].
    by eapply watch_ok_again.
  - intros m2 D2 Hd. exists new1. split; [done|]. eapply watch_ok_disturbed; [|exact Hd]. by eapply watch_ok_last.
Qed.

(** ** The agents *)

(** A connection or a link. *)
Definition unwatched o : Prop :=
  kind_ok o ∧ match o with Connection _ _ _ | Link _ _ _ => True | _ => False end.

Lemma unwatched_key o k : unwatched o → primary o = Some k → ∀ w, HasPrefix k (prefix w) = false.
Proof. intros [Hk Ho] Hp w. rewrite (held_other w o Hk k Hp). apply bool_decide_eq_false_2. by destruct w, o; intros []. Qed.

(** A map of objects, each of the kind of its type, with those of a cache at the keys of the
    kinds that are watched. *)
Definition keeps c (m : gmap string obj) : Prop :=
  (∀ k o, m !! k = Some o → kind_ok o) ∧ ∀ w k, HasPrefix k (prefix w) = true → m !! k = view c !! k.

Lemma keeps_own c c' : cache_ok c → cache_wf c' → schema c' = schema c → keeps c (view c') → cache_ok c' ∧ ∀ w, own w c' = own w c.
Proof.
  intros Hc Hwf Hs [Hk Hsame]. assert (cache_ok c') as Hc' by (split; [done|by rewrite Hs; apply Hc|done]). split; [done|].
  intros w. apply map_eq. intros k. destruct (HasPrefix k (prefix w)) eqn:Hp.
  - unfold own. by rewrite !lookup_omap, (Hsame w k Hp).
  - assert (∀ c0, cache_ok c0 → own w c0 !! k = None) as Hn; [|by rewrite !Hn].
    intros c0 H0. apply eq_None_not_Some. intros [v Hv]. destruct (own_key w c0 k v H0 Hv) as (_ & _ & Hp'). congruence.
Qed.

Lemma keeps_result c g os c' x :
  cache_ok c → result c (each_map g os (view c)) (c', x) → (∀ o (m m' : gmap string obj), o ∈ os → keeps c m → g o m = Some m' → keeps c m') →
  cache_ok c' ∧ (∀ w, own w c' = own w c) ∧ x ≠ Panic.
Proof.
  intros Hc Hr Hg. assert (∀ m m' : gmap string obj, (∀ o, o ∈ os → ∀ m m' : gmap string obj, keeps c m → g o m = Some m' → keeps c m') →
    keeps c m → each_map g os m = Some m' → keeps c m') as Hall.
  { clear. induction os as [|o os IH]; intros m m' Hg Hm; cbn; [by intros [= <-]|]. destruct (g o m) as [m1|] eqn:E; cbn; [|done].
    apply IH; [intros o' Ho'; apply Hg; by right|]. eapply Hg; [by left|done|done]. }
  assert (keeps c (view c)) as H0 by (split; [apply (co_kinds _ Hc)|done]).
  unfold result in Hr. destruct (each_map g os (view c)) as [m|] eqn:E.
  - destruct Hr as (c1 & [= -> ->] & Hwf & Hs & <-). destruct (keeps_own c c1) as [H1 H2]; [done..| |done].
    eapply Hall; [|done|done]. intros o Ho m1 m2. by apply Hg.
  - by destruct Hr as [e [= -> ->]].
Qed.

Lemma Add_unwatched c os c' x : cache_ok c → Forall unwatched os → Add os c = (c', x) → cache_ok c' ∧ (∀ w, own w c' = own w c) ∧ x ≠ Panic.
Proof.
  intros Hc Hos HA. pose proof (Add_refines c os (co_wf _ Hc)) as Hr. rewrite HA in Hr. eapply keeps_result; [done|done|].
  intros o m m' Ho [Hk Hs]. apply (proj1 (Forall_forall _ _) Hos) in Ho. unfold map_insert. rewrite primary_key_ok by done.
  destruct (primary o) as [k|] eqn:Hp; cbn; [|done]. destruct (addable c o); [|done]. intros [= <-]. split.
  - intros k' o'. rewrite lookup_insert_Some. intros [[_ <-]|[_ H]]; [apply Ho|eauto].
  - intros w k' Hp'. rewrite lookup_insert_ne; [eauto|]. intros ->. pose proof (unwatched_key o k' Ho Hp w). congruence.
Qed.

Lemma Delete_unwatched c os c' x :
  cache_ok c → Forall unwatched os → cache_Delete os c = (c', x) → cache_ok c' ∧ (∀ w, own w c' = own w c) ∧ x ≠ Panic.
Proof.
  intros Hc Hos HA. pose proof (Delete_refines c os (co_wf _ Hc)) as Hr. rewrite HA in Hr. eapply keeps_result; [done|done|].
  intros o m m' Ho [Hk Hs]. apply (proj1 (Forall_forall _ _) Hos) in Ho. unfold map_delete. rewrite primary_key_ok by done.
  destruct (primary o) as [k|] eqn:Hp; cbn; [|done]. destruct (decide _); [|done]. intros [= <-]. split.
  - intros k' o'. rewrite lookup_delete_Some. naive_solver.
  - intros w k' Hp'. rewrite lookup_delete_ne; [eauto|]. intros ->. pose proof (unwatched_key o k' Ho Hp w). congruence.
Qed.

(** A prefix of keys of connections or of links. *)
Definition agent_prefix (pre : string) : Prop := ∃ t, pre = "Connection/" +:+ t ∨ pre = "Link/" +:+ t.

Lemma DeleteByPrefix_unwatched c pre c' x :
  cache_ok c → agent_prefix pre → DeleteByPrefix PrimaryObjectIndex pre c = (c', x) → cache_ok c' ∧ (∀ w, own w c' = own w c) ∧ x ≠ Panic.
Proof.
  intros Hc Hpre HD. destruct (DeleteByPrefix_refines c pre (co_wf _ Hc)) as (c1 & Hr & Hwf & Hs & Hv). rewrite HD in Hr. injection Hr as -> ->.
  destruct (keeps_own c c1) as [H1 H2]; [done..| |done]. rewrite Hv. split.
  - intros k o [H _]%map_lookup_filter_Some. by apply (co_kinds _ Hc k).
  - intros w k Hp. destruct (view c !! k) as [o|] eqn:E; [|by apply map_lookup_filter_None; left]. apply map_lookup_filter_Some. split; [done|].
    cbn [fst]. apply not_true_is_false. intros [t Ht]%HasPrefix_spec. apply HasPrefix_spec in Hp as [t' ->].
    by destruct Hpre as [t1 [-> | ->]]; destruct w; cbn in Ht.
Qed.

(** The metrics are not a part of the resources. *)
Lemma Update_metrics f c o c' x :
  cache_ok c → Update fmt_v (metrics_mutator f) [o] c = (c', x) → cache_ok c' ∧ (∀ w, own w c' = own w c) ∧ x ≠ Panic.
Proof.
  intros Hc HU. pose proof (Update_refines fmt_v c (metrics_mutator f) [o] (co_wf _ Hc) ltac:(done)) as Hr. rewrite HU in Hr. cbn [each_map] in Hr.
  unfold map_update in Hr. destruct (primary_key c o ≫= _) as [m|] eqn:E; cbn in Hr; [|by destruct Hr as [e [= -> ->]]].
  destruct Hr as (c1 & [= -> ->] & Hwf & Hs & Hv). destruct (primary_key c o) as [k|]; [|done]. cbn in E.
  destruct (view c !! k) as [o1|] eqn:Ho1; [|done]. cbn [mbind option_bind metrics_mutator] in E. set (o2 := match o1 with OtherObject _ => _ | _ => _ end) in E.
  pose proof (co_kinds _ Hc _ _ Ho1) as Hk1. assert (kind_ok o2) as Hk2 by (by destruct o1).
  assert (∀ w, fst <$> held w o2 = fst <$> held w o1) as Hh by (by destruct w, o1).
  destruct (decide _) as [Hp|]; [|done]. unfold map_insert in E. rewrite Hp in E. cbn in E. destruct (addable c o2); [|done]. injection E as <-.
  assert (cache_ok c1) as Hc1.
  { split; [done|by rewrite Hs; apply Hc|]. intros k' o'. rewrite Hv, lookup_insert_Some. intros [[_ <-]|[_ H]]; [done|]. by eapply co_kinds. }
  split_and!; [done| |done]. intros w. apply map_eq. intros k'. unfold own. rewrite !lookup_omap, Hv.
  destruct (decide (k = k')) as [<-|Hne]; [rewrite lookup_insert_eq, Ho1; apply Hh|by rewrite lookup_insert_ne].
Qed.

Lemma ascending_NoDup (key : obj → option string) l :
  ascending (omap key l) = true → (∀ o, o ∈ l → is_Some (key o)) → NoDup (key <$> l).
Proof.
  induction l as [|o l IH]; intros Ha Hs; cbn; [constructor|]. destruct (Hs o) as [k Hk]; [by left|].
  destruct (ascending_head key o l k Ha Hk) as [Hl Hlt]; [intros; apply Hs; by right|]. constructor.
  - intros (o' & Hk' & Ho')%list_elem_of_fmap. destruct (Hlt o' k Ho') as [_ Hne]; [congruence|done].
  - apply IH; [done|]. intros; apply Hs; by right.
Qed.

(** What an agent gets are the objects of the cache whose keys begin so, each once. *)
Lemma Get_prefix c pre :
  cache_ok c → ∃ l, Get c PrimaryObjectIndex pre None () = ((), Ok l) ∧ NoDup (primary <$> l) ∧
    ∀ o, o ∈ l ↔ ∃ k, view c !! k = Some o ∧ HasPrefix k pre = true.
Proof.
  intros Hc. destruct (Get_spec (λ _, True) c PrimaryObjectIndex pre None (λ _, true) ()) as ([] & Hget & _);
    [apply Hc|apply Hc|apply unique_primary|done|done|done|]. eexists. split; [exact Hget|].
  destruct (scan_spec c PrimaryObjectIndex) as [Hasc Hscan]; [apply Hc|apply Hc|apply unique_primary|].
  assert (∀ o, object_key c PrimaryObjectIndex o = primary o) as Hkey by (intros o; by rewrite <-(primary_key_ok c)).
  assert (∀ o, stored_key (db c) PrimaryObjectIndex o = (λ k, k +:+ NUL) <$> primary o) as Hst
    by (intros o; rewrite stored_object_key by apply Hc; by rewrite Hkey).
  split.
  - apply (NoDup_fmap_1 (fmap (λ k, k +:+ NUL))). rewrite <-list_fmap_compose.
    rewrite (list_fmap_ext _ (stored_key (db c) PrimaryObjectIndex)) by (intros; symmetry; apply Hst).
    apply ascending_NoDup; [apply ascending_filter; [done|]|]; intros o Ho; [by apply Hscan|].
    apply list_elem_of_filter in Ho as [_ Ho]. by apply Hscan.
  - intros o. rewrite list_elem_of_filter, Hscan, Hst. unfold has_key_prefix. rewrite Hkey. split.
    + intros [[Hp _] [Ho _]]. destruct (primary o) as [k|] eqn:Hk; [|done]. exists k. split; [|done].
      apply lookup_view; [apply Hc|]. by rewrite primary_key_ok.
    + intros (k & Ho & Hp). pose proof (cached_key c k o Hc Ho) as Hk. rewrite Hk. apply lookup_view in Ho as [Ho _]; [|apply Hc].
      split_and!; [done|done|done|by eexists].
Qed.

Lemma agent_Get c kind t :
  cache_ok c → ∃ l, Get c PrimaryObjectIndex (kind +:+ "/" +:+ t) None () = ((), Ok l) ∧
    ∀ o, o ∈ l → kind_ok o ∧ ∃ k, primary o = Some k ∧ HasPrefix k (kind +:+ "/") = true.
Proof.
  intros Hc. destruct (Get_prefix c (kind +:+ "/" +:+ t) Hc) as (l & Hl & _ & Hall). exists l. split; [done|].
  intros o (k & Ho & Hp)%Hall. split; [by eapply co_kinds|]. exists k. split; [by eapply cached_key|].
  apply HasPrefix_spec in Hp as [t' ->]. apply HasPrefix_spec. exists (t +:+ t'). by rewrite !append_assoc.
Qed.

Lemma connection_by_key o k : kind_ok o → primary o = Some k → HasPrefix k "Connection/" = true → ∃ mt s r, o = Connection mt s r.
Proof.
  intros Hk Hp Hpre. unfold primary in Hp. destruct o; cbn [primaryUniqueKeyCreator] in Hp; cbn [kind_ok] in Hk;
    try (destruct (_ <? _)%Z; [done|]); try done; try (by eexists _, _, _);
    try (match type of Hk with _ ∧ _ => destruct Hk as [Hk _] end); injection Hp as <-; by rewrite Hk in Hpre.
Qed.

Lemma link_by_key o k : kind_ok o → primary o = Some k → HasPrefix k "Link/" = true → ∃ mt s r, o = Link mt s r.
Proof.
  intros Hk Hp Hpre. unfold primary in Hp. destruct o; cbn [primaryUniqueKeyCreator] in Hp; cbn [kind_ok] in Hk;
    try (destruct (_ <? _)%Z; [done|]); try done; try (by eexists _, _, _);
    try (match type of Hk with _ ∧ _ => destruct Hk as [Hk _] end); injection Hp as <-; by rewrite Hk in Hpre.
Qed.

Section Agents.
Context {Cnt : Type} `{AF : !AgentFields V Met Cnt}.
Notation aop := (aop V Met).

(** An object that the handler has a pointer to, when it is used: metrics may have changed
    since, and a watcher of addresses may have put another version of the address there. *)
Definition aliased o o' : Prop :=
  match o, o' with
  | AddressHolder _ _ _, AddressHolder _ _ _ => (kind_ok o → kind_ok o') ∧ primary o' = primary o
  | Connection m s r, Connection m' s' r' => m' = m ∧ s' = s ∧ r'.1 = r.1
  | Link m s r, Link m' s' r' => m' = m ∧ s' = s ∧ r'.1 = r.1
  | _, _ => o' = o
  end.

Lemma aliased_refl o : aliased o o.
Proof. by destruct o. Qed.

Lemma aliased_unwatched o o' : aliased o o' → unwatched o → unwatched o'.
Proof. intros Ha [Hk Ho]. destruct o; try done; destruct o'; try done; destruct Ha as [-> _]; by split. Qed.

Lemma aliased_all os os' : Forall2 aliased os os' → Forall unwatched os → Forall unwatched os'.
Proof.
  intros Ha Hos. induction Ha as [|o o' os os' Ho _ IH]; [done|]. apply Forall_cons in Hos as [H1 H2].
  constructor; [by eapply aliased_unwatched|by apply IH].
Qed.

Definition agent_answers {X} (e : aop X) c c' : X → Prop :=
  match e in Watchers.aop _ _ T return T → Prop with
  | AgentGet keyPrefix => λ x, c' = c ∧ x = (Get c PrimaryObjectIndex keyPrefix None ()).2
  | AgentAdd os => λ x, ∃ os', Forall2 aliased os os' ∧ Add os' c = (c', x)
  | AgentDelete os => λ x, cache_Delete os c = (c', x)
  | AgentDeleteByPrefix keyPrefix => λ x, DeleteByPrefix PrimaryObjectIndex keyPrefix c = (c', x)
  end.

(** The agents change no resource but addresses, and remove none of these. *)
Definition agent_effect c c' : Prop :=
  (∀ w, w ≠ WAddress → own w c' = own w c) ∧ ∀ k, is_Some (own WAddress c !! k) → is_Some (own WAddress c' !! k).

Lemma same_effect c c' : (∀ w, own w c' = own w c) → agent_effect c c'.
Proof. intros H. split; [by intros|]. by rewrite H. Qed.

(** The handler does not panic, whatever others do to the cache, and changes it so. *)
Fixpoint wp_agent {A} (p : io aop A) : Prop :=
  match p with
  | Ret _ => True
  | Crash => False
  | Vis e k => ∀ c c' x, cache_ok c → agent_answers e c c' x → cache_ok c' ∧ agent_effect c c' ∧ wp_agent (k x)
  end.

Lemma agent_call_wp {A} (e : aop (outcome A)) k :
  (∀ c c' x, cache_ok c → agent_answers e c c' x →
    cache_ok c' ∧ agent_effect c c' ∧ x ≠ Panic ∧ ∀ a, x = Ok a → wp_agent (k a)) → wp_agent (agent_call e k).
Proof.
  intros H c c' x Hc Hx. destruct (H c c' x Hc Hx) as (H1 & H2 & H3 & H4). split_and!; [done|done|]. destruct x; [by apply H4|done|done].
Qed.

Lemma agent_get_wp kind t k :
  (∀ l, (∀ o, o ∈ l → kind_ok o ∧ ∃ key, primary o = Some key ∧ HasPrefix key (kind +:+ "/") = true) → wp_agent (k l)) →
  wp_agent (agent_call (AgentGet (kind +:+ "/" +:+ t)) k).
Proof.
  intros H. apply agent_call_wp. intros c c' x Hc [-> ->]. destruct (agent_Get c kind t Hc) as (l & Hl & Hall). rewrite Hl.
  split_and!; [done|by apply same_effect|done|]. intros a [= <-]. by apply H.
Qed.

Lemma agent_add_wp os k : Forall unwatched os → wp_agent (k ()) → wp_agent (agent_call (AgentAdd os) k).
Proof.
  intros Hos Hk. apply agent_call_wp. intros c c' x Hc (os' & Ha & HA). destruct (Add_unwatched c os' c' x Hc) as (H1 & H2 & H3); [|done|].
  - by eapply aliased_all.
  - split_and!; [done|by apply same_effect|done|by intros []].
Qed.

Lemma agent_add_address_wp mt a r k : kind_ok (AddressHolder mt a r) → wp_agent (k ()) → wp_agent (agent_call (AgentAdd [AddressHolder mt a r]) k).
Proof.
  intros Hos Hk. apply agent_call_wp. intros c c' x Hc (os' & Ha & HA). inversion Ha as [|? o' ? ? Ho Hnil]; subst. inversion Hnil; subst.
  destruct o' as [| |m' a' [rest met]| | | | | | |]; try done. destruct Ho as [Hkind _]. specialize (Hkind Hos). destruct Hkind as [Hkind ->].
  destruct (Add_own WAddress c {| res_meta := m'; res_rest := rest |} met c' x Hc Hkind HA) as (H1 & H2 & H3).
  assert (∀ w, w ≠ WAddress → own w c' = own w c) as Hne by (intros w Hw; by eapply (others_own WAddress)).
  split_and!; [done| | |by intros []].
  - split; [done|]. intros k' Hk'. destruct (key_of _ _); destruct H3 as [_ ->]; [|done]. rewrite lookup_insert_is_Some'. by right.
  - destruct (key_of _ _); [by destruct H3 as [-> _]|]. by destruct H3 as [[e ->] _].
Qed.

Lemma agent_delete_wp os k : Forall unwatched os → wp_agent (k ()) → wp_agent (agent_call (AgentDelete os) k).
Proof.
  intros Hos Hk. apply agent_call_wp. intros c c' x Hc HA. destruct (Delete_unwatched c os c' x Hc Hos HA) as (H1 & H2 & H3).
  split_and!; [done|by apply same_effect|done|by intros []].
Qed.

Lemma agent_delete_prefix_wp pre k : agent_prefix pre → wp_agent (k ()) → wp_agent (agent_call (AgentDeleteByPrefix pre) k).
Proof.
  intros Hp Hk. apply agent_call_wp. intros c c' x Hc HA. destruct (DeleteByPrefix_unwatched c pre c' x Hc Hp HA) as (H1 & H2 & H3).
  split_and!; [done|by apply same_effect|done|by intros []].
Qed.

Lemma toLinkObjects_unwatched target : Forall unwatched (toLinkObjects no_metrics target).
Proof. apply Forall_app. split; apply Forall_fmap, Forall_true; by intros. Qed.

Lemma swap_remove_subset {B} i (s : list B) x : x ∈ swap_remove i s → x ∈ s.
Proof.
  unfold swap_remove. destruct (last s) as [y|] eqn:E; [|done]. intros Hx. apply last_Some_elem_of in E.
  apply (subseteq_take (length s - 1)) in Hx. apply list_elem_of_lookup in Hx as [j Hj].
  apply list_lookup_insert_Some in Hj as [(_ & -> & _)|[_ Hj]]; [done|]. by eapply list_elem_of_lookup_2.
Qed.

(** The links are sorted into those that are orphans, new and to be updated. *)
Definition is_link o : Prop := kind_ok o ∧ match o with Link _ _ _ => True | _ => False end.

Lemma resolve_each_links current existing orphans new updating :
  Forall is_link existing → Forall is_link orphans → Forall is_link new → Forall is_link updating →
  ∃ os n u, resolve_each current existing orphans new updating = Ok (os, n, u) ∧ Forall is_link os ∧ Forall is_link n ∧ Forall is_link u.
Proof.
  intros He. revert orphans new updating. induction He as [|e existing [Hk Hl] _ IH]; intros orphans new updating Ho Hn Hu; [by eexists _, _, _|].
  cbn [resolve_each]. destruct e; try done. cbn [link_UID]. destruct (existsb _ current); apply IH; try done.
  - destruct (link_index _ new); [|done]. apply Forall_forall. intros x Hx%swap_remove_subset. by apply (proj1 (Forall_forall _ _) Hn).
  - apply Forall_app. split; [done|]. by repeat constructor.
  - apply Forall_app. split; [done|]. by repeat constructor.
Qed.

Lemma updateAllLinks_links type links sending receiving now :
  type = "standard" ∨ type = "brokered" → Forall is_link links →
  ∃ os, updateAllLinks (AF := AF) type links sending receiving now = Ok os ∧ Forall2 aliased links os.
Proof.
  intros Ht Hl. assert (∀ ls rate (m : meta) s r, ∃ o, updateLinkMetrics type ls rate now m s r = Ok o ∧ aliased (Link m s r) o) as Hone.
  { intros ls rate m s r. unfold updateLinkMetrics. destruct (ls !! _); [rewrite decide_True by done|]; by eexists. }
  induction Hl as [|l links [Hk Hlink] _ (os & IH & Hos)]; [by eexists|]. destruct l as [| | | |m s r| | | | |]; try done. cbn [updateAllLinks].
  case_decide.
  - destruct (Hone sending "enmasse_messages_in" m s r) as (o & -> & Ho). cbn. rewrite IH. cbn. eexists. split; [done|]. by constructor.
  - destruct (Hone receiving "enmasse_messages_out" m s r) as (o & -> & Ho). cbn. rewrite IH. cbn. eexists. split; [done|]. by constructor.
Qed.

(** An event that the handler knows. *)
Definition recognised (event : AgentEvent (Cnt := Cnt)) : bool :=
  bool_decide (ae_Type event = AgentEventTypeRestart) ||
  bool_decide (ae_Type event = AgentEventInsertOrUpdateType ∨ ae_Type event = AgentEventTypeDelete) &&
    match ae_Object event with
    | AnAgentConnection target => bool_decide (ac_AddressSpaceType target = "standard" ∨ ac_AddressSpaceType target = "brokered")
    | AnAgentAddress _ => true
    | OtherAgentObject => false
    end.

Lemma is_link_unwatched os : Forall is_link os → Forall unwatched os.
Proof. intros H. eapply Forall_impl; [exact H|]. intros o [Hk Ho]. by destruct o. Qed.

Lemma handle_links_wp target now (m : meta) s :
  ac_AddressSpaceType target = "standard" ∨ ac_AddressSpaceType target = "brokered" → wp_agent (handle_links no_metrics target now m s).
Proof.
  intros Ht. apply (agent_get_wp "Link"). intros l Hl.
  assert (Forall is_link l) as Hl'.
  { apply Forall_forall. intros o Ho. destruct (Hl o Ho) as (Hk & key & Hp & Hpre). destruct (link_by_key o key Hk Hp Hpre) as (m0 & s0 & r & ->). done. }
  assert (Forall is_link (toLinkObjects no_metrics target)) as Hc by (apply Forall_app; split; apply Forall_fmap, Forall_true; by intros).
  destruct (resolve_each_links (toLinkObjects no_metrics target) l [] (toLinkObjects no_metrics target) []) as (o & n & u & Hr & Ho & Hn & Hu); [done..|].
  unfold resolveLinks. rewrite Hr.
  destruct (updateAllLinks_links _ u (buildLinkMap (ac_Senders target)) (buildLinkMap (ac_Receivers target)) now Ht Hu) as (us & -> & Hus).
  destruct (updateAllLinks_links _ n (buildLinkMap (ac_Senders target)) (buildLinkMap (ac_Receivers target)) now Ht Hn) as (ns & -> & Hns).
  assert (wp_agent (agent_call (AgentAdd (us ++ ns)) (λ _, Ret None))) as Hrest by (apply agent_add_wp; [|done];
    apply Forall_app; split; eapply aliased_all; eauto using is_link_unwatched).
  destruct o as [|o os]; [done|]. apply agent_delete_wp; [by apply is_link_unwatched|done].
Qed.

Lemma handleEvent_wp event now : recognised event = true → wp_agent (handleEvent no_metrics event now).
Proof.
  intros Hrec. unfold recognised in Hrec. unfold handleEvent. cbv zeta.
  assert (∀ pre1 pre2, agent_prefix pre1 → agent_prefix pre2 → wp_agent (agent_call (AgentDeleteByPrefix pre1) (λ _,
    agent_call (AgentDeleteByPrefix pre2) (λ _, Ret None)))) as Hdel by (intros; by repeat apply agent_delete_prefix_wp).
  case_decide as H1; [apply Hdel; eexists; [by left|by right]|]. rewrite bool_decide_eq_false_2 in Hrec by done. cbn [orb] in Hrec.
  apply andb_true_iff in Hrec as [Htype Hrec]. apply bool_decide_eq_true in Htype.
  destruct (decide (ae_Type event = AgentEventInsertOrUpdateType)) as [H2|H2];
    [|destruct (decide (ae_Type event = AgentEventTypeDelete)) as [H3|H3]; [|by destruct Htype]];
    destruct (ae_Object event) as [target|target|]; try done.
  - apply (agent_get_wp "Connection"). intros l Hl. unfold handle_connection.
    assert (∃ (m : meta) s r, match l with [] => toConnectionObject no_metrics target | o :: _ => o end = Connection m s r ∧ Kind m = "Connection")
      as (m & s & r & -> & Hm).
    { destruct l as [|o l]; [by eexists _, _, _|]. destruct (Hl o ltac:(by left)) as (Hk & key & Hp & Hpre).
      destruct (connection_by_key o key Hk Hp Hpre) as (m & s & r & ->). by exists m, s, r. }
    apply agent_add_wp; [by repeat constructor|]. apply handle_links_wp. by apply bool_decide_eq_true in Hrec.
  - apply (agent_get_wp "Address"). intros l Hl. cbn beta. destruct l as [|o l]; [done|]. destruct (Hl o ltac:(by left)) as (Hk & key & Hp & Hpre).
    pose proof (held_other WAddress o Hk key Hp) as Hh. unfold prefix in Hh. cbn in Hpre, Hh. rewrite Hpre in Hh.
    symmetry in Hh. apply bool_decide_eq_true in Hh as [x Hx]. destruct o; try done. by apply agent_add_address_wp.
  - apply Hdel; eexists; [by left|by right].
Qed.

(** An agent's call is always answered. *)
Lemma agent_answered {X} (e : aop X) c : ∃ c' x, agent_answers e c c' x.
Proof.
  destruct e; cbn.
  - by eexists _, _.
  - eexists _, _, os. split; [|apply surjective_pairing]. induction os; constructor; [apply aliased_refl|done].
  - eexists _, _. apply surjective_pairing.
  - eexists _, _. apply surjective_pairing.
Qed.

(** ** The watchers together *)

Section Pool.
Context {A : Type}.

(** The watchers, each by what it has to do and what it has done, and the events that the
    agents handle share the cache. [spoiled] are the keys of the addresses that were changed
    by an agent since the watcher of addresses has listed them. *)
Record pool := {
  shared : cache;
  watching_threads : watched → io cop A * wtrace;
  agent_threads : list (io aop (option error));
  spoiled : gset string;
}.

Definition with_thread (ts : watched → io cop A * wtrace) w (th : io cop A * wtrace) : watched → io cop A * wtrace :=
  λ w', if decide (w' = w) then th else ts w'.

(** The keys of the addresses that differ. *)
Definition changed c c' : gset string :=
  filter (λ k, own WAddress c' !! k ≠ own WAddress c !! k) (dom (own WAddress c) ∪ dom (own WAddress c')).

(** A call of a watcher; an event that comes to an agent, which is handled beside those
    before; a call of an agent; or metrics that change. *)
Inductive pool_step : pool → pool → Prop :=
  | watcher_step w {X} (e : cop X) k tr x c c' ts ags D :
      ts w = (Vis e k, tr) → cache_answers w e c c' x →
      pool_step {| shared := c; watching_threads := ts; agent_threads := ags; spoiled := D |}
        {| shared := c'; watching_threads := with_thread ts w (k x, tr ++ [Ev e x]); agent_threads := ags;
           spoiled := if decide (w = WAddress) then since_list (Ev e x) D else D |}
  | event_step event now c ts ags D :
      recognised event = true →
      pool_step {| shared := c; watching_threads := ts; agent_threads := ags; spoiled := D |}
        {| shared := c; watching_threads := ts; agent_threads := ags ++ [handleEvent no_metrics event now]; spoiled := D |}
  | agent_step i {X} (e : aop X) k x c c' ts ags D :
      ags !! i = Some (Vis e k) → agent_answers e c c' x →
      pool_step {| shared := c; watching_threads := ts; agent_threads := ags; spoiled := D |}
        {| shared := c'; watching_threads := ts; agent_threads := <[i := k x]> ags; spoiled := D ∪ changed c c' |}
  | metrics_step f o x c c' ts ags D :
      Update fmt_v (metrics_mutator f) [o] c = (c', x) →
      pool_step {| shared := c; watching_threads := ts; agent_threads := ags; spoiled := D |}
        {| shared := c'; watching_threads := ts; agent_threads := ags; spoiled := D |}.

(** Only addresses are changed by agents. *)
Definition spoiled_of w (D : gset string) : gset string := if decide (w = WAddress) then D else ∅.

Definition pool_inv (Q : watched → wtrace → contents → gset string → A → Prop) (s : pool) : Prop :=
  cache_ok (shared s) ∧
  (∀ w, wp_own w (watching_threads s w).1 (watching_threads s w).2 (own w (shared s)) (spoiled_of w (spoiled s)) (Q w)) ∧
  Forall wp_agent (agent_threads s).

Lemma agent_disturbs c c' D w : agent_effect c c' → disturbed (own w c) (spoiled_of w D) (own w c') (spoiled_of w (D ∪ changed c c')).
Proof.
  intros [Hother Haddr]. unfold spoiled_of. case_decide as Hw; [subst w|by rewrite Hother]. split_and!; [set_solver| |done].
  intros k Hk. destruct (decide (own WAddress c' !! k = own WAddress c !! k)) as [|Hne]; [done|]. exfalso. apply Hk, elem_of_union. right.
  unfold changed. apply elem_of_filter. split; [done|]. rewrite elem_of_union, !elem_of_dom.
  destruct (own WAddress c !! k), (own WAddress c' !! k); naive_solver.
Qed.

Lemma pool_step_inv Q s s' : pool_inv Q s → pool_step s s' → pool_inv Q s'.
Proof.
  intros (Hc & Hq & Ha) Hs. destruct Hs as [w X e k tr x c c' ts ags D Hth Hx|event now c ts ags D Hrec
    |i X e k x c c' ts ags D Hi Hx|f o x c c' ts ags D HU]; unfold pool_inv; cbn [shared watching_threads agent_threads spoiled] in *.
  - pose proof (Hq w) as Hw. rewrite Hth in Hw. destruct (Hw c c' x _ Hc (disturbed_refl _ _) Hx) as (Hc' & Ho & Hk). split_and!; [done| |done].
    intros w'. unfold with_thread. case_decide as Hd.
    + subst w'. unfold spoiled_of in *. case_decide; [done|]. unfold since_list in Hk. by destruct (lists _).
    + rewrite (others_own w w' c c') by done. specialize (Hq w'). unfold spoiled_of in *. destruct (decide (w' = WAddress)); [|done].
      by rewrite decide_False by congruence.
  - split_and!; [done|done|]. apply Forall_app. split; [done|]. constructor; [by apply handleEvent_wp|done].
  - pose proof (proj1 (Forall_lookup _ _) Ha i _ Hi) as Hk. destruct (Hk c c' x Hc Hx) as (Hc' & He & Hkx). split_and!; [done| |by apply Forall_insert].
    intros w. eapply wp_own_disturbed; [apply Hq|]. by apply agent_disturbs.
  - destruct (Update_metrics f c o c' x Hc HU) as (Hc' & Ho & _). split_and!; [done| |done]. intros w. by rewrite Ho.
Qed.

Lemma pool_run_inv Q s s' : pool_inv Q s → rtc pool_step s s' → pool_inv Q s'.
Proof. intros H Hr. induction Hr as [|s s1 s' Hs Hr IH]; [done|]. eapply IH, pool_step_inv; eauto. Qed.

(** A call is always answered. *)
Lemma answered w {X} (e : cop X) c : ∃ c' x, cache_answers w e c c' x.
Proof.
  destruct e; cbn.
  - by exists c, (inl (Errorf "")).
  - by exists c, None.
  - by exists c, WatchClosed.
  - by eexists _, _.
  - by eexists _, _.
  - eexists _, _. apply surjective_pairing.
  - eexists _, _. apply surjective_pairing.
  - eexists _, _. apply surjective_pairing.
Qed.

(** A watcher has come to its end, with [Q], or makes a call that is answered. *)
Definition watcher_goes_on (Q : watched → wtrace → contents → gset string → A → Prop) (s : pool) w : Prop :=
  (∃ r, (watching_threads s w).1 = Ret r ∧ Q w (watching_threads s w).2 (own w (shared s)) (spoiled_of w (spoiled s)) r) ∨
  (∃ X (e : cop X) k c' x, (watching_threads s w).1 = Vis e k ∧ cache_answers w e (shared s) c' x).

(** So does an agent. *)
Definition agent_goes_on (s : pool) (p : io aop (option error)) : Prop :=
  (∃ r, p = Ret r) ∨ (∃ X (e : aop X) k c' x, p = Vis e k ∧ agent_answers e (shared s) c' x).

Lemma pool_progress Q s : pool_inv Q s → (∀ w, watcher_goes_on Q s w) ∧ Forall (agent_goes_on s) (agent_threads s).
Proof.
  destruct s as [c ts ags D]. intros (Hc & Hq & Ha). split.
  - intros w. specialize (Hq w). unfold watcher_goes_on. cbn in *. destruct (ts w) as [[r| |X e k] tr]; cbn [fst snd] in *; [|done|].
    + left. exists r. split; [done|]. by apply Hq.
    + right. destruct (answered w e c) as (c' & x & Hx). by exists X, e, k, c', x.
  - eapply Forall_impl; [exact Ha|]. intros [r| |X e k] Hp; [left; eauto|done|]. right. destruct (agent_answered e c) as (c' & x & Hx).
    by exists X, e, k, c', x.
Qed.
End Pool.

Lemma NewWatcher_wf w kw : NewWatcher w true = inr kw → watcher_wf kw.
Proof. by intros [= <-]. Qed.

(** The seven watchers of the manager, before their first calls. *)
Definition launched (t : watched → tick) (n rounds : watched → nat) (kws : watched → watcher) :
    watched → io cop (watcher * watching) * wtrace :=
  λ w, (Watch spec_Address no_metrics fmt_v fmt_resource w (t w) (n w) (rounds w) (kws w), []).

(** The pool at the beginning. *)
Definition launched_pool c t n rounds kws : pool (A := watcher * watching) :=
  {| shared := c; watching_threads := launched t n rounds kws; agent_threads := []; spoiled := ∅ |}.

Lemma launched_inv c t n rounds kws :
  cache_ok c → (∀ w, watcher_wf (kws w)) →
  pool_inv (λ w tr m D r, watch_ok w (rounds w) (kws w) tr m D r) (launched_pool c t n rounds kws).
Proof.
  intros Hc Hw. split_and!; [done| |done]. intros w. cbn. eapply wp_own_mono; [by apply Watch_wp|]. by intros tr m D r (new & -> & H).
Qed.

(** ** A scheduler *)

(** What the API server answers: to a list, to a watch, and on the channel. *)
Definition api : Type := (error + list resource) * option error * input (V := V).

#[local] Instance of_kind_dec w v : Decision (of_kind w v) := decide (_ = _).

Definition allowed_list w (x : error + list resource) : error + list resource :=
  match x with inr items => if decide (Forall (of_kind w) items) then x else inl (Errorf "") | _ => x end.
Definition allowed_input w (i : input (V := V)) : input (V := V) :=
  match i with WatchEvent _ (inr v) => if decide (of_kind w v) then i else WatchClosed | _ => i end.

Definition answer w (a : api) c {X} (e : cop X) : cache * X :=
  match e in Watchers.cop T return cache * T with
  | ListResources => (c, allowed_list w a.1.1)
  | StartWatch => (c, a.1.2)
  | Receive => (c, allowed_input w a.2)
  | CacheKeyCreator idxName => (c, GetKeyCreator c idxName)
  | CacheGet idxName keyPrefix f => (c, Get c idxName keyPrefix (Some f) ∅)
  | CacheAdd o => Add [o] c
  | CacheUpdate mutator o => Update fmt_v mutator [o] c
  | CacheDelete o => cache_Delete [o] c
  end.

Lemma answer_ok w a c {X} (e : cop X) : cache_answers w e c (answer w a c e).1 (answer w a c e).2.
Proof.
  destruct e; cbn; try done; try apply surjective_pairing.
  - split; [done|]. unfold allowed_list. destruct a.1.1; [done|]. by case_decide.
  - split; [done|]. unfold allowed_input. destruct a.2 as [? []| |]; [done| |done|done]. by case_decide.
Qed.

Definition agent_answer c {X} (e : aop X) : cache * X :=
  match e in Watchers.aop _ _ T return cache * T with
  | AgentGet keyPrefix => (c, (Get c PrimaryObjectIndex keyPrefix None ()).2)
  | AgentAdd os => Add os c
  | AgentDelete os => cache_Delete os c
  | AgentDeleteByPrefix keyPrefix => DeleteByPrefix PrimaryObjectIndex keyPrefix c
  end.

Lemma agent_answer_ok c {X} (e : aop X) : agent_answers e c (agent_answer c e).1 (agent_answer c e).2.
Proof.
  destruct e; cbn; try done; try apply surjective_pairing.
  exists os. split; [|apply surjective_pairing]. induction os; constructor; [apply aliased_refl|done].
Qed.

(** ** A connection that an agent tells of *)

(** A handler that runs alone. *)
Fixpoint agent_run {A} (p : io aop A) c : cache * option A :=
  match p with
  | Ret a => (c, Some a)
  | Crash => (c, None)
  | Vis e k => let r := agent_answer c e in agent_run (k r.2) r.1
  end.

Notation AgentConnection := (AgentConnection (Cnt := Cnt)).
Implicit Types (target : AgentConnection).

Definition connection_key target : string :=
  "Connection/" +:+ ac_AddressSpaceNamespace target +:+ "/" +:+ ac_AddressSpace target +:+ "/" +:+ ac_Uuid target.
Definition links_prefix target : string :=
  "Link/" +:+ ac_AddressSpaceNamespace target +:+ "/" +:+ ac_AddressSpace target +:+ "/" +:+ ac_Uuid target.
Definition link_key target (uuid : string) : string := links_prefix target +:+ "/" +:+ uuid.
Definition link_uuids target : list string := al_Uuid <$> ac_Senders target ++ ac_Receivers target.

(** A link of the connection. *)
Definition own_link target o : Prop :=
  match o with
  | Link m s _ => Kind m = "Link" ∧ Namespace m = ac_AddressSpaceNamespace target ∧ ls_AddressSpace s = ac_AddressSpace target ∧
      ls_Connection s = ac_Uuid target
  | _ => False
  end.

(** The id of the connection is not the beginning of that of another one. *)
Definition alone_at target (k : string) o : Prop :=
  match o with
  | Connection m s _ => HasPrefix k (connection_key target) = true →
      Namespace m = ac_AddressSpaceNamespace target ∧ s = ac_AddressSpace target ∧ Name m = ac_Uuid target
  | Link _ _ _ => HasPrefix k (links_prefix target) = true → own_link target o
  | _ => True
  end.
#[global] Instance alone_at_dec target k o : Decision (alone_at target k o).
Proof. destruct o; cbn; apply _. Defined.
Definition alone target c : Prop := map_Forall (alone_at target) (view c).

Lemma own_link_primary target o : own_link target o → primary o = link_key target <$> link_UID o.
Proof.
  destruct o as [| | | |m s r| | | | |]; try done. intros (H1 & H2 & H3 & H4). cbn. unfold primary, link_key, links_prefix. cbn.
  by rewrite H1, H2, H3, H4, !append_assoc.
Qed.

Lemma own_link_unwatched target o : own_link target o → unwatched o ∧ is_link o ∧ is_Some (link_UID o).
Proof. destruct o; try done. intros [H _]. repeat split; [done..|]. by eexists. Qed.

Lemma link_key_inj target u u' : link_key target u = link_key target u' → u = u'.
Proof. unfold link_key. intros H%(inj _). by injection H. Qed.

Lemma link_key_prefix target u : HasPrefix (link_key target u) (links_prefix target) = true.
Proof. apply HasPrefix_spec. by eexists. Qed.

Lemma aliased_primary o o' : aliased o o' → primary o' = primary o.
Proof. destruct o, o'; cbn; try congruence; try (by intros [-> [-> _]]). by intros [_ ?]. Qed.

Lemma aliased_primaries os os' : Forall2 aliased os os' → primary <$> os' = primary <$> os.
Proof. induction 1 as [|o o' os os' H _ IH]; [done|]. cbn. by rewrite (aliased_primary o o' H), IH. Qed.

Lemma toLinkObjects_own target : Forall (own_link target) (toLinkObjects no_metrics target).
Proof. apply Forall_app. split; apply Forall_fmap, Forall_true; by intros. Qed.

Lemma toLinkObjects_UID target : link_UID <$> toLinkObjects no_metrics target = Some <$> link_uuids target.
Proof. unfold toLinkObjects, link_uuids. rewrite !fmap_app, <-!list_fmap_compose. done. Qed.

Lemma unwatched_addable c o : cache_ok c → unwatched o → is_Some (primary o) ∧ addable c o = true.
Proof.
  intros Hc [Hk Ho]. assert (is_Some (primary o)) as Hp by (destruct o; try done; by eexists). split; [done|]. unfold addable.
  rewrite primary_key_ok, bool_decide_eq_true_2, (co_schema _ Hc) by done. by destruct o.
Qed.

Lemma Add_all c os : cache_ok c → Forall unwatched os → ∃ c', Add os c = (c', Ok ()) ∧ cache_ok c' ∧ view c' = foldl put (view c) os.
Proof.
  intros Hc Hos. assert (∀ m : gmap string obj, each_map (map_insert c) os m = Some (foldl put m os)) as He.
  { induction Hos as [|o os Ho _ IH]; intros m; [done|]. destruct (unwatched_addable c o Hc Ho) as [[k Hk] Hadd].
    assert (map_insert c o m = Some (put m o)) as Hone by (unfold map_insert, put; by rewrite (primary_key_ok c o Hc), Hk; cbn; rewrite Hadd).
    cbn [each_map foldl]. rewrite Hone. apply IH. }
  pose proof (Add_refines c os (co_wf _ Hc)) as Hr. rewrite He in Hr. destruct Hr as (c' & HA & Hwf & Hs & Hv). exists c'.
  destruct (Add_unwatched c os c' (Ok ()) Hc Hos HA) as [Hc' _]. done.
Qed.

Lemma Delete_all c os :
  cache_ok c → Forall unwatched os → NoDup (primary <$> os) → (∀ o k, o ∈ os → primary o = Some k → is_Some (view c !! k)) →
  ∃ c', cache_Delete os c = (c', Ok ()) ∧ cache_ok c' ∧ ∀ k, view c' !! k = if decide (Some k ∈ primary <$> os) then None else view c !! k.
Proof.
  intros Hc Hos Hnd Hin. assert (∀ m : gmap string obj, (∀ o k, o ∈ os → primary o = Some k → is_Some (m !! k)) →
    ∃ m' : gmap string obj, each_map (map_delete c) os m = Some m' ∧ ∀ k, m' !! k = if decide (Some k ∈ primary <$> os) then None else m !! k) as He.
  { clear Hin. induction Hos as [|o os Ho _ IH]; intros m Hin.
    { exists m. split; [done|]. intros k. by rewrite decide_False by apply not_elem_of_nil. }
    rewrite fmap_cons in Hnd. apply NoDup_cons in Hnd as [Hni Hnd]. destruct (unwatched_addable c o Hc Ho) as [[k Hk] _]. cbn [each_map].
    assert (map_delete c o m = Some (delete k m)) as ->.
    { unfold map_delete. rewrite (primary_key_ok c o Hc), Hk. cbn. rewrite decide_True; [done|]. eapply Hin; [by left|done]. }
    cbn [mbind option_bind]. destruct (IH Hnd (delete k m)) as (m' & Hm' & Hl).
    { intros o' k' Ho' Hk'. rewrite lookup_delete_ne; [eapply Hin; [by right|done]|]. intros ->. apply Hni. rewrite Hk, <-Hk'.
      by apply list_elem_of_fmap_2. }
    exists m'. split; [done|]. intros k'. rewrite Hl, fmap_cons, Hk. destruct (decide (k' = k)) as [->|Hne].
    - rewrite lookup_delete_eq, (decide_True (P := Some k ∈ Some k :: _)) by (by left). by destruct (decide _).
    - rewrite lookup_delete_ne by done. apply decide_ext. rewrite elem_of_cons. naive_solver. }
  destruct (He (view c) Hin) as (m' & Hm' & Hl). pose proof (Delete_refines c os (co_wf _ Hc)) as Hr. rewrite Hm' in Hr.
  destruct Hr as (c' & HD & Hwf & Hs & Hv). exists c'. destruct (Delete_unwatched c os c' (Ok ()) Hc Hos HD) as [Hc' _]. subst m'. done.
Qed.

(** Removing an element from a slice. *)
Lemma swap_remove_perm {B} i (s : list B) x : s !! i = Some x → s ≡ₚ x :: swap_remove i s.
Proof.
  intros Hi. unfold swap_remove. destruct (last s) as [y|] eqn:Hlast; [|by apply last_None in Hlast as ->].
  apply last_Some in Hlast as [s' ->]. rewrite length_app, Nat.add_sub. destruct (decide (i = length s')) as [->|Hne].
  - rewrite lookup_app_r, Nat.sub_diag in Hi by lia. injection Hi as <-. rewrite list_insert_id by (by rewrite lookup_app_r, Nat.sub_diag by lia).
    rewrite take_app_length. by rewrite Permutation_app_comm.
  - assert (i < length s') as Hlt by (apply lookup_lt_Some in Hi; rewrite length_app in Hi; cbn in Hi; lia).
    rewrite lookup_app_l in Hi by done. rewrite insert_app_l, take_app_length' by (done || by rewrite length_insert).
    rewrite insert_take_drop by done. rewrite <-(take_drop_middle s' i x Hi) at 1. solve_Permutation.
Qed.

Lemma link_index_spec uid (links : list obj) :
  match link_index uid links with
  | Some i => ∃ l, links !! i = Some l ∧ link_UID l = Some uid
  | None => ∀ l, l ∈ links → link_UID l ≠ Some uid
  end.
Proof.
  induction links as [|l links IH]; cbn; [by intros l ?%elem_of_nil|]. case_decide as Hd; [by eexists|].
  destruct (link_index uid links); cbn; [done|]. intros l' [->|Hl']%elem_of_cons; [done|by apply IH].
Qed.

(** The links are sorted by what the agent tells of them. *)
Lemma resolve_each_spec (current existing orphans new updating : list obj) :
  Forall (λ o, is_Some (link_UID o)) existing → NoDup (link_UID <$> new) →
  let known := filter (λ e, link_UID e ∈ link_UID <$> current) existing in
  (∀ l, l ∈ new → l ∈ current) →
  ∃ n, resolve_each current existing orphans new updating =
      Ok (orphans ++ filter (λ e, link_UID e ∉ link_UID <$> current) existing, n, updating ++ known) ∧
    NoDup (link_UID <$> n) ∧ ∀ l, l ∈ n ↔ l ∈ new ∧ link_UID l ∉ link_UID <$> known.
Proof.
  intros He. revert orphans new updating. induction He as [|e existing [uid Hu] _ IH]; intros orphans new updating Hnd known Hsub.
  { exists new. cbn. rewrite !app_nil_r. split_and!; [done|done|]. set_solver. }
  cbn [resolve_each]. unfold known. rewrite Hu. assert (existsb (λ l, bool_decide (link_UID l = Some uid)) current = true ↔
    link_UID e ∈ link_UID <$> current) as Hex.
  { rewrite existsb_exists, list_elem_of_fmap. setoid_rewrite <-list_elem_of_In. setoid_rewrite bool_decide_eq_true. rewrite Hu. naive_solver. }
  destruct (existsb _ current) eqn:Hb.
  - apply proj1 in Hex. specialize (Hex eq_refl). rewrite filter_cons_False, filter_cons_True by tauto.
    set (new1 := match link_index uid new with Some i => _ | None => new end).
    assert (NoDup (link_UID <$> new1) ∧ ∀ l, l ∈ new1 ↔ l ∈ new ∧ link_UID l ≠ Some uid) as [Hnd1 Hnew1].
    { subst new1. pose proof (link_index_spec uid new) as Hi. destruct (link_index uid new) as [i|]; [|naive_solver].
      destruct Hi as (l & Hl & Hlu). pose proof (swap_remove_perm i new l Hl) as Hperm. pose proof Hnd as Hnd'.
      rewrite Hperm, fmap_cons, NoDup_cons, Hlu in Hnd'. destruct Hnd' as [Hni Hnd']. split; [done|]. intros l'.
      assert (l' ∈ new ↔ l' ∈ l :: swap_remove i new) as -> by (by rewrite <-Hperm). rewrite elem_of_cons.
      split; [|naive_solver]. intros Hl'. split; [by right|]. intros Heq. apply Hni. rewrite <-Heq. by apply list_elem_of_fmap_2. }
    destruct (IH orphans new1 (updating ++ [e]) Hnd1) as (n & Hr & Hn1 & Hn2); [intros l [Hl _]%Hnew1; by apply Hsub|].
    exists n. rewrite Hr, <-app_assoc. split_and!; [done|done|]. intros l. rewrite Hn2, Hnew1, fmap_cons, not_elem_of_cons, Hu. naive_solver.
  - assert (link_UID e ∉ link_UID <$> current) as Hni by (rewrite <-Hex; congruence).
    rewrite filter_cons_True, filter_cons_False by tauto. destruct (IH (orphans ++ [e]) new updating Hnd Hsub) as (n & Hr & Hn).
    exists n. by rewrite Hr, <-app_assoc.
Qed.

Lemma NoDup_fmap_eq {B C} (f : B → C) l x y : NoDup (f <$> l) → x ∈ l → y ∈ l → f x = f y → x = y.
Proof.
  intros Hnd [i Hi]%list_elem_of_lookup [j Hj]%list_elem_of_lookup Heq. assert (i = j) as ->; [|congruence].
  apply (NoDup_lookup (f <$> l) i j (f x) Hnd); rewrite list_lookup_fmap; [by rewrite Hi|rewrite Hj; cbn; congruence].
Qed.

(** After the event: each link that the agent tells of is there, the one that was there
    before, with other metrics, or a new one; and no other link of the connection is there. *)
Definition links_followed target c c' : Prop :=
  (∀ o k, o ∈ toLinkObjects no_metrics target → primary o = Some k →
    ∃ o', view c' !! k = Some o' ∧ aliased (default o (view c !! k)) o') ∧
  (∀ k, HasPrefix k (links_prefix target) = true → is_Some (view c' !! k) → Some k ∈ primary <$> toLinkObjects no_metrics target).

Section Followed.
Context target c (E n us ns : list obj).
Let cur := toLinkObjects no_metrics target.
Let known := filter (λ e, link_UID e ∈ link_UID <$> cur) E.
Let orphans := filter (λ e, link_UID e ∉ link_UID <$> cur) E.
Context (Hc : cache_ok c) (HE : ∀ o, o ∈ E ↔ ∃ k, view c !! k = Some o ∧ HasPrefix k (links_prefix target) = true)
  (HE_own : Forall (own_link target) E) (HE_keys : NoDup (primary <$> E))
  (Hn : ∀ l, l ∈ n ↔ l ∈ cur ∧ link_UID l ∉ link_UID <$> known) (Hn_ids : NoDup (link_UID <$> n))
  (Hus : Forall2 aliased known us) (Hns : Forall2 aliased n ns).

Lemma cur_own o : o ∈ cur → own_link target o.
Proof. apply (proj1 (Forall_forall _ _)), toLinkObjects_own. Qed.

Lemma E_own o : o ∈ E → own_link target o.
Proof. apply (proj1 (Forall_forall _ _) HE_own). Qed.

(** Links of the connection are the same to [resolveLinks] when they have the same key. *)
Lemma same_link o o' : own_link target o → own_link target o' → primary o = primary o' ↔ link_UID o = link_UID o'.
Proof.
  intros Ho Ho'. rewrite !(own_link_primary target) by done. split; [|by intros ->].
  destruct (proj2 (proj2 (own_link_unwatched target o Ho))) as [u ->], (proj2 (proj2 (own_link_unwatched target o' Ho'))) as [u' ->].
  by intros ->%(inj Some)%link_key_inj.
Qed.

Lemma pending_NoDup : NoDup (primary <$> us ++ ns).
Proof.
  rewrite fmap_app, (aliased_primaries known us Hus), (aliased_primaries n ns Hns). apply NoDup_app. split_and!.
  - eapply sublist_NoDup; [exact HE_keys|]. apply fmap_sublist, sublist_filter.
  - intros k (e & -> & He)%list_elem_of_fmap (l & Hk & Hl)%list_elem_of_fmap. apply list_elem_of_filter in He as [Hcur He].
    pose proof (proj1 (Hn l) Hl) as [Hl1 Hl2]. apply Hl2. apply (same_link e l (E_own e He) (cur_own l Hl1)) in Hk. rewrite <-Hk.
    apply list_elem_of_fmap_2, list_elem_of_filter. done.
  - assert (primary <$> n = fmap (link_key target) <$> (link_UID <$> n)) as ->.
    { rewrite <-list_fmap_compose. apply list_fmap_ext. intros i l Hi. apply own_link_primary, cur_own, Hn. by eapply list_elem_of_lookup_2. }
    apply NoDup_fmap_2; [|done]. intros [u|] [u'|]; cbn; [|done..]. by intros ->%(inj Some)%link_key_inj.
Qed.

Lemma pending_primary : primary <$> us ++ ns = primary <$> known ++ n.
Proof. by rewrite !fmap_app, (aliased_primaries known us Hus), (aliased_primaries n ns Hns). Qed.

Lemma pending_own o : o ∈ known ++ n → own_link target o.
Proof. intros [[_ H]%list_elem_of_filter|[H _]%Hn]%elem_of_app; [by apply E_own|by apply cur_own]. Qed.

(** The orphans were removed, and the links stored. *)
Context c1 c2 (H1 : ∀ k, view c1 !! k = if decide (Some k ∈ primary <$> orphans) then None else view c !! k)
  (H2 : view c2 = foldl put (view c1) (us ++ ns)).

Lemma pending_view k o :
  view c2 !! k = Some o ↔ (o ∈ us ++ ns ∧ primary o = Some k) ∨ (Some k ∉ primary <$> known ++ n ∧ Some k ∉ primary <$> orphans ∧ view c !! k = Some o).
Proof.
  rewrite H2, put_all.
  - rewrite H1, pending_primary. destruct (decide _); naive_solver.
  - intros o1 o2 Ho1 Ho2. apply (NoDup_fmap_eq primary (us ++ ns)); [apply pending_NoDup|done|done].
  - intros o1 Ho1. assert (primary o1 ∈ primary <$> known ++ n) as (o2 & -> & Ho2)%list_elem_of_fmap
      by (rewrite <-pending_primary; by apply list_elem_of_fmap_2).
    apply (unwatched_addable c); [done|]. by apply (own_link_unwatched target), pending_own.
Qed.

Lemma stored_alias o k l l' : Forall2 aliased l l' → o ∈ l → primary o = Some k → (∀ x, x ∈ l' → x ∈ us ++ ns) →
  ∃ o', view c2 !! k = Some o' ∧ aliased o o'.
Proof.
  intros Hl [i Hi]%list_elem_of_lookup Hk Hin. destruct (Forall2_lookup_l _ _ _ _ _ Hl Hi) as (o' & Ho' & Ha). exists o'. split; [|done].
  apply pending_view. left. split; [apply Hin; by eapply list_elem_of_lookup_2|]. by rewrite (aliased_primary o o' Ha).
Qed.

(** A link that is there is one that [Get] has found. *)
Lemma there o e k : o ∈ cur → primary o = Some k → view c !! k = Some e → e ∈ E ∧ link_UID o = link_UID e.
Proof.
  intros Ho Hk He. assert (e ∈ E) as HeE.
  { apply HE. exists k. split; [done|]. rewrite (own_link_primary target o (cur_own o Ho)) in Hk.
    destruct (link_UID o); [|done]. apply (inj Some) in Hk. subst k. apply link_key_prefix. }
  split; [done|]. apply same_link; [by apply cur_own|by apply E_own|]. rewrite Hk. symmetry. by eapply cached_key.
Qed.

Lemma followed_there o k : o ∈ cur → primary o = Some k → ∃ o', view c2 !! k = Some o' ∧ aliased (default o (view c !! k)) o'.
Proof.
  intros Ho Hk. destruct (view c !! k) as [e|] eqn:He; cbn.
  - destruct (there o e k Ho Hk He) as [HeE Heq]. apply (stored_alias e k known us); [done| |by eapply cached_key|intros; apply elem_of_app; by left].
    apply list_elem_of_filter. split; [|done]. rewrite <-Heq. by apply list_elem_of_fmap_2.
  - apply (stored_alias o k n ns); [done| |done|intros; apply elem_of_app; by right]. apply Hn. split; [done|].
    intros (e & Heq & [_ HeE]%list_elem_of_filter)%list_elem_of_fmap. destruct (proj1 (HE e) HeE) as (k' & Hek' & _).
    pose proof (cached_key c k' e Hc Hek') as Hk'. assert (primary o = primary e) as Hp
      by (apply same_link; [by apply cur_own|by apply E_own|done]). congruence.
Qed.

Lemma followed_only k : HasPrefix k (links_prefix target) = true → is_Some (view c2 !! k) → Some k ∈ primary <$> cur.
Proof.
  intros Hp [o [[Ho Hk]|(Hk1 & Hk2 & Ho)]%pending_view].
  - assert (Some k ∈ primary <$> known ++ n) as (o2 & -> & Ho2)%list_elem_of_fmap
      by (rewrite <-Hk, <-pending_primary; by apply list_elem_of_fmap_2).
    apply elem_of_app in Ho2 as [[Hin HE2]%list_elem_of_filter|[H _]%Hn]; [|by apply list_elem_of_fmap_2].
    apply list_elem_of_fmap in Hin as (l & Hl & Hin). apply list_elem_of_fmap. exists l. split; [|done].
    apply same_link; [by apply E_own|by apply cur_own|done].
  - exfalso. assert (o ∈ E) as HoE by (apply HE; eauto). pose proof (cached_key c k o Hc Ho) as Hpo.
    destruct (decide (link_UID o ∈ link_UID <$> cur)) as [Hin|Hni].
    + apply Hk1. rewrite fmap_app. apply elem_of_app. left. rewrite <-Hpo. by apply list_elem_of_fmap_2, list_elem_of_filter.
    + apply Hk2. rewrite <-Hpo. by apply list_elem_of_fmap_2, list_elem_of_filter.
Qed.

Lemma followed_rest k : HasPrefix k (links_prefix target) = false → view c2 !! k = view c !! k.
Proof.
  intros Hp. assert (∀ o, own_link target o → primary o ≠ Some k) as Hno.
  { intros o Ho. rewrite (own_link_primary target o Ho). destruct (link_UID o); [|done]. intros <-%(inj Some). by rewrite link_key_prefix in Hp. }
  assert (Some k ∉ primary <$> known ++ n) as Hk1.
  { intros (o & Hk & Ho)%list_elem_of_fmap. by apply (Hno o); [apply pending_own|]. }
  assert (Some k ∉ primary <$> orphans) as Hk2.
  { intros (o & Hk & [_ Ho]%list_elem_of_filter)%list_elem_of_fmap. by apply (Hno o); [apply E_own|]. }
  apply option_eq. intros o. rewrite pending_view. split; [|by auto]. intros [[Ho Hk]|(_ & _ & Ho)]; [|done]. exfalso. apply Hk1.
  rewrite <-Hk, <-pending_primary. by apply list_elem_of_fmap_2.
Qed.

Lemma followed : links_followed target c c2 ∧ ∀ k, HasPrefix k (links_prefix target) = false → view c2 !! k = view c !! k.
Proof. split; [split; [apply followed_there|apply followed_only]|apply followed_rest]. Qed.
End Followed.

Lemma handle_links_run target now (m : meta) s c :
  cache_ok c → ac_AddressSpaceType target = "standard" ∨ ac_AddressSpaceType target = "brokered" → NoDup (link_uuids target) →
  (∀ k o, view c !! k = Some o → HasPrefix k (links_prefix target) = true → own_link target o) →
  Namespace m = ac_AddressSpaceNamespace target → s = ac_AddressSpace target → Name m = ac_Uuid target →
  ∃ c', agent_run (handle_links no_metrics target now m s) c = (c', Some None) ∧ cache_ok c' ∧
    links_followed target c c' ∧ ∀ k, HasPrefix k (links_prefix target) = false → view c' !! k = view c !! k.
Proof.
  intros Hc Ht Hnd Hal Hm1 -> Hm2. unfold handle_links, agent_call. cbn [agent_run agent_answer fst snd]. rewrite Hm1, Hm2.
  fold (links_prefix target). destruct (Get_prefix c (links_prefix target) Hc) as (E & -> & HEk & HE). cbn [snd].
  assert (Forall (own_link target) E) as HEo by (apply Forall_forall; intros o (k & Ho & Hp)%HE; eauto).
  set (cur := toLinkObjects no_metrics target). destruct (resolve_each_spec cur E [] cur []) as (n & Hr & Hn1 & Hn2); [|by unfold cur; rewrite
    toLinkObjects_UID; apply NoDup_fmap_2; [apply _|]|done|].
  { eapply Forall_impl; [exact HEo|]. intros o Ho. by apply (own_link_unwatched target o). }
  unfold resolveLinks. rewrite Hr. cbn [app]. set (orphans := filter (λ e, link_UID e ∉ _) E). set (known := filter (λ e, link_UID e ∈ _) E) in *.
  assert (∀ l : list obj, (∀ o, o ∈ l → own_link target o) → Forall is_link l ∧ Forall unwatched l) as Hall
    by (intros l Hl; split; apply Forall_forall; intros o Ho; by apply (own_link_unwatched target o), Hl).
  destruct (Hall known) as [Hk1 Hk2]; [intros o [_ Ho]%list_elem_of_filter; by apply (E_own target E)|].
  destruct (Hall n) as [Hn3 Hn4]; [intros o [Ho _]%Hn2; by apply cur_own|].
  destruct (Hall orphans) as [_ Ho2]; [intros o [_ Ho]%list_elem_of_filter; by apply (E_own target E)|].
  destruct (updateAllLinks_links _ known (buildLinkMap (ac_Senders target)) (buildLinkMap (ac_Receivers target)) now Ht Hk1) as (us & -> & Hus).
  destruct (updateAllLinks_links _ n (buildLinkMap (ac_Senders target)) (buildLinkMap (ac_Receivers target)) now Ht Hn3) as (ns & -> & Hns).
  assert (∀ c1, cache_ok c1 → (∀ k, view c1 !! k = if decide (Some k ∈ primary <$> orphans) then None else view c !! k) →
    ∃ c', agent_run (Vis (AgentAdd (us ++ ns)) (λ r, match r with Ok _ => Ret None | Err err => Ret (Some err) | Panic => Crash end)) c1 =
      (c', Some None) ∧ cache_ok c' ∧ links_followed target c c' ∧ ∀ k, HasPrefix k (links_prefix target) = false → view c' !! k = view c !! k) as Hend.
  { intros c1 Hc1 Hv1. destruct (Add_all c1 (us ++ ns) Hc1) as (c2 & HA & Hc2 & Hv2).
    { apply Forall_app. split; eapply aliased_all; eauto. }
    exists c2. cbn [agent_run agent_answer]. rewrite HA. cbn [fst snd agent_run]. split_and!; [done|done|..]; by eapply (followed target c E n us ns). }
  destruct orphans as [|o os] eqn:Eo.
  - apply (Hend c Hc). intros k. by rewrite decide_False by apply not_elem_of_nil.
  - rewrite <-Eo in *. destruct (Delete_all c orphans Hc Ho2) as (c1 & HD & Hc1 & Hv1).
    { eapply sublist_NoDup; [exact HEk|]. apply fmap_sublist, sublist_filter. }
    { intros x k [_ Hx]%list_elem_of_filter Hk. apply HE in Hx as (k' & Hx & _). pose proof (cached_key c k' x Hc Hx).
      assert (k' = k) as -> by congruence. eauto. }
    destruct (Hend c1 Hc1 Hv1) as (c2 & Hrun & H). exists c2. split; [|done]. cbn [agent_run agent_answer]. rewrite HD. exact Hrun.
Qed.

(** The connection with the metrics that the agent tells. *)
Definition connection_update now target o : obj :=
  match o with Connection m s r => Connection m s (r.1, updateConnectionMetrics now target r.2) | _ => o end.

Lemma begins_with_itself s : HasPrefix s s = true.
Proof. induction s as [|a s IH]; [done|]. simpl. by rewrite Ascii.eqb_refl. Qed.

Lemma append_prefix k a b : HasPrefix k (a +:+ b) = true → HasPrefix k a = true.
Proof. rewrite !HasPrefix_spec. intros [t ->]. exists (b +:+ t). by rewrite append_assoc. Qed.

Lemma links_prefix_other target k : HasPrefix k (links_prefix target) = true → k ≠ connection_key target.
Proof. intros [t ->]%HasPrefix_spec. unfold links_prefix, connection_key. done. Qed.

(** The connection of the target. *)
Definition its_connection target o : Prop :=
  match o with
  | Connection m s _ => Kind m = "Connection" ∧ Namespace m = ac_AddressSpaceNamespace target ∧ s = ac_AddressSpace target ∧ Name m = ac_Uuid target
  | _ => False
  end.

Lemma its_connection_primary target o : its_connection target o → unwatched o ∧ primary o = Some (connection_key target).
Proof. destruct o; try done. intros (H1 & H2 & -> & H3). split; [done|]. unfold primary. cbn. by rewrite H1, H2, H3. Qed.

(** What [Get] finds is the connection, or nothing. *)
Lemma connection_found target c l :
  cache_ok c → alone target c → (∀ o, o ∈ l ↔ ∃ k, view c !! k = Some o ∧ HasPrefix k (connection_key target) = true) →
  let o := default (toConnectionObject no_metrics target) (view c !! connection_key target) in
  match l with [] => toConnectionObject no_metrics target | o :: _ => o end = o ∧ its_connection target o.
Proof.
  intros Hc Hal Hl. assert (∀ o, o ∈ l → view c !! connection_key target = Some o ∧ its_connection target o) as Hin.
  { intros o (k & Ho & Hp)%Hl. pose proof (co_kinds _ Hc _ _ Ho) as Hk. pose proof (cached_key c k o Hc Ho) as Hprim.
    destruct (connection_by_key o k Hk Hprim) as (m & s & r & ->); [by eapply (append_prefix _ "Connection/")|].
    destruct (Hal k _ Ho Hp) as (H1 & H2 & H3). assert (its_connection target (Connection m s r)) as Hits by done. split; [|done].
    destruct (its_connection_primary target _ Hits) as [_ Hkey]. rewrite Hprim in Hkey. injection Hkey as <-. done. }
  destruct l as [|o l]; cbn.
  - destruct (view c !! connection_key target) as [o|] eqn:Ho; [|done]. exfalso. apply (elem_of_nil (A := obj) o), Hl. exists (connection_key target).
    split; [done|]. apply begins_with_itself.
  - destruct (Hin o) as [-> H]; [by left|]. done.
Qed.

Lemma handle_connection_run target now c :
  cache_ok c → ac_AddressSpaceType target = "standard" ∨ ac_AddressSpaceType target = "brokered" → NoDup (link_uuids target) → alone target c →
  ∃ c', agent_run (handle_connection no_metrics target now) c = (c', Some None) ∧ cache_ok c' ∧
    view c' !! connection_key target =
      Some (connection_update now target (default (toConnectionObject no_metrics target) (view c !! connection_key target))) ∧
    links_followed target c c' ∧
    ∀ k, HasPrefix k (links_prefix target) = false → k ≠ connection_key target → view c' !! k = view c !! k.
Proof.
  intros Hc Ht Hnd Hal. unfold handle_connection, agent_call. cbn [agent_run agent_answer fst snd]. fold (connection_key target).
  destruct (Get_prefix c (connection_key target) Hc) as (l & -> & _ & Hl). cbn [snd].
  destruct (connection_found target c l Hc Hal Hl) as [-> Hits]. set (o := default _ _) in *. destruct o as [| | |m s r| | | | | |]; try done.
  destruct Hits as (Hk & Hns & Hs & Hn). set (con := Connection m s (r.1, updateConnectionMetrics now target r.2)).
  assert (its_connection target con) as [Hun Hp]%its_connection_primary by done. destruct (Add_all c [con] Hc) as (c1 & HA & Hc1 & Hv1); [by constructor|].
  cbn [foldl] in Hv1. unfold put in Hv1. rewrite Hp in Hv1. cbn [agent_run agent_answer]. rewrite HA. cbn [fst snd].
  assert (∀ k, k ≠ connection_key target → view c1 !! k = view c !! k) as Hsame by (intros k Hne; by rewrite Hv1, lookup_insert_ne).
  destruct (handle_links_run target now m s c1 Hc1 Ht Hnd) as (c2 & Hrun & Hc2 & [Hf1 Hf2] & Hrest); [|done..|].
  { intros k x Hx Hpre. rewrite Hsame in Hx by (by apply links_prefix_other).
    destruct (link_by_key x k) as (m' & s' & r' & ->); [by apply (co_kinds _ Hc k)|by apply (cached_key c)|by eapply (append_prefix _ "Link/")|]. by apply (Hal k _ Hx). }
  exists c2. split_and!; [done|done| | |].
  - rewrite Hrest, Hv1, lookup_insert_eq; [done|]. apply not_true_is_false. intros Hx. by apply (links_prefix_other target _ Hx).
  - split; [|done]. intros x k Hx Hkey. specialize (Hf1 x k Hx Hkey). rewrite Hsame in Hf1; [done|]. apply (links_prefix_other target).
    rewrite (own_link_primary target x (cur_own target x Hx)) in Hkey. destruct (link_UID x); [|done]. apply (inj Some) in Hkey. subst k. apply link_key_prefix.
  - intros k Hk1 Hk2. rewrite Hrest by done. by apply Hsame.
Qed.

Lemma agent_run_ok {A} (p : io aop A) c : wp_agent p → cache_ok c → cache_ok (agent_run p c).1.
Proof.
  revert c. induction p as [a| |X e k IH]; intros c Hp Hc; [done|done|]. cbn.
  destruct (Hp c _ _ Hc (agent_answer_ok c e)) as (H1 & _ & H2). by apply IH.
Qed.

(** ** Turns *)

(** Whose turn it is, and turns one after the other. *)
Inductive move :=
  | WatcherTurn (w : watched) (a : api)
  | EventTurn (event : AgentEvent (Cnt := Cnt)) (now : Z)
  | AgentTurn (i : nat).

Definition turn {A} (s : pool (A := A)) (mv : move) : pool (A := A) :=
  let c := shared s in
  match mv with
  | WatcherTurn w a =>
      match watching_threads s w with
      | (Vis e k, tr) =>
          let r := answer w a c e in
          {| shared := r.1; watching_threads := with_thread (watching_threads s) w (k r.2, tr ++ [Ev e r.2]); agent_threads := agent_threads s;
             spoiled := if decide (w = WAddress) then since_list (Ev e r.2) (spoiled s) else spoiled s |}
      | _ => s
      end
  | EventTurn event now =>
      if recognised event
      then {| shared := c; watching_threads := watching_threads s;
              agent_threads := agent_threads s ++ [handleEvent no_metrics event now]; spoiled := spoiled s |}
      else s
  | AgentTurn i =>
      match agent_threads s !! i with
      | Some (Vis e k) =>
          let r := agent_answer c e in
          {| shared := r.1; watching_threads := watching_threads s; agent_threads := <[i := k r.2]> (agent_threads s);
             spoiled := spoiled s ∪ changed c r.1 |}
      | _ => s
      end
  end.

Lemma turns_run {A} (s : pool (A := A)) l : rtc pool_step s (foldl turn s l).
Proof.
  revert s. induction l as [|mv l IH]; intros s; cbn; [done|]. etransitivity; [|apply IH]. destruct s as [c ts ags D].
  destruct mv as [w a|event now|i]; unfold turn; cbn [shared watching_threads agent_threads spoiled].
  - destruct (ts w) as [[r| |X e k] tr] eqn:Hth; [done|done|]. eapply rtc_once, watcher_step; [done|apply answer_ok].
  - destruct (recognised event) eqn:Hrec; [|done]. by apply rtc_once, event_step.
  - destruct (ags !! i) as [[r| |X e k]|] eqn:Hi; [done|done| |done]. eapply rtc_once, agent_step; [done|apply agent_answer_ok].
Qed.
End Agents.
End Facts.

(** ** The manager *)

Lemma creators_all : NoDup creators ∧ ∀ w, Creator w ∈ creators.
Proof. split; [by apply (bool_decide_unpack _); vm_compute|]. intros w. apply (bool_decide_unpack _). by destruct w. Qed.

(** What runs is what is to be shut down; all of it while the manager is watching, and
    nothing otherwise. *)
Definition manager_ok (rm : resourceManager) : Prop :=
  running rm = resourcewatchers rm ∧ (running rm).*1 = if isWatching rm then creators else [].

Lemma begin_each_ok fails cs rm : (∀ f, f ∈ cs → fails f = None) → running rm = resourcewatchers rm →
  let r := begin_each fails cs rm in
  r.2 = None ∧ running r.1 = resourcewatchers r.1 ∧ (running r.1).*1 = (running rm).*1 ++ cs ∧ isWatching r.1 = isWatching rm.
Proof.
  revert rm. induction cs as [|f cs IH]; intros rm Hf Hr; cbn; [by rewrite app_nil_r|]. rewrite (Hf f) by (by left).
  destruct (IH {| isWatching := isWatching rm; cancelTask := cancelTask rm; resourcewatchers := resourcewatchers rm ++ [(f, created rm)];
    running := running rm ++ [(f, created rm)]; created := S (created rm) |}) as (H1 & H2 & H3 & H4); cbn.
  - intros f' Hf'. apply Hf. by right.
  - by rewrite Hr.
  - split_and!; [done|done| |done]. rewrite H3. cbn. by rewrite fmap_app, <-app_assoc.
Qed.

Lemma end_ok rm : manager_ok rm → manager_ok (set_isWatching false (endAllWatchers rm)).
Proof.
  intros [Hr Hk]. assert (filter (λ w, w ∉ resourcewatchers rm) (running rm) = []) as Hf.
  { rewrite Hr. apply elem_of_nil_inv. intros w [? ?]%list_elem_of_filter. done. }
  split; cbn; by rewrite Hf.
Qed.

Lemma manage_ok fails rm event : (∀ f, fails f = None) → manager_ok rm → manager_ok (manage fails rm event).1.
Proof.
  intros Hf Hok. assert (manager_ok (set_cancelTask false rm)) as Hok' by done. unfold manage. revert Hok'. generalize (set_cancelTask false rm).
  clear rm Hok. intros rm Hok. assert (manager_ok (if isWatching rm then set_isWatching false (endAllWatchers rm) else rm)) as He
    by (destruct (isWatching rm); [by apply end_ok|done]).
  destruct event as [[]|]; [|done|done]. destruct (isWatching rm) eqn:Hw; [done|]. unfold beginAllWatchers. destruct Hok as [Hr Hk]. rewrite Hw in Hk.
  apply fmap_nil_inv in Hk. pose proof (begin_each_ok fails creators {| isWatching := isWatching rm; cancelTask := cancelTask rm;
    resourcewatchers := []; running := running rm; created := created rm |} (λ f _, Hf f) Hk) as (H1 & H2 & H3 & _).
  destruct (begin_each _ _ _) as [rm' err]. cbn [fst snd] in *. subst err. split; [done|]. cbn. rewrite H3. cbn. by rewrite Hk.
Qed.

(** As long as no creator fails, whatever the commands: while the manager is watching, there
    is one watcher for each kind, and when the channel is closed, none is left. *)
Lemma manager_one_each evs : Forall (λ ev, ∀ f, ev.1 f = None) evs →
  manager_ok (managed evs NewManager) ∧ ∀ fails, running (manage fails (managed evs NewManager) None).1 = [].
Proof.
  intros Hf. assert (manager_ok (managed evs NewManager)) as Hok.
  { unfold managed. assert (manager_ok NewManager) as H0 by done. revert H0. generalize NewManager as rm.
    induction Hf as [|ev evs Hev _ IH]; intros rm Hrm; [done|]. cbn [foldl]. apply IH, manage_ok; done. }
  split; [done|]. intros fails. pose proof (manage_ok (λ _, None) _ None (λ _, eq_refl) Hok) as [_ H].
  revert H. generalize (managed evs NewManager). intros rm H. apply (fmap_nil_inv fst). unfold manage in *. cbn [fst snd] in *. rewrite H.
  cbn [set_cancelTask isWatching]. by destruct (isWatching rm) eqn:E; cbn; rewrite ?E.
Qed.

(** When a creator fails, the watchers that were begun before it are forgotten by the next
    attempt: they write to the cache beside those that are begun then, and are not shut
    down. *)
Lemma begin_failure_leaks err :
  let fails f := if decide (f = AgentCreator) then Some err else None in
  let rm := managed [(fails, beginWatching); (λ _, None, beginWatching)] NewManager in
  length (running rm) = 15 ∧ length (resourcewatchers rm) = 8 ∧ (running (manage fails rm None).1).*1 = take 7 creators.
Proof. by vm_compute. Qed.



(** Watchers of addresses and of address spaces and an agent that take turns: two addresses
    are listed and one is changed, the channel is closed, and the other is no longer listed;
    but an agent has it. *)
Definition sim_resource (name rest : string) : resource (V := string) :=
  {| res_meta := {| APIVersion := ""; Kind := ""; Namespace := "ns"; Name := name |}; res_rest := rest |}.

#[refine] Definition sim_nothing : @ListDB (string * nat) := {| l_indexes := []; l_objects := [] |}.
Proof. all: constructor. Defined.

Definition sim_created_cache : MemdbCache (R := string * nat) :=
  match CreateObjectCache with Ok c => c | _ => {| schema := []; db := sim_nothing |} end.

Definition sim_watcher : watcher := {| watchingStarted := false; restartCounter := 0; closed := 0 |}.

#[local] Instance sim_fields : AgentFields string nat () := {|
  connection_rest _ := "";
  link_rest role := role;
  spec_Role := id;
  updateConnectionMetrics _ _ n := S n;
  updateAddressMetrics _ _ _ n := S n;
  link_metrics _ _ _ _ n := S n;
|}.

Lemma sim_created_ok : CreateObjectCache = Ok sim_created_cache.
Proof. reflexivity. Qed.

(** An agent tells of a connection with two links, then that one was closed and another one
    opened. *)
Definition sim_connection_event (senders receivers : list string) : AgentEvent (Cnt := ()) :=
  let link u := {| al_Address := "a"; al_Uuid := u; al_rest := () |} in
  {| ae_AddressSpace := "s"; ae_AddressSpaceNamespace := "ns"; ae_Type := AgentEventInsertOrUpdateType;
     ae_Object := AnAgentConnection {| ac_Uuid := "c"; ac_AddressSpace := "s"; ac_AddressSpaceNamespace := "ns"; ac_AddressSpaceType := "standard";
       ac_Senders := link <$> senders; ac_Receivers := link <$> receivers; ac_rest := () |} |}.

Definition sim_target (senders receivers : list string) : AgentConnection (Cnt := ()) :=
  match ae_Object (sim_connection_event senders receivers) with AnAgentConnection target => target | _ =>
    {| ac_Uuid := ""; ac_AddressSpace := ""; ac_AddressSpaceNamespace := ""; ac_AddressSpaceType := ""; ac_Senders := []; ac_Receivers := [];
       ac_rest := () |} end.

Definition sim_connected : MemdbCache (R := string * nat) :=
  (agent_run (handleEvent 0 (sim_connection_event ["l1"] ["l2"]) 0) sim_created_cache).1.

Lemma sim_connected_ok : cache_ok id sim_connected.
Proof.
  apply agent_run_ok; [apply handleEvent_wp; [exact (λ _, "")|apply _|done]|]. destruct (created_cache_ok (Met := nat) id) as (c & Hc & Hok & _).
  rewrite sim_created_ok in Hc. injection Hc as <-. done.
Qed.

Lemma sim_connected_alone : alone (sim_target [] ["l2"; "l3"]) sim_connected.
Proof.
  apply (bool_decide_unpack _). vm_compute. exact I.
Qed.


Notation sim_pool := (pool (V := string) (Met := nat) (A := watcher * watching)).
Notation sim_move := (move (V := string) (Cnt := ())).

Definition sim_launched : sim_pool :=
  launched_pool (HS := sched_id) id 0 (λ _, "") (λ _, "") sim_created_cache (λ _, []) (λ _, 2) (λ _, 3) (λ _, sim_watcher).

(** An agent's event about an address. *)
Definition sim_event (name : string) : AgentEvent (Cnt := ()) :=
  {| ae_AddressSpace := "s"; ae_AddressSpaceNamespace := "ns"; ae_Type := AgentEventInsertOrUpdateType;
     ae_Object := AnAgentAddress {| aa_Name := name; aa_AddressSpaceNamespace := "ns"; aa_rest := () |} |}.

Definition sim_lists w l : sim_move := WatcherTurn w (inr l, None, StopReceived).
Definition sim_other w : sim_move := sim_lists w [].
Definition sim_receives w i : sim_move := WatcherTurn w (inr [], None, i).

(** The agent reads [s.b] in the first round, and stores it again in the second. *)
Definition sim_turns : list sim_move :=
  [sim_lists WAddress [sim_resource "s.a" "a1"; sim_resource "s.b" "b1"]; sim_other WAddress; sim_other WAddress;
   sim_lists WAddressSpace [sim_resource "s" "space"]; sim_other WAddressSpace;
   sim_other WAddress; sim_other WAddressSpace; sim_other WAddress; sim_other WAddress; sim_other WAddressSpace;
   EventTurn (sim_event "s.b") 0; AgentTurn 0;
   sim_receives WAddress (WatchEvent Modified (inr (sim_resource "s.a" "a2"))); sim_other WAddress; sim_receives WAddress WatchClosed;
   sim_lists WAddress [sim_resource "s.a" "a3"]; sim_other WAddress; sim_other WAddress; sim_other WAddressSpace; sim_other WAddress;
   sim_other WAddress; sim_other WAddress; AgentTurn 0; sim_receives WAddress StopReceived].

Definition sim_done : sim_pool := foldl (turn 0 (λ _, "")) sim_launched sim_turns.

Lemma sim_done_ended : (watching_threads sim_done WAddress).1 = Ret ({| watchingStarted := true; restartCounter := 1; closed := 1 |}, Ended).
Proof. vm_compute. reflexivity. Qed.

(** The address that is no longer listed was removed, and then stored again by the agent: it
    stays in the cache. *)
Lemma removed_address_returns :
  res_rest <$> own WAddress (shared sim_done) = {["Address/ns/s.a" := "a3"; "Address/ns/s.b" := "b1"]} ∧
  spoiled sim_done = {["Address/ns/s.b"]}.
Proof. split; vm_compute; reflexivity. Qed.

(** The agent gets by prefix: an event about [s.a], which is not there, changes the metrics of
    [s.ab]. *)
Lemma metrics_of_another_address :
  let s := foldl (turn 0 (λ _, "")) sim_launched
    [sim_lists WAddress [sim_resource "s.ab" "ab"]; sim_other WAddress; sim_other WAddress; sim_other WAddress;
     EventTurn (sim_event "s.a") 0; AgentTurn 0; AgentTurn 0] in
  (λ o, snd <$> held WAddress o) <$> view (shared s) !! "Address/ns/s.ab" = Some (Some 1).
Proof. vm_compute. reflexivity. Qed.

Lemma sim_done_spoiled : spoiled_of WAddress (spoiled sim_done) = {["Address/ns/s.b"]}.
Proof. rewrite <-(proj2 removed_address_returns). reflexivity. Qed.

Lemma sim_done_other : res_rest <$> own WAddress (shared sim_done) !! "Address/ns/s.a" = Some "a3".
Proof. rewrite <-lookup_fmap, (proj1 removed_address_returns). reflexivity. Qed.

